(* ===== verification/_CoqProject ===== *)
-Q . S2P
Prelude.v
MuxFrame.v
MuxStream.v
Mux.v
MuxSession.v
MuxLink.v
SeqWindow.v
Padding.v
GoStrings.v
GoFs.v
GoFsProofs.v
Sha256.v
GoEncoding.v
AuthProof.v
AuthClaims.v
Evidence.v
EvidenceProofs.v
EvidenceLedger.v
EvidenceClaims.v
EvidenceJournal.v
EvidenceJournalProofs.v
EvidenceJournalClaims.v
EvidenceQueue.v
EvidenceQueueProofs.v
EvidenceQueueClaims.v
SessionLink.v
SessionLinkProofs.v
NodeContext.v
HopProof.v
HopProofs.v
RecursiveHop.v
HopClaims.v
ReconnectIdentity.v
SessionControl.v
SessionControlProofs.v
SessionControlClaims.v
Framing.v
MapReduce.v
WorkerPool.v
MapReduceEngine.v
MapReduceProofs.v
MapReduceClaims.v
SessionRoute.v
SessionRouteProofs.v
Storage.v
StorageProofs.v
StorageClaims.v
SessionResume.v
PubSub.v
SessionEvents.v
SessionEventsProofs.v
Rules.v
RulesPipeline.v
RulesProofs.v
RulesClaims.v
Mqtt.v
P9Server.v
P9ServerProofs.v
P9Claims.v
FileBackend.v
P9Client.v
P9Backend.v
P9BackendProofs.v
P9BackendClaims.v
FileBackendClaims.v
GoFsOps.v
GoFsOpsProofs.v
P9ClientProofs.v
P9Export.v
P9ExportProofs.v
P9ClientOps.v
P9ClientRefines.v
P9ClientClaims.v
SessionFsOps.v
SessionFsOpsProofs.v
SessionFsOpsClaims.v
SessionFsOpsList.v
