(* ===== verification/Prelude.v ===== *)
(** * weaverssh: a verification development of the Go implementation

    weaverssh joins nodes into a session: a chain of SSH hops carries one
    multiplexed connection, and over its logical streams run file, event, storage
    and evidence services.  This library models the parts of it whose
    behaviour is decided by its own code and proves what makes them correct.
    Functions of the code are Rocq functions of the same names on values; a
    method that changes an object is a function from the object's state to its
    new state; an error is a value; a goroutine's progress is a step, and what
    holds of concurrent code is proved over every order of steps.

    ** How the parts interact

    A multiplexer (sessionmux) turns one ordered byte stream into many flow
    controlled ones.  A node joins with a signed grant and a signed position in the
    chain (authproof); both ends of an adjacency derive one link identity and
    publish transports under leases (sessionlink); a router picks the next hop from
    the signed topology and the lease registry (sessionroute).  Every SSH hop adds
    a signed record to a chain the next node verifies (hopproof, internal/app); on
    the session a node registers, again after a reconnect, by answering a
    challenge (sessioncontrol).  Streams carry length-prefixed messages
    (sessionudp, sessionevents, sessionexec, mapreduce, sessionbroker), copies that survive a broken transport (sessionresume), 9P
    (internal/p9svc, internal/p9client) and file operations (sessionfsops).  File
    services ask a backend before and after an operation (filebackend).
    Events go through a bus and an MQTT broker (pubsub) under a policy
    (sessionevents) and a rule engine (rules); map/reduce jobs run on the nodes
    that admit them (mapreduce).  Durable state lives in storage
    adapters (storageadapter); evidence about it is chained, signed and anchored
    (evidencebinding).

    ** Files

    - This file: results and their notation, fixed-width integers, bytes in
      big-endian order, lists; the hints and tactics the other files share.
    - The standard library as far as the code uses it: GoStrings (UTF-8,
      [TrimSpace], [ToLower], hex), GoEncoding (base64, the JSON of
      strings, integers and lists), Sha256, GoFs and GoFsOps (paths, a file
      system with symbolic links and the kernel's walk), with their lemmas in
      GoFsProofs and GoFsOpsProofs.
    - sessionmux: MuxFrame (frame.go, flow.go), MuxStream (stream.go), Mux (mux.go,
      over a heap of shared streams), MuxSession (session-level theorems),
      MuxLink (two multiplexers joined by frame queues).
    - sessionproxy/sequence_window.go: SeqWindow.  padding: Padding.
    - authproof: AuthProof (grants, nonce cache, authority levels), AuthClaims,
      NodeContext, ReconnectIdentity.
    - hopproof: HopProof, HopProofs; recursive sessions of internal/app:
      RecursiveHop; what both guarantee: HopClaims.
    - sessioncontrol: SessionControl (registry, both exchanges, target streams),
      SessionControlProofs, SessionControlClaims.
    - mapreduce: MapReduce (requests, policy, registry of plugins), WorkerPool (the
      goroutines of a stage as steps; [Pools] is its interface),
      MapReduceEngine (engine, coordinator, wire), MapReduceProofs,
      MapReduceClaims.
    - sessionlink: SessionLink, SessionLinkProofs.  sessionroute: SessionRoute,
      SessionRouteProofs.
    - The framing of six packages: Framing.  sessionresume: SessionResume.
    - storageadapter: Storage, StorageProofs, StorageClaims; the interface
      [Store] and its laws [PlainStore] separate engines, wrappers and
      migration.
    - pubsub: PubSub (topics and bus), Mqtt (packets and broker).
      sessionevents: SessionEvents, SessionEventsProofs.
    - rules: Rules (rules.go), RulesPipeline (api.go, infrastructure.go,
      pipeline.go), RulesProofs, RulesClaims.
    - internal/p9svc: P9Server, P9ServerProofs, P9Claims, and the mediating
      transport in P9Backend, P9BackendProofs, P9BackendClaims.
      internal/p9client: P9Client; P9Export says what its operations mean and
      P9ClientProofs, P9ExportProofs, P9ClientOps, P9ClientRefines and
      P9ClientClaims show that client and server implement it.
    - filebackend: FileBackend, FileBackendClaims; [CoreStore] and [FileAPI] are
      the interfaces the protocol servers and the core are proved against.
    - sessionfsops: SessionFsOps, SessionFsOpsProofs, SessionFsOpsClaims,
      SessionFsOpsList.
    - evidencebinding: Evidence (nonrepudiation.go, anchor.go),
      EvidenceProofs, EvidenceLedger, EvidenceClaims; EvidenceJournal
      (agent_journal.go, anchor_threshold.go) with EvidenceJournalProofs and
      EvidenceJournalClaims; EvidenceQueue (agent_remote_queue.go) with
      EvidenceQueueProofs and EvidenceQueueClaims.

    ** What the theorems show

    - Transport.  Frames read back as written; every reachable multiplexer is
      well formed; a frame for one stream touches no other, and which frames end
      a session is listed.  Between two multiplexers no frame is refused exactly
      when the sender's largest frame is within the receiver's limit; then no
      byte is lost or reordered and nobody waits forever.  A
      sequence number passes the replay window once; padding is transparent.
    - Identity and routing.  A verified grant is valid, signed, fresh and
      admitted; its canonical bytes determine it if its strings are valid UTF-8;
      it is accepted once.  A superseded transport is fenced from its link;
      planned hops reach the target; registrations are atomic and fenced.
    - Hops and registration.  An accepted chain of hops is the signed path to the
      verifying node; what a node prepares for its child the child accepts.  The
      registry authorises only what signed capabilities grant; an accepted
      reconnect proof is fresh and held by the certified key; an honest
      exchange succeeds.
    - Jobs.  A stage ends under every interleaving with the results in order or
      a real error; the policy admits exactly what some rule allows and none
      denies; one node or many compute the same job, whatever the schedule.
    - Files.  The 9P server and the file-operation service stay below their
      root whatever arrives; a read-only one changes nothing; every request is
      mediated by the backend; replacements, tree commits and listings do
      exactly what they say or leave the old state; the 9P client and server
      together refine operations on a tree without links; copies end, and end
      correct.
    - Storage.  An opened store on the memory engine is a finite map with limits,
      refusals and failed transactions included; namespaces are isolated; file
      updates are durable or without effect, except that two failed renames lose
      the file; the backend's counters survive restarts.
    - Events and policy.  A node only receives what some rule grants it; a
      published MQTT message reaches exactly the matching clients, complete
      unless the connection fails; a rule set decides by its first match,
      whatever the order in which maps are visited, and alike in normal form; a
      staged policy permits only by agreement; an event's facts cannot be forged
      by its fields.
    - Evidence.  Inclusion proofs, ledgers and the witness are tamper evident;
      the journal reopens as it was; the queue loses no accepted head of valid
      UTF-8 while its file is there, and which failed writes lose the file is
      stated; its flush ends and its delays are exact.

    ** Bounds and fuel

    Integers whose width matters are reduced where Go reduces them ([u8] to
    [u64], [i64]); lengths and counters that cannot reach their bound in memory
    are left unbounded.  Recursion that follows the input takes its length as
    fuel, which suffices because every step consumes a byte ([runes], [strip],
    [chunks], JSON bodies, [scan_lines], [ReplaceAll], [handleConn], the read
    loop of the multiplexer, [drain]).  Path walks stop after 40 links in
    the kernel's walk and 255 in [EvalSymlinks], as the host and Go do.  Nine
    base-128 digits cover every MQTT length, twenty digits every 64-bit integer, 65
    doublings every delay.  [climb] takes one round per leaf, a flush one per
    queued item and one more.  Loops whose length the other side decides ([Copy],
    [Migrate], [ListAll], the loops of the 9P client) return an explicit "still
    running" when fuel runs out, and the theorems give the fuel with
    which they end.

    ** Parameters and hypotheses

    Code outside the repository enters as an argument: Ed25519 ([Ed25519] with
    [Ed25519Laws]: a signature made by a key verifies under it), case
    folding beyond ASCII ([UnicodeTables]), OpenSSH signatures ([SshSig] with
    [SshSigLaws]), the matchers of path, regexp, strconv and net ([Matchers]), the
    order in which a loop visits a map ([MapOrder]: for every occasion, a
    permutation of the entries), the JSON of whole documents ([MessageCodec],
    [FsJson], or a pair of functions, with the round trip each theorem needs; a
    decoded string is the encoded one made valid UTF-8), what a run of a worker
    pool returned ([Pools], whose laws are proved of the steps of WorkerPool), the
    outcome of every system call ([host], [xhost],
    [persist_host], [PolicyHost]), the clock, random identifiers, and the
    environment of a copy.  SHA-256 is computed; where a theorem needs it, it is
    assumed free of collisions on the finitely many inputs named.
    Every theorem with a hypothesis is applied at a concrete input in a lemma
    of the same name ending in _witness.

    ** Not modelled, and why

    - The commands (cmd), the application (internal/app, except its recursive
      sessions), mounts and their front
      ends (internal/vfs, vfscli, vfsmount), bridges to agents, displays and
      Fabric: they wire the packages to terminals, processes and libraries
      outside the repository.
    - Relays, tunnels, SOCKS and UDP proxies and the socket engine: they copy
      bytes between live sockets; the framing and the windows they use are
      modelled.
    - HTTP handlers, hooks and plug-ins that run programs (pubsub,
      filebackend, extension, sessionexec, mapreduce's command plugins,
      originruntime, connectionscan): their behaviour is that of the host.
    - The policies of sessionexec, sessionudp and socksproof and the descriptions
      of interfaces in apicontract and sessionapi are left out.
    - Text: decoding of JSON, the wording of errors, logging and metrics.
    - Locks are modelled by what they make atomic, condition variables and
      channels by the steps they enable; the scheduler is the order of steps.
*)

From stdpp Require Export base tactics option list numbers gmap strings sorting.
From Stdlib Require Export ZArith Lia.

#[global] Set Warnings "-notation-overridden".
Global Open Scope Z_scope.

(** ** Results: Go's [(value, error)] pairs *)

Inductive result (E A : Type) : Type :=
| Ok (a : A)
| Err (e : E).
Arguments Ok {E A} a.
Arguments Err {E A} e.

Definition result_bind {E A B : Type} (r : result E A) (k : A -> result E B) : result E B :=
  match r with
  | Ok a => k a
  | Err e => Err e
  end.

Definition result_map_err {E F A : Type} (f : E -> F) (r : result E A) : result F A :=
  match r with
  | Ok a => Ok a
  | Err e => Err (f e)
  end.

Definition is_ok {E A : Type} (r : result E A) : bool :=
  match r with Ok _ => true | Err _ => false end.

Declare Scope go_scope.
Delimit Scope go_scope with go.
Notation "'let*' x := e 'in' k" := (result_bind e (fun x => k))
  (at level 10, x name, e at level 100, k at level 200) : go_scope.
Notation "'let*' ' p := e 'in' k" := (result_bind e (fun x => match x with p => k end))
  (at level 10, p strict pattern, e at level 100, k at level 200) : go_scope.
Notation "'guard' b 'else' e 'in' k" := (if b then k else Err e)
  (at level 10, b at level 100, e at level 100, k at level 200) : go_scope.
Global Open Scope go_scope.

Lemma result_bind_ok {E A B} (r : result E A) (k : A -> result E B) b :
  result_bind r k = Ok b <-> exists a, r = Ok a /\ k a = Ok b.
Proof. destruct r; simpl; naive_solver. Qed.

(** ** Record update

    [r <| field := v |>] is Go's assignment to a field of a struct; a record
    declares one [Update] instance per field that the code assigns. *)
Class Update {R F : Type} (proj : R -> F) : Type := update : F -> R -> R.
Arguments update {R F} proj {_} _ _ /.
Notation "r <| f := v |>" := (update f v r)
  (at level 1, f at level 0, v at level 99, left associativity,
   format "r  <| f  :=  v |>") : go_scope.

(** ** Fixed-width unsigned integers *)

Definition u8 (z : Z) : Z := z mod 2 ^ 8.
Definition u16 (z : Z) : Z := z mod 2 ^ 16.
Definition u32 (z : Z) : Z := z mod 2 ^ 32.
Definition u64 (z : Z) : Z := z mod 2 ^ 64.

Arguments u8 : simpl never.
Arguments u16 : simpl never.
Arguments u32 : simpl never.
Arguments u64 : simpl never.

Definition is_u (w z : Z) : Prop := 0 <= z < 2 ^ w.

Lemma is_u_mod w z : 0 <= w -> is_u w (z mod 2 ^ w).
Proof. intros. apply Z.mod_pos_bound. lia. Qed.

Lemma u32_small z : is_u 32 z -> u32 z = z.
Proof. apply Z.mod_small. Qed.
Lemma u64_small z : is_u 64 z -> u64 z = z.
Proof. apply Z.mod_small. Qed.
Lemma u16_small z : is_u 16 z -> u16 z = z.
Proof. apply Z.mod_small. Qed.
Lemma u8_small z : is_u 8 z -> u8 z = z.
Proof. apply Z.mod_small. Qed.

(** Two's complement [int64]. *)
Definition i64 (z : Z) : Z := (z + 2 ^ 63) mod 2 ^ 64 - 2 ^ 63.

Lemma i64_small z : - 2 ^ 63 <= z < 2 ^ 63 -> i64 z = z.
Proof. intros. unfold i64. rewrite Z.mod_small; lia. Qed.

(** ** time.Time and time.Duration: nanoseconds since the Unix epoch

    Monotonic clock readings are not kept; the zero Time is 1 January of
    year 1. *)
Definition second : Z := 1000000000.
Definition hour : Z := 3600 * second.
Definition time_zero : Z := -62135596800 * second.
Definition IsZero (t : Z) : bool := t =? time_zero.
Definition Before (t u : Z) : bool := t <? u.
Definition After (t u : Z) : bool := u <? t.
Definition Unix (t : Z) : Z := t / second.
(** [t.Sub(u)] saturates at the range of a Duration. *)
Definition Sub (t u : Z) : Z := Z.max (- 2 ^ 63) (Z.min (2 ^ 63 - 1) (t - u)).

(** ** Bytes and Go strings: sequences of byte values *)

Abbreviation bytes := (list Z).

Definition bytes_ok (b : bytes) : Prop := Forall (is_u 8) b.

Definition len {A} (l : list A) : Z := Z.of_nat (length l).
Arguments len : simpl never.

Definition str (s : string) : bytes :=
  (fun a => Z.of_N (Ascii.N_of_ascii a)) <$> String.list_ascii_of_string s.

(** ** encoding/binary.BigEndian *)

Fixpoint be_put (n : nat) (v : Z) : bytes :=
  match n with
  | O => []
  | S n' => u8 (Z.shiftr v (8 * Z.of_nat n')) :: be_put n' v
  end.

Definition be_get (b : bytes) : Z :=
  fold_left (fun acc x => Z.lor (Z.shiftl acc 8) x) b 0.

Definition put_u16 := be_put 2.
Definition put_u32 := be_put 4.
Definition put_u64 := be_put 8.

(** encoding/binary.LittleEndian *)
Definition le_put (n : nat) (v : Z) : bytes := rev (be_put n v).
Definition le_get (b : bytes) : Z := be_get (rev b).

(** Slicing: Go's [b[i:j]]. *)
Definition slice {A} (l : list A) (i j : nat) : list A := take (j - i) (drop i l).

(** ** Shared lemmas *)

Lemma len_nonneg {A} (l : list A) : 0 <= len l.
Proof. unfold len. lia. Qed.
Lemma len_cons {A} (x : A) l : len (x :: l) = 1 + len l.
Proof. unfold len. simpl. lia. Qed.
Lemma len_app {A} (l k : list A) : len (l ++ k) = len l + len k.
Proof. unfold len. rewrite length_app. lia. Qed.
Lemma len_take {A} n (l : list A) : len (take n l) = Z.min (Z.of_nat n) (len l).
Proof. unfold len. rewrite length_take. lia. Qed.
Lemma len_drop {A} n (l : list A) : len (drop n l) = Z.max 0 (len l - Z.of_nat n).
Proof. unfold len. rewrite length_drop. lia. Qed.
Lemma len_zero_nil {A} (l : list A) : len l = 0 -> l = [].
Proof. destruct l; [done|]. rewrite len_cons. pose proof (len_nonneg l). lia. Qed.
Lemma len_pos_cons {A} (l : list A) : 0 < len l -> l <> [].
Proof. by intros H ->. Qed.

(** [len []] is convertible to [0], so it is replaced by conversion. *)
Ltac len_nil_simpl :=
  repeat match goal with
  | |- context [len (@nil ?A)] => change (len (@nil A)) with 0
  | H : context [len (@nil ?A)] |- _ => change (len (@nil A)) with 0 in H
  end.

Create Rewrite HintDb go_len.
#[export] Hint Rewrite @len_cons @len_app @len_take @len_drop @length_app @length_take @length_drop : go_len.
#[export] Hint Resolve @len_nonneg : core.

(** Case analysis on the conditionals of a definition, keeping the boolean
    tests as arithmetic facts. *)
Ltac go_bool :=
  repeat match goal with
  | H : andb _ _ = true |- _ => apply andb_prop in H as [? ?]
  | H : orb _ _ = false |- _ => apply orb_false_elim in H as [? ?]
  | H : negb _ = true |- _ => apply negb_true_iff in H
  | H : negb _ = false |- _ => apply negb_false_iff in H
  | H : (_ <? _)%Z = true |- _ => apply Z.ltb_lt in H
  | H : (_ <? _)%Z = false |- _ => apply Z.ltb_ge in H
  | H : (_ <=? _)%Z = true |- _ => apply Z.leb_le in H
  | H : (_ <=? _)%Z = false |- _ => apply Z.leb_gt in H
  | H : (_ =? _)%Z = true |- _ => apply Z.eqb_eq in H
  | H : (_ =? _)%Z = false |- _ => apply Z.eqb_neq in H
  | H : bool_decide _ = true |- _ => apply bool_decide_eq_true in H
  | H : bool_decide _ = false |- _ => apply bool_decide_eq_false in H
  end.

(** Split every [if]/[match] of the goal or of a hypothesis and discard the
    branches the equations contradict. *)
Ltac go_cases :=
  repeat (case_match; go_bool; simplify_eq/=).

(** Closed arithmetic side conditions, by evaluation. *)
Ltac closed_arith :=
  repeat match goal with
  | |- _ /\ _ => split
  | |- _ <= _ => vm_compute; discriminate
  | |- _ < _ => vm_compute; reflexivity
  | |- _ = _ => vm_compute; reflexivity
  | |- _ -> _ => intro
  end.

(** Goals [bytes_ok [b0; ...; bn]] with a hypothesis for each byte. *)
Ltac solve_bytes :=
  unfold bytes_ok; repeat first [apply List.Forall_nil | apply List.Forall_cons]; try assumption.

Lemma lor_shiftl_8 a x : 0 <= x < 2 ^ 8 -> Z.lor (Z.shiftl a 8) x = a * 256 + x.
Proof.
  intros Hx. rewrite <- Z.lxor_lor, <- Z.add_nocarry_lxor.
  - rewrite Z.shiftl_mul_pow2 by lia. reflexivity.
  - apply Z.bits_inj'. intros n Hn. rewrite Z.land_spec, Z.bits_0.
    destruct (decide (n < 8)).
    + rewrite Z.shiftl_spec_low by lia. done.
    + rewrite <- (Z.mod_small x (2 ^ 8)) by lia.
      rewrite Z.mod_pow2_bits_high by lia. apply andb_false_r.
  - apply Z.bits_inj'. intros n Hn. rewrite Z.land_spec, Z.bits_0.
    destruct (decide (n < 8)).
    + rewrite Z.shiftl_spec_low by lia. done.
    + rewrite <- (Z.mod_small x (2 ^ 8)) by lia.
      rewrite Z.mod_pow2_bits_high by lia. apply andb_false_r.
Qed.

Lemma be_put_length n v : length (be_put n v) = n.
Proof. induction n; simpl; congruence. Qed.

Lemma be_put_ok n v : bytes_ok (be_put n v).
Proof. induction n; simpl; constructor; [by apply is_u_mod|done]. Qed.

Lemma be_get_snoc b x : be_get (b ++ [x]) = Z.lor (Z.shiftl (be_get b) 8) x.
Proof. unfold be_get. by rewrite fold_left_app. Qed.

Lemma be_fold_acc b acc :
  bytes_ok b ->
  fold_left (fun acc x => Z.lor (Z.shiftl acc 8) x) b acc = acc * 256 ^ len b + be_get b.
Proof.
  unfold be_get. revert acc. induction b as [|x b IH]; intros acc Hb; simpl.
  - change (len (@nil Z)) with 0. lia.
  - apply Forall_cons in Hb as [Hx Hb]. rewrite IH by done.
    rewrite (IH (Z.lor _ _)) by done. rewrite !lor_shiftl_8 by done.
    rewrite len_cons, Z.pow_add_r by (pose proof (len_nonneg b); lia). lia.
Qed.

Lemma be_get_cons x b : is_u 8 x -> bytes_ok b -> be_get (x :: b) = x * 256 ^ len b + be_get b.
Proof.
  intros Hx Hb. unfold be_get at 1. simpl. rewrite be_fold_acc by done.
  by rewrite lor_shiftl_8.
Qed.

Lemma be_get_bound b : bytes_ok b -> 0 <= be_get b < 256 ^ len b.
Proof.
  induction b as [|x b IH]; intros Hb; [done|].
  apply Forall_cons in Hb as [Hx Hb]. rewrite be_get_cons by done.
  rewrite len_cons, Z.pow_add_r by (pose proof (len_nonneg b); lia).
  specialize (IH Hb). unfold is_u in Hx. nia.
Qed.

Lemma be_get_put n v : be_get (be_put n v) = v mod 2 ^ (8 * Z.of_nat n).
Proof.
  induction n as [|n IH]; [by rewrite Z.mod_1_r|].
  simpl be_put. rewrite be_get_cons, IH by (try apply is_u_mod; try apply be_put_ok; lia).
  unfold len, u8. rewrite be_put_length, Z.shiftr_div_pow2 by lia.
  replace (256 ^ Z.of_nat n) with (2 ^ (8 * Z.of_nat n)) by (rewrite Z.pow_mul_r by lia; done).
  replace (8 * Z.of_nat (S n)) with (8 * Z.of_nat n + 8) by lia.
  rewrite Z.pow_add_r, Z.rem_mul_r by lia. lia.
Qed.

Lemma be_get_inj b b' : length b = length b' -> bytes_ok b -> bytes_ok b' ->
  be_get b = be_get b' -> b = b'.
Proof.
  revert b'. induction b as [|x b IH]; intros [|y b'] Hl Hb Hb' He; try done.
  apply Forall_cons in Hb as [Hx Hb], Hb' as [Hy Hb'].
  rewrite !be_get_cons in He by done. simpl in Hl.
  assert (len b = len b') as El by (unfold len; lia). rewrite El in He.
  pose proof (be_get_bound b Hb) as B1. pose proof (be_get_bound b' Hb') as B2.
  rewrite El in B1. assert (x = y) as -> by nia.
  f_equal. apply IH; [lia|done|done|lia].
Qed.

Lemma be_put_get b : bytes_ok b -> be_put (length b) (be_get b) = b.
Proof.
  intros Hb. apply be_get_inj; [apply be_put_length|apply be_put_ok|done|].
  rewrite be_get_put. apply Z.mod_small. pose proof (be_get_bound b Hb) as B.
  unfold len in B. rewrite Z.pow_mul_r by lia. done.
Qed.

Lemma le_put_length n v : length (le_put n v) = n.
Proof. unfold le_put. by rewrite length_rev, be_put_length. Qed.
Lemma len_le_put n v : len (le_put n v) = Z.of_nat n.
Proof. unfold len. by rewrite le_put_length. Qed.
Lemma le_put_ok n v : bytes_ok (le_put n v).
Proof. apply Forall_rev, be_put_ok. Qed.
Lemma le_get_put n v : le_get (le_put n v) = v mod 2 ^ (8 * Z.of_nat n).
Proof. unfold le_get, le_put. by rewrite rev_involutive, be_get_put. Qed.
Lemma le_get_bound b : bytes_ok b -> 0 <= le_get b < 256 ^ len b.
Proof.
  intros Hb. unfold le_get. replace (len b) with (len (rev b)) by (unfold len; by rewrite length_rev).
  by apply be_get_bound, Forall_rev.
Qed.
