(* ===== verification/MuxFrame.v ===== *)
(** * sessionmux/frame.go and sessionmux/flow.go: the wire codec

    [WriteFrame] and [ReadFrame] over byte sequences, the payload-length rule
    of fixed-shape frames, and the WINDOW credit payload. *)

From S2P Require Import Prelude.

Module MuxFrame.

(** ** Constants and wire enumerations *)

Definition protocolVersion : Z := 2.
Definition headerSize : nat := 20.
Definition defaultMaxPayload : Z := Z.shiftl 16 20.
Definition frameMagic : bytes := [87; 86; 77; 49].

Definition FrameOpen : Z := 1.
Definition FrameAccept : Z := 2.
Definition FrameData : Z := 3.
Definition FrameWindow : Z := 4.
Definition FrameClose : Z := 5.
Definition FrameReset : Z := 6.
Definition FramePing : Z := 7.
Definition FramePong : Z := 8.

Definition frame_type_valid (t : Z) : bool := (FrameOpen <=? t) && (t <=? FramePong).

Definition ServiceControl : Z := 1.
Definition ServiceFS : Z := 2.
Definition ServiceTCP : Z := 3.
Definition ServiceExec : Z := 4.
Definition ServiceEvents : Z := 5.
Definition ServiceUDP : Z := 6.

Definition service_valid (s : Z) : bool := (ServiceControl <=? s) && (s <=? ServiceUDP).

Definition DefaultInitialWindow : Z := Z.shiftl 256 10.
Definition DefaultMaxDataPayload : Z := Z.shiftl 64 10.
Definition maxInitialWindow : Z := Z.shiftl 64 20.

(** ** Errors

    [EFlow] wraps [ErrFlowControlViolation]; the other constructors are the
    package's sentinels and formatted errors, with the values they report. *)
Inductive flow_violation : Type :=
| FlowZeroCredit
| FlowWindowLength (n : Z)
| FlowServiceMismatch
| FlowReceiveInvariant
| FlowDuplicateInitialWindow
| FlowPeerWindowLimit (credit : Z)
| FlowCreditExceedsWindow (id credit : Z)
| FlowDataTooLarge (id n : Z)
| FlowDataAfterClose (id : Z)
| FlowDataBeforeWindow (id : Z)
| FlowNoCredit (id n : Z)
| FlowBufferExceeded (id : Z).

Inductive mux_error : Type :=
| EEOF
| EUnexpectedEOF
| EShortWrite
| ETransport (code : Z)
| EInvalidMagic
| EVersion (v : Z)
| EInvalidType (t : Z)
| EReservedStream
| EPayloadTooLarge (n max : Z)
| EUnexpectedPayload (t : Z)
| EInvalidService (s : Z)
| EFlow (v : flow_violation)
| EMuxClosed
| EStreamReset
| EIncomingBacklog
| ENilTransport
| EInvalidRole (r : Z)
| EWindowLimit (w : Z)
| EWindowThreshold (t w : Z)
| EDataPayloadCodec (p max : Z)
| EDataPayloadZero
| EAcceptUnknown (id : Z)
| EAcceptMismatch (id : Z)
| EInvalidStreamID (id : Z)
| EDuplicateOpen (id : Z)
| ENotAccepted
| EClosedPipe
| ECanceled.

Record Frame := mkFrame {
  Type_ : Z;
  Flags : Z;
  StreamID : Z;
  Service : Z;
  Payload : bytes
}.

(** The Go types of the fields: [uint8], [uint16], [uint32], [uint16], [[]byte]. *)
Definition frame_typed (f : Frame) : Prop :=
  is_u 8 (Type_ f) /\ is_u 16 (Flags f) /\ is_u 32 (StreamID f) /\ is_u 16 (Service f) /\
  bytes_ok (Payload f).

Record Codec := mkCodec { MaxPayload : Z }.

Definition maxPayload (c : Codec) : Z :=
  if MaxPayload c =? 0 then defaultMaxPayload else MaxPayload c.

Definition validateFramePayloadLength (frameType length : Z) : result mux_error unit :=
  if frameType =? FrameWindow then
    if negb (length =? 4) then Err (EFlow (FlowWindowLength length)) else Ok tt
  else if (frameType =? FrameAccept) || (frameType =? FrameClose) || (frameType =? FrameReset) then
    if negb (length =? 0) then Err (EUnexpectedPayload frameType) else Ok tt
  else Ok tt.

(** The checks of [WriteFrame], in order. *)
Definition check_frame (c : Codec) (f : Frame) : result mux_error unit :=
  if negb (frame_type_valid (Type_ f)) then Err (EInvalidType (Type_ f)) else
  if maxPayload c <? len (Payload f) then Err (EPayloadTooLarge (len (Payload f)) (maxPayload c)) else
  let* _ := validateFramePayloadLength (Type_ f) (u32 (len (Payload f))) in
  if (StreamID f =? 0) && negb (Type_ f =? FramePing) && negb (Type_ f =? FramePong)
  then Err EReservedStream else
  if (Type_ f =? FrameOpen) && negb (service_valid (Service f))
  then Err (EInvalidService (Service f)) else
  Ok tt.

(** The 20-byte header with the two reserved bytes [14:16] given by [r]. *)
Definition header_with (r : bytes) (f : Frame) : bytes :=
  frameMagic ++ [protocolVersion; u8 (Type_ f)]
  ++ put_u16 (Flags f) ++ put_u32 (StreamID f) ++ put_u16 (Service f)
  ++ r ++ put_u32 (u32 (len (Payload f))).

Definition encode_header (f : Frame) : bytes := header_with [0; 0] f.

(** The bytes [WriteFrame] hands to its writer. *)
Definition encode_frame (c : Codec) (f : Frame) : result mux_error bytes :=
  let* _ := check_frame c f in
  Ok (encode_header f ++ Payload f).

(** An [io.Writer] is a script of answers, one per [Write] call: a count
    without error, or a count together with an error. *)
Inductive write_answer : Type :=
| Wrote (n : nat)
| WriteFailed (n : nat) (e : mux_error).

(** [writeFull]: the error, the bytes that reached the writer and the rest of
    the script; [None] when the script ends before the loop does. *)
Fixpoint writeFull (script : list write_answer) (data : bytes)
  : option (result mux_error unit * bytes * list write_answer) :=
  match data with
  | [] => Some (Ok tt, [], script)
  | _ =>
    match script with
    | [] => None
    | WriteFailed n e :: rest => Some (Err e, take n data, rest)
    | Wrote n :: rest =>
      if Nat.eqb n 0 then Some (Err EShortWrite, [], rest)
      else
        match writeFull rest (drop n data) with
        | Some (r, out, rest') => Some (r, take n data ++ out, rest')
        | None => None
        end
    end
  end.

Definition WriteFrame (c : Codec) (script : list write_answer) (f : Frame)
  : option (result mux_error unit * bytes * list write_answer) :=
  match check_frame c f with
  | Err e => Some (Err e, [], script)
  | Ok _ =>
    match writeFull script (encode_header f) with
    | Some (Ok _, out, script') =>
      match writeFull script' (Payload f) with
      | Some (r, out', script'') => Some (r, out ++ out', script'')
      | None => None
      end
    | other => other
    end
  end.

(** [io.ReadFull] from a reader holding [inp] and then end of file. *)
Definition ReadFull (n : nat) (inp : bytes) : result mux_error (bytes * bytes) :=
  if Nat.leb n (length inp) then Ok (take n inp, drop n inp)
  else match inp with
       | [] => Err EEOF
       | _ => Err EUnexpectedEOF
       end.

(** [ReadFrame]: the decoded frame and the unread rest of the input. *)
Definition ReadFrame (c : Codec) (inp : bytes) : result mux_error (Frame * bytes) :=
  let* '(header, rest) := ReadFull headerSize inp in
  if negb (bool_decide (slice header 0 4 = frameMagic)) then Err EInvalidMagic else
  if negb (nth 4 header 0 =? protocolVersion) then Err (EVersion (nth 4 header 0)) else
  let f := mkFrame (nth 5 header 0) (be_get (slice header 6 8)) (be_get (slice header 8 12))
                   (be_get (slice header 12 14)) [] in
  if negb (frame_type_valid (Type_ f)) then Err (EInvalidType (Type_ f)) else
  if (StreamID f =? 0) && negb (Type_ f =? FramePing) && negb (Type_ f =? FramePong)
  then Err EReservedStream else
  let length := be_get (slice header 16 20) in
  if maxPayload c <? length then Err (EPayloadTooLarge length (maxPayload c)) else
  let* _ := validateFramePayloadLength (Type_ f) length in
  if 0 <? length then
    let* '(payload, rest') := ReadFull (Z.to_nat length) rest in
    Ok (mkFrame (Type_ f) (Flags f) (StreamID f) (Service f) payload, rest')
  else Ok (f, rest).

(** ** flow.go *)

Definition encodeWindowCredit (credit : Z) : result mux_error bytes :=
  if credit =? 0 then Err (EFlow FlowZeroCredit) else Ok (put_u32 credit).

Definition decodeWindowCredit (payload : bytes) : result mux_error Z :=
  if negb (len payload =? 4) then Err (EFlow (FlowWindowLength (len payload))) else
  let credit := be_get payload in
  if credit =? 0 then Err (EFlow FlowZeroCredit) else Ok credit.

Definition minUint32 (left right : Z) : Z := if left <? right then left else right.

(** The decoding side of [readLoop]: frames are read until the codec reports
    an error. [fuel] bounds the number of frames; one more than the number of
    input bytes is always enough, because every frame consumes its header. *)
Fixpoint read_frames (fuel : nat) (c : Codec) (inp : bytes) : option (list Frame * mux_error) :=
  match fuel with
  | O => None
  | S fuel' =>
    match ReadFrame c inp with
    | Err e => Some ([], e)
    | Ok (f, rest) =>
      match read_frames fuel' c rest with
      | Some (fs, e) => Some (f :: fs, e)
      | None => None
      end
    end
  end.

(** ** Lemmas *)

Lemma maxPayload_u32 c : is_u 32 (MaxPayload c) -> 0 < maxPayload c < 2 ^ 32.
Proof. unfold maxPayload, is_u. case_match; go_bool; [done|lia]. Qed.

Lemma header_length r f : length r = 2%nat -> length (header_with r f) = headerSize.
Proof. destruct r as [|? [|? [|]]]; done. Qed.

Lemma ReadFull_app n a b : length a = n -> ReadFull n (a ++ b) = Ok (a, b).
Proof.
  intros <-. unfold ReadFull. rewrite length_app, (proj2 (Nat.leb_le _ _)) by lia.
  by rewrite take_app_length, drop_app_length.
Qed.

Lemma ReadFull_ok n inp a b : ReadFull n inp = Ok (a, b) -> inp = a ++ b /\ length a = n.
Proof.
  unfold ReadFull. destruct (Nat.leb_spec n (length inp)); [|by destruct inp].
  intros [= <- <-]. split; [by rewrite take_drop|]. rewrite length_take. lia.
Qed.

Lemma ReadFull_short n inp : (length inp < n)%nat ->
  ReadFull n inp = Err EEOF \/ ReadFull n inp = Err EUnexpectedEOF.
Proof.
  intros. unfold ReadFull. rewrite (proj2 (Nat.leb_gt _ _)) by lia. destruct inp; auto.
Qed.

Lemma check_frame_ok c f :
  check_frame c f = Ok tt <->
  frame_type_valid (Type_ f) = true /\ len (Payload f) <= maxPayload c /\
  validateFramePayloadLength (Type_ f) (u32 (len (Payload f))) = Ok tt /\
  (StreamID f =? 0) && negb (Type_ f =? FramePing) && negb (Type_ f =? FramePong) = false /\
  (Type_ f =? FrameOpen) && negb (service_valid (Service f)) = false.
Proof.
  unfold check_frame. destruct (frame_type_valid _); [|naive_solver]. simpl negb. cbv match.
  destruct (Z.ltb_spec (maxPayload c) (len (Payload f))); [split; [done|lia]|].
  destruct (validateFramePayloadLength _ _) as [[]|]; [|naive_solver]. simpl.
  destruct ((StreamID f =? 0) && _ && _), ((Type_ f =? FrameOpen) && _); naive_solver lia.
Qed.

Lemma encode_frame_ok c f bs :
  encode_frame c f = Ok bs -> check_frame c f = Ok tt /\ bs = encode_header f ++ Payload f.
Proof.
  unfold encode_frame. intros ([] & E & H)%result_bind_ok. split; [done|congruence].
Qed.

(** Decoding a header: what [ReadFrame] does with 20 bytes of the shape
    [WriteFrame] produces, whatever the reserved bytes are. *)
Lemma ReadFrame_header c r f inp :
  length r = 2%nat -> frame_typed f -> is_u 32 (MaxPayload c) ->
  len (Payload f) <= maxPayload c ->
  frame_type_valid (Type_ f) = true ->
  (StreamID f =? 0) && negb (Type_ f =? FramePing) && negb (Type_ f =? FramePong) = false ->
  validateFramePayloadLength (Type_ f) (u32 (len (Payload f))) = Ok tt ->
  ReadFrame c (header_with r f ++ Payload f ++ inp) = Ok (f, inp).
Proof.
  intros Hr (Ht & Hfl & Hs & Hsv & Hp) Hc Hmax Hv Hz Hpl.
  apply maxPayload_u32 in Hc.
  unfold ReadFrame. rewrite ReadFull_app by (by apply header_length). cbn [result_bind].
  destruct r as [|r0 [|r1 [|]]]; try done.
  assert (slice (header_with [r0; r1] f) 0 4 = frameMagic) as -> by done.
  assert (nth 4 (header_with [r0; r1] f) 0 = protocolVersion) as -> by done.
  assert (nth 5 (header_with [r0; r1] f) 0 = u8 (Type_ f)) as -> by done.
  assert (slice (header_with [r0; r1] f) 6 8 = put_u16 (Flags f)) as -> by done.
  assert (slice (header_with [r0; r1] f) 8 12 = put_u32 (StreamID f)) as -> by done.
  assert (slice (header_with [r0; r1] f) 12 14 = put_u16 (Service f)) as -> by done.
  assert (slice (header_with [r0; r1] f) 16 20 = put_u32 (u32 (len (Payload f)))) as -> by done.
  unfold put_u16, put_u32. rewrite !be_get_put.
  change (2 ^ (8 * Z.of_nat 2)) with (2 ^ 16). change (2 ^ (8 * Z.of_nat 4)) with (2 ^ 32).
  rewrite u8_small by done.
  rewrite (Z.mod_small (Flags f)), (Z.mod_small (StreamID f)), (Z.mod_small (Service f)) by done.
  assert (is_u 32 (len (Payload f))) as Hlen
    by (split; [done|lia]).
  rewrite (u32_small _ Hlen) in *. rewrite (Z.mod_small (len _)) by done.
  rewrite bool_decide_true by done. cbn [negb Type_ StreamID Flags Service].
  rewrite Z.eqb_refl, Hv, Hz. cbn [negb].
  rewrite (proj2 (Z.ltb_ge _ _)) by lia. rewrite Hpl. cbn [result_bind].
  destruct (Z.ltb_spec 0 (len (Payload f))) as [Hpos|Hpos].
  - rewrite ReadFull_app by (unfold len; lia). cbn. by destruct f.
  - assert (Payload f = []) as E by (apply len_zero_nil; pose proof (len_nonneg (Payload f)); lia).
    rewrite E. destruct f; simpl in *; by subst.
Qed.

Lemma header_eta h :
  length h = 20%nat -> bytes_ok h -> slice h 0 4 = frameMagic -> nth 4 h 0 = protocolVersion ->
  forall p, be_get (slice h 16 20) = len p ->
  h = header_with (slice h 14 16)
        (mkFrame (nth 5 h 0) (be_get (slice h 6 8)) (be_get (slice h 8 12)) (be_get (slice h 12 14)) p).
Proof.
  intros Hl Hok Hm Hv p Hp.
  do 20 (destruct h as [|?z h]; [done|]). destruct h; [|done].
  unfold header_with. cbn [Type_ Flags StreamID Service Payload].
  unfold slice in *. cbn [take drop nth Nat.sub] in *.
  repeat (apply Forall_cons in Hok as [? Hok]).
  unfold put_u16, put_u32. rewrite <- Hp, u8_small by done.
  assert (forall b, bytes_ok b -> length b = 2%nat -> be_put 2 (be_get b) = b) as E2
    by (intros b ? <-; by apply be_put_get).
  assert (forall b, bytes_ok b -> length b = 4%nat -> be_put 4 (be_get b) = b) as E4
    by (intros b ? <-; by apply be_put_get).
  rewrite u32_small.
  2:{ match goal with |- is_u 32 (be_get ?b) =>
        apply (be_get_bound b); solve_bytes end. }
  rewrite !E2, !E4 by first [done | solve_bytes].
  unfold frameMagic in Hm. injection Hm as -> -> -> ->. rewrite Hv. done.
Qed.


Lemma header_fields_typed h p :
  length h = 20%nat -> bytes_ok h -> bytes_ok p ->
  frame_typed (mkFrame (nth 5 h 0) (be_get (slice h 6 8)) (be_get (slice h 8 12))
                       (be_get (slice h 12 14)) p).
Proof.
  intros Hl Hok Hp. do 20 (destruct h as [|?z h]; [done|]). destruct h; [|done].
  repeat (apply Forall_cons in Hok as [? Hok]).
  unfold frame_typed, slice. cbn [Type_ Flags StreamID Service Payload take drop nth Nat.sub].
  repeat split; try (by unfold is_u in *; lia); try done;
    match goal with |- context [be_get ?b] => apply (be_get_bound b); solve_bytes end.
Qed.

(** Inversion of [ReadFrame]: every accepted input is a header of the encoder's
    shape, up to the reserved bytes, followed by the payload. *)
Lemma ReadFrame_inv c inp f rest :
  bytes_ok inp -> ReadFrame c inp = Ok (f, rest) ->
  exists r, length r = 2%nat /\ inp = header_with r f ++ Payload f ++ rest /\ frame_typed f /\
    frame_type_valid (Type_ f) = true /\ len (Payload f) <= maxPayload c /\
    validateFramePayloadLength (Type_ f) (len (Payload f)) = Ok tt /\
    (StreamID f =? 0) && negb (Type_ f =? FramePing) && negb (Type_ f =? FramePong) = false.
Proof.
  intros Hin. unfold ReadFrame.
  destruct (ReadFull headerSize inp) as [[h r0]|] eqn:Eh; [|done]. cbn [result_bind].
  apply ReadFull_ok in Eh as [-> Hh]. apply Forall_app in Hin as [Hh1 Hr0].
  destruct (bool_decide_reflect (slice h 0 4 = frameMagic)) as [Hm|]; [|done]. cbn [negb].
  destruct (Z.eqb_spec (nth 4 h 0) protocolVersion) as [Hver|]; [|done]. cbn [negb].
  cbn [Type_ Flags StreamID Service].
  destruct (frame_type_valid (nth 5 h 0)) eqn:Hty; [|done]. cbn [negb].
  destruct ((be_get (slice h 8 12) =? 0) && _ && _) eqn:Hz; [done|].
  destruct (Z.ltb_spec (maxPayload c) (be_get (slice h 16 20))) as [|Hmax]; [done|].
  destruct (validateFramePayloadLength _ _) as [[]|] eqn:Hpl; [|done]. cbn [result_bind].
  intros Hrest. assert (length (slice h 14 16) = 2%nat) as Hr2
    by (unfold slice; rewrite length_take, length_drop, Hh; done).
  destruct (Z.ltb_spec 0 (be_get (slice h 16 20))) as [Hpos|Hpos].
  - destruct (ReadFull _ r0) as [[p r1]|] eqn:Ep; [|done].
    apply ReadFull_ok in Ep as [-> Hp]. cbn in Hrest. injection Hrest as <- <-.
    assert (be_get (slice h 16 20) = len p) as El by (unfold len; lia).
    apply Forall_app in Hr0 as [Hp1 Hr1].
    exists (slice h 14 16). rewrite El in Hmax, Hpl. rewrite <- header_eta by done.
    split_and!; try done. by apply header_fields_typed.
  - injection Hrest as <- <-.
    assert (be_get (slice h 16 20) = len (@nil Z)) as El.
    { pose proof (be_get_bound (slice h 16 20)) as B. len_nil_simpl.
      assert (bytes_ok (slice h 16 20)) as Hb by (by apply Forall_take, Forall_drop).
      specialize (B Hb). lia. }
    exists (slice h 14 16). rewrite El in Hmax, Hpl. rewrite <- header_eta by done.
    split_and!; try done. apply header_fields_typed; [done..|constructor].
Qed.

Lemma ReadFrame_consumes c inp f rest :
  ReadFrame c inp = Ok (f, rest) -> (length rest + headerSize <= length inp)%nat.
Proof.
  unfold ReadFrame. destruct (ReadFull headerSize inp) as [[h r0]|] eqn:Eh; [|done].
  apply ReadFull_ok in Eh as [-> Hh]. cbn [result_bind].
  rewrite length_app, Hh. intros H.
  assert (length rest <= length r0)%nat; [|lia].
  do 5 (case_match; [discriminate|]).
  apply result_bind_ok in H as ([] & _ & H). cbv beta in H.
  destruct (0 <? _); [|by injection H as _ <-].
  apply result_bind_ok in H as ([p r1] & Hp & H). injection H as _ <-.
  apply ReadFull_ok in Hp as [-> _]. rewrite length_app. lia.
Qed.

(** The read loop ends: one unit of fuel per input byte is enough. *)
Lemma read_frames_total c inp : exists fs e, read_frames (S (length inp)) c inp = Some (fs, e).
Proof.
  assert (forall k inp, (length inp < k)%nat -> exists fs e, read_frames k c inp = Some (fs, e)) as Hk.
  { induction k as [|k IH]; intros b Hb; [lia|]. cbn [read_frames].
    destruct (ReadFrame c b) as [[f rest]|e] eqn:E; [|eauto].
    apply ReadFrame_consumes in E. unfold headerSize in E.
    destruct (IH rest) as (fs & e & ->); [lia|eauto]. }
  apply Hk. lia.
Qed.

Lemma writeFull_spec script data r out script' :
  writeFull script data = Some (r, out, script') ->
  exists tail, data = out ++ tail /\ (r = Ok tt -> tail = []).
Proof.
  revert data r out. induction script as [|[n|n e] script IH]; intros data r out;
    destruct data as [|b data]; cbn -[take drop]; intros H; simplify_eq; try by exists [].
  - destruct (Nat.eqb_spec n 0); simplify_eq; [by exists (b :: data)|].
    destruct (writeFull script (drop n (b :: data))) as [[[r1 o1] s1]|] eqn:E; simplify_eq.
    apply IH in E as (tail & Ht & Hr). exists tail. split; [|done].
    rewrite <- app_assoc, <- Ht. by rewrite take_drop.
  - exists (drop n (b :: data)). by rewrite take_drop.
Qed.

(** ** Properties of the codec *)

(** Every frame [WriteFrame] accepts is decoded by [ReadFrame] of the same
    codec to exactly that frame, leaving the bytes that follow it unread. *)
Lemma frame_roundtrip (c : Codec) (f : Frame) (bs rest : bytes) :
  is_u 32 (MaxPayload c) -> frame_typed f ->
  encode_frame c f = Ok bs ->
  ReadFrame c (bs ++ rest) = Ok (f, rest).
Proof.
  intros Hc Hf (E & ->)%encode_frame_ok.
  apply check_frame_ok in E as (? & ? & ? & ? & ?).
  rewrite <- app_assoc. by apply ReadFrame_header.
Qed.

(** C39: a whole session transcript survives the wire: decoding the
    concatenated encodings of a list of accepted frames with the read loop
    yields exactly those frames in order and then a clean end of file. *)
Theorem transcript_roundtrip (c : Codec) (fs : list Frame) (encs : list bytes) :
  is_u 32 (MaxPayload c) -> Forall frame_typed fs ->
  Forall2 (fun f bs => encode_frame c f = Ok bs) fs encs ->
  read_frames (S (length (concat encs))) c (concat encs) = Some (fs, EEOF).
Proof.
  intros Hc Ht H2. revert Ht.
  assert (forall k, (length fs < k)%nat -> Forall frame_typed fs ->
    read_frames k c (concat encs) = Some (fs, EEOF)) as Hk.
  { induction H2 as [|f bs fs encs Hf H2 IH]; intros [|k] Hlt Ht; try (simpl in *; lia); [done|].
    apply Forall_cons in Ht as [Hft Ht]. cbn [concat read_frames].
    rewrite (frame_roundtrip c f bs _ Hc Hft Hf). rewrite IH by (simpl in *; lia || done). done. }
  intros Ht. apply Hk; [|done].
  clear Hk Ht. induction H2 as [|f bs fs encs Hf H2 IH]; [simpl; lia|].
  apply encode_frame_ok in Hf as (_ & ->). cbn [concat length]. rewrite !length_app. change (length (encode_header f)) with 20%nat. lia.
Qed.

Lemma transcript_roundtrip_witness :
  let c := mkCodec 64 in
  let fs := [mkFrame 1 0 1 3 [104; 105]; mkFrame 2 0 1 3 []; mkFrame 7 0 0 0 []] in
  let encs := [encode_header (mkFrame 1 0 1 3 [104; 105]) ++ [104; 105];
               encode_header (mkFrame 2 0 1 3 []) ++ []; encode_header (mkFrame 7 0 0 0 []) ++ []] in
  read_frames (S (length (concat encs))) c (concat encs) = Some (fs, EEOF).
Proof.
  intros c fs encs. apply (transcript_roundtrip c fs encs).
  - by unfold is_u; simpl.
  - unfold fs, frame_typed, bytes_ok, is_u. repeat constructor; simpl; lia.
  - repeat constructor.
Defined.

(** [ReadFrame] accepts only well-formed frames, and decoding loses
    nothing: the input is the encoder's header for the frame (up to the two
    reserved bytes), its payload and the unread rest; the frame obeys the size
    bound, the fixed payload lengths and the stream-0 rule. *)
Theorem ReadFrame_canonical (c : Codec) (inp : bytes) (f : Frame) (rest : bytes) :
  is_u 32 (MaxPayload c) -> bytes_ok inp ->
  ReadFrame c inp = Ok (f, rest) ->
  (exists r, length r = 2%nat /\ inp = header_with r f ++ Payload f ++ rest) /\
  frame_typed f /\ len (Payload f) <= maxPayload c /\
  (Type_ f = FrameWindow -> len (Payload f) = 4) /\
  (StreamID f = 0 -> Type_ f = FramePing \/ Type_ f = FramePong) /\
  (Type_ f <> FrameOpen \/ service_valid (Service f) = true ->
   encode_frame c f = Ok (encode_header f ++ Payload f)).
Proof.
  intros Hc Hin H.
  destruct (ReadFrame_inv _ _ _ _ Hin H) as (r & Hr & -> & Ht & Hty & Hmax & Hpl & Hz).
  apply maxPayload_u32 in Hc.
  split_and!; try done; [by exists r| | |].
  - intros Hw. unfold validateFramePayloadLength in Hpl. rewrite Hw in Hpl. simpl in Hpl.
    destruct (Z.eqb_spec (len (Payload f)) 4); [done|discriminate].
  - intros Hs. rewrite Hs in Hz. simpl in Hz.
    destruct (Z.eqb_spec (Type_ f) FramePing), (Z.eqb_spec (Type_ f) FramePong); auto; discriminate.
  - intros Hop. unfold encode_frame. rewrite (proj2 (check_frame_ok c f)); [done|].
    split_and!; try done.
    + rewrite u32_small; [done|]. split; [done|lia].
    + destruct Hop as [Hop | ->]; [|apply andb_false_r].
      by rewrite (proj2 (Z.eqb_neq _ _)).
Qed.

Lemma ReadFrame_canonical_witness :
  let inp := encode_header (mkFrame 3 0 2 2 [1; 2; 3]) ++ [1; 2; 3] in
  frame_typed (mkFrame 3 0 2 2 [1; 2; 3]).
Proof.
  intros inp. refine (proj1 (proj2 (ReadFrame_canonical (mkCodec 0) inp _ [] _ _ _))).
  - by unfold is_u; simpl.
  - unfold inp, bytes_ok, is_u. vm_compute. repeat constructor; done.
  - reflexivity.
Defined.

(** The fate of a frame on an arbitrary [io.Writer]: whatever short writes
    and errors it answers with, the bytes that reach the transport are a prefix
    of the frame's encoding, and success means the whole encoding went out. *)
Theorem WriteFrame_prefix (c : Codec) (script script' : list write_answer) (f : Frame)
    (r : result mux_error unit) (out : bytes) :
  WriteFrame c script f = Some (r, out, script') ->
  (exists tail, encode_header f ++ Payload f = out ++ tail) /\
  (r = Ok tt -> encode_frame c f = Ok out).
Proof.
  unfold WriteFrame, encode_frame. destruct (check_frame c f) as [[]|e] eqn:E; cbn [result_bind].
  2:{ intros [= <- <- <-]. split; [by eexists|done]. }
  destruct (writeFull script (encode_header f)) as [[[[[]|e] o1] s1]|] eqn:E1; [| |done].
  - destruct (writeFull s1 (Payload f)) as [[[r2 o2] s2]|] eqn:E2; [|done].
    intros [= <- <- <-]. apply writeFull_spec in E1 as (t1 & Ht1 & Hr1), E2 as (t2 & Ht2 & Hr2).
    rewrite (Hr1 eq_refl), app_nil_r in Ht1. rewrite Ht1, Ht2.
    split; [exists t2; by rewrite app_assoc|]. intros Hr. by rewrite (Hr2 Hr), app_nil_r.
  - intros [= <- <- <-]. apply writeFull_spec in E1 as (t1 & Ht1 & Hr1). rewrite Ht1.
    split; [|done]. exists (t1 ++ Payload f). by rewrite app_assoc.
Qed.

Lemma WriteFrame_prefix_witness :
  encode_frame (mkCodec 0) (mkFrame 8 0 0 0 [5]) = Ok (encode_header (mkFrame 8 0 0 0 [5]) ++ [5]).
Proof.
  refine (proj2 (WriteFrame_prefix (mkCodec 0) [Wrote 13; Wrote 7; Wrote 1] []
                   (mkFrame 8 0 0 0 [5]) (Ok tt) _ _) eq_refl).
  reflexivity.
Defined.

(** WINDOW credit survives its 4-byte payload, and exactly the zero grants
    are refused, on both sides. *)
Theorem window_credit_roundtrip (credit : Z) :
  is_u 32 credit ->
  (credit = 0 -> encodeWindowCredit credit = Err (EFlow FlowZeroCredit)) /\
  (credit <> 0 -> exists p, encodeWindowCredit credit = Ok p /\ len p = 4 /\
                            decodeWindowCredit p = Ok credit).
Proof.
  intros Hc. unfold encodeWindowCredit. split; [by intros ->|]. intros Hne.
  rewrite (proj2 (Z.eqb_neq _ _)) by done. exists (put_u32 credit).
  split_and!; try done. unfold decodeWindowCredit.
  change (len (put_u32 credit)) with 4. cbn [Z.eqb negb].
  unfold put_u32. rewrite be_get_put, (Z.mod_small credit) by done.
  by rewrite (proj2 (Z.eqb_neq _ _)).
Qed.

Lemma window_credit_roundtrip_witness :
  exists p, encodeWindowCredit 262144 = Ok p /\ len p = 4 /\ decodeWindowCredit p = Ok 262144.
Proof. apply (window_credit_roundtrip 262144); [by unfold is_u; simpl|done]. Defined.

End MuxFrame.
