(* ===== verification/MuxStream.v ===== *)
(** * sessionmux/stream.go: one logical stream

    The state of a [Stream] and its critical sections (each method between
    [s.mu.Lock] and [s.mu.Unlock]); the methods that also send frames are
    completed in [Mux]. Condition variables only wake waiters and carry no
    state; a critical section that would wait reports [Blocks]. *)

From S2P Require Import Prelude MuxFrame.

Module MuxStream.
Import MuxFrame.

(** [accepted] is the one-slot channel [accepted chan error] and [acceptOne]
    the [sync.Once] in front of it. *)
Record Stream := mkStream {
  s_id : Z;
  service : Z;
  metadata : bytes;
  acceptOne : bool;
  accepted : option (option mux_error);
  readBuf : bytes;
  isOpen : bool;
  localClosed : bool;
  remoteClosed : bool;
  terminalErr : option mux_error;
  s_initialWindow : Z;
  s_windowThreshold : Z;
  s_maxDataPayload : Z;
  windowAdvertised : bool;
  recvCredit : Z;
  pendingWindow : Z;
  peerWindowSet : bool;
  peerWindow : Z;
  sendCredit : Z
}.

#[export] Instance upd_acceptOne : Update acceptOne := fun v s =>
  mkStream (s.(s_id)) (s.(service)) (s.(metadata)) v (s.(accepted)) (s.(readBuf)) (s.(isOpen)) (s.(localClosed)) (s.(remoteClosed)) (s.(terminalErr)) (s.(s_initialWindow)) (s.(s_windowThreshold)) (s.(s_maxDataPayload)) (s.(windowAdvertised)) (s.(recvCredit)) (s.(pendingWindow)) (s.(peerWindowSet)) (s.(peerWindow)) (s.(sendCredit)).
#[export] Instance upd_accepted : Update accepted := fun v s =>
  mkStream (s.(s_id)) (s.(service)) (s.(metadata)) (s.(acceptOne)) v (s.(readBuf)) (s.(isOpen)) (s.(localClosed)) (s.(remoteClosed)) (s.(terminalErr)) (s.(s_initialWindow)) (s.(s_windowThreshold)) (s.(s_maxDataPayload)) (s.(windowAdvertised)) (s.(recvCredit)) (s.(pendingWindow)) (s.(peerWindowSet)) (s.(peerWindow)) (s.(sendCredit)).
#[export] Instance upd_readBuf : Update readBuf := fun v s =>
  mkStream (s.(s_id)) (s.(service)) (s.(metadata)) (s.(acceptOne)) (s.(accepted)) v (s.(isOpen)) (s.(localClosed)) (s.(remoteClosed)) (s.(terminalErr)) (s.(s_initialWindow)) (s.(s_windowThreshold)) (s.(s_maxDataPayload)) (s.(windowAdvertised)) (s.(recvCredit)) (s.(pendingWindow)) (s.(peerWindowSet)) (s.(peerWindow)) (s.(sendCredit)).
#[export] Instance upd_isOpen : Update isOpen := fun v s =>
  mkStream (s.(s_id)) (s.(service)) (s.(metadata)) (s.(acceptOne)) (s.(accepted)) (s.(readBuf)) v (s.(localClosed)) (s.(remoteClosed)) (s.(terminalErr)) (s.(s_initialWindow)) (s.(s_windowThreshold)) (s.(s_maxDataPayload)) (s.(windowAdvertised)) (s.(recvCredit)) (s.(pendingWindow)) (s.(peerWindowSet)) (s.(peerWindow)) (s.(sendCredit)).
#[export] Instance upd_localClosed : Update localClosed := fun v s =>
  mkStream (s.(s_id)) (s.(service)) (s.(metadata)) (s.(acceptOne)) (s.(accepted)) (s.(readBuf)) (s.(isOpen)) v (s.(remoteClosed)) (s.(terminalErr)) (s.(s_initialWindow)) (s.(s_windowThreshold)) (s.(s_maxDataPayload)) (s.(windowAdvertised)) (s.(recvCredit)) (s.(pendingWindow)) (s.(peerWindowSet)) (s.(peerWindow)) (s.(sendCredit)).
#[export] Instance upd_remoteClosed : Update remoteClosed := fun v s =>
  mkStream (s.(s_id)) (s.(service)) (s.(metadata)) (s.(acceptOne)) (s.(accepted)) (s.(readBuf)) (s.(isOpen)) (s.(localClosed)) v (s.(terminalErr)) (s.(s_initialWindow)) (s.(s_windowThreshold)) (s.(s_maxDataPayload)) (s.(windowAdvertised)) (s.(recvCredit)) (s.(pendingWindow)) (s.(peerWindowSet)) (s.(peerWindow)) (s.(sendCredit)).
#[export] Instance upd_terminalErr : Update terminalErr := fun v s =>
  mkStream (s.(s_id)) (s.(service)) (s.(metadata)) (s.(acceptOne)) (s.(accepted)) (s.(readBuf)) (s.(isOpen)) (s.(localClosed)) (s.(remoteClosed)) v (s.(s_initialWindow)) (s.(s_windowThreshold)) (s.(s_maxDataPayload)) (s.(windowAdvertised)) (s.(recvCredit)) (s.(pendingWindow)) (s.(peerWindowSet)) (s.(peerWindow)) (s.(sendCredit)).
#[export] Instance upd_windowAdvertised : Update windowAdvertised := fun v s =>
  mkStream (s.(s_id)) (s.(service)) (s.(metadata)) (s.(acceptOne)) (s.(accepted)) (s.(readBuf)) (s.(isOpen)) (s.(localClosed)) (s.(remoteClosed)) (s.(terminalErr)) (s.(s_initialWindow)) (s.(s_windowThreshold)) (s.(s_maxDataPayload)) v (s.(recvCredit)) (s.(pendingWindow)) (s.(peerWindowSet)) (s.(peerWindow)) (s.(sendCredit)).
#[export] Instance upd_recvCredit : Update recvCredit := fun v s =>
  mkStream (s.(s_id)) (s.(service)) (s.(metadata)) (s.(acceptOne)) (s.(accepted)) (s.(readBuf)) (s.(isOpen)) (s.(localClosed)) (s.(remoteClosed)) (s.(terminalErr)) (s.(s_initialWindow)) (s.(s_windowThreshold)) (s.(s_maxDataPayload)) (s.(windowAdvertised)) v (s.(pendingWindow)) (s.(peerWindowSet)) (s.(peerWindow)) (s.(sendCredit)).
#[export] Instance upd_pendingWindow : Update pendingWindow := fun v s =>
  mkStream (s.(s_id)) (s.(service)) (s.(metadata)) (s.(acceptOne)) (s.(accepted)) (s.(readBuf)) (s.(isOpen)) (s.(localClosed)) (s.(remoteClosed)) (s.(terminalErr)) (s.(s_initialWindow)) (s.(s_windowThreshold)) (s.(s_maxDataPayload)) (s.(windowAdvertised)) (s.(recvCredit)) v (s.(peerWindowSet)) (s.(peerWindow)) (s.(sendCredit)).
#[export] Instance upd_peerWindowSet : Update peerWindowSet := fun v s =>
  mkStream (s.(s_id)) (s.(service)) (s.(metadata)) (s.(acceptOne)) (s.(accepted)) (s.(readBuf)) (s.(isOpen)) (s.(localClosed)) (s.(remoteClosed)) (s.(terminalErr)) (s.(s_initialWindow)) (s.(s_windowThreshold)) (s.(s_maxDataPayload)) (s.(windowAdvertised)) (s.(recvCredit)) (s.(pendingWindow)) v (s.(peerWindow)) (s.(sendCredit)).
#[export] Instance upd_peerWindow : Update peerWindow := fun v s =>
  mkStream (s.(s_id)) (s.(service)) (s.(metadata)) (s.(acceptOne)) (s.(accepted)) (s.(readBuf)) (s.(isOpen)) (s.(localClosed)) (s.(remoteClosed)) (s.(terminalErr)) (s.(s_initialWindow)) (s.(s_windowThreshold)) (s.(s_maxDataPayload)) (s.(windowAdvertised)) (s.(recvCredit)) (s.(pendingWindow)) (s.(peerWindowSet)) v (s.(sendCredit)).
#[export] Instance upd_sendCredit : Update sendCredit := fun v s =>
  mkStream (s.(s_id)) (s.(service)) (s.(metadata)) (s.(acceptOne)) (s.(accepted)) (s.(readBuf)) (s.(isOpen)) (s.(localClosed)) (s.(remoteClosed)) (s.(terminalErr)) (s.(s_initialWindow)) (s.(s_windowThreshold)) (s.(s_maxDataPayload)) (s.(windowAdvertised)) (s.(recvCredit)) (s.(pendingWindow)) (s.(peerWindowSet)) (s.(peerWindow)) v.

(** The three limits a stream copies from its multiplexer. *)
Record Limits := mkLimits { initialWindow : Z; windowThreshold : Z; maxDataPayload : Z }.

Definition newStream (l : Limits) (sid svc : Z) (meta : bytes) (acc : bool) : Stream :=
  mkStream sid svc meta false None [] acc false false None
    (initialWindow l) (windowThreshold l) (maxDataPayload l) false 0 0 false 0 0.

(** ** Read *)

Inductive read_outcome : Type :=
| ReadBlocks
| ReadEnds (e : mux_error)
| ReadGot (data : bytes) (grant : Z) (err : option mux_error).

(** One pass of [Read]'s loop for a non-empty buffer of [n] bytes: the bytes
    copied out, the credit to return to the peer and the violation reported
    when the receive invariant fails. *)
Definition read_locked (n : nat) (s : Stream) : read_outcome * Stream :=
  if 0 <? len (readBuf s) then
    let data := take n (readBuf s) in
    let s1 := s <| readBuf := drop n (readBuf s) |> in
    if negb (remoteClosed s1) then
      let s2 := s1 <| pendingWindow := u64 (pendingWindow s1 + len data) |> in
      if (s_windowThreshold s2 <=? pendingWindow s2) || (len (readBuf s2) =? 0) then
        if s_initialWindow s2 <? u64 (recvCredit s2 + pendingWindow s2) then
          (ReadGot data 0 (Some (EFlow FlowReceiveInvariant)), s2)
        else
          (ReadGot data (u32 (pendingWindow s2)) None,
           s2 <| recvCredit := u64 (recvCredit s2 + pendingWindow s2) |> <| pendingWindow := 0 |>)
      else (ReadGot data 0 None, s2)
    else (ReadGot data 0 None, s1)
  else if remoteClosed s then
    (ReadEnds (match terminalErr s with Some e => e | None => EEOF end), s)
  else (ReadBlocks, s).

(** ** Write *)

Inductive write_outcome : Type :=
| WriteBlocks
| WriteFails (e : mux_error)
| WriteChunk (chunk : nat).

(** The inner loop of [Write] and the choice of the next chunk, for [rest]
    bytes still to send. *)
Definition write_locked (rest : Z) (s : Stream) : write_outcome * Stream :=
  if negb (isOpen s) then (WriteFails ENotAccepted, s) else
  if localClosed s then (WriteFails EClosedPipe, s) else
  match terminalErr s with
  | Some e => (WriteFails e, s)
  | None =>
    if 0 <? sendCredit s then
      let chunk := rest in
      let chunk := if s_maxDataPayload s <? chunk then s_maxDataPayload s else chunk in
      let chunk := if sendCredit s <? chunk then sendCredit s else chunk in
      (WriteChunk (Z.to_nat chunk), s <| sendCredit := u64 (sendCredit s - chunk) |>)
    else (WriteBlocks, s)
  end.

(** ** Close and Reset: the part under [s.mu]; [None] when already closed *)

Definition close_locked (s : Stream) : option Stream :=
  if localClosed s then None else Some (s <| localClosed := true |>).

Definition reset_locked (s : Stream) : option Stream :=
  if localClosed s then None
  else Some (s <| localClosed := true |> <| remoteClosed := true |>
               <| terminalErr := Some EStreamReset |>).

Definition markAccepted (s : Stream) : Stream := s <| isOpen := true |>.

Definition isAccepted (s : Stream) : bool := isOpen s.

Definition signalAccepted (err : option mux_error) (s : Stream) : Stream :=
  if acceptOne s then s else s <| acceptOne := true |> <| accepted := Some err |>.

Definition initializeReceiveWindow (s : Stream) : result mux_error Z * Stream :=
  if windowAdvertised s then (Err (EFlow FlowDuplicateInitialWindow), s)
  else (Ok (u32 (s_initialWindow s)),
        s <| windowAdvertised := true |> <| recvCredit := s_initialWindow s |>).

Definition addSendCredit (credit : Z) (s : Stream) : option mux_error * Stream :=
  if localClosed s || bool_decide (is_Some (terminalErr s)) then (None, s) else
  if negb (peerWindowSet s) then
    if maxInitialWindow <? credit then (Some (EFlow (FlowPeerWindowLimit credit)), s)
    else (None, s <| peerWindowSet := true |> <| peerWindow := credit |> <| sendCredit := credit |>)
  else if peerWindow s <? u64 (sendCredit s + credit) then
    (Some (EFlow (FlowCreditExceedsWindow (s_id s) (u64 (sendCredit s + credit)))), s)
  else (None, s <| sendCredit := u64 (sendCredit s + credit) |>).

Definition deliver (payload : bytes) (s : Stream) : option mux_error * Stream :=
  if len payload =? 0 then (None, s) else
  if s_maxDataPayload s <? u32 (len payload) then
    (Some (EFlow (FlowDataTooLarge (s_id s) (len payload))), s) else
  if remoteClosed s then (Some (EFlow (FlowDataAfterClose (s_id s))), s) else
  if negb (windowAdvertised s) then (Some (EFlow (FlowDataBeforeWindow (s_id s))), s) else
  if recvCredit s <? len payload then (Some (EFlow (FlowNoCredit (s_id s) (len payload))), s) else
  if s_initialWindow s <? u64 (len (readBuf s) + len payload) then
    (Some (EFlow (FlowBufferExceeded (s_id s))), s) else
  (None, s <| recvCredit := u64 (recvCredit s - len payload) |>
           <| readBuf := readBuf s ++ payload |>).

Definition remoteClose (err : option mux_error) (s : Stream) : Stream :=
  if remoteClosed s && bool_decide (is_Some (terminalErr s)) then s
  else
    let s1 := s <| remoteClosed := true |> in
    match err with
    | Some e => s1 <| terminalErr := Some e |>
    | None => s1
    end.

Definition isFullyClosed (s : Stream) : bool := localClosed s && remoteClosed s.

Definition flowSnapshot (s : Stream) : Z * Z * Z * Z :=
  (len (readBuf s), sendCredit s, recvCredit s, pendingWindow s).

(** ** The stream invariant *)

(** Limits as [New] establishes them. *)
Definition limits_ok (l : Limits) : Prop :=
  0 < maxDataPayload l <= initialWindow l /\ 1 <= windowThreshold l <= initialWindow l /\
  initialWindow l <= maxInitialWindow.

(** Receive direction: unread bytes, outstanding credit and credit waiting to
    be returned never exceed the advertised window, and make it up exactly
    while the peer's direction is open. *)
Definition recv_wf (s : Stream) : Prop :=
  0 <= recvCredit s /\ 0 <= pendingWindow s /\
  (if windowAdvertised s then
     len (readBuf s) + recvCredit s + pendingWindow s <= s_initialWindow s /\
     (remoteClosed s = false ->
        len (readBuf s) + recvCredit s + pendingWindow s = s_initialWindow s /\
        (readBuf s = [] -> pendingWindow s = 0) /\
        pendingWindow s < s_windowThreshold s)
   else readBuf s = [] /\ recvCredit s = 0 /\ pendingWindow s = 0).

(** Send direction: available credit never exceeds the window the peer
    advertised first, which is itself bounded. *)
Definition send_wf (s : Stream) : Prop :=
  0 <= sendCredit s <= peerWindow s /\ peerWindow s <= maxInitialWindow /\
  (peerWindowSet s = false -> peerWindow s = 0).

Definition stream_limits (s : Stream) : Limits :=
  mkLimits (s_initialWindow s) (s_windowThreshold s) (s_maxDataPayload s).

Definition stream_wf (s : Stream) : Prop :=
  limits_ok (stream_limits s) /\ recv_wf s /\ send_wf s.

Lemma maxInitialWindow_val : maxInitialWindow = 67108864.
Proof. reflexivity. Qed.

(** Unfold the invariant into arithmetic facts. *)
Ltac stream_unfold :=
  unfold stream_wf, limits_ok, recv_wf, send_wf, stream_limits, is_u in *;
  rewrite ?maxInitialWindow_val in *; cbn in *.
Ltac stream_solve := stream_unfold; go_cases; naive_solver lia.

Lemma u64_add_small a b : 0 <= a -> 0 <= b -> a + b < 2 ^ 64 -> u64 (a + b) = a + b.
Proof. intros. apply u64_small. unfold is_u. lia. Qed.
Lemma u64_sub_small a b : 0 <= b <= a -> a < 2 ^ 64 -> u64 (a - b) = a - b.
Proof. intros. apply u64_small. unfold is_u. lia. Qed.

Lemma newStream_wf l sid svc meta acc : limits_ok l -> stream_wf (newStream l sid svc meta acc).
Proof. intros. split; [|split]; [done|..]; unfold recv_wf, send_wf; simpl; split_and!; try done; lia. Qed.

Lemma markAccepted_wf s : stream_wf s -> stream_wf (markAccepted s).
Proof. done. Qed.

Lemma signalAccepted_wf e s : stream_wf s -> stream_wf (signalAccepted e s).
Proof. intros. unfold signalAccepted. by case_match. Qed.

Lemma recv_wf_close s : recv_wf s -> recv_wf (s <| remoteClosed := true |>).
Proof. unfold recv_wf; cbn. intros (? & ? & H). split_and!; try done. case_match; naive_solver. Qed.

Lemma remoteClose_wf e s : stream_wf s -> stream_wf (remoteClose e s).
Proof.
  intros (Hl & Hr & Hs). unfold remoteClose. case_match; [done|].
  apply recv_wf_close in Hr. by destruct e.
Qed.

Lemma close_locked_wf s s' : stream_wf s -> close_locked s = Some s' -> stream_wf s'.
Proof. intros (Hl & Hr & Hs). unfold close_locked. case_match; [done|]. by intros [= <-]. Qed.

Lemma reset_locked_wf s s' : stream_wf s -> reset_locked s = Some s' -> stream_wf s'.
Proof.
  intros (Hl & Hr & Hs). unfold reset_locked. case_match; [done|]. intros [= <-].
  split_and!; try done. by apply recv_wf_close in Hr.
Qed.

Lemma initializeReceiveWindow_wf s : stream_wf s -> stream_wf (snd (initializeReceiveWindow s)).
Proof.
  intros (Hl & Hr & Hs). unfold initializeReceiveWindow. case_match; [done|]. cbn.
  split_and!; try done. unfold recv_wf in *; cbn in *. rewrite H in Hr.
  destruct Hr as (? & ? & -> & ? & ->). unfold limits_ok in Hl; cbn in Hl.
  change (len (@nil Z)) with 0. split_and!; lia.
Qed.

Lemma addSendCredit_wf c s : is_u 32 c -> stream_wf s -> stream_wf (snd (addSendCredit c s)).
Proof.
  intros Hc (Hl & Hr & Hs). unfold addSendCredit. case_match; [done|].
  assert (Hs' := Hs). unfold send_wf in Hs'. unfold is_u in Hc.
  destruct (peerWindowSet s) eqn:Hp; cbn [negb].
  - rewrite u64_add_small by (rewrite maxInitialWindow_val in *; lia).
    case_match; go_bool; [done|]. cbn. split_and!; try done; unfold send_wf; cbn; try lia.
    rewrite Hp. split_and!; [lia..|done].
  - case_match; go_bool; [done|]. cbn. split_and!; try done; unfold send_wf; cbn; lia.
Qed.

Lemma deliver_wf p s : stream_wf s -> stream_wf (snd (deliver p s)).
Proof.
  intros (Hl & Hr & Hs). unfold deliver. pose proof (len_nonneg p).
  repeat (case_match; go_bool; [done|]). cbn. split_and!; try done.
  unfold recv_wf in *; cbn in *. destruct Hr as (? & ? & Hr).
  destruct (windowAdvertised s); [|done]. destruct Hr as [Hle Heq].
  unfold limits_ok in Hl; cbn in Hl. rewrite maxInitialWindow_val in *.
  rewrite u64_sub_small by (pose proof (len_nonneg (readBuf s)); lia).
  rewrite len_app. split_and!; try lia. intros Hc. destruct (Heq Hc) as (? & ? & ?).
  split_and!; try lia. intros [E1 E2]%app_nil. subst p. len_nil_simpl. lia.
Qed.

Lemma deliver_bound s (p : bytes) : stream_wf s -> windowAdvertised s = true -> len p <= recvCredit s ->
  len (readBuf s) + len p <= s_initialWindow s.
Proof. intros (Hl & Hr & Hs) Ha Hp. unfold recv_wf in Hr. rewrite Ha in Hr. lia. Qed.

Lemma read_locked_wf n s : (0 < n)%nat -> stream_wf s -> stream_wf (snd (read_locked n s)).
Proof.
  intros Hn (Hl & Hr & Hs). unfold read_locked.
  destruct (Z.ltb_spec 0 (len (readBuf s))) as [Hpos|]; [|by case_match].
  unfold recv_wf in Hr. destruct Hr as (Hc & Hp & Hr).
  destruct (windowAdvertised s) eqn:Ha.
  2:{ destruct Hr as (E & _ & _). rewrite E in Hpos. len_nil_simpl. lia. }
  destruct Hr as [Hle Heq]. pose proof (len_take n (readBuf s)) as Ht.
  pose proof (len_drop n (readBuf s)) as Hd. unfold limits_ok in Hl; cbn in Hl.
  rewrite maxInitialWindow_val in *. cbn -[take drop].
  destruct (remoteClosed s) eqn:Hrc; cbn -[take drop].
  { split_and!; try done. unfold recv_wf; cbn -[take drop]. rewrite Ha, Hrc.
    split_and!; try done. lia. }
  destruct (Heq eq_refl) as (E & Hnil & Hth).
  rewrite !(u64_add_small (pendingWindow s)) by lia.
  destruct (_ || _) eqn:Eb; cbn -[take drop].
  - rewrite !(u64_add_small (recvCredit s)) by lia. case_match; go_bool; [lia|]. cbn -[take drop].
    split_and!; try done. unfold recv_wf; cbn -[take drop]. rewrite Ha. split_and!; try done; lia.
  - go_bool. split_and!; try done. unfold recv_wf; cbn -[take drop]. rewrite Ha.
    split_and!; try lia. intros _. split_and!; try lia. intros E2. rewrite E2 in *. len_nil_simpl. lia.
Qed.

Lemma write_locked_wf r s : 0 < r -> stream_wf s -> stream_wf (snd (write_locked r s)).
Proof.
  intros Hr0 (Hl & Hr & Hs). unfold write_locked.
  repeat (case_match; go_bool; [done|]). case_match; [|done]. go_bool. cbn.
  split_and!; try done. unfold send_wf in *; cbn. unfold limits_ok in Hl; cbn in Hl.
  rewrite maxInitialWindow_val in *.
  destruct Hs as (? & ? & ?).
  rewrite u64_sub_small by (repeat case_match; go_bool; lia).
  repeat case_match; go_bool; (split_and!; [lia..|done]).
Qed.

(** ** Life of a stream: every critical section is a step *)

Inductive stream_step : Stream -> Stream -> Prop :=
| step_read n s : (0 < n)%nat -> stream_step s (snd (read_locked n s))
| step_write r s : 0 < r -> stream_step s (snd (write_locked r s))
| step_close s s' : close_locked s = Some s' -> stream_step s s'
| step_reset s s' : reset_locked s = Some s' -> stream_step s s'
| step_mark s : stream_step s (markAccepted s)
| step_signal e s : stream_step s (signalAccepted e s)
| step_initialize s : stream_step s (snd (initializeReceiveWindow s))
| step_credit c s : is_u 32 c -> stream_step s (snd (addSendCredit c s))
| step_deliver p s : stream_step s (snd (deliver p s))
| step_remoteClose e s : stream_step s (remoteClose e s)
| step_take_accepted s : stream_step s (s <| accepted := None |>).

Lemma stream_step_wf s s' : stream_step s s' -> stream_wf s -> stream_wf s'.
Proof.
  destruct 1; eauto using read_locked_wf, write_locked_wf, close_locked_wf, reset_locked_wf,
    markAccepted_wf, signalAccepted_wf, initializeReceiveWindow_wf, addSendCredit_wf,
    deliver_wf, remoteClose_wf.
Qed.

(** No step changes what [newStream] fixed. *)
Definition same_identity (s s' : Stream) : Prop :=
  s_id s' = s_id s /\ service s' = service s /\ stream_limits s' = stream_limits s.

Lemma stream_step_identity s s' : stream_step s s' -> same_identity s s'.
Proof.
  destruct 1; unfold same_identity, read_locked, write_locked, close_locked, reset_locked,
    signalAccepted, initializeReceiveWindow, addSendCredit, deliver, remoteClose in *;
    repeat case_match; simplify_eq; done.
Qed.

Lemma stream_steps_identity s s' : rtc stream_step s s' -> same_identity s s'.
Proof.
  induction 1 as [|x y z Hxy%stream_step_identity _ IH]; [done|].
  destruct Hxy as (? & ? & ?), IH as (? & ? & ?). split_and!; congruence.
Qed.

Lemma stream_steps_wf s s' : rtc stream_step s s' -> stream_wf s -> stream_wf s'.
Proof. induction 1; eauto using stream_step_wf. Qed.

Lemma stream_reach_wf l sid svc meta acc s :
  limits_ok l -> rtc stream_step (newStream l sid svc meta acc) s -> stream_wf s.
Proof.
  intros Hl Hr. eapply stream_steps_wf; [done|]. by apply newStream_wf.
Qed.

(** Flow control of one stream, for every interleaving of its operations:
    the unread bytes a stream buffers never exceed its initial window, what is
    buffered, still granted and about to be granted accounts exactly for the
    window while the peer may send, and credit for sending never exceeds the
    window the peer first advertised. *)
Theorem stream_flow_invariant (l : Limits) (sid svc : Z) (meta : bytes) (acc : bool) (s : Stream) :
  limits_ok l ->
  rtc stream_step (newStream l sid svc meta acc) s ->
  len (readBuf s) <= initialWindow l <= maxInitialWindow /\
  (windowAdvertised s = true -> remoteClosed s = false ->
     len (readBuf s) + recvCredit s + pendingWindow s = initialWindow l) /\
  0 <= sendCredit s <= peerWindow s /\ peerWindow s <= maxInitialWindow.
Proof.
  intros Hl Hreach. assert (Hw := stream_reach_wf _ _ _ _ _ _ Hl Hreach).
  assert (s_initialWindow s = initialWindow l) as E
    by (by apply stream_steps_identity in Hreach as (_ & _ & [= -> _ _])).
  destruct Hw as (_ & (? & ? & Hrecv) & Hsend). unfold send_wf in Hsend.
  rewrite <- E. destruct Hl as (? & ? & ?). rewrite <- E in *.
  split_and!; try lia.
  - destruct (windowAdvertised s); [lia|]. destruct Hrecv as (-> & _). len_nil_simpl. lia.
  - intros Ha Hc. rewrite Ha in Hrecv. naive_solver.
Qed.

Lemma stream_flow_invariant_witness :
  let l := mkLimits 8 4 8 in
  let s0 := newStream l 1 3 [] true in
  let s := snd (deliver [1; 2; 3] (snd (initializeReceiveWindow s0))) in
  len (readBuf s) + recvCredit s + pendingWindow s = 8.
Proof.
  intros l s0 s.
  refine (proj1 (proj2 (stream_flow_invariant l 1 3 [] true s _ _)) eq_refl eq_refl).
  - unfold limits_ok. closed_arith.
  - eapply rtc_l; [apply step_initialize|]. apply rtc_once. apply step_deliver.
Defined.

(** What [Read] does, on every branch: it returns a non-empty prefix of
    the buffered bytes in order and never the receive-credit violation; each
    byte consumed while the peer may send is either granted back or kept
    pending, and nothing stays pending once the buffer is drained; it blocks
    only on an empty open stream and ends only on an empty closed one. *)
Theorem read_locked_spec (n : nat) (s s' : Stream) (o : read_outcome) :
  (0 < n)%nat -> stream_wf s -> read_locked n s = (o, s') ->
  match o with
  | ReadGot data grant err =>
      err = None /\ data <> [] /\ readBuf s = data ++ readBuf s' /\
      (remoteClosed s = true -> grant = 0) /\
      (remoteClosed s = false ->
         recvCredit s' = recvCredit s + grant /\
         pendingWindow s' + grant = pendingWindow s + len data /\
         0 <= grant <= s_initialWindow s /\
         (readBuf s' = [] -> pendingWindow s' = 0))
  | ReadEnds e => readBuf s = [] /\ remoteClosed s = true /\ s' = s /\
      e = match terminalErr s with Some t => t | None => EEOF end
  | ReadBlocks => readBuf s = [] /\ remoteClosed s = false /\ s' = s
  end.
Proof.
  intros Hn (Hl & (Hc & Hp & Hr) & Hs). unfold read_locked.
  destruct (Z.ltb_spec 0 (len (readBuf s))) as [Hpos|Hz].
  2:{ apply Z.le_antisymm in Hz; [|done]. symmetry in Hz. apply len_zero_nil in Hz.
      destruct (remoteClosed s) eqn:E; intros [= <- <-]; done. }
  assert (take n (readBuf s) <> []) as Hne
    by (destruct n; [lia|]; destruct (readBuf s); [len_nil_simpl; lia|done]).
  assert (readBuf s = take n (readBuf s) ++ drop n (readBuf s)) as Hsplit by (by rewrite take_drop).
  destruct (windowAdvertised s) eqn:Ha.
  2:{ destruct Hr as (E & _). rewrite E in Hpos. len_nil_simpl. lia. }
  destruct Hr as [Hle Heq]. pose proof (len_take n (readBuf s)) as Ht.
  pose proof (len_drop n (readBuf s)) as Hd. unfold limits_ok in Hl; cbn in Hl.
  rewrite maxInitialWindow_val in *. cbn -[take drop].
  destruct (remoteClosed s) eqn:Hrc; cbn -[take drop]; [by intros [= <- <-]|].
  destruct (Heq eq_refl) as (E & Hnil & Hth).
  rewrite !(u64_add_small (pendingWindow s)) by lia.
  destruct (_ || _) eqn:Eb; cbn -[take drop].
  - rewrite !(u64_add_small (recvCredit s)) by lia. case_match; go_bool; [lia|].
    intros [= <- <-]. cbn -[take drop]. rewrite u32_small by (unfold is_u; lia).
    split_and!; try done. intros _. split_and!; try done; lia.
  - go_bool. intros [= <- <-]. cbn -[take drop]. split_and!; try done. intros _.
    split_and!; try done; try lia. intros E2. rewrite E2 in *. len_nil_simpl. lia.
Qed.

Lemma read_locked_spec_witness :
  let s := (newStream (mkLimits 8 4 8) 1 3 [] true) <| readBuf := [9; 8; 7] |>
             <| windowAdvertised := true |> <| recvCredit := 5 |> in
  recvCredit (snd (read_locked 16 s)) = recvCredit s + 3.
Proof.
  intros s.
  refine (proj1 (proj2 (proj2 (proj2 (proj2
    (read_locked_spec 16 s _ (ReadGot [9; 8; 7] 3 None) _ _ _)))) eq_refl)).
  - lia.
  - unfold stream_wf, limits_ok, recv_wf, send_wf. cbn. closed_arith.
  - reflexivity.
Defined.

(** Exactly when a DATA payload is accepted: a non-empty payload enters the
    buffer iff it fits one frame, arrives before the peer's CLOSE and after the
    window was advertised, and is covered by the outstanding credit; the
    separate buffer-size check can then never fail. *)
Theorem deliver_accepts (p : bytes) (s : Stream) :
  stream_wf s -> 0 < len p < 2 ^ 32 ->
  (fst (deliver p s) = None <->
   len p <= s_maxDataPayload s /\ remoteClosed s = false /\ windowAdvertised s = true /\
   len p <= recvCredit s) /\
  fst (deliver p s) <> Some (EFlow (FlowBufferExceeded (s_id s))) /\
  (fst (deliver p s) = None ->
     readBuf (snd (deliver p s)) = readBuf s ++ p /\
     recvCredit (snd (deliver p s)) = recvCredit s - len p) /\
  (fst (deliver p s) <> None -> snd (deliver p s) = s).
Proof.
  intros Hw Hp. assert (Hb := deliver_bound s p Hw). destruct Hw as (Hl & (Hc & Hpd & Hr) & _).
  unfold limits_ok in Hl; cbn in Hl. rewrite maxInitialWindow_val in Hl.
  unfold deliver. rewrite (proj2 (Z.eqb_neq _ _)) by lia.
  rewrite u32_small by (unfold is_u; lia).
  destruct (Z.ltb_spec (s_maxDataPayload s) (len p)); [cbn; naive_solver lia|].
  destruct (remoteClosed s); [cbn; naive_solver|].
  destruct (windowAdvertised s); [|cbn; naive_solver]. cbn [negb].
  destruct (Z.ltb_spec (recvCredit s) (len p)); [cbn; naive_solver lia|].
  assert (len (readBuf s) + len p <= s_initialWindow s) by (apply Hb; done || lia).
  rewrite u64_add_small by (try done; lia).
  rewrite (proj2 (Z.ltb_ge _ _)) by lia. cbn.
  destruct Hr as [? _]. pose proof (len_nonneg (readBuf s)).
  rewrite u64_sub_small by lia. split_and!; done.
Qed.

Lemma deliver_accepts_witness :
  let s := (newStream (mkLimits 8 4 8) 1 3 [] true)
             <| windowAdvertised := true |> <| recvCredit := 8 |> in
  fst (deliver [1; 2] s) = None.
Proof.
  intros s. refine (proj2 (proj1 (deliver_accepts [1; 2] s _ _)) _).
  - unfold stream_wf, limits_ok, recv_wf, send_wf. cbn. closed_arith.
  - closed_arith.
  - closed_arith.
Defined.

End MuxStream.
