(* ===== verification/Mux.v ===== *)
(** * sessionmux/mux.go: the multiplexer

    One multiplexer instance: its stream table, ID allocation, the frame
    handlers of the read loop, the writer loop, shutdown, and the [Stream]
    methods that send frames.

    Streams are Go objects shared by the table, the incoming channel and the
    application, and outlive their removal from the table; they live in
    [heap], and the table and the channel hold locations. [outgoing] is the
    sequence of frames put into the writer's channel: the channel's capacity
    only delays a sender, it never drops or reorders a frame. Each handler or
    method is one atomic step; [send], which waits for its frame to be
    written, lets the writer drain the channel up to that frame.

    Where a Go [select] has both "channel has room" and "[m.done] is closed"
    ready, either branch may run: [pick] chooses the channel. *)

From S2P Require Import Prelude MuxFrame MuxStream.

Module Mux.
Import MuxFrame MuxStream.

Definition RoleInitiator : Z := 1.
Definition RoleResponder : Z := 2.

Record Config := mkConfig {
  c_Role : Z;
  c_Codec : Codec;
  IncomingBacklog : Z;
  AllowedServices : option (gmap Z bool);
  c_InitialWindow : Z;
  WindowUpdateThreshold : Z;
  c_MaxDataPayload : Z
}.

(** [wire] is everything written to the transport so far; [connErr] is the
    error its writes return once it is broken or closed. *)
Record Mux := mkMux {
  codec : Codec;
  role : Z;
  limits : Limits;
  heap : gmap nat Stream;
  nextLoc : nat;
  streams : gmap Z nat;
  nextID : Z;
  merr : option mux_error;
  allowed : gmap Z bool;
  incoming : list nat;
  incomingCap : Z;
  outgoing : list Frame;
  done : bool;
  wire : bytes;
  connErr : option mux_error
}.

#[export] Instance upd_heap : Update heap := fun v m =>
  mkMux (m.(codec)) (m.(role)) (m.(limits)) v (m.(nextLoc)) (m.(streams)) (m.(nextID)) (m.(merr)) (m.(allowed)) (m.(incoming)) (m.(incomingCap)) (m.(outgoing)) (m.(done)) (m.(wire)) (m.(connErr)).
#[export] Instance upd_nextLoc : Update nextLoc := fun v m =>
  mkMux (m.(codec)) (m.(role)) (m.(limits)) (m.(heap)) v (m.(streams)) (m.(nextID)) (m.(merr)) (m.(allowed)) (m.(incoming)) (m.(incomingCap)) (m.(outgoing)) (m.(done)) (m.(wire)) (m.(connErr)).
#[export] Instance upd_streams : Update streams := fun v m =>
  mkMux (m.(codec)) (m.(role)) (m.(limits)) (m.(heap)) (m.(nextLoc)) v (m.(nextID)) (m.(merr)) (m.(allowed)) (m.(incoming)) (m.(incomingCap)) (m.(outgoing)) (m.(done)) (m.(wire)) (m.(connErr)).
#[export] Instance upd_nextID : Update nextID := fun v m =>
  mkMux (m.(codec)) (m.(role)) (m.(limits)) (m.(heap)) (m.(nextLoc)) (m.(streams)) v (m.(merr)) (m.(allowed)) (m.(incoming)) (m.(incomingCap)) (m.(outgoing)) (m.(done)) (m.(wire)) (m.(connErr)).
#[export] Instance upd_merr : Update merr := fun v m =>
  mkMux (m.(codec)) (m.(role)) (m.(limits)) (m.(heap)) (m.(nextLoc)) (m.(streams)) (m.(nextID)) v (m.(allowed)) (m.(incoming)) (m.(incomingCap)) (m.(outgoing)) (m.(done)) (m.(wire)) (m.(connErr)).
#[export] Instance upd_incoming : Update incoming := fun v m =>
  mkMux (m.(codec)) (m.(role)) (m.(limits)) (m.(heap)) (m.(nextLoc)) (m.(streams)) (m.(nextID)) (m.(merr)) (m.(allowed)) v (m.(incomingCap)) (m.(outgoing)) (m.(done)) (m.(wire)) (m.(connErr)).
#[export] Instance upd_outgoing : Update outgoing := fun v m =>
  mkMux (m.(codec)) (m.(role)) (m.(limits)) (m.(heap)) (m.(nextLoc)) (m.(streams)) (m.(nextID)) (m.(merr)) (m.(allowed)) (m.(incoming)) (m.(incomingCap)) v (m.(done)) (m.(wire)) (m.(connErr)).
#[export] Instance upd_done : Update done := fun v m =>
  mkMux (m.(codec)) (m.(role)) (m.(limits)) (m.(heap)) (m.(nextLoc)) (m.(streams)) (m.(nextID)) (m.(merr)) (m.(allowed)) (m.(incoming)) (m.(incomingCap)) (m.(outgoing)) v (m.(wire)) (m.(connErr)).
#[export] Instance upd_wire : Update wire := fun v m =>
  mkMux (m.(codec)) (m.(role)) (m.(limits)) (m.(heap)) (m.(nextLoc)) (m.(streams)) (m.(nextID)) (m.(merr)) (m.(allowed)) (m.(incoming)) (m.(incomingCap)) (m.(outgoing)) (m.(done)) v (m.(connErr)).
#[export] Instance upd_connErr : Update connErr := fun v m =>
  mkMux (m.(codec)) (m.(role)) (m.(limits)) (m.(heap)) (m.(nextLoc)) (m.(streams)) (m.(nextID)) (m.(merr)) (m.(allowed)) (m.(incoming)) (m.(incomingCap)) (m.(outgoing)) (m.(done)) (m.(wire)) v.

(** The error of a write to a transport that [shutdown] closed. *)
Definition connClosed : mux_error := ETransport 0.

Definition default_allowed : gmap Z bool :=
  {[ServiceControl := true; ServiceFS := true; ServiceTCP := true; ServiceExec := true;
    ServiceEvents := true]}.

(** [New], without the two goroutines it starts. *)
Definition New (conn_nil : bool) (config : Config) : result mux_error Mux :=
  if conn_nil then Err ENilTransport else
  if negb (c_Role config =? RoleInitiator) && negb (c_Role config =? RoleResponder)
  then Err (EInvalidRole (c_Role config)) else
  let backlog := if IncomingBacklog config <=? 0 then 16 else IncomingBacklog config in
  let iw := if c_InitialWindow config =? 0 then DefaultInitialWindow else c_InitialWindow config in
  if Z.shiftl 64 20 <? iw then Err (EWindowLimit iw) else
  let thr :=
    if WindowUpdateThreshold config =? 0 then
      if iw / 2 =? 0 then 1 else iw / 2
    else WindowUpdateThreshold config in
  if iw <? thr then Err (EWindowThreshold thr iw) else
  let codecMax := maxPayload (c_Codec config) in
  let mdp :=
    if c_MaxDataPayload config =? 0 then minUint32 DefaultMaxDataPayload codecMax
    else c_MaxDataPayload config in
  if codecMax <? mdp then Err (EDataPayloadCodec mdp codecMax) else
  let mdp := minUint32 mdp iw in
  if mdp =? 0 then Err EDataPayloadZero else
  let allow := match AllowedServices config with None => default_allowed | Some a => a end in
  let next := if c_Role config =? RoleResponder then 2 else 1 in
  Ok (mkMux (c_Codec config) (c_Role config) (mkLimits iw thr mdp) ∅ 0 ∅ next None allow
        [] backlog [] false [] None).

(** ** Table, errors and the stream heap *)

Definition upd_stream (loc : nat) (f : Stream -> Stream) (m : Mux) : Mux :=
  m <| heap := alter f loc (heap m) |>.

Definition lookupStream (sid : Z) (m : Mux) : option (nat * Stream) :=
  loc ← streams m !! sid; s ← heap m !! loc; Some (loc, s).

Definition removeStream (sid : Z) (m : Mux) : Mux := m <| streams := delete sid (streams m) |>.

Definition maybeRemove (s : Stream) (m : Mux) : Mux :=
  if isFullyClosed s then removeStream (s_id s) m else m.

Definition closeErr (m : Mux) : mux_error :=
  match merr m with Some e => e | None => EMuxClosed end.

Definition peerOwns (m : Mux) (sid : Z) : bool :=
  if sid =? 0 then false
  else if role m =? RoleInitiator then sid mod 2 =? 0 else sid mod 2 =? 1.

(** The loop of [shutdown] over the streams that were in the table. *)
Definition fail_streams (e : mux_error) (locs : list nat) (h : gmap nat Stream) : gmap nat Stream :=
  foldr (fun loc h => alter (fun s => remoteClose (Some e) (signalAccepted (Some e) s)) loc h) h locs.

Definition shutdown (err : option mux_error) (m : Mux) : Mux :=
  let e := match err with Some e => e | None => EMuxClosed end in
  if done m then m
  else
    let locs := (map_to_list (streams m)).*2 in
    m <| merr := Some e |> <| streams := ∅ |> <| done := true |>
      <| connErr := Some connClosed |> <| heap := fail_streams e locs (heap m) |>.

Definition Close (m : Mux) : Mux := shutdown (Some EMuxClosed) m.

(** ** Sending *)

Definition sendAsync (pick : bool) (f : Frame) (m : Mux) : result mux_error unit * Mux :=
  if done m && negb pick then (Err (closeErr m), m)
  else (Ok tt, m <| outgoing := outgoing m ++ [f] |>).

(** One iteration of [writerLoop] on a non-empty channel. *)
Definition writer_step (m : Mux) : result mux_error unit * Mux :=
  match outgoing m with
  | [] => (Ok tt, m)
  | f :: rest =>
    let m1 := m <| outgoing := rest |> in
    match encode_frame (codec m1) f with
    | Err e => (Err e, shutdown (Some e) m1)
    | Ok bs =>
      match connErr m1 with
      | Some e => (Err e, shutdown (Some e) m1)
      | None => (Ok tt, m1 <| wire := wire m1 ++ bs |>)
      end
    end
  end.

Fixpoint drain (n : nat) (m : Mux) : result mux_error unit * Mux :=
  match n with
  | O => (Ok tt, m)
  | S n' =>
    match writer_step m with
    | (Ok _, m') => drain n' m'
    | (Err e, m') => (Err e, m')
    end
  end.

Definition send (pick : bool) (f : Frame) (m : Mux) : result mux_error unit * Mux :=
  match sendAsync pick f m with
  | (Err e, m1) => (Err e, m1)
  | (Ok _, m1) =>
    if done m1 then (Err (closeErr m1), m1) else drain (length (outgoing m1)) m1
  end.

Definition resetStream (pick : bool) (loc : nat) (err : option mux_error) (m : Mux) : Mux :=
  match heap m !! loc with
  | None => m
  | Some s =>
    let e := match err with Some e => e | None => EStreamReset end in
    let m1 := upd_stream loc (fun s => remoteClose (Some e) (signalAccepted (Some e) s)) m in
    let m2 := snd (sendAsync pick (mkFrame FrameReset 0 (s_id s) (service s) []) m1) in
    removeStream (s_id s) m2
  end.

Definition sendInitialWindow (pick : bool) (loc : nat) (async : bool) (m : Mux)
  : result mux_error unit * Mux :=
  match heap m !! loc with
  | None => (Ok tt, m)
  | Some s =>
    let (r, s') := initializeReceiveWindow s in
    let m1 := upd_stream loc (fun _ => s') m in
    match (let* credit := r in encodeWindowCredit credit) with
    | Err e => (Err e, m1)
    | Ok payload =>
      let f := mkFrame FrameWindow 0 (s_id s) (service s) payload in
      if async then sendAsync pick f m1 else send pick f m1
    end
  end.

(** ** Opening and accepting streams *)

(** Allocate a stream object and enter it in the table. *)
Definition add_stream (sid svc : Z) (meta : bytes) (acc : bool) (m : Mux) : nat * Mux :=
  let loc := nextLoc m in
  (loc, m <| heap := <[loc := newStream (limits m) sid svc meta acc]> (heap m) |>
          <| nextLoc := S loc |> <| streams := <[sid := loc]> (streams m) |>).

Definition newLocalStream (svc : Z) (m : Mux) : result mux_error nat * Mux :=
  match merr m with
  | Some e => (Err e, m)
  | None =>
    let sid := nextID m in
    let (loc, m1) := add_stream sid svc [] false (m <| nextID := u32 (sid + 2) |>) in
    (Ok loc, m1)
  end.

(** [Open] up to its [select]: the stream is in the table and OPEN was sent. *)
Definition Open_begin (pick : bool) (svc : Z) (meta : bytes) (m : Mux) : result mux_error nat * Mux :=
  if negb (service_valid svc) then (Err (EInvalidService svc), m) else
  let sid := nextID m in
  match newLocalStream svc m with
  | (Err e, m1) => (Err e, m1)
  | (Ok loc, m1) =>
    match send pick (mkFrame FrameOpen 0 sid svc meta) m1 with
    | (Err e, m2) => (Err e, removeStream sid m2)
    | (Ok _, m2) => (Ok loc, m2)
    end
  end.

(** [Open]'s [select], first branch: a value is ready on [stream.accepted]
    ([None] when there is none and the branch is not enabled). *)
Definition Open_accepted (pick : bool) (loc : nat) (m : Mux) : option (result mux_error nat * Mux) :=
  s ← heap m !! loc;
  err ← accepted s;
  let m0 := upd_stream loc (fun s => s <| accepted := None |>) m in
  Some
    match err with
    | Some e => (Err e, removeStream (s_id s) m0)
    | None =>
      let m1 := upd_stream loc markAccepted m0 in
      match sendInitialWindow pick loc false m1 with
      | (Err e, m2) => (Err e, removeStream (s_id s) (upd_stream loc (remoteClose (Some e)) m2))
      | (Ok _, m2) => (Ok loc, m2)
      end
    end.

(** Second branch: the caller's context ends. *)
Definition Open_canceled (pick : bool) (loc : nat) (m : Mux) : option (result mux_error nat * Mux) :=
  s ← heap m !! loc;
  let m1 := snd (sendAsync pick (mkFrame FrameReset 0 (s_id s) (service s) []) m) in
  let m2 := upd_stream loc (remoteClose (Some ECanceled)) m1 in
  Some (Err ECanceled, removeStream (s_id s) m2).

(** Third branch: the multiplexer shut down. *)
Definition Open_closed (m : Mux) : option (result mux_error nat) :=
  if done m then Some (Err (closeErr m)) else None.

(** [Accept] when a stream waits in the incoming channel. *)
Definition Accept (m : Mux) : option (nat * Mux) :=
  match incoming m with
  | [] => None
  | loc :: rest => Some (loc, m <| incoming := rest |>)
  end.

Definition handleOpen (pick : bool) (f : Frame) (m : Mux) : result mux_error unit * Mux :=
  if negb (service_valid (Service f)) || negb (bool_decide (allowed m !! Service f = Some true))
  then sendAsync pick (mkFrame FrameReset 0 (StreamID f) (Service f) []) m else
  if negb (peerOwns m (StreamID f)) then (Err (EInvalidStreamID (StreamID f)), m) else
  match merr m with
  | Some e => (Err e, m)
  | None =>
    if bool_decide (is_Some (streams m !! StreamID f))
    then (Err (EDuplicateOpen (StreamID f)), m) else
    let (loc, m1) := add_stream (StreamID f) (Service f) (Payload f) true m in
    if incomingCap m1 <=? len (incoming m1) then
      let m2 := removeStream (StreamID f) (upd_stream loc (remoteClose (Some EIncomingBacklog)) m1) in
      sendAsync pick (mkFrame FrameReset 0 (StreamID f) (Service f) []) m2
    else
    match sendAsync pick (mkFrame FrameAccept 0 (StreamID f) (Service f) []) m1 with
    | (Err e, m2) => (Err e, removeStream (StreamID f) (upd_stream loc (remoteClose (Some e)) m2))
    | (Ok _, m2) =>
      match sendInitialWindow pick loc true m2 with
      | (Err e, m3) => (Err e, removeStream (StreamID f) (upd_stream loc (remoteClose (Some e)) m3))
      | (Ok _, m3) =>
        let m4 := upd_stream loc markAccepted m3 in
        if done m4 && negb pick then
          (Err (closeErr m4),
           removeStream (StreamID f) (upd_stream loc (remoteClose (Some (closeErr m4))) m4))
        else (Ok tt, m4 <| incoming := incoming m4 ++ [loc] |>)
      end
    end
  end.

(** ** The read loop's dispatcher *)

Definition handleAccept (f : Frame) (m : Mux) : result mux_error unit * Mux :=
  match lookupStream (StreamID f) m with
  | None => (Err (EAcceptUnknown (StreamID f)), m)
  | Some (loc, s) =>
    if negb (service s =? Service f) then (Err (EAcceptMismatch (StreamID f)), m)
    else (Ok tt, upd_stream loc (signalAccepted None) m)
  end.

Definition handleWindow (pick : bool) (f : Frame) (m : Mux) : result mux_error unit * Mux :=
  match lookupStream (StreamID f) m with
  | None => (Ok tt, m)
  | Some (loc, s) =>
    if negb (service s =? Service f)
    then (Ok tt, resetStream pick loc (Some (EFlow FlowServiceMismatch)) m) else
    match decodeWindowCredit (Payload f) with
    | Err e => (Ok tt, resetStream pick loc (Some e) m)
    | Ok credit =>
      let (err, s') := addSendCredit credit s in
      let m1 := upd_stream loc (fun _ => s') m in
      match err with
      | Some e => (Ok tt, resetStream pick loc (Some e) m1)
      | None => (Ok tt, m1)
      end
    end
  end.

Definition handleData (pick : bool) (f : Frame) (m : Mux) : result mux_error unit * Mux :=
  match lookupStream (StreamID f) m with
  | None => (Ok tt, snd (sendAsync pick (mkFrame FrameReset 0 (StreamID f) (Service f) []) m))
  | Some (loc, s) =>
    if negb (isAccepted s) || negb (service s =? Service f)
    then (Ok tt, resetStream pick loc (Some EStreamReset) m) else
    let (err, s') := deliver (Payload f) s in
    let m1 := upd_stream loc (fun _ => s') m in
    match err with
    | Some e => (Ok tt, resetStream pick loc (Some e) m1)
    | None => (Ok tt, m1)
    end
  end.

Definition handleClose (pick : bool) (f : Frame) (m : Mux) : result mux_error unit * Mux :=
  match lookupStream (StreamID f) m with
  | None => (Ok tt, m)
  | Some (loc, s) =>
    if negb (service s =? Service f)
    then (Ok tt, resetStream pick loc (Some EStreamReset) m) else
    let s' := remoteClose None s in
    (Ok tt, maybeRemove s' (upd_stream loc (fun _ => s') m))
  end.

Definition handleReset (f : Frame) (m : Mux) : result mux_error unit * Mux :=
  match lookupStream (StreamID f) m with
  | None => (Ok tt, m)
  | Some (loc, s) =>
    let m1 := upd_stream loc
      (fun s => remoteClose (Some EStreamReset) (signalAccepted (Some EStreamReset) s)) m in
    (Ok tt, removeStream (StreamID f) m1)
  end.

Definition handleFrame (pick : bool) (f : Frame) (m : Mux) : result mux_error unit * Mux :=
  if Type_ f =? FrameOpen then handleOpen pick f m
  else if Type_ f =? FrameAccept then handleAccept f m
  else if Type_ f =? FrameWindow then handleWindow pick f m
  else if Type_ f =? FrameData then handleData pick f m
  else if Type_ f =? FrameClose then handleClose pick f m
  else if Type_ f =? FrameReset then handleReset f m
  else if Type_ f =? FramePing then sendAsync pick (mkFrame FramePong 0 0 0 (Payload f)) m
  else if Type_ f =? FramePong then (Ok tt, m)
  else (Err (EInvalidType (Type_ f)), m).

(** One iteration of [readLoop] on the bytes the transport still holds: the
    rest of the input, or [None] when the loop returns. *)
Definition read_step (pick : bool) (inp : bytes) (m : Mux) : option bytes * Mux :=
  match ReadFrame (codec m) inp with
  | Err e => (None, shutdown (Some e) m)
  | Ok (f, rest) =>
    match handleFrame pick f m with
    | (Err e, m') => (None, shutdown (Some e) m')
    | (Ok _, m') => (Some rest, m')
    end
  end.

Fixpoint readLoop (fuel : nat) (pick : bool) (inp : bytes) (m : Mux) : option Mux :=
  match fuel with
  | O => None
  | S fuel' =>
    match read_step pick inp m with
    | (None, m') => Some m'
    | (Some rest, m') => readLoop fuel' pick rest m'
    end
  end.

(** ** Stream methods that send *)

(** [Read] with a buffer of [n] bytes. *)
Definition Stream_Read (pick : bool) (n : nat) (loc : nat) (m : Mux) : option (read_outcome * Mux) :=
  s ← heap m !! loc;
  Some
    (if Nat.eqb n 0 then (ReadGot [] 0 None, m) else
     let (o, s') := read_locked n s in
     let m1 := upd_stream loc (fun _ => s') m in
     match o with
     | ReadGot data grant None =>
       if 0 <? grant then
         match encodeWindowCredit grant with
         | Err e => (ReadGot data grant (Some e), m1)
         | Ok payload =>
           match sendAsync pick (mkFrame FrameWindow 0 (s_id s) (service s) payload) m1 with
           | (Err e, m2) => (ReadGot data grant (Some e), m2)
           | (Ok _, m2) => (ReadGot data grant None, m2)
           end
         end
       else (o, m1)
     | _ => (o, m1)
     end).

Inductive write_result : Type :=
| WriteDone
| WriteErr (e : mux_error)
| WriteWaits.

(** [Write]: the loop over chunks. Every chunk carries at least one byte, so
    [length p] iterations are enough; [WriteWaits] when credit runs out. *)
Fixpoint write_loop (fuel : nat) (pick : bool) (loc : nat) (p : bytes) (total : nat) (m : Mux)
  : option (nat * write_result * Mux) :=
  match p with
  | [] => Some (total, WriteDone, m)
  | _ =>
    match fuel with
    | O => None
    | S fuel' =>
      s ← heap m !! loc;
      match write_locked (len p) s with
      | (WriteFails e, s') => Some (total, WriteErr e, upd_stream loc (fun _ => s') m)
      | (WriteBlocks, s') => Some (total, WriteWaits, upd_stream loc (fun _ => s') m)
      | (WriteChunk chunk, s') =>
        let m1 := upd_stream loc (fun _ => s') m in
        match send pick (mkFrame FrameData 0 (s_id s) (service s) (take chunk p)) m1 with
        | (Err e, m2) => Some (total, WriteErr e, m2)
        | (Ok _, m2) => write_loop fuel' pick loc (drop chunk p) (total + chunk) m2
        end
      end
    end
  end.

Definition Stream_Write (pick : bool) (loc : nat) (p : bytes) (m : Mux)
  : option (nat * write_result * Mux) :=
  write_loop (length p) pick loc p 0 m.

Definition Stream_Close (pick : bool) (loc : nat) (m : Mux) : option (result mux_error unit * Mux) :=
  s ← heap m !! loc;
  Some
    match close_locked s with
    | None => (Ok tt, m)
    | Some s' =>
      let m1 := upd_stream loc (fun _ => s') m in
      let (r, m2) := send pick (mkFrame FrameClose 0 (s_id s) (service s) []) m1 in
      (r, match heap m2 !! loc with Some s2 => maybeRemove s2 m2 | None => m2 end)
    end.

Definition Stream_Reset (pick : bool) (loc : nat) (m : Mux) : option (result mux_error unit * Mux) :=
  s ← heap m !! loc;
  Some
    match reset_locked s with
    | None => (Ok tt, m)
    | Some s' =>
      let m1 := upd_stream loc (fun _ => s') m in
      let (r, m2) := sendAsync pick (mkFrame FrameReset 0 (s_id s) (service s) []) m1 in
      (r, removeStream (s_id s) m2)
    end.

(** ** The multiplexer invariant *)

Definition role_ok (m : Mux) : Prop := role m = RoleInitiator \/ role m = RoleResponder.

(** The parity of the IDs this side allocates. *)
Definition own_parity (m : Mux) : Z := if role m =? RoleInitiator then 1 else 0.

Record mux_wf (m : Mux) : Prop := {
  wf_limits : limits_ok (limits m);
  wf_role : role_ok m;
  wf_next : is_u 32 (nextID m) /\ nextID m mod 2 = own_parity m;
  wf_heap : forall loc s, heap m !! loc = Some s ->
    (loc < nextLoc m)%nat /\ stream_wf s /\ stream_limits s = limits m;
  wf_table : forall sid loc, streams m !! sid = Some loc ->
    exists s, heap m !! loc = Some s /\ s_id s = sid;
  wf_incoming : Forall (fun loc => is_Some (heap m !! loc)) (incoming m) /\
    len (incoming m) <= incomingCap m;
  wf_done : if done m then streams m = ∅ /\ is_Some (merr m) /\ is_Some (connErr m)
            else merr m = None
}.

Lemma upd_stream_wf loc f m :
  (forall s, heap m !! loc = Some s -> rtc stream_step s (f s)) ->
  mux_wf m -> mux_wf (upd_stream loc f m).
Proof.
  intros Hf [Hl Hr Hn Hh Ht [Hi Hc] Hd]. unfold upd_stream.
  assert (Hsome : forall l, is_Some (heap m !! l) -> is_Some (alter f loc (heap m) !! l)).
  { intros l [s Hs]. rewrite lookup_alter, Hs. case_decide; subst; rewrite ?Hs; cbn; eauto. }
  constructor; try done; cbn.
  - intros l s'. rewrite lookup_alter. case_decide as E; subst; [|apply Hh].
    destruct (heap m !! l) as [s|] eqn:El; [|done]. cbn. intros [= <-].
    destruct (Hh _ _ El) as (? & ? & <-). specialize (Hf _ eq_refl).
    split_and!; [done|by eapply stream_steps_wf|]. by apply stream_steps_identity in Hf as (_ & _ & ?).
  - intros sid l Hsid. destruct (Ht _ _ Hsid) as (s & Hs & Hid). rewrite lookup_alter.
    case_decide as E; subst; [|eauto]. rewrite Hs. cbn. eexists. split; [done|].
    by apply Hf, stream_steps_identity in Hs as (? & _ & _).
  - split; [|done]. eapply Forall_impl; [done|]. auto.
Qed.

Lemma upd_stream_eq_wf loc s s' m :
  heap m !! loc = Some s -> stream_step s s' -> mux_wf m -> mux_wf (upd_stream loc (fun _ => s') m).
Proof.
  intros Hs Hst. apply upd_stream_wf. intros s0 H0. simplify_eq. by apply rtc_once.
Qed.

Lemma removeStream_wf sid m : mux_wf m -> mux_wf (removeStream sid m).
Proof.
  intros [Hl Hr Hn Hh Ht Hi Hd]. constructor; try done; cbn.
  - intros i l [_ H]%lookup_delete_Some. eauto.
  - destruct (done m); [|done]. destruct Hd as (-> & ? & ?). by rewrite delete_empty.
Qed.

Lemma outgoing_wf q m : mux_wf m -> mux_wf (m <| outgoing := q |>).
Proof. intros []; by constructor. Qed.
Lemma wire_wf w m : mux_wf m -> mux_wf (m <| wire := w |>).
Proof. intros []; by constructor. Qed.

Lemma sendAsync_wf pick f m : mux_wf m -> mux_wf (snd (sendAsync pick f m)).
Proof. intros Hm. unfold sendAsync. case_match; [done|]. by apply outgoing_wf. Qed.

Lemma fail_stream_steps e s :
  rtc stream_step s (remoteClose (Some e) (signalAccepted (Some e) s)).
Proof. eapply rtc_l; [apply step_signal|]. apply rtc_once. apply step_remoteClose. Qed.

Lemma fail_streams_wf e locs m :
  mux_wf m -> mux_wf (m <| heap := fail_streams e locs (heap m) |>).
Proof.
  intros Hm. induction locs as [|l locs IH]; [by destruct m|].
  apply (upd_stream_wf l (fun s => remoteClose (Some e) (signalAccepted (Some e) s))) in IH; [done|].
  intros. apply fail_stream_steps.
Qed.

Lemma shutdown_wf e m : mux_wf m -> mux_wf (shutdown e m).
Proof.
  intros Hm. unfold shutdown. destruct (done m) eqn:Ed; [done|].
  set (err := match e with Some e => e | None => EMuxClosed end).
  apply (fail_streams_wf err ((map_to_list (streams m)).*2)) in Hm as [Hl Hr Hn Hh Ht Hi Hd].
  by constructor.
Qed.

Lemma writer_step_wf m : mux_wf m -> mux_wf (snd (writer_step m)).
Proof.
  intros Hm. unfold writer_step. destruct (outgoing m) as [|f rest]; [done|].
  apply (outgoing_wf rest) in Hm.
  case_match; [|by apply shutdown_wf]. case_match; [by apply shutdown_wf|]. by apply wire_wf.
Qed.

Lemma drain_wf n m : mux_wf m -> mux_wf (snd (drain n m)).
Proof.
  revert m. induction n as [|n IH]; intros m Hm; [done|]. cbn.
  apply writer_step_wf in Hm. destruct (writer_step m) as [[|] m']; cbn in *; auto.
Qed.

Lemma send_wf_mux pick f m : mux_wf m -> mux_wf (snd (send pick f m)).
Proof.
  intros Hm. unfold send. apply (sendAsync_wf pick f) in Hm.
  destruct (sendAsync pick f m) as [[|] m1]; cbn in *; [|done]. case_match; [done|]. by apply drain_wf.
Qed.

Lemma resetStream_wf pick loc e m : mux_wf m -> mux_wf (resetStream pick loc e m).
Proof.
  intros Hm. unfold resetStream. case_match; [|done].
  apply removeStream_wf, sendAsync_wf, upd_stream_wf; [|done]. intros. apply fail_stream_steps.
Qed.

Lemma sendInitialWindow_wf pick loc a m : mux_wf m -> mux_wf (snd (sendInitialWindow pick loc a m)).
Proof.
  intros Hm. unfold sendInitialWindow. destruct (heap m !! loc) as [s|] eqn:Es; [|done].
  assert (mux_wf (upd_stream loc (fun _ => snd (initializeReceiveWindow s)) m)) as H1
    by (eapply upd_stream_eq_wf; [done|apply step_initialize|done]).
  destruct (initializeReceiveWindow s) as [r s']. cbn in H1.
  case_match; [|done]. case_match; auto using sendAsync_wf, send_wf_mux.
Qed.

Lemma add_stream_wf sid svc meta acc m :
  done m = false -> mux_wf m -> mux_wf (snd (add_stream sid svc meta acc m)).
Proof.
  intros Hnd [Hl Hr Hn Hh Ht [Hi Hc] Hd].
  assert (Hfresh : heap m !! nextLoc m = None).
  { destruct (heap m !! nextLoc m) eqn:E; [|done]. apply Hh in E as [? _]. lia. }
  constructor; try done; cbn.
  - intros l s. rewrite lookup_insert. case_decide as E; subst.
    + intros [= <-]. split_and!; [lia|by apply newStream_wf|by destruct (limits m)].
    + intros (? & ? & ?)%Hh. split_and!; [lia|done|done].
  - intros i l. rewrite lookup_insert. case_decide as E; subst.
    + intros [= <-]. eexists. by rewrite lookup_insert_eq.
    + intros (s & Hs & Hid)%Ht. exists s. split; [|done].
      rewrite lookup_insert_ne; [done|]. intros <-. congruence.
  - split; [|done]. eapply Forall_impl; [done|]. intros l [s Hs]. exists s.
    rewrite lookup_insert_ne; [done|]. intros <-. congruence.
  - by rewrite Hnd in *.
Qed.

Lemma wf_open_not_done m : mux_wf m -> merr m = None -> done m = false.
Proof. intros [_ _ _ _ _ _ Hd] He. destruct (done m); [|done]. rewrite He in Hd. by destruct Hd as (_ & [? ?] & _). Qed.

Lemma nextID_wf m : mux_wf m -> mux_wf (m <| nextID := u32 (nextID m + 2) |>).
Proof.
  intros [Hl Hr [Hn Hp] Hh Ht Hi Hd]. constructor; try done. cbn. split; [by apply is_u_mod|].
  unfold own_parity in *; cbn. rewrite <- Hp. unfold u32.
  rewrite Z.mod_mod_divide by (by exists (2 ^ 31)).
  replace (nextID m + 2) with (nextID m + 1 * 2) by lia. by rewrite Z.mod_add.
Qed.

Lemma incoming_wf q m : mux_wf m -> Forall (fun loc => is_Some (heap m !! loc)) q ->
  len q <= incomingCap m -> mux_wf (m <| incoming := q |>).
Proof. intros [] ? ?; by constructor. Qed.

Lemma newLocalStream_wf svc m : mux_wf m -> mux_wf (snd (newLocalStream svc m)).
Proof.
  intros Hm. unfold newLocalStream. destruct (merr m) eqn:He; [done|].
  assert (Hd := wf_open_not_done m Hm He). by apply add_stream_wf, nextID_wf.
Qed.

Lemma Open_begin_wf pick svc meta m : mux_wf m -> mux_wf (snd (Open_begin pick svc meta m)).
Proof.
  intros Hm. unfold Open_begin. case_match; [done|].
  apply (newLocalStream_wf svc) in Hm. destruct (newLocalStream svc m) as [[loc|e] m1]; [|done].
  apply (send_wf_mux pick (mkFrame FrameOpen 0 (nextID m) svc meta)) in Hm. cbn [snd] in Hm.
  destruct (send _ _ m1) as [[|] m2]; [done|]. by apply removeStream_wf.
Qed.

(** The one-step updates the handlers apply to a stream in place. *)
Ltac stream_op :=
  intros; first [apply step_remoteClose | apply step_mark | apply step_signal | apply step_take_accepted].

Lemma upd_stream_step_wf loc f m :
  (forall s, stream_step s (f s)) -> mux_wf m -> mux_wf (upd_stream loc f m).
Proof. intros Hf. apply upd_stream_wf. intros. by apply rtc_once. Qed.

Lemma Open_accepted_wf pick loc m r m' :
  mux_wf m -> Open_accepted pick loc m = Some (r, m') -> mux_wf m'.
Proof.
  intros Hm. unfold Open_accepted. destruct (heap m !! loc) as [s|]; [|done]. cbn -[upd_stream].
  destruct (accepted s) as [[e|]|]; [..|done]; cbn -[upd_stream]; intros H; simplify_eq.
  - by apply removeStream_wf, upd_stream_step_wf; [stream_op|].
  - set (m1 := upd_stream loc markAccepted _) in H.
    assert (mux_wf m1) as H1 by (do 2 (apply upd_stream_step_wf; [stream_op|]); done).
    apply (sendInitialWindow_wf pick loc false) in H1.
    destruct (sendInitialWindow pick loc false m1) as [[|] m2]; simplify_eq; [done|].
    by apply removeStream_wf, upd_stream_step_wf; [stream_op|].
Qed.

Lemma Open_canceled_wf pick loc m r m' :
  mux_wf m -> Open_canceled pick loc m = Some (r, m') -> mux_wf m'.
Proof.
  intros Hm. unfold Open_canceled. destruct (heap m !! loc) as [s|]; [|done].
  cbn -[upd_stream]. intros [= <- <-].
  apply removeStream_wf, upd_stream_step_wf; [stream_op|by apply sendAsync_wf].
Qed.

Lemma Accept_wf m loc m' : mux_wf m -> Accept m = Some (loc, m') -> mux_wf m'.
Proof.
  intros Hm. unfold Accept. destruct (incoming m) as [|l rest] eqn:E; [done|]. intros [= <- <-].
  assert (Hi := wf_incoming m Hm). rewrite E, len_cons in Hi. destruct Hi as [[_ Hi]%Forall_cons Hc].
  apply incoming_wf; [done|done|lia].
Qed.

(** What an asynchronous send leaves alone. *)
Lemma sendAsync_frame pick f m r m' :
  sendAsync pick f m = (r, m') ->
  incoming m' = incoming m /\ incomingCap m' = incomingCap m /\ heap m' = heap m /\
  streams m' = streams m /\ done m' = done m /\ limits m' = limits m /\ merr m' = merr m.
Proof. unfold sendAsync. by case_match; intros [= <- <-]. Qed.

Lemma sendInitialWindow_async pick loc m r m' :
  sendInitialWindow pick loc true m = (r, m') ->
  incoming m' = incoming m /\ incomingCap m' = incomingCap m /\ streams m' = streams m /\
  (forall l, is_Some (heap m !! l) -> is_Some (heap m' !! l)) /\
  (forall l, l <> loc -> heap m' !! l = heap m !! l).
Proof.
  unfold sendInitialWindow. destruct (heap m !! loc) as [s|] eqn:Es; [|by intros [= <- <-]].
  destruct (initializeReceiveWindow s) as [r0 s'].
  assert (forall l, is_Some (heap m !! l) -> is_Some (heap (upd_stream loc (fun _ => s') m) !! l)) as H1.
  { intros l [x Hx]. cbn. rewrite lookup_alter. case_decide; subst; rewrite Hx; cbn; eauto. }
  assert (forall l, l <> loc -> heap (upd_stream loc (fun _ => s') m) !! l = heap m !! l) as H2.
  { intros l Hl. cbn. by rewrite lookup_alter_ne. }
  case_match; [|by intros [= <- <-]].
  intros (E1 & E2 & E3 & E4 & _)%sendAsync_frame. rewrite E1, E2, E3, E4. done.
Qed.

Lemma handleOpen_wf pick f m : mux_wf m -> mux_wf (snd (handleOpen pick f m)).
Proof.
  intros Hm. unfold handleOpen. case_match; [by apply sendAsync_wf|]. case_match; [done|].
  destruct (merr m) eqn:He; [done|]. case_match; [done|].
  assert (Hd := wf_open_not_done m Hm He).
  apply (add_stream_wf (StreamID f) (Service f) (Payload f) true) in Hm; [|done].
  destruct (add_stream _ _ _ _ m) as [loc m1] eqn:E1. cbn [snd] in Hm.
  assert (is_Some (heap m1 !! loc)) as Hloc.
  { injection E1 as <- <-. cbn. rewrite lookup_insert_eq. eauto. }
  destruct (Z.leb_spec (incomingCap m1) (len (incoming m1))) as [|Hroom].
  { by apply sendAsync_wf, removeStream_wf, upd_stream_step_wf; [stream_op|]. }
  destruct (sendAsync pick _ m1) as [r2 m2] eqn:E2.
  assert (mux_wf m2) as Hm2 by (apply (f_equal snd) in E2; cbn in E2; subst; by apply sendAsync_wf).
  apply sendAsync_frame in E2 as (I2 & C2 & H2 & _).
  destruct r2; [|by apply removeStream_wf, upd_stream_step_wf; [stream_op|]].
  destruct (sendInitialWindow pick loc true m2) as [r3 m3] eqn:E3.
  assert (mux_wf m3) as Hm3
    by (apply (f_equal snd) in E3; cbn in E3; subst; by apply sendInitialWindow_wf).
  apply sendInitialWindow_async in E3 as (I3 & C3 & _ & H3 & _).
  destruct r3; [|by apply removeStream_wf, upd_stream_step_wf; [stream_op|]].
  assert (mux_wf (upd_stream loc markAccepted m3)) as Hm4
    by (apply upd_stream_step_wf; [stream_op|done]).
  case_match; [by apply removeStream_wf, upd_stream_step_wf; [stream_op|]|].
  destruct (wf_incoming _ Hm4) as [Hin Hc]. apply incoming_wf; [done|..].
  - apply Forall_app. split; [done|]. apply Forall_singleton. cbn. rewrite lookup_alter.
    rewrite <- H2 in Hloc. apply H3 in Hloc as [x Hx]. rewrite decide_True by done. rewrite Hx. cbn. eauto.
  - cbn in *. rewrite len_app, len_cons, C3, I3, C2, I2. len_nil_simpl. lia.
Qed.

Lemma lookupStream_some sid m loc s :
  lookupStream sid m = Some (loc, s) <-> streams m !! sid = Some loc /\ heap m !! loc = Some s.
Proof.
  unfold lookupStream. destruct (streams m !! sid) as [l|]; cbn; [|naive_solver].
  destruct (heap m !! l) eqn:E; cbn; naive_solver.
Qed.

Lemma decodeWindowCredit_u32 p c : bytes_ok p -> decodeWindowCredit p = Ok c -> is_u 32 c /\ c <> 0.
Proof.
  intros Hp. unfold decodeWindowCredit. case_match eqn:El; [done|]. case_match eqn:Ez; [done|].
  intros [= <-]. go_bool. split; [|done]. pose proof (be_get_bound p Hp) as B. by rewrite El in B.
Qed.

Lemma handleAccept_wf f m : mux_wf m -> mux_wf (snd (handleAccept f m)).
Proof.
  intros Hm. unfold handleAccept. repeat (case_match; try done). cbn [snd].
  by apply upd_stream_step_wf; [stream_op|].
Qed.

Lemma handleWindow_wf pick f m :
  bytes_ok (Payload f) -> mux_wf m -> mux_wf (snd (handleWindow pick f m)).
Proof.
  intros Hp Hm. unfold handleWindow.
  destruct (lookupStream _ m) as [[loc s]|] eqn:El; [|done]. apply lookupStream_some in El as [_ Hs].
  case_match; [by apply resetStream_wf|].
  destruct (decodeWindowCredit _) as [c|] eqn:Ec; [|by apply resetStream_wf].
  apply decodeWindowCredit_u32 in Ec as [Hc _]; [|done].
  assert (mux_wf (upd_stream loc (fun _ => snd (addSendCredit c s)) m)) as H1
    by (eapply upd_stream_eq_wf; [done|by apply step_credit|done]).
  destruct (addSendCredit c s) as [[e|] s']; [by apply resetStream_wf|done].
Qed.

Lemma handleData_wf pick f m : mux_wf m -> mux_wf (snd (handleData pick f m)).
Proof.
  intros Hm. unfold handleData.
  destruct (lookupStream _ m) as [[loc s]|] eqn:El; [|by apply sendAsync_wf].
  apply lookupStream_some in El as [_ Hs]. case_match; [by apply resetStream_wf|].
  assert (mux_wf (upd_stream loc (fun _ => snd (deliver (Payload f) s)) m)) as H1
    by (eapply upd_stream_eq_wf; [done|by apply step_deliver|done]).
  destruct (deliver (Payload f) s) as [[e|] s']; [by apply resetStream_wf|done].
Qed.

Lemma maybeRemove_wf s m : mux_wf m -> mux_wf (maybeRemove s m).
Proof. unfold maybeRemove. case_match; auto using removeStream_wf. Qed.

Lemma handleClose_wf pick f m : mux_wf m -> mux_wf (snd (handleClose pick f m)).
Proof.
  intros Hm. unfold handleClose.
  destruct (lookupStream _ m) as [[loc s]|] eqn:El; [|done].
  apply lookupStream_some in El as [_ Hs]. case_match; [by apply resetStream_wf|].
  apply maybeRemove_wf. eapply upd_stream_eq_wf; [done|by apply step_remoteClose|done].
Qed.

Lemma handleReset_wf f m : mux_wf m -> mux_wf (snd (handleReset f m)).
Proof.
  intros Hm. unfold handleReset. destruct (lookupStream _ m) as [[loc s]|]; [|done].
  apply removeStream_wf, upd_stream_wf; [|done]. intros. apply fail_stream_steps.
Qed.

Lemma handleFrame_wf pick f m :
  bytes_ok (Payload f) -> mux_wf m -> mux_wf (snd (handleFrame pick f m)).
Proof.
  intros Hp Hm. unfold handleFrame.
  repeat (case_match; [eauto using handleOpen_wf, handleAccept_wf, handleWindow_wf, handleData_wf,
    handleClose_wf, handleReset_wf, sendAsync_wf|]); done.
Qed.

Lemma read_step_wf pick inp m :
  bytes_ok inp -> mux_wf m ->
  mux_wf (snd (read_step pick inp m)) /\
  (forall rest, fst (read_step pick inp m) = Some rest -> bytes_ok rest).
Proof.
  intros Hb Hm. unfold read_step.
  destruct (ReadFrame (codec m) inp) as [[f rest]|] eqn:E; [|split; [by apply shutdown_wf|done]].
  apply ReadFrame_inv in E as (r & _ & -> & (_ & _ & _ & _ & Hp) & _); [|done].
  apply Forall_app in Hb as [_ [_ Hr]%Forall_app].
  apply (handleFrame_wf pick f) in Hm; [|done].
  destruct (handleFrame pick f m) as [[|] m']; cbn [fst snd] in *.
  - split; [done|]. by intros ? [= <-].
  - split; [by apply shutdown_wf|done].
Qed.

Lemma Stream_Read_wf pick n loc m o m' :
  mux_wf m -> Stream_Read pick n loc m = Some (o, m') -> mux_wf m'.
Proof.
  intros Hm. unfold Stream_Read. destruct (heap m !! loc) as [s|] eqn:Es; [|done]. cbn -[upd_stream].
  destruct (Nat.eqb_spec n 0); [by intros [= <- <-]|].
  assert (mux_wf (upd_stream loc (fun _ => snd (read_locked n s)) m)) as H1
    by (eapply upd_stream_eq_wf; [done|apply step_read; lia|done]).
  destruct (read_locked n s) as [[|e|data grant [e|]] s']; cbn -[upd_stream] in *;
    try (by intros [= <- <-]).
  case_match; [|by intros [= <- <-]]. case_match; [|by intros [= <- <-]].
  apply (sendAsync_wf pick (mkFrame FrameWindow 0 (s_id s) (service s) a)) in H1.
  destruct (sendAsync pick _ _) as [[|] m2]; by intros [= <- <-].
Qed.

Lemma write_loop_wf fuel pick loc p total m n r m' :
  mux_wf m -> write_loop fuel pick loc p total m = Some (n, r, m') -> mux_wf m'.
Proof.
  revert p total m. induction fuel as [|fuel IH]; intros p total m Hm; destruct p as [|b p];
    cbn -[upd_stream take drop write_locked]; try done; try (by intros [= <- <- <-]).
  destruct (heap m !! loc) as [s|] eqn:Es; [|done]. cbn -[upd_stream take drop write_locked].
  assert (mux_wf (upd_stream loc (fun _ => snd (write_locked (len (b :: p)) s)) m)) as H1.
  { eapply upd_stream_eq_wf; [done| |done]. apply step_write. rewrite len_cons.
    pose proof (len_nonneg p). lia. }
  destruct (write_locked _ s) as [[|e|chunk] s']; cbn [snd] in H1; try (by intros [= <- <- <-]).
  apply (send_wf_mux pick (mkFrame FrameData 0 (s_id s) (service s) (take chunk (b :: p)))) in H1.
  destruct (send pick _ _) as [[|e] m2]; [by apply IH|by intros [= <- <- <-]].
Qed.

Lemma Stream_Close_wf pick loc m r m' :
  mux_wf m -> Stream_Close pick loc m = Some (r, m') -> mux_wf m'.
Proof.
  intros Hm. unfold Stream_Close. destruct (heap m !! loc) as [s|] eqn:Es; [|done]. cbn -[upd_stream].
  destruct (close_locked s) as [s'|] eqn:Ec; [|by intros [= <- <-]].
  assert (mux_wf (upd_stream loc (fun _ => s') m)) as H1
    by (eapply upd_stream_eq_wf; [done|by apply step_close|done]).
  apply (send_wf_mux pick (mkFrame FrameClose 0 (s_id s) (service s) [])) in H1.
  destruct (send pick _ _) as [r2 m2]. intros [= <- <-]. case_match; auto using maybeRemove_wf.
Qed.

Lemma Stream_Reset_wf pick loc m r m' :
  mux_wf m -> Stream_Reset pick loc m = Some (r, m') -> mux_wf m'.
Proof.
  intros Hm. unfold Stream_Reset. destruct (heap m !! loc) as [s|] eqn:Es; [|done]. cbn -[upd_stream].
  destruct (reset_locked s) as [s'|] eqn:Ec; [|by intros [= <- <-]].
  assert (mux_wf (upd_stream loc (fun _ => s') m)) as H1
    by (eapply upd_stream_eq_wf; [done|by apply step_reset|done]).
  apply (sendAsync_wf pick (mkFrame FrameReset 0 (s_id s) (service s) [])) in H1.
  destruct (sendAsync pick _ _) as [r2 m2]. intros [= <- <-]. by apply removeStream_wf.
Qed.

(** ** Steps of a session: the loops and every application call *)

Inductive mux_step : Mux -> Mux -> Prop :=
| ms_read_loop pick inp m : bytes_ok inp -> mux_step m (snd (read_step pick inp m))
| ms_writer m : mux_step m (snd (writer_step m))
| ms_open_begin pick svc meta m : mux_step m (snd (Open_begin pick svc meta m))
| ms_open_accepted pick loc m r m' : Open_accepted pick loc m = Some (r, m') -> mux_step m m'
| ms_open_canceled pick loc m r m' : Open_canceled pick loc m = Some (r, m') -> mux_step m m'
| ms_accept m loc m' : Accept m = Some (loc, m') -> mux_step m m'
| ms_stream_read pick n loc m o m' : Stream_Read pick n loc m = Some (o, m') -> mux_step m m'
| ms_stream_write pick loc p m n r m' : Stream_Write pick loc p m = Some (n, r, m') -> mux_step m m'
| ms_stream_close pick loc m r m' : Stream_Close pick loc m = Some (r, m') -> mux_step m m'
| ms_stream_reset pick loc m r m' : Stream_Reset pick loc m = Some (r, m') -> mux_step m m'
| ms_close m : mux_step m (Close m).

Lemma mux_step_wf m m' : mux_step m m' -> mux_wf m -> mux_wf m'.
Proof.
  destruct 1; intros Hm.
  - by apply read_step_wf.
  - by apply writer_step_wf.
  - by apply Open_begin_wf.
  - by eapply Open_accepted_wf.
  - by eapply Open_canceled_wf.
  - by eapply Accept_wf.
  - by eapply Stream_Read_wf.
  - by eapply write_loop_wf.
  - by eapply Stream_Close_wf.
  - by eapply Stream_Reset_wf.
  - by apply shutdown_wf.
Qed.

Lemma mux_steps_wf m m' : rtc mux_step m m' -> mux_wf m -> mux_wf m'.
Proof. induction 1; eauto using mux_step_wf. Qed.

(** The Go types of the configuration: [uint32] limits. *)
Definition config_typed (cfg : Config) : Prop :=
  is_u 32 (MaxPayload (c_Codec cfg)) /\ is_u 32 (c_InitialWindow cfg) /\
  is_u 32 (WindowUpdateThreshold cfg) /\ is_u 32 (c_MaxDataPayload cfg).

Lemma New_limits_ok cfg m :
  config_typed cfg -> New false cfg = Ok m ->
  limits_ok (limits m) /\ maxDataPayload (limits m) <= maxPayload (codec m) /\
  role_ok m /\ nextID m = (if role m =? RoleInitiator then 1 else 2) /\
  0 < incomingCap m /\ heap m = ∅ /\ streams m = ∅ /\ incoming m = [] /\ outgoing m = [] /\
  done m = false /\ merr m = None /\
  allowed m = match AllowedServices cfg with None => default_allowed | Some a => a end.
Proof.
  intros (Hc & Hw & Ht & Hd). pose proof (maxPayload_u32 _ Hc) as Hmax. unfold is_u in *.
  unfold New. destruct (_ && _) eqn:Er; [done|]. cbv zeta.
  assert (c_Role cfg = RoleInitiator \/ c_Role cfg = RoleResponder) as Hrole.
  { apply andb_false_iff in Er as [?|?]; go_bool; auto. }
  clear Er. change (Z.shiftl 64 20) with maxInitialWindow.
  remember (if c_InitialWindow cfg =? 0 then _ else _) as iw eqn:Eiw.
  assert (0 < iw) as Hiw by (subst; case_match; go_bool; [done|lia]).
  destruct (Z.ltb_spec maxInitialWindow iw); [done|].
  remember (if WindowUpdateThreshold cfg =? 0 then _ else _) as thr eqn:Ethr.
  assert (0 < thr) as Hthr
    by (subst thr; repeat case_match; go_bool; pose proof (Z.div_pos iw 2); lia).
  destruct (Z.ltb_spec iw thr); [done|].
  remember (if c_MaxDataPayload cfg =? 0 then _ else _) as mdp eqn:Emdp.
  assert (0 < mdp) as Hmdp
    by (subst mdp; unfold minUint32; repeat case_match; go_bool; try lia; done).
  destruct (Z.ltb_spec (maxPayload (c_Codec cfg)) mdp); [done|].
  assert (0 < minUint32 mdp iw <= mdp /\ minUint32 mdp iw <= iw) as Hmin
    by (unfold minUint32; destruct (Z.ltb_spec mdp iw); lia).
  clear Eiw Ethr Emdp.
  rewrite (proj2 (Z.eqb_neq _ _)) by lia. intros [= <-]. unfold limits_ok, role_ok. cbn.
  assert (0 < (if IncomingBacklog cfg <=? 0 then 16 else IncomingBacklog cfg)) as Hb
    by (case_match; go_bool; lia).
  split_and!; try done; try lia. by destruct Hrole as [-> | ->].
Qed.

Lemma New_wf cfg m : config_typed cfg -> New false cfg = Ok m -> mux_wf m.
Proof.
  intros Hc H. destruct (New_limits_ok _ _ Hc H) as (? & ? & Hr & Hn & ? & Hh & Hs & Hi & ? & Hd & He & _).
  constructor; try done.
  - unfold own_parity. rewrite Hn. destruct Hr as [-> | ->]; done.
  - rewrite Hh. by intros ?? ?%lookup_empty_Some.
  - rewrite Hs. by intros ?? ?%lookup_empty_Some.
  - rewrite Hi. split; [constructor|]. len_nil_simpl. lia.
  - by rewrite Hd.
Qed.

(** [New] either refuses a configuration or builds limits that fit each
    other and the codec: one DATA frame fits the codec and the window, the
    update threshold lies within the window, the window within 64 MiB, and the
    first stream ID has the parity of the role. *)
Theorem New_spec (cfg : Config) (m : Mux) :
  config_typed cfg -> New false cfg = Ok m ->
  0 < maxDataPayload (limits m) <= Z.min (maxPayload (codec m)) (initialWindow (limits m)) /\
  1 <= windowThreshold (limits m) <= initialWindow (limits m) /\
  initialWindow (limits m) <= maxInitialWindow /\
  nextID m = (if role m =? RoleInitiator then 1 else 2) /\ 0 < incomingCap m /\
  (AllowedServices cfg = None -> allowed m !! ServiceUDP = None).
Proof.
  intros Hc H. destruct (New_limits_ok _ _ Hc H)
    as ((? & ? & ?) & ? & ? & Hn & ? & _ & _ & _ & _ & _ & _ & Hal).
  split_and!; try done; try lia. intros Ha. by rewrite Hal, Ha.
Qed.

Lemma New_spec_witness :
  exists m, New false (mkConfig 2 (mkCodec 100) 0 None 0 0 0) = Ok m /\
    maxDataPayload (limits m) <= 100 /\ nextID m = 2.
Proof.
  eexists. split; [reflexivity|].
  destruct (New_spec (mkConfig 2 (mkCodec 100) 0 None 0 0 0) _ ltac:(by unfold config_typed, is_u) eq_refl)
    as (H1 & _ & _ & H2 & _). split; [|exact H2]. etransitivity; [apply H1|]. apply Z.le_min_l.
Defined.

(** C3: the session invariant: in every state a multiplexer can reach from
    [New], for any peer input and any interleaving of application calls, every
    stream object respects its flow-control bounds, the table maps IDs to live
    objects carrying that ID, the incoming queue never exceeds its backlog,
    allocation keeps the parity of the role, and a session that has shut down
    holds no streams and records its error. *)
Theorem mux_invariant (cfg : Config) (m0 m : Mux) :
  config_typed cfg -> New false cfg = Ok m0 -> rtc mux_step m0 m ->
  mux_wf m.
Proof. intros Hc H0 Hr. eapply mux_steps_wf; [done|]. by eapply New_wf. Qed.

Lemma mux_invariant_witness :
  exists m0, New false (mkConfig 1 (mkCodec 0) 4 None 0 0 0) = Ok m0 /\
    mux_wf (snd (Open_begin false ServiceTCP [1; 2] m0)).
Proof.
  eexists. split; [reflexivity|].
  apply (mux_invariant (mkConfig 1 (mkCodec 0) 4 None 0 0 0) _ _ ltac:(by unfold config_typed, is_u) eq_refl).
  apply rtc_once. constructor.
Defined.

End Mux.
