(* ===== verification/MuxSession.v ===== *)
(** * Session-level guarantees of the multiplexer

    Independence of logical streams, well-formedness of every reply the read
    loop produces, ID allocation, shutdown, and the behaviour of [Write]. *)

From S2P Require Import Prelude MuxFrame MuxStream Mux.

Module MuxSession.
Import MuxFrame MuxStream Mux.

(** ** What a handler may touch *)

(** From [m] to [m'] only stream [sid] (its table entry and its object, if the
    table had one) and objects allocated meanwhile may differ; the session
    itself stays up, and the frames queued are [out]. *)
Record touches (sid : Z) (out : list Frame) (m m' : Mux) : Prop := {
  t_table : forall i, i <> sid -> streams m' !! i = streams m !! i;
  t_heap : forall loc, (loc < nextLoc m)%nat -> streams m !! sid <> Some loc ->
    heap m' !! loc = heap m !! loc;
  t_done : done m' = done m;
  t_merr : merr m' = merr m;
  t_next : nextID m' = nextID m;
  t_codec : codec m' = codec m;
  t_out : outgoing m' = outgoing m ++ out
}.

Lemma touches_refl sid m : touches sid [] m m.
Proof. constructor; try done. by rewrite app_nil_r. Qed.

Lemma touches_upd sid loc f m :
  streams m !! sid = Some loc -> touches sid [] m (upd_stream loc f m).
Proof.
  intros Hs. constructor; try done; cbn; [|by rewrite app_nil_r].
  intros l _ Hne. rewrite lookup_alter_ne; [done|]. congruence.
Qed.

Lemma touches_remove sid out m m' : touches sid out m m' -> touches sid out m (removeStream sid m').
Proof.
  intros []. constructor; try done; cbn. intros i Hi. rewrite lookup_delete_ne by done. auto.
Qed.

Lemma touches_upd_r sid out loc f m m' :
  touches sid out m m' -> streams m !! sid = Some loc \/ (nextLoc m <= loc)%nat ->
  touches sid out m (upd_stream loc f m').
Proof.
  intros [] Hloc. constructor; try done; cbn. intros l Hl Hne.
  rewrite lookup_alter_ne by (destruct Hloc; [congruence|lia]). auto.
Qed.

Lemma touches_send sid out pick f m m' r m'' :
  touches sid out m m' -> sendAsync pick f m' = (r, m'') ->
  exists out', touches sid (out ++ out') m m'' /\
    ((r = Ok tt /\ out' = [f]) \/ (r <> Ok tt /\ out' = [])).
Proof.
  intros [] Hs. unfold sendAsync in Hs. case_match; injection Hs as <- <-.
  - exists []. rewrite app_nil_r. split; [by constructor|]. by right.
  - exists [f]. split; [|by left]. constructor; try done; cbn. by rewrite t_out0, app_assoc.
Qed.

Lemma touches_reset pick sid loc s e m :
  streams m !! sid = Some loc -> heap m !! loc = Some s -> s_id s = sid ->
  exists out, touches sid out m (resetStream pick loc e m) /\
    Forall (fun g => g = mkFrame FrameReset 0 sid (service s) []) out.
Proof.
  intros Ht Hh Hid. unfold resetStream. rewrite Hh, Hid.
  set (m1 := upd_stream _ _ m). assert (touches sid [] m m1) as H1 by (by apply touches_upd).
  destruct (sendAsync pick _ m1) as [r m2] eqn:E.
  destruct (touches_send _ _ _ _ _ _ _ _ H1 E) as (out & H2 & Ho). exists out. cbn [snd].
  split; [by apply touches_remove|]. destruct Ho as [[_ ->]|[_ ->]]; repeat constructor.
Qed.

(** Frames that name a stream, as opposed to the session's ping and pong. *)
Definition stream_frame (f : Frame) : Prop := Type_ f <> FramePing /\ Type_ f <> FramePong.

(** The replies the read loop may queue when it handles frame [f]. *)
Definition reply_to (f g : Frame) : Prop :=
  (stream_frame f /\ Flags g = 0 /\ StreamID g = StreamID f /\
   ((Type_ g = FrameReset /\ Payload g = []) \/ (Type_ g = FrameAccept /\ Payload g = []) \/
    (Type_ g = FrameWindow /\ len (Payload g) = 4)) /\
   (Type_ f = FrameOpen \/ Type_ g = FrameReset)) \/
  (Type_ f = FramePing /\ g = mkFrame FramePong 0 0 0 (Payload f)).

Lemma reply_reset f svc : stream_frame f -> reply_to f (mkFrame FrameReset 0 (StreamID f) svc []).
Proof. intros. left. cbn. split_and!; auto. Qed.

Lemma replies_reset f svc out : stream_frame f ->
  Forall (fun g => g = mkFrame FrameReset 0 (StreamID f) svc []) out -> Forall (reply_to f) out.
Proof. intros Hf H. eapply Forall_impl; [exact H|]. intros g ->. by apply reply_reset. Qed.

Lemma touches_add sid svc meta acc m :
  touches sid [] m (snd (add_stream sid svc meta acc m)) /\
  heap (snd (add_stream sid svc meta acc m)) !! nextLoc m = Some (newStream (limits m) sid svc meta acc).
Proof.
  split; [|apply lookup_insert_eq]. constructor; try done; cbn; [..|by rewrite app_nil_r].
  - intros i Hi. by rewrite lookup_insert_ne.
  - intros l Hl _. rewrite lookup_insert_ne by lia. done.
Qed.

Lemma touches_initial_window sid out pick loc s m m' r m'' :
  touches sid out m m' -> heap m' !! loc = Some s -> s_id s = sid -> (nextLoc m <= loc)%nat ->
  sendInitialWindow pick loc true m' = (r, m'') ->
  exists out', touches sid (out ++ out') m m'' /\
    Forall (fun g => Type_ g = FrameWindow /\ StreamID g = sid /\ Flags g = 0 /\ len (Payload g) = 4) out'.
Proof.
  intros Ht Hh Hid Hl. unfold sendInitialWindow. rewrite Hh.
  destruct (initializeReceiveWindow s) as [r0 s'].
  assert (touches sid out m (upd_stream loc (fun _ => s') m')) as H1 by (apply touches_upd_r; auto).
  destruct r0 as [credit|e]; cbn [result_bind].
  2:{ intros [= <- <-]. exists []. by rewrite app_nil_r. }
  unfold encodeWindowCredit. destruct (credit =? 0).
  { intros [= <- <-]. exists []. by rewrite app_nil_r. }
  intros Hs. destruct (touches_send _ _ _ _ _ _ _ _ H1 Hs) as (out' & H2 & Ho). exists out'.
  split; [done|]. destruct Ho as [[_ ->]|[_ ->]]; repeat constructor; done.
Qed.

Lemma handleOpen_touches pick f m m' :
  Type_ f = FrameOpen -> mux_wf m -> handleOpen pick f m = (Ok tt, m') ->
  exists out, touches (StreamID f) out m m' /\ Forall (reply_to f) out.
Proof.
  intros Hty Hm. assert (stream_frame f) as Hnp by (unfold stream_frame; rewrite Hty; done).
  assert (forall out, Forall (fun g => g = mkFrame FrameReset 0 (StreamID f) (Service f) []) out ->
    Forall (reply_to f) out) as Hreset by (intros; by eapply replies_reset).
  unfold handleOpen. case_match.
  { intros Hs. destruct (touches_send _ _ _ _ _ _ _ _ (touches_refl (StreamID f) m) Hs)
      as (out & Ht & Ho). exists out. split; [done|]. apply Hreset.
    destruct Ho as [[_ ->]|[_ ->]]; repeat constructor. }
  case_match; [done|]. destruct (merr m); [done|]. case_match; [done|].
  destruct (touches_add (StreamID f) (Service f) (Payload f) true m) as [T1 Hn].
  destruct (add_stream _ _ _ _ m) as [loc m1] eqn:E1. cbn [snd] in T1, Hn.
  assert (loc = nextLoc m) as -> by (by injection E1).
  case_match.
  { intros Hs. eapply touches_send in Hs as (out & Ht & Ho);
      [|apply touches_remove, touches_upd_r; [exact T1|right; lia]].
    exists out. split; [done|]. apply Hreset. destruct Ho as [[_ ->]|[_ ->]]; repeat constructor. }
  destruct (sendAsync pick _ m1) as [r2 m2] eqn:E2.
  assert (Hh2 := proj1 (proj2 (proj2 (sendAsync_frame _ _ _ _ _ E2)))).
  destruct (touches_send _ _ _ _ _ _ _ _ T1 E2) as (out2 & T2 & Ho2). destruct r2; [|done].
  destruct (sendInitialWindow pick (nextLoc m) true m2) as [r3 m3] eqn:E3.
  eapply touches_initial_window in E3 as (out3 & T3 & Ho3); [|exact T2|by rewrite Hh2|done|lia].
  destruct r3; [|done]. case_match; [done|]. intros [= <-].
  exists (([] ++ out2) ++ out3). split.
  - assert (touches (StreamID f) (([] ++ out2) ++ out3) m (upd_stream (nextLoc m) markAccepted m3)) as []
      by (apply touches_upd_r; [done|right; lia]). by constructor.
  - apply Forall_app. split.
    + destruct Ho2 as [[_ ->]|[Hbad _]]; [|by destruct Hbad; destruct a].
      cbn. apply Forall_singleton. left. cbn. split_and!; auto.
    + eapply Forall_impl; [exact Ho3|]. intros g (Ht & Hid & Hfl & Hl). left. split_and!; auto.
Qed.

Lemma handleAccept_touches f m m' :
  handleAccept f m = (Ok tt, m') -> touches (StreamID f) [] m m'.
Proof.
  unfold handleAccept. destruct (lookupStream _ m) as [[loc s]|] eqn:El; [|done].
  apply lookupStream_some in El as [Ht Hs]. case_match; [done|]. intros [= <-]. by apply touches_upd.
Qed.

(** A handler that resets the stream it was looking at. *)
Lemma reset_case pick f m loc s s' e :
  mux_wf m -> stream_frame f ->
  streams m !! StreamID f = Some loc -> heap m !! loc = Some s -> same_identity s s' ->
  exists out, touches (StreamID f) out m (resetStream pick loc e (upd_stream loc (fun _ => s') m)) /\
    Forall (reply_to f) out.
Proof.
  intros Hm Hnp Ht Hs (Hid & Hsvc & _). destruct (wf_table m Hm _ _ Ht) as (x & Hx & Hxid). simplify_eq.
  set (m1 := upd_stream loc (fun _ => s') m).
  destruct (touches_reset pick (s_id s) loc s' e m1) as (out & H1 & Ho);
    [by cbn; rewrite Hxid|by cbn; rewrite lookup_alter_eq, Hs|done|].
  exists out. split; [|rewrite Hxid in Ho; by eapply replies_reset].
  rewrite <- Hxid in Ht. pose proof (touches_upd (s_id s) loc (fun _ => s') m Ht) as H0.
  destruct H0, H1. rewrite <- Hxid. constructor; cbn in *; try congruence.
  - intros i Hi. rewrite t_table1 by done. auto.
  - intros l Hl Hne. rewrite t_heap1 by done. auto.
Qed.

Lemma upd_stream_id loc s m : heap m !! loc = Some s -> upd_stream loc (fun _ => s) m = m.
Proof.
  intros Hs. destruct m as [c r l h nl st ni me al i ic o d w ce]. unfold upd_stream, update, upd_heap. cbn in *.
  f_equal. by apply alter_id; intros x; rewrite Hs; intros [= <-].
Qed.

Lemma reset_case_same pick f m loc s e :
  mux_wf m -> stream_frame f ->
  streams m !! StreamID f = Some loc -> heap m !! loc = Some s ->
  exists out, touches (StreamID f) out m (resetStream pick loc e m) /\ Forall (reply_to f) out.
Proof.
  intros Hm Hnp Ht Hs. pose proof (reset_case pick f m loc s s e Hm Hnp Ht Hs) as H.
  rewrite upd_stream_id in H by done. by apply H.
Qed.

Lemma handleWindow_touches pick f m m' :
  Type_ f = FrameWindow -> bytes_ok (Payload f) -> mux_wf m -> handleWindow pick f m = (Ok tt, m') ->
  exists out, touches (StreamID f) out m m' /\ Forall (reply_to f) out.
Proof.
  intros Hty Hp Hm. assert (stream_frame f) as Hnp by (unfold stream_frame; rewrite Hty; done).
  unfold handleWindow. destruct (lookupStream _ m) as [[loc s]|] eqn:El.
  2:{ intros [= <-]. exists []. split; [apply touches_refl|done]. }
  apply lookupStream_some in El as [Ht Hs].
  case_match; [intros [= <-]; by eapply reset_case_same|].
  destruct (decodeWindowCredit _) as [c|] eqn:Ec; [|intros [= <-]; by eapply reset_case_same].
  apply decodeWindowCredit_u32 in Ec as [Hc _]; [|done].
  pose proof (stream_step_identity _ _ (step_credit c s Hc)) as Hi.
  destruct (addSendCredit c s) as [[e|] s']; intros [= <-]; [by eapply reset_case|].
  exists []. split; [by apply touches_upd|done].
Qed.

Lemma handleData_touches pick f m m' :
  Type_ f = FrameData -> mux_wf m -> handleData pick f m = (Ok tt, m') ->
  exists out, touches (StreamID f) out m m' /\ Forall (reply_to f) out.
Proof.
  intros Hty Hm. assert (stream_frame f) as Hnp by (unfold stream_frame; rewrite Hty; done).
  unfold handleData. destruct (lookupStream _ m) as [[loc s]|] eqn:El.
  2:{ intros [= <-]. destruct (sendAsync pick _ m) as [r m2] eqn:E.
      eapply touches_send in E as (out & H1 & Ho); [|apply touches_refl]. exists out.
      split; [done|]. eapply replies_reset; [done|].
      destruct Ho as [[_ ->]|[_ ->]]; repeat constructor. }
  apply lookupStream_some in El as [Ht Hs].
  case_match; [intros [= <-]; by eapply reset_case_same|].
  pose proof (stream_step_identity _ _ (step_deliver (Payload f) s)) as Hi.
  destruct (deliver (Payload f) s) as [[e|] s']; intros [= <-]; [by eapply reset_case|].
  exists []. split; [by apply touches_upd|done].
Qed.

Lemma handleClose_touches pick f m m' :
  Type_ f = FrameClose -> mux_wf m -> handleClose pick f m = (Ok tt, m') ->
  exists out, touches (StreamID f) out m m' /\ Forall (reply_to f) out.
Proof.
  intros Hty Hm. assert (stream_frame f) as Hnp by (unfold stream_frame; rewrite Hty; done).
  unfold handleClose. destruct (lookupStream _ m) as [[loc s]|] eqn:El.
  2:{ intros [= <-]. exists []. split; [apply touches_refl|done]. }
  apply lookupStream_some in El as [Ht Hs].
  case_match; [intros [= <-]; by eapply reset_case_same|]. intros [= <-].
  exists []. split; [|done]. unfold maybeRemove. case_match; [|by apply touches_upd].
  destruct (wf_table m Hm _ _ Ht) as (x & Hx & Hxid). simplify_eq.
  pose proof (stream_step_identity _ _ (step_remoteClose None s)) as (Hid & _).
  rewrite Hid, Hxid. by apply touches_remove, touches_upd.
Qed.

Lemma handleReset_touches f m m' :
  handleReset f m = (Ok tt, m') -> touches (StreamID f) [] m m'.
Proof.
  unfold handleReset. destruct (lookupStream _ m) as [[loc s]|] eqn:El.
  2:{ intros [= <-]. apply touches_refl. }
  apply lookupStream_some in El as [Ht Hs]. intros [= <-]. by apply touches_remove, touches_upd.
Qed.

Lemma handleFrame_touches pick f m m' :
  bytes_ok (Payload f) -> mux_wf m -> handleFrame pick f m = (Ok tt, m') ->
  exists out, touches (StreamID f) out m m' /\ Forall (reply_to f) out.
Proof.
  intros Hp Hm. unfold handleFrame.
  case_match; go_bool; [by apply handleOpen_touches|].
  case_match; go_bool; [intros ?%handleAccept_touches; by exists []|].
  case_match; go_bool; [by apply handleWindow_touches|].
  case_match; go_bool; [by apply handleData_touches|].
  case_match; go_bool; [by apply handleClose_touches|].
  case_match; go_bool; [intros ?%handleReset_touches; by exists []|].
  case_match; go_bool.
  - intros E. eapply touches_send in E as (out & H7 & Ho); [|apply touches_refl]. exists out.
    split; [done|]. destruct Ho as [[_ ->]|[_ ->]]; cbn; [|constructor].
    apply Forall_singleton. by right.
  - case_match; [|done]. intros [= <-]. exists []. split; [apply touches_refl|done].
Qed.

(** ** Theorems *)

(** The frames that end the session: an OPEN of a stream the peer may not
    open, or of one that is open, an ACCEPT of a stream that is not there or
    belongs to another service, and a frame of no known type. *)
Inductive breach (m : Mux) (f : Frame) : mux_error -> Prop :=
| br_open_id : Type_ f = FrameOpen -> service_valid (Service f) = true -> allowed m !! Service f = Some true ->
    peerOwns m (StreamID f) = false -> breach m f (EInvalidStreamID (StreamID f))
| br_open_twice : Type_ f = FrameOpen -> service_valid (Service f) = true -> allowed m !! Service f = Some true ->
    peerOwns m (StreamID f) = true -> is_Some (streams m !! StreamID f) -> breach m f (EDuplicateOpen (StreamID f))
| br_accept_unknown : Type_ f = FrameAccept -> lookupStream (StreamID f) m = None -> breach m f (EAcceptUnknown (StreamID f))
| br_accept_service loc s : Type_ f = FrameAccept -> lookupStream (StreamID f) m = Some (loc, s) -> service s <> Service f ->
    breach m f (EAcceptMismatch (StreamID f))
| br_type : frame_type_valid (Type_ f) = false -> breach m f (EInvalidType (Type_ f)).

Lemma breach_unique m f e e' : breach m f e -> breach m f e' -> e = e'.
Proof.
  intros [] []; try done; try congruence; unfold FrameOpen, FrameAccept in *;
    solve [lia | match goal with H : Type_ f = _, H' : frame_type_valid _ = false |- _ => by rewrite H in H' end].
Qed.

Lemma sendAsync_up pick f m : done m = false -> sendAsync pick f m = (Ok tt, m <| outgoing := outgoing m ++ [f] |>).
Proof. intros Hd. unfold sendAsync. by rewrite Hd. Qed.

(** While the session is up a new stream always gets its initial window. *)
Lemma sendInitialWindow_up pick loc l sid svc meta m : limits_ok l -> done m = false -> heap m !! loc = Some (newStream l sid svc meta true) ->
  exists m', sendInitialWindow pick loc true m = (Ok tt, m') /\ done m' = false.
Proof.
  intros Hl Hd Hs. unfold sendInitialWindow. rewrite Hs. unfold initializeReceiveWindow. cbn [newStream windowAdvertised result_bind].
  unfold encodeWindowCredit, limits_ok in *. rewrite maxInitialWindow_val in Hl. cbn [s_initialWindow newStream].
  rewrite u32_small by (unfold is_u; lia). rewrite (proj2 (Z.eqb_neq _ _)) by lia. rewrite sendAsync_up by done. by eexists.
Qed.

Lemma handleOpen_breach pick f m : mux_wf m -> done m = false -> Type_ f = FrameOpen ->
  match handleOpen pick f m with (Ok _, _) => forall e, ~ breach m f e | (Err e, m') => breach m f e /\ m' = m end.
Proof.
  intros Hm Hd Ht. pose proof (wf_done m Hm) as Herr. rewrite Hd in Herr.
  assert (forall e, breach m f e -> service_valid (Service f) = true /\ allowed m !! Service f = Some true /\
    (peerOwns m (StreamID f) = false \/ (peerOwns m (StreamID f) = true /\ is_Some (streams m !! StreamID f)))) as Hb.
  { intros e He. destruct He as [| |Hx|? ? Hx|Hx]; rewrite Ht in *; try discriminate; split_and!; auto. }
  unfold handleOpen. destruct (service_valid (Service f)) eqn:Ev; cbn [negb orb].
  2:{ rewrite sendAsync_up by done. intros e He. destruct (Hb e He) as [? _]. done. }
  destruct (bool_decide_reflect (allowed m !! Service f = Some true)) as [Ea|Ea]; cbn [negb].
  2:{ rewrite sendAsync_up by done. intros e He. destruct (Hb e He) as (_ & ? & _). done. }
  destruct (peerOwns m (StreamID f)) eqn:Eo; cbn [negb]; [|split; [by apply br_open_id|done]]. rewrite Herr.
  destruct (bool_decide_reflect (is_Some (streams m !! StreamID f))) as [Es|Es]; [split; [by apply br_open_twice|done]|].
  assert (forall e, ~ breach m f e) as Hno by (intros e He; destruct (Hb e He) as (_ & _ & [?|[_ ?]]); done).
  destruct (add_stream (StreamID f) (Service f) (Payload f) true m) as [loc m1] eqn:E1.
  assert (loc = nextLoc m /\ done m1 = false /\ heap m1 !! loc = Some (newStream (limits m) (StreamID f) (Service f) (Payload f) true)) as (El & Hd1 & Hh1).
  { unfold add_stream in E1. injection E1 as <- <-. split_and!; [done|done|apply lookup_insert_eq]. }
  destruct (incomingCap m1 <=? len (incoming m1)); [rewrite sendAsync_up by done; exact Hno|]. rewrite sendAsync_up by done.
  destruct (sendInitialWindow_up pick loc (limits m) (StreamID f) (Service f) (Payload f) (m1 <| outgoing := outgoing m1 ++ [mkFrame FrameAccept 0 (StreamID f) (Service f) []] |>)) as (m3 & -> & Hd3);
    [apply (wf_limits m Hm)|done|done|]. cbn [done upd_stream update upd_heap]. rewrite Hd3. exact Hno.
Qed.

Lemma handled_ok (x : result mux_error unit * Mux) : fst x = Ok tt -> x = (Ok tt, snd x).
Proof. destruct x as [r m]; cbn. by intros ->. Qed.

(** Only a breach of protocol is an error, and it is found before anything is changed. *)
Lemma handleFrame_breach pick f m : mux_wf m -> done m = false ->
  match handleFrame pick f m with (Ok _, _) => forall e, ~ breach m f e | (Err e, m') => breach m f e /\ m' = m end.
Proof.
  intros Hm Hd. unfold handleFrame.
  destruct (Z.eqb_spec (Type_ f) FrameOpen) as [|Ho]; [by apply handleOpen_breach|].
  destruct (Z.eqb_spec (Type_ f) FrameAccept) as [Ha|Ha].
  { unfold handleAccept. destruct (lookupStream (StreamID f) m) as [[loc s]|] eqn:El; [|split; [by apply br_accept_unknown|done]].
    destruct (Z.eqb_spec (service s) (Service f)) as [Es|Es]; cbn [negb]; [|split; [by eapply br_accept_service|done]].
    intros e He. inversion He as [| |? El'|? ? ? El' ?|Hv]; try congruence. by rewrite Ha in Hv. }
  assert (frame_type_valid (Type_ f) = true -> forall e, ~ breach m f e) as Hno by (intros Hv e He; inversion He; congruence).
  destruct (Z.eqb_spec (Type_ f) FrameWindow) as [E|Hw]; [rewrite (handled_ok (handleWindow pick f m)) by (unfold handleWindow; repeat case_match; simplify_eq/=; done); rewrite E in Hno; by apply Hno|].
  destruct (Z.eqb_spec (Type_ f) FrameData) as [E|Hdt]; [rewrite (handled_ok (handleData pick f m)) by (unfold handleData; repeat case_match; simplify_eq/=; done); rewrite E in Hno; by apply Hno|].
  destruct (Z.eqb_spec (Type_ f) FrameClose) as [E|Hc]; [rewrite (handled_ok (handleClose pick f m)) by (unfold handleClose; repeat case_match; simplify_eq/=; done); rewrite E in Hno; by apply Hno|].
  destruct (Z.eqb_spec (Type_ f) FrameReset) as [E|Hr]; [rewrite (handled_ok (handleReset f m)) by (unfold handleReset; repeat case_match; simplify_eq/=; done); rewrite E in Hno; by apply Hno|].
  destruct (Z.eqb_spec (Type_ f) FramePing) as [E|Hpi]; [rewrite sendAsync_up by done; rewrite E in Hno; by apply Hno|].
  destruct (Z.eqb_spec (Type_ f) FramePong) as [E|Hpo]; [rewrite E in Hno; by apply Hno|]. split; [|done]. apply br_type.
  unfold frame_type_valid. destruct (Z.leb_spec FrameOpen (Type_ f)), (Z.leb_spec (Type_ f) FramePong); try done.
  unfold FrameOpen, FrameAccept, FrameWindow, FrameData, FrameClose, FrameReset, FramePing, FramePong in *. lia.
Qed.

(** C4: independence of logical streams: whatever frame the peer sends to a
    session that is up, the handler leaves the table entries and the objects of
    all streams but the one the frame names as they are, and keeps the session
    up. It reports an error, on which the read loop ends the session, exactly for
    a breach of protocol by an OPEN, an ACCEPT or a frame of unknown type: no
    DATA, WINDOW, CLOSE, RESET, PING or PONG of a stream, however wrong, reaches
    the others. *)
Theorem stream_isolation (pick : bool) (f : Frame) (m : Mux) (sid : Z) (loc : nat) (r := fst (handleFrame pick f m)) (m' := snd (handleFrame pick f m)) :
  mux_wf m -> done m = false -> bytes_ok (Payload f) -> sid <> StreamID f -> streams m !! sid = Some loc ->
  (streams m' !! sid = Some loc /\ heap m' !! loc = heap m !! loc /\ done m' = false /\ merr m' = None) /\
  (forall e, r = Err e <-> breach m f e) /\
  (forall inp rest, ReadFrame (codec m) inp = Ok (f, rest) -> fst (read_step pick inp m) = Some rest \/ exists e, breach m f e).
Proof.
  intros Hm Hd Hp Hne Hs. pose proof (handleFrame_breach pick f m Hm Hd) as Hb. pose proof (wf_done m Hm) as Herr. rewrite Hd in Herr.
  subst r m'. split; [|split].
  - destruct (handleFrame pick f m) as [[[]|e] m'] eqn:Ef; cbn [snd]; [|by destruct Hb as [_ ->]].
    destruct (handleFrame_touches _ _ _ _ Hp Hm Ef) as (out & [] & _).
    split_and!; [by rewrite t_table0| |congruence|congruence].
    destruct (wf_table m Hm _ _ Hs) as (s & Hloc & Hid). apply t_heap0.
    + by apply (wf_heap m Hm) in Hloc as [? _].
    + intros Hs'. destruct (wf_table m Hm _ _ Hs') as (s' & Hloc' & Hid'). congruence.
  - intros e. destruct (handleFrame pick f m) as [[[]|e'] m']; cbn [fst]; [split; [done|by intros ?%Hb]|].
    destruct Hb as [Hb _]. split; [by intros [= <-]|]. intros He. f_equal. by apply (breach_unique m f).
  - intros inp rest Hr. unfold read_step. rewrite Hr. destruct (handleFrame pick f m) as [[[]|e] m']; [by left|]. right. exists e. by destruct Hb.
Qed.

(** A responder session with a stream 1 open, used by the witnesses. *)
Definition demo_mux : Mux :=
  match New false (mkConfig 2 (mkCodec 0) 4 None 16 8 0) with
  | Ok m => snd (handleFrame false (mkFrame FrameOpen 0 1 ServiceTCP []) m)
  | Err _ => mkMux (mkCodec 0) 0 (mkLimits 0 0 0) ∅ 0 ∅ 0 None ∅ [] 0 [] false [] None
  end.

Lemma demo_mux_wf : mux_wf demo_mux.
Proof.
  unfold demo_mux. destruct (New false _) as [m|] eqn:E; [|discriminate].
  apply handleFrame_wf; [constructor|]. eapply New_wf; [|exact E]. by unfold config_typed, is_u.
Qed.

Lemma stream_isolation_witness :
  streams (snd (handleFrame false (mkFrame FrameOpen 0 3 ServiceFS []) demo_mux)) !! 1 = Some 0%nat.
Proof.
  refine (proj1 (proj1 (stream_isolation false (mkFrame FrameOpen 0 3 ServiceFS []) demo_mux 1 0
    demo_mux_wf _ _ _ _))).
  - vm_compute. reflexivity.
  - constructor.
  - done.
  - vm_compute. reflexivity.
Defined.

(** The read loop never queues a frame the writer would refuse: every reply
    to a frame the codec decoded is accepted by the same codec, so no peer input
    can make the writer shut the session down over its own reply; and replies
    concern only the stream (or ping) that caused them. *)
Theorem replies_encodable (pick : bool) (inp rest : bytes) (f : Frame) (m m' : Mux) :
  mux_wf m -> is_u 32 (MaxPayload (codec m)) -> 4 <= maxPayload (codec m) -> bytes_ok inp ->
  ReadFrame (codec m) inp = Ok (f, rest) ->
  handleFrame pick f m = (Ok tt, m') ->
  exists out, outgoing m' = outgoing m ++ out /\
    Forall (fun g => encode_frame (codec m) g = Ok (encode_header g ++ Payload g) /\
                     (StreamID g = StreamID f \/ Type_ g = FramePong)) out.
Proof.
  intros Hm Hc H4 Hb Hr Hf.
  apply ReadFrame_inv in Hr as (r & _ & _ & (_ & _ & _ & _ & Hp) & Hty & Hlen & Hpl & Hz); [|done].
  destruct (handleFrame_touches _ _ _ _ Hp Hm Hf) as (out & [] & Ho).
  exists out. split; [done|]. eapply Forall_impl; [exact Ho|]. clear Ho t_out0. intros g Hg.
  apply maxPayload_u32 in Hc. unfold encode_frame.
  assert (check_frame (codec m) g = Ok tt) as ->; [|split; [done|]; destruct Hg as [Hg|[_ ->]]; naive_solver].
  apply check_frame_ok. destruct Hg as [([Hn1 Hn2] & _ & Hid & Hk & _)|[Hping ->]].
  - assert ((StreamID g =? 0) = false) as ->.
    { apply Z.eqb_neq. rewrite Hid. intros E0. rewrite E0 in Hz.
      by rewrite (proj2 (Z.eqb_neq _ _) Hn1), (proj2 (Z.eqb_neq _ _) Hn2) in Hz. }
    destruct Hk as [[-> ->]|[[-> ->]|[-> Hp4]]]; cbn; try rewrite Hp4; len_nil_simpl;
      split_and!; try done; lia.
  - cbn. split_and!; done.
Qed.

Lemma replies_encodable_witness :
  let f := mkFrame FrameData 0 9 ServiceTCP [1] in
  exists out, outgoing (snd (handleFrame false f demo_mux)) = outgoing demo_mux ++ out /\
    Forall (fun g => encode_frame (codec demo_mux) g = Ok (encode_header g ++ Payload g) /\
                     (StreamID g = StreamID f \/ Type_ g = FramePong)) out.
Proof.
  intros f. apply (replies_encodable false (encode_header f ++ [1]) [] f demo_mux _ demo_mux_wf).
  - by unfold is_u.
  - closed_arith.
  - apply Forall_app; split; [|by repeat constructor]. vm_compute. repeat constructor; done.
  - reflexivity.
  - reflexivity.
Defined.

(** Stream IDs never collide: an ID this side allocates is never one the
    peer may open, and allocation advances by two modulo 2^32 keeping the
    parity; the only allocation that is not a legal ID is 0, which a responder
    reaches after exhausting the even IDs. *)
Theorem local_ids_disjoint (m m' : Mux) (svc : Z) (loc : nat) :
  mux_wf m -> newLocalStream svc m = (Ok loc, m') ->
  peerOwns m (nextID m) = false /\ streams m' !! nextID m = Some loc /\
  nextID m' = (nextID m + 2) mod 2 ^ 32 /\ nextID m' mod 2 = nextID m mod 2 /\
  (nextID m = 0 -> role m = RoleResponder).
Proof.
  intros Hm Hl. pose proof (newLocalStream_wf svc m Hm) as Hm'. rewrite Hl in Hm'. cbn [snd] in Hm'.
  destruct (wf_next m Hm) as [Hn Hp], (wf_next m' Hm') as [Hn' Hp'].
  unfold newLocalStream in Hl. destruct (merr m); [done|]. cbn in Hl. injection Hl as <- <-.
  unfold own_parity in *. cbn in Hp' |- *. split_and!.
  - unfold peerOwns. destruct (nextID m =? 0); [done|].
    destruct (role m =? RoleInitiator); by rewrite Hp.
  - apply lookup_insert_eq.
  - done.
  - by rewrite Hp, Hp'.
  - intros E. rewrite E in Hp. destruct (wf_role m Hm) as [Er|]; [|done].
    rewrite Er in Hp. done.
Qed.

Lemma local_ids_disjoint_witness :
  peerOwns demo_mux (nextID demo_mux) = false.
Proof.
  refine (proj1 (local_ids_disjoint demo_mux _ ServiceFS _ demo_mux_wf _)).
  vm_compute. reflexivity.
Defined.

(** ** Shutdown *)

Lemma fail_streams_lookup e locs h l s :
  fail_streams e locs h !! l = Some s ->
  exists s0, h !! l = Some s0 /\
    (l ∈ locs -> remoteClosed s = true /\ is_Some (terminalErr s) /\ acceptOne s = true).
Proof.
  revert s. induction locs as [|k locs IH]; intros s.
  - intros H. exists s. split; [done|]. intros Hin. inversion Hin.
  - unfold fail_streams. cbn [foldr]. fold (fail_streams e locs h).
    rewrite lookup_alter. case_decide as E; subst.
    + destruct (fail_streams e locs h !! l) as [s1|]; cbn; [|done]. intros [= <-].
      destruct (IH _ eq_refl) as (s0 & Hs0 & _). exists s0. split; [done|]. intros _.
      unfold remoteClose, signalAccepted. repeat case_match; go_bool; cbn in *; split_and!; eauto.
    + intros Hs. destruct (IH _ Hs) as (s0 & Hs0 & Hin). exists s0. split; [done|].
      intros [->|]%elem_of_cons; [done|auto].
Qed.

Lemma fail_streams_dom e locs h l : is_Some (h !! l) -> is_Some (fail_streams e locs h !! l).
Proof.
  intros H. induction locs as [|k locs IH]; [done|]. cbn. rewrite lookup_alter.
  case_decide; subst; [|done]. by apply fmap_is_Some.
Qed.

(** Shutdown is final and complete: the first error wins, later shutdowns
    change nothing, no stream stays in the table, every stream that was in it is
    ended with an error and released from [Open]'s wait, the transport refuses
    further writes, and opening a stream fails with the recorded error. *)
Theorem shutdown_terminal (e : mux_error) (m : Mux) :
  mux_wf m -> done m = false ->
  let m' := shutdown (Some e) m in
  merr m' = Some e /\ streams m' = ∅ /\ connErr m' <> None /\
  (forall e2, shutdown e2 m' = m') /\
  (forall svc, fst (newLocalStream svc m') = Err e) /\
  (forall sid loc, streams m !! sid = Some loc ->
     exists s, heap m' !! loc = Some s /\ remoteClosed s = true /\
       is_Some (terminalErr s) /\ acceptOne s = true).
Proof.
  intros Hm Hd m'. subst m'. unfold shutdown at 1 2 3. rewrite Hd. split_and!; try done.
  - intros e2. unfold shutdown. rewrite Hd. done.
  - intros svc. unfold shutdown. rewrite Hd. done.
  - intros sid loc Hs. unfold shutdown. rewrite Hd. cbn.
    destruct (wf_table m Hm _ _ Hs) as (s & Hloc & _).
    destruct (fail_streams_dom e ((map_to_list (streams m)).*2) (heap m) loc) as [s' Hs']; [eauto|].
    exists s'. split; [done|]. apply fail_streams_lookup in Hs' as (_ & _ & Hin). apply Hin.
    apply list_elem_of_fmap. exists (sid, loc). split; [done|]. by apply elem_of_map_to_list.
Qed.

Lemma shutdown_terminal_witness :
  exists s, heap (shutdown (Some EEOF) demo_mux) !! 0%nat = Some s /\ remoteClosed s = true /\
    is_Some (terminalErr s) /\ acceptOne s = true.
Proof.
  refine (proj2 (proj2 (proj2 (proj2 (proj2
    (shutdown_terminal EEOF demo_mux demo_mux_wf _))))) 1 0%nat _); vm_compute; reflexivity.
Defined.

(** ** Write *)

Definition data_frame (s : Stream) (c : bytes) : Frame := mkFrame FrameData 0 (s_id s) (service s) c.

(** The bytes a sequence of DATA chunks puts on the wire. *)
Definition data_wire (s : Stream) (chunks : list bytes) : bytes :=
  concat ((fun c => encode_header (data_frame s c) ++ c) <$> chunks).

(** The session is up and the writer idle. *)
Definition idle (m : Mux) : Prop := done m = false /\ connErr m = None /\ outgoing m = [].

Lemma send_idle pick f bs m :
  idle m -> encode_frame (codec m) f = Ok bs ->
  exists m', send pick f m = (Ok tt, m') /\ idle m' /\ wire m' = wire m ++ bs /\
    heap m' = heap m /\ codec m' = codec m.
Proof.
  intros (Hd & Hc & Ho) He. unfold send, sendAsync. rewrite Hd. cbn [andb].
  cbn. rewrite Hd, Ho. cbn. unfold writer_step. cbn. rewrite He, Hc.
  eexists. split; [reflexivity|]. by split_and!.
Qed.

Lemma data_frame_encodes c s p :
  is_u 32 (MaxPayload c) -> s_id s <> 0 -> len p <= maxPayload c ->
  encode_frame c (data_frame s p) = Ok (encode_header (data_frame s p) ++ p).
Proof.
  intros Hc Hid Hl. unfold encode_frame.
  rewrite (proj2 (check_frame_ok c (data_frame s p))); [done|]. cbn.
  rewrite (proj2 (Z.eqb_neq _ _)) by done. by split_and!.
Qed.

Lemma write_locked_chunk r s :
  stream_wf s -> isOpen s = true -> localClosed s = false -> terminalErr s = None -> 0 < r ->
  if 0 <? sendCredit s then
    exists chunk, 0 < chunk <= s_maxDataPayload s /\ chunk <= r /\ chunk <= sendCredit s /\
      write_locked r s = (WriteChunk (Z.to_nat chunk), s <| sendCredit := sendCredit s - chunk |>)
  else write_locked r s = (WriteBlocks, s).
Proof.
  intros (Hl & _ & Hs) Ho Hlc Ht Hr. unfold write_locked. rewrite Ho, Hlc, Ht. cbn [negb].
  destruct (Z.ltb_spec 0 (sendCredit s)) as [Hpos|]; [|done].
  unfold limits_ok in Hl; cbn in Hl. unfold send_wf in Hs. rewrite maxInitialWindow_val in *. cbv zeta.
  set (c1 := if s_maxDataPayload s <? r then s_maxDataPayload s else r).
  set (c2 := if sendCredit s <? c1 then sendCredit s else c1).
  assert (0 < c1 <= s_maxDataPayload s /\ c1 <= r) as H1
    by (unfold c1; destruct (Z.ltb_spec (s_maxDataPayload s) r); lia).
  assert (0 < c2 <= c1 /\ c2 <= sendCredit s) as H2
    by (unfold c2; destruct (Z.ltb_spec (sendCredit s) c1); lia).
  exists c2. rewrite u64_sub_small by lia. split_and!; try lia. done.
Qed.

Lemma write_loop_spec fuel pick loc p total m s :
  (length p <= fuel)%nat -> idle m -> is_u 32 (MaxPayload (codec m)) ->
  heap m !! loc = Some s -> stream_wf s -> s_id s <> 0 ->
  s_maxDataPayload s <= maxPayload (codec m) ->
  isOpen s = true -> localClosed s = false -> terminalErr s = None ->
  exists n m' chunks,
    write_loop fuel pick loc p total m =
      Some ((total + n)%nat, if Nat.eqb n (length p) then WriteDone else WriteWaits, m') /\
    Z.of_nat n = Z.min (len p) (sendCredit s) /\
    heap m' !! loc = Some (s <| sendCredit := sendCredit s - Z.of_nat n |>) /\
    concat chunks = take n p /\ Forall (fun c => 0 < len c <= s_maxDataPayload s) chunks /\
    wire m' = wire m ++ data_wire s chunks.
Proof.
  revert p total m s. induction fuel as [|fuel IH]; intros p total m s Hf Hi Hc Hs Hw Hid Hmax Ho Hlc Ht.
  { destruct p; [|cbn in Hf; lia]. exists 0%nat, m, []. cbn. rewrite Nat.add_0_r, app_nil_r.
    assert (0 <= sendCredit s) by (destruct Hw as (_ & _ & Hw); unfold send_wf in Hw; lia).
    split_and!; try done; [len_nil_simpl; lia|]. rewrite Z.sub_0_r, Hs. by destruct s. }
  destruct p as [|b p].
  { exists 0%nat, m, []. cbn. rewrite Nat.add_0_r, app_nil_r.
    assert (0 <= sendCredit s) by (destruct Hw as (_ & _ & Hw); unfold send_wf in Hw; lia).
    split_and!; try done; [len_nil_simpl; lia|]. rewrite Z.sub_0_r, Hs. by destruct s. }
  remember (b :: p) as q eqn:Eq. assert (0 < len q) as Hq by (subst; rewrite len_cons; pose proof (len_nonneg p); lia).
  assert (write_loop (S fuel) pick loc q total m =
    match write_locked (len q) s with
    | (WriteFails e, s') => Some (total, WriteErr e, upd_stream loc (fun _ => s') m)
    | (WriteBlocks, s') => Some (total, WriteWaits, upd_stream loc (fun _ => s') m)
    | (WriteChunk chunk, s') =>
      match send pick (data_frame s (take chunk q)) (upd_stream loc (fun _ => s') m) with
      | (Err e, m2) => Some (total, WriteErr e, m2)
      | (Ok _, m2) => write_loop fuel pick loc (drop chunk q) (total + chunk) m2
      end
    end) as -> by (subst; cbn -[write_locked take drop]; rewrite Hs; reflexivity).
  pose proof (write_locked_chunk (len q) s Hw Ho Hlc Ht Hq) as Hstep.
  destruct (Z.ltb_spec 0 (sendCredit s)) as [Hpos|Hz].
  2:{ rewrite Hstep. assert (sendCredit s = 0) as E0
        by (destruct Hw as (_ & _ & Hw); unfold send_wf in Hw; lia).
      exists 0%nat, (upd_stream loc (fun _ => s) m), []. rewrite Nat.add_0_r. cbn [data_wire fmap list_fmap concat].
      rewrite app_nil_r, upd_stream_id by done.
      split_and!; try done; [by subst|lia|]. rewrite Z.sub_0_r, Hs. by destruct s. }
  destruct Hstep as (chunk & Hc1 & Hc2 & Hc3 & ->).
  set (s1 := s <| sendCredit := sendCredit s - chunk |>).
  set (m1 := upd_stream loc (fun _ => s1) m).
  assert (len (take (Z.to_nat chunk) q) = chunk) as Hlt by (rewrite len_take; lia).
  destruct (send_idle pick (data_frame s (take (Z.to_nat chunk) q))
    (encode_header (data_frame s (take (Z.to_nat chunk) q)) ++ take (Z.to_nat chunk) q) m1)
    as (m2 & -> & Hi2 & Hwire & Hheap & Hcodec); [done|apply data_frame_encodes; [done|done|rewrite Hlt; change (codec m1) with (codec m); lia]|].
  assert (heap m2 !! loc = Some s1) as Hs1 by (rewrite Hheap; cbn; by rewrite lookup_alter_eq, Hs).
  assert (stream_wf s1) as Hw1.
  { destruct Hw as (Hl & Hr & Hsnd). split_and!; try done.
    unfold send_wf in *; cbn. destruct Hsnd as (? & ? & ?). split_and!; [lia..|done]. }
  destruct (IH (drop (Z.to_nat chunk) q) (total + Z.to_nat chunk)%nat m2 s1)
    as (n & m' & chunks & Hrun & Hn & Hh & Hcat & Hall & Hwr);
    try done; try (by rewrite Hcodec).
  { rewrite length_drop. unfold len in *. lia. }
  exists (Z.to_nat chunk + n)%nat, m', (take (Z.to_nat chunk) q :: chunks). rewrite Hrun.
  rewrite len_drop in Hn. cbn in Hn, Hh. split_and!.
  - rewrite length_drop, Nat.add_assoc. unfold len in *.
    destruct (Nat.eqb_spec n (length q - Z.to_nat chunk)), (Nat.eqb_spec (Z.to_nat chunk + n) (length q));
      done || lia.
  - lia.
  - rewrite Hh. unfold s1, update, upd_sendCredit. cbn. f_equal. f_equal. lia.
  - cbn. rewrite Hcat. rewrite <- (take_drop (Z.to_nat chunk) q) at 3.
    rewrite take_app_add'; [done|]. unfold len in *. lia.
  - constructor; [lia|done].
  - rewrite Hwr, Hwire. unfold data_wire. cbn. by rewrite <- !app_assoc.
Qed.

(** What [Write] does on a live session: it terminates, and sends exactly
    the first min(len p, credit) bytes of the buffer, in order, as DATA frames
    of at most the negotiated payload, charging the credit for exactly those
    bytes; it reports completion iff everything was sent and otherwise waits
    with no credit left. *)
Theorem Write_spec (pick : bool) (loc : nat) (p : bytes) (m : Mux) (s : Stream) :
  mux_wf m -> idle m -> is_u 32 (MaxPayload (codec m)) ->
  maxDataPayload (limits m) <= maxPayload (codec m) ->
  heap m !! loc = Some s -> s_id s <> 0 ->
  isOpen s = true -> localClosed s = false -> terminalErr s = None ->
  exists n m' chunks,
    Stream_Write pick loc p m = Some (n, if Nat.eqb n (length p) then WriteDone else WriteWaits, m') /\
    Z.of_nat n = Z.min (len p) (sendCredit s) /\
    heap m' !! loc = Some (s <| sendCredit := sendCredit s - Z.of_nat n |>) /\
    concat chunks = take n p /\ Forall (fun c => 0 < len c <= maxDataPayload (limits m)) chunks /\
    wire m' = wire m ++ data_wire s chunks.
Proof.
  intros Hm Hi Hc Hmax Hs Hid Ho Hlc Ht. destruct (wf_heap m Hm _ _ Hs) as (_ & Hw & Hlim).
  assert (maxDataPayload (limits m) = s_maxDataPayload s) as E by (by rewrite <- Hlim).
  rewrite E in *. by apply write_loop_spec.
Qed.

Lemma Write_spec_witness :
  exists m' chunks,
    Stream_Write false 0 [1; 2; 3; 4; 5] (demo_mux <| outgoing := [] |>
       <| heap := alter (fun s => s <| peerWindowSet := true |> <| peerWindow := 3 |>
                                    <| sendCredit := 3 |>) 0%nat (heap demo_mux) |>)
    = Some (3%nat, WriteWaits, m') /\ concat chunks = [1; 2; 3].
Proof.
  set (m := (demo_mux <| outgoing := [] |> <| heap := _ |>)).
  assert (mux_wf m) as Hm.
  { pose proof demo_mux_wf as [Hl Hr Hn Hh Ht Hi Hd]. unfold m. constructor; try done.
    - intros loc s. cbn. rewrite lookup_alter. case_decide as E; subst; [|apply Hh].
      destruct (heap demo_mux !! 0%nat) as [s0|] eqn:E0; [|done]. cbn. intros [= <-].
      destruct (Hh _ _ E0) as (? & (? & ? & Hs) & ?). split_and!; try done.
    - intros sid loc Hsid. destruct (Ht _ _ Hsid) as (s & Hs & Hid). cbn. rewrite lookup_alter.
      case_decide as E; subst; [|eauto]. rewrite Hs. cbn. by eexists.
    - split; [|apply Hi]. eapply Forall_impl; [apply Hi|]. intros l [s Hs]. cbn.
      rewrite lookup_alter. case_decide; subst; rewrite Hs; cbn; eauto. }
  destruct (heap m !! 0%nat) as [s|] eqn:Es; [|vm_compute in Es; discriminate].
  assert (Es' := Es). vm_compute in Es'. injection Es' as Es'.
  destruct (Write_spec false 0 [1; 2; 3; 4; 5] m s Hm) as (n & m' & chunks & Hrun & Hn & _ & Hcat & _);
    try (subst s; done); try (by unfold idle); try (by unfold is_u); try closed_arith.
  assert (n = 3%nat) as -> by (subst s; unfold len in Hn; cbn in Hn; lia).
  exists m', chunks. split; [exact Hrun|exact Hcat].
Defined.

End MuxSession.
