(* ===== verification/MuxLink.v ===== *)
(** * Two multiplexers back to back: one direction of one stream

    A sending stream and a receiving stream joined by the two ordered
    sequences of frames the transport carries between them: DATA payloads one
    way, WINDOW credits the other. Every reachable state of the pair is
    considered, for any interleaving of [Write], [Read] and frame delivery. *)

From S2P Require Import Prelude MuxFrame MuxStream.

Module MuxLink.
Import MuxFrame MuxStream.

(** [data] and [win] are the frames in flight, oldest first; [sent] and [got]
    are the bytes the writer handed over and the reader received so far;
    [faults] collects every flow-control violation either side detects. *)
Record Link := mkLink {
  tx : Stream;
  rx : Stream;
  data : list bytes;
  win : list Z;
  sent : bytes;
  got : bytes;
  faults : list mux_error
}.

Definition add_fault (e : option mux_error) (fs : list mux_error) : list mux_error :=
  match e with Some e => fs ++ [e] | None => fs end.

Inductive link_step : Link -> Link -> Prop :=
(** The receiver advertises its window ([sendInitialWindow]). *)
| ls_advertise k c rx' :
    initializeReceiveWindow (rx k) = (Ok c, rx') ->
    link_step k (mkLink (tx k) rx' (data k) (win k ++ [c]) (sent k) (got k) (faults k))
(** One chunk of a [Write] of the non-empty buffer [p]. *)
| ls_write k p chunk tx' :
    p <> [] -> write_locked (len p) (tx k) = (WriteChunk chunk, tx') ->
    link_step k (mkLink tx' (rx k) (data k ++ [take chunk p]) (win k) (sent k ++ take chunk p)
                        (got k) (faults k))
(** The oldest DATA frame arrives ([handleFrame], FrameData). *)
| ls_data k p rest :
    data k = p :: rest ->
    link_step k (mkLink (tx k) (snd (deliver p (rx k))) rest (win k) (sent k) (got k)
                        (add_fault (fst (deliver p (rx k))) (faults k)))
(** A [Read] returns bytes and possibly grants credit. *)
| ls_read k n bs grant err rx' :
    (0 < n)%nat -> read_locked n (rx k) = (ReadGot bs grant err, rx') ->
    link_step k (mkLink (tx k) rx' (data k) (if 0 <? grant then win k ++ [grant] else win k)
                        (sent k) (got k ++ bs) (add_fault err (faults k)))
(** The oldest WINDOW frame arrives ([handleFrame], FrameWindow). *)
| ls_window k c rest :
    win k = c :: rest ->
    link_step k (mkLink (snd (addSendCredit c (tx k))) (rx k) (data k) rest (sent k) (got k)
                        (add_fault (fst (addSendCredit c (tx k))) (faults k))).

(** The two ends of a freshly accepted stream, both open. *)
Definition link_init (lt lr : Limits) (sid svc : Z) : Link :=
  mkLink (newStream lt sid svc [] true) (newStream lr sid svc [] true) [] [] [] [] [].

Definition sum (l : list Z) : Z := foldr Z.add 0 l.

Lemma sum_app l k : sum (l ++ k) = sum l + sum k.
Proof. induction l as [|x l IH]; [done|]. change (x + sum (l ++ k) = (x + sum l) + sum k). lia. Qed.
Lemma sum_cons x l : sum (x :: l) = x + sum l.
Proof. done. Qed.
Arguments sum : simpl never.

(** A stream direction that nobody has closed or reset. *)
Definition live_tx (s : Stream) : Prop := isOpen s = true /\ localClosed s = false /\ terminalErr s = None.

(** The largest DATA frame of a sender, which its own limit and the receiver's
    window bound, is one the receiver takes. The two limits are configured
    separately on each side, and nothing negotiates them. *)
Definition fits (lt lr : Limits) : Prop := Z.min (maxDataPayload lt) (initialWindow lr) <= maxDataPayload lr.

Record link_wf (lt lr : Limits) (k : Link) : Prop := {
  lw_tx : stream_wf (tx k) /\ live_tx (tx k) /\ stream_limits (tx k) = lt;
  lw_rx : stream_wf (rx k) /\ remoteClosed (rx k) = false /\ stream_limits (rx k) = lr;
  lw_data : Forall (fun p => 0 < len p <= Z.min (maxDataPayload lt) (initialWindow lr)) (data k);
  lw_win : Forall (fun c => 0 < c <= initialWindow lr) (win k);
  (** every byte of the receiver's window is in exactly one place *)
  lw_credit : if windowAdvertised (rx k)
    then sendCredit (tx k) + len (concat (data k)) + sum (win k) = recvCredit (rx k)
    else sendCredit (tx k) = 0 /\ data k = [] /\ win k = [];
  lw_first : if peerWindowSet (tx k) then peerWindow (tx k) = initialWindow lr /\ windowAdvertised (rx k) = true
    else sendCredit (tx k) = 0 /\ data k = [] /\ readBuf (rx k) = [] /\
         win k = (if windowAdvertised (rx k) then [initialWindow lr] else []);
  lw_fifo : sent k = got k ++ readBuf (rx k) ++ concat (data k);
  lw_faults : faults k = []
}.

Section Link.
Context (lt lr : Limits).
Context (Hlt : limits_ok lt) (Hlr : limits_ok lr).
Context (Hfit : fits lt lr).

Lemma link_init_wf sid svc : link_wf lt lr (link_init lt lr sid svc).
Proof.
  constructor; cbn; try done.
  - split_and!; [by apply newStream_wf|done|by destruct lt].
  - split_and!; [by apply newStream_wf|done|by destruct lr].
Qed.

Lemma link_advertise_wf k c rx' :
  link_wf lt lr k -> initializeReceiveWindow (rx k) = (Ok c, rx') ->
  link_wf lt lr (mkLink (tx k) rx' (data k) (win k ++ [c]) (sent k) (got k) (faults k)).
Proof.
  intros [Ht (Hw & Hrc & Hl) Hd Hwin Hcr Hf Hfifo Hfl] H.
  pose proof (initializeReceiveWindow_wf _ Hw) as Hw'. rewrite H in Hw'. cbn in Hw'.
  unfold initializeReceiveWindow in H. destruct (windowAdvertised (rx k)) eqn:Ha; [done|].
  injection H as Ec <-. destruct Hcr as (E1 & E2 & E3). rewrite E2, E3 in *.
  assert (s_initialWindow (rx k) = initialWindow lr) as Ei by (by rewrite <- Hl).
  assert (c = initialWindow lr) as ->.
  { rewrite <- Ec, Ei. apply u32_small. unfold limits_ok in Hlr. unfold is_u.
    rewrite maxInitialWindow_val in *. lia. }
  constructor; cbn; try done.
  - apply Forall_singleton. unfold limits_ok in Hlr. lia.
  - rewrite Ei, E1, sum_cons. change (sum []) with 0. len_nil_simpl. lia.
  - destruct (peerWindowSet (tx k)); [naive_solver|]. naive_solver.
Qed.

Lemma len_concat_snoc (l : list bytes) p : len (concat (l ++ [p])) = len (concat l) + len p.
Proof. rewrite concat_app, len_app. cbn. by rewrite app_nil_r. Qed.

Lemma link_write_wf k p chunk tx' :
  link_wf lt lr k -> p <> [] -> write_locked (len p) (tx k) = (WriteChunk chunk, tx') ->
  link_wf lt lr (mkLink tx' (rx k) (data k ++ [take chunk p]) (win k) (sent k ++ take chunk p)
                        (got k) (faults k)).
Proof.
  intros [(Hw & (Ho & Hlc & Hte) & Hl) Hr Hd Hwin Hcr Hf Hfifo Hfl] Hp H.
  assert (0 < len p) as Hpos.
  { destruct p; [done|]. rewrite len_cons. pose proof (len_nonneg p). lia. }
  pose proof (write_locked_wf (len p) (tx k) Hpos Hw) as Hw'. rewrite H in Hw'. cbn in Hw'.
  assert (s_maxDataPayload (tx k) = maxDataPayload lt) as Em by (by rewrite <- Hl).
  assert (0 < sendCredit (tx k) /\ exists c, chunk = Z.to_nat c /\ 0 < c <= len p /\
    c <= maxDataPayload lt /\ c <= sendCredit (tx k) /\
    tx' = (tx k) <| sendCredit := sendCredit (tx k) - c |>) as (Hcp & c & -> & Hc1 & Hc2 & Hc3 & ->).
  { unfold write_locked in H. rewrite Ho, Hlc, Hte in H. cbn [negb] in H.
    destruct (Z.ltb_spec 0 (sendCredit (tx k))); [|done]. split; [done|]. cbv zeta in H.
    rewrite Em in H. unfold limits_ok in Hlt. destruct Hw as (_ & _ & Hs). unfold send_wf in Hs.
    rewrite maxInitialWindow_val in *.
    set (c1 := if maxDataPayload lt <? len p then maxDataPayload lt else len p) in H.
    set (c2 := if sendCredit (tx k) <? c1 then sendCredit (tx k) else c1) in H.
    assert (0 < c1 <= maxDataPayload lt /\ c1 <= len p) as H1
      by (unfold c1; destruct (Z.ltb_spec (maxDataPayload lt) (len p)); lia).
    assert (0 < c2 <= c1 /\ c2 <= sendCredit (tx k)) as H2
      by (unfold c2; destruct (Z.ltb_spec (sendCredit (tx k)) c1); lia).
    rewrite u64_sub_small in H by lia. injection H as <- <-. exists c2. split_and!; done || lia. }
  assert (len (take (Z.to_nat c) p) = c) as Elen by (rewrite len_take; lia).
  destruct (peerWindowSet (tx k)) eqn:Eps; [|lia]. destruct Hf as [Hpw Hadv]. rewrite Hadv in Hcr.
  assert (sendCredit (tx k) <= initialWindow lr) as Hsw.
  { destruct Hr as ((_ & (? & ? & Hr) & _) & _ & Hl'). rewrite Hadv in Hr. pose proof (len_nonneg (readBuf (rx k))). pose proof (len_nonneg (concat (data k))).
    assert (0 <= sum (win k)) by (clear -Hwin; induction Hwin as [|x l Hx _ IH]; [done|]; rewrite sum_cons; lia).
    assert (s_initialWindow (rx k) = initialWindow lr) by (by rewrite <- Hl'). lia. }
  constructor; cbn; try done.
  - apply Forall_app. split; [done|]. apply Forall_singleton. lia.
  - rewrite Hadv, len_concat_snoc. lia.
  - by rewrite Eps.
  - rewrite Hfifo, concat_app. cbn. by rewrite app_nil_r, !app_assoc.
Qed.

Lemma link_data_wf k p rest :
  link_wf lt lr k -> data k = p :: rest ->
  link_wf lt lr (mkLink (tx k) (snd (deliver p (rx k))) rest (win k) (sent k) (got k)
                        (add_fault (fst (deliver p (rx k))) (faults k))).
Proof.
  intros [(Hw & Hlive & Hl) (Hwr & Hrc & Hlr') Hd Hwin Hcr Hf Hfifo Hfl] Hdat.
  rewrite Hdat in *. apply Forall_cons in Hd as [Hp Hd].
  destruct (peerWindowSet (tx k)) eqn:Eps; [|naive_solver].
  destruct Hf as [Hpw Hadv]. rewrite Hadv in Hcr.
  assert (s_maxDataPayload (rx k) = maxDataPayload lr) as Em by (by rewrite <- Hlr').
  assert (0 <= sendCredit (tx k)) as Hsc by (destruct Hw as (_ & _ & Hs); unfold send_wf in Hs; lia).
  assert (0 <= sum (win k)) as Hsw.
  { clear -Hwin. induction Hwin as [|c l Hc _ IH]; [done|]. rewrite sum_cons. lia. }
  assert (len (concat (p :: rest)) = len p + len (concat rest)) as Ecat by (cbn; by rewrite len_app).
  pose proof (len_nonneg (concat rest)) as Hcr0.
  assert (Hbnd := deliver_bound (rx k) p Hwr Hadv). pose proof (deliver_wf p (rx k) Hwr) as Hwd.
  unfold fits in Hfit. unfold limits_ok in Hlt, Hlr. rewrite maxInitialWindow_val in *.
  assert (len (readBuf (rx k)) + recvCredit (rx k) <= initialWindow lr /\ s_initialWindow (rx k) = initialWindow lr) as [Hle Eiw].
  { destruct Hwr as (_ & (? & ? & Hr) & _). rewrite Hadv in Hr. rewrite <- Hlr'. cbn. lia. }
  pose proof (len_nonneg (readBuf (rx k))) as Hrb.
  assert (deliver p (rx k) = (None, (rx k) <| recvCredit := recvCredit (rx k) - len p |>
    <| readBuf := readBuf (rx k) ++ p |>)) as Edel.
  { unfold deliver. rewrite (proj2 (Z.eqb_neq _ _)) by lia. rewrite u32_small by (unfold is_u; lia).
    rewrite (proj2 (Z.ltb_ge _ _)) by lia. rewrite Hrc, Hadv. cbn [negb].
    rewrite (proj2 (Z.ltb_ge _ _)) by lia. rewrite u64_add_small by lia.
    rewrite (proj2 (Z.ltb_ge _ _)) by lia. by rewrite u64_sub_small by lia. }
  rewrite Edel in *. cbn [fst snd] in *. constructor; cbn; try done.
  - rewrite Hadv. lia.
  - by rewrite Eps.
  - rewrite Hfifo. cbn. by rewrite <- !app_assoc.
Qed.

(** What a [Read] that returns bytes does while the peer may still send. *)
Lemma read_got_facts n s s' bs grant err :
  (0 < n)%nat -> stream_wf s -> remoteClosed s = false ->
  read_locked n s = (ReadGot bs grant err, s') ->
  err = None /\ bs <> [] /\ readBuf s = bs ++ readBuf s' /\ windowAdvertised s = true /\
  remoteClosed s' = false /\ windowAdvertised s' = true /\
  recvCredit s' = recvCredit s + grant /\ 0 <= grant <= s_initialWindow s.
Proof.
  intros Hn (Hl & (Hc & Hp & Hr) & Hs) Hrc. unfold read_locked.
  destruct (Z.ltb_spec 0 (len (readBuf s))) as [Hb|Hb]; [|by rewrite Hrc].
  destruct (windowAdvertised s) eqn:Ha.
  2:{ destruct Hr as (Hr & _). rewrite Hr in Hb. by len_nil_simpl. }
  destruct Hr as [_ Hr]. destruct (Hr Hrc) as (Heq & _ & Hth).
  unfold limits_ok in Hl. cbn in Hl. rewrite maxInitialWindow_val in Hl.
  pose proof (len_take n (readBuf s)) as E1. pose proof (len_drop n (readBuf s)) as E2.
  unfold update, upd_readBuf, upd_pendingWindow; cbn. rewrite Hrc; cbn.
  rewrite (u64_add_small (pendingWindow s)) by lia.
  assert (take n (readBuf s) <> []) as Hne by (apply len_pos_cons; lia).
  destruct (_ || _).
  - rewrite (u64_add_small (recvCredit s)) by lia. rewrite (proj2 (Z.ltb_ge _ _)) by lia.
    rewrite u32_small by (unfold is_u; lia). intros [= <- <- <- <-]. cbn.
    rewrite take_drop. split_and!; done || lia.
  - intros [= <- <- <- <-]. cbn. rewrite take_drop. split_and!; done || lia.
Qed.

Lemma link_read_wf k n bs grant err rx' :
  link_wf lt lr k -> (0 < n)%nat -> read_locked n (rx k) = (ReadGot bs grant err, rx') ->
  link_wf lt lr (mkLink (tx k) rx' (data k) (if 0 <? grant then win k ++ [grant] else win k)
                        (sent k) (got k ++ bs) (add_fault err (faults k))).
Proof.
  intros [Ht (Hwr & Hrc & Hlr') Hd Hwin Hcr Hf Hfifo Hfl] Hn H.
  pose proof (read_locked_wf n (rx k) Hn Hwr) as Hw'. rewrite H in Hw'. cbn [snd] in Hw'.
  pose proof (stream_step_identity _ _ (step_read n (rx k) Hn)) as (_ & _ & Hlim).
  rewrite H in Hlim. cbn [snd] in Hlim.
  destruct (read_got_facts n (rx k) rx' bs grant err Hn Hwr Hrc H)
    as (-> & Hne & Hbuf & Hadv & Hrc' & Hadv' & Hcredit & Hgr).
  rewrite Hadv in Hcr. destruct (peerWindowSet (tx k)) eqn:Eps.
  2:{ destruct Hf as (_ & _ & Hb & _). rewrite Hb in Hbuf. symmetry in Hbuf. apply app_nil in Hbuf as [-> _]. done. }
  destruct Hf as [Hpw _].
  assert (s_initialWindow (rx k) = initialWindow lr) as Eiw by (by rewrite <- Hlr').
  constructor; cbn; try done.
  - split_and!; [done|done|by rewrite Hlim].
  - destruct (Z.ltb_spec 0 grant); [|done]. apply Forall_app. split; [done|].
    apply Forall_singleton. lia.
  - rewrite Hadv'. destruct (Z.ltb_spec 0 grant).
    + rewrite sum_app, sum_cons. change (sum []) with 0. lia.
    + lia.
  - by rewrite Eps, Hadv'.
  - rewrite Hfifo, Hbuf. by rewrite <- !app_assoc.
Qed.

Lemma link_window_wf k c rest :
  link_wf lt lr k -> win k = c :: rest ->
  link_wf lt lr (mkLink (snd (addSendCredit c (tx k))) (rx k) (data k) rest (sent k) (got k)
                        (add_fault (fst (addSendCredit c (tx k))) (faults k))).
Proof.
  intros [(Hw & (Ho & Hlc & Hte) & Hl) (Hwr & Hrc & Hlr') Hd Hwin Hcr Hf Hfifo Hfl] Hc.
  rewrite Hc in *. apply Forall_cons in Hwin as [Hcb Hwin]. rewrite sum_cons in Hcr.
  unfold limits_ok in Hlt, Hlr. rewrite maxInitialWindow_val in *.
  assert (is_u 32 c) as Hcu by (unfold is_u; lia).
  pose proof (addSendCredit_wf c (tx k) Hcu Hw) as Hw'.
  assert (0 <= sum rest) as Hsw.
  { clear -Hwin. induction Hwin as [|x l Hx _ IH]; [done|]. rewrite sum_cons. lia. }
  pose proof (len_nonneg (concat (data k))) as Hdl.
  assert (windowAdvertised (rx k) = true) as Hadv.
  { destruct (windowAdvertised (rx k)); [done|]. naive_solver. }
  rewrite Hadv in *.
  assert (recvCredit (rx k) <= initialWindow lr) as Hle.
  { destruct Hwr as (_ & (? & ? & Hr) & _). rewrite Hadv in Hr. rewrite <- Hlr'. cbn.
    pose proof (len_nonneg (readBuf (rx k))). lia. }
  assert (Hsc : 0 <= sendCredit (tx k)) by (destruct Hw as (_ & _ & Hs); unfold send_wf in Hs; lia).
  unfold addSendCredit in *. rewrite Hlc, Hte in *. cbn [orb] in *.
  rewrite bool_decide_false in * by (by intros [? ?]).
  destruct (peerWindowSet (tx k)) eqn:Eps; cbn [negb] in *.
  - destruct Hf as [Hpw _]. rewrite u64_add_small in * by lia.
    rewrite (proj2 (Z.ltb_ge _ _)) in * by lia. cbn [fst snd] in *. constructor; cbn; try done.
    + rewrite Hadv. lia.
    + by rewrite Eps.
  - destruct Hf as (E1 & E2 & E3 & [= -> ->]).
    rewrite (proj2 (Z.ltb_ge _ _)) in * by (rewrite maxInitialWindow_val; lia). cbn [fst snd] in *.
    constructor; cbn; try done.
    rewrite Hadv. rewrite E1 in Hcr. lia.
Qed.

Lemma link_step_wf k k' : link_step k k' -> link_wf lt lr k -> link_wf lt lr k'.
Proof.
  destruct 1; intros Hk; eauto using link_advertise_wf, link_write_wf, link_data_wf, link_read_wf,
    link_window_wf.
Qed.

Lemma link_reach_wf sid svc k : rtc link_step (link_init lt lr sid svc) k -> link_wf lt lr k.
Proof.
  intros H. assert (link_wf lt lr (link_init lt lr sid svc)) as H0 by apply link_init_wf.
  induction H; eauto using link_step_wf.
Qed.

(** ** Progress

    A step that is not a [Write] leaves [sent] alone; the potential counts
    how many more such steps the frames and bytes under way can cause. *)
Definition quiet_step (k k' : Link) : Prop := link_step k k' /\ sent k' = sent k.

Definition potential (k : Link) : nat :=
  (if windowAdvertised (rx k) then 0 else 2) + 3 * length (concat (data k)) +
  2 * length (readBuf (rx k)) + length (win k).

Lemma quiet_step_potential k k' : link_wf lt lr k -> quiet_step k k' -> (potential k' < potential k)%nat.
Proof.
  intros Hk [Hs Hq]. pose proof (link_step_wf _ _ Hs Hk) as Hk'. unfold potential.
  destruct Hs as [k c rx' H|k p chunk tx' Hp H|k p rest H|k n bs grant err rx' Hn H|k c rest H]; cbn in *.
  - unfold initializeReceiveWindow in H. destruct (windowAdvertised (rx k)); [done|].
    injection H as _ <-. cbn. rewrite length_app. cbn. lia.
  - exfalso. apply lw_data in Hk'. cbn in Hk'. apply Forall_app in Hk' as [_ Hc].
    rewrite Forall_singleton in Hc. apply (f_equal length) in Hq. rewrite length_app in Hq.
    unfold len in Hc. lia.
  - pose proof (lw_fifo _ _ _ Hk) as F. pose proof (lw_fifo _ _ _ Hk') as F'. cbn in F'.
    rewrite F, H in F'. apply app_inv_head in F'. apply (f_equal length) in F'.
    pose proof (lw_data _ _ _ Hk) as Hd. rewrite H in Hd. apply Forall_cons in Hd as [Hd _].
    assert (windowAdvertised (snd (deliver p (rx k))) = windowAdvertised (rx k)) as ->
      by (unfold deliver; repeat case_match; done).
    rewrite H. unfold len in Hd. cbn in *. rewrite !length_app in *. lia.
  - destruct (lw_rx _ _ _ Hk) as (Hw & Hrc & _).
    destruct (read_got_facts n (rx k) rx' bs grant err Hn Hw Hrc H)
      as (_ & Hne & -> & -> & _ & -> & _).
    destruct bs; [done|]. rewrite length_app. cbn. destruct (0 <? grant); rewrite ?length_app; cbn; lia.
  - rewrite H. cbn. lia.
Qed.

Lemma quiet_stuck k : link_wf lt lr k -> (forall k', ~ quiet_step k k') ->
  data k = [] /\ win k = [] /\ readBuf (rx k) = [] /\ windowAdvertised (rx k) = true.
Proof.
  intros Hk Hstuck. destruct (data k) as [|p rest] eqn:Ed.
  2:{ exfalso. eapply Hstuck. split; [by eapply ls_data|done]. }
  destruct (win k) as [|c rest] eqn:Ew.
  2:{ exfalso. eapply Hstuck. split; [by eapply ls_window|done]. }
  destruct (windowAdvertised (rx k)) eqn:Ea.
  2:{ exfalso. eapply Hstuck. split; [eapply ls_advertise; unfold initializeReceiveWindow; by rewrite Ea|done]. }
  split_and!; try done. destruct (readBuf (rx k)) as [|b l] eqn:Eb; [done|]. exfalso.
  destruct (read_locked 1 (rx k)) as [[| |bs g e] rx'] eqn:Er.
  3:{ eapply Hstuck. split; [eapply ls_read; [|done]; lia|done]. }
  all: exfalso; revert Er; unfold read_locked; rewrite Eb, len_cons;
    rewrite (proj2 (Z.ltb_lt _ _)) by (pose proof (len_nonneg l); lia);
    repeat case_match; done.
Qed.

Lemma quiet_idle k : link_wf lt lr k -> data k = [] -> win k = [] -> readBuf (rx k) = [] ->
  windowAdvertised (rx k) = true -> got k = sent k /\ sendCredit (tx k) = initialWindow lr.
Proof.
  intros Hk Ed Ew Eb Ea. destruct Hk as [_ (Hw & Hrc & Hl) _ _ Hcr Hf Hfifo _].
  rewrite Ed, Eb in Hfifo. cbn in Hfifo. rewrite app_nil_r in Hfifo. split; [done|].
  rewrite Ea, Ed, Ew in Hcr. cbn in Hcr. change (sum []) with 0 in Hcr. len_nil_simpl.
  destruct Hw as (_ & (_ & _ & Hr) & _). rewrite Ea, Eb in Hr. destruct Hr as [_ Hr].
  destruct (Hr Hrc) as (E & Hp & _). rewrite (Hp eq_refl) in E. len_nil_simpl.
  rewrite <- Hl. cbn. lia.
Qed.

End Link.

(** A sender whose frames are too large for the receiver: its first one is refused. *)
Lemma oversized_refused (lt lr : Limits) (sid svc : Z) : limits_ok lt -> limits_ok lr -> ~ fits lt lr ->
  exists k, rtc link_step (link_init lt lr sid svc) k /\ faults k = [EFlow (FlowDataTooLarge sid (Z.min (maxDataPayload lt) (initialWindow lr)))].
Proof.
  intros Hlt Hlr Hno. unfold fits in Hno. unfold limits_ok in *. rewrite maxInitialWindow_val in *. set (n := Z.min (maxDataPayload lt) (initialWindow lr)) in *. set (w := initialWindow lr) in *.
  set (t0 := newStream lt sid svc [] true). set (r0 := newStream lr sid svc [] true).
  set (r1 := r0 <| windowAdvertised := true |> <| recvCredit := w |>).
  set (t1 := t0 <| peerWindowSet := true |> <| peerWindow := w |> <| sendCredit := w |>).
  set (p := replicate (Z.to_nat n) 0 : bytes). assert (len p = n) as Hp by (unfold len, p; rewrite length_replicate; lia).
  assert (initializeReceiveWindow r0 = (Ok w, r1)) as E1 by (unfold initializeReceiveWindow, r1, r0; cbn; fold w; by rewrite u32_small by (unfold is_u; lia)).
  assert (addSendCredit w t0 = (None, t1)) as E2.
  { unfold addSendCredit. cbn [t0 newStream localClosed terminalErr peerWindowSet orb negb]. rewrite bool_decide_false by (by intros [? ?]). by rewrite maxInitialWindow_val, (proj2 (Z.ltb_ge _ _)) by lia. }
  assert (write_locked (len p) t1 = (WriteChunk (Z.to_nat n), t1 <| sendCredit := w - n |>)) as E3.
  { unfold write_locked. cbn [t1 t0 update upd_peerWindowSet upd_peerWindow upd_sendCredit newStream isOpen localClosed terminalErr sendCredit s_maxDataPayload negb].
    rewrite (proj2 (Z.ltb_lt 0 w)) by lia. rewrite Hp. cbv zeta. destruct (Z.ltb_spec (maxDataPayload lt) n); [lia|]. destruct (Z.ltb_spec w n); [lia|]. by rewrite u64_sub_small by lia. }
  assert (deliver p r1 = (Some (EFlow (FlowDataTooLarge sid n)), r1)) as E4.
  { unfold deliver. rewrite Hp, (proj2 (Z.eqb_neq n 0)) by lia. rewrite u32_small by (unfold is_u; lia). cbn [r1 r0 update upd_windowAdvertised upd_recvCredit newStream s_maxDataPayload s_id].
    by rewrite (proj2 (Z.ltb_lt _ _)) by lia. }
  eexists. split.
  - eapply rtc_l; [exact (ls_advertise (link_init lt lr sid svc) w r1 E1)|]. eapply rtc_l; [by eapply ls_window|]. cbn [link_init tx rx data win sent got faults app]. fold t0. rewrite E2. cbn [fst snd add_fault].
    eapply rtc_l; [eapply (ls_write _ p); [intros E; rewrite E in Hp; change (len []) with 0 in Hp; lia|exact E3]|]. eapply rtc_l; [by eapply ls_data|apply rtc_refl].
  - cbn [tx rx data win sent got faults app]. rewrite take_ge by (unfold len in Hp; lia). by rewrite E4.
Qed.

(** C1: two multiplexers joined by an ordered transport accuse each other of no
    flow-control violation, whatever the interleaving of writes, reads, DATA and
    WINDOW frames, exactly when the largest frame the sender's configuration
    lets it send is one the receiver's configuration takes. Then the bytes read
    are a prefix of the bytes written, the rest being exactly what is buffered
    and then what is in flight, and those two and the credit the writer still
    has never exceed the receiver's window. *)
Theorem link_reliable (lt lr : Limits) (sid svc : Z) :
  limits_ok lt -> limits_ok lr ->
  ((forall k, rtc link_step (link_init lt lr sid svc) k -> faults k = []) <-> fits lt lr) /\
  (fits lt lr -> forall k, rtc link_step (link_init lt lr sid svc) k ->
    sent k = got k ++ readBuf (rx k) ++ concat (data k) /\
    len (readBuf (rx k)) + len (concat (data k)) + sendCredit (tx k) <= initialWindow lr).
Proof.
  intros H1 H2. split; [split|].
  - intros Hall. destruct (decide (Z.min (maxDataPayload lt) (initialWindow lr) <= maxDataPayload lr)) as [|Hno]; [done|].
    destruct (oversized_refused lt lr sid svc H1 H2 Hno) as (k & Hk & Hf). by rewrite (Hall k Hk) in Hf.
  - intros H3 k Hk. exact (lw_faults _ _ _ (link_reach_wf lt lr H1 H2 H3 sid svc k Hk)).
  - intros H3 k Hk. destruct (link_reach_wf lt lr H1 H2 H3 sid svc k Hk)
      as [(Hwt & _ & _) (Hw & Hrc & Hl) Hd Hwin Hcr Hf Hfifo Hfl].
    split; [done|]. unfold limits_ok in H2. destruct Hw as (_ & (Hc & Hp & Hr) & _).
    assert (0 <= sum (win k)) as Hsw.
    { clear -Hwin. induction Hwin as [|x l Hx _ IH]; [done|]. rewrite sum_cons. lia. }
    destruct (windowAdvertised (rx k)).
    + destruct Hr as [Hr _]. rewrite <- Hl. cbn. lia.
    + destruct Hcr as (-> & -> & _). destruct Hr as (-> & _). cbn. len_nil_simpl. lia.
Qed.

Definition demo_limits : Limits := mkLimits 8 4 4.

(** A short run: advertise, credit arrives, write four bytes, they arrive,
    three are read. *)
Definition demo_link : Link := Eval vm_compute in
  let k := link_init demo_limits demo_limits 1 2 in
  let rx1 := snd (initializeReceiveWindow (rx k)) in
  let tx1 := snd (addSendCredit 8 (tx k)) in
  let tx2 := snd (write_locked 6 tx1) in
  let rx2 := snd (deliver [1;2;3;4] rx1) in
  mkLink tx2 (snd (read_locked 3 rx2)) [] [] [1;2;3;4] [1;2;3] [].

Lemma rtc_link_l k k1 k2 : link_step k k1 -> forall k1', k1 = k1' -> rtc link_step k1' k2 -> rtc link_step k k2.
Proof. intros H ? <- ?. by eapply rtc_l. Qed.

Lemma demo_link_reachable : rtc link_step (link_init demo_limits demo_limits 1 2) demo_link.
Proof.
  eapply rtc_link_l; [by eapply ls_advertise|vm_compute; reflexivity|].
  eapply rtc_link_l; [by eapply ls_window|vm_compute; reflexivity|].
  eapply rtc_link_l; [eapply (ls_write _ [1;2;3;4;5;6] 4); [done|reflexivity]|vm_compute; reflexivity|].
  eapply rtc_link_l; [by eapply ls_data|vm_compute; reflexivity|].
  eapply rtc_link_l; [eapply (ls_read _ 3 [1;2;3] 0 None); [lia|reflexivity]|vm_compute; reflexivity|].
  apply rtc_refl.
Qed.

Lemma link_reliable_witness :
  sent demo_link = got demo_link ++ readBuf (rx demo_link) ++ concat (data demo_link) /\
  readBuf (rx demo_link) = [4].
Proof.
  split; [|reflexivity].
  refine (proj1 (proj2 (link_reliable demo_limits demo_limits 1 2 _ _) _ demo_link demo_link_reachable));
    unfold limits_ok, fits; cbn; rewrite ?maxInitialWindow_val; lia.
Defined.

(** C2: no starvation and no deadlock, when the sender's largest frame is one the
    receiver takes (a fixed condition on the two configurations, see [fits]):
    from any reachable state, the steps other than [Write] can run at most
    [potential] times whatever their order, and when none is left every written byte has been read and the writer
    holds the receiver's whole window again, so its next [Write] of a
    non-empty buffer sends a chunk instead of blocking. *)
Theorem link_progress (lt lr : Limits) (sid svc : Z) (k k' : Link) (n : nat) (r : Z) :
  limits_ok lt -> limits_ok lr -> fits lt lr -> 0 < r ->
  rtc link_step (link_init lt lr sid svc) k -> nsteps quiet_step n k k' ->
  (n <= potential k)%nat /\
  ((forall k'', ~ quiet_step k' k'') ->
     got k' = sent k /\ sendCredit (tx k') = initialWindow lr /\
     exists chunk tx', write_locked r (tx k') = (WriteChunk chunk, tx') /\ (0 < chunk)%nat).
Proof.
  intros H1 H2 H3 Hr Hk Hn. apply (link_reach_wf lt lr H1 H2 H3) in Hk.
  assert (link_wf lt lr k' /\ (n + potential k' <= potential k)%nat /\ sent k' = sent k) as (Hk' & Hp & Hs).
  { clear Hr. induction Hn as [k|n k1 k2 k3 Hs Hn IH]; [split_and!; done || lia|].
    pose proof (quiet_step_potential lt lr H1 H2 H3 _ _ Hk Hs).
    destruct IH as (? & ? & ?); [destruct Hs as [Hs _]; eauto using link_step_wf|].
    destruct Hs as [_ Hs]. split_and!; [done|lia|congruence]. }
  split; [lia|]. intros Hst. destruct (quiet_stuck lt lr k' Hk' Hst) as (E1 & E2 & E3 & E4).
  destruct (quiet_idle lt lr k' Hk' E1 E2 E3 E4) as [Hg Hcr]. split_and!; [congruence|done|].
  destruct Hk' as [(_ & (Ho & Hlc & Ht) & Hl) _ _ _ _ _ _ _].
  unfold write_locked. rewrite Ho, Hlc, Ht. cbn. unfold limits_ok in H1, H2.
  assert (s_maxDataPayload (tx k') = maxDataPayload lt) as Em by (by rewrite <- Hl).
  rewrite (proj2 (Z.ltb_lt _ _)) by lia. eexists _, _. split; [done|].
  rewrite Em. repeat case_match; lia.
Qed.

(** The rest of that run: the last byte is read, its credit comes back. *)
Definition demo_drained : Link := Eval vm_compute in
  mkLink (snd (addSendCredit 4 (tx demo_link))) (snd (read_locked 9 (rx demo_link)))
    [] [] [1;2;3;4] [1;2;3;4] [].

Lemma nsteps_quiet_l n k k1 k1' k2 :
  link_step k k1 -> k1 = k1' -> sent k1' = sent k -> nsteps quiet_step n k1' k2 ->
  nsteps quiet_step (S n) k k2.
Proof. intros H <- ? ?. by eapply nsteps_l; [split|]. Qed.

Lemma demo_drained_steps : nsteps quiet_step 2 demo_link demo_drained.
Proof.
  eapply nsteps_quiet_l; [eapply (ls_read demo_link 9 [4] 4 None); [lia|reflexivity]
    |vm_compute; reflexivity|reflexivity|].
  eapply nsteps_quiet_l; [by eapply ls_window|vm_compute; reflexivity|reflexivity|].
  apply nsteps_O.
Qed.

Lemma demo_limits_ok : limits_ok demo_limits.
Proof. unfold limits_ok; cbn. rewrite maxInitialWindow_val. lia. Qed.

Lemma demo_drained_stuck k : ~ quiet_step demo_drained k.
Proof.
  intros H. assert (link_wf demo_limits demo_limits demo_drained) as Hw.
  { apply (link_reach_wf demo_limits demo_limits demo_limits_ok demo_limits_ok ltac:(done) 1 2).
    etrans; [apply demo_link_reachable|]. eapply rtc_subrel; [|apply rtc_nsteps; exists 2%nat; apply demo_drained_steps].
    by intros ? ? []. }
  pose proof (quiet_step_potential demo_limits demo_limits demo_limits_ok demo_limits_ok ltac:(done) _ _ Hw H) as Hp.
  vm_compute in Hp. lia.
Qed.

Lemma link_progress_witness :
  exists chunk tx', write_locked 5 (tx demo_drained) = (WriteChunk chunk, tx') /\ (0 < chunk)%nat.
Proof.
  exact (proj2 (proj2 (proj2 (link_progress demo_limits demo_limits 1 2 demo_link demo_drained 2 5
    demo_limits_ok demo_limits_ok ltac:(done) ltac:(done) demo_link_reachable demo_drained_steps)
    demo_drained_stuck))).
Defined.

End MuxLink.
