(* ===== verification/SeqWindow.v ===== *)
(** * Anti-replay sequence window (sessionproxy/sequence_window.go)

    The 64-packet bitmap the UDP proxy uses to accept each sequence number at
    most once, and its refinement of a specification that remembers every
    accepted number. *)

From S2P Require Import Prelude.

Module SeqWindow.

Record sequenceWindow := mkWindow {
  highest : Z;
  seen : Z
}.

#[global] Instance upd_highest : Update highest := fun v w => mkWindow v (seen w).
#[global] Instance upd_seen : Update seen := fun v w => mkWindow (highest w) v.

(** The Go zero value, [var sequences sequenceWindow]. *)
Definition window0 : sequenceWindow := mkWindow 0 0.

Definition Accept (sequence : Z) (w : sequenceWindow) : bool * sequenceWindow :=
  if sequence =? 0 then (false, w) else
  if highest w =? 0 then (true, w <| highest := sequence |> <| seen := 1 |>) else
  if highest w <? sequence then
    let shift := u64 (sequence - highest w) in
    let w1 := if 64 <=? shift then w <| seen := 1 |>
              else w <| seen := Z.lor (u64 (Z.shiftl (seen w) shift)) 1 |> in
    (true, w1 <| highest := sequence |>)
  else
    let delta := u64 (highest w - sequence) in
    if 64 <=? delta then (false, w) else
    let mask := u64 (Z.shiftl 1 delta) in
    if negb (Z.land (seen w) mask =? 0) then (false, w)
    else (true, w <| seen := Z.lor (seen w) mask |>).

(** The answers to a sequence of packets, in arrival order. *)
Fixpoint accept_all (xs : list Z) (w : sequenceWindow) : list bool :=
  match xs with
  | [] => []
  | x :: xs' => let '(b, w') := Accept x w in b :: accept_all xs' w'
  end.

(** ** Specification: the set of numbers accepted so far *)

Definition max_seq (acc : list Z) : Z := foldr Z.max 0 acc.

Definition spec_accept (acc : list Z) (x : Z) : bool :=
  negb (x =? 0) && negb (bool_decide (x ∈ acc)) && (max_seq acc <? x + 64).

Fixpoint spec_all (xs acc : list Z) : list bool :=
  match xs with
  | [] => []
  | x :: xs' => let b := spec_accept acc x in b :: spec_all xs' (if b then x :: acc else acc)
  end.

(** The packets a receiver lets through, given the answers. *)
Fixpoint passed (xs : list Z) (bs : list bool) : list Z :=
  match xs, bs with
  | x :: xs', b :: bs' => if b then x :: passed xs' bs' else passed xs' bs'
  | _, _ => []
  end.

(** ** Simulation *)

Record simulates (acc : list Z) (w : sequenceWindow) : Prop := {
  sim_pos : Forall (fun x => 0 < x < 2 ^ 64) acc;
  sim_highest : highest w = max_seq acc;
  sim_seen_range : is_u 64 (seen w);
  sim_seen : forall d, 0 <= d < 64 -> Z.testbit (seen w) d = bool_decide (highest w - d ∈ acc)
}.

Lemma max_seq_ge acc x : x ∈ acc -> x <= max_seq acc.
Proof. induction 1 as [|? ? ? ? IH]; cbn; unfold max_seq in *; lia. Qed.

Lemma max_seq_nonneg acc : 0 <= max_seq acc.
Proof. induction acc; cbn; unfold max_seq in *; lia. Qed.

Lemma max_seq_in acc : max_seq acc <> 0 -> max_seq acc ∈ acc.
Proof.
  induction acc as [|x acc IH]; [done|]. cbn. fold (max_seq acc). intros Hne.
  destruct (Z.max_spec x (max_seq acc)) as [[? ->]|[? ->]]; [|by left].
  right. apply IH. pose proof (max_seq_nonneg acc). lia.
Qed.

Arguments max_seq : simpl never.

Lemma simulates_empty : simulates [] window0.
Proof.
  constructor; [done|done|cbn; unfold is_u; lia|]. intros d _. cbn. rewrite Z.bits_0.
  symmetry. apply bool_decide_false. apply not_elem_of_nil.
Qed.

Lemma testbit_1 d : 0 <= d -> Z.testbit 1 d = (d =? 0).
Proof. intros. change 1 with (2 ^ 0). rewrite Z.pow2_bits_eqb by lia. by rewrite Z.eqb_sym. Qed.

Lemma testbit_mask d i : 0 <= d < 64 -> 0 <= i -> Z.testbit (u64 (Z.shiftl 1 d)) i = (i =? d).
Proof.
  intros Hd Hi. rewrite u64_small.
  - rewrite Z.shiftl_1_l, Z.pow2_bits_eqb by lia. by rewrite Z.eqb_sym.
  - rewrite Z.shiftl_1_l. split; [apply Z.pow_nonneg; lia|apply Z.pow_lt_mono_r; lia].
Qed.

(** Testing a single bit with [seen & mask]. *)
Lemma land_mask_zero s d : 0 <= d < 64 ->
  (Z.land s (u64 (Z.shiftl 1 d)) =? 0) = negb (Z.testbit s d).
Proof.
  intros Hd. assert (Z.land s (u64 (Z.shiftl 1 d)) = if Z.testbit s d then u64 (Z.shiftl 1 d) else 0) as ->.
  { apply Z.bits_inj'. intros i Hi. rewrite Z.land_spec, testbit_mask by lia.
    destruct (Z.eqb_spec i d) as [->|Hne]; destruct (Z.testbit s d) eqn:E;
      rewrite ?andb_true_r, ?andb_false_r, ?Z.bits_0, ?testbit_mask by lia; try done.
    - symmetry. by apply Z.eqb_eq.
    - symmetry. by apply Z.eqb_neq. }
  destruct (Z.testbit s d); [|done]. apply Z.eqb_neq. intros E.
  pose proof (testbit_mask d d Hd ltac:(lia)) as Hb. rewrite E, Z.bits_0, Z.eqb_refl in Hb. done.
Qed.

Lemma is_u_bits w s : 0 <= w -> 0 <= s -> (forall i, w <= i -> Z.testbit s i = false) -> is_u w s.
Proof.
  intros Hw Hs Hb. split; [done|]. destruct (Z.eq_dec s 0) as [->|Hne]; [by apply Z.pow_pos_nonneg|].
  apply Z.log2_lt_pow2; [lia|]. destruct (Z.lt_ge_cases (Z.log2 s) w); [done|].
  specialize (Hb (Z.log2 s) ltac:(done)). rewrite Z.bit_log2 in Hb by lia. done.
Qed.

Lemma bits_above s i : is_u 64 s -> 64 <= i -> Z.testbit s i = false.
Proof.
  intros [? ?] ?. destruct (Z.eq_dec s 0) as [->|]; [apply Z.bits_0|].
  apply Z.bits_above_log2; [done|]. assert (Z.log2 s < 64) by (apply Z.log2_lt_pow2; lia). lia.
Qed.

Lemma lor_u64 a b : is_u 64 a -> is_u 64 b -> is_u 64 (Z.lor a b).
Proof.
  intros Ha Hb. apply is_u_bits; [lia|apply Z.lor_nonneg; unfold is_u in *; lia|].
  intros i Hi. by rewrite Z.lor_spec, !bits_above.
Qed.

Lemma shifted_bit s n d : is_u 64 s -> 0 < n < 64 -> 0 <= d < 64 ->
  Z.testbit (Z.lor (u64 (Z.shiftl s n)) 1) d = if d =? 0 then true else if d <? n then false else Z.testbit s (d - n).
Proof.
  intros Hs Hn Hd. unfold u64. rewrite Z.lor_spec, testbit_1, Z.mod_pow2_bits_low, Z.shiftl_spec by lia.
  destruct (Z.eqb_spec d 0); [by rewrite orb_true_r|]. rewrite orb_false_r.
  destruct (Z.ltb_spec d n); [|done]. apply Z.testbit_neg_r. lia.
Qed.

Lemma max_seq_cons x acc : max_seq (x :: acc) = Z.max x (max_seq acc).
Proof. done. Qed.

(** The bitmap of a window whose newest number is [x]: bit 0 and the old
    numbers, shifted. *)
Lemma simulates_newest acc x s :
  Forall (fun y => 0 < y < 2 ^ 64) acc -> is_u 64 x -> max_seq acc < x -> is_u 64 s ->
  (forall d, 0 <= d < 64 -> Z.testbit s d = (d =? 0) || bool_decide (x - d ∈ acc)) ->
  simulates (x :: acc) (mkWindow x s).
Proof.
  intros Hpos Hx Hmax Hs Hbits. pose proof (max_seq_nonneg acc). constructor; cbn.
  - constructor; [unfold is_u in Hx; lia|done].
  - rewrite max_seq_cons. lia.
  - done.
  - intros d Hd. rewrite (Hbits d Hd). destruct (Z.eqb_spec d 0) as [->|Hne]; cbn.
    + symmetry. apply bool_decide_true. rewrite Z.sub_0_r. by left.
    + apply bool_decide_ext. rewrite elem_of_cons. intuition lia.
Qed.

Lemma not_in_above acc y : max_seq acc < y -> y ∉ acc.
Proof. intros ? Hin. apply max_seq_ge in Hin. lia. Qed.

Lemma simulates_advance acc x w :
  simulates acc w -> is_u 64 x -> highest w <> 0 -> highest w < x ->
  simulates (x :: acc)
    (mkWindow x (if 64 <=? u64 (x - highest w) then 1
                 else Z.lor (u64 (Z.shiftl (seen w) (u64 (x - highest w)))) 1)).
Proof.
  intros [Hpos Hh Hsr Hs] Hx Hne Hlt. pose proof (max_seq_nonneg acc). unfold is_u in Hx.
  assert (is_u 64 1) as H1 by (unfold is_u; lia).
  rewrite u64_small by (unfold is_u; lia).
  destruct (Z.leb_spec 64 (x - highest w)) as [Hbig|Hsmall].
  - apply simulates_newest; try done; [lia|]. intros d Hd. rewrite testbit_1 by lia.
    rewrite bool_decide_false by (apply not_in_above; lia). by rewrite orb_false_r.
  - apply simulates_newest; try done; [lia| |].
    { apply lor_u64; [|done]. by apply is_u_mod. }
    intros d Hd. rewrite shifted_bit by (done || lia).
    destruct (Z.eqb_spec d 0); [done|]. cbn.
    destruct (Z.ltb_spec d (x - highest w)).
    + symmetry. apply bool_decide_false. apply not_in_above. lia.
    + rewrite Hs by lia. apply bool_decide_ext. by replace (highest w - (d - (x - highest w))) with (x - d) by lia.
Qed.

Lemma simulates_late acc x w :
  simulates acc w -> is_u 64 x -> 0 < x <= highest w -> highest w - x < 64 ->
  simulates (x :: acc) (w <| seen := Z.lor (seen w) (u64 (Z.shiftl 1 (highest w - x))) |>).
Proof.
  intros [Hpos Hh Hsr Hs] Hx Hle Hd. constructor; cbn.
  - constructor; [unfold is_u in Hx; lia|done].
  - rewrite max_seq_cons. lia.
  - apply lor_u64; [done|]. by apply is_u_mod.
  - intros d Hd'. rewrite Z.lor_spec, testbit_mask, Hs by lia.
    rewrite (bool_decide_ext (highest w - d ∈ x :: acc) (highest w - d = x \/ highest w - d ∈ acc))
      by (by rewrite elem_of_cons).
    rewrite bool_decide_or, orb_comm. f_equal.
    destruct (Z.eqb_spec d (highest w - x)); symmetry; [apply bool_decide_true|apply bool_decide_false]; lia.
Qed.

Lemma Accept_simulates acc x w :
  simulates acc w -> is_u 64 x ->
  fst (Accept x w) = spec_accept acc x /\
  simulates (if spec_accept acc x then x :: acc else acc) (snd (Accept x w)).
Proof.
  intros Hsim Hx. pose proof Hsim as [Hpos Hh Hsr Hs]. unfold Accept, spec_accept.
  destruct (Z.eqb_spec x 0) as [->|Hx0]; [done|]. cbn [negb andb]. unfold is_u in Hx.
  destruct (Z.eqb_spec (highest w) 0) as [E|Hne].
  { assert (acc = []) as ->.
    { destruct acc as [|y acc]; [done|]. apply Forall_cons in Hpos as [? _].
      pose proof (max_seq_ge (y :: acc) y ltac:(by left)). lia. }
    rewrite bool_decide_false by apply not_elem_of_nil. cbn. rewrite (proj2 (Z.ltb_lt _ _)) by lia.
    split; [done|]. apply (simulates_newest [] x 1); cbn; try done; try (unfold is_u; lia).
    intros d Hd. rewrite testbit_1 by lia. rewrite bool_decide_false by apply not_elem_of_nil.
    by rewrite orb_false_r. }
  destruct (Z.ltb_spec (highest w) x) as [Hlt|Hle].
  { rewrite bool_decide_false by (apply not_in_above; lia). rewrite (proj2 (Z.ltb_lt _ _)) by lia.
    split; [done|]. pose proof (simulates_advance acc x w Hsim Hx Hne Hlt) as Hadv.
    cbv zeta. by destruct (64 <=? u64 (x - highest w)). }
  assert (highest w < 2 ^ 64) as Hhr.
  { rewrite Hh. pose proof (max_seq_in acc ltac:(congruence)) as Hin.
    rewrite Forall_forall in Hpos. apply Hpos in Hin. lia. }
  rewrite u64_small by (unfold is_u; lia). cbv zeta.
  destruct (Z.leb_spec 64 (highest w - x)) as [Hbig|Hsmall].
  { rewrite (proj2 (Z.ltb_ge _ _)) by lia. by rewrite andb_false_r. }
  rewrite (proj2 (Z.ltb_lt _ _)) by lia. rewrite andb_true_r, land_mask_zero, negb_involutive, Hs by lia.
  replace (highest w - (highest w - x)) with x by lia.
  destruct (bool_decide (x ∈ acc)); cbn [negb fst snd]; split; try done.
  apply simulates_late; done || lia.
Qed.

Lemma accept_all_spec xs : forall acc w,
  simulates acc w -> Forall (is_u 64) xs -> accept_all xs w = spec_all xs acc.
Proof.
  induction xs as [|x xs IH]; intros acc w Hsim Hxs; [done|]. apply Forall_cons in Hxs as [Hx Hxs].
  destruct (Accept_simulates acc x w Hsim Hx) as [E Hsim']. cbn.
  destruct (Accept x w) as [b w']. cbn in *. subst b. f_equal. by apply IH.
Qed.

Lemma spec_all_passed xs : forall acc,
  NoDup (passed xs (spec_all xs acc)) /\ Forall (fun x => (x ∉ acc) /\ x <> 0) (passed xs (spec_all xs acc)).
Proof.
  induction xs as [|x xs IH]; intros acc; cbn; [by split; constructor|].
  destruct (spec_accept acc x) eqn:E; [|apply IH]. destruct (IH (x :: acc)) as [Hnd Hf].
  unfold spec_accept in E. rewrite !andb_true_iff, !negb_true_iff, bool_decide_eq_false, Z.eqb_neq in E.
  rewrite Forall_forall in Hf. split.
  - constructor; [|done]. intros Hin. apply Hf in Hin as [Hin _]. apply Hin. by left.
  - constructor; [tauto|]. apply Forall_forall. intros y Hy. apply Hf in Hy as [Hy ?].
    split; [|done]. intros ?. apply Hy. by right.
Qed.

(** C8: the 64-bit bitmap answers every packet exactly as a receiver that
    remembers all accepted numbers would: a number is accepted iff it is
    positive, was never accepted before and is not 64 or more behind the
    newest accepted one. So no number passes twice, for any arrival order. *)
Theorem window_refines_spec (xs : list Z) :
  Forall (is_u 64) xs ->
  accept_all xs window0 = spec_all xs [] /\ NoDup (passed xs (accept_all xs window0)).
Proof.
  intros H. rewrite (accept_all_spec xs [] window0 simulates_empty H). split; [done|].
  apply spec_all_passed.
Qed.

Lemma window_refines_spec_witness :
  let xs := [5; 3; 5; 70; 6; 7; 3; 2 ^ 64 - 1; 70] in
  accept_all xs window0 = spec_all xs [] /\
  accept_all xs window0 = [true; true; false; true; false; true; false; true; false].
Proof.
  intros xs. split; [|vm_compute; reflexivity].
  refine (proj1 (window_refines_spec xs _)). repeat constructor; unfold is_u; lia.
Defined.

End SeqWindow.
