(* ===== verification/Padding.v ===== *)
(** * Padding of small packets (padding/padding.go)

    The classifier that pads small IP packets to one size for the tunnel and
    takes the padding off again.  A buffer is a list of bytes; [n] is the number
    of bytes of it that are valid.  The counters are 64-bit and wrap. *)

From S2P Require Import Prelude.

Module Padding.

Definition OptimalPaddedSize : Z := 768.
Definition PaddingThreshold : Z := 256.
Definition PaddingMarker : Z := 255.

Definition safePacketLength (buf : bytes) (n : Z) : Z * bool :=
  if n <? 0 then (0, false) else
  if len buf <? n then (len buf, false) else (n, true).

Record Stats := mkStats {
  ICMP : Z;
  DNS : Z;
  TCPCtrl : Z;
  TCPData : Z;
  UDPSmall : Z;
  UDPLarge : Z;
  Padded : Z
}.

Record Classifier := mkClassifier {
  enabled : bool;
  stats : Stats
}.

Definition NewClassifier (on : bool) : Classifier := mkClassifier on (mkStats 0 0 0 0 0 0 0).
Definition IsEnabled (c : Classifier) : bool := enabled c.
Definition GetStats (c : Classifier) : Stats := stats c.

Definition count_icmp (s : Stats) : Stats := mkStats (u64 (ICMP s + 1)) (DNS s) (TCPCtrl s) (TCPData s) (UDPSmall s) (UDPLarge s) (Padded s).
Definition count_dns (s : Stats) : Stats := mkStats (ICMP s) (u64 (DNS s + 1)) (TCPCtrl s) (TCPData s) (UDPSmall s) (UDPLarge s) (Padded s).
Definition count_tcp_ctrl (s : Stats) : Stats := mkStats (ICMP s) (DNS s) (u64 (TCPCtrl s + 1)) (TCPData s) (UDPSmall s) (UDPLarge s) (Padded s).
Definition count_tcp_data (s : Stats) : Stats := mkStats (ICMP s) (DNS s) (TCPCtrl s) (u64 (TCPData s + 1)) (UDPSmall s) (UDPLarge s) (Padded s).
Definition count_udp_small (s : Stats) : Stats := mkStats (ICMP s) (DNS s) (TCPCtrl s) (TCPData s) (u64 (UDPSmall s + 1)) (UDPLarge s) (Padded s).
Definition count_udp_large (s : Stats) : Stats := mkStats (ICMP s) (DNS s) (TCPCtrl s) (TCPData s) (UDPSmall s) (u64 (UDPLarge s + 1)) (Padded s).
Definition count_padded (s : Stats) : Stats := mkStats (ICMP s) (DNS s) (TCPCtrl s) (TCPData s) (UDPSmall s) (UDPLarge s) (u64 (Padded s + 1)).

(** [buf[i]]; the code has checked that the index is valid. *)
Definition at_ (buf : bytes) (i : Z) : Z := nth (Z.to_nat i) buf 0.
(** [int(buf[i])<<8 | int(buf[i+1])]. *)
Definition word (buf : bytes) (i : Z) : Z := Z.lor (Z.shiftl (at_ buf i) 8) (at_ buf (i + 1)).

(** The header of a packet of [n] bytes: version, total length, protocol. *)
Definition header (buf : bytes) (n : Z) : option (Z * Z * Z) :=
  let ipVersion := Z.shiftr (at_ buf 0) 4 in
  if ipVersion =? 4 then
    if n <? 20 then None else Some (ipVersion, word buf 2, at_ buf 9)
  else if ipVersion =? 6 then
    if n <? 40 then None else Some (ipVersion, 40 + word buf 4, at_ buf 6)
  else None.

(** Whether the packet is to be padded, and the counters after it was classified. *)
Definition classify (s : Stats) (buf : bytes) (n ipVersion total protocol : Z) : bool * Stats :=
  let offset := if ipVersion =? 6 then 40 else 20 in
  if (protocol =? 1) || (protocol =? 58) then (total <? PaddingThreshold, count_icmp s) else
  if protocol =? 6 then
    if offset + 14 <=? n then
      let flags := at_ buf (offset + 13) in
      if negb (Z.land flags 2 =? 0) || negb (Z.land flags 1 =? 0) || negb (Z.land flags 4 =? 0)
      then (n <? PaddingThreshold, count_tcp_ctrl s)
      else (n <? PaddingThreshold, count_tcp_data s)
    else (false, s)
  else if protocol =? 17 then
    if offset + 8 <=? n then
      if (word buf offset =? 53) || (word buf (offset + 2) =? 53) then (true, count_dns s) else
      if n <? PaddingThreshold then (true, count_udp_small s) else (false, count_udp_large s)
    else (false, s)
  else (false, s).

(** The padded buffer: the packet, its length, the marker, zeros. *)
Definition pad (buf : bytes) (n : Z) : bytes :=
  take (Z.to_nat n) buf ++ be_put 2 n ++ [PaddingMarker] ++ repeat 0 (Z.to_nat (OptimalPaddedSize - n - 3)).

Definition ClassifyAndPad (c : Classifier) (buf : bytes) (n : Z) : bytes * Z * bool * Classifier :=
  let (n, valid) := safePacketLength buf n in
  if negb (enabled c) then (buf, n, false, c) else
  if negb valid || (n =? 0) then (buf, n, false, c) else
  if (OptimalPaddedSize <=? n) || (OptimalPaddedSize <=? n + 2) then (buf, n, false, c) else
  match header buf n with
  | None => (buf, n, false, c)
  | Some (ipVersion, total, protocol) =>
    if negb (total =? n) then (buf, n, false, c) else
    let (needsPadding, st) := classify (stats c) buf n ipVersion total protocol in
    if negb needsPadding then (buf, n, false, mkClassifier (enabled c) st) else
    (pad buf n, OptimalPaddedSize, true, mkClassifier (enabled c) (count_padded st))
  end.

Definition Unpad (c : Classifier) (data : bytes) : bytes * Z :=
  let n := len data in
  if negb (enabled c) then (data, n) else
  if negb (n =? OptimalPaddedSize) || (n <? 20) then (data, n) else
  match header data n with
  | None => (data, n)
  | Some (ipVersion, total, _) =>
    let minSize := if ipVersion =? 6 then 40 else 20 in
    if (minSize <=? total) && (total <? OptimalPaddedSize - 2) then
      if at_ data (total + 2) =? PaddingMarker then
        let storedSize := be_get (slice data (Z.to_nat total) (Z.to_nat (total + 2))) in
        if storedSize =? total then (data, total) else (data, n)
      else (data, n)
    else (data, n)
  end.

(** ** Round trip *)

Lemma at_app_l a b i : 0 <= i < len a -> at_ (a ++ b) i = at_ a i.
Proof. intros Hi. unfold at_. apply app_nth1. unfold len in Hi. lia. Qed.

Lemma at_take buf n i : 0 <= i < n -> n <= len buf -> at_ (take (Z.to_nat n) buf) i = at_ buf i.
Proof.
  intros Hi Hn. rewrite <- (take_drop (Z.to_nat n) buf) at 2. rewrite at_app_l; [done|]. unfold len in *. rewrite length_take. lia.
Qed.

Lemma at_pad buf n i : 0 <= i < n -> n <= len buf -> at_ (pad buf n) i = at_ buf i.
Proof.
  intros Hi Hn. unfold pad. rewrite at_app_l, at_take by (try done; unfold len in *; rewrite ?length_take; lia). done.
Qed.

Lemma len_pad buf n : 0 <= n -> n <= len buf -> n + 2 < OptimalPaddedSize -> len (pad buf n) = OptimalPaddedSize.
Proof.
  intros H0 Hn Hb. unfold pad, OptimalPaddedSize in *. unfold len in *. rewrite !length_app, be_put_length, length_take, repeat_length. cbn [length]. lia.
Qed.

(** The header of a padded packet is the packet's. *)
Lemma header_pad buf n v t p : header buf n = Some (v, t, p) -> 0 < n -> n <= len buf -> n + 2 < OptimalPaddedSize ->
  header (pad buf n) OptimalPaddedSize = Some (v, t, p) /\ (if v =? 6 then 40 else 20) <= n.
Proof.
  unfold header, word. intros H H0 Hn Hb. unfold OptimalPaddedSize in *.
  rewrite (at_pad buf n 0) by lia. destruct (Z.eqb_spec (Z.shiftr (at_ buf 0) 4) 4) as [E|_].
  - destruct (Z.ltb_spec n 20); [done|]. injection H as <- <- <-. rewrite !at_pad by lia. rewrite E. split; [done|cbn; lia].
  - destruct (Z.eqb_spec (Z.shiftr (at_ buf 0) 4) 6) as [E|_]; [|done]. destruct (Z.ltb_spec n 40); [done|].
    injection H as <- <- <-. rewrite !at_pad by lia. rewrite E. split; [done|cbn; lia].
Qed.

Lemma unpad_padded c buf n v p : enabled c = true -> header buf n = Some (v, n, p) -> 0 < n -> n <= len buf -> n + 2 < OptimalPaddedSize ->
  Unpad c (pad buf n) = (pad buf n, n).
Proof.
  intros Hc Hh H0 Hn Hb. destruct (header_pad buf n v n p Hh H0 Hn Hb) as [Hp Hmin]. unfold Unpad. rewrite len_pad by lia. rewrite Hc. cbn [negb].
  rewrite Z.eqb_refl. cbn [negb orb]. change (OptimalPaddedSize <? 20) with false. cbv iota. rewrite Hp.
  replace ((if v =? 6 then 40 else 20) <=? n) with true by lia. replace (n <? OptimalPaddedSize - 2) with true by (unfold OptimalPaddedSize in *; lia). cbn [andb].
  assert (length (take (Z.to_nat n) buf) = Z.to_nat n) as Hl by (unfold len in Hn; rewrite length_take; lia).
  assert (at_ (pad buf n) (n + 2) = PaddingMarker) as ->.
  { unfold at_, pad. rewrite app_assoc, app_nth2; rewrite length_app, be_put_length, Hl; [|lia]. by replace (Z.to_nat (n + 2) - (Z.to_nat n + 2))%nat with O by lia. }
  rewrite Z.eqb_refl. unfold slice, pad. rewrite drop_app_length' by (by rewrite Hl).
  replace (Z.to_nat (n + 2) - Z.to_nat n)%nat with 2%nat by lia. rewrite take_app_length' by (by rewrite be_put_length).
  rewrite be_get_put, Z.mod_small by (unfold OptimalPaddedSize in *; cbn; lia). by rewrite Z.eqb_refl.
Qed.

Lemma header_take buf n : 0 <= n <= len buf -> 40 <= n -> header (take (Z.to_nat n) buf) n = header buf n.
Proof. intros Hn H40. unfold header, word. rewrite !at_take by lia. done. Qed.

(** C38: padding never changes a packet.  What leaves the classifier, cut to the
    length it reports, comes out of the unpadding at the other end as exactly the
    packet that went in, whether it was padded or not and whatever was counted on
    the way; a padded packet has the one size the tunnel wants.  Only a buffer of
    768 bytes whose header announces another length could be misread. *)
Theorem padding_transparent (c c' : Classifier) (buf : bytes) (n : Z) :
  enabled c = enabled c' -> 0 <= n <= len buf ->
  (n = OptimalPaddedSize -> forall v t p, header buf n = Some (v, t, p) -> t = n) ->
  let '(out, m, padded, _) := ClassifyAndPad c buf n in
  let '(data, k) := Unpad c' (take (Z.to_nat m) out) in
  take (Z.to_nat k) data = take (Z.to_nat n) buf /\ k = n /\ (padded = true -> m = OptimalPaddedSize /\ len out = m).
Proof.
  intros Hc Hn Hdecl.
  assert (let '(data, k) := Unpad c' (take (Z.to_nat n) buf) in
    take (Z.to_nat k) data = take (Z.to_nat n) buf /\ k = n /\ (false = true -> n = OptimalPaddedSize /\ len buf = n)) as Hsame.
  { assert (len (take (Z.to_nat n) buf) = n) as Hl by (unfold len in *; rewrite length_take; lia).
    assert (Unpad c' (take (Z.to_nat n) buf) = (take (Z.to_nat n) buf, n)) as ->.
    { unfold Unpad. rewrite Hl. destruct (negb (enabled c')); [done|]. destruct (Z.eqb_spec n OptimalPaddedSize) as [E|]; [|done]. cbn [negb orb].
      destruct (n <? 20); [done|]. rewrite header_take by (unfold OptimalPaddedSize in *; lia). destruct (header buf n) as [[[v t] p]|] eqn:Eh; [|done].
      rewrite (Hdecl E v t p eq_refl), E. change (OptimalPaddedSize <? OptimalPaddedSize - 2) with false. by rewrite andb_false_r. }
    split; [by rewrite take_take, Nat.min_id|]. done. }
  unfold ClassifyAndPad, safePacketLength. replace (n <? 0) with false by lia. replace (len buf <? n) with false by lia. cbn [negb orb].
  destruct (negb (enabled c)) eqn:Ec; [by apply Hsame|]. destruct (Z.eqb_spec n 0); [by apply Hsame|].
  destruct (Z.leb_spec OptimalPaddedSize (n + 2)) as [|Hb]; [rewrite orb_true_r; by apply Hsame|].
  destruct (Z.leb_spec OptimalPaddedSize n); [by apply Hsame|]. cbn [orb].
  destruct (header buf n) as [[[v t] p]|] eqn:Eh; [|by apply Hsame]. destruct (Z.eqb_spec t n) as [->|]; [|by apply Hsame]. cbn [negb].
  destruct (classify (stats c) buf n v n p) as [[] st]; [|by apply Hsame]. cbn [negb].
  assert (length (pad buf n) = Z.to_nat OptimalPaddedSize) as Hlp by (pose proof (len_pad buf n ltac:(lia) ltac:(lia) Hb) as E; unfold len in E; lia).
  rewrite take_ge by (rewrite Hlp; done). rewrite (unpad_padded c' buf n v p); [| |done|lia|lia|done].
  - split; [|split; [done|]]; [|intros _; split; [done|unfold len; rewrite Hlp; done]].
    unfold pad. apply take_app_length'. unfold len in Hn. rewrite length_take. lia.
  - rewrite <- Hc. by destruct (enabled c).
Qed.

Definition echo_request : bytes := [69; 0; 0; 28; 0; 1; 0; 0; 64; 1; 0; 0; 10; 0; 0; 1; 10; 0; 0; 2; 8; 0; 0; 0; 0; 1; 0; 1].

Lemma padding_transparent_witness :
  let '(out, m, padded, c) := ClassifyAndPad (NewClassifier true) echo_request 28 in
  let '(data, k) := Unpad (NewClassifier true) (take (Z.to_nat m) out) in
  padded = true /\ ICMP (stats c) = 1 /\ k = 28 /\ take (Z.to_nat k) data = echo_request.
Proof.
  pose proof (padding_transparent (NewClassifier true) (NewClassifier true) echo_request 28 eq_refl ltac:(vm_compute; split; discriminate) ltac:(discriminate)) as H.
  destruct (ClassifyAndPad (NewClassifier true) echo_request 28) as [[[out m] padded] c] eqn:E.
  assert (padded = true /\ ICMP (stats c) = 1) as [-> Hi] by (vm_compute in E; injection E as _ _ <- <-; split; reflexivity).
  destruct (Unpad (NewClassifier true) (take (Z.to_nat m) out)) as [data k]. destruct H as (H1 & -> & _). split; [done|]. split; [done|]. split; [done|]. exact H1.
Defined.

End Padding.
