(* ===== verification/GoStrings.v ===== *)
(** * Go strings: UTF-8, TrimSpace, ToLower, hex (strings, unicode/utf8, encoding/hex)

    The parts of Go's standard library that the modelled packages use on
    strings. A Go string is its bytes; [range] over a string decodes runes,
    an invalid byte counting as U+FFFD of width one. The case table of
    [unicode.ToLower] outside ASCII is the one thing left abstract: a
    [UnicodeTables] instance supplies it. *)

From S2P Require Import Prelude.

Module GoStrings.

(** ** Runes *)

Definition RuneError : Z := 65533.

(** [utf8.DecodeRune]: the first rune and its width; [(RuneError, 1)] for an
    invalid sequence, following the accept ranges of the UTF-8 tables (no
    overlong form, no surrogate, nothing above U+10FFFF). *)
Definition is_cont (b : Z) : bool := (128 <=? b) && (b <=? 191).

Definition accept_lo (b0 : Z) : Z :=
  if b0 =? 224 then 160 else if b0 =? 240 then 144 else 128.
Definition accept_hi (b0 : Z) : Z :=
  if b0 =? 237 then 159 else if b0 =? 244 then 143 else 191.

Definition bits6 (b : Z) : Z := b - 128.

Definition decode_rune (s : bytes) : Z * nat :=
  match s with
  | [] => (RuneError, 0%nat)
  | b0 :: r =>
    if b0 <? 128 then (b0, 1%nat) else
    if (b0 <? 194) || (244 <? b0) then (RuneError, 1%nat) else
    match r with
    | [] => (RuneError, 1%nat)
    | b1 :: r1 =>
      if (b1 <? accept_lo b0) || (accept_hi b0 <? b1) then (RuneError, 1%nat) else
      if b0 <? 224 then ((b0 - 192) * 64 + bits6 b1, 2%nat) else
      match r1 with
      | [] => (RuneError, 1%nat)
      | b2 :: r2 =>
        if negb (is_cont b2) then (RuneError, 1%nat) else
        if b0 <? 240 then ((b0 - 224) * 4096 + bits6 b1 * 64 + bits6 b2, 3%nat) else
        match r2 with
        | [] => (RuneError, 1%nat)
        | b3 :: _ =>
          if negb (is_cont b3) then (RuneError, 1%nat)
          else ((b0 - 240) * 262144 + bits6 b1 * 4096 + bits6 b2 * 64 + bits6 b3, 4%nat)
        end
      end
    end
  end.

(** [utf8.AppendRune] (surrogates and out-of-range values become U+FFFD). *)
Definition encode_rune (r : Z) : bytes :=
  let r := if (r <? 0) || (1114111 <? r) || ((55296 <=? r) && (r <=? 57343)) then RuneError else r in
  if r <? 128 then [r] else
  if r <? 2048 then [192 + r / 64; 128 + r mod 64] else
  if r <? 65536 then [224 + r / 4096; 128 + (r / 64) mod 64; 128 + r mod 64] else
  [240 + r / 262144; 128 + (r / 4096) mod 64; 128 + (r / 64) mod 64; 128 + r mod 64].

(** [for _, r := range s]: the runes of a string. Every rune consumes at
    least one byte, so the length is enough fuel. *)
Fixpoint runes_fuel (fuel : nat) (s : bytes) : list Z :=
  match fuel, s with
  | S f, _ :: _ => let '(r, w) := decode_rune s in r :: runes_fuel f (drop w s)
  | _, _ => []
  end.
Definition runes (s : bytes) : list Z := runes_fuel (length s) s.

(** [unicode.IsSpace] and [unicode.IsControl]. *)
Definition IsSpace (r : Z) : bool :=
  ((9 <=? r) && (r <=? 13)) || (r =? 32) || (r =? 133) || (r =? 160) || (r =? 5760) ||
  ((8192 <=? r) && (r <=? 8202)) || (r =? 8232) || (r =? 8233) || (r =? 8239) || (r =? 8287) || (r =? 12288).
Definition IsControl (r : Z) : bool :=
  ((0 <=? r) && (r <=? 31)) || ((127 <=? r) && (r <=? 159)).

(** ** TrimSpace

    A space at either end is one of the UTF-8 encodings of [IsSpace]: one
    byte, U+0085 and U+00A0 in two, the others in three. A lead byte is never
    a continuation byte, so the decoder meets such a sequence exactly where
    these bytes stand. *)
Definition space1 (a : Z) : bool := ((9 <=? a) && (a <=? 13)) || (a =? 32).
Definition space2 (a b : Z) : bool := (a =? 194) && ((b =? 133) || (b =? 160)).
Definition space3 (a b c : Z) : bool :=
  ((a =? 225) && (b =? 154) && (c =? 128)) ||
  ((a =? 226) && (b =? 128) && (((128 <=? c) && (c <=? 138)) || (c =? 168) || (c =? 169) || (c =? 175))) ||
  ((a =? 226) && (b =? 129) && (c =? 159)) ||
  ((a =? 227) && (b =? 128) && (c =? 128)).

(** The number of bytes of the space the string starts with, 0 if none;
    [space_tail] reads the reversed string. *)
Definition space_head (s : bytes) : nat :=
  match s with
  | a :: r =>
    if space1 a then 1 else
    match r with
    | b :: r' =>
      if space2 a b then 2 else
      match r' with
      | c :: _ => if space3 a b c then 3 else 0
      | [] => 0
      end
    | [] => 0
    end
  | [] => 0
  end%nat.

Definition space_tail (s : bytes) : nat :=
  match s with
  | a :: r =>
    if space1 a then 1 else
    match r with
    | b :: r' =>
      if space2 b a then 2 else
      match r' with
      | c :: _ => if space3 c b a then 3 else 0
      | [] => 0
      end
    | [] => 0
    end
  | [] => 0
  end%nat.

Fixpoint strip (head : bytes -> nat) (fuel : nat) (s : bytes) : bytes :=
  match fuel with
  | O => s
  | S f => match head s with O => s | n => strip head f (drop n s) end
  end.

Definition trim_left (s : bytes) : bytes := strip space_head (length s) s.
Definition trim_right (s : bytes) : bytes := rev (strip space_tail (length s) (rev s)).
Definition TrimSpace (s : bytes) : bytes := trim_right (trim_left s).

(** ** ToLower *)

(** Go's [unicode.ToLower] on runes outside ASCII. *)
Class UnicodeTables : Type := { rune_lower : Z -> Z }.

Definition ascii_lower (b : Z) : Z := if (65 <=? b) && (b <=? 90) then b + 32 else b.
Definition is_ascii (s : bytes) : bool := forallb (fun b => b <? 128) s.

Definition ToLower `{UnicodeTables} (s : bytes) : bytes :=
  if is_ascii s then ascii_lower <$> s
  else concat ((fun r => encode_rune (if r <? 128 then ascii_lower r else rune_lower r)) <$> runes s).

(** The tables restricted to Latin-1, for evaluation. *)
#[local] Instance latin1_tables : UnicodeTables :=
  {| rune_lower r := if (192 <=? r) && (r <=? 222) && negb (r =? 215) then r + 32 else r |}.

(** ** Order, hex, membership *)

(** Go's [<] on strings: bytewise lexicographic. *)
Fixpoint str_ltb (a b : bytes) : bool :=
  match a, b with
  | _, [] => false
  | [], _ :: _ => true
  | x :: a', y :: b' => (x <? y) || ((x =? y) && str_ltb a' b')
  end.

Definition str_eqb (a b : bytes) : bool := bool_decide (a = b).

Definition hex_digit (n : Z) : Z := if n <? 10 then 48 + n else 87 + n.
Definition hex_encode (b : bytes) : bytes := concat ((fun x => [hex_digit (x / 16); hex_digit (x mod 16)]) <$> b).

Definition from_hex (c : Z) : option Z :=
  if (48 <=? c) && (c <=? 57) then Some (c - 48) else
  if (97 <=? c) && (c <=? 102) then Some (c - 87) else
  if (65 <=? c) && (c <=? 70) then Some (c - 55) else None.

(** [hex.DecodeString]; [None] stands for its error. *)
Fixpoint hex_decode (s : bytes) : option bytes :=
  match s with
  | [] => Some []
  | [_] => None
  | a :: b :: r =>
    match from_hex a, from_hex b, hex_decode r with
    | Some x, Some y, Some l => Some (x * 16 + y :: l)
    | _, _, _ => None
    end
  end.

(** [indexOf]-style search used all over the code: first position or -1. *)
Fixpoint index_from (i : Z) (values : list bytes) (want : bytes) : Z :=
  match values with
  | [] => -1
  | v :: r => if str_eqb v want then i else index_from (i + 1) r want
  end.

(** ** sort.Slice, sort.Strings

    Insertion in order, as Go's sort does below thirteen elements; above that
    only the order of equal elements may differ. *)
Section Sort.
Context {A : Type} (less : A -> A -> bool).

Fixpoint insert_sorted (x : A) (l : list A) : list A :=
  match l with
  | [] => [x]
  | y :: r => if less x y then x :: y :: r else y :: insert_sorted x r
  end.

Definition sort_by (l : list A) : list A := fold_left (fun acc x => insert_sorted x acc) l [].

Lemma insert_sorted_perm x l : Permutation (insert_sorted x l) (x :: l).
Proof.
  induction l as [|y r IH]; [done|]. cbn. case_match; [done|]. rewrite IH. apply Permutation_swap.
Qed.

Lemma fold_insert_perm l acc : Permutation (fold_left (fun acc x => insert_sorted x acc) l acc) (l ++ acc).
Proof.
  revert acc. induction l as [|x l IH]; intros acc; [done|]. cbn. rewrite IH, insert_sorted_perm.
  symmetry. apply Permutation_middle.
Qed.

Lemma sort_by_perm l : Permutation (sort_by l) l.
Proof. unfold sort_by. rewrite fold_insert_perm. by rewrite app_nil_r. Qed.

Lemma elem_of_sort_by x l : x ∈ sort_by l <-> x ∈ l.
Proof. by rewrite sort_by_perm. Qed.

(** [less] is a strict weak order in every use. *)
Context (less_asym : forall x y, less x y = true -> less y x = false).
Context (nless_trans : forall x y z, less y x = false -> less z y = false -> less z x = false).

(** No later element is less than an earlier one. *)
Definition in_order : list A -> Prop := StronglySorted (fun x y => less y x = false).

Lemma insert_sorted_in_order x l : in_order l -> in_order (insert_sorted x l).
Proof.
  induction 1 as [|y r Hr IH Hy]; [by repeat constructor|]. cbn.
  destruct (less x y) eqn:E.
  - constructor; [by constructor|]. constructor; [by apply less_asym|].
    eapply Forall_impl; [exact Hy|]. intros z Hz. cbn in *. eapply nless_trans; [|exact Hz]. by apply less_asym.
  - constructor; [done|]. apply Forall_forall. intros z Hz. rewrite insert_sorted_perm in Hz.
    apply elem_of_cons in Hz as [->|Hz]; [done|]. rewrite Forall_forall in Hy. by apply Hy.
Qed.

Lemma sort_by_in_order l : in_order (sort_by l).
Proof.
  unfold sort_by. assert (in_order []) as H by constructor. revert H. generalize (@nil A).
  induction l as [|x l IH]; intros acc H; [done|]. cbn. apply IH. by apply insert_sorted_in_order.
Qed.

Lemma sort_by_head l x r : sort_by l = x :: r -> x ∈ l /\ forall y, y ∈ l -> less y x = false.
Proof.
  intros E. pose proof (sort_by_in_order l) as H. rewrite E in H. inversion H as [|? ? _ Hx]; subst.
  split; [rewrite <- elem_of_sort_by, E; by left|]. intros y Hy. rewrite <- elem_of_sort_by, E in Hy.
  apply elem_of_cons in Hy as [->|Hy]; [|rewrite Forall_forall in Hx; by apply Hx].
  destruct (less x x) eqn:Ex; [|done]. pose proof (less_asym _ _ Ex). congruence.
Qed.

End Sort.

Lemma sort_by_nil {A} (less : A -> A -> bool) l : sort_by less l = [] -> l = [].
Proof. intros E. pose proof (sort_by_perm less l) as H. rewrite E in H. by apply Permutation_nil_l in H. Qed.

(** ** Lemmas on TrimSpace *)

Lemma strip_spec head fuel s :
  head [] = 0%nat -> (forall s, head s <= length s)%nat -> (length s <= fuel)%nat ->
  head (strip head fuel s) = 0%nat /\ exists k, strip head fuel s = drop k s.
Proof.
  intros Hnil Hle. revert s. induction fuel as [|f IH]; intros s Hf; cbn.
  { destruct s; cbn in *; [|lia]. split; [done|]. by exists 0%nat. }
  destruct (head s) as [|n] eqn:E; [split; [done|by exists 0%nat]|].
  destruct (IH (drop (S n) s)) as [H1 [k Hk]].
  { rewrite length_drop. pose proof (Hle s). lia. }
  split; [done|]. rewrite Hk. exists (S n + k)%nat. by rewrite drop_drop.
Qed.

Lemma strip_id head fuel s : head s = 0%nat -> strip head fuel s = s.
Proof. intros E. destruct fuel; cbn; [done|]. by rewrite E. Qed.

Lemma space_head_le s : (space_head s <= length s)%nat.
Proof. destruct s as [|a [|b [|c r]]]; cbn; repeat case_match; lia. Qed.
Lemma space_tail_le s : (space_tail s <= length s)%nat.
Proof. destruct s as [|a [|b [|c r]]]; cbn; repeat case_match; lia. Qed.

(** A string that starts with no space has no prefix that does. *)
Lemma space_head_prefix p q : space_head (p ++ q) = 0%nat -> space_head p = 0%nat.
Proof.
  destruct p as [|a [|b [|c r]]]; cbn; try done;
    repeat (match goal with |- context [if ?x then _ else _] => destruct x end; try done).
Qed.

Definition trimmed (s : bytes) : Prop := space_head s = 0%nat /\ space_tail (rev s) = 0%nat.

Lemma trimmed_TrimSpace s : trimmed s -> TrimSpace s = s.
Proof.
  intros [H1 H2]. unfold TrimSpace, trim_right, trim_left. rewrite (strip_id space_head) by done.
  rewrite strip_id by done. apply rev_involutive.
Qed.

Lemma TrimSpace_trimmed s : trimmed (TrimSpace s).
Proof.
  unfold TrimSpace, trim_right, trim_left.
  destruct (strip_spec space_head (length s) s) as [H1 _]; [done|apply space_head_le|done|].
  set (t := strip space_head (length s) s) in *.
  destruct (strip_spec space_tail (length t) (rev t)) as [H2 [k Hk]];
    [done|apply space_tail_le|by rewrite length_rev|].
  split; [|by rewrite rev_involutive].
  rewrite Hk in *. eapply space_head_prefix. rewrite <- rev_app_distr, take_drop, rev_involutive. done.
Qed.

Lemma TrimSpace_idemp s : TrimSpace (TrimSpace s) = TrimSpace s.
Proof. apply trimmed_TrimSpace, TrimSpace_trimmed. Qed.

Lemma TrimSpace_sublist s : exists k j, TrimSpace s = rev (drop j (rev (drop k s))).
Proof.
  unfold TrimSpace, trim_right, trim_left.
  destruct (strip_spec space_head (length s) s) as [_ [k Hk]]; [done|apply space_head_le|done|].
  rewrite Hk. destruct (strip_spec space_tail (length (drop k s)) (rev (drop k s))) as [_ [j Hj]];
    [done|apply space_tail_le|by rewrite length_rev|].
  exists k, j. by rewrite Hj.
Qed.

Lemma TrimSpace_Forall P s : Forall P s -> Forall P (TrimSpace s).
Proof.
  destruct (TrimSpace_sublist s) as (k & j & ->). intros Hs.
  by apply Forall_rev, Forall_drop, Forall_rev, Forall_drop.
Qed.

Lemma TrimSpace_length s : (length (TrimSpace s) <= length s)%nat.
Proof.
  destruct (TrimSpace_sublist s) as (k & j & ->).
  rewrite length_rev, length_drop, length_rev, length_drop. lia.
Qed.

(** TrimSpace commutes with a map that neither makes nor removes spaces. *)
Section TrimMap.
Context (f : Z -> Z) (Hf : forall a, f a = a \/ (33 <= a < 128 /\ 33 <= f a < 128)).

Lemma map_space1 a : space1 (f a) = space1 a.
Proof. unfold space1. destruct (Hf a) as [->|?]; [done|]. repeat rewrite ?(proj2 (Z.leb_gt (f a) 13)), ?(proj2 (Z.leb_gt a 13)), ?andb_false_r by lia. cbn. rewrite !(proj2 (Z.eqb_neq _ _)) by lia. done. Qed.

(** A byte above ASCII is compared alike before and after the map. *)
Lemma map_eqb a k : 128 <= k -> (f a =? k) = (a =? k).
Proof. intros Hk. destruct (Hf a) as [->|?]; [done|]. by rewrite !(proj2 (Z.eqb_neq _ _)) by lia. Qed.
Lemma map_leb a k : 128 <= k -> (k <=? f a) = (k <=? a).
Proof. intros Hk. destruct (Hf a) as [->|?]; [done|]. by rewrite !(proj2 (Z.leb_gt _ _)) by lia. Qed.

Lemma map_space2 a b : space2 (f a) (f b) = space2 a b.
Proof. unfold space2. by rewrite !map_eqb by lia. Qed.

Lemma map_space3 a b c : space3 (f a) (f b) (f c) = space3 a b c.
Proof.
  unfold space3. rewrite !(map_eqb a), !(map_eqb b) by lia.
  destruct (Hf c) as [->|?]; [done|]. rewrite !(map_eqb c) by lia.
  by rewrite (proj2 (Z.leb_gt 128 (f c))), (proj2 (Z.leb_gt 128 c)) by lia.
Qed.

Lemma space_head_map s : space_head (f <$> s) = space_head s.
Proof. destruct s as [|a [|b [|c r]]]; cbn; rewrite ?map_space1, ?map_space2, ?map_space3; done. Qed.
Lemma space_tail_map s : space_tail (f <$> s) = space_tail s.
Proof. destruct s as [|a [|b [|c r]]]; cbn; rewrite ?map_space1, ?map_space2, ?map_space3; done. Qed.

Lemma strip_map head fuel s : (forall s, head (f <$> s) = head s) ->
  strip head fuel (f <$> s) = f <$> strip head fuel s.
Proof.
  intros Hh. revert s. induction fuel as [|n IH]; intros s; [done|]. cbn. rewrite Hh.
  destruct (head s); [done|]. by rewrite <- IH, fmap_drop.
Qed.

Lemma fmap_rev (s : bytes) : f <$> rev s = rev (f <$> s).
Proof. induction s as [|x s IH]; [done|]. cbn. by rewrite fmap_app, IH. Qed.

Lemma TrimSpace_map s : TrimSpace (f <$> s) = f <$> TrimSpace s.
Proof.
  unfold TrimSpace, trim_right, trim_left.
  rewrite length_fmap, (strip_map space_head) by apply space_head_map.
  rewrite length_fmap, <- fmap_rev, (strip_map space_tail), fmap_rev by apply space_tail_map. done.
Qed.
End TrimMap.

(** A string of printable ASCII has nothing to trim. *)
Lemma trimmed_plain s : Forall (fun b => 33 <= b < 128) s -> trimmed s.
Proof.
  assert (forall s, Forall (fun b => 33 <= b < 128) s -> space_head s = 0%nat /\ space_tail s = 0%nat) as H.
  { intros t Ht. assert (forall a, 33 <= a < 128 -> space1 a = false /\ (forall k, 128 <= k -> (a =? k) = false)) as Ha.
    { intros a ?. unfold space1. rewrite (proj2 (Z.leb_gt a 13)), andb_false_r, (proj2 (Z.eqb_neq _ _)) by lia.
      split; [done|]. intros. apply Z.eqb_neq. lia. }
    destruct Ht as [|a r Ha' [|b r' Hb [|c r'' Hc _]]]; [done|..]; cbn; unfold space2, space3;
      repeat match goal with Hx : 33 <= ?x < 128 |- _ =>
        destruct (Ha x Hx) as [E1 E2]; rewrite ?E1, ?E2 by lia; cbn [andb orb]; clear E1 E2 Hx end; done. }
  intros Hs. split; [by apply H|]. apply H. by apply Forall_rev.
Qed.

(** ** Lemmas on runes *)

Lemma decode_rune_width s : s <> [] -> (1 <= snd (decode_rune s) <= length s)%nat.
Proof.
  destruct s as [|b0 [|b1 [|b2 [|b3 r]]]]; [done|..]; intros _; cbn -[Z.ltb Z.leb Z.mul];
    repeat (match goal with |- context [if ?x then _ else _] => destruct x end; cbn -[Z.ltb Z.leb Z.mul]); lia.
Qed.

(** The bytes of a multi-byte rune after its lead are not ASCII. *)
Lemma decode_rune_tail s x : x ∈ take (pred (snd (decode_rune s))) (tail s) -> 128 <= x.
Proof.
  assert (forall b, 128 <= accept_lo b) as Hlo by (intros b; unfold accept_lo; repeat case_match; lia).
  destruct s as [|b0 [|b1 [|b2 [|b3 r]]]]; cbn -[Z.ltb Z.leb Z.mul accept_lo accept_hi];
    try (by intros ?%elem_of_nil);
    repeat (match goal with |- context [if ?x then _ else _] => destruct x eqn:? end;
            cbn -[Z.ltb Z.leb Z.mul accept_lo accept_hi]);
    unfold is_cont in *; go_bool; rewrite ?take_0; rewrite ?elem_of_cons, ?elem_of_nil; intros Hx;
    specialize (Hlo b0); intuition lia.
Qed.

Lemma ascii_in_runes_fuel fuel s x :
  (length s <= fuel)%nat -> x < 128 -> x ∈ s -> x ∈ runes_fuel fuel s.
Proof.
  intros Hf Hx. revert s Hf. induction fuel as [|f IH]; intros s Hf Hin.
  { destruct s; [by apply elem_of_nil in Hin|cbn in Hf; lia]. }
  destruct s as [|b0 r]; [by apply elem_of_nil in Hin|]. cbn [runes_fuel].
  pose proof (decode_rune_width (b0 :: r) ltac:(done)) as Hw.
  pose proof (decode_rune_tail (b0 :: r) x) as Ht.
  destruct (decode_rune (b0 :: r)) as [c w] eqn:Ed. cbn [fst snd] in *.
  destruct w as [|w]; [lia|]. cbn [tail pred drop] in *.
  apply elem_of_cons in Hin as [->|Hin].
  - cbn -[Z.ltb] in Ed. rewrite (proj2 (Z.ltb_lt _ _)) in Ed by lia. injection Ed as -> _. by left.
  - right. rewrite <- (take_drop w r) in Hin. apply elem_of_app in Hin as [Hin|Hin].
    + apply Ht in Hin. lia.
    + apply IH; [|done]. rewrite length_drop. cbn in Hf. lia.
Qed.

Lemma ascii_in_runes s x : x < 128 -> x ∈ s -> x ∈ runes s.
Proof. intros. by apply ascii_in_runes_fuel. Qed.

(** ** Lemmas on order, hex and search *)

Lemma str_eqb_spec a b : reflect (a = b) (str_eqb a b).
Proof. unfold str_eqb. apply bool_decide_reflect. Qed.
Lemma str_eqb_refl a : str_eqb a a = true.
Proof. by apply bool_decide_true. Qed.

Lemma str_ltb_irrefl a : str_ltb a a = false.
Proof. induction a as [|x a IH]; [done|]. cbn. rewrite IH, Z.ltb_irrefl, andb_false_r. done. Qed.

Lemma str_ltb_asym a b : str_ltb a b = true -> str_ltb b a = false.
Proof.
  revert b. induction a as [|x a IH]; intros [|y b]; cbn; try done.
  rewrite orb_true_iff, andb_true_iff, Z.ltb_lt, Z.eqb_eq. intros H.
  destruct (Z.ltb_spec y x), (Z.eqb_spec y x); cbn; try lia; try done. apply IH.
  destruct H as [?|[? ?]]; [lia|done].
Qed.

Lemma str_ltb_total a b : str_ltb a b = false -> str_ltb b a = false -> a = b.
Proof.
  revert b. induction a as [|x a IH]; intros [|y b]; cbn; try done.
  destruct (Z.ltb_spec x y), (Z.ltb_spec y x), (Z.eqb_spec x y), (Z.eqb_spec y x); cbn; try done; try lia.
  intros. f_equal; [done|]. by apply IH.
Qed.

Lemma str_nltb_trans a b c : str_ltb b a = false -> str_ltb c b = false -> str_ltb c a = false.
Proof.
  revert b c. induction a as [|x a IH]; intros [|y b] [|z c]; cbn; try done.
  destruct (Z.ltb_spec y x), (Z.ltb_spec z y), (Z.ltb_spec z x), (Z.eqb_spec y x), (Z.eqb_spec z y), (Z.eqb_spec z x);
    cbn; try done; try lia. apply IH.
Qed.

Lemma index_from_spec i values want :
  (index_from i values want = -1 /\ want ∉ values) \/
  exists n, index_from i values want = i + Z.of_nat n /\ values !! n = Some want.
Proof.
  revert i. induction values as [|v r IH]; intros i; cbn; [left; split; [done|apply not_elem_of_nil]|].
  destruct (str_eqb_spec v want) as [->|Hne]; [right; exists 0%nat; split; [lia|done]|].
  destruct (IH (i + 1)) as [[E Hin]|[n [E Hn]]].
  - left. split; [done|]. apply not_elem_of_cons. split; [congruence|done].
  - right. exists (S n). split; [lia|done].
Qed.

Lemma hex_digit_from n : 0 <= n < 16 -> from_hex (hex_digit n) = Some n.
Proof.
  intros Hn. unfold hex_digit, from_hex. destruct (Z.ltb_spec n 10).
  - rewrite (proj2 (andb_true_iff _ _)) by (split; apply Z.leb_le; lia). f_equal. lia.
  - rewrite (proj2 (andb_false_iff _ _)) by (right; apply Z.leb_gt; lia).
    rewrite (proj2 (andb_true_iff _ _)) by (split; apply Z.leb_le; lia). f_equal. lia.
Qed.

Lemma hex_roundtrip b : bytes_ok b -> hex_decode (hex_encode b) = Some b.
Proof.
  induction 1 as [|x b Hx Hb IH]; [done|]. unfold is_u in Hx. cbn -[Z.div Z.modulo].
  fold (hex_encode b). rewrite IH.
  rewrite (hex_digit_from (x / 16)) by (split; [apply Z.div_pos; lia|apply Z.div_lt_upper_bound; lia]).
  rewrite (hex_digit_from (x mod 16)) by (apply Z.mod_pos_bound; lia).
  f_equal. f_equal. pose proof (Z.div_mod x 16 ltac:(lia)). lia.
Qed.

Lemma hex_encode_length b : length (hex_encode b) = (2 * length b)%nat.
Proof. induction b as [|x b IH]; [done|]. cbn. fold (hex_encode b). rewrite IH. lia. Qed.

Lemma hex_encode_inj a b : bytes_ok a -> bytes_ok b -> hex_encode a = hex_encode b -> a = b.
Proof. intros Ha Hb E. apply hex_roundtrip in Ha, Hb. rewrite E in Ha. congruence. Qed.

(** A multi-byte lead that yields a rune of width one is an invalid byte. *)
Lemma decode_rune_invalid b s : 128 <= b -> snd (decode_rune (b :: s)) = 1%nat -> fst (decode_rune (b :: s)) = RuneError.
Proof.
  intros Hb. unfold decode_rune. rewrite (proj2 (Z.ltb_ge _ _)) by lia.
  repeat (match goal with
          | |- context [if ?x then _ else _] => destruct x
          | |- context [match ?l with [] => _ | _ :: _ => _ end] => destruct l as [|? ?]
          end; cbn [fst snd]); done.
Qed.

Lemma ToLower_ascii `{UnicodeTables} s : is_ascii s = true -> ToLower s = ascii_lower <$> s.
Proof. unfold ToLower. by intros ->. Qed.

Lemma is_ascii_Forall s : is_ascii s = true <-> Forall (fun b => b < 128) s.
Proof.
  unfold is_ascii. rewrite Forall_forall, forallb_forall.
  split; intros H x Hx; specialize (H x); rewrite Z.ltb_lt in *; apply H; by apply list_elem_of_In.
Qed.

Lemma insert_sorted_last {A} (less : A -> A -> bool) x l :
  Forall (fun y => less x y = false) l -> insert_sorted less x l = l ++ [x].
Proof. induction 1 as [|y r Hy _ IH]; [done|]. cbn. by rewrite Hy, IH. Qed.

(** Sorting a list already in order changes nothing. *)
Lemma sort_by_id {A} (less : A -> A -> bool) l : in_order less l -> sort_by less l = l.
Proof.
  intros Hl. unfold sort_by. change l with ([] ++ l) in Hl |- * at 2. revert Hl. generalize (@nil A) at 1 2 3.
  induction l as [|x l IH]; intros acc Hl; cbn; [by rewrite app_nil_r|].
  rewrite insert_sorted_last.
  - rewrite IH; by rewrite <- app_assoc.
  - clear IH. induction acc as [|y acc IHa]; [constructor|]. inversion Hl as [|? ? Hs Hf]; subst.
    constructor; [|by apply IHa]. rewrite Forall_forall in Hf. apply Hf. set_solver.
Qed.

Lemma str_sort_in_order l : in_order str_ltb (sort_by str_ltb l).
Proof. apply sort_by_in_order; [apply str_ltb_asym|apply str_nltb_trans]. Qed.

(** Two orderings of the same strings are one. *)
Lemma in_order_unique l l' : in_order str_ltb l -> in_order str_ltb l' -> l ≡ₚ l' -> l = l'.
Proof.
  intros H1 H2. apply (StronglySorted_unique_strong (fun a b => str_ltb b a = false)); [|done..].
  intros a b _ _ H3 H4. by apply str_ltb_total.
Qed.

Lemma str_sort_unique l l' : l ≡ₚ l' -> sort_by str_ltb l = sort_by str_ltb l'.
Proof.
  intros E. apply in_order_unique; [apply str_sort_in_order..|]. by rewrite !sort_by_perm.
Qed.

(** The keys of a map. *)
Lemma elem_of_keys {A} (m : gmap bytes A) k : k ∈ (map_to_list m).*1 <-> is_Some (m !! k).
Proof.
  rewrite list_elem_of_fmap. split.
  - intros [[k' v] [-> Hv]]. apply elem_of_map_to_list in Hv. by exists v.
  - intros [v Hv]. exists (k, v). split; [done|]. by apply elem_of_map_to_list.
Qed.

(** [strings.HasPrefix] and [bytes.HasPrefix]. *)
Fixpoint HasPrefix (s prefix : bytes) {struct prefix} : bool :=
  match prefix, s with
  | [], _ => true
  | p :: ps, c :: cs => (p =? c) && HasPrefix cs ps
  | _ :: _, [] => false
  end.

Lemma HasPrefix_app s prefix : HasPrefix s prefix = true <-> exists t, s = prefix ++ t.
Proof.
  revert s. induction prefix as [|p ps IH]; intros s; simpl; [by split; [exists s|]|].
  destruct s as [|c cs]; [by split; [|intros [? ?]]|]. rewrite andb_true_iff, Z.eqb_eq, IH.
  split; [intros [-> [t ->]]; by exists t|intros [t [= -> ->]]; by eauto].
Qed.

Lemma HasPrefix_app_same ns s prefix : HasPrefix (ns ++ s) (ns ++ prefix) = HasPrefix s prefix.
Proof. induction ns as [|c ns IH]; [done|]. simpl. by rewrite Z.eqb_refl. Qed.

(** [strings.TrimPrefix]. *)
Definition TrimPrefix (value prefix : bytes) : bytes := if HasPrefix value prefix then drop (length prefix) value else value.

(** ** Slash-separated names

    [strings.Split(value, "/")] and [strings.Trim(value, "/")]. *)
Fixpoint split_slash (value : bytes) : list bytes :=
  match value with
  | [] => [[]]
  | c :: r => if c =? 47 then [] :: split_slash r else
      match split_slash r with
      | part :: parts => (c :: part) :: parts
      | [] => [[c]]
      end
  end.

Fixpoint trim_left_slash (value : bytes) : bytes :=
  match value with
  | c :: r => if c =? 47 then trim_left_slash r else value
  | [] => []
  end.
Definition trim_slash (value : bytes) : bytes := rev (trim_left_slash (rev (trim_left_slash value))).

(** [strings.Contains(value, "//")]. *)
Fixpoint has_double_slash (value : bytes) : bool :=
  match value with
  | a :: ((b :: _) as r) => ((a =? 47) && (b =? 47)) || has_double_slash r
  | _ => false
  end.

Lemma split_slash_nonempty v : split_slash v <> [].
Proof. destruct v as [|c v]; cbn; [done|]. destruct (c =? 47); [done|]. by destruct (split_slash v). Qed.

#[global] Arguments TrimSpace : simpl never.
#[global] Arguments ToLower : simpl never.
#[global] Arguments runes : simpl never.
#[global] Arguments str : simpl never.

(** ** Text of digests *)

Lemma hex_digit_lower n : ascii_lower (hex_digit n) = hex_digit n.
Proof. unfold hex_digit, ascii_lower. destruct (Z.ltb_spec n 10); (destruct (_ && _) eqn:E; [|done]); lia. Qed.

Lemma hex_encode_lower b : ascii_lower <$> hex_encode b = hex_encode b.
Proof. induction b as [|x b IH]; [done|]. unfold hex_encode in *. cbn [fmap list_fmap concat app]. by rewrite !hex_digit_lower, IH. Qed.

Lemma hex_encode_plain b : bytes_ok b -> Forall (fun c => 33 <= c < 128) (hex_encode b).
Proof.
  intros Hb. apply Forall_forall. intros c Hc. apply list_elem_of_In in Hc. unfold hex_encode in Hc. apply in_concat in Hc as (l & Hl & Hc).
  apply list_elem_of_In, list_elem_of_fmap in Hl as (x & -> & Hx). unfold bytes_ok in Hb. rewrite Forall_forall in Hb. specialize (Hb x Hx). unfold is_u in Hb.
  pose proof (Z.div_pos x 16 ltac:(lia) ltac:(lia)). pose proof (Z.div_lt_upper_bound x 16 16 ltac:(lia) ltac:(lia)). pose proof (Z.mod_pos_bound x 16 ltac:(lia)).
  destruct Hc as [<-|[<-|[]]]; unfold hex_digit; case_match; lia.
Qed.

Lemma hex_encode_ascii b : bytes_ok b -> is_ascii (hex_encode b) = true.
Proof. intros Hb. apply is_ascii_Forall. eapply Forall_impl; [by apply hex_encode_plain|]. cbn. lia. Qed.

Lemma len_hex d : length d = 32%nat -> len (hex_encode d) = 64.
Proof. intros Hd. unfold len. rewrite hex_encode_length, Hd. done. Qed.

End GoStrings.
