(* ===== verification/GoFs.v ===== *)
(** * Paths and the file system of the host

    What the file services use of [path/filepath] on Unix and of the [os]
    package: lexical cleaning and joining of paths, and a file system of files,
    directories and symbolic links with the kernel's path walk.  Failures the
    model has no state for (permissions, exhausted disks, names that are too
    long) come from a [host], as do the attributes only the host knows. *)

From S2P Require Import Prelude GoStrings.

Module GoFs.
Import GoStrings.

(** ** path/filepath *)

Definition slash : Z := 47.
Definition dot : bytes := [46].
Definition dotdot : bytes := [46; 46].

Definition IsAbs (p : bytes) : bool := match p with c :: _ => c =? slash | [] => false end.

(** [strings.Join(l, "/")]. *)
Fixpoint join_slash (l : list bytes) : bytes :=
  match l with
  | [] => []
  | [x] => x
  | x :: r => x ++ [slash] ++ join_slash r
  end.

(** The components [Clean] keeps; [acc] holds the ones kept so far, last first. *)
Fixpoint clean_comps (rooted : bool) (acc l : list bytes) : list bytes :=
  match l with
  | [] => rev acc
  | c :: r =>
    if str_eqb c [] || str_eqb c dot then clean_comps rooted acc r else
    if str_eqb c dotdot then
      match acc with
      | a :: acc' => if str_eqb a dotdot then clean_comps rooted (c :: acc) r else clean_comps rooted acc' r
      | [] => if rooted then clean_comps rooted [] r else clean_comps rooted [c] r
      end
    else clean_comps rooted (c :: acc) r
  end.

Definition Clean (p : bytes) : bytes :=
  let kept := clean_comps (IsAbs p) [] (split_slash p) in
  if IsAbs p then slash :: join_slash kept else
  match kept with [] => dot | _ => join_slash kept end.

(** [filepath.Join(a, b)]. *)
Definition Join (a b : bytes) : bytes :=
  if negb (str_eqb a []) then Clean (a ++ [slash] ++ b) else
  if negb (str_eqb b []) then Clean b else [].

(** The components of an absolute path. *)
Definition comps (p : bytes) : list bytes := clean_comps true [] (split_slash p).

Fixpoint rel_comps (base targ : list bytes) : list bytes :=
  match base, targ with
  | x :: b, y :: t => if str_eqb x y then rel_comps b t else ((fun _ => dotdot) <$> base) ++ targ
  | [], _ => targ
  | _, [] => (fun _ => dotdot) <$> base
  end.

(** [filepath.Rel] of two absolute paths; a relative one next to an absolute
    one is its error. *)
Definition Rel (base targ : bytes) : option bytes :=
  if negb (IsAbs base && IsAbs targ) then None else
  Some (match rel_comps (comps base) (comps targ) with [] => dot | r => join_slash r end).

(** [filepath.Base] of an absolute path. *)
Definition Base (p : bytes) : bytes := match last (comps p) with Some n => n | None => [slash] end.

(** ** The file system *)

Inductive node : Type :=
| File (content : bytes)
| Dir
| Link (target : bytes).

(** A location: the names on the way from the root directory. *)
Abbreviation loc := (list bytes).
Abbreviation fs := (gmap loc node).

Definition node_at (f : fs) (l : loc) : option node :=
  match l with [] => Some Dir | _ => f !! l end.

Inductive errno : Type := ENOENT | ENOTDIR | ELOOP | EISDIR | EEXIST | ENOTEMPTY | EINVAL | EFBIG | EHOST.

Inductive walked : Type :=
| Found (l : loc)
| Missing (l : loc)
| Failed (e : errno).

(** One path walk: from the directory [cur] along [todo], through at most
    [links] symbolic links.  A last component that does not exist is [Missing];
    with [follow] false a link in last place is itself what is found. *)
Fixpoint walk (links : nat) (f : fs) (follow : bool) : loc -> list bytes -> walked :=
  fix go (cur : loc) (todo : list bytes) : walked :=
    match todo with
    | [] => Found cur
    | c :: r =>
      if str_eqb c [] || str_eqb c dot then go cur r else
      if str_eqb c dotdot then go (take (pred (length cur)) cur) r else
      if existsb (Z.eqb 0) c then Failed EINVAL else
      match node_at f (cur ++ [c]) with
      | None => match r with [] => Missing (cur ++ [c]) | _ => Failed ENOENT end
      | Some Dir => go (cur ++ [c]) r
      | Some (File _) => match r with [] => Found (cur ++ [c]) | _ => Failed ENOTDIR end
      | Some (Link target) =>
        match r, follow with
        | [], false => Found (cur ++ [c])
        | _, _ =>
          match links with
          | O => Failed ELOOP
          | S links => walk links f follow (if IsAbs target then [] else cur) (split_slash target ++ r)
          end
        end
      end
    end.

(** ** The host *)

Inductive call : Type := CallEval | CallStat | CallTruncate | CallOpen | CallCreate | CallRead | CallWrite | CallMkdir | CallRemove | CallReadDir.

Record host := mkHost {
  h_fails : call -> fs -> bytes -> bool;
  h_room : fs -> bytes -> option nat;
  h_perm : fs -> loc -> Z;
  h_mtime : fs -> loc -> Z;
  h_dirsize : fs -> loc -> Z;
  h_text : errno -> bytes -> bytes
}.

(** What the code reads of an [os.FileInfo]. *)
Record FileInfo := mkInfo {
  i_name : bytes;
  i_size : Z;
  i_perm : Z;
  i_mtime : Z;
  i_dir : bool
}.

Section Os.
Context (h : host).

(** A system call on the path [p]: at most forty links are followed. *)
Definition syscall (c : call) (f : fs) (follow : bool) (p : bytes) : walked :=
  if existsb (Z.eqb 0) p then Failed EINVAL else
  if h_fails h c f p then Failed EHOST else walk 40 f follow [] (split_slash p).

(** [filepath.EvalSymlinks] of an absolute path; it gives up after 255 links. *)
Definition EvalSymlinks (f : fs) (p : bytes) : result errno bytes :=
  if h_fails h CallEval f p then Err EHOST else
  match walk 255 f true [] (split_slash p) with
  | Found l => Ok (slash :: join_slash l)
  | Missing _ => Err ENOENT
  | Failed e => Err e
  end.

Definition IsNotExist (e : errno) : bool := match e with ENOENT => true | _ => false end.

Definition info_at (f : fs) (l : loc) (p : bytes) : FileInfo :=
  match node_at f l with
  | Some (File content) => mkInfo (Base p) (len content) (h_perm h f l) (h_mtime h f l) false
  | _ => mkInfo (Base p) (h_dirsize h f l) (h_perm h f l) (h_mtime h f l) true
  end.

Definition os_Stat (f : fs) (p : bytes) : result errno FileInfo :=
  match syscall CallStat f true p with
  | Found l => Ok (info_at f l p)
  | Missing _ => Err ENOENT
  | Failed e => Err e
  end.

(** [os.Truncate(p, 0)]. *)
Definition os_Truncate (f : fs) (p : bytes) : result errno fs :=
  match syscall CallTruncate f true p with
  | Found l => match node_at f l with Some (File _) => Ok (<[l := File []]> f) | _ => Err EISDIR end
  | Missing _ => Err ENOENT
  | Failed e => Err e
  end.

(** [os.OpenFile] with O_CREATE|O_WRONLY and, if [trunc], O_TRUNC: the location
    that was opened and the file system after it. *)
Definition os_Create (trunc : bool) (f : fs) (p : bytes) : result errno (loc * fs) :=
  match syscall CallCreate f true p with
  | Found l =>
    match node_at f l with
    | Some (File content) => Ok (l, if trunc then <[l := File []]> f else f)
    | _ => Err EISDIR
    end
  | Missing l => Ok (l, <[l := File []]> f)
  | Failed e => Err e
  end.

(** [File.ReadAt] of an opened file into a buffer of [count] bytes. *)
Definition os_ReadAt (f : fs) (p : bytes) (count offset : Z) : result errno bytes :=
  match syscall CallOpen f true p with
  | Found l =>
    if offset <? 0 then Err EINVAL else
    if h_fails h CallRead f p then Err EHOST else
    match node_at f l with
    | Some (File content) => Ok (take (Z.to_nat count) (drop (Z.to_nat offset) content))
    | _ => Err EISDIR
    end
  | Missing _ => Err ENOENT
  | Failed e => Err e
  end.

Definition overwrite (content : bytes) (offset : nat) (data : bytes) : bytes :=
  match data with
  | [] => content
  | _ => take offset content ++ repeat 0 (offset - length content) ++ data ++ drop (offset + length data) content
  end.

(** [File.WriteAt] at location [l]; a full disk leaves a part of the data. *)
Definition os_WriteAt (f : fs) (p : bytes) (l : loc) (offset : Z) (data : bytes) : result errno Z * fs :=
  if offset <? 0 then (Err EINVAL, f) else
  if 2 ^ 63 <=? offset + len data then (Err EFBIG, f) else
  match node_at f l with
  | Some (File content) =>
    match h_room h f p with
    | Some room => (Err EHOST, <[l := File (overwrite content (Z.to_nat offset) (take room data))]> f)
    | None => (Ok (len data), <[l := File (overwrite content (Z.to_nat offset) data)]> f)
    end
  | _ => (Err EINVAL, f)
  end.

Definition os_Mkdir (f : fs) (p : bytes) : result errno fs :=
  match syscall CallMkdir f false p with
  | Missing l => Ok (<[l := Dir]> f)
  | Found _ => Err EEXIST
  | Failed e => Err e
  end.

(** The names in a directory, sorted as [os.ReadDir] returns them. *)
Definition child_name (l k : loc) : option bytes :=
  match drop (length l) k with
  | [n] => if bool_decide (take (length l) k = l) then Some n else None
  | _ => None
  end.
Definition children (f : fs) (l : loc) : list bytes := sort_by str_ltb (omap (child_name l) (elements (dom f))).

Definition os_ReadDir (f : fs) (p : bytes) : result errno (list bytes) :=
  match syscall CallReadDir f true p with
  | Found l => match node_at f l with Some Dir => Ok (children f l) | _ => Err ENOTDIR end
  | Missing _ => Err ENOENT
  | Failed e => Err e
  end.

Definition os_Remove (f : fs) (p : bytes) : result errno fs :=
  match syscall CallRemove f false p with
  | Found [] => Err EINVAL
  | Found l =>
    match node_at f l, children f l with
    | Some Dir, _ :: _ => Err ENOTEMPTY
    | _, _ => Ok (delete l f)
    end
  | Missing _ => Err ENOENT
  | Failed e => Err e
  end.

End Os.
End GoFs.
