(* ===== verification/GoFsProofs.v ===== *)
(** * Paths and path walks: lemmas

    Lexical facts about clean paths, and the facts about path walks that
    confinement rests on: where a walk ends depends on the symbolic links only,
    and a location that was reached is reached again along its own name. *)

From S2P Require Import Prelude GoStrings GoFs.

Module GoFsProofs.
Import GoStrings GoFs.

(** ** Names and clean paths *)

Definition no_slash (c : bytes) : Prop := slash ∉ c.
Definition plain (c : bytes) : Prop := c <> [] /\ c <> dot /\ c <> dotdot /\ no_slash c.

Lemma split_slash_no_slash v : Forall no_slash (split_slash v).
Proof.
  induction v as [|c v IH]; cbn; [repeat constructor; apply not_elem_of_nil|].
  destruct (Z.eqb_spec c 47); [constructor; [apply not_elem_of_nil|done]|].
  destruct (split_slash v) as [|part parts]; [constructor; [|constructor]|].
  - unfold no_slash. rewrite list_elem_of_singleton. done.
  - apply Forall_cons in IH as [Hp Hr]. constructor; [|done]. apply not_elem_of_cons. done.
Qed.

Lemma split_slash_app c r : no_slash c -> split_slash (c ++ slash :: r) = c :: split_slash r.
Proof.
  induction c as [|x c IH]; cbn; [done|]. intros [Hx Hc]%not_elem_of_cons.
  replace (x =? 47) with false by (unfold slash in *; lia). by rewrite IH.
Qed.

Lemma split_slash_one c : no_slash c -> split_slash c = [c].
Proof.
  induction c as [|x c IH]; cbn; [done|]. intros [Hx Hc]%not_elem_of_cons.
  replace (x =? 47) with false by (unfold slash in *; lia). by rewrite IH.
Qed.

Lemma join_slash_cons x r : r <> [] -> join_slash (x :: r) = x ++ slash :: join_slash r.
Proof. by destruct r. Qed.

Lemma split_slash_join l : Forall no_slash l -> l <> [] -> split_slash (join_slash l) = l.
Proof.
  induction l as [|x l IH]; [done|]. intros [Hx Hl]%Forall_cons _.
  destruct (decide (l = [])) as [->|Hne]; [by apply split_slash_one|].
  rewrite join_slash_cons by done. rewrite split_slash_app by done. by rewrite IH.
Qed.

Lemma plain_no_slash l : Forall plain l -> Forall no_slash l.
Proof. intros Hl. apply (Forall_impl _ _ _ Hl). by intros c (_ & _ & _ & H). Qed.

Lemma clean_comps_plain rooted acc l r : Forall plain l ->
  clean_comps rooted acc (l ++ r) = clean_comps rooted (rev l ++ acc) r.
Proof.
  revert acc. induction l as [|c l IH]; intros acc; [done|]. intros [(H1 & H2 & H3 & _) Hl]%Forall_cons.
  cbn [app clean_comps rev]. destruct (str_eqb_spec c []), (str_eqb_spec c dot), (str_eqb_spec c dotdot); try done.
  cbn [orb]. rewrite IH by done. by rewrite <- app_assoc.
Qed.

Lemma clean_comps_all rooted acc l : Forall plain l -> clean_comps rooted acc l = rev acc ++ l.
Proof.
  intros H. pose proof (clean_comps_plain rooted acc l [] H) as E. rewrite app_nil_r in E. rewrite E. cbn.
  by rewrite rev_app_distr, rev_involutive.
Qed.

(** An absolute path of plain names. *)
Definition abs_path (l : list bytes) : bytes := slash :: join_slash l.

Lemma split_abs l : Forall plain l -> split_slash (abs_path l) = [] :: match l with [] => [[]] | _ => l end.
Proof.
  intros H. unfold abs_path. cbn. f_equal. destruct l as [|x l]; [done|].
  apply split_slash_join; [by apply plain_no_slash|done].
Qed.

Lemma comps_abs l : Forall plain l -> comps (abs_path l) = l.
Proof.
  intros H. unfold comps. rewrite split_abs by done. cbn [clean_comps]. rewrite (str_eqb_refl []). cbn [orb].
  destruct l as [|x l]; [done|]. by rewrite clean_comps_all.
Qed.

Lemma join_slash_inj l r : Forall plain l -> Forall plain r -> join_slash l = join_slash r -> l = r.
Proof.
  intros Hl Hr E. assert (abs_path l = abs_path r) as A by (unfold abs_path; by rewrite E).
  by rewrite <- (comps_abs l Hl), <- (comps_abs r Hr), A.
Qed.

Lemma plain_head c : plain c -> IsAbs c = false.
Proof.
  intros (H1 & _ & _ & H). destruct c as [|x c]; [done|]. cbn. apply not_elem_of_cons in H as [H _]. lia.
Qed.

Lemma join_slash_nonempty x l : plain x -> exists c r, join_slash (x :: l) = c :: r /\ c <> slash.
Proof.
  intros (H1 & _ & _ & H). destruct x as [|c x]; [done|]. apply not_elem_of_cons in H as [H _].
  exists c. destruct l as [|y l]; eexists; (split; [reflexivity|done]).
Qed.

Lemma join_slash_snoc l c : l <> [] -> join_slash (l ++ [c]) = join_slash l ++ slash :: c.
Proof.
  induction l as [|x l IH]; [done|]. intros _. destruct l as [|y l]; [done|].
  cbn [app]. rewrite join_slash_cons by done. rewrite <- app_comm_cons in *. rewrite IH by done.
  rewrite (join_slash_cons x (y :: l)) by done. rewrite <- app_assoc. done.
Qed.

Lemma join_slash_not_dot l : Forall plain l -> join_slash l <> dot.
Proof.
  intros H E. destruct l as [|x l]; [done|]. change dot with (join_slash [dot]) in E.
  assert (split_slash (join_slash (x :: l)) = split_slash (join_slash [dot])) as E' by (by rewrite E).
  rewrite split_slash_join in E' by (by try apply plain_no_slash). cbn in E'. injection E' as -> ->.
  apply Forall_cons in H as [(_ & H & _) _]. done.
Qed.

Lemma TrimPrefix_rel l : Forall plain l -> TrimPrefix (join_slash l) [slash] = join_slash l.
Proof.
  intros H. destruct l as [|x l]; [done|]. apply Forall_cons in H as [Hx _].
  destruct (join_slash_nonempty x l Hx) as (c & r & -> & Hc). unfold TrimPrefix. cbn [HasPrefix].
  by replace (slash =? c) with false by lia.
Qed.

Lemma Clean_rel l : Forall plain l -> Clean (join_slash l) = match l with [] => dot | _ => join_slash l end.
Proof.
  intros H. destruct l as [|x l]; [done|]. unfold Clean.
  assert (IsAbs (join_slash (x :: l)) = false) as ->.
  { apply Forall_cons in H as [Hx _]. destruct (join_slash_nonempty x l Hx) as (c & r & -> & Hc). cbn. lia. }
  rewrite split_slash_join by (by try apply plain_no_slash). rewrite clean_comps_all by done. done.
Qed.

(** Joining a name to a relative path of names. *)
Lemma Join_rel l c : Forall plain l -> plain c -> Join (join_slash l) c = join_slash (l ++ [c]).
Proof.
  intros Hl Hc. unfold Join. destruct l as [|x l].
  - cbn [join_slash app]. rewrite str_eqb_refl. cbn [negb].
    destruct (str_eqb_spec c []) as [->|_]; [by destruct Hc|]. cbn [negb].
    change c with (join_slash [c]) at 1. rewrite Clean_rel by (by constructor). done.
  - destruct (str_eqb_spec (join_slash (x :: l)) []) as [E|_]; cbn [negb].
    { apply Forall_cons in Hl as [Hx _]. destruct (join_slash_nonempty x l Hx) as (a & r & E' & _). by rewrite E' in E. }
    change ([slash] ++ c) with (slash :: c). rewrite <- (join_slash_snoc (x :: l) c) by done.
    rewrite Clean_rel by (apply Forall_app; split; [done|by constructor]). done.
Qed.

(** Joining a relative path of names, or the empty one, to a root. *)
Lemma Join_root l r : Forall plain l -> Forall plain r -> Join (abs_path l) (join_slash r) = abs_path (l ++ r).
Proof.
  intros Hl Hr. unfold Join. cbn [abs_path str_eqb]. destruct (str_eqb_spec (abs_path l) []) as [?|_]; [done|]. cbn [negb].
  unfold Clean. cbn [abs_path app IsAbs]. rewrite Z.eqb_refl. unfold abs_path. f_equal. f_equal.
  change (slash :: join_slash l ++ slash :: join_slash r) with (abs_path l ++ slash :: join_slash r).
  assert (exists e, split_slash (join_slash r) = (if decide (r = []) then [[]] else r) ++ e /\ e = []) as (e & Er & ->).
  { exists []. rewrite app_nil_r. split; [|done]. destruct (decide (r = [])) as [->|]; [done|]. apply split_slash_join; [by apply plain_no_slash|done]. }
  assert (split_slash (abs_path l ++ slash :: join_slash r) = split_slash (abs_path l) ++ split_slash (join_slash r)) as ->.
  { unfold abs_path. clear Hr Er. cbn. f_equal. induction l as [|x l IH]; [done|]. apply Forall_cons in Hl as [Hx Hl].
    destruct l as [|y l].
    - cbn [join_slash]. rewrite split_slash_app, (split_slash_one x) by apply Hx. done.
    - rewrite join_slash_cons by done. rewrite <- app_assoc, <- app_comm_cons.
      rewrite (split_slash_app x) by apply Hx. rewrite (split_slash_app x (join_slash (y :: l))) by apply Hx.
      cbn [app]. f_equal. by apply IH. }
  rewrite split_abs by done. rewrite Er, app_nil_r. cbn [app clean_comps]. rewrite (str_eqb_refl []). cbn [orb].
  assert (clean_comps true [] ((match l with [] => [[]] | _ => l end) ++ (if decide (r = []) then [[]] else r)) = l ++ r) as E; [|exact E].
  assert (forall acc, clean_comps true acc (if decide (r = []) then [[]] else r) = rev acc ++ r) as Hd.
  { intros acc. destruct (decide (r = [])) as [->|]; [cbn; by rewrite app_nil_r|by apply clean_comps_all]. }
  destruct l as [|x l].
  - cbn [app clean_comps]. rewrite (str_eqb_refl []). cbn [orb]. by rewrite Hd.
  - rewrite clean_comps_plain by done. rewrite Hd. by rewrite app_nil_r, rev_involutive.
Qed.

(** ** Path walks *)

Lemma walk_nil n f fo cur : walk n f fo cur [] = Found cur.
Proof. by destruct n. Qed.

Lemma walk_cons n f fo cur c r :
  walk n f fo cur (c :: r) =
    if str_eqb c [] || str_eqb c dot then walk n f fo cur r else
    if str_eqb c dotdot then walk n f fo (take (pred (length cur)) cur) r else
    if existsb (Z.eqb 0) c then Failed EINVAL else
    match node_at f (cur ++ [c]) with
    | None => match r with [] => Missing (cur ++ [c]) | _ => Failed ENOENT end
    | Some Dir => walk n f fo (cur ++ [c]) r
    | Some (File _) => match r with [] => Found (cur ++ [c]) | _ => Failed ENOTDIR end
    | Some (Link target) =>
      match r, fo with
      | [], false => Found (cur ++ [c])
      | _, _ => match n with
                | O => Failed ELOOP
                | S n => walk n f fo (if IsAbs target then [] else cur) (split_slash target ++ r)
                end
      end
    end.
Proof. by destruct n. Qed.

Definition landed (w : walked) (l : loc) : Prop := w = Found l \/ w = Missing l.

Lemma landed_failed e l : ~ landed (Failed e) l.
Proof. by intros [?|?]. Qed.

Definition same_links (f f' : fs) : Prop := forall k t, f !! k = Some (Link t) <-> f' !! k = Some (Link t).

#[export] Instance same_links_equivalence : Equivalence same_links.
Proof. unfold same_links. split; [firstorder|intros ? ? ?; naive_solver|intros ? ? ? ? ?; naive_solver]. Qed.

Lemma same_links_at f f' l t : same_links f f' -> node_at f l = Some (Link t) <-> node_at f' l = Some (Link t).
Proof. intros H. destruct l; cbn; [done|apply H]. Qed.

(** Where a walk ends, if it ends anywhere, is decided by the links. *)
Lemma walk_deterministic n n' f f' fo cur todo l l' : same_links f f' ->
  landed (walk n f fo cur todo) l -> landed (walk n' f' fo cur todo) l' -> l = l'.
Proof.
  intros Hs. revert n' cur todo. induction n as [n IHn] using lt_wf_ind. intros n' cur todo. revert cur.
  induction todo as [|c r IHr]; intros cur.
  { rewrite !walk_nil. intros [[= <-]|?] [[= <-]|?]; done. }
  rewrite !walk_cons. destruct (_ || _); [apply IHr|]. destruct (str_eqb c dotdot); [apply IHr|].
  destruct (existsb _ c); [intros []%landed_failed|].
  pose proof (same_links_at f f' (cur ++ [c])) as Hl.
  destruct (node_at f (cur ++ [c])) as [[content| |target]|] eqn:E.
  3: { rewrite (proj1 (Hl target Hs)) by done. destruct r as [|d r], fo;
       try (by intros [[= <-]|?] [[= <-]|?]); (destruct n as [|n]; [intros []%landed_failed|]);
       (destruct n' as [|n']; [intros _ []%landed_failed|]); apply IHn; lia. }
  all: destruct (node_at f' (cur ++ [c])) as [[content'| |target']|] eqn:E';
    try (by specialize (proj2 (Hl target' Hs) eq_refl)); try apply IHr; destruct r as [|d r];
    rewrite ?walk_nil; unfold landed; intros [?|?] [?|?]; simplify_eq; done.
Qed.

(** More links change nothing but the loop error. *)
Lemma walk_more n m f fo cur todo : (n <= m)%nat -> walk n f fo cur todo <> Failed ELOOP ->
  walk m f fo cur todo = walk n f fo cur todo.
Proof.
  revert m cur todo. induction n as [n IHn] using lt_wf_ind. intros m cur todo. revert cur.
  induction todo as [|c r IHr]; intros cur Hm; [by rewrite !walk_nil|].
  rewrite !walk_cons. destruct (_ || _); [by apply IHr|]. destruct (str_eqb c dotdot); [by apply IHr|].
  destruct (existsb _ c); [done|]. destruct (node_at f (cur ++ [c])) as [[content| |target]|]; [done|by apply IHr| |done].
  destruct r as [|d r], fo; try done; (destruct n as [|n]; [done|]; destruct m as [|m]; [lia|]; apply IHn; lia).
Qed.

(** A walk that goes on past [a] has found a directory there. *)
Lemma walk_app n f fo cur a b l : b <> [] -> landed (walk n f fo cur (a ++ b)) l ->
  exists n' d, walk n f true cur a = Found d /\
    forall fo' b', b' <> [] -> walk n f fo' cur (a ++ b') = walk n' f fo' d b'.
Proof.
  intros Hb. revert cur a. induction n as [n IHn] using lt_wf_ind. intros cur a. revert cur.
  induction a as [|c a IHa]; intros cur.
  { intros _. exists n, cur. rewrite walk_nil. done. }
  cbn [app]. rewrite walk_cons. intros H. assert (forall fo' b', walk n f fo' cur (c :: (a ++ b')) = _) as Heq
    by (intros fo' b'; apply walk_cons). setoid_rewrite Heq. clear Heq. rewrite (walk_cons n f true cur c a).
  destruct (_ || _); [by apply IHa|]. destruct (str_eqb c dotdot); [by apply IHa|].
  destruct (existsb _ c); [by apply landed_failed in H|].
  assert (forall b' : list bytes, b' <> [] -> a ++ b' <> []) as Hne by (intros b' Hb'; by destruct a, b').
  destruct (node_at f (cur ++ [c])) as [[content| |target]|].
  - pose proof (Hne b Hb). destruct (a ++ b) as [|]; [done|by apply landed_failed in H].
  - by apply IHa.
  - destruct n as [|n].
    { pose proof (Hne b Hb). destruct (a ++ b) as [|]; [done|by apply landed_failed in H]. }
    assert (landed (walk n f fo (if IsAbs target then [] else cur) ((split_slash target ++ a) ++ b)) l) as H'.
    { rewrite <- app_assoc. pose proof (Hne b Hb). by destruct (a ++ b). }
    destruct (IHn n ltac:(lia) _ _ H') as (n' & d & Hd & Hk). exists n', d. split.
    + destruct a; [by rewrite app_nil_r in *|done].
    + intros fo' b' Hb'. rewrite <- Hk by done. rewrite <- app_assoc. pose proof (Hne b' Hb'). by destruct (a ++ b'), fo'.
  - pose proof (Hne b Hb). destruct (a ++ b) as [|]; [done|by apply landed_failed in H].
Qed.

(** The names on the way are directories. *)
Definition name (c : bytes) : Prop := plain c /\ existsb (Z.eqb 0) c = false.
Definition real (f : fs) (l : loc) : Prop :=
  Forall name l /\ forall k, (k <= length l)%nat -> node_at f (take k l) = Some Dir.
Definition settled (f : fs) (l : loc) : Prop := l = [] \/ exists e c, l = e ++ [c] /\ real f e /\ name c.

Lemma real_nil f : real f [].
Proof. split; [done|]. intros k _. by rewrite take_nil. Qed.

Lemma real_take f l k : real f l -> real f (take k l).
Proof.
  intros [Hn Hd]. split; [by apply Forall_take|]. intros j Hj. rewrite take_take. apply Hd.
  rewrite length_take in Hj. lia.
Qed.

Lemma real_snoc f l c : real f l -> name c -> node_at f (l ++ [c]) = Some Dir -> real f (l ++ [c]).
Proof.
  intros [Hn Hd] Hc Ha. split; [apply Forall_app; split; [done|by constructor]|].
  intros k. rewrite length_app. cbn. intros Hk. destruct (decide (k <= length l)%nat).
  - rewrite take_app_le by done. by apply Hd.
  - rewrite take_ge; [done|rewrite length_app; cbn; lia].
Qed.

Lemma real_dir f l : real f l -> node_at f l = Some Dir.
Proof. intros [_ H]. rewrite <- (firstn_all l). by apply H. Qed.

Lemma real_settled f l : real f l -> settled f l.
Proof.
  intros H. destruct l as [|c l _] using rev_ind; [by left|]. right. exists l, c. split; [done|].
  split; [|destruct H as [H _]; by apply Forall_app in H as [_ [H _]%Forall_cons]].
  apply (real_take _ _ (length l)) in H. by rewrite take_app_length in H.
Qed.

Lemma walk_name n f fo cur c r : name c ->
  walk n f fo cur (c :: r) =
    match node_at f (cur ++ [c]) with
    | None => match r with [] => Missing (cur ++ [c]) | _ => Failed ENOENT end
    | Some Dir => walk n f fo (cur ++ [c]) r
    | Some (File _) => match r with [] => Found (cur ++ [c]) | _ => Failed ENOTDIR end
    | Some (Link target) =>
      match r, fo with
      | [], false => Found (cur ++ [c])
      | _, _ => match n with
                | O => Failed ELOOP
                | S n => walk n f fo (if IsAbs target then [] else cur) (split_slash target ++ r)
                end
      end
    end.
Proof.
  intros [(H1 & H2 & H3 & _) H0]. rewrite walk_cons, H0.
  by destruct (str_eqb_spec c []), (str_eqb_spec c dot), (str_eqb_spec c dotdot).
Qed.

Lemma walk_real n f fo l r : real f l -> walk n f fo [] (l ++ r) = walk n f fo l r.
Proof.
  revert r. induction l as [|c l IH] using rev_ind; intros r H; [done|].
  assert (real f l) as Hl by (apply (real_take _ _ (length l)) in H; by rewrite take_app_length in H).
  rewrite <- app_assoc, IH by done. cbn [app]. rewrite walk_name; [by rewrite (real_dir _ _ H)|].
  destruct H as [H _]. by apply Forall_app in H as [_ [H _]%Forall_cons].
Qed.

(** Everything about the end of a walk. *)
Definition ends (f : fs) (fo : bool) (w : walked) : Prop :=
  match w with
  | Found l => settled f l /\ exists nd, node_at f l = Some nd /\ (fo = true -> forall t, nd <> Link t)
  | Missing l => settled f l /\ node_at f l = None
  | Failed _ => True
  end.

Lemma walk_ends n f fo cur todo : real f cur -> Forall no_slash todo -> ends f fo (walk n f fo cur todo).
Proof.
  revert cur todo. induction n as [n IHn] using lt_wf_ind. intros cur todo. revert cur.
  induction todo as [|c r IHr]; intros cur Hc Ht.
  { rewrite walk_nil. cbn. split; [by apply real_settled|]. exists Dir. split; [by apply real_dir|done]. }
  apply Forall_cons in Ht as [Hs Ht]. rewrite walk_cons. destruct (_ || _) eqn:E1; [by apply IHr|].
  destruct (str_eqb_spec c dotdot) as [|E2]; [apply IHr; [by apply real_take|done]|].
  destruct (existsb _ c) eqn:E3; [done|].
  assert (name c) as Hn.
  { apply orb_false_elim in E1 as [Ea Eb]. destruct (str_eqb_spec c []), (str_eqb_spec c dot); done. }
  assert (settled f (cur ++ [c])) as Hset by (right; eauto).
  destruct (node_at f (cur ++ [c])) as [[content| |target]|] eqn:E.
  - destruct r; cbn; [|done]. split; [done|]. rewrite E. eauto.
  - apply IHr; [by apply real_snoc|done].
  - assert (forall m, (m < n)%nat -> ends f fo (walk m f fo (if IsAbs target then [] else cur) (split_slash target ++ r))) as Hk.
    { intros m Hm. apply IHn; [done|by destruct (IsAbs target); [apply real_nil|]|].
      apply Forall_app. split; [apply split_slash_no_slash|done]. }
    destruct r as [|d r], fo; [| |destruct n; [done|apply Hk; lia]..].
    + destruct n; [done|apply Hk; lia].
    + cbn. split; [done|]. rewrite E. eauto.
  - destruct r; cbn; done.
Qed.

(** A location that was reached is reached along its own name, link by link or not. *)
Lemma walk_self f l m fo : settled f l -> (forall t, node_at f l <> Some (Link t)) ->
  walk m f fo [] l = match node_at f l with Some _ => Found l | None => Missing l end.
Proof.
  intros [->|(e & c & -> & He & Hc)] Hl; [by rewrite walk_nil|].
  rewrite walk_real, walk_name by done. destruct (node_at f (e ++ [c])) as [[content| |target]|]; [done|by rewrite walk_nil|by destruct (Hl target)|done].
Qed.

(** ** Subtrees *)

Definition inside (base l : loc) : Prop := exists t, l = base ++ t.

Lemma inside_refl base : inside base base.
Proof. exists []. by rewrite app_nil_r. Qed.
Lemma inside_snoc base l c : inside base l -> inside base (l ++ [c]).
Proof. intros [t ->]. exists (t ++ [c]). by rewrite app_assoc. Qed.

Lemma rel_comps_cases b t : (exists u, t = b ++ u /\ rel_comps b t = u) \/ exists u, rel_comps b t = dotdot :: u.
Proof.
  revert t. induction b as [|x b IH]; intros t; [left; by exists t|].
  destruct t as [|y t]; cbn; [by right; eexists|].
  destruct (str_eqb_spec x y) as [->|]; [|by right; eexists].
  destruct (IH t) as [(u & -> & E)|[u E]]; [left; by exists u|right; by exists u].
Qed.

Lemma join_slash_prefix x l : HasPrefix (join_slash (x :: l)) x = true.
Proof. apply HasPrefix_app. destruct l; [exists []; by rewrite app_nil_r|by eexists]. Qed.

Lemma settled_names f l : settled f l -> Forall name l.
Proof.
  intros [->|(e & c & -> & [He _] & Hc)]; [done|]. apply Forall_app. split; [done|by constructor].
Qed.
Lemma names_plain l : Forall name l -> Forall plain l.
Proof. intros H. apply (Forall_impl _ _ _ H). by intros c [Hc _]. Qed.

(** System calls on absolute paths of names. *)
Lemma walk_abs n f fo l : Forall plain l -> walk n f fo [] (split_slash (abs_path l)) = walk n f fo [] l.
Proof.
  intros H. rewrite split_abs by done. rewrite walk_cons, (str_eqb_refl []). cbn [orb].
  destruct l as [|x l]; [|done]. by rewrite walk_cons, (str_eqb_refl []).
Qed.

Lemma EvalSymlinks_ok h f l e : Forall plain l -> EvalSymlinks h f (abs_path l) = Ok e ->
  exists d, e = abs_path d /\ walk 255 f true [] l = Found d /\ ends f true (Found d).
Proof.
  intros H. unfold EvalSymlinks. rewrite walk_abs by done. case_match; [done|].
  pose proof (walk_ends 255 f true [] l (real_nil f) (plain_no_slash _ H)) as He.
  destruct (walk 255 f true [] l); [|done..]. intros [= <-]. eexists. done.
Qed.

Lemma EvalSymlinks_missing h f l d : Forall plain l -> EvalSymlinks h f (abs_path l) = Err ENOENT ->
  walk 255 f true [] l <> Found d.
Proof. intros H. unfold EvalSymlinks. rewrite walk_abs by done. case_match; [done|]. by destruct (walk 255 f true [] l). Qed.

Lemma syscall_walk h c f fo l : Forall plain l ->
  syscall h c f fo (abs_path l) = walk 40 f fo [] l \/ exists e, syscall h c f fo (abs_path l) = Failed e.
Proof.
  intros H. unfold syscall. case_match; [by right; eexists|]. case_match; [by right; eexists|]. left. by apply walk_abs.
Qed.

(** Evaluation of any path ends at a location. *)
Lemma EvalSymlinks_ends h f p e : EvalSymlinks h f p = Ok e -> exists d, e = abs_path d /\ ends f true (Found d).
Proof.
  unfold EvalSymlinks. case_match; [done|].
  pose proof (walk_ends 255 f true [] (split_slash p) (real_nil f) (split_slash_no_slash p)) as He.
  destruct (walk 255 f true [] (split_slash p)); [|done..]. intros [= <-]. eauto.
Qed.

Lemma node_at_insert f d nd : d <> [] -> node_at (<[d := nd]> f) d = Some nd.
Proof. destruct d; [done|]. cbn. by rewrite lookup_insert_eq. Qed.
Lemma node_at_insert_ne f d k nd : k <> d -> node_at (<[d := nd]> f) k = node_at f k.
Proof. intros H. destruct k; [done|]. cbn. by rewrite lookup_insert_ne. Qed.

(** A walk that ends at a file, or where one can be made, ends there when it is written. *)
Lemma walk_written n f cur todo d content : real f cur -> Forall no_slash todo -> d <> [] ->
  (forall nd, node_at f d = Some nd -> exists c, nd = File c) ->
  landed (walk n f true cur todo) d -> walk n (<[d := File content]> f) true cur todo = Found d.
Proof.
  intros Hc Ht Hd Hf. revert cur todo Hc Ht. induction n as [n IHn] using lt_wf_ind. intros cur todo. revert cur.
  induction todo as [|c r IHr]; intros cur Hc Ht.
  { rewrite walk_nil. intros [[= <-]|?]; [|done]. destruct (Hf Dir) as [? [=]]. by apply real_dir. }
  apply Forall_cons in Ht as [Hs Ht]. rewrite !walk_cons. destruct (_ || _) eqn:E1; [by apply IHr|].
  destruct (str_eqb_spec c dotdot) as [|E2]; [apply IHr; [by apply real_take|done]|].
  destruct (existsb _ c) eqn:E3; [by intros ?%landed_failed|].
  assert (name c) as Hn.
  { apply orb_false_elim in E1 as [Ea Eb]. destruct (str_eqb_spec c []), (str_eqb_spec c dot); done. }
  destruct (decide (cur ++ [c] = d)) as [<-|Hne].
  - rewrite node_at_insert by done. destruct r as [|x r]; [done|].
    destruct (node_at f (cur ++ [c])) as [nd|] eqn:E; [|by intros ?%landed_failed].
    destruct (Hf _ eq_refl) as [k ->]. by intros ?%landed_failed.
  - rewrite node_at_insert_ne by done. destruct (node_at f (cur ++ [c])) as [[k| |target]|] eqn:E.
    + destruct r; [|by intros ?%landed_failed]. by intros [[= ?]|?].
    + apply IHr; [by apply real_snoc|done].
    + assert (forall m, (m < n)%nat -> landed (walk m f true (if IsAbs target then [] else cur) (split_slash target ++ r)) d ->
        walk m (<[d := File content]> f) true (if IsAbs target then [] else cur) (split_slash target ++ r) = Found d) as Hk.
      { intros m Hm. apply IHn; [done|by destruct (IsAbs target); [apply real_nil|]|].
        apply Forall_app. split; [apply split_slash_no_slash|done]. }
      destruct r; (destruct n; [by intros ?%landed_failed|apply Hk; lia]).
    + destruct r; [by intros [?|[= ?]]|by intros ?%landed_failed].
Qed.

(** Reading back what was written. *)
Lemma overwrite_read content offset data : take (length data) (drop offset (overwrite content offset data)) = data.
Proof.
  destruct data as [|x data]; [done|]. unfold overwrite. rewrite app_assoc.
  assert (length (take offset content ++ repeat 0 (offset - length content)) = offset) as E
    by (rewrite length_app, length_take, repeat_length; lia).
  rewrite drop_app_length' by done. by rewrite take_app_length.
Qed.

End GoFsProofs.
