(* ===== verification/Sha256.v ===== *)
(** * SHA-256 (crypto/sha256)

    The digest the code computes over identifiers, keys and evidence, as an
    executable function on byte strings: FIPS 180-4 padding, message schedule
    and compression on 32-bit words. *)

From S2P Require Import Prelude GoStrings.

Module Sha256.
Import GoStrings.

Definition round_constants : list Z :=
  [1116352408; 1899447441; 3049323471; 3921009573; 961987163; 1508970993; 2453635748; 2870763221;
   3624381080; 310598401; 607225278; 1426881987; 1925078388; 2162078206; 2614888103; 3248222580;
   3835390401; 4022224774; 264347078; 604807628; 770255983; 1249150122; 1555081692; 1996064986;
   2554220882; 2821834349; 2952996808; 3210313671; 3336571891; 3584528711; 113926993; 338241895;
   666307205; 773529912; 1294757372; 1396182291; 1695183700; 1986661051; 2177026350; 2456956037;
   2730485921; 2820302411; 3259730800; 3345764771; 3516065817; 3600352804; 4094571909; 275423344;
   430227734; 506948616; 659060556; 883997877; 958139571; 1322822218; 1537002063; 1747873779;
   1955562222; 2024104815; 2227730452; 2361852424; 2428436474; 2756734187; 3204031479; 3329325298].

Definition initial_state : list Z :=
  [1779033703; 3144134277; 1013904242; 2773480762; 1359893119; 2600822924; 528734635; 1541459225].

Definition rotr (n x : Z) : Z := Z.lor (Z.shiftr x n) (u32 (Z.shiftl x (32 - n))).
Definition not32 (x : Z) : Z := 2 ^ 32 - 1 - x.

Definition Ch (x y z : Z) : Z := Z.lxor (Z.land x y) (Z.land (not32 x) z).
Definition Maj (x y z : Z) : Z := Z.lxor (Z.lxor (Z.land x y) (Z.land x z)) (Z.land y z).
Definition Sigma0 (x : Z) : Z := Z.lxor (Z.lxor (rotr 2 x) (rotr 13 x)) (rotr 22 x).
Definition Sigma1 (x : Z) : Z := Z.lxor (Z.lxor (rotr 6 x) (rotr 11 x)) (rotr 25 x).
Definition sigma0 (x : Z) : Z := Z.lxor (Z.lxor (rotr 7 x) (rotr 18 x)) (Z.shiftr x 3).
Definition sigma1 (x : Z) : Z := Z.lxor (Z.lxor (rotr 17 x) (rotr 19 x)) (Z.shiftr x 10).

(** [pad]: one 1 bit, zeros to 56 mod 64, the bit length in 64 bits. *)
Definition pad (m : bytes) : bytes :=
  let zeros := Z.to_nat ((55 - len m) mod 64) in
  m ++ [128] ++ replicate zeros 0 ++ put_u64 (u64 (8 * len m)).

Fixpoint chunks (n : nat) (fuel : nat) (l : bytes) : list bytes :=
  match fuel, l with
  | S f, _ :: _ => take n l :: chunks n f (drop n l)
  | _, _ => []
  end.

(** The schedule is kept newest first: [w] is W[t-1], W[t-2], ... *)
Definition next_word (w : list Z) : Z :=
  let at_ i := nth i w 0 in
  u32 (sigma1 (at_ 1%nat) + at_ 6%nat + sigma0 (at_ 14%nat) + at_ 15%nat).

Fixpoint extend (n : nat) (w : list Z) : list Z :=
  match n with
  | O => w
  | S n' => extend n' (next_word w :: w)
  end.

Definition schedule (block : bytes) : list Z :=
  rev (extend 48 (rev (be_get <$> chunks 4 16 block))).

Definition round (s : list Z) (kw : Z * Z) : list Z :=
  match s with
  | [a; b; c; d; e; f; g; h] =>
    let t1 := h + Sigma1 e + Ch e f g + fst kw + snd kw in
    let t2 := Sigma0 a + Maj a b c in
    [u32 (t1 + t2); a; b; c; u32 (d + t1); e; f; g]
  | _ => s
  end.

Definition compress (s : list Z) (block : bytes) : list Z :=
  zip_with (fun x y => u32 (x + y)) s (fold_left round (zip round_constants (schedule block)) s).

Definition Sum256 (m : bytes) : bytes :=
  let p := pad m in
  concat (put_u32 <$> fold_left compress (chunks 64 (length p) p) initial_state).

(** [hex.EncodeToString(sum[:])]. *)
Definition sha256_hex (m : bytes) : bytes := hex_encode (Sum256 m).

(** FIPS 180-4 vectors: the empty string, "abc" and a two-block message. *)
Lemma Sum256_empty :
  sha256_hex [] = str "e3b0c44298fc1c149afbf4c8996fb92427ae41e4649b934ca495991b7852b855".
Proof. vm_compute. reflexivity. Qed.

Lemma Sum256_abc :
  sha256_hex (str "abc") = str "ba7816bf8f01cfea414140de5dae2223b00361a396177a9cb410ff61f20015ad".
Proof. vm_compute. reflexivity. Qed.

Lemma Sum256_two_blocks :
  sha256_hex (str "abcdbcdecdefdefgefghfghighijhijkijkljklmklmnlmnomnopnopq")
  = str "248d6a61d20638b8e5c026930c3e6039a33ce45964ff2167f6ecedd419db06c1".
Proof. vm_compute. reflexivity. Qed.

Lemma round_length s kw : length (round s kw) = length s.
Proof. unfold round. do 9 (destruct s as [|? s]; [done|]). done. Qed.

Lemma fold_round_length l s : length (fold_left round l s) = length s.
Proof. revert s. induction l as [|x l IH]; intros s; [done|]. cbn. rewrite IH. apply round_length. Qed.

Lemma compress_length s b : length (compress s b) = length s.
Proof. unfold compress. rewrite length_zip_with, fold_round_length. lia. Qed.

Lemma fold_compress_length l s : length (fold_left compress l s) = length s.
Proof. revert s. induction l as [|x l IH]; intros s; [done|]. cbn. rewrite IH. apply compress_length. Qed.

Lemma concat_put_u32_length l : length (concat (put_u32 <$> l)) = (4 * length l)%nat.
Proof. induction l as [|x l IH]; [done|]. cbn [fmap list_fmap concat]. rewrite length_app, IH. cbn. lia. Qed.

Lemma Sum256_length m : length (Sum256 m) = 32%nat.
Proof. unfold Sum256. by rewrite concat_put_u32_length, fold_compress_length. Qed.

Lemma Sum256_ok m : bytes_ok (Sum256 m).
Proof.
  unfold Sum256. induction (fold_left _ _ _) as [|x l IH]; [constructor|]. cbn [fmap list_fmap concat].
  apply Forall_app. split; [apply be_put_ok|done].
Qed.

Lemma sha256_hex_length m : length (sha256_hex m) = 64%nat.
Proof. unfold sha256_hex. by rewrite hex_encode_length, Sum256_length. Qed.

(** ** Collisions *)

(** Nothing in [S] collides. *)
Definition collision_free (S : bytes -> Prop) : Prop := forall x y, S x -> S y -> Sum256 x = Sum256 y -> x = y.

(** Pairs of an input and its digest: equal digests are of equal inputs. *)
Fixpoint apart_from (x d : bytes) (l : list (bytes * bytes)) : bool :=
  match l with [] => true | (y, e) :: r => (negb (str_eqb d e) || str_eqb x y) && apart_from x d r end.
Fixpoint apart_all (l : list (bytes * bytes)) : bool :=
  match l with [] => true | (x, d) :: r => apart_from x d r && apart_all r end.
Definition apart (l : list bytes) : bool := apart_all ((fun x => (x, Sum256 x)) <$> l).

Lemma apart_from_spec x l : apart_from x (Sum256 x) ((fun x => (x, Sum256 x)) <$> l) = true -> forall y, y ∈ l -> Sum256 x = Sum256 y -> x = y.
Proof.
  induction l as [|z l IH]; [intros _ ? []%not_elem_of_nil|]. cbn [fmap list_fmap apart_from]. rewrite andb_true_iff. intros [Hz Hl] y [-> |Hy]%elem_of_cons E; [|by apply IH].
  rewrite E, str_eqb_refl in Hz. by destruct (str_eqb_spec x z).
Qed.

Lemma apart_collision_free l : apart l = true -> collision_free (fun x => x ∈ l).
Proof.
  unfold apart. induction l as [|x r IH]; [intros _ ? ? []%not_elem_of_nil|]. cbn [fmap list_fmap apart_all]. rewrite andb_true_iff. intros [Hx Hr].
  pose proof (apart_from_spec x r Hx) as Hxy.
  intros a b [-> |Ha]%elem_of_cons [-> |Hb]%elem_of_cons E; [done|by apply Hxy|by symmetry; apply Hxy|by apply (IH Hr)].
Qed.

#[global] Opaque Sum256.


(** A digest is in normal form. *)
Lemma digest_normal `{UnicodeTables} m : ToLower (TrimSpace (sha256_hex m)) = sha256_hex m.
Proof.
  unfold sha256_hex. pose proof (Sum256_ok m) as Hm. rewrite trimmed_TrimSpace by (by apply trimmed_plain, hex_encode_plain).
  by rewrite ToLower_ascii, hex_encode_lower by (by apply hex_encode_ascii).
Qed.

End Sha256.
