(* ===== verification/GoEncoding.v ===== *)
(** * Text encodings: base64.RawURLEncoding and encoding/json

    [json.Marshal] of the strings, integers and string lists that the signed
    structures are made of, with Go's HTML-safe escapes, and the unpadded
    URL-safe base64 of signatures and keys. Both are shown uniquely
    decodable; for JSON that holds of valid UTF-8, the encoder replacing any
    invalid byte by the escape of U+FFFD. *)

From S2P Require Import Prelude GoStrings.

Module GoEncoding.
Import GoStrings.

(** ** base64.RawURLEncoding *)

Definition b64_char (n : Z) : Z :=
  if n <? 26 then 65 + n else if n <? 52 then 71 + n else if n <? 62 then n - 4
  else if n =? 62 then 45 else 95.

Definition b64_val (c : Z) : option Z :=
  if (65 <=? c) && (c <=? 90) then Some (c - 65) else
  if (97 <=? c) && (c <=? 122) then Some (c - 71) else
  if (48 <=? c) && (c <=? 57) then Some (c + 4) else
  if c =? 45 then Some 62 else if c =? 95 then Some 63 else None.

Fixpoint b64_encode (b : bytes) : bytes :=
  match b with
  | [] => []
  | [x] => [b64_char (x / 4); b64_char (x mod 4 * 16)]
  | [x; y] => [b64_char (x / 4); b64_char (x mod 4 * 16 + y / 16); b64_char (y mod 16 * 4)]
  | x :: y :: z :: r =>
    b64_char (x / 4) :: b64_char (x mod 4 * 16 + y / 16) :: b64_char (y mod 16 * 4 + z / 64) ::
    b64_char (z mod 64) :: b64_encode r
  end.

(** Groups of four characters; a last group of two or three carries one or
    two bytes, its spare bits ignored; one leftover character is an error. *)
Fixpoint b64_groups (s : bytes) : option bytes :=
  match s with
  | [] => Some []
  | [_] => None
  | [a; b] =>
    match b64_val a, b64_val b with
    | Some p, Some q => Some [p * 4 + q / 16]
    | _, _ => None
    end
  | [a; b; c] =>
    match b64_val a, b64_val b, b64_val c with
    | Some p, Some q, Some t => Some [p * 4 + q / 16; q mod 16 * 16 + t / 4]
    | _, _, _ => None
    end
  | a :: b :: c :: d :: r =>
    match b64_val a, b64_val b, b64_val c, b64_val d, b64_groups r with
    | Some p, Some q, Some t, Some w, Some l =>
        Some (p * 4 + q / 16 :: q mod 16 * 16 + t / 4 :: t mod 4 * 64 + w :: l)
    | _, _, _, _, _ => None
    end
  end.

(** [DecodeString] skips CR and LF. *)
Definition b64_decode (s : bytes) : option bytes :=
  b64_groups (filter (fun c => c <> 10 /\ c <> 13) s).

Lemma b64_val_char n : 0 <= n < 64 -> b64_val (b64_char n) = Some n.
Proof.
  intros Hn. assert (exists k : nat, n = Z.of_nat k /\ (k < 64)%nat) as (k & -> & Hk)
    by (exists (Z.to_nat n); lia).
  do 64 (destruct k as [|k]; [reflexivity|]). lia.
Qed.

Lemma b64_char_text n : 0 <= n < 64 -> b64_char n <> 10 /\ b64_char n <> 13.
Proof.
  intros Hn. unfold b64_char.
  repeat (match goal with |- context [if ?x then _ else _] => destruct x eqn:? end); go_bool; lia.
Qed.

(** Six-bit digits of bytes. *)
Ltac sextet := unfold is_u in *; try (Z.to_euclidean_division_equations; lia).

(** Three bytes become four digits and back. *)
Lemma b64_ind (P : bytes -> Prop) :
  P [] -> (forall x, P [x]) -> (forall x y, P [x; y]) ->
  (forall x y z r, P r -> P (x :: y :: z :: r)) -> forall b, P b.
Proof.
  intros H0 H1 H2 H3 b. assert (forall n b, (length b <= n)%nat -> P b) as H; [|by apply (H (length b))].
  induction n as [|n IH]; intros [|x [|y [|z r]]] Hn; cbn in Hn; try lia; auto.
  apply H3, IH. lia.
Qed.

Lemma b64_encode_text b : bytes_ok b -> Forall (fun c => c <> 10 /\ c <> 13) (b64_encode b).
Proof.
  induction b as [|x|x y|x y z r IH] using b64_ind; intros Hb; cbn -[Z.div Z.modulo];
    rewrite ?Forall_cons in *; unfold bytes_ok in Hb; rewrite ?Forall_cons in Hb;
    repeat split; try apply b64_char_text; sextet; try (apply IH; tauto); done.
Qed.

Lemma b64_groups_encode b : bytes_ok b -> b64_groups (b64_encode b) = Some b.
Proof.
  induction b as [|x|x y|x y z r IH] using b64_ind; intros Hb; unfold bytes_ok in *;
    rewrite ?Forall_cons in Hb; cbn -[Z.div Z.modulo]; [done|..].
  - rewrite !b64_val_char by sextet. do 2 f_equal; sextet.
  - rewrite !b64_val_char by sextet. do 2 f_equal; [sextet|]. f_equal; sextet.
  - rewrite !b64_val_char by sextet. rewrite IH by tauto. do 2 f_equal; [sextet|].
    f_equal; [sextet|]. f_equal; sextet.
Qed.

Lemma filter_all {A} (P : A -> Prop) `{!forall x, Decision (P x)} (l : list A) :
  Forall P l -> filter P l = l.
Proof. induction 1; [done|]. by rewrite filter_cons_True, IHForall. Qed.

Lemma b64_roundtrip b : bytes_ok b -> b64_decode (b64_encode b) = Some b.
Proof.
  intros Hb. unfold b64_decode. rewrite filter_all by (by apply b64_encode_text).
  by apply b64_groups_encode.
Qed.

(** ** json.Marshal of strings *)

Definition hex4 (n : Z) : bytes :=
  [hex_digit (n / 4096 mod 16); hex_digit (n / 256 mod 16); hex_digit (n / 16 mod 16); hex_digit (n mod 16)].

(** [htmlSafeSet]: bytes copied as they are. *)
Definition html_safe (b : Z) : bool :=
  (32 <=? b) && (b <? 128) && negb (b =? 34) && negb (b =? 92) &&
  negb (b =? 60) && negb (b =? 62) && negb (b =? 38).

Definition escape_byte (b : Z) : bytes :=
  if (b =? 34) || (b =? 92) then [92; b] else
  if b =? 8 then [92; 98] else if b =? 12 then [92; 102] else if b =? 10 then [92; 110] else
  if b =? 13 then [92; 114] else if b =? 9 then [92; 116] else [92; 117] ++ hex4 b.

(** One step of [appendString]: bytes consumed and text produced. *)
Definition json_step (s : bytes) : nat * bytes :=
  match s with
  | [] => (0%nat, [])
  | b :: _ =>
    if b <? 128 then (1%nat, if html_safe b then [b] else escape_byte b) else
    let '(c, w) := decode_rune s in
    if (c =? RuneError) && Nat.eqb w 1 then (1%nat, [92; 117] ++ hex4 RuneError) else
    if (c =? 8232) || (c =? 8233) then (w, [92; 117] ++ hex4 c) else (w, take w s)
  end.

Fixpoint json_body (fuel : nat) (s : bytes) : bytes :=
  match fuel, s with
  | S f, _ :: _ => let '(w, out) := json_step s in out ++ json_body f (drop w s)
  | _, _ => []
  end.

Definition json_string (s : bytes) : bytes := [34] ++ json_body (length s) s ++ [34].

(** ["a","b"]; the slices marshalled here are never nil. *)
Fixpoint json_items (l : list bytes) : bytes :=
  match l with
  | [] => []
  | [s] => json_string s
  | s :: r => json_string s ++ [44] ++ json_items r
  end.
Definition json_strings (l : list bytes) : bytes := [91] ++ json_items l ++ [93].

(** [strconv.AppendInt(v, 10)]; twenty digits hold any 64-bit integer. *)
Fixpoint digits (fuel : nat) (n : Z) (acc : bytes) : bytes :=
  match fuel with
  | O => acc
  | S f => let acc := (48 + n mod 10) :: acc in if n / 10 =? 0 then acc else digits f (n / 10) acc
  end.
Definition json_int (v : Z) : bytes := if v <? 0 then 45 :: digits 20 (- v) [] else digits 20 v [].

(** ** Unique decoding

    A reader for what the encoder writes. *)
Definition hex4_val (a b c d : Z) : option Z :=
  match from_hex a, from_hex b, from_hex c, from_hex d with
  | Some p, Some q, Some t, Some w => Some (p * 4096 + q * 256 + t * 16 + w)
  | _, _, _, _ => None
  end.

Definition prepend (raw : bytes) (o : option (bytes * bytes)) : option (bytes * bytes) :=
  match o with Some (s, rest) => Some (raw ++ s, rest) | None => None end.

Definition unescape_char (e : Z) : Z :=
  if e =? 98 then 8 else if e =? 102 then 12 else if e =? 110 then 10 else
  if e =? 114 then 13 else if e =? 116 then 9 else e.

(** The string up to its closing quote, and what follows. *)
Fixpoint json_read (t : bytes) : option (bytes * bytes) :=
  match t with
  | [] => None
  | x :: r =>
    if x =? 34 then Some ([], r) else
    if x =? 92 then
      match r with
      | [] => None
      | e :: r1 =>
        if e =? 117 then
          match r1 with
          | a :: b :: c :: d :: r2 =>
            match hex4_val a b c d with Some v => prepend (encode_rune v) (json_read r2) | None => None end
          | _ => None
          end
        else prepend [unescape_char e] (json_read r1)
      end
    else prepend [x] (json_read r)
  end.

(** Strings that are valid UTF-8. *)
Fixpoint utf8_fuel (fuel : nat) (s : bytes) : bool :=
  match fuel, s with
  | S f, _ :: _ =>
    let '(c, w) := decode_rune s in
    negb ((c =? RuneError) && Nat.eqb w 1) && utf8_fuel f (drop w s)
  | _, _ => true
  end.
Definition utf8_valid (s : bytes) : bool := utf8_fuel (length s) s.

Ltac decode_cases :=
  repeat (match goal with
          | |- context [if ?x then _ else _] => destruct x eqn:?
          | |- context [match ?l with [] => _ | _ :: _ => _ end] => destruct l as [|? ?]
          end; cbn -[Z.ltb Z.leb Z.eqb Z.mul Z.sub accept_lo accept_hi is_cont Z.div Z.modulo]).

(** A rune read from two or more bytes is encoded by those bytes. *)
Lemma decode_encode s c w : decode_rune s = (c, w) -> (2 <= w)%nat ->
  encode_rune c = take w s /\ 128 <= c.
Proof.
  unfold decode_rune. destruct s as [|b0 r]; [by intros [= <- <-]; lia|].
  assert (160 = accept_lo 224 /\ 159 = accept_hi 237 /\ 144 = accept_lo 240 /\ 143 = accept_hi 244) as Hk by done.
  assert (128 <= accept_lo b0 /\ accept_hi b0 <= 191 /\ (b0 = 224 -> accept_lo b0 = 160) /\
          (b0 = 237 -> accept_hi b0 = 159) /\ (b0 = 240 -> accept_lo b0 = 144) /\ (b0 = 244 -> accept_hi b0 = 143)) as Hr.
  { unfold accept_lo, accept_hi. repeat case_match; go_bool; lia. }
  clear Hk. decode_cases; intros [= <- <-] Hw; try lia; unfold is_cont, bits6 in *;
    repeat match goal with
    | H : negb _ = false |- _ => apply negb_false_iff in H
    | H : _ && _ = true |- _ => apply andb_true_iff in H as [? ?]
    | H : _ || _ = false |- _ => apply orb_false_iff in H as [? ?]
    end; rewrite ?Z.ltb_lt, ?Z.ltb_ge, ?Z.leb_le, ?Z.leb_gt in *; cbn [take].
  - split; [|lia]. unfold encode_rune, RuneError.
    rewrite (proj2 (orb_false_iff _ _)) by
      (rewrite orb_false_iff, andb_false_iff, !Z.ltb_ge, !Z.leb_gt; lia).
    rewrite (proj2 (Z.ltb_ge _ _)) by lia. rewrite (proj2 (Z.ltb_lt _ _)) by lia.
    repeat f_equal; sextet.
  - split; [|lia]. unfold encode_rune, RuneError.
    rewrite (proj2 (orb_false_iff _ _)) by
      (rewrite orb_false_iff, andb_false_iff, !Z.ltb_ge, !Z.leb_gt; lia).
    do 2 rewrite (proj2 (Z.ltb_ge _ _)) by lia. rewrite (proj2 (Z.ltb_lt _ _)) by lia.
    repeat f_equal; sextet.
  - split; [|lia]. unfold encode_rune, RuneError.
    rewrite (proj2 (orb_false_iff _ _)) by
      (rewrite orb_false_iff, andb_false_iff, !Z.ltb_ge, !Z.leb_gt; lia).
    do 3 rewrite (proj2 (Z.ltb_ge _ _)) by lia. repeat f_equal; sextet.
Qed.

Lemma json_read_plain b t : b <> 34 -> b <> 92 -> json_read (b :: t) = prepend [b] (json_read t).
Proof. intros ? ?. cbn. by rewrite !(proj2 (Z.eqb_neq _ _)). Qed.

Lemma prepend_app a b o : prepend a (prepend b o) = prepend (a ++ b) o.
Proof. destruct o as [[s r]|]; [|done]. cbn. by rewrite app_assoc. Qed.

Lemma json_read_high l t : Forall (fun b => 128 <= b) l -> json_read (l ++ t) = prepend l (json_read t).
Proof.
  induction 1 as [|b l Hb _ IH]; cbn [app]; [by destruct (json_read t) as [[]|]|].
  rewrite json_read_plain, IH by lia. by rewrite prepend_app.
Qed.

Lemma json_read_ascii b t : 0 <= b < 128 ->
  json_read ((if html_safe b then [b] else escape_byte b) ++ t) = prepend [b] (json_read t).
Proof.
  intros Hb. assert (exists k : nat, b = Z.of_nat k /\ (k < 128)%nat) as (k & -> & Hk)
    by (exists (Z.to_nat b); lia).
  do 128 (destruct k as [|k]; [reflexivity|]). lia.
Qed.

Lemma json_read_step b s t :
  0 <= b -> let '(c, w) := decode_rune (b :: s) in
  (c =? RuneError) && Nat.eqb w 1 = false ->
  json_read (snd (json_step (b :: s)) ++ t) = prepend (take w (b :: s)) (json_read t) /\
  fst (json_step (b :: s)) = w.
Proof.
  intros Hb. destruct (decode_rune (b :: s)) as [c w] eqn:Ed. intros Hv.
  unfold json_step. rewrite Ed, Hv.
  destruct (Z.ltb_spec b 128) as [Hlt|Hge].
  { cbn -[Z.ltb] in Ed. rewrite (proj2 (Z.ltb_lt _ _)) in Ed by lia. injection Ed as <- <-.
    split; [|done]. apply json_read_ascii. lia. }
  assert (2 <= w)%nat as Hw.
  { pose proof (decode_rune_width (b :: s) ltac:(done)) as Hw. rewrite Ed in Hw. cbn [snd] in Hw.
    destruct w as [|[|w]]; [lia| |lia]. exfalso. rewrite andb_true_r in Hv. revert Ed.
    unfold decode_rune. rewrite (proj2 (Z.ltb_ge _ _)) by lia.
    decode_cases; intros [= <-]; by rewrite Z.eqb_refl in Hv. }
  destruct (decode_encode _ _ _ Ed Hw) as [He Hc].
  destruct (Z.eqb_spec c 8232) as [->|H1]; [by split; [rewrite <- He|]|].
  destruct (Z.eqb_spec c 8233) as [->|H2]; [by split; [rewrite <- He|]|].
  cbn [orb fst snd]. split; [|done]. apply json_read_high. apply Forall_forall. intros x Hx.
  destruct w as [|w]; [lia|]. cbn in Hx. apply elem_of_cons in Hx as [->|Hx]; [done|].
  apply (decode_rune_tail (b :: s)). rewrite Ed. done.
Qed.

Lemma json_read_body fuel : forall s t,
  bytes_ok s -> (length s <= fuel)%nat -> utf8_fuel fuel s = true ->
  json_read (json_body fuel s ++ 34 :: t) = Some (s, t).
Proof.
  induction fuel as [|f IH]; intros s t Hok Hlen Hv.
  { destruct s; [done|cbn in Hlen; lia]. }
  destruct s as [|b s]; [done|]. apply Forall_cons in Hok as [Hb Hok]. cbn [utf8_fuel json_body] in *.
  pose proof (json_read_step b s) as Hs. pose proof (decode_rune_width (b :: s) ltac:(done)) as Hw.
  destruct (decode_rune (b :: s)) as [c w]. apply andb_true_iff in Hv as [Hv1 Hv2].
  apply negb_true_iff in Hv1. destruct (json_step (b :: s)) as [w' out].
  destruct (Hs (json_body f (drop w (b :: s)) ++ 34 :: t) ltac:(unfold is_u in Hb; lia) Hv1) as [E Ew].
  cbn [snd fst] in *. subst w'. rewrite <- app_assoc, E, IH; [..|done].
  - cbn [prepend]. by rewrite take_drop.
  - apply Forall_drop. by constructor.
  - rewrite length_drop. lia.
Qed.

Lemma json_string_prefix s s' t t' :
  bytes_ok s -> bytes_ok s' -> utf8_valid s = true -> utf8_valid s' = true ->
  json_string s ++ t = json_string s' ++ t' -> s = s' /\ t = t'.
Proof.
  intros H1 H2 H3 H4 E. unfold json_string in E. rewrite <- !app_assoc in E. cbn in E. injection E as E.
  apply (f_equal json_read) in E. rewrite !json_read_body in E by done. by injection E as -> ->.
Qed.

Definition text_ok (s : bytes) : Prop := bytes_ok s /\ utf8_valid s = true.

(** What [json.Marshal] and [json.Unmarshal] make of a string: the decoder reads
    U+FFFD for every byte that is not part of a valid sequence. *)
Definition json_text (s : bytes) : bytes := concat (encode_rune <$> runes s).

Lemma encode_ascii b : 0 <= b < 128 -> encode_rune b = [b].
Proof.
  intros Hb. unfold encode_rune. rewrite (proj2 (orb_false_iff _ _)) by (rewrite orb_false_iff, andb_false_iff, !Z.ltb_ge, !Z.leb_gt; lia).
  by rewrite (proj2 (Z.ltb_lt _ _)) by lia.
Qed.

Lemma decode_short b s c : decode_rune (b :: s) = (c, 1%nat) -> 128 <= b -> c = RuneError.
Proof.
  intros Ed Hb. revert Ed. unfold decode_rune. rewrite (proj2 (Z.ltb_ge _ _)) by lia. decode_cases; by intros [= <-].
Qed.

Lemma decode_rune_encode b s c w : 0 <= b -> decode_rune (b :: s) = (c, w) -> (c =? RuneError) && Nat.eqb w 1 = false ->
  encode_rune c = take w (b :: s).
Proof.
  intros Hb Ed Hv. destruct (Z.ltb_spec b 128).
  { cbn -[Z.ltb] in Ed. rewrite (proj2 (Z.ltb_lt _ _)) in Ed by lia. injection Ed as <- <-. apply encode_ascii. lia. }
  assert (2 <= w)%nat by (pose proof (decode_rune_width (b :: s) ltac:(done)) as Hw; rewrite Ed in Hw; cbn [snd] in Hw;
    destruct w as [|[|w]]; [lia| |lia]; apply decode_short in Ed as ->; [by rewrite Z.eqb_refl in Hv|done]).
  by apply decode_encode.
Qed.

Lemma json_text_fuel fuel : forall s, bytes_ok s -> (length s <= fuel)%nat -> utf8_fuel fuel s = true ->
  concat (encode_rune <$> runes_fuel fuel s) = s.
Proof.
  induction fuel as [|f IH]; intros s Hok Hlen Hv; [destruct s; [done|cbn in Hlen; lia]|].
  destruct s as [|b s]; [done|]. pose proof Hok as Hall. apply Forall_cons in Hok as [Hb Hok]. cbn [utf8_fuel runes_fuel] in *.
  pose proof (decode_rune_width (b :: s) ltac:(done)) as Hw. destruct (decode_rune (b :: s)) as [c w] eqn:Ed. cbn [snd] in Hw.
  apply andb_true_iff in Hv as [Hv1%negb_true_iff Hv2]. rewrite fmap_cons. cbn [concat].
  assert (0 <= b) as Hb0 by (unfold is_u in Hb; lia). rewrite (decode_rune_encode _ _ _ _ Hb0 Ed Hv1), IH; [apply take_drop|by apply Forall_drop| |done].
  rewrite length_drop. lia.
Qed.

Lemma json_text_valid s : text_ok s -> json_text s = s.
Proof. intros [Hb Hv]. by apply json_text_fuel. Qed.

Lemma json_read_coerced fuel : forall s t, bytes_ok s -> (length s <= fuel)%nat ->
  json_read (json_body fuel s ++ 34 :: t) = Some (concat (encode_rune <$> runes_fuel fuel s), t).
Proof.
  induction fuel as [|f IH]; intros s t Hok Hlen; [destruct s; [done|cbn in Hlen; lia]|].
  destruct s as [|b s]; [done|]. pose proof Hok as Hall. apply Forall_cons in Hok as [Hb Hok]. cbn [runes_fuel json_body] in *.
  assert (0 <= b) as Hb0 by (unfold is_u in Hb; lia).
  pose proof (decode_rune_width (b :: s) ltac:(done)) as Hw. pose proof (json_read_step b s) as Hs.
  destruct (decode_rune (b :: s)) as [c w] eqn:Ed. cbn [snd] in Hw.
  assert (forall t, json_read (snd (json_step (b :: s)) ++ t) = prepend (encode_rune c) (json_read t) /\ fst (json_step (b :: s)) = w) as Hst.
  { intros u. destruct ((c =? RuneError) && Nat.eqb w 1) eqn:Hv.
    - apply andb_true_iff in Hv as [->%Z.eqb_eq ->%Nat.eqb_eq]. unfold json_step. rewrite Ed.
      destruct (Z.ltb_spec b 128) as [Hlt|Hge]; [|by split].
      cbn -[Z.ltb] in Ed. rewrite (proj2 (Z.ltb_lt _ _)) in Ed by lia. injection Ed as ->. by vm_compute in Hlt.
    - destruct (Hs u Hb0 eq_refl) as [E1 E2]. by rewrite (decode_rune_encode _ _ _ _ Hb0 Ed Hv). }
  destruct (json_step (b :: s)) as [w' out]. cbn [fst snd] in Hst. destruct (Hst []) as [_ ->].
  rewrite <- app_assoc. rewrite (proj1 (Hst _)), IH by (first [by apply Forall_drop|rewrite length_drop; lia]). done.
Qed.

(** Decoding the encoder's text of any string gives [json_text]. *)
Lemma json_string_read s t : bytes_ok s -> exists u, json_string s ++ t = 34 :: u /\ json_read u = Some (json_text s, t).
Proof. intros Hs. eexists. split; [by unfold json_string; rewrite <- !app_assoc|]. cbn [app]. by apply json_read_coerced. Qed.

Lemma json_string_inj s s' t t' : text_ok s -> text_ok s' ->
  json_string s ++ t = json_string s' ++ t' -> s = s' /\ t = t'.
Proof. intros [? ?] [? ?]. by apply json_string_prefix. Qed.

Lemma json_items_cons s r : json_items (s :: r) = json_string s ++ (if decide (r = []) then [] else [44] ++ json_items r).
Proof. destruct r; [by rewrite app_nil_r|done]. Qed.

Lemma json_strings_inj l l' t t' : Forall text_ok l -> Forall text_ok l' ->
  json_strings l ++ t = json_strings l' ++ t' -> l = l' /\ t = t'.
Proof.
  unfold json_strings. intros Hl Hl' E. rewrite <- !app_assoc in E. cbn in E. injection E as E.
  revert l' Hl' t t' E. induction Hl as [|s r Hs Hr IH]; intros l' Hl' t t' E.
  - destruct l' as [|s' r']; [by injection E|]. exfalso. rewrite json_items_cons in E. done.
  - destruct Hl' as [|s' r' Hs' Hr']; [exfalso; by rewrite json_items_cons in E|].
    rewrite !json_items_cons, <- !app_assoc in E. apply json_string_inj in E as [-> E]; [|done..].
    repeat case_decide; subst; cbn in E; try done.
    + by injection E as ->.
    + injection E as E. by apply IH in E as [-> ->].
Qed.

(** *** Integers *)

Definition is_digit (c : Z) : Prop := 48 <= c <= 57.
Definition dec_val (l : bytes) : Z := fold_left (fun a d => a * 10 + (d - 48)) l 0.

Lemma digits_spec f : forall n acc, 0 <= n < 10 ^ Z.of_nat f -> (0 < f)%nat ->
  exists ds, digits f n acc = ds ++ acc /\ Forall is_digit ds /\ dec_val ds = n /\ ds <> [].
Proof.
  induction f as [|f IH]; intros n acc Hn Hf; [lia|]. cbn [digits].
  assert (is_digit (48 + n mod 10)) as Hd by (unfold is_digit; pose proof (Z.mod_pos_bound n 10); lia).
  assert (n = 10 * (n / 10) + n mod 10) as Edm by (apply Z.div_mod; lia).
  destruct (Z.eqb_spec (n / 10) 0) as [E|E].
  - exists [48 + n mod 10]. split_and!; [done|by constructor| |done]. unfold dec_val. cbn [fold_left]. lia.
  - assert (0 <= n / 10 < 10 ^ Z.of_nat f) as Hq.
    { split; [apply Z.div_pos; lia|]. apply Z.div_lt_upper_bound; [lia|].
      replace (Z.of_nat (S f)) with (Z.succ (Z.of_nat f)) in Hn by lia. rewrite Z.pow_succ_r in Hn; lia. }
    destruct (IH (n / 10) ((48 + n mod 10) :: acc) Hq) as (ds & E1 & E2 & E3 & E4).
    { destruct f; [cbn in Hq; lia|lia]. }
    exists (ds ++ [48 + n mod 10]). rewrite E1, <- app_assoc. split_and!; [done|by apply Forall_app; auto| |by destruct ds].
    unfold dec_val in *. rewrite fold_left_app. cbn [fold_left]. rewrite E3. lia.
Qed.

Lemma span_unique {A} (P : A -> Prop) (d d' t t' : list A) :
  Forall P d -> Forall P d' -> (forall x, head t = Some x -> ~ P x) -> (forall x, head t' = Some x -> ~ P x) ->
  d ++ t = d' ++ t' -> d = d' /\ t = t'.
Proof.
  intros Hd. revert d'. induction Hd as [|x d Hx Hd IH]; intros d' Hd' Ht Ht' E.
  - destruct Hd' as [|y d' Hy Hd']; [done|]. cbn in E. subst t. exfalso. by apply (Ht y).
  - destruct Hd' as [|y d' Hy Hd']; cbn in E; [subst t'; exfalso; by apply (Ht' x)|].
    injection E as -> E. apply IH in E as [-> ->]; auto.
Qed.

(** What follows an integer in the texts here is a comma or a brace. *)
Definition int_end (t : bytes) : Prop := forall x, head t = Some x -> ~ is_digit x.

Lemma json_int_inj v v' t t' : 0 <= v < 2 ^ 64 -> 0 <= v' < 2 ^ 64 -> int_end t -> int_end t' ->
  json_int v ++ t = json_int v' ++ t' -> v = v' /\ t = t'.
Proof.
  intros Hv Hv' Ht Ht' E. unfold json_int in E.
  rewrite !(proj2 (Z.ltb_ge _ _)) in E by lia.
  destruct (digits_spec 20 v []) as (ds & E1 & D1 & V1 & _); [cbn; lia|lia|].
  destruct (digits_spec 20 v' []) as (ds' & E2 & D2 & V2 & _); [cbn; lia|lia|].
  rewrite E1, E2, !app_nil_r in E.
  destruct (span_unique is_digit ds ds' t t' D1 D2 Ht Ht' E) as [-> ->]. split; [congruence|done].
Qed.

(** *** The texts contain no control characters *)

Definition printable (s : bytes) : Prop := Forall (fun c => 32 <= c) s.

Lemma printable_app a b : printable (a ++ b) <-> printable a /\ printable b.
Proof. apply Forall_app. Qed.

Lemma hex4_printable n : printable ([92; 117] ++ hex4 n).
Proof.
  assert (forall k, 32 <= hex_digit (k mod 16)) as H.
  { intros k. pose proof (Z.mod_pos_bound k 16 ltac:(lia)). unfold hex_digit. case_match; lia. }
  repeat (apply Forall_cons; split; [first [apply H|lia]|]). constructor.
Qed.

Lemma json_step_printable s : printable (json_step s).2.
Proof.
  destruct s as [|b s]; [constructor|]. unfold json_step. destruct (Z.ltb_spec b 128) as [Hb|Hb].
  - cbn [snd]. unfold html_safe. destruct (Z.leb_spec 32 b) as [H32|H32]; cbn [andb].
    + case_match; [by repeat constructor|]. unfold escape_byte. repeat case_match; try (repeat constructor; lia). apply hex4_printable.
    + unfold escape_byte. repeat case_match; go_bool; try (repeat constructor; lia); try lia. apply hex4_printable.
  - destruct (decode_rune (b :: s)) as [c w] eqn:Ed. case_match; [apply hex4_printable|]. case_match; [apply hex4_printable|]. cbn [snd].
    destruct w as [|w]; [constructor|]. cbn [take]. apply Forall_cons. split; [lia|]. apply Forall_forall. intros x Hx.
    pose proof (decode_rune_tail (b :: s) x) as Ht. rewrite Ed in Ht. cbn in Ht. specialize (Ht Hx). lia.
Qed.

Lemma json_string_printable s : printable (json_string s).
Proof.
  unfold json_string. rewrite !printable_app. split; [repeat constructor; lia|]. split; [|repeat constructor; lia]. generalize (length s) as f.
  intros f. revert s. induction f as [|f IH]; intros [|b s]; cbn [json_body]; try constructor. pose proof (json_step_printable (b :: s)) as Hs.
  destruct (json_step (b :: s)) as [w out]. apply printable_app. split; [done|apply IH].
Qed.

Lemma json_int_printable v : printable (json_int v).
Proof.
  assert (forall f n acc, printable acc -> printable (digits f n acc)) as Hd.
  { induction f as [|f IH]; intros n acc Ha; cbn [digits]; [done|].
    assert (printable ((48 + n mod 10) :: acc)) by (apply Forall_cons; split; [pose proof (Z.mod_pos_bound n 10 ltac:(lia)); lia|done]). case_match; [done|by apply IH]. }
  unfold json_int. case_match; [apply Forall_cons; split; [lia|]|]; apply Hd; constructor.
Qed.

#[global] Opaque json_string json_strings json_int.

(** A checker for texts. *)
(** ASCII is text. *)
Lemma ascii_text s : Forall (fun b => 0 <= b < 128) s -> text_ok s.
Proof.
  intros Hs. split; [eapply Forall_impl; [exact Hs|]; unfold is_u; cbn; lia|]. unfold utf8_valid. assert (forall fuel, (length s <= fuel)%nat -> utf8_fuel fuel s = true) as Hf; [|by apply Hf].
  induction Hs as [|b s Hb _ IH]; intros [|fuel] Hl; cbn [length] in Hl; try done; try lia. cbn [utf8_fuel]. unfold decode_rune. rewrite (proj2 (Z.ltb_lt b 128)) by lia. cbn [snd drop].
  rewrite IH by lia. rewrite andb_true_r. apply negb_true_iff, andb_false_iff. left. apply Z.eqb_neq. unfold RuneError. lia.
Qed.

Definition text_okb (s : bytes) : bool := forallb (fun b => (0 <=? b) && (b <? 256)) s && utf8_valid s.

Lemma text_okb_ok s : text_okb s = true -> text_ok s.
Proof.
  unfold text_okb. rewrite andb_true_iff. intros [Hs Hu]. split; [|done]. rewrite forallb_forall in Hs. apply Forall_forall.
  intros x Hx. apply list_elem_of_In, Hs in Hx. rewrite andb_true_iff, Z.leb_le, Z.ltb_lt in Hx. unfold is_u. lia.
Qed.

(** ** base64 text *)

Lemma b64_char_plain n : 0 <= n < 64 -> 33 <= b64_char n < 128.
Proof. intros Hn. unfold b64_char. repeat case_match; lia. Qed.

Lemma b64_plain b : bytes_ok b -> Forall (fun c => 33 <= c < 128) (b64_encode b).
Proof.
  induction b as [|x|x y|x y z r IH] using b64_ind; intros Hb; cbn [b64_encode]; unfold bytes_ok in Hb; rewrite ?Forall_cons in Hb;
    repeat (apply Forall_cons; split; [apply b64_char_plain; destruct_and?; sextet|]); try done. apply IH. tauto.
Qed.

Lemma b64_trimmed b : bytes_ok b -> b64_decode (TrimSpace (b64_encode b)) = Some b.
Proof. intros Hb. rewrite trimmed_TrimSpace by (by apply trimmed_plain, b64_plain). by apply b64_roundtrip. Qed.

Lemma b64_encode_nonempty b : b <> [] -> b64_encode b <> [].
Proof. by destruct b as [|x [|y [|z r]]]. Qed.

(** ** Lists and maps of strings *)

Fixpoint json_list (l : list bytes) : bytes :=
  match l with
  | [] => []
  | [x] => x
  | x :: r => x ++ [44] ++ json_list r
  end.

(** A map of strings, its keys sorted. *)
Definition json_string_map (m : gmap bytes bytes) : bytes :=
  [123] ++ json_list ((fun kv => json_string kv.1 ++ [58] ++ json_string kv.2) <$> sort_by (fun a b => str_ltb a.1 b.1) (map_to_list m)) ++ [125].

End GoEncoding.
