(* ===== verification/AuthProof.v ===== *)
(** * Signed grants, node contexts and replay protection (authproof)

    proof.go, node_context.go and authority.go: normalisation and validation
    of grants and node contexts, the canonical JSON that is signed, signature
    verification with its time, audience and capability checks, the nonce
    cache and the authority levels. Ed25519 itself is an interface. *)

From S2P Require Import Prelude GoStrings Sha256 GoEncoding.

Module AuthProof.
Import GoStrings Sha256 GoEncoding.

(** ** Constants and errors (proof.go) *)

Definition Version := str "weaverssh.auth.v1".
Definition Algorithm := str "Ed25519".

Definition CapabilityX11Relay := str "x11.relay".
Definition CapabilityWebSocketUpgrade := str "websocket.upgrade".
Definition CapabilitySocksProxy := str "socks.proxy".
Definition CapabilityFileBackhaul := str "file.backhaul".
Definition CapabilityVFSMesh := str "vfs.mesh".
Definition CapabilityNodeContext := str "node.context".
Definition CapabilityMapReduce := str "compute.mapreduce".

(** The error values the code wraps; the message texts are left out. *)
Inductive auth_error : Type :=
| ErrInvalidGrant
| ErrInvalidSignature
| ErrExpiredGrant
| ErrNotYetValid
| ErrWrongAudience
| ErrWrongSubject
| ErrMissingCapability
| ErrWrongX11CookieHash
| ErrWrongChainHash
| ErrGrantTTLTooLong
| ErrReplay
| ErrInvalidSecurityLevel
| ErrInsufficientAuthority
| ErrWrongSecurityLevel.

Definition PublicKeySize : Z := 32.
Definition PrivateKeySize : Z := 64.
Definition SignatureSize : Z := 64.

(** What the code relies on of crypto/ed25519. *)
Class Ed25519 : Type := {
  ed_public : bytes -> bytes;
  ed_sign : bytes -> bytes -> bytes;
  ed_verify : bytes -> bytes -> bytes -> bool
}.

Class Ed25519Laws `{Ed25519} : Prop := {
  ed_public_size : forall k, len k = PrivateKeySize -> len (ed_public k) = PublicKeySize;
  ed_sign_size : forall k m, len (ed_sign k m) = SignatureSize;
  ed_sign_bytes : forall k m, bytes_ok k -> bytes_ok (ed_sign k m);
  ed_sign_verifies : forall k m, len k = PrivateKeySize -> ed_verify (ed_public k) m (ed_sign k m) = true
}.

(** ** Authority levels (authority.go) *)

Definition SecurityLevelCompat := str "compat".
Definition SecurityLevelSameUID := str "same_uid".
Definition SecurityLevelX11Cookie := str "x11_cookie".
Definition SecurityLevelAgentProof := str "agent_proof".
Definition SecurityLevelStrict := str "strict".

Inductive requirement : Type :=
| RequirementNoAdditionalCheck
| RequirementSameUID
| RequirementX11Cookie
| RequirementAgentKeyProof.

#[global] Instance requirement_eq_dec : EqDecision requirement.
Proof. solve_decision. Defined.

Record AuthorityEvidence := mkEvidence {
  SameUID : bool;
  X11CookieMatched : bool;
  AgentSocketPresent : bool;
  AgentKeyProofVerified : bool;
  PrincipalUID : bytes;
  ComponentUID : bytes
}.

Record AuthorityDecision := mkDecision {
  Level : bytes;
  Allowed : bool;
  Required : list requirement;
  Missing : list requirement;
  Notes : list bytes
}.

Abbreviation NonceCache := (gmap bytes Z).

(** One of the string constants of a [switch] case. *)
Definition one_of (s : bytes) (cases : list bytes) : bool := existsb (str_eqb s) cases.

Section Unicode.
Context `{UnicodeTables}.

Definition dash_to_underscore (b : Z) : Z := if b =? 45 then 95 else b.

(** The subject of the [switch] in [NormalizeSecurityLevel]. *)
Definition level_key (level : bytes) : bytes := ToLower (TrimSpace (dash_to_underscore <$> level)).

Definition compat_names := [[]; str "auto"; SecurityLevelCompat].
Definition same_uid_names := [str "sameuid"; str "same_uid"; str "uid"].
Definition x11_cookie_names := [str "cookie"; str "x11"; str "x11_cookie"; str "mit_cookie"; str "mit_magic_cookie"].
Definition agent_names :=
  [str "agent"; str "agent_proof"; str "ssh_agent"; str "ssh_agent_proof"; str "key_proof"; str "private_key"].

Definition NormalizeSecurityLevel (level : bytes) : bytes :=
  let key := level_key level in
  if one_of key compat_names then SecurityLevelCompat else
  if one_of key same_uid_names then SecurityLevelSameUID else
  if one_of key x11_cookie_names then SecurityLevelX11Cookie else
  if one_of key agent_names then SecurityLevelAgentProof else
  if one_of key [SecurityLevelStrict] then SecurityLevelStrict
  else ToLower (TrimSpace level).

Definition KnownSecurityLevel (level : bytes) : bool :=
  one_of (NormalizeSecurityLevel level)
    [SecurityLevelCompat; SecurityLevelSameUID; SecurityLevelX11Cookie; SecurityLevelAgentProof; SecurityLevelStrict].

Definition ValidateSecurityLevel (level : bytes) : option auth_error :=
  if negb (KnownSecurityLevel level) then Some ErrInvalidSecurityLevel else None.

Definition SecurityLevelRequiresSignedProof (level : bytes) : bool :=
  one_of (NormalizeSecurityLevel level) [SecurityLevelAgentProof; SecurityLevelStrict].

Definition SecurityLevelRequirements (level : bytes) : list requirement :=
  let l := NormalizeSecurityLevel level in
  if str_eqb l SecurityLevelCompat then [RequirementNoAdditionalCheck] else
  if str_eqb l SecurityLevelSameUID then [RequirementSameUID] else
  if str_eqb l SecurityLevelX11Cookie then [RequirementSameUID; RequirementX11Cookie] else
  if str_eqb l SecurityLevelAgentProof then [RequirementX11Cookie; RequirementAgentKeyProof] else
  if str_eqb l SecurityLevelStrict then [RequirementSameUID; RequirementX11Cookie; RequirementAgentKeyProof]
  else [].

(** The [switch] over one requirement. *)
Definition satisfied (e : AuthorityEvidence) (r : requirement) : bool :=
  match r with
  | RequirementNoAdditionalCheck => true
  | RequirementSameUID => SameUID e
  | RequirementX11Cookie => X11CookieMatched e
  | RequirementAgentKeyProof => AgentKeyProofVerified e
  end.

(** The decision is returned next to the error. *)
Definition EvaluateAuthority (level : bytes) (evidence : AuthorityEvidence)
    : AuthorityDecision * option auth_error :=
  let normalized := NormalizeSecurityLevel level in
  match ValidateSecurityLevel normalized with
  | Some err => (mkDecision normalized false [] [] [], Some err)
  | None =>
    let required := SecurityLevelRequirements normalized in
    let missing := List.filter (fun r => negb (satisfied evidence r)) required in
    let notes :=
      (if AgentSocketPresent evidence && negb (AgentKeyProofVerified evidence)
       then [str "agent_socket_present_without_verified_key_proof"] else []) ++
      (if negb (str_eqb (PrincipalUID evidence) []) && negb (str_eqb (ComponentUID evidence) []) &&
          str_eqb (PrincipalUID evidence) (ComponentUID evidence) && negb (SameUID evidence)
       then [str "uid_fields_match_but_same_uid_flag_not_set"] else []) in
    let allowed := len missing =? 0 in
    (mkDecision normalized allowed required missing notes,
     if negb allowed then Some ErrInsufficientAuthority else None)
  end.

(** ** Helpers of proof.go *)

(** The loop of [normalizeCapabilities] and [normalizeNodeContextNodes]: trim,
    drop empty and repeated values, keep the first occurrence. *)
Fixpoint dedup_trim (seen : list bytes) (l : list bytes) : list bytes :=
  match l with
  | [] => []
  | v :: r =>
    let t := TrimSpace v in
    if str_eqb t [] || existsb (str_eqb t) seen then dedup_trim seen r
    else t :: dedup_trim (t :: seen) r
  end.

Definition normalizeCapabilities (caps : list bytes) : list bytes := sort_by str_ltb (dedup_trim [] caps).

Definition hasCapability (caps : list bytes) (required : bytes) : bool :=
  existsb (fun c => str_eqb c (TrimSpace required)) caps.

Definition knownCapability (cap : bytes) : bool :=
  one_of cap [CapabilityX11Relay; CapabilityWebSocketUpgrade; CapabilitySocksProxy; CapabilityFileBackhaul;
              CapabilityVFSMesh; CapabilityNodeContext; CapabilityMapReduce].

Definition lower_hex_rune (ch : Z) : bool := ((48 <=? ch) && (ch <=? 57)) || ((97 <=? ch) && (ch <=? 102)).

Definition isLowerHexSHA256 (s : bytes) : bool :=
  if negb (len s =? 64) then false else forallb lower_hex_rune (runes s).

(** [SHA256Hex] is [Sha256.sha256_hex]. *)

(** ** NonceCache

    A nil cache is [None]; Go deletes the expired entries while ranging over
    the map. *)
Definition CheckAndStore (c : option NonceCache) (nonce : bytes) (expiresAtUnix now : Z)
    : option auth_error * option NonceCache :=
  match c with
  | None => (None, None)
  | Some seen =>
    let seen := filter (fun kv => Unix now < snd kv) seen in
    match seen !! nonce with
    | Some _ => (Some ErrReplay, Some seen)
    | None => (None, Some (<[nonce := expiresAtUnix]> seen))
    end
  end.

(** ** Grants *)

Record Grant := mkGrant {
  g_version : bytes;
  g_algorithm : bytes;
  IssuerPeerID : bytes;
  SubjectPeerID : bytes;
  Audience : bytes;
  SessionID : bytes;
  Capabilities : list bytes;
  SecurityLevel : bytes;
  X11CookieSHA256 : bytes;
  ChainSHA256 : bytes;
  Nonce : bytes;
  IssuedAtUnix : Z;
  ExpiresAtUnix : Z
}.

Record SignedGrant := mkSignedGrant {
  sg_grant : Grant;
  sg_signature : bytes
}.

Record VerifyOptions := mkVerifyOptions {
  o_now : Z;
  o_audience : bytes;
  o_subject : bytes;
  RequiredCapabilities : list bytes;
  o_level : bytes;
  o_x11 : bytes;
  o_chain : bytes;
  MaxTTL : Z
}.

Definition or_default (s d : bytes) : bytes := if str_eqb s [] then d else s.

Definition Grant_Normalized (g : Grant) : Grant :=
  let level := NormalizeSecurityLevel (SecurityLevel g) in
  {| g_version := or_default (g_version g) Version;
     g_algorithm := or_default (g_algorithm g) Algorithm;
     IssuerPeerID := TrimSpace (IssuerPeerID g);
     SubjectPeerID := TrimSpace (SubjectPeerID g);
     Audience := TrimSpace (Audience g);
     SessionID := TrimSpace (SessionID g);
     Capabilities := normalizeCapabilities (Capabilities g);
     SecurityLevel := if str_eqb level SecurityLevelCompat then [] else level;
     X11CookieSHA256 := ToLower (TrimSpace (X11CookieSHA256 g));
     ChainSHA256 := ToLower (TrimSpace (ChainSHA256 g));
     Nonce := TrimSpace (Nonce g);
     IssuedAtUnix := IssuedAtUnix g;
     ExpiresAtUnix := ExpiresAtUnix g |}.

(** [Validate]'s checks in order, on the normalised grant; the range over the
    map of required fields may report any empty one, always as
    [ErrInvalidGrant]. *)
Definition Grant_Validate (g0 : Grant) : option auth_error :=
  let g := Grant_Normalized g0 in
  if negb (str_eqb (g_version g) Version) then Some ErrInvalidGrant else
  if negb (str_eqb (g_algorithm g) Algorithm) then Some ErrInvalidGrant else
  if existsb (fun v => str_eqb v [])
       [IssuerPeerID g; SubjectPeerID g; Audience g; SessionID g; Nonce g; X11CookieSHA256 g; ChainSHA256 g]
  then Some ErrInvalidGrant else
  if len (Capabilities g) =? 0 then Some ErrInvalidGrant else
  if negb (str_eqb (SecurityLevel g) []) && negb (KnownSecurityLevel (SecurityLevel g))
  then Some ErrInvalidSecurityLevel else
  if negb (isLowerHexSHA256 (X11CookieSHA256 g)) then Some ErrInvalidGrant else
  if negb (isLowerHexSHA256 (ChainSHA256 g)) then Some ErrInvalidGrant else
  if (IssuedAtUnix g <=? 0) || (ExpiresAtUnix g <=? 0) || (ExpiresAtUnix g <=? IssuedAtUnix g)
  then Some ErrInvalidGrant else
  if negb (forallb knownCapability (Capabilities g)) then Some ErrInvalidGrant else None.

(** ["key":value] and the object of the exported fields in order; the
    security level has [omitempty]. *)
Definition json_field (k : string) (v : bytes) : bytes := json_string (str k) ++ [58] ++ v.

Definition marshal_grant (g : Grant) : bytes :=
  [123] ++ json_field "version" (json_string (g_version g)) ++
  [44] ++ json_field "algorithm" (json_string (g_algorithm g)) ++
  [44] ++ json_field "issuer_peer_id" (json_string (IssuerPeerID g)) ++
  [44] ++ json_field "subject_peer_id" (json_string (SubjectPeerID g)) ++
  [44] ++ json_field "audience" (json_string (Audience g)) ++
  [44] ++ json_field "session_id" (json_string (SessionID g)) ++
  [44] ++ json_field "capabilities" (json_strings (Capabilities g)) ++
  (if str_eqb (SecurityLevel g) [] then [] else [44] ++ json_field "security_level" (json_string (SecurityLevel g))) ++
  [44] ++ json_field "x11_cookie_sha256" (json_string (X11CookieSHA256 g)) ++
  [44] ++ json_field "chain_sha256" (json_string (ChainSHA256 g)) ++
  [44] ++ json_field "nonce" (json_string (Nonce g)) ++
  [44] ++ json_field "issued_at_unix" (json_int (IssuedAtUnix g)) ++
  [44] ++ json_field "expires_at_unix" (json_int (ExpiresAtUnix g)) ++ [125].

Definition CanonicalBytes (g0 : Grant) : result auth_error bytes :=
  let g := Grant_Normalized g0 in
  match Grant_Validate g with
  | Some err => Err err
  | None => Ok (marshal_grant g)
  end.

(** [time.Duration(expires-issued) * time.Second > maxTTL], in int64. *)
Definition ttl_too_long (issued expires maxTTL : Z) : bool :=
  (0 <? maxTTL) && (maxTTL <? i64 (i64 (expires - issued) * second)).

Section Ed25519.
Context `{Ed25519}.

Definition SignGrant (g : Grant) (privateKey : bytes) : result auth_error SignedGrant :=
  if negb (len privateKey =? PrivateKeySize) then Err ErrInvalidGrant else
  let* canonical := CanonicalBytes g in
  Ok (mkSignedGrant (Grant_Normalized g) (b64_encode (ed_sign privateKey canonical))).

(** The signature check shared by grants and node contexts. *)
Definition check_signature (publicKey canonical signature : bytes) : option auth_error :=
  match b64_decode signature with
  | None => Some ErrInvalidSignature
  | Some sig =>
    if negb (len sig =? SignatureSize) then Some ErrInvalidSignature else
    if negb (ed_verify publicKey canonical sig) then Some ErrInvalidSignature else None
  end.

(** [clock] is the reading of [time.Now] used when no time is given. *)
Definition VerifySignedGrant (sg : SignedGrant) (publicKey : bytes) (opts : VerifyOptions)
    (cache : option NonceCache) (clock : Z) : result auth_error Grant * option NonceCache :=
  if negb (len publicKey =? PublicKeySize) then (Err ErrInvalidGrant, cache) else
  let grant := Grant_Normalized (sg_grant sg) in
  match Grant_Validate grant with Some e => (Err e, cache) | None =>
  match CanonicalBytes grant with Err e => (Err e, cache) | Ok canonical =>
  match check_signature publicKey canonical (sg_signature sg) with Some e => (Err e, cache) | None =>
  let now := if IsZero (o_now opts) then clock else o_now opts in
  let nowUnix := Unix now in
  if nowUnix <? IssuedAtUnix grant then (Err ErrNotYetValid, cache) else
  if ExpiresAtUnix grant <=? nowUnix then (Err ErrExpiredGrant, cache) else
  if ttl_too_long (IssuedAtUnix grant) (ExpiresAtUnix grant) (MaxTTL opts) then (Err ErrGrantTTLTooLong, cache) else
  if negb (str_eqb (o_audience opts) []) && negb (str_eqb (Audience grant) (o_audience opts))
  then (Err ErrWrongAudience, cache) else
  if negb (str_eqb (o_subject opts) []) && negb (str_eqb (SubjectPeerID grant) (o_subject opts))
  then (Err ErrWrongSubject, cache) else
  if negb (forallb (hasCapability (Capabilities grant)) (RequiredCapabilities opts))
  then (Err ErrMissingCapability, cache) else
  if negb (str_eqb (o_level opts) []) &&
     negb (str_eqb (NormalizeSecurityLevel (SecurityLevel grant)) (NormalizeSecurityLevel (o_level opts)))
  then (Err ErrWrongSecurityLevel, cache) else
  if negb (str_eqb (o_x11 opts) []) && negb (str_eqb (X11CookieSHA256 grant) (ToLower (TrimSpace (o_x11 opts))))
  then (Err ErrWrongX11CookieHash, cache) else
  if negb (str_eqb (o_chain opts) []) && negb (str_eqb (ChainSHA256 grant) (ToLower (TrimSpace (o_chain opts))))
  then (Err ErrWrongChainHash, cache) else
  match CheckAndStore cache (Nonce grant) (ExpiresAtUnix grant) now with
  | (Some e, cache') => (Err e, cache')
  | (None, cache') => (Ok grant, cache')
  end end end end.

End Ed25519.

End Unicode.

#[global] Arguments NormalizeSecurityLevel : simpl never.
#[global] Arguments normalizeCapabilities : simpl never.
#[global] Arguments isLowerHexSHA256 : simpl never.
#[global] Arguments or_default : simpl never.
#[global] Arguments str_eqb : simpl never.

(** ** Normalisation lemmas *)

Lemma dedup_trim_spec seen l :
  NoDup (dedup_trim seen l) /\
  Forall (fun v => v <> [] /\ trimmed v /\ v ∉ seen) (dedup_trim seen l).
Proof.
  revert seen. induction l as [|v r IH]; intros seen; cbn; [by split; constructor|].
  destruct (str_eqb_spec (TrimSpace v) []) as [|Hne]; cbn [orb]; [apply IH|].
  destruct (existsb _ seen) eqn:E; [apply IH|].
  assert (TrimSpace v ∉ seen) as Hns.
  { intros Hin. apply not_true_iff_false in E. apply E. apply existsb_exists. exists (TrimSpace v).
    split; [by apply list_elem_of_In|apply str_eqb_refl]. }
  destruct (IH (TrimSpace v :: seen)) as [Hnd Hf]. rewrite Forall_forall in Hf. split.
  - constructor; [|done]. intros Hin. apply Hf in Hin as (_ & _ & Hin). apply Hin. by left.
  - constructor; [by split_and!; [|apply TrimSpace_trimmed|]|]. apply Forall_forall.
    intros w Hw. apply Hf in Hw as (? & ? & Hw). split_and!; [done..|]. intros ?. apply Hw. by right.
Qed.

Lemma dedup_trim_id seen l :
  NoDup l -> Forall (fun v => v <> [] /\ trimmed v /\ v ∉ seen) l -> dedup_trim seen l = l.
Proof.
  intros Hnd. revert seen. induction Hnd as [|v r Hv Hnd IH]; intros seen Hf; [done|].
  apply Forall_cons in Hf as [(Hne & Ht & Hs) Hf]. cbn. rewrite (trimmed_TrimSpace v Ht).
  rewrite (proj2 (orb_false_iff _ _)).
  - f_equal. apply IH. apply Forall_forall. intros w Hw. rewrite Forall_forall in Hf.
    destruct (Hf w Hw) as (? & ? & ?). split_and!; [done..|]. apply not_elem_of_cons. split; [|done].
    intros ->. done.
  - split; [by apply bool_decide_false|]. apply not_true_iff_false. rewrite existsb_exists.
    intros (w & Hw & E). destruct (str_eqb_spec v w); [|done]. subst. apply Hs. by apply list_elem_of_In.
Qed.

Lemma normalizeCapabilities_idemp l :
  normalizeCapabilities (normalizeCapabilities l) = normalizeCapabilities l.
Proof.
  unfold normalizeCapabilities. destruct (dedup_trim_spec [] l) as [Hnd Hf].
  rewrite (dedup_trim_id [] (sort_by str_ltb (dedup_trim [] l))).
  - apply sort_by_id, str_sort_in_order.
  - by rewrite sort_by_perm.
  - by rewrite sort_by_perm.
Qed.

Lemma runes_ascii fuel s : (length s <= fuel)%nat ->
  Forall (fun r => r < 128) (runes_fuel fuel s) -> runes_fuel fuel s = s.
Proof.
  revert s. induction fuel as [|f IH]; intros [|b s] Hl; try done; cbn [length runes_fuel] in *; [lia|].
  destruct (decode_rune (b :: s)) as [c w] eqn:Ed. intros Hf. apply Forall_cons in Hf as [Hc Hf].
  destruct (Z.lt_ge_cases b 128) as [Hlt|Hge].
  - unfold decode_rune in Ed. rewrite (proj2 (Z.ltb_lt b 128)) in Ed by lia. injection Ed as <- <-.
    change (drop 1 (b :: s)) with s in *. f_equal. apply IH; [lia|done].
  - exfalso. pose proof (decode_rune_width (b :: s) ltac:(done)) as Hw. rewrite Ed in Hw. cbn [snd] in Hw.
    destruct (decide (w = 1%nat)) as [->|Hw1].
    + pose proof (decode_rune_invalid b s Hge) as Hi. rewrite Ed in Hi. cbn in Hi.
      rewrite Hi in Hc by done. unfold RuneError in Hc. lia.
    + destruct (decode_encode (b :: s) c w Ed ltac:(lia)). lia.
Qed.

(** A lowercase hex digest is plain ASCII: trimming and lowering keep it. *)
Lemma isLowerHexSHA256_plain s : isLowerHexSHA256 s = true ->
  Forall (fun b => 33 <= b < 128) s /\ forall `{UnicodeTables}, ToLower (TrimSpace s) = s.
Proof.
  unfold isLowerHexSHA256. destruct (negb _); [done|]. intros Hf.
  assert (Forall (fun r => lower_hex_rune r = true) (runes s)) as Hr.
  { apply Forall_forall. intros r Hr. rewrite forallb_forall in Hf. apply Hf. by apply list_elem_of_In. }
  assert (runes s = s) as E.
  { apply runes_ascii; [done|]. eapply Forall_impl; [exact Hr|]. intros r. unfold lower_hex_rune.
    rewrite orb_true_iff, !andb_true_iff, !Z.leb_le. lia. }
  rewrite E in Hr. assert (Forall (fun b => 33 <= b < 128 /\ ascii_lower b = b) s) as Hp.
  { eapply Forall_impl; [exact Hr|]. intros r. unfold lower_hex_rune, ascii_lower.
    rewrite orb_true_iff, !andb_true_iff, !Z.leb_le. intros Hx. split; [lia|].
    rewrite (proj2 (andb_false_iff _ _)); [done|]. rewrite !Z.leb_gt. lia. }
  split; [eapply Forall_impl; [exact Hp|]; naive_solver|]. intros U.
  rewrite trimmed_TrimSpace by (apply trimmed_plain; eapply Forall_impl; [exact Hp|]; naive_solver).
  rewrite ToLower_ascii.
  - rewrite <- (list_fmap_id s) at 2. apply list_fmap_ext. intros i x Hx.
    rewrite Forall_forall in Hp. apply Hp. by eapply list_elem_of_lookup_2.
  - apply is_ascii_Forall. eapply Forall_impl; [exact Hp|]. cbn. intros. lia.
Qed.

Section Normal.
Context `{U : UnicodeTables}.

Lemma dash_plain a : dash_to_underscore a = a \/ (33 <= a < 128 /\ 33 <= dash_to_underscore a < 128).
Proof. unfold dash_to_underscore. destruct (Z.eqb_spec a 45); lia. Qed.
Lemma lower_plain a : ascii_lower a = a \/ (33 <= a < 128 /\ 33 <= ascii_lower a < 128).
Proof. unfold ascii_lower. destruct ((65 <=? a) && (a <=? 90)) eqn:E; go_bool; lia. Qed.
Lemma lower_idemp a : ascii_lower (ascii_lower a) = ascii_lower a.
Proof.
  unfold ascii_lower. destruct ((65 <=? a) && (a <=? 90)) eqn:E; [|by rewrite E].
  go_bool. by rewrite (proj2 (Z.leb_gt (a + 32) 90)), andb_false_r by lia.
Qed.
Lemma lower_dash a : ascii_lower (dash_to_underscore (ascii_lower a)) = ascii_lower (dash_to_underscore a).
Proof.
  unfold dash_to_underscore. unfold ascii_lower at 2 3. destruct ((65 <=? a) && (a <=? 90)) eqn:E; [|done].
  go_bool. rewrite !(proj2 (Z.eqb_neq _ _)) by lia. unfold ascii_lower.
  rewrite (proj2 (Z.leb_gt (a + 32) 90)), andb_false_r by lia.
  by rewrite (proj2 (Z.leb_le 65 a)), (proj2 (Z.leb_le a 90)) by lia.
Qed.

Lemma ascii_map f s : (forall a, a < 128 -> f a < 128) -> is_ascii s = true -> is_ascii (f <$> s) = true.
Proof. rewrite !is_ascii_Forall. intros Hf Hs. rewrite Forall_fmap. eapply Forall_impl; [exact Hs|]. auto. Qed.
Lemma lower_lt a : a < 128 -> ascii_lower a < 128.
Proof. destruct (lower_plain a) as [->|?]; lia. Qed.
Lemma dash_lt a : a < 128 -> dash_to_underscore a < 128.
Proof. destruct (dash_plain a) as [->|?]; lia. Qed.
#[local] Hint Resolve ascii_map lower_lt dash_lt : core.

Lemma ascii_lower_level_key x : is_ascii x = true -> level_key (ToLower x) = level_key x.
Proof.
  intros Hx. unfold level_key. rewrite (ToLower_ascii x) by done.
  rewrite !(TrimSpace_map dash_to_underscore dash_plain), (TrimSpace_map ascii_lower lower_plain).
  assert (is_ascii (TrimSpace x) = true) as Ht
    by (rewrite is_ascii_Forall in *; by apply TrimSpace_Forall).
  rewrite !ToLower_ascii by auto. rewrite <- !list_fmap_compose. apply list_fmap_ext.
  intros _ a _. cbn. apply lower_dash.
Qed.

Lemma lower_trim_idemp s : is_ascii s = true ->
  ToLower (TrimSpace (ToLower (TrimSpace s))) = ToLower (TrimSpace s).
Proof.
  intros Hs. assert (is_ascii (TrimSpace s) = true) as Ht
    by (rewrite is_ascii_Forall in *; by apply TrimSpace_Forall).
  rewrite (ToLower_ascii (TrimSpace s)) by done.
  rewrite (TrimSpace_map ascii_lower lower_plain), TrimSpace_idemp.
  rewrite ToLower_ascii by auto. rewrite <- list_fmap_compose. apply list_fmap_ext.
  intros _ a _. apply lower_idemp.
Qed.

Lemma NormalizeSecurityLevel_cases level :
  (exists c, In c [SecurityLevelCompat; SecurityLevelSameUID; SecurityLevelX11Cookie; SecurityLevelAgentProof; SecurityLevelStrict] /\
     (forall level', level_key level' = level_key level -> NormalizeSecurityLevel level' = c)) \/
  (forall level', level_key level' = level_key level -> NormalizeSecurityLevel level' = ToLower (TrimSpace level')).
Proof.
  unfold NormalizeSecurityLevel. generalize (level_key level). intros k.
  destruct (one_of k compat_names) eqn:E1; [left; eexists; split; [by left|]; intros l ->; by rewrite E1|].
  destruct (one_of k same_uid_names) eqn:E2; [left; eexists; split; [by right; left|]; intros l ->; by rewrite E1, E2|].
  destruct (one_of k x11_cookie_names) eqn:E3;
    [left; eexists; split; [by right; right; left|]; intros l ->; by rewrite E1, E2, E3|].
  destruct (one_of k agent_names) eqn:E4;
    [left; eexists; split; [by right; right; right; left|]; intros l ->; by rewrite E1, E2, E3, E4|].
  destruct (one_of k [SecurityLevelStrict]) eqn:E5;
    [left; eexists; split; [by right; right; right; right; left|]; intros l ->; by rewrite E1, E2, E3, E4, E5|].
  right. intros l ->. by rewrite E1, E2, E3, E4, E5.
Qed.

Lemma NormalizeSecurityLevel_idemp level : is_ascii level = true ->
  NormalizeSecurityLevel (NormalizeSecurityLevel level) = NormalizeSecurityLevel level.
Proof.
  intros Ha. assert (is_ascii (TrimSpace level) = true) as Ht
    by (rewrite is_ascii_Forall in *; by apply TrimSpace_Forall).
  destruct (NormalizeSecurityLevel_cases level) as [(c & Hc & E)|E].
  - rewrite (E level) by done. cbn in Hc. intuition (subst; vm_compute; reflexivity).
  - rewrite (E level) by done. rewrite E.
    + by apply lower_trim_idemp.
    + rewrite ascii_lower_level_key by done. unfold level_key.
      rewrite !(TrimSpace_map dash_to_underscore dash_plain). by rewrite TrimSpace_idemp.
Qed.

(** What [Validate] accepts. *)
Record grant_valid (g : Grant) : Prop := {
  gv_version : g_version g = Version;
  gv_algorithm : g_algorithm g = Algorithm;
  gv_fields : Forall (fun v => v <> []) [IssuerPeerID g; SubjectPeerID g; Audience g; SessionID g; Nonce g];
  gv_caps : Capabilities g <> [] /\ Forall (fun c => knownCapability c = true) (Capabilities g);
  gv_level : SecurityLevel g = [] \/ KnownSecurityLevel (SecurityLevel g) = true;
  gv_x11 : isLowerHexSHA256 (X11CookieSHA256 g) = true;
  gv_chain : isLowerHexSHA256 (ChainSHA256 g) = true;
  gv_window : 0 < IssuedAtUnix g < ExpiresAtUnix g
}.

Lemma existsb_empty_false l : existsb (fun v => str_eqb v []) l = false -> Forall (fun v => v <> []) l.
Proof.
  induction l as [|v l IH]; [constructor|]. cbn. rewrite orb_false_iff. intros [H1 H2].
  constructor; [|by apply IH]. by destruct (str_eqb_spec v []).
Qed.

Lemma forallb_Forall_true {A} (f : A -> bool) l : forallb f l = true -> Forall (fun x => f x = true) l.
Proof. induction l; cbn; [constructor|]. rewrite andb_true_iff. intros [? ?]. constructor; auto. Qed.

Lemma Grant_Validate_valid g : Grant_Validate g = None -> grant_valid (Grant_Normalized g).
Proof.
  unfold Grant_Validate. cbv zeta. generalize (Grant_Normalized g). clear g. intros g.
  destruct (str_eqb_spec (g_version g) Version) as [E1|]; [|done]. cbn [negb].
  destruct (str_eqb_spec (g_algorithm g) Algorithm) as [E2|]; [|done]. cbn [negb].
  destruct (existsb _ _) eqn:E3; [done|]. apply existsb_empty_false in E3.
  destruct (Z.eqb_spec (len (Capabilities g)) 0) as [|E4]; [done|].
  destruct (negb (str_eqb (SecurityLevel g) []) && _) eqn:E5; [done|].
  destruct (isLowerHexSHA256 (X11CookieSHA256 g)) eqn:E6; [|done].
  destruct (isLowerHexSHA256 (ChainSHA256 g)) eqn:E7; [|done]. cbn [negb].
  destruct (_ || _ || _) eqn:E8; [done|].
  destruct (forallb _ _) eqn:E9; [|done]. intros _.
  rewrite !orb_false_iff, !Z.leb_gt in E8. rewrite andb_false_iff, !negb_false_iff in E5.
  constructor; try done.
  - rewrite !Forall_cons in *. tauto.
  - split; [intros E; rewrite E in E4; by len_nil_simpl|]. by apply forallb_Forall_true.
  - destruct E5 as [E5|E5]; [left|by right]. by destruct (str_eqb_spec (SecurityLevel g) []).
  - lia.
Qed.

Lemma or_default_idemp s d : d <> [] -> or_default (or_default s d) d = or_default s d.
Proof.
  intros Hd. unfold or_default. destruct (str_eqb_spec s []) as [|Hs].
  - destruct (str_eqb_spec d []); done.
  - destruct (str_eqb_spec s []); done.
Qed.

Lemma level_stored_idemp x : is_ascii x = true ->
  let f l := if str_eqb (NormalizeSecurityLevel l) SecurityLevelCompat then [] else NormalizeSecurityLevel l in
  f (f x) = f x.
Proof.
  intros Hx f. unfold f. destruct (str_eqb_spec (NormalizeSecurityLevel x) SecurityLevelCompat) as [E|E]; [done|].
  rewrite NormalizeSecurityLevel_idemp by done. by destruct (str_eqb_spec (NormalizeSecurityLevel x) SecurityLevelCompat).
Qed.

(** The fields that are lower-cased are plain ASCII, as a digest or a level
    name is; outside ASCII the case table would matter. *)
Definition grant_ascii (g : Grant) : Prop :=
  is_ascii (SecurityLevel g) = true /\ is_ascii (X11CookieSHA256 g) = true /\ is_ascii (ChainSHA256 g) = true.

(** Normalising a grant again changes nothing. *)
Lemma Grant_Normalized_idemp g : grant_ascii g ->
  Grant_Normalized (Grant_Normalized g) = Grant_Normalized g.
Proof.
  intros (H1 & H2 & H3). pose proof (level_stored_idemp (SecurityLevel g) H1) as E3. cbv zeta in E3.
  unfold Grant_Normalized. cbn.
  by rewrite !or_default_idemp, !TrimSpace_idemp, normalizeCapabilities_idemp, !lower_trim_idemp, E3.
Qed.

End Normal.

(** ** The nonce cache *)

Lemma CheckAndStore_fresh seen nonce e now c :
  CheckAndStore (Some seen) nonce e now = (None, c) ->
  (forall x, seen !! nonce = Some x -> x <= Unix now) /\ exists seen', c = Some seen' /\ seen' !! nonce = Some e.
Proof.
  unfold CheckAndStore. destruct (filter _ _ !! nonce) eqn:El; [done|]. intros [= <-]. split.
  - intros x Hx. apply map_lookup_filter_None in El as [El|El]; [congruence|].
    specialize (El x Hx). cbn in El. lia.
  - eexists. split; [done|]. apply lookup_insert_eq.
Qed.

Lemma CheckAndStore_unused seen nonce e now : seen !! nonce = None ->
  CheckAndStore (Some seen) nonce e now = (None, Some (<[nonce := e]> (filter (fun kv : bytes * Z => Unix now < snd kv) seen))).
Proof. intros Hn. unfold CheckAndStore. by rewrite (proj2 (map_lookup_filter_None _ _ _) (or_introl Hn)). Qed.

Lemma CheckAndStore_some seen nonce e now r c :
  CheckAndStore (Some seen) nonce e now = (r, c) -> exists seen', c = Some seen'.
Proof. unfold CheckAndStore. destruct (filter _ _ !! nonce); intros [= <- <-]; eauto. Qed.

(** A live nonce stays in the cache and is refused. *)
Lemma CheckAndStore_live seen n x nonce e now r c :
  seen !! n = Some x -> Unix now < x -> CheckAndStore (Some seen) nonce e now = (r, c) ->
  (exists seen', c = Some seen' /\ seen' !! n = Some x) /\ (r = None -> nonce <> n).
Proof.
  intros Hn Hx. unfold CheckAndStore.
  assert (filter (fun kv : bytes * Z => Unix now < snd kv) seen !! n = Some x) as Hf
    by (by apply map_lookup_filter_Some).
  destruct (filter _ _ !! nonce) eqn:El; intros [= <- <-].
  - split; [by eexists|done].
  - assert (nonce <> n) by congruence. split; [|done]. eexists. split; [done|]. by rewrite lookup_insert_ne.
Qed.

(** ** The signed bytes determine the grant *)

(** Every string of the grant is valid UTF-8, as decoding it from JSON makes it. *)
Record grant_text (g : Grant) : Prop := {
  gt_strings : Forall text_ok [g_version g; g_algorithm g; IssuerPeerID g; SubjectPeerID g; Audience g; SessionID g;
                               SecurityLevel g; X11CookieSHA256 g; ChainSHA256 g; Nonce g];
  gt_caps : Forall text_ok (Capabilities g);
  gt_times : 0 <= IssuedAtUnix g < 2 ^ 63 /\ 0 <= ExpiresAtUnix g < 2 ^ 63
}.

Lemma json_field_inj k v v' t t' : json_field k v ++ t = json_field k v' ++ t' -> v ++ t = v' ++ t'.
Proof. unfold json_field. rewrite <- !app_assoc. intros E. by do 2 apply app_inv_head in E. Qed.

(** Cancel the next string field of two equal texts. *)
Ltac next_string E :=
  apply app_inv_head in E; apply json_field_inj in E;
  apply json_string_inj in E as [? E]; [|assumption|assumption].

Lemma int_end_comma t : int_end ([44] ++ t).
Proof. intros x [= <-]. unfold is_digit. lia. Qed.
Lemma int_end_brace : int_end [125].
Proof. intros x [= <-]. unfold is_digit. lia. Qed.

(** The two field names that may follow the capabilities differ early. *)
Lemma level_or_cookie v t v' t' :
  json_field "security_level" v ++ t <> json_field "x11_cookie_sha256" v' ++ t'.
Proof.
  unfold json_field.
  assert (exists r, json_string (str "security_level") = 34 :: 115 :: r) as [r ->] by (vm_compute; eauto).
  assert (exists r, json_string (str "x11_cookie_sha256") = 34 :: 120 :: r) as [r' ->] by (vm_compute; eauto).
  cbn. congruence.
Qed.

(** A field left out when empty, before one whose name starts differently. *)
Lemma omitted_field_inj k k2 s s' v v' t t' : (forall v t v' t', json_field k v ++ t <> json_field k2 v' ++ t') ->
  text_ok s -> text_ok s' ->
  (if str_eqb s [] then [] else [44] ++ json_field k (json_string s)) ++ [44] ++ json_field k2 v ++ t =
  (if str_eqb s' [] then [] else [44] ++ json_field k (json_string s')) ++ [44] ++ json_field k2 v' ++ t' ->
  s = s' /\ v ++ t = v' ++ t'.
Proof.
  intros Hk Hs Hs' E. destruct (str_eqb_spec s []) as [->|Hn], (str_eqb_spec s' []) as [->|Hn'].
  - rewrite !app_nil_l in E. apply app_inv_head, json_field_inj in E. done.
  - exfalso. rewrite app_nil_l, <- app_assoc in E. apply app_inv_head in E. by apply eq_sym, Hk in E.
  - exfalso. rewrite app_nil_l, <- app_assoc in E. apply app_inv_head in E. by apply Hk in E.
  - rewrite <- !app_assoc in E. next_string E. apply app_inv_head, json_field_inj in E. done.
Qed.

Lemma marshal_grant_inj g g' : grant_text g -> grant_text g' -> marshal_grant g = marshal_grant g' -> g = g'.
Proof.
  intros [Hs Hc Ht] [Hs' Hc' Ht'] E. rewrite !Forall_cons in Hs, Hs'.
  destruct Hs as (? & ? & ? & ? & ? & ? & ? & ? & ? & ? & _), Hs' as (? & ? & ? & ? & ? & ? & ? & ? & ? & ? & _).
  unfold marshal_grant in E. do 6 next_string E.
  apply app_inv_head in E. apply json_field_inj in E. apply json_strings_inj in E as [? E]; [|done|done].
  apply omitted_field_inj in E as [? E]; [|exact level_or_cookie|done|done]. apply json_string_inj in E as [? E]; [|assumption|assumption].
  do 2 next_string E.
  apply app_inv_head, json_field_inj, json_int_inj in E as [? E]; try apply int_end_comma; try lia.
  apply app_inv_head, json_field_inj, json_int_inj in E as [? E]; try apply int_end_brace; try lia.
  destruct g, g'; cbn in *. by subst.
Qed.

(** ** Verification *)

Definition at_time (opts : VerifyOptions) (clock : Z) : Z := if IsZero (o_now opts) then clock else o_now opts.

Section Verify.
Context `{U : UnicodeTables} `{E : Ed25519}.

(** An option left empty constrains nothing. *)
Definition matches_option (opt value : bytes) : Prop := opt = [] \/ value = opt.

(** The checks after the signature. *)
Record admits (opts : VerifyOptions) (now : Z) (g : Grant) : Prop := {
  ad_window : IssuedAtUnix g <= Unix now < ExpiresAtUnix g;
  ad_ttl : ttl_too_long (IssuedAtUnix g) (ExpiresAtUnix g) (MaxTTL opts) = false;
  ad_audience : matches_option (o_audience opts) (Audience g);
  ad_subject : matches_option (o_subject opts) (SubjectPeerID g);
  ad_caps : Forall (fun c => TrimSpace c ∈ Capabilities g) (RequiredCapabilities opts);
  ad_level : o_level opts = [] \/ NormalizeSecurityLevel (SecurityLevel g) = NormalizeSecurityLevel (o_level opts);
  ad_x11 : o_x11 opts = [] \/ X11CookieSHA256 g = ToLower (TrimSpace (o_x11 opts));
  ad_chain : o_chain opts = [] \/ ChainSHA256 g = ToLower (TrimSpace (o_chain opts))
}.

Lemma option_check a b c : negb (str_eqb a []) && negb (str_eqb b c) = false <-> a = [] \/ b = c.
Proof.
  rewrite andb_false_iff, !negb_false_iff. unfold str_eqb. by rewrite !bool_decide_eq_true.
Qed.

Lemma hasCapability_spec caps c : hasCapability caps c = true <-> TrimSpace c ∈ caps.
Proof.
  unfold hasCapability. rewrite existsb_exists. setoid_rewrite <- list_elem_of_In. split.
  - intros (x & Hx & Ex). by destruct (str_eqb_spec x (TrimSpace c)); subst.
  - intros Hc. exists (TrimSpace c). split; [done|apply str_eqb_refl].
Qed.

Lemma forallb_capabilities caps l : forallb (hasCapability caps) l = true <-> Forall (fun c => TrimSpace c ∈ caps) l.
Proof.
  rewrite forallb_forall, Forall_forall. setoid_rewrite <- list_elem_of_In.
  split; intros Hl x Hx; [apply hasCapability_spec|rewrite hasCapability_spec]; auto.
Qed.

(** Every outcome of [VerifySignedGrant]: the cache is consulted only for a
    valid, correctly signed and admitted grant. *)
Lemma VerifySignedGrant_spec sg pk opts cache clock :
  let g := Grant_Normalized (sg_grant sg) in
  let now := at_time opts clock in
  (len pk = PublicKeySize /\ Grant_Validate g = None /\
   (exists m, CanonicalBytes g = Ok m /\ check_signature pk m (sg_signature sg) = None) /\ admits opts now g /\
   VerifySignedGrant sg pk opts cache clock =
     match CheckAndStore cache (Nonce g) (ExpiresAtUnix g) now with
     | (Some e, cache') => (Err e, cache')
     | (None, cache') => (Ok g, cache')
     end) \/
  (exists e, VerifySignedGrant sg pk opts cache clock = (Err e, cache)) /\
  ~ (len pk = PublicKeySize /\ Grant_Validate g = None /\
     (exists m, CanonicalBytes g = Ok m /\ check_signature pk m (sg_signature sg) = None) /\ admits opts now g).
Proof.
  cbv zeta. unfold VerifySignedGrant. fold (at_time opts clock). set (g := Grant_Normalized (sg_grant sg)).
  destruct (Z.eqb_spec (len pk) PublicKeySize) as [Hpk|Hpk]; cbn [negb]; [|right; split; [eauto|naive_solver]].
  destruct (Grant_Validate g) as [e|] eqn:Ev; [right; split; [eauto|naive_solver]|].
  destruct (CanonicalBytes g) as [m|e] eqn:Ec; [|right; split; [eauto|naive_solver]].
  destruct (check_signature pk m (sg_signature sg)) as [e|] eqn:Es; [right; split; [eauto|naive_solver]|].
  destruct (Z.ltb_spec (Unix (at_time opts clock)) (IssuedAtUnix g)) as [Hi|Hi];
    [right; split; [eauto|intros (_ & _ & _ & [? _ _ _ _ _ _ _]); lia]|].
  destruct (Z.leb_spec (ExpiresAtUnix g) (Unix (at_time opts clock))) as [He|He];
    [right; split; [eauto|intros (_ & _ & _ & [? _ _ _ _ _ _ _]); lia]|].
  destruct (ttl_too_long _ _ _) eqn:Et; [right; split; [eauto|intros (_ & _ & _ & [_ ? _ _ _ _ _ _]); congruence]|].
  destruct (negb (str_eqb (o_audience opts) []) && _) eqn:E1;
    [right; split; [eauto|intros (_ & _ & _ & [_ _ Ha _ _ _ _ _]); apply option_check in Ha; congruence]|].
  destruct (negb (str_eqb (o_subject opts) []) && _) eqn:E2;
    [right; split; [eauto|intros (_ & _ & _ & [_ _ _ Ha _ _ _ _]); apply option_check in Ha; congruence]|].
  destruct (forallb _ _) eqn:E3; cbn [negb];
    [|right; split; [eauto|intros (_ & _ & _ & [_ _ _ _ Ha _ _ _]); apply forallb_capabilities in Ha; congruence]].
  destruct (negb (str_eqb (o_level opts) []) && _) eqn:E4;
    [right; split; [eauto|intros (_ & _ & _ & [_ _ _ _ _ Ha _ _]); apply option_check in Ha; congruence]|].
  destruct (negb (str_eqb (o_x11 opts) []) && _) eqn:E5;
    [right; split; [eauto|intros (_ & _ & _ & [_ _ _ _ _ _ Ha _]); apply option_check in Ha; congruence]|].
  destruct (negb (str_eqb (o_chain opts) []) && _) eqn:E6;
    [right; split; [eauto|intros (_ & _ & _ & [_ _ _ _ _ _ _ Ha]); apply option_check in Ha; congruence]|].
  left. split_and!; [done..|by eauto| |done].
  apply option_check in E1, E2, E4, E5, E6. apply forallb_capabilities in E3.
  by constructor.
Qed.

End Verify.

End AuthProof.
