(* ===== verification/AuthClaims.v ===== *)
(** * Grants: what a verified proof guarantees (authproof/proof.go)

    The theorems about grants, the nonce cache and authority levels, with a
    concrete signature scheme and a concrete grant to evaluate them on. *)

From S2P Require Import Prelude GoStrings Sha256 GoEncoding AuthProof.

Module AuthClaims.
Import GoStrings Sha256 GoEncoding AuthProof.

(** ** A concrete instance

    A keyed digest standing in for Ed25519: it satisfies the laws, it is not
    a signature scheme. *)
#[local] Instance toy_ed25519 : Ed25519 := {|
  ed_public k := drop 32 k;
  ed_sign k m := Sum256 (drop 32 k) ++ Sum256 m;
  ed_verify pk m sig := str_eqb sig (Sum256 pk ++ Sum256 m)
|}.

#[local] Instance toy_ed25519_laws : Ed25519Laws.
Proof.
  split; cbn.
  - intros k Hk. rewrite len_drop, Hk. done.
  - intros k m. rewrite len_app. unfold len. by rewrite !Sum256_length.
  - intros k m _. apply Forall_app; split; apply Sum256_ok.
  - intros k m _. apply str_eqb_refl.
Qed.

#[local] Existing Instance latin1_tables.

Definition demo_hash : bytes := str "ba7816bf8f01cfea414140de5dae2223b00361a396177a9cb410ff61f20015ad".
Definition demo_key : bytes := replicate 64 7.

Definition demo_grant : Grant :=
  mkGrant [] [] (str " issuer") (str "subject") (str "wv-agent") (str "s-1")
    [str "x11.relay"; str "websocket.upgrade "] (str "Agent-Proof") demo_hash demo_hash (str "n-1") 100 160.

Definition demo_options : VerifyOptions :=
  mkVerifyOptions (120 * second) (str "wv-agent") [] [str "x11.relay"] (str "agent") demo_hash [] (60 * second).

(** ** Verified grants *)

(** The signed bytes determine the grant: two grants with the same
    canonical bytes normalise to the same grant, field by field, so a
    signature on one is not a signature on another.  The strings of both are
    taken to be valid UTF-8: the JSON text that is signed does not tell other
    strings apart. *)
Theorem signature_binds_grant `{UnicodeTables} (g g' : Grant) (m : bytes) :
  grant_text (Grant_Normalized g) -> grant_text (Grant_Normalized g') ->
  CanonicalBytes g = Ok m -> CanonicalBytes g' = Ok m -> Grant_Normalized g = Grant_Normalized g'.
Proof.
  intros Ht Ht' H1 H2. unfold CanonicalBytes in *. repeat case_match; try done.
  apply marshal_grant_inj; congruence.
Qed.

Definition demo_grant' : Grant :=
  mkGrant Version [] (str "issuer ") (str "subject") (str "wv-agent") (str "s-1")
    [str "websocket.upgrade"; str "x11.relay"] (str "ssh_agent") demo_hash demo_hash (str "n-1") 100 160.

Lemma demo_text g : g = demo_grant \/ g = demo_grant' -> grant_text (Grant_Normalized g).
Proof.
  assert (forall s, forallb (fun b => (0 <=? b) && (b <? 256)) s = true -> bytes_ok s) as Hb.
  { intros s Hs. apply forallb_Forall_true in Hs. eapply Forall_impl; [exact Hs|].
    intros x Hx. cbn in Hx. rewrite andb_true_iff, Z.leb_le, Z.ltb_lt in Hx. unfold is_u. lia. }
  intros [-> | ->]; (constructor; [| |vm_compute; repeat split; done]);
    repeat (constructor; [split; [apply Hb; vm_compute; reflexivity|vm_compute; reflexivity]|]); constructor.
Qed.

Lemma signature_binds_grant_witness : Grant_Normalized demo_grant = Grant_Normalized demo_grant'.
Proof.
  destruct (CanonicalBytes demo_grant) as [m|e] eqn:E; [|exfalso; vm_compute in E; done].
  apply (signature_binds_grant demo_grant demo_grant' m).
  - apply demo_text. by left.
  - apply demo_text. by right.
  - exact E.
  - rewrite <- E. vm_compute. reflexivity.
Defined.

(** C6: what an accepted proof means: the grant returned is valid and already
    in normal form, its canonical bytes carry a signature of the verifier's
    key, the current time is inside its validity window, it satisfies every
    option of the verifier, and its nonce was not live in the replay cache
    and is recorded there now until the grant expires. *)
Theorem verified_grant_sound `{UnicodeTables} `{Ed25519} (sg : SignedGrant) (pk : bytes) (opts : VerifyOptions)
    (cache cache' : option NonceCache) (clock : Z) (g : Grant) :
  grant_ascii (sg_grant sg) ->
  VerifySignedGrant sg pk opts cache clock = (Ok g, cache') ->
  g = Grant_Normalized (sg_grant sg) /\ Grant_Normalized g = g /\ grant_valid g /\
  (exists sig, b64_decode (sg_signature sg) = Some sig /\ ed_verify pk (marshal_grant g) sig = true) /\
  admits opts (at_time opts clock) g /\
  (forall seen, cache = Some seen ->
     (forall e, seen !! Nonce g = Some e -> e <= Unix (at_time opts clock)) /\
     exists seen', cache' = Some seen' /\ seen' !! Nonce g = Some (ExpiresAtUnix g)).
Proof.
  intros Ha Hv. destruct (VerifySignedGrant_spec sg pk opts cache clock)
    as [(_ & Hval & (m & Hm & Hs) & Had & E)|[[e E] _]]; [|congruence].
  rewrite E in Hv. destruct (CheckAndStore _ _ _ _) as [[e|] c] eqn:Ec; [done|].
  injection Hv as Hg <-. pose proof (Grant_Normalized_idemp _ Ha) as Hi. rewrite Hg in *.
  apply Grant_Validate_valid in Hval as Hgv. rewrite Hi in Hgv.
  unfold CanonicalBytes in Hm. rewrite Hi, Hval in Hm. injection Hm as <-.
  split_and!; [done..| |done|].
  - unfold check_signature in Hs. destruct (b64_decode _) as [sig|]; [|done]. exists sig. split; [done|].
    destruct (negb (len sig =? _)); [done|]. by destruct (ed_verify _ _ _).
  - intros seen ->. by apply CheckAndStore_fresh in Ec.
Qed.

Definition demo_signed : SignedGrant := Eval vm_compute in
  match SignGrant demo_grant demo_key with Ok sg => sg | Err _ => mkSignedGrant demo_grant [] end.

Lemma verified_grant_sound_witness :
  let g := Grant_Normalized demo_grant in
  let cache : NonceCache := <[str "n-1" := 119]> (<[str "n-0" := 170]> ∅) in
  exists cache', VerifySignedGrant demo_signed (ed_public demo_key) demo_options (Some cache) 0 = (Ok g, cache') /\
  ed_verify (ed_public demo_key) (marshal_grant g) (ed_sign demo_key (marshal_grant g)) = true /\
  admits demo_options (120 * second) g.
Proof.
  intros g cache. eexists. split; [vm_compute; reflexivity|]. split; [vm_compute; reflexivity|].
  refine (proj1 (proj2 (proj2 (proj2 (proj2 (verified_grant_sound demo_signed (ed_public demo_key) demo_options
    (Some cache) _ 0 g _ _)))))).
  - repeat split; vm_compute; reflexivity.
  - vm_compute. reflexivity.
Defined.

(** C7: Sign and verify agree: a grant signed with a private key is accepted
    under its public key, in normal form, by any verifier whose options and
    clock admit it and whose cache does not hold its nonce. *)
Theorem sign_then_verify `{UnicodeTables} `{Ed25519Laws} (g : Grant) (sk : bytes) (sg : SignedGrant)
    (opts : VerifyOptions) (cache cache' : option NonceCache) (clock : Z) :
  grant_ascii g -> bytes_ok sk -> SignGrant g sk = Ok sg ->
  admits opts (at_time opts clock) (Grant_Normalized g) ->
  CheckAndStore cache (TrimSpace (Nonce g)) (ExpiresAtUnix g) (at_time opts clock) = (None, cache') ->
  VerifySignedGrant sg (ed_public sk) opts cache clock = (Ok (Grant_Normalized g), cache').
Proof.
  intros Ha Hb Hs Had Hc. unfold SignGrant in Hs.
  destruct (Z.eqb_spec (len sk) PrivateKeySize) as [Hk|]; [|done]. cbn [negb] in Hs.
  apply result_bind_ok in Hs as (m & Hm & Hs). injection Hs as <-.
  pose proof (Grant_Normalized_idemp g Ha) as Hi.
  assert (CanonicalBytes (Grant_Normalized g) = Ok m) as Hm' by (unfold CanonicalBytes in *; by rewrite Hi).
  assert (Grant_Validate (Grant_Normalized g) = None) as Hv
    by (unfold CanonicalBytes in Hm; by destruct (Grant_Validate (Grant_Normalized g))).
  assert (check_signature (ed_public sk) m (b64_encode (ed_sign sk m)) = None) as Hsig.
  { unfold check_signature. rewrite b64_roundtrip by (by apply ed_sign_bytes).
    rewrite ed_sign_size, Z.eqb_refl. cbn [negb]. by rewrite ed_sign_verifies. }
  pose proof (ed_public_size sk Hk) as Hpk.
  destruct (VerifySignedGrant_spec (mkSignedGrant (Grant_Normalized g) (b64_encode (ed_sign sk m)))
    (ed_public sk) opts cache clock) as [(_ & _ & _ & _ & E)|[_ Hn]]; cbn [sg_grant sg_signature] in *; rewrite Hi in *.
  - rewrite E. cbn [Nonce Grant_Normalized ExpiresAtUnix]. by rewrite Hc.
  - exfalso. apply Hn. split_and!; [done..|by exists m|done].
Qed.

Lemma demo_admits : admits demo_options (120 * second) (Grant_Normalized demo_grant).
Proof.
  constructor; cbn.
  - vm_compute. split; [done|reflexivity].
  - vm_compute. reflexivity.
  - right. vm_compute. reflexivity.
  - by left.
  - apply forallb_capabilities. vm_compute. reflexivity.
  - right. vm_compute. reflexivity.
  - right. vm_compute. reflexivity.
  - by left.
Qed.

Lemma sign_then_verify_witness :
  VerifySignedGrant demo_signed (ed_public demo_key) demo_options None 0 = (Ok (Grant_Normalized demo_grant), None).
Proof.
  apply (sign_then_verify demo_grant demo_key demo_signed demo_options None None 0).
  - repeat split; vm_compute; reflexivity.
  - unfold demo_key, bytes_ok. apply Forall_replicate. unfold is_u. lia.
  - vm_compute. reflexivity.
  - apply demo_admits.
  - reflexivity.
Defined.

(** ** Replay

    A verifier's life: the proofs it was shown with the options and the clock
    reading of each, all against one cache. *)
Record attempt := mkAttempt {
  a_signed : SignedGrant;
  a_key : bytes;
  a_opts : VerifyOptions;
  a_clock : Z
}.

Definition a_time (a : attempt) : Z := Unix (at_time (a_opts a) (a_clock a)).

Fixpoint verify_all `{UnicodeTables} `{Ed25519} (l : list attempt) (cache : option NonceCache)
    : list (result auth_error Grant) :=
  match l with
  | [] => []
  | a :: l' =>
    let '(r, cache') := VerifySignedGrant (a_signed a) (a_key a) (a_opts a) cache (a_clock a) in
    r :: verify_all l' cache'
  end.

Section Replay.
Context `{UnicodeTables} `{Ed25519}.

(** One verification keeps a live nonce and refuses it. *)
Lemma verify_live a seen n x r c :
  seen !! n = Some x -> a_time a < x ->
  VerifySignedGrant (a_signed a) (a_key a) (a_opts a) (Some seen) (a_clock a) = (r, c) ->
  (exists seen', c = Some seen' /\ seen' !! n = Some x) /\ (forall g, r = Ok g -> Nonce g <> n).
Proof.
  intros Hn Hx Hv. unfold a_time in Hx.
  destruct (VerifySignedGrant_spec (a_signed a) (a_key a) (a_opts a) (Some seen) (a_clock a))
    as [(_ & _ & _ & _ & Es)|[[e Es] _]]; rewrite Es in Hv.
  - destruct (CheckAndStore _ _ _ _) as [e c'] eqn:Ec.
    destruct (CheckAndStore_live _ _ _ _ _ _ _ _ Hn Hx Ec) as [Hl Hne].
    destruct e; injection Hv as <- <-; (split; [done|]); [done|].
    intros g [= <-]. by apply Hne.
  - injection Hv as <- <-. split; [by eexists|done].
Qed.

Lemma verify_all_live l : forall seen n x j a g,
  seen !! n = Some x -> l !! j = Some a -> verify_all l (Some seen) !! j = Some (Ok g) -> Nonce g = n ->
  StronglySorted Z.le (a_time <$> l) -> x <= a_time a.
Proof.
  induction l as [|b l IH]; intros seen n x j a g Hn Ha Hr Hg Hs; [done|]. cbn [verify_all] in Hr.
  destruct (Z.le_gt_cases x (a_time b)) as [Hle|Hlt].
  - destruct j as [|j]; [by injection Ha as ->|]. inversion Hs as [|? ? _ Hf]; subst.
    rewrite Forall_forall in Hf. assert (a_time b <= a_time a); [|lia]. apply Hf.
    apply list_elem_of_fmap. exists a. split; [done|]. by eapply list_elem_of_lookup_2.
  - destruct (VerifySignedGrant _ _ _ _ _) as [r c] eqn:Ev.
    destruct (verify_live _ _ _ _ _ _ Hn Hlt Ev) as [(seen' & -> & Hn') Hne].
    destruct j as [|j]; cbn in Hr; [injection Hr as ->; by apply Hne in Hg|].
    inversion Hs; subst. by eapply IH.
Qed.

Lemma verify_all_pair l : forall cache i j a a' g g',
  cache <> None -> (i < j)%nat -> l !! i = Some a -> l !! j = Some a' ->
  verify_all l cache !! i = Some (Ok g) -> verify_all l cache !! j = Some (Ok g') ->
  Nonce g = Nonce g' -> StronglySorted Z.le (a_time <$> l) -> ExpiresAtUnix g <= a_time a'.
Proof.
  induction l as [|b l IH]; intros cache i j a a' g g' Hc Hij Ha Ha' Hr Hr' Hn Hs; [done|].
  destruct cache as [seen|]; [|done]. cbn [verify_all] in *.
  destruct (VerifySignedGrant _ _ _ _ _) as [r c] eqn:Ev.
  destruct j as [|j]; [lia|]. cbn in Hr', Ha'. inversion Hs as [|? ? Hs' Hf]; subst.
  destruct (VerifySignedGrant_spec (a_signed b) (a_key b) (a_opts b) (Some seen) (a_clock b))
    as [(_ & _ & _ & _ & Es)|[[e Es] _]]; rewrite Es in Ev.
  2:{ injection Ev as <- <-. destruct i as [|i]; [done|]. eapply IH; [| |exact Ha|exact Ha'|exact Hr|exact Hr'|..]; done || lia. }
  destruct (CheckAndStore _ _ _ _) as [e c'] eqn:Ec.
  destruct (CheckAndStore_some _ _ _ _ _ _ Ec) as [seen' ->].
  destruct i as [|i].
  - destruct e; injection Ev as <- <-; cbn in Hr; [done|]. injection Hr as <-.
    apply CheckAndStore_fresh in Ec as [_ (s & [= <-] & Hl)].
    eapply verify_all_live; [exact Hl|exact Ha'|exact Hr'|done|done].
  - assert (c = Some seen') as -> by (destruct e; by injection Ev).
    eapply IH; [| |exact Ha|exact Ha'|exact Hr|exact Hr'|..]; done || lia.
Qed.
End Replay.

(** C5: no replay: against one cache and a clock that does not run backwards,
    whenever a nonce is accepted twice the first grant has expired by the
    second time; in particular the same grant is never accepted twice. *)
Theorem no_grant_replay `{UnicodeTables} `{Ed25519} (l : list attempt) (cache : NonceCache)
    (i j : nat) (a' : attempt) (g g' : Grant) :
  (i < j)%nat -> StronglySorted Z.le (a_time <$> l) -> l !! j = Some a' ->
  verify_all l (Some cache) !! i = Some (Ok g) -> verify_all l (Some cache) !! j = Some (Ok g') ->
  Nonce g = Nonce g' -> ExpiresAtUnix g <= a_time a' < ExpiresAtUnix g' /\ g <> g'.
Proof.
  intros Hij Hs Ha' Hg Hg' Hn.
  assert (is_Some (l !! i)) as [a Ha] by (apply lookup_lt_is_Some; apply lookup_lt_Some in Ha'; lia).
  pose proof (verify_all_pair l (Some cache) i j a a' g g' ltac:(done) Hij Ha Ha' Hg Hg' Hn Hs) as He.
  assert (a_time a' < ExpiresAtUnix g') as Hw; [|split; [lia|intros ->; lia]].
  clear -Ha' Hg'. revert Ha' Hg'. generalize (Some cache). revert j.
  induction l as [|b l IH]; intros j c Ha' Hg'; [done|]. cbn [verify_all] in Hg'.
  destruct (VerifySignedGrant_spec (a_signed b) (a_key b) (a_opts b) c (a_clock b))
    as [(_ & _ & _ & Had & Es)|[[e Es] _]]; rewrite Es in Hg'.
  - destruct (CheckAndStore _ _ _ _) as [[e|] c'].
    + destruct j as [|j]; [done|]. cbn in *. by eapply IH.
    + destruct j as [|j]; [|cbn in *; by eapply IH]. cbn in Hg', Ha'. injection Hg' as <-. injection Ha' as ->.
      apply ad_window in Had. unfold a_time. lia.
  - destruct j as [|j]; [done|]. cbn in *. by eapply IH.
Qed.

Definition later_grant : Grant :=
  mkGrant [] [] (str "issuer") (str "subject") (str "wv-agent") (str "s-2")
    [str "x11.relay"] [] demo_hash demo_hash (str "n-1") 150 250.
Definition later_signed : SignedGrant := Eval vm_compute in
  match SignGrant later_grant demo_key with Ok sg => sg | Err _ => mkSignedGrant later_grant [] end.
Definition open_options (now : Z) : VerifyOptions := mkVerifyOptions now [] [] [] [] [] [] 0.
Definition demo_attempts : list attempt :=
  [mkAttempt demo_signed (drop 32 demo_key) (open_options (120 * second)) 0;
   mkAttempt demo_signed (drop 32 demo_key) (open_options (130 * second)) 0;
   mkAttempt later_signed (drop 32 demo_key) (open_options (200 * second)) 0].

Lemma no_grant_replay_witness :
  verify_all demo_attempts (Some ∅) = [Ok (Grant_Normalized demo_grant); Err ErrReplay; Ok (Grant_Normalized later_grant)] /\
  Grant_Normalized demo_grant <> Grant_Normalized later_grant.
Proof.
  split; [vm_compute; reflexivity|].
  refine (proj2 (no_grant_replay demo_attempts ∅ 0 2 _ _ _ _ _ eq_refl _ _ _)).
  - lia.
  - vm_compute. repeat constructor; done.
  - vm_compute. reflexivity.
  - vm_compute. reflexivity.
  - vm_compute. reflexivity.
Defined.

(** The lifetime limit is exact for every lifetime that fits a Duration
    (292 years), but the product of seconds and nanoseconds wraps beyond it:
    a grant valid for 584 years passes a limit of one minute. *)
Theorem ttl_limit_exact_until_overflow :
  (forall issued expires maxTTL, 0 < maxTTL -> issued < expires -> (expires - issued) * second < 2 ^ 63 ->
     ttl_too_long issued expires maxTTL = true <-> maxTTL < (expires - issued) * second) /\
  ttl_too_long 1700000000 (1700000000 + 18446744074) (60 * second) = false.
Proof.
  split; [|reflexivity]. intros issued expires maxTTL Hm Hi Ho. unfold ttl_too_long.
  rewrite (proj2 (Z.ltb_lt _ _)) by done. cbn [andb].
  assert (second = 1000000000) as Es by done. rewrite Es in *.
  rewrite (i64_small (expires - issued)) by lia. rewrite i64_small by lia. apply Z.ltb_lt.
Qed.

Lemma strict_requirements `{UnicodeTables} : KnownSecurityLevel SecurityLevelStrict = true /\
  SecurityLevelRequirements SecurityLevelStrict = [RequirementSameUID; RequirementX11Cookie; RequirementAgentKeyProof].
Proof. split; reflexivity. Qed.

(** Authority decisions are exact: a request is allowed precisely when its
    level is known and every requirement of the level is met by verified
    evidence; an agent socket alone, or matching uid strings, never count,
    and the strict level demands same uid, X11 cookie and key proof. *)
Theorem authority_exact `{UnicodeTables} (level : bytes) (e : AuthorityEvidence) :
  let '(d, err) := EvaluateAuthority level e in
  (err = None <-> Allowed d = true) /\
  (Allowed d = true <->
     KnownSecurityLevel (NormalizeSecurityLevel level) = true /\
     Forall (fun r => satisfied e r = true) (SecurityLevelRequirements (NormalizeSecurityLevel level))) /\
  (NormalizeSecurityLevel level = SecurityLevelStrict ->
     Allowed d = SameUID e && X11CookieMatched e && AgentKeyProofVerified e).
Proof.
  unfold EvaluateAuthority, ValidateSecurityLevel.
  destruct (KnownSecurityLevel (NormalizeSecurityLevel level)) eqn:Ek; cbn [negb].
  - cbn [Allowed]. set (req := SecurityLevelRequirements (NormalizeSecurityLevel level)).
    assert (forall l, len (List.filter (fun r => negb (satisfied e r)) l) = 0 <-> Forall (fun r => satisfied e r = true) l) as Hf.
    { induction l as [|r l IH]; cbn; [by split; [constructor|]|]. rewrite Forall_cons, <- IH.
      destruct (satisfied e r); cbn [negb]; [tauto|]. rewrite len_cons.
      pose proof (len_nonneg (List.filter (fun r => negb (satisfied e r)) l)). split; [lia|naive_solver]. }
    destruct (Z.eqb_spec (len (List.filter (fun r => negb (satisfied e r)) req)) 0) as [E0|E0]; cbn [negb].
    + split; [done|]. split; [by rewrite <- Hf|]. intros Es. apply Hf in E0. unfold req in E0.
      rewrite Es, (proj2 strict_requirements), !Forall_cons in E0. cbn in E0. destruct E0 as (-> & -> & -> & _). done.
    + split; [done|]. rewrite Hf in E0. split; [by split; [|tauto]|]. intros Es. unfold req in E0.
      rewrite Es, (proj2 strict_requirements), !Forall_cons, Forall_nil in E0. cbn in E0.
      destruct (SameUID e), (X11CookieMatched e), (AgentKeyProofVerified e); first [done|exfalso; by apply E0].
  - cbn. split; [done|]. split; [naive_solver|]. intros Es. exfalso.
    rewrite Es, (proj1 strict_requirements) in Ek. done.
Qed.

End AuthClaims.
