(* ===== verification/Evidence.v ===== *)
(** * Tamper-evident evidence (evidencebinding/nonrepudiation.go, anchor.go)

    Leaves, the Merkle tree over them and its inclusion proofs, the signed
    statements that chain the roots of a stream, verification of a ledger, the
    witness that detects two histories, and the anchor statements and receipts
    for heads.  Ed25519 and the case table of [strings.ToLower] are interfaces;
    SHA-256, hex, base64 and the JSON texts are computed. *)

From S2P Require Import Prelude GoStrings Sha256 GoEncoding AuthProof.

Module Evidence.
Import GoStrings Sha256 GoEncoding AuthProof.

Definition Version := str "weaverssh.evidence-binding.v1".
Definition AlgorithmEd25519 := str "ed25519".
Definition AnchorVersion := str "weaverssh.evidence-anchor.v1".

(** The error values the code wraps; the message texts are left out. *)
Inductive ev_error : Type :=
| ErrInvalidEvidence
| ErrInvalidProof
| ErrInvalidSignature
| ErrUntrustedSigner
| ErrBrokenChain
| ErrWrongStream
| ErrHeadMismatch
| ErrEquivocation
| ErrDuplicateEvidence
| ErrInvalidAnchor
| ErrAnchorMismatch
| ErrAnchorNotCommitted
| ErrAnchorThreshold
| ErrProvider (text : bytes)
| ErrIO (text : bytes).

Definition leafDomain : bytes := str "weaverssh:evidence:leaf:v1" ++ [0].
Definition nodeDomain : bytes := str "weaverssh:evidence:node:v1" ++ [0].
Definition statementDomain : bytes := str "weaverssh:evidence:statement:v1" ++ [0].

(** ** Data *)

Record Leaf := mkLeaf {
  l_ID : bytes;
  l_Subject : bytes;
  l_Kind : bytes;
  l_PayloadSHA256 : bytes;
  l_ObservedAtUnix : Z
}.

Record ProofStep := mkStep {
  p_SHA256 : bytes;
  p_Left : bool
}.

Record MerkleProof := mkProof {
  p_Index : Z;
  p_LeafCount : Z;
  p_Siblings : list ProofStep
}.

Record Statement := mkStatement {
  s_Version : bytes;
  s_StreamID : bytes;
  s_Sequence : Z;
  s_PreviousSHA256 : bytes;
  s_MerkleRootSHA256 : bytes;
  s_LeafCount : Z;
  s_IssuedAtUnix : Z;
  s_SignerKeyID : bytes;
  s_Nonce : bytes
}.

Record SignedStatement := mkSigned {
  ss_Statement : Statement;
  ss_Algorithm : bytes;
  ss_PublicKey : bytes;
  ss_Signature : bytes
}.

Record Head := mkHead {
  h_StreamID : bytes;
  h_Sequence : Z;
  h_StatementSHA256 : bytes
}.
#[export] Instance head_eq_dec : EqDecision Head.
Proof. solve_decision. Defined.

Record VerificationReport := mkReport {
  r_StreamID : bytes;
  r_Statements : Z;
  r_Head : Head;
  r_Authentic : bool;
  r_CompletenessBound : bool
}.

Record AnchorStatement := mkAnchor {
  a_Version : bytes;
  a_StreamID : bytes;
  a_Sequence : Z;
  a_StatementSHA256 : bytes
}.
#[export] Instance anchor_eq_dec : EqDecision AnchorStatement.
Proof. solve_decision. Defined.

Record AnchorReceipt := mkReceipt {
  rc_Version : bytes;
  rc_Provider : bytes;
  rc_Statement : AnchorStatement;
  rc_ExternalID : bytes;
  rc_ProofSHA256 : bytes;
  rc_Committed : bool;
  rc_BlockNumber : Z
}.
#[export] Instance receipt_eq_dec : EqDecision AnchorReceipt.
Proof. solve_decision. Defined.

(** [strings.TrimSpace(s) == ""]. *)
Definition blank (s : bytes) : bool := str_eqb (TrimSpace s) [].

(** [strings.EqualFold] with a digest in lower-case hex: no rune outside ASCII
    folds to a hex digit. *)
Definition EqualFold_hex (s digest : bytes) : bool := str_eqb (ascii_lower <$> s) digest.

(** Keys by identifier. *)
Abbreviation TrustPolicy := (gmap bytes bytes).

Section Evidence.
Context `{UnicodeTables} `{Ed25519}.

Definition isSHA256 (value : bytes) : bool :=
  (len value =? 64) && str_eqb value (ToLower value) && match hex_decode value with Some _ => true | None => false end.

(** ** Leaves *)

Definition Leaf_Validate (l : Leaf) : option ev_error :=
  if blank (l_ID l) || blank (l_Subject l) || blank (l_Kind l) then Some ErrInvalidEvidence else
  if negb (isSHA256 (l_PayloadSHA256 l)) then Some ErrInvalidEvidence else
  if l_ObservedAtUnix l <=? 0 then Some ErrInvalidEvidence else None.

(** [clock] is the reading of [time.Now] used when no time is given. *)
Definition NewLeaf (id subject kind payload : bytes) (observedAt clock : Z) : result ev_error Leaf :=
  let observedAt := if IsZero observedAt then clock else observedAt in
  let leaf := mkLeaf (TrimSpace id) (TrimSpace subject) (TrimSpace kind) (sha256_hex payload) (Unix observedAt) in
  match Leaf_Validate leaf with Some e => Err e | None => Ok leaf end.

Definition VerifyPayload (l : Leaf) (payload : bytes) : bool := EqualFold_hex (l_PayloadSHA256 l) (sha256_hex payload).

Definition marshal_leaf (l : Leaf) : bytes :=
  [123] ++ json_field "id" (json_string (l_ID l)) ++
  [44] ++ json_field "subject" (json_string (l_Subject l)) ++
  [44] ++ json_field "kind" (json_string (l_Kind l)) ++
  [44] ++ json_field "payload_sha256" (json_string (l_PayloadSHA256 l)) ++
  [44] ++ json_field "observed_at_unix" (json_int (l_ObservedAtUnix l)) ++ [125].

Definition Leaf_canonicalBytes (l : Leaf) : result ev_error bytes :=
  match Leaf_Validate l with Some e => Err e | None => Ok (marshal_leaf l) end.

Definition leaf_input (canonical : bytes) : bytes := [0] ++ leafDomain ++ canonical.
Definition hashLeaf (l : Leaf) : result ev_error bytes :=
  let* canonical := Leaf_canonicalBytes l in Ok (Sum256 (leaf_input canonical)).

Definition node_input (left right : bytes) : bytes := [1] ++ nodeDomain ++ left ++ right.
Definition hashNode (left right : bytes) : bytes := Sum256 (node_input left right).

(** ** The tree *)

(** One level from the one below; the last node of an odd level pairs with itself. *)
Fixpoint next_level (current : list bytes) : list bytes :=
  match current with
  | [] => []
  | [x] => [hashNode x x]
  | x :: y :: r => hashNode x y :: next_level r
  end.

(** The levels from [current] up to the root; every level is shorter. *)
Fixpoint climb (fuel : nat) (current : list bytes) : list (list bytes) :=
  match fuel with
  | O => [current]
  | S fuel => if (1 <? len current) then current :: climb fuel (next_level current) else [current]
  end.

Fixpoint leaf_hashes (seen : list bytes) (leaves : list Leaf) : result ev_error (list bytes) :=
  match leaves with
  | [] => Ok []
  | l :: r =>
    if bool_decide (l_ID l ∈ seen) then Err ErrDuplicateEvidence else
    let* hash := hashLeaf l in
    let* rest := leaf_hashes (l_ID l :: seen) r in
    Ok (hash :: rest)
  end.

Definition merkleLevels (leaves : list Leaf) : result ev_error (list (list bytes)) :=
  if len leaves =? 0 then Err ErrInvalidEvidence else
  let* first := leaf_hashes [] leaves in Ok (climb (length first) first).

(** [levels[len(levels)-1][0]]. *)
Definition root_of (levels : list (list bytes)) : bytes := match last levels with Some (r :: _) => r | _ => [] end.

Definition BuildMerkleRoot (leaves : list Leaf) : result ev_error bytes :=
  let* levels := merkleLevels leaves in Ok (hex_encode (root_of levels)).

(** The siblings on the way from [position] to the root; the top level has none. *)
Fixpoint siblings (levels : list (list bytes)) (position : Z) : list ProofStep :=
  match levels with
  | [] => []
  | nodes :: up =>
    match up with
    | [] => []
    | _ :: _ =>
      let sibling := Z.lxor position 1 in
      let sibling := if len nodes <=? sibling then position else sibling in
      mkStep (hex_encode (nth (Z.to_nat sibling) nodes [])) (sibling <? position) :: siblings up (position / 2)
    end
  end.

Definition BuildMerkleProof (leaves : list Leaf) (index : Z) : result ev_error MerkleProof :=
  if (index <? 0) || (len leaves <=? index) then Err ErrInvalidProof else
  let* levels := merkleLevels leaves in
  Ok (mkProof index (len leaves) (siblings levels index)).

(** The loop of [VerifyMerkleProof]: the hash, position and width at the top. *)
Fixpoint ascend (steps : list ProofStep) (current : bytes) (position width : Z) : option (bytes * Z * Z) :=
  match steps with
  | [] => Some (current, position, width)
  | step :: steps =>
    match hex_decode (p_SHA256 step) with
    | None => None
    | Some sibling =>
      if negb (len sibling =? 32) then None else
      let expectedLeft := position mod 2 =? 1 in
      let expectedLeft := if (position =? width - 1) && (Z.rem width 2 =? 1) then false else expectedLeft in
      if negb (Bool.eqb (p_Left step) expectedLeft) then None else
      let current := if p_Left step then hashNode sibling current else hashNode current sibling in
      ascend steps current (position / 2) (Z.quot (i64 (width + 1)) 2)
    end
  end.

Definition VerifyMerkleProof (leaf : Leaf) (root : bytes) (proof : MerkleProof) : option ev_error :=
  if (p_LeafCount proof <=? 0) || (p_Index proof <? 0) || (p_LeafCount proof <=? p_Index proof) || negb (isSHA256 root) then Some ErrInvalidProof else
  match hashLeaf leaf with
  | Err e => Some e
  | Ok current =>
    match ascend (p_Siblings proof) current (p_Index proof) (p_LeafCount proof) with
    | None => Some ErrInvalidProof
    | Some (current, position, width) =>
      if negb (position =? 0) || negb (width =? 1) || negb (EqualFold_hex root (hex_encode current)) then Some ErrInvalidProof else None
    end
  end.

(** ** Statements *)

Definition Statement_Validate (s : Statement) : option ev_error :=
  if negb (str_eqb (s_Version s) Version) || blank (s_StreamID s) || (s_Sequence s =? 0) || (s_LeafCount s <=? 0) ||
     (s_IssuedAtUnix s <=? 0) || blank (s_SignerKeyID s) || blank (s_Nonce s) then Some ErrInvalidEvidence else
  if negb (isSHA256 (s_MerkleRootSHA256 s)) then Some ErrInvalidEvidence else
  if s_Sequence s =? 1 then
    if negb (blank (s_PreviousSHA256 s)) then Some ErrBrokenChain else None
  else if negb (isSHA256 (s_PreviousSHA256 s)) then Some ErrBrokenChain else None.

Definition NewStatement (streamID : bytes) (sequence : Z) (previousSHA256 : bytes) (leaves : list Leaf) (signerKeyID nonce : bytes) (issuedAt clock : Z) : result ev_error Statement :=
  let* root := BuildMerkleRoot leaves in
  let issuedAt := if IsZero issuedAt then clock else issuedAt in
  let statement := mkStatement Version (TrimSpace streamID) sequence (ToLower (TrimSpace previousSHA256)) root (len leaves)
    (Unix issuedAt) (TrimSpace signerKeyID) (TrimSpace nonce) in
  match Statement_Validate statement with Some e => Err e | None => Ok statement end.

(** The previous digest has [omitempty]. *)
Definition marshal_statement (s : Statement) : bytes :=
  [123] ++ json_field "version" (json_string (s_Version s)) ++
  [44] ++ json_field "stream_id" (json_string (s_StreamID s)) ++
  [44] ++ json_field "sequence" (json_int (s_Sequence s)) ++
  (if str_eqb (s_PreviousSHA256 s) [] then [] else [44] ++ json_field "previous_sha256" (json_string (s_PreviousSHA256 s))) ++
  [44] ++ json_field "merkle_root_sha256" (json_string (s_MerkleRootSHA256 s)) ++
  [44] ++ json_field "leaf_count" (json_int (s_LeafCount s)) ++
  [44] ++ json_field "issued_at_unix" (json_int (s_IssuedAtUnix s)) ++
  [44] ++ json_field "signer_key_id" (json_string (s_SignerKeyID s)) ++
  [44] ++ json_field "nonce" (json_string (s_Nonce s)) ++ [125].

Definition Statement_canonicalBytes (s : Statement) : result ev_error bytes :=
  match Statement_Validate s with Some e => Err e | None => Ok (marshal_statement s) end.

Definition SHA256 (s : Statement) : result ev_error bytes :=
  let* canonical := Statement_canonicalBytes s in Ok (sha256_hex (statementDomain ++ canonical)).

Definition KeyID (publicKey : bytes) : bytes := str "ed25519:" ++ sha256_hex publicKey.

Definition SignStatement (statement : Statement) (privateKey : bytes) : result ev_error SignedStatement :=
  if negb (len privateKey =? PrivateKeySize) then Err ErrInvalidSignature else
  let publicKey := ed_public privateKey in
  if negb (str_eqb (s_SignerKeyID statement) (KeyID publicKey)) then Err ErrInvalidEvidence else
  let* canonical := Statement_canonicalBytes statement in
  Ok (mkSigned statement AlgorithmEd25519 (b64_encode publicKey) (b64_encode (ed_sign privateKey (statementDomain ++ canonical)))).

(** ** Trust and ledgers *)

Definition NewTrustPolicy (keys : gmap bytes bytes) : result ev_error TrustPolicy :=
  if forallb (fun '(keyID, key) => (len key =? PublicKeySize) && str_eqb keyID (KeyID key)) (map_to_list keys)
  then Ok keys else Err ErrUntrustedSigner.

Definition Trust_Verify (p : TrustPolicy) (signed : SignedStatement) : option ev_error :=
  if negb (str_eqb (ss_Algorithm signed) AlgorithmEd25519) then Some ErrInvalidSignature else
  match p !! s_SignerKeyID (ss_Statement signed) with
  | None => Some ErrUntrustedSigner
  | Some trusted =>
    match b64_decode (TrimSpace (ss_PublicKey signed)) with
    | None => Some ErrUntrustedSigner
    | Some public =>
      if negb (len public =? PublicKeySize) || negb (str_eqb trusted public) then Some ErrUntrustedSigner else
      match b64_decode (TrimSpace (ss_Signature signed)) with
      | None => Some ErrInvalidSignature
      | Some signature =>
        if negb (len signature =? SignatureSize) then Some ErrInvalidSignature else
        match Statement_canonicalBytes (ss_Statement signed) with
        | Err e => Some e
        | Ok canonical => if negb (ed_verify trusted (statementDomain ++ canonical) signature) then Some ErrInvalidSignature else None
        end
      end
    end
  end.

(** The loop of [VerifyLedger] from position [index] on: the last digest. *)
Fixpoint verify_chain (trust : TrustPolicy) (expectedStream : bytes) (index : Z) (previousDigest : bytes) (statements : list SignedStatement) : result ev_error bytes :=
  match statements with
  | [] => Ok previousDigest
  | signed :: rest =>
    let s := ss_Statement signed in
    if negb (str_eqb (s_StreamID s) expectedStream) then Err ErrWrongStream else
    if negb (s_Sequence s =? u64 (index + 1)) || negb (str_eqb (s_PreviousSHA256 s) previousDigest) then Err ErrBrokenChain else
    match Trust_Verify trust signed with
    | Some e => Err e
    | None => let* digest := SHA256 s in verify_chain trust expectedStream (index + 1) digest rest
    end
  end.

Definition VerifyLedger (statements : list SignedStatement) (trust : TrustPolicy) (expectedStreamID : bytes) (witnessed : option Head) : result ev_error VerificationReport :=
  match statements with
  | [] => Err ErrInvalidEvidence
  | first :: _ =>
    let expected := TrimSpace expectedStreamID in
    let expected := if str_eqb expected [] then s_StreamID (ss_Statement first) else expected in
    let* digest := verify_chain trust expected 0 [] statements in
    let head := mkHead expected (u64 (len statements)) digest in
    match witnessed with
    | None => Ok (mkReport expected (len statements) head true false)
    | Some w => if bool_decide (w = head) then Ok (mkReport expected (len statements) head true true) else Err ErrHeadMismatch
    end
  end.

(** ** The witness *)

(** [%020d] of an unsigned 64-bit integer. *)
Definition pad20 (n : Z) : bytes := let d := digits 20 n [] in repeat 48 (20 - length d) ++ d.

Definition witness_key (s : Statement) : bytes := s_StreamID s ++ [0] ++ pad20 (s_Sequence s).

(** [seen]: digests by stream and sequence; [None] is the nil witness. *)
Definition Observe (seen : option (gmap bytes bytes)) (signed : SignedStatement) (trust : TrustPolicy) : result ev_error Head * option (gmap bytes bytes) :=
  match seen with
  | None => (Err ErrInvalidEvidence, seen)
  | Some m =>
    match Trust_Verify trust signed with
    | Some e => (Err e, seen)
    | None =>
      match SHA256 (ss_Statement signed) with
      | Err e => (Err e, seen)
      | Ok digest =>
        let key := witness_key (ss_Statement signed) in
        let conflict := match m !! key with Some prior => negb (str_eqb prior digest) | None => false end in
        if conflict then (Err ErrEquivocation, seen) else
        (Ok (mkHead (s_StreamID (ss_Statement signed)) (s_Sequence (ss_Statement signed)) digest), Some (<[key := digest]> m))
      end
    end
  end.

(** [sort.Slice]; leaves with distinct identifiers have one order. *)
Definition SortLeaves (leaves : list Leaf) : list Leaf := sort_by (fun a b => str_ltb (l_ID a) (l_ID b)) leaves.

(** ** Anchors (anchor.go) *)

Definition Anchor_Validate (s : AnchorStatement) : option ev_error :=
  if negb (str_eqb (a_Version s) AnchorVersion) || blank (a_StreamID s) || (a_Sequence s =? 0) || negb (isSHA256 (a_StatementSHA256 s)) then Some ErrInvalidAnchor else None.

Definition NewAnchorStatement (head : Head) : result ev_error AnchorStatement :=
  let statement := mkAnchor AnchorVersion (TrimSpace (h_StreamID head)) (h_Sequence head) (ToLower (TrimSpace (h_StatementSHA256 head))) in
  match Anchor_Validate statement with Some e => Err e | None => Ok statement end.

Definition Anchor_Head (s : AnchorStatement) : Head := mkHead (a_StreamID s) (a_Sequence s) (a_StatementSHA256 s).

Definition ValidateFor (r : AnchorReceipt) (provider : bytes) (head : Head) : option ev_error :=
  match NewAnchorStatement head with
  | Err e => Some e
  | Ok expected =>
    if negb (str_eqb (rc_Version r) AnchorVersion) || negb (str_eqb (TrimSpace (rc_Provider r)) (TrimSpace provider)) || negb (bool_decide (rc_Statement r = expected)) then Some ErrAnchorMismatch else
    if blank (rc_ExternalID r) || negb (isSHA256 (rc_ProofSHA256 r)) then Some ErrInvalidAnchor else
    if negb (rc_Committed r) then Some ErrAnchorNotCommitted else None
  end.

End Evidence.
End Evidence.
