(* ===== verification/EvidenceProofs.v ===== *)
(** * Trees, chains and witnesses of the evidence ledger *)

From S2P Require Import Prelude GoStrings Sha256 GoEncoding AuthProof Evidence.

Module EvidenceProofs.
Import GoStrings Sha256 GoEncoding AuthProof Evidence.

Definition digest (x : bytes) : Prop := length x = 32%nat /\ bytes_ok x.

Lemma Sum256_digest x : digest (Sum256 x).
Proof. split; [apply Sum256_length|apply Sum256_ok]. Qed.

Lemma node_input_inj a b c d : length a = length c -> node_input a b = node_input c d -> a = c /\ b = d.
Proof. unfold node_input. intros Hl E. do 2 apply app_inv_head in E. by apply app_inj_1. Qed.

Lemma leaf_not_node c a b : leaf_input c <> node_input a b.
Proof. unfold leaf_input, node_input. done. Qed.

(** ** Levels *)

Lemma list_pair_ind {A} (P : list A -> Prop) : P [] -> (forall x, P [x]) -> (forall x y r, P r -> P (x :: y :: r)) -> forall l, P l.
Proof.
  intros H0 H1 H2 l. enough (P l /\ forall x, P (x :: l)) by tauto. induction l as [|y l [IH1 IH2]]; [by split|]. split; [apply IH2|].
  intros x. by apply H2.
Qed.

Lemma len_next_level l : len (next_level l) = (len l + 1) / 2.
Proof.
  induction l as [| x | x y r IH] using list_pair_ind; [done|done|]. cbn [next_level].
  assert (len (hashNode x y :: next_level r) = 1 + len (next_level r)) as -> by (unfold len; cbn [length]; lia).
  assert (len (x :: y :: r) = 2 + len r) as -> by (unfold len; cbn [length]; lia). rewrite IH.
  replace (2 + len r + 1) with (len r + 1 + 1 * 2) by lia. rewrite Z.div_add by lia. lia.
Qed.

(** What a level hashes to make the next one. *)
Fixpoint level_inputs (current : list bytes) : list bytes :=
  match current with
  | [] => []
  | [x] => [node_input x x]
  | x :: y :: r => node_input x y :: level_inputs r
  end.

Lemma length_level_inputs l : length (level_inputs l) = length (next_level l).
Proof. induction l as [| x | x y r IH] using list_pair_ind; [done|done|]. cbn [next_level level_inputs length]. by rewrite IH. Qed.

Lemma nth_level_inputs l (k : nat) : (k < length (next_level l))%nat ->
  nth k (level_inputs l) [] = node_input (nth (2 * k) l []) (nth (if (2 * k + 1 <? length l)%nat then 2 * k + 1 else 2 * k) l []).
Proof.
  revert k. induction l as [| x | x y r IH] using list_pair_ind; intros k Hk; cbn [next_level level_inputs] in *; [cbn in Hk; lia| |].
  - destruct k; [done|cbn in Hk; lia].
  - destruct k as [|k]; [done|]. cbn [nth]. rewrite IH by (cbn in Hk; lia). replace (2 * S k)%nat with (S (S (2 * k))) by lia.
    replace (S (S (2 * k)) + 1)%nat with (S (S (2 * k + 1))) by lia. cbn [length nth].
    replace (S (S (2 * k + 1)) <? S (S (length r)))%nat with (2 * k + 1 <? length r)%nat by done.
    by destruct (2 * k + 1 <? length r)%nat.
Qed.

(** The node above position [k]. *)
Lemma nth_next_input l (k : nat) : nth k (next_level l) (Sum256 []) = Sum256 (nth k (level_inputs l) []).
Proof.
  revert k. induction l as [| x | x y r IH] using list_pair_ind; intros k; cbn [next_level level_inputs]; [by destruct k|by destruct k as [|[|k]]|].
  destruct k as [|k]; [done|]. apply IH.
Qed.

Lemma climb_nonempty fuel l : exists r, climb fuel l = l :: r.
Proof. destruct fuel; cbn; [by exists []|]. destruct (1 <? len l); eauto. Qed.

Lemma next_level_digests l : Forall digest (next_level l).
Proof. induction l as [| x | x y r IH] using list_pair_ind; cbn [next_level]; repeat (apply Forall_cons; split; [apply Sum256_digest|]); done. Qed.

Lemma root_of_cons l r : r <> [] -> root_of (l :: r) = root_of r.
Proof. unfold root_of. destruct r; done. Qed.

(** ** Building a proof and checking it *)

Lemma hex_decode_digest d : digest d -> hex_decode (hex_encode d) = Some d /\ len d = 32.
Proof. intros [Hl Ho]. split; [by apply hex_roundtrip|]. unfold len. lia. Qed.

Lemma lxor_even q : Z.lxor (2 * q) 1 = 2 * q + 1.
Proof.
  symmetry. apply Z.add_nocarry_lxor. apply Z.bits_inj'. intros k Hk. rewrite Z.land_spec, Z.bits_0.
  destruct (Z.eqb_spec k 0) as [->|]; [by rewrite Z.testbit_even_0|]. rewrite (Z.bits_above_log2 1 k) by (cbn; lia). apply andb_false_r.
Qed.

Lemma lxor_one p : Z.lxor p 1 = if p mod 2 =? 1 then p - 1 else p + 1.
Proof.
  pose proof (Z.div_mod p 2 ltac:(lia)) as E. pose proof (Z.mod_pos_bound p 2 ltac:(lia)) as Hb. set (q := p / 2) in *.
  destruct (Z.eqb_spec (p mod 2) 1) as [H1|H1].
  - replace p with (Z.lxor (2 * q) 1) at 1 by (rewrite lxor_even; lia). rewrite Z.lxor_assoc, Z.lxor_nilpotent, Z.lxor_0_r. lia.
  - replace p with (2 * q) at 1 by lia. rewrite lxor_even. lia.
Qed.

(** A step up from position [p] of a level: the sibling, the side it is on, and
    the node above. *)
Lemma step_up nodes p : 0 <= p < len nodes -> 1 < len nodes ->
  let sib := if len nodes <=? Z.lxor p 1 then p else Z.lxor p 1 in
  0 <= sib < len nodes /\
  (sib <? p) = (if (p =? len nodes - 1) && (len nodes mod 2 =? 1) then false else p mod 2 =? 1) /\
  nth (Z.to_nat (p / 2)) (level_inputs nodes) [] =
    (if sib <? p then node_input (nth (Z.to_nat sib) nodes []) (nth (Z.to_nat p) nodes []) else node_input (nth (Z.to_nat p) nodes []) (nth (Z.to_nat sib) nodes [])) /\
  0 <= p / 2 < len (next_level nodes).
Proof.
  intros Hp Hw. cbv zeta. rewrite lxor_one, len_next_level.
  pose proof (Z.div_mod p 2 ltac:(lia)) as E. pose proof (Z.mod_pos_bound p 2 ltac:(lia)) as Hb.
  pose proof (Z.div_mod (len nodes) 2 ltac:(lia)) as E'. pose proof (Z.mod_pos_bound (len nodes) 2 ltac:(lia)) as Hb'.
  pose proof (Z.div_mod (len nodes + 1) 2 ltac:(lia)) as E''. pose proof (Z.mod_pos_bound (len nodes + 1) 2 ltac:(lia)) as Hb''.
  assert (0 <= p / 2 < (len nodes + 1) / 2) as Hq by lia.
  assert (Z.to_nat (p / 2) < length (next_level nodes))%nat as Hlt by (pose proof (len_next_level nodes); unfold len in *; lia).
  rewrite (nth_level_inputs nodes _ Hlt).
  destruct (Z.eqb_spec (p mod 2) 1) as [H1|H1].
  - replace (len nodes <=? p - 1) with false by lia. replace (p - 1 <? p) with true by lia.
    replace ((p =? len nodes - 1) && (len nodes mod 2 =? 1)) with false by (destruct (Z.eqb_spec p (len nodes - 1)), (Z.eqb_spec (len nodes mod 2) 1); cbn; lia).
    replace (2 * Z.to_nat (p / 2) + 1 <? length nodes)%nat with true by (symmetry; apply Nat.ltb_lt; unfold len in *; lia).
    split; [lia|]. split; [done|]. split; [|done]. replace (2 * Z.to_nat (p / 2))%nat with (Z.to_nat (p - 1)) by lia. by replace (Z.to_nat (p - 1) + 1)%nat with (Z.to_nat p) by lia.
  - destruct (Z.leb_spec (len nodes) (p + 1)) as [Hl|Hl].
    + replace (p <? p) with false by lia. replace ((p =? len nodes - 1) && (len nodes mod 2 =? 1)) with true by lia.
      replace (2 * Z.to_nat (p / 2) + 1 <? length nodes)%nat with false by (symmetry; apply Nat.ltb_ge; unfold len in *; lia).
      split; [lia|]. split; [done|]. split; [|done]. by replace (2 * Z.to_nat (p / 2))%nat with (Z.to_nat p) by lia.
    + replace (p + 1 <? p) with false by lia.
      replace (2 * Z.to_nat (p / 2) + 1 <? length nodes)%nat with true by (symmetry; apply Nat.ltb_lt; unfold len in *; lia).
      split; [lia|]. split; [by destruct (_ && _)|]. split; [|done]. replace (2 * Z.to_nat (p / 2))%nat with (Z.to_nat p) by lia. by replace (Z.to_nat p + 1)%nat with (Z.to_nat (p + 1)) by lia.
Qed.

(** The node above is the digest of that input. *)
Lemma nth_above nodes k : 0 <= k < len (next_level nodes) -> nth (Z.to_nat k) (next_level nodes) [] = Sum256 (nth (Z.to_nat k) (level_inputs nodes) []).
Proof.
  intros Hk. rewrite <- nth_next_input. apply nth_indep. unfold len in Hk. lia.
Qed.

Lemma nth_digest nodes k : Forall digest nodes -> 0 <= k < len nodes -> digest (nth (Z.to_nat k) nodes []).
Proof. intros Hd Hk. rewrite Forall_forall in Hd. apply Hd. apply list_elem_of_In, nth_In. unfold len in Hk. lia. Qed.

(** The width of the next level, computed in 64 bits. *)
Lemma width_up nodes : len nodes < 2 ^ 63 - 1 -> Z.rem (len nodes) 2 = len nodes mod 2 /\ Z.quot (i64 (len nodes + 1)) 2 = len (next_level nodes).
Proof.
  intros Hl. assert (0 <= len nodes) by (unfold len; lia). rewrite i64_small, len_next_level by lia.
  split; [apply Z.rem_mod_nonneg; lia|apply Z.quot_div_nonneg; lia].
Qed.

Lemma next_level_shorter nodes : 1 < len nodes -> len (next_level nodes) < len nodes.
Proof. intros Hw. rewrite len_next_level. pose proof (Z.div_mod (len nodes + 1) 2 ltac:(lia)). pose proof (Z.mod_pos_bound (len nodes + 1) 2 ltac:(lia)). lia. Qed.

(** The siblings of a position lead from its node to the root. *)
Lemma ascend_siblings fuel nodes p : Forall digest nodes -> 0 <= p < len nodes -> (length nodes <= fuel)%nat -> len nodes < 2 ^ 63 - 1 ->
  ascend (siblings (climb fuel nodes) p) (nth (Z.to_nat p) nodes []) p (len nodes) = Some (root_of (climb fuel nodes), 0, 1).
Proof.
  revert nodes p. induction fuel as [|fuel IH]; intros nodes p Hd Hp Hf Hmax; [unfold len in Hp; lia|]. cbn [climb].
  destruct (Z.ltb_spec 1 (len nodes)) as [Hw|Hw].
  - destruct (climb_nonempty fuel (next_level nodes)) as [up Eup]. rewrite root_of_cons by (by rewrite Eup).
    assert (siblings (nodes :: climb fuel (next_level nodes)) p =
      let sib := if len nodes <=? Z.lxor p 1 then p else Z.lxor p 1 in
      mkStep (hex_encode (nth (Z.to_nat sib) nodes [])) (sib <? p) :: siblings (climb fuel (next_level nodes)) (p / 2)) as -> by (cbn [siblings]; by rewrite Eup).
    pose proof (step_up nodes p Hp Hw) as Hs. cbv zeta in Hs |- *. set (sib := if len nodes <=? Z.lxor p 1 then p else Z.lxor p 1) in *.
    destruct Hs as (Hsib & Hleft & Hup & Hpos). cbn [ascend p_SHA256 p_Left].
    destruct (hex_decode_digest _ (nth_digest nodes sib Hd Hsib)) as [-> ->]. change (negb (32 =? 32)) with false. cbv iota.
    destruct (width_up nodes Hmax) as [-> ->]. rewrite <- Hleft, Bool.eqb_reflx. cbn [negb].
    assert ((if sib <? p then hashNode (nth (Z.to_nat sib) nodes []) (nth (Z.to_nat p) nodes []) else hashNode (nth (Z.to_nat p) nodes []) (nth (Z.to_nat sib) nodes [])) =
      nth (Z.to_nat (p / 2)) (next_level nodes) []) as -> by (rewrite nth_above, Hup by done; unfold hashNode; by destruct (sib <? p)).
    pose proof (next_level_shorter nodes Hw). apply IH; [apply next_level_digests|done|unfold len in *; lia|lia].
  - assert (exists x, nodes = [x]) as [x ->] by (destruct nodes as [|x [|y r]]; [unfold len in Hp; cbn in Hp; lia|by exists x|unfold len in Hw; cbn [length] in Hw; lia]).
    replace p with 0 by (unfold len in Hp; cbn in Hp; lia). done.
Qed.

(** ** What an accepted proof shows *)

(** Everything hashed on the way up a proof, and in building a tree. *)
Fixpoint ascend_inputs (steps : list ProofStep) (current : bytes) : list bytes :=
  match steps with
  | [] => []
  | step :: steps =>
    match hex_decode (p_SHA256 step) with
    | None => []
    | Some sibling =>
      let input := if p_Left step then node_input sibling current else node_input current sibling in
      input :: ascend_inputs steps (Sum256 input)
    end
  end.

Fixpoint tree_inputs (fuel : nat) (nodes : list bytes) : list bytes :=
  match fuel with
  | O => []
  | S fuel => if (1 <? len nodes) then level_inputs nodes ++ tree_inputs fuel (next_level nodes) else []
  end.

Section Sound.
Context (S : bytes -> Prop) (HS : collision_free S).

(** A digest of a tree all of whose leaves are [d] levels below. *)
Fixpoint depth (d : nat) (v : bytes) : Prop :=
  match d with
  | O => exists c, S (leaf_input c) /\ v = Sum256 (leaf_input c)
  | Datatypes.S d => exists l r, S (node_input l r) /\ v = hashNode l r /\ digest l /\ digest r /\ depth d l /\ depth d r
  end.

Lemma ascend_app a b current p w : ascend (a ++ b) current p w =
  match ascend a current p w with Some (c, p, w) => ascend b c p w | None => None end.
Proof.
  revert current p w. induction a as [|s a IH]; intros current p w; [done|]. cbn [app ascend].
  destruct (hex_decode (p_SHA256 s)); [|done]. destruct (negb (len _ =? 32)); [done|]. destruct (negb (Bool.eqb _ _)); [done|]. apply IH.
Qed.

Lemma ascend_inputs_app a b current p w c p' w' : ascend a current p w = Some (c, p', w') ->
  ascend_inputs (a ++ b) current = ascend_inputs a current ++ ascend_inputs b c.
Proof.
  revert current p w. induction a as [|s a IH]; intros current p w; cbn [app ascend ascend_inputs]; [by intros [= <- _ _]|].
  destruct (hex_decode (p_SHA256 s)); [|done]. destruct (negb (len _ =? 32)); [done|]. destruct (negb (Bool.eqb _ _)); [done|].
  intros E. cbn [app]. f_equal. unfold hashNode in E. destruct (p_Left s); by eapply IH.
Qed.

Lemma ascend_digest steps current p w c p' w' : digest current -> ascend steps current p w = Some (c, p', w') -> digest c.
Proof.
  revert current p w. induction steps as [|s steps IH]; intros current p w Hd; cbn [ascend]; [by intros [= <- _ _]|].
  destruct (hex_decode (p_SHA256 s)); [|done]. destruct (negb (len _ =? 32)); [done|]. destruct (negb (Bool.eqb _ _)); [done|].
  apply IH. destruct (p_Left s); apply Sum256_digest.
Qed.

(** A way up from a leaf to such a digest has exactly [d] steps: a leaf is
    hashed in another way than a node. *)
Lemma ascend_length d steps c p w v p' w' : S (leaf_input c) -> Forall S (ascend_inputs steps (Sum256 (leaf_input c))) ->
  ascend steps (Sum256 (leaf_input c)) p w = Some (v, p', w') -> depth d v -> length steps = d.
Proof.
  intros Hc. revert d v p' w'. induction steps as [|s steps IH] using rev_ind; intros d v p' w' Hin Ha Hd.
  - cbn in Ha. injection Ha as <- _ _. destruct d as [|d]; [done|]. destruct Hd as (l & r & Hlr & E & _). by apply HS, leaf_not_node in E.
  - rewrite ascend_app in Ha. destruct (ascend steps _ p w) as [[[u q] x]|] eqn:Eu; [|done]. pose proof (ascend_digest _ _ _ _ _ _ _ (Sum256_digest _) Eu) as Hu.
    rewrite (ascend_inputs_app _ _ _ _ _ _ _ _ Eu) in Hin. apply Forall_app in Hin as [Hin Hlast]. cbn [ascend ascend_inputs] in Ha, Hlast.
    destruct (hex_decode (p_SHA256 s)) as [sib|]; [|done]. destruct (Z.eqb_spec (len sib) 32) as [Hsib|]; [|done]. cbn [negb] in Ha.
    destruct (negb (Bool.eqb _ _)); [done|]. injection Ha as <- _ _. apply Forall_cons in Hlast as [Hi _]. rewrite length_app. cbn [length].
    assert (length sib = 32%nat) as Hs by (unfold len in Hsib; lia).
    destruct d as [|d].
    + destruct Hd as (c' & Hc' & E). exfalso. destruct (p_Left s); symmetry in E; by apply HS, leaf_not_node in E.
    + destruct Hd as (l & r & Hlr & E & [Hl _] & [Hr _] & Dl & Dr).
      assert (depth d u) as Hdu.
      { destruct Hu as [Hu _]. destruct (p_Left s); apply (HS _ _ Hi Hlr) in E.
        - apply node_input_inj in E as [_ ->]; [done|lia].
        - apply node_input_inj in E as [-> _]; [done|lia]. }
      rewrite (IH d u q x Hin eq_refl Hdu). lia.
Qed.

(** The root of a tree of digests at depth [k]. *)
Lemma root_depth fuel nodes k : (length nodes <= fuel)%nat -> nodes <> [] -> Forall (fun v => digest v /\ depth k v) nodes -> Forall S (tree_inputs fuel nodes) ->
  depth (k + pred (length (climb fuel nodes))) (root_of (climb fuel nodes)).
Proof.
  revert nodes k. induction fuel as [|fuel IH]; intros nodes k Hf Hne Hd Hin; [destruct nodes; [done|cbn in Hf; lia]|]. cbn [climb tree_inputs] in *.
  destruct (Z.ltb_spec 1 (len nodes)) as [Hw|Hw].
  - apply Forall_app in Hin as [Hin1 Hin2]. destruct (climb_nonempty fuel (next_level nodes)) as [up Eup].
    rewrite root_of_cons by (by rewrite Eup). cbn [length pred].
    replace (k + length (climb fuel (next_level nodes)))%nat with (Datatypes.S k + pred (length (climb fuel (next_level nodes))))%nat by (rewrite Eup; cbn; lia).
    pose proof (next_level_shorter nodes Hw). apply IH; [unfold len in *; lia|by destruct nodes as [|? [|]]| |done].
    clear - Hd Hin1. induction nodes as [| x | x y r IHn] using list_pair_ind; cbn [next_level level_inputs] in *; [done| |].
    + apply Forall_singleton. apply Forall_singleton in Hd as [? ?]. apply Forall_cons in Hin1 as [? _]. split; [apply Sum256_digest|]. exists x, x. repeat (split; [assumption || reflexivity|]). assumption.
    + apply Forall_cons in Hd as [[? ?] Hd]. apply Forall_cons in Hd as [[? ?] Hd]. apply Forall_cons in Hin1 as [? Hin1]. apply Forall_cons. split; [|by apply IHn].
      split; [apply Sum256_digest|]. exists x, y. repeat (split; [assumption || reflexivity|]). assumption.
  - assert (exists x, nodes = [x]) as [x ->] by (destruct nodes as [|x [|y r]]; [done|by exists x|unfold len in Hw; cbn [length] in Hw; lia]).
    apply Forall_singleton in Hd as [_ Hd]. cbn. by rewrite Nat.add_0_r.
Qed.

(** A way up of the right length started at the node of its position. *)
Lemma ascend_start fuel nodes p steps current p' w' : Forall digest nodes -> 0 <= p < len nodes -> (length nodes <= fuel)%nat -> len nodes < 2 ^ 63 - 1 -> digest current ->
  Forall S (tree_inputs fuel nodes) -> Forall S (ascend_inputs steps current) -> length steps = pred (length (climb fuel nodes)) ->
  ascend steps current p (len nodes) = Some (root_of (climb fuel nodes), p', w') -> current = nth (Z.to_nat p) nodes [].
Proof.
  revert nodes p steps current. induction fuel as [|fuel IH]; intros nodes p steps current Hd Hp Hf Hmax Hcur Hin Hain Hlen Ha; [unfold len in Hp; lia|].
  cbn [climb tree_inputs] in *. destruct (Z.ltb_spec 1 (len nodes)) as [Hw|Hw].
  - apply Forall_app in Hin as [Hin1 Hin2]. destruct (climb_nonempty fuel (next_level nodes)) as [up Eup]. rewrite root_of_cons in Ha by (by rewrite Eup).
    cbn [length pred] in Hlen. destruct steps as [|st steps]; [rewrite Eup in Hlen; done|]. cbn [ascend ascend_inputs] in *.
    destruct (hex_decode (p_SHA256 st)) as [sib|]; [|done]. destruct (Z.eqb_spec (len sib) 32) as [Hsib|]; [|done]. cbn [negb] in Ha.
    destruct (width_up nodes Hmax) as [Erem Equot]. rewrite Erem, Equot in Ha. pose proof (next_level_shorter nodes Hw).
    destruct (Bool.eqb (p_Left st) _) eqn:Ef; [|done]. apply eqb_prop in Ef. cbn [negb] in Ha. apply Forall_cons in Hain as [Hi Hain].
    pose proof (step_up nodes p Hp Hw) as Hs. cbv zeta in Hs. set (sb := if len nodes <=? Z.lxor p 1 then p else Z.lxor p 1) in *. destruct Hs as (Hsb & Hleft & Hup & Hpos).
    rewrite <- Hleft in Ef. rewrite Ef in *.
    pose proof (nth_digest nodes p Hd Hp) as [Hdp _]. pose proof (nth_digest nodes sb Hd Hsb) as [Hds _]. destruct Hcur as [Hcur _].
    assert (length sib = 32%nat) as Hs32 by (unfold len in Hsib; lia).
    assert (S (nth (Z.to_nat (p / 2)) (level_inputs nodes) [])) as Hin0.
    { rewrite Forall_forall in Hin1. apply Hin1, list_elem_of_In, nth_In. rewrite length_level_inputs. unfold len in Hpos. lia. }
    assert ((if sb <? p then hashNode sib current else hashNode current sib) = nth (Z.to_nat (p / 2)) (next_level nodes) []) as E.
    { apply (IH (next_level nodes) (p / 2) steps); [apply next_level_digests|done|unfold len in *; lia|lia|destruct (sb <? p); apply Sum256_digest|done|by destruct (sb <? p)| |done].
      rewrite Eup in Hlen |- *. cbn [length pred] in *. lia. }
    rewrite nth_above in E by done. rewrite Hup in Hin0, E. destruct (sb <? p); apply HS in E; try done.
    + by apply node_input_inj in E as [_ ->]; [|lia].
    + by apply node_input_inj in E as [-> _]; [|lia].
  - assert (exists x, nodes = [x]) as [x ->] by (destruct nodes as [|x [|y r]]; [unfold len in Hp; cbn in Hp; lia|by exists x|unfold len in Hw; cbn [length] in Hw; lia]).
    destruct steps; [|done]. cbn in Ha. injection Ha as -> _ _. by replace p with 0 by (unfold len in Hp; cbn in Hp; lia).
Qed.

End Sound.

(** ** Texts *)

Lemma EqualFold_hex_digest x y : digest x -> digest y -> EqualFold_hex (hex_encode x) (hex_encode y) = true <-> x = y.
Proof.
  intros [_ Hx] [_ Hy]. unfold EqualFold_hex. rewrite hex_encode_lower. destruct (str_eqb_spec (hex_encode x) (hex_encode y)) as [E|E].
  - split; [|done]. intros _. by apply hex_encode_inj.
  - split; [done|]. intros ->. done.
Qed.

Section Texts.
Context `{UnicodeTables}.

Lemma isSHA256_hex d : digest d -> isSHA256 (hex_encode d) = true.
Proof.
  intros [Hl Hd]. unfold isSHA256. rewrite len_hex, hex_roundtrip, ToLower_ascii, hex_encode_lower by (done || by apply hex_encode_ascii).
  by destruct (str_eqb_spec (hex_encode d) (hex_encode d)).
Qed.

(** The strings are valid UTF-8 and the integers fit their types. *)
Record leaf_text (l : Leaf) : Prop := {
  lt_strings : Forall text_ok [l_ID l; l_Subject l; l_Kind l; l_PayloadSHA256 l];
  lt_time : l_ObservedAtUnix l < 2 ^ 63
}.

Lemma marshal_leaf_inj l l' : Leaf_Validate l = None -> Leaf_Validate l' = None -> leaf_text l -> leaf_text l' -> marshal_leaf l = marshal_leaf l' -> l = l'.
Proof.
  intros Hv Hv' [Hs Ht] [Hs' Ht'] E. rewrite !Forall_cons in Hs, Hs'. destruct Hs as (? & ? & ? & ? & _), Hs' as (? & ? & ? & ? & _).
  assert (forall l, Leaf_Validate l = None -> 0 < l_ObservedAtUnix l) as Hpos.
  { intros x. unfold Leaf_Validate. repeat (destruct (_ || _); [done|]). destruct (negb _); [done|]. by destruct (Z.leb_spec (l_ObservedAtUnix x) 0). }
  apply Hpos in Hv, Hv'. unfold marshal_leaf in E. do 4 next_string E.
  apply app_inv_head, json_field_inj, json_int_inj in E as [? E]; try apply int_end_brace; try lia.
  destruct l, l'; cbn in *. by subst.
Qed.

Record statement_text (s : Statement) : Prop := {
  st_strings : Forall text_ok [s_Version s; s_StreamID s; s_PreviousSHA256 s; s_MerkleRootSHA256 s; s_SignerKeyID s; s_Nonce s];
  st_ints : 0 <= s_Sequence s < 2 ^ 64 /\ s_LeafCount s < 2 ^ 63 /\ s_IssuedAtUnix s < 2 ^ 63
}.

Lemma previous_or_root v t v' t' : json_field "previous_sha256" v ++ t <> json_field "merkle_root_sha256" v' ++ t'.
Proof.
  unfold json_field.
  assert (exists r, json_string (str "previous_sha256") = 34 :: 112 :: r) as [r ->] by (vm_compute; eauto).
  assert (exists r, json_string (str "merkle_root_sha256") = 34 :: 109 :: r) as [r' ->] by (vm_compute; eauto).
  cbn. congruence.
Qed.

Lemma Statement_Validate_ints s : Statement_Validate s = None -> 0 < s_LeafCount s /\ 0 < s_IssuedAtUnix s.
Proof.
  unfold Statement_Validate. destruct (Z.leb_spec (s_LeafCount s) 0); [by rewrite !orb_true_r|]. destruct (Z.leb_spec (s_IssuedAtUnix s) 0); [by rewrite !orb_true_r|]. lia.
Qed.

Lemma marshal_statement_inj s s' : Statement_Validate s = None -> Statement_Validate s' = None -> statement_text s -> statement_text s' ->
  marshal_statement s = marshal_statement s' -> s = s'.
Proof.
  intros Hv Hv' [Hs Ht] [Hs' Ht'] E. rewrite !Forall_cons in Hs, Hs'. destruct Hs as (? & ? & ? & ? & ? & ? & _), Hs' as (? & ? & ? & ? & ? & ? & _).
  apply Statement_Validate_ints in Hv, Hv'. unfold marshal_statement in E. do 2 next_string E.
  apply app_inv_head, json_field_inj, json_int_inj in E as [? E];
    [|lia|lia|by destruct (str_eqb (s_PreviousSHA256 s) []); apply int_end_comma|by destruct (str_eqb (s_PreviousSHA256 s') []); apply int_end_comma].
  apply omitted_field_inj in E as [? E]; [|exact previous_or_root|done|done]. apply json_string_inj in E as [? E]; [|assumption|assumption].
  do 2 (apply app_inv_head, json_field_inj, json_int_inj in E as [? E]; try apply int_end_comma; try lia).
  do 2 next_string E. destruct s, s'; cbn in *. by subst.
Qed.

End Texts.

(** ** Trees over leaves *)

Section Trees.
Context `{UnicodeTables}.

Definition leaf_digest (l : Leaf) : bytes := Sum256 (leaf_input (marshal_leaf l)).

Lemma hashLeaf_ok l h : hashLeaf l = Ok h -> Leaf_Validate l = None /\ h = leaf_digest l.
Proof. unfold hashLeaf, Leaf_canonicalBytes. destruct (Leaf_Validate l); [done|]. by intros [= <-]. Qed.

Lemma leaf_hashes_ok leaves seen first : leaf_hashes seen leaves = Ok first -> first = leaf_digest <$> leaves /\ Forall (fun l => Leaf_Validate l = None) leaves.
Proof.
  revert seen first. induction leaves as [|l r IH]; intros seen first; cbn [leaf_hashes]; [by intros [= <-]|].
  destruct (bool_decide _); [done|]. intros E. apply result_bind_ok in E as (h & Eh & E). apply result_bind_ok in E as (rest & Er & [= <-]).
  apply hashLeaf_ok in Eh as [? ->]. apply IH in Er as [-> ?]. split; [done|]. by constructor.
Qed.

Lemma merkleLevels_ok leaves levels : merkleLevels leaves = Ok levels ->
  leaves <> [] /\ levels = climb (length leaves) (leaf_digest <$> leaves) /\ Forall (fun l => Leaf_Validate l = None) leaves.
Proof.
  unfold merkleLevels. destruct (Z.eqb_spec (len leaves) 0) as [|Hn]; [done|]. intros E. apply result_bind_ok in E as (first & Ef & [= <-]).
  apply leaf_hashes_ok in Ef as [-> ?]. rewrite length_fmap. split; [by intros ->|done].
Qed.

Lemma leaf_digests leaves : Forall digest (leaf_digest <$> leaves).
Proof. apply Forall_fmap, Forall_forall. intros l _. apply Sum256_digest. Qed.

Lemma climb_root_digest fuel nodes : nodes <> [] -> (length nodes <= fuel)%nat -> Forall digest nodes -> digest (root_of (climb fuel nodes)).
Proof.
  revert nodes. induction fuel as [|fuel IH]; intros nodes Hne Hf Hd; [destruct nodes; [done|cbn in Hf; lia]|]. cbn [climb].
  destruct (Z.ltb_spec 1 (len nodes)) as [Hw|Hw].
  - destruct (climb_nonempty fuel (next_level nodes)) as [up Eup]. rewrite root_of_cons by (by rewrite Eup).
    pose proof (next_level_shorter nodes Hw). apply IH; [by destruct nodes as [|? [|]]|unfold len in *; lia|apply next_level_digests].
  - destruct nodes as [|x [|]]; [done| |unfold len in Hw; cbn [length] in Hw; lia]. by apply Forall_cons in Hd as [? _].
Qed.

Lemma nth_leaf_digest leaves i leaf : leaves !! i = Some leaf -> nth i (leaf_digest <$> leaves) [] = leaf_digest leaf.
Proof. intros E. apply nth_lookup_Some. by rewrite list_lookup_fmap, E. Qed.

(** Everything hashed in building the tree of [leaves] and in checking [proof]. *)
Definition merkle_inputs (leaves : list Leaf) (leaf : Leaf) (proof : MerkleProof) : list bytes :=
  leaf_input (marshal_leaf leaf) :: ascend_inputs (p_Siblings proof) (leaf_digest leaf) ++
  ((leaf_input ∘ marshal_leaf) <$> leaves) ++ tree_inputs (length leaves) (leaf_digest <$> leaves).

Lemma verified_proof leaf root proof : VerifyMerkleProof leaf root proof = None ->
  0 <= p_Index proof < p_LeafCount proof /\ Leaf_Validate leaf = None /\
  exists top, ascend (p_Siblings proof) (leaf_digest leaf) (p_Index proof) (p_LeafCount proof) = Some (top, 0, 1) /\ EqualFold_hex root (hex_encode top) = true.
Proof.
  unfold VerifyMerkleProof. destruct (_ || _ || _ || _) eqn:E; [done|]. destruct (hashLeaf leaf) as [h|e] eqn:Eh; [|done]. apply hashLeaf_ok in Eh as [? ->].
  destruct (ascend _ _ _ _) as [[[top p] w]|] eqn:Ea; [|done]. destruct (Z.eqb_spec p 0) as [->|]; [|done]. destruct (Z.eqb_spec w 1) as [->|]; [|done].
  destruct (EqualFold_hex _ _) eqn:Er; [|done]. intros _. split; [lia|]. split; [done|]. by exists top.
Qed.

Lemma proof_position leaves leaf root proof : BuildMerkleRoot leaves = Ok root -> len leaves < 2 ^ 63 - 1 -> p_LeafCount proof = len leaves -> VerifyMerkleProof leaf root proof = None ->
  collision_free (fun x => x ∈ merkle_inputs leaves leaf proof) ->
  leaf_digest leaf = nth (Z.to_nat (p_Index proof)) (leaf_digest <$> leaves) [].
Proof.
  intros Hr Hmax Hc Hv HS. apply result_bind_ok in Hr as (levels & El & [= <-]). apply merkleLevels_ok in El as (Hne & -> & _).
  apply verified_proof in Hv as (Hi & _ & top & Ha & Er). rewrite Hc in *. set (S := fun x => x ∈ merkle_inputs leaves leaf proof) in *.
  pose proof (leaf_digests leaves) as Hd. set (nodes := leaf_digest <$> leaves) in *.
  assert (len leaves = len nodes) as Hlen by (unfold nodes, len; by rewrite length_fmap). assert (length leaves = length nodes) as Hlen' by (unfold nodes; by rewrite length_fmap).
  assert (nodes <> []) as Hnn by (intros En; rewrite En in Hlen'; by destruct leaves).
  apply EqualFold_hex_digest in Er; [|apply climb_root_digest; [done|lia|done]|by eapply ascend_digest; [|exact Ha]; apply Sum256_digest]. subst top.
  assert (Forall S (tree_inputs (length leaves) nodes)) as Ht by (apply Forall_forall; intros x Hx; unfold S, merkle_inputs; fold nodes; set_solver).
  assert (Forall S (ascend_inputs (p_Siblings proof) (leaf_digest leaf))) as Hp by (apply Forall_forall; intros x Hx; unfold S, merkle_inputs; set_solver).
  eapply (ascend_start S HS); [done|lia| |lia|apply Sum256_digest|exact Ht|exact Hp| |rewrite <- Hlen; exact Ha]; [lia|].
  eapply (ascend_length S HS _); [|exact Hp|exact Ha|]; [unfold S, merkle_inputs; set_solver|].
  apply (root_depth S _ nodes 0); [lia|done| |done]. apply Forall_forall. intros v Hv. unfold nodes in Hv. apply list_elem_of_fmap in Hv as (l & -> & Hl).
  split; [apply Sum256_digest|]. exists (marshal_leaf l). split; [|done]. unfold S, merkle_inputs. rewrite elem_of_cons, !elem_of_app. right. right. left.
  apply list_elem_of_fmap. by exists l.
Qed.

End Trees.

End EvidenceProofs.
