(* ===== verification/EvidenceLedger.v ===== *)
(** * Ledgers of signed statements and the witness: lemmas *)

From S2P Require Import Prelude GoStrings Sha256 GoEncoding AuthProof Evidence EvidenceProofs.

Module EvidenceLedger.
Import GoStrings Sha256 GoEncoding AuthProof Evidence EvidenceProofs.

Section Ledger.
Context `{UnicodeTables} `{Ed25519}.

Definition statement_input (s : Statement) : bytes := statementDomain ++ marshal_statement s.
Definition statement_digest (s : Statement) : bytes := sha256_hex (statement_input s).

Lemma SHA256_ok s d : SHA256 s = Ok d -> Statement_Validate s = None /\ d = statement_digest s.
Proof. unfold SHA256, Statement_canonicalBytes. destruct (Statement_Validate s); [done|]. by intros [= <-]. Qed.

Lemma statement_digest_nonempty s : statement_digest s <> [].
Proof.
  intros E. assert (length (statement_digest s) = 64%nat) as Hl by (unfold statement_digest, sha256_hex; by rewrite hex_encode_length, Sum256_length).
  by rewrite E in Hl.
Qed.

(** Equal digests are of equal statements. *)
Lemma statement_digest_inj (S : bytes -> Prop) s s' : collision_free S -> S (statement_input s) -> S (statement_input s') ->
  Statement_Validate s = None -> Statement_Validate s' = None -> statement_text s -> statement_text s' ->
  statement_digest s = statement_digest s' -> s = s'.
Proof.
  intros HS H1 H2 V V' T T' E. apply hex_encode_inj in E; [|apply Sum256_ok|apply Sum256_ok]. apply HS in E; [|done|done].
  apply app_inv_head in E. by apply marshal_statement_inj.
Qed.

(** A statement under the signature of a trusted key. *)
Definition authentic (trust : TrustPolicy) (signed : SignedStatement) : Prop :=
  exists key signature, trust !! s_SignerKeyID (ss_Statement signed) = Some key /\ len key = PublicKeySize /\
    b64_decode (TrimSpace (ss_Signature signed)) = Some signature /\
    ed_verify key (statement_input (ss_Statement signed)) signature = true.

Lemma Trust_Verify_authentic trust signed : Trust_Verify trust signed = None -> Statement_Validate (ss_Statement signed) = None /\ authentic trust signed.
Proof.
  unfold Trust_Verify, Statement_canonicalBytes, authentic, statement_input. destruct (negb (str_eqb _ _)); [done|].
  destruct (trust !! _) as [key|] eqn:Ek; [|done]. destruct (b64_decode (TrimSpace (ss_PublicKey signed))) as [public|]; [|done].
  destruct (Z.eqb_spec (len public) PublicKeySize) as [Hl|]; [|done]. cbn [negb orb]. destruct (str_eqb_spec key public) as [->|]; [|done]. cbn [negb].
  destruct (b64_decode (TrimSpace (ss_Signature signed))) as [signature|]; [|done]. destruct (negb (len signature =? _)); [done|].
  destruct (Statement_Validate _); [done|]. destruct (ed_verify _ _ _) eqn:Ev; [|done]. intros _. split; [done|]. by exists public, signature.
Qed.

(** ** Chains *)

Definition link_ok (trust : TrustPolicy) (stream : bytes) (index : Z) (previous : bytes) (signed : SignedStatement) : Prop :=
  s_StreamID (ss_Statement signed) = stream /\ s_Sequence (ss_Statement signed) = u64 (index + 1) /\
  s_PreviousSHA256 (ss_Statement signed) = previous /\ Trust_Verify trust signed = None.

Lemma verify_chain_cons trust stream i prev x r d : verify_chain trust stream i prev (x :: r) = Ok d <->
  link_ok trust stream i prev x /\ verify_chain trust stream (i + 1) (statement_digest (ss_Statement x)) r = Ok d.
Proof.
  cbn [verify_chain]. unfold link_ok. destruct (str_eqb_spec (s_StreamID (ss_Statement x)) stream); cbn [negb]; [|split; [done|tauto]].
  destruct (Z.eqb_spec (s_Sequence (ss_Statement x)) (u64 (i + 1))); cbn [negb orb]; [|split; [done|tauto]].
  destruct (str_eqb_spec (s_PreviousSHA256 (ss_Statement x)) prev); cbn [negb]; [|split; [done|tauto]].
  destruct (Trust_Verify trust x) eqn:Ev; [split; [done|by intros [(_ & _ & _ & ?) _]]|]. pose proof (proj1 (Trust_Verify_authentic _ _ Ev)) as Hv.
  unfold SHA256, Statement_canonicalBytes. rewrite Hv. cbn [result_bind]. fold (statement_input (ss_Statement x)) (statement_digest (ss_Statement x)). tauto.
Qed.

Lemma verify_chain_snoc trust stream i prev l x d : verify_chain trust stream i prev (l ++ [x]) = Ok d <->
  exists d0, verify_chain trust stream i prev l = Ok d0 /\ link_ok trust stream (i + len l) d0 x /\ d = statement_digest (ss_Statement x).
Proof.
  revert i prev. induction l as [|y l IH]; intros i prev; cbn [app].
  - rewrite verify_chain_cons. cbn [verify_chain]. change (len []) with 0. rewrite Z.add_0_r. split.
    + intros [Hl [= <-]]. by exists prev.
    + intros (d0 & [= <-] & Hl & ->). done.
  - rewrite verify_chain_cons, IH. replace (i + 1 + len l) with (i + len (y :: l)) by (unfold len; cbn [length]; lia).
    setoid_rewrite verify_chain_cons. naive_solver.
Qed.

(** Chains that end in the same digest. *)
Lemma verify_chain_same (S : bytes -> Prop) t1 t2 st1 st2 l1 l2 d : collision_free S ->
  Forall (fun x => S (statement_input (ss_Statement x)) /\ statement_text (ss_Statement x)) l1 ->
  Forall (fun x => S (statement_input (ss_Statement x)) /\ statement_text (ss_Statement x)) l2 ->
  verify_chain t1 st1 0 [] l1 = Ok d -> verify_chain t2 st2 0 [] l2 = Ok d -> ss_Statement <$> l1 = ss_Statement <$> l2.
Proof.
  intros HS. revert l2 d. induction l1 as [|x l1 IH] using rev_ind; intros l2 d H1 H2 E1 E2.
  - cbn in E1. injection E1 as <-. destruct l2 as [|y l2 _] using rev_ind; [done|].
    apply verify_chain_snoc in E2 as (? & _ & _ & E). by apply eq_sym, statement_digest_nonempty in E.
  - apply verify_chain_snoc in E1 as (d1 & E1 & (_ & _ & P1 & V1) & ->). destruct l2 as [|y l2 _] using rev_ind.
    { cbn in E2. injection E2 as E2. by apply eq_sym, statement_digest_nonempty in E2. }
    apply verify_chain_snoc in E2 as (d2 & E2 & (_ & _ & P2 & V2) & E).
    apply Forall_app in H1 as [H1 [[Sx Tx] _]%Forall_cons], H2 as [H2 [[Sy Ty] _]%Forall_cons].
    apply Trust_Verify_authentic in V1 as [V1 _], V2 as [V2 _].
    assert (ss_Statement x = ss_Statement y) as Exy by (by eapply statement_digest_inj).
    rewrite Exy in P1. rewrite !fmap_app. cbn. rewrite Exy. f_equal. apply (IH l2 d1); [done|done|done|]. by rewrite <- P1, P2.
Qed.

(** Every statement of an accepted chain has its place in it. *)
Lemma verify_chain_lookup trust stream i prev l d k x : verify_chain trust stream i prev l = Ok d -> l !! k = Some x ->
  authentic trust x /\ s_StreamID (ss_Statement x) = stream /\ s_Sequence (ss_Statement x) = u64 (i + Z.of_nat k + 1) /\
  s_PreviousSHA256 (ss_Statement x) = match k with O => prev | S k => from_option (statement_digest ∘ ss_Statement) [] (l !! k) end.
Proof.
  revert i prev k. induction l as [|y l IH]; intros i prev k E Hk; [done|]. apply verify_chain_cons in E as [(Hs & Hq & Hp & Hv) E].
  destruct k as [|k]; cbn in Hk.
  - injection Hk as ->. split; [by apply Trust_Verify_authentic|]. rewrite Z.add_0_r. done.
  - destruct (IH _ _ k E Hk) as (Ha & Hs' & Hq' & Hp'). split; [done|]. split; [done|]. split; [rewrite Hq'; f_equal; lia|]. rewrite Hp'. by destruct k.
Qed.

Lemma VerifyLedger_ok l trust stream w report : VerifyLedger l trust stream w = Ok report ->
  exists d st, verify_chain trust st 0 [] l = Ok d /\ l <> [] /\ (TrimSpace stream <> [] -> st = TrimSpace stream) /\
    r_Head report = mkHead st (u64 (len l)) d /\ r_Statements report = len l /\
    (r_CompletenessBound report = true <-> w = Some (r_Head report)) /\ (forall h, w = Some h -> h = r_Head report).
Proof.
  unfold VerifyLedger. destruct l as [|x l]; [done|]. set (st := if str_eqb (TrimSpace stream) [] then _ else _).
  intros E. apply result_bind_ok in E as (d & Ec & E). exists d, st. split; [done|]. split; [done|]. split.
  { intros Hne. unfold st. by destruct (str_eqb_spec (TrimSpace stream) []). }
  destruct w as [w|]; [destruct (bool_decide_reflect (w = mkHead st (u64 (len (x :: l))) d)) as [->|]; [|done]|]; injection E as <-; cbn; split_and!; naive_solver.
Qed.

(** ** What signing gives *)

Lemma sign_verifies `{!Ed25519Laws} (trust : TrustPolicy) statement key signed : bytes_ok key -> bytes_ok (ed_public key) ->
  SignStatement statement key = Ok signed -> trust !! KeyID (ed_public key) = Some (ed_public key) ->
  ss_Statement signed = statement /\ Trust_Verify trust signed = None.
Proof.
  intros Hk Hp. unfold SignStatement. destruct (Z.eqb_spec (len key) PrivateKeySize) as [Hl|]; [|done]. cbn [negb].
  destruct (str_eqb_spec (s_SignerKeyID statement) (KeyID (ed_public key))) as [Eid|]; [|done]. cbn [negb]. intros E Ht.
  apply result_bind_ok in E as (canonical & Ec & [= <-]). split; [done|]. unfold Trust_Verify. cbn [ss_Algorithm ss_Statement ss_PublicKey ss_Signature].
  destruct (str_eqb_spec AlgorithmEd25519 AlgorithmEd25519); [|done]. cbn [negb]. rewrite Eid, Ht, !b64_trimmed by (done || by apply ed_sign_bytes).
  rewrite ed_public_size, Z.eqb_refl by done. cbn [negb orb]. destruct (str_eqb_spec (ed_public key) (ed_public key)); [|done]. cbn [negb].
  rewrite ed_sign_size, Z.eqb_refl. cbn [negb]. by rewrite Ec, ed_sign_verifies.
Qed.

(** ** The witness *)

Lemma dec_val_zeros k ds : dec_val (repeat 48 k ++ ds) = dec_val ds.
Proof. unfold dec_val. rewrite fold_left_app. f_equal. induction k as [|k IH]; [done|]. exact IH. Qed.

Lemma length_digits f n acc : (length (digits f n acc) <= f + length acc)%nat.
Proof. revert n acc. induction f as [|f IH]; intros n acc; cbn [digits]; [lia|]. case_match; cbn [length]; [lia|]. etrans; [apply IH|]. cbn [length]. lia. Qed.

Lemma pad20_spec n : 0 <= n < 2 ^ 64 -> length (pad20 n) = 20%nat /\ dec_val (pad20 n) = n.
Proof.
  intros Hn. unfold pad20. pose proof (length_digits 20 n []) as Hl. cbn [length] in Hl. split; [rewrite length_app, repeat_length; lia|].
  destruct (digits_spec 20 n []) as (ds & E & _ & V & _); [cbn; lia|lia|]. rewrite E, app_nil_r in *. by rewrite dec_val_zeros.
Qed.

Lemma witness_key_inj s s' : 0 <= s_Sequence s < 2 ^ 64 -> 0 <= s_Sequence s' < 2 ^ 64 -> witness_key s = witness_key s' ->
  s_StreamID s = s_StreamID s' /\ s_Sequence s = s_Sequence s'.
Proof.
  intros Hs Hs' E. apply pad20_spec in Hs as [L V], Hs' as [L' V']. unfold witness_key in E.
  apply app_inj_2 in E as [-> E]; [|by rewrite !length_app, L, L']. apply app_inv_head in E. split; [done|]. by rewrite <- V, <- V', E.
Qed.

(** The history of a witness: what it was shown, and which of it it accepted. *)
Fixpoint observe_all (seen : option (gmap bytes bytes)) (shown : list (TrustPolicy * SignedStatement)) : list SignedStatement * option (gmap bytes bytes) :=
  match shown with
  | [] => ([], seen)
  | (trust, signed) :: rest =>
    let '(r, seen) := Observe seen signed trust in
    let '(accepted, seen) := observe_all seen rest in
    ((if is_ok r then [signed] else []) ++ accepted, seen)
  end.

(** What is kept is exactly what was accepted. *)
Definition remembers (m : gmap bytes bytes) (accepted : list SignedStatement) : Prop :=
  (forall x, x ∈ accepted -> Statement_Validate (ss_Statement x) = None /\ m !! witness_key (ss_Statement x) = Some (statement_digest (ss_Statement x))) /\
  (forall k d, m !! k = Some d -> exists x, x ∈ accepted /\ witness_key (ss_Statement x) = k).

Definition conflicts (m : gmap bytes bytes) (s : Statement) : bool :=
  match m !! witness_key s with Some prior => negb (str_eqb prior (statement_digest s)) | None => false end.

Lemma Observe_verified m signed trust : Trust_Verify trust signed = None ->
  Observe (Some m) signed trust = if conflicts m (ss_Statement signed) then (Err ErrEquivocation, Some m) else
    (Ok (mkHead (s_StreamID (ss_Statement signed)) (s_Sequence (ss_Statement signed)) (statement_digest (ss_Statement signed))),
     Some (<[witness_key (ss_Statement signed) := statement_digest (ss_Statement signed)]> m)).
Proof.
  intros Hv. unfold Observe. rewrite Hv. apply Trust_Verify_authentic in Hv as [Hv _]. unfold SHA256, Statement_canonicalBytes. by rewrite Hv.
Qed.

Lemma remembers_observe m accepted trust signed r seen : remembers m accepted -> Observe (Some m) signed trust = (r, seen) ->
  exists m', seen = Some m' /\ remembers m' (accepted ++ if is_ok r then [signed] else []).
Proof.
  intros [Hacc Hm] E. destruct (Trust_Verify trust signed) as [e|] eqn:Ev.
  { unfold Observe in E. rewrite Ev in E. injection E as <- <-. exists m. rewrite app_nil_r. done. }
  rewrite Observe_verified in E by done. apply Trust_Verify_authentic in Ev as [Hv _]. set (s := ss_Statement signed) in *.
  destruct (conflicts m s) eqn:Ec; injection E as <- <-; [exists m; rewrite app_nil_r; done|]. cbn [is_ok]. eexists. split; [done|]. unfold conflicts in Ec. split.
  - intros x [Hx| ->%list_elem_of_singleton]%elem_of_app; [|split; [done|apply lookup_insert_eq]]. destruct (Hacc x Hx) as [Vx Ex]. split; [done|].
    destruct (decide (witness_key s = witness_key (ss_Statement x))) as [Ek|Ek]; [|by rewrite lookup_insert_ne].
    rewrite Ek, lookup_insert_eq. rewrite Ek, Ex in Ec. by destruct (str_eqb_spec (statement_digest (ss_Statement x)) (statement_digest s)) as [->|].
  - intros k d [[<- _]|[_ Hk]]%lookup_insert_Some; [exists signed; set_solver|]. destruct (Hm k d Hk) as (x & ? & ?). exists x. set_solver.
Qed.

Lemma remembers_all shown m accepted : remembers m accepted ->
  exists m', observe_all (Some m) shown = ((observe_all (Some m) shown).1, Some m') /\ remembers m' (accepted ++ (observe_all (Some m) shown).1).
Proof.
  revert m accepted. induction shown as [|[trust signed] shown IH]; intros m accepted Hr; cbn [observe_all]; [exists m; rewrite app_nil_r; done|].
  destruct (Observe (Some m) signed trust) as [r seen] eqn:Eo. destruct (remembers_observe _ _ _ _ _ _ Hr Eo) as (m' & -> & Hr').
  destruct (IH m' _ Hr') as (m'' & E & Hr''). destruct (observe_all (Some m') shown) as [acc seen]. cbn in E, Hr''. injection E as ->.
  exists m''. split; [done|]. cbn [fst]. by rewrite app_assoc.
Qed.

End Ledger.
End EvidenceLedger.
