(* ===== verification/EvidenceClaims.v ===== *)
(** * Evidence: inclusion proofs, ledgers and the witness
    (evidencebinding/nonrepudiation.go)

    An inclusion proof is accepted exactly for the leaf at its position, a
    ledger is determined by its head, and a witness refuses a second statement
    for a sequence number and nothing else.  SHA-256 is assumed collision free
    only on the finitely many inputs a statement names. *)

From S2P Require Import Prelude GoStrings Sha256 GoEncoding AuthProof AuthClaims Evidence EvidenceProofs EvidenceLedger.

Module EvidenceClaims.
Import GoStrings Sha256 GoEncoding AuthProof AuthClaims Evidence EvidenceProofs EvidenceLedger.

#[local] Existing Instance latin1_tables.
(** A checksum in place of Ed25519, cheap to evaluate: it satisfies the laws, it
    is not a signature scheme. *)
#[local] Instance checksum_ed25519 : Ed25519 := {|
  ed_public k := drop 32 k;
  ed_sign k m := replicate 63 0 ++ [fold_left Z.add m 0 mod 256];
  ed_verify pk m sig := str_eqb sig (replicate 63 0 ++ [fold_left Z.add m 0 mod 256])
|}.

#[local] Instance checksum_ed25519_laws : Ed25519Laws.
Proof.
  split; cbn.
  - intros k Hk. rewrite len_drop, Hk. done.
  - done.
  - intros k m _. repeat (apply Forall_cons; split; [unfold is_u; lia|]). apply Forall_cons. split; [apply Z.mod_pos_bound; lia|constructor].
  - intros k m _. apply str_eqb_refl.
Qed.

(** ** Evaluating the hypotheses *)

(** ** Inclusion proofs *)

(** Every leaf has an inclusion proof: for a list of valid leaves with
    distinct identifiers, the proof built at any position is accepted against
    the root built for the list. *)
Theorem merkle_proof_complete `{UnicodeTables} (leaves : list Leaf) (root : bytes) (i : nat) (leaf : Leaf) :
  len leaves < 2 ^ 63 - 1 -> BuildMerkleRoot leaves = Ok root -> leaves !! i = Some leaf ->
  exists proof, BuildMerkleProof leaves (Z.of_nat i) = Ok proof /\
    p_Index proof = Z.of_nat i /\ p_LeafCount proof = len leaves /\ VerifyMerkleProof leaf root proof = None.
Proof.
  intros Hmax Hr Hi. apply result_bind_ok in Hr as (levels & El & [= <-]). unfold BuildMerkleProof. pose proof (lookup_lt_Some _ _ _ Hi) as Hlt.
  rewrite (proj2 (Z.ltb_ge _ _)), (proj2 (Z.leb_gt _ _)) by (unfold len; lia). cbn [orb]. rewrite El. cbn [result_bind].
  eexists. split; [done|]. split; [done|]. split; [done|]. apply merkleLevels_ok in El as (Hne & -> & Hval). set (nodes := leaf_digest <$> leaves) in *.
  assert (length leaves = length nodes) as Hlen by (unfold nodes; by rewrite length_fmap). assert (len leaves = len nodes) as Hlen' by (unfold len; lia).
  assert (digest (root_of (climb (length leaves) nodes))) as Hd by (apply climb_root_digest; [intros E; rewrite E in Hlen; by destruct leaves|lia|apply leaf_digests]).
  unfold VerifyMerkleProof. cbn [p_Index p_LeafCount p_Siblings].
  rewrite (proj2 (Z.leb_gt _ _)), (proj2 (Z.ltb_ge _ _)), (proj2 (Z.leb_gt _ _)), isSHA256_hex by (done || unfold len; lia). cbn [orb negb].
  assert (hashLeaf leaf = Ok (leaf_digest leaf)) as ->.
  { unfold hashLeaf, Leaf_canonicalBytes. by rewrite (Forall_lookup_1 _ _ _ _ Hval Hi). }
  rewrite <- (nth_leaf_digest leaves i leaf Hi). fold nodes. rewrite <- (Nat2Z.id i) at 2. rewrite Hlen', ascend_siblings; [|apply leaf_digests|unfold len; lia|lia|lia].
  cbn [Z.eqb negb orb]. by rewrite (proj2 (EqualFold_hex_digest _ _ Hd Hd)).
Qed.

Definition demo_leaf (id : string) : Leaf := mkLeaf (str id) (str "agent") (str "connect") demo_hash 100.
Definition demo_leaves : list Leaf := [demo_leaf "e1"; demo_leaf "e2"; demo_leaf "e3"].
Definition demo_root : bytes := Eval vm_compute in match BuildMerkleRoot demo_leaves with Ok r => r | Err _ => [] end.
Definition demo_pair : list Leaf := [demo_leaf "e1"; demo_leaf "e2"].
Definition demo_pair_root : bytes := Eval vm_compute in match BuildMerkleRoot demo_pair with Ok r => r | Err _ => [] end.
Definition demo_pair_proof : MerkleProof := Eval vm_compute in match BuildMerkleProof demo_pair 1 with Ok p => p | Err _ => mkProof 0 0 [] end.
Definition demo_proof : MerkleProof := Eval vm_compute in match BuildMerkleProof demo_leaves 2 with Ok p => p | Err _ => mkProof 0 0 [] end.

Lemma merkle_proof_complete_witness : exists proof, BuildMerkleProof demo_pair 1 = Ok proof /\
  p_Index proof = 1 /\ p_LeafCount proof = 2 /\ VerifyMerkleProof (demo_leaf "e2") demo_pair_root proof = None.
Proof. apply (merkle_proof_complete demo_pair demo_pair_root 1 (demo_leaf "e2")); [reflexivity|vm_compute; reflexivity|reflexivity]. Defined.


Lemma demo_leaf_text : Forall leaf_text [demo_leaf "e2"; demo_leaf "e1"; demo_leaf "e2"].
Proof. repeat (constructor; [constructor; [repeat (constructor; [apply text_okb_ok; vm_compute; reflexivity|]); constructor|vm_compute; reflexivity]|]). constructor. Qed.


(** The leaf count of a proof is not bound by the root: the last leaf of three
    is accepted as the fourth of four. *)
Lemma leaf_count_unbound : exists proof, p_Index proof = 3 /\ p_LeafCount proof = 4 /\ VerifyMerkleProof (demo_leaf "e3") demo_root proof = None.
Proof.
  exists (mkProof 3 4 [mkStep (match p_Siblings demo_proof with s :: _ => p_SHA256 s | [] => [] end) true; mkStep (match p_Siblings demo_proof with [_; s] => p_SHA256 s | _ => [] end) true]).
  vm_compute. done.
Qed.

(** ** Ledgers *)

(** C23: a ledger is tamper evident: every statement of an accepted ledger carries
    a signature of a trusted key, its position and the digest of the one before
    it, and two accepted ledgers whose heads have the same digest consist of
    the same statements, whatever the policies they were checked under.  It is
    assumed that the strings of the statements are valid UTF-8, since the JSON
    text that is hashed does not tell other strings apart, and that the hash
    has no collision among the texts of these statements. *)
Theorem ledger_tamper_evident `{UnicodeTables} `{Ed25519} (l1 l2 : list SignedStatement) (t1 t2 : TrustPolicy) (st1 st2 : bytes)
    (w1 w2 : option Head) (report1 report2 : VerificationReport) :
  Forall (statement_text ∘ ss_Statement) (l1 ++ l2) ->
  collision_free (fun x => x ∈ (statement_input ∘ ss_Statement) <$> (l1 ++ l2)) ->
  VerifyLedger l1 t1 st1 w1 = Ok report1 -> VerifyLedger l2 t2 st2 w2 = Ok report2 ->
  (forall k x, l1 !! k = Some x ->
     authentic t1 x /\ s_StreamID (ss_Statement x) = h_StreamID (r_Head report1) /\ s_Sequence (ss_Statement x) = u64 (Z.of_nat k + 1) /\
     s_PreviousSHA256 (ss_Statement x) = match k with O => [] | S k => from_option (statement_digest ∘ ss_Statement) [] (l1 !! k) end) /\
  (h_StatementSHA256 (r_Head report1) = h_StatementSHA256 (r_Head report2) -> ss_Statement <$> l1 = ss_Statement <$> l2).
Proof.
  intros Ht HS V1 V2. apply VerifyLedger_ok in V1 as (d1 & s1 & C1 & _ & _ & -> & _), V2 as (d2 & s2 & C2 & _ & _ & -> & _). cbn [h_StreamID h_StatementSHA256].
  split; [intros k x Hk; exact (verify_chain_lookup _ _ _ _ _ _ _ _ C1 Hk)|]. intros ->. apply Forall_app in Ht as [T1 T2].
  assert (forall l, l ⊆ l1 ++ l2 -> Forall (statement_text ∘ ss_Statement) l ->
    Forall (fun x => statement_input (ss_Statement x) ∈ (statement_input ∘ ss_Statement) <$> (l1 ++ l2) /\ statement_text (ss_Statement x)) l) as Hall.
  { intros l Hsub Hl. apply Forall_forall. intros x Hx. split; [|by rewrite Forall_forall in Hl; apply Hl]. apply list_elem_of_fmap. exists x. split; [done|]. by apply Hsub. }
  eapply verify_chain_same; [exact HS| | |exact C1|exact C2]; apply Hall; try done; set_solver.
Qed.

Definition demo_public : bytes := ed_public demo_key.
Definition demo_trust : TrustPolicy := {[KeyID demo_public := demo_public]}.
Definition sign_demo (sequence : Z) (previous : bytes) (id nonce : string) : SignedStatement :=
  match NewStatement (str "agent/local") sequence previous [demo_leaf id] (KeyID demo_public) (str nonce) (100 * second) 0 with
  | Ok s => match SignStatement s demo_key with Ok signed => signed | Err _ => mkSigned s [] [] [] end
  | Err _ => mkSigned (mkStatement [] [] 0 [] [] 0 0 [] []) [] [] []
  end.
Definition demo_first : SignedStatement := Eval vm_compute in sign_demo 1 [] "e1" "n1".
Definition demo_other : SignedStatement := Eval vm_compute in sign_demo 1 [] "e2" "n2".

(** The same statement with its signature written differently. *)
Definition demo_respelled : SignedStatement :=
  mkSigned (ss_Statement demo_first) AlgorithmEd25519 (ss_PublicKey demo_first) (ss_Signature demo_first ++ [10]).

Lemma demo_statement_text l : l ⊆ [demo_first; demo_respelled; demo_other] -> Forall (statement_text ∘ ss_Statement) l.
Proof.
  intros Hl. apply Forall_forall. intros x Hx%Hl. revert x Hx. apply Forall_forall.
  repeat (constructor; [constructor; [repeat (constructor; [apply text_okb_ok; vm_compute; reflexivity|]); constructor|vm_compute; intuition discriminate]|]). constructor.
Qed.

Definition demo_report : VerificationReport := Eval vm_compute in
  match VerifyLedger [demo_first] demo_trust [] None with Ok r => r | Err _ => mkReport [] 0 (mkHead [] 0 []) false false end.

Lemma ledger_tamper_evident_witness : ss_Statement <$> [demo_first] = ss_Statement <$> [demo_respelled].
Proof.
  apply (ledger_tamper_evident [demo_first] [demo_respelled] demo_trust demo_trust [] (str "agent/local") None None demo_report demo_report).
  - apply demo_statement_text. set_solver.
  - apply apart_collision_free. vm_compute. reflexivity.
  - vm_compute. reflexivity.
  - vm_compute. reflexivity.
  - reflexivity.
Defined.

(** ** The witness *)

(** A witness detects every fork and reports nothing else: after any
    observations, a trusted statement is refused as equivocation exactly when
    a different one for the same stream and sequence number was accepted
    before; any other trusted statement is accepted, an accepted one again
    included.  It is assumed that the strings of the statements are valid UTF-8
    and that the hash has no collision among their texts. *)
Theorem witness_exact `{UnicodeTables} `{Ed25519} (shown : list (TrustPolicy * SignedStatement)) (accepted : list SignedStatement)
    (seen : option (gmap bytes bytes)) (trust : TrustPolicy) (signed : SignedStatement) :
  observe_all (Some ∅) shown = (accepted, seen) -> Trust_Verify trust signed = None ->
  Forall (statement_text ∘ ss_Statement) (signed :: accepted) ->
  collision_free (fun x => x ∈ (statement_input ∘ ss_Statement) <$> (signed :: accepted)) ->
  let fork := exists x, x ∈ accepted /\ s_StreamID (ss_Statement x) = s_StreamID (ss_Statement signed) /\
    s_Sequence (ss_Statement x) = s_Sequence (ss_Statement signed) /\ ss_Statement x <> ss_Statement signed in
  ((Observe seen signed trust).1 = Err ErrEquivocation <-> fork) /\ (~ fork -> is_ok (Observe seen signed trust).1 = true).
Proof.
  intros Hall Hv [Ht Hta]%Forall_cons HS fork. assert (remembers ∅ []) as Hr by (split; [set_solver|done]).
  destruct (remembers_all shown ∅ [] Hr) as (m & E & [Hacc Hm]). rewrite Hall in E, Hacc, Hm. injection E as ->. cbn [fst app] in Hacc, Hm.
  rewrite Observe_verified by done. apply Trust_Verify_authentic in Hv as [Hv _]. set (s := ss_Statement signed) in *.
  assert (conflicts m s = true <-> fork) as Hc.
  { unfold conflicts, fork. destruct (m !! witness_key s) as [d|] eqn:Ed.
    - destruct (Hm _ _ Ed) as (x & Hx & Ek). destruct (Hacc x Hx) as [Vx Ex]. rewrite Ek, Ed in Ex. injection Ex as ->.
      rewrite Forall_forall in Hta. pose proof (Hta x Hx) as Tx. destruct (witness_key_inj _ _ (proj1 (st_ints _ Tx)) (proj1 (st_ints _ Ht)) Ek) as [Est Esq].
      destruct (str_eqb_spec (statement_digest (ss_Statement x)) (statement_digest s)) as [Eq|Ne]; cbn [negb].
      + split; [done|]. intros (y & Hy & Sy & Qy & Ny). exfalso. apply Ny. destruct (Hacc y Hy) as [Vy Ey].
        assert (witness_key (ss_Statement y) = witness_key s) as Eky by (unfold witness_key; by rewrite Sy, Qy). rewrite Eky, Ed in Ey. injection Ey as Ey.
        eapply statement_digest_inj; [exact HS| | |done|done|exact (Hta y Hy)|exact Ht|congruence]; apply list_elem_of_fmap; [exists y|exists signed]; set_solver.
      + split; [|done]. intros _. exists x. split_and!; [done..|]. by intros <-.
    - split; [done|]. intros (y & Hy & Sy & Qy & _). destruct (Hacc y Hy) as [_ Ey]. unfold witness_key in Ed, Ey. rewrite Sy, Qy, Ed in Ey. done. }
  destruct (conflicts m s); cbn [fst is_ok]; (split; [split; [|]|]); naive_solver.
Qed.

Lemma witness_exact_witness : (Observe (observe_all (Some ∅) [(demo_trust, demo_first)]).2 demo_other demo_trust).1 = Err ErrEquivocation.
Proof.
  destruct (observe_all (Some ∅) [(demo_trust, demo_first)]) as [accepted seen] eqn:E.
  assert (accepted = [demo_first]) as -> by (apply (f_equal fst) in E; cbn [fst] in E; rewrite <- E; vm_compute; reflexivity).
  apply (witness_exact _ _ _ demo_trust demo_other E).
  - vm_compute. reflexivity.
  - apply demo_statement_text. clear. set_solver.
  - apply apart_collision_free. vm_compute. reflexivity.
  - exists demo_first. split; [clear; set_solver|]. split; [reflexivity|]. split; [reflexivity|]. vm_compute. discriminate.
Defined.

End EvidenceClaims.
