(* ===== verification/EvidenceJournal.v ===== *)
(** * The agent's evidence journal (evidencebinding/agent_journal.go,
    anchor.go, anchor_threshold.go)

    An anchor provider is an interface with a state of its own.  The threshold
    policy asks several providers.  The journal keeps one signed checkpoint per
    event, anchors its head, and appends the record as a line of JSON to a
    file; opening it verifies the whole chain.  What a write leaves in the file,
    the nonces and the decoder of a line are arguments. *)

From S2P Require Import Prelude GoStrings Sha256 GoEncoding AuthProof Evidence.

Module EvidenceJournal.
Import GoStrings Sha256 GoEncoding AuthProof Evidence.

Definition AgentEventVersion := str "weaverssh.agent-evidence-event.v1".
Definition AgentJournalVersion := str "weaverssh.agent-evidence-journal.v1".

(** ** Providers and thresholds *)

(** [AnchorProvider] over a world [W]: anchoring changes it, verifying reads it. *)
Record AnchorProvider (W : Type) := mkProvider {
  ap_Name : bytes;
  ap_Anchor : W -> Head -> result ev_error AnchorReceipt * W;
  ap_Verify : W -> Head -> AnchorReceipt -> option ev_error
}.
Arguments mkProvider {W}.
Arguments ap_Name {W}.
Arguments ap_Anchor {W}.
Arguments ap_Verify {W}.

Record AnchorThresholdPolicy (W : Type) := mkPolicy {
  tp_providers : gmap bytes (AnchorProvider W);
  tp_threshold : Z
}.
Arguments mkPolicy {W}.
Arguments tp_providers {W}.
Arguments tp_threshold {W}.

Inductive failure : Type :=
| failEmpty
| failDuplicate
| failNotConfigured
| failVerify (e : ev_error).

Record AnchorThresholdReport := mkThreshold {
  tr_Required : Z;
  tr_Valid : Z;
  tr_Providers : list bytes;
  tr_Failures : gmap bytes failure
}.

Section Threshold.
Context `{UnicodeTables} {W : Type}.

Fixpoint add_providers (m : gmap bytes (AnchorProvider W)) (providers : list (option (AnchorProvider W))) : result ev_error (gmap bytes (AnchorProvider W)) :=
  match providers with
  | [] => Ok m
  | None :: _ => Err ErrInvalidAnchor
  | Some provider :: rest =>
    let name := TrimSpace (ap_Name provider) in
    if str_eqb name [] then Err ErrInvalidAnchor else
    match m !! name with
    | Some _ => Err ErrInvalidAnchor
    | None => add_providers (<[name := provider]> m) rest
    end
  end.

(** [None] in the list is a nil provider. *)
Definition NewAnchorThresholdPolicy (providers : list (option (AnchorProvider W))) (threshold : Z) : result ev_error (AnchorThresholdPolicy W) :=
  if (threshold <=? 0) || (len providers <? threshold) then Err ErrAnchorThreshold else
  let* m := add_providers ∅ providers in Ok (mkPolicy m threshold).

Definition providerNames (p : AnchorThresholdPolicy W) : list bytes := sort_by str_ltb (map_to_list (tp_providers p)).*1.

Fixpoint anchor_all (p : AnchorThresholdPolicy W) (names : list bytes) (head : Head) (w : W) : list AnchorReceipt * list (bytes * ev_error) * W :=
  match names with
  | [] => ([], [], w)
  | name :: rest =>
    match tp_providers p !! name with
    | None => anchor_all p rest head w
    | Some provider =>
      match ap_Anchor provider w head with
      | (Err e, w) => let '(receipts, failures, w) := anchor_all p rest head w in (receipts, (name, e) :: failures, w)
      | (Ok receipt, w) =>
        match ValidateFor receipt name head with
        | Some e => let '(receipts, failures, w) := anchor_all p rest head w in (receipts, (name, e) :: failures, w)
        | None => let '(receipts, failures, w) := anchor_all p rest head w in (receipt :: receipts, failures, w)
        end
      end
    end
  end.

(** The receipts are returned beside an error as well. *)
Definition Threshold_Anchor (p : AnchorThresholdPolicy W) (head : Head) (w : W) : list AnchorReceipt * option (ev_error * list (bytes * ev_error)) * W :=
  match NewAnchorStatement head with
  | Err e => ([], Some (e, []), w)
  | Ok _ =>
    let '(receipts, failures, w) := anchor_all p (providerNames p) head w in
    if len receipts <? tp_threshold p then (receipts, Some (ErrAnchorThreshold, failures), w) else (receipts, None, w)
  end.

(** The loop of [Verify]; [seen] holds the providers already met. *)
Fixpoint verify_all (p : AnchorThresholdPolicy W) (w : W) (head : Head) (seen : gset bytes) (report : AnchorThresholdReport) (receipts : list AnchorReceipt) : AnchorThresholdReport :=
  match receipts with
  | [] => report
  | receipt :: rest =>
    let name := TrimSpace (rc_Provider receipt) in
    let fail k f := mkThreshold (tr_Required report) (tr_Valid report) (tr_Providers report) (<[k := f]> (tr_Failures report)) in
    if str_eqb name [] then verify_all p w head seen (fail (str "<empty>") failEmpty) rest else
    if bool_decide (name ∈ seen) then verify_all p w head seen (fail name failDuplicate) rest else
    let seen := {[name]} ∪ seen in
    match tp_providers p !! name with
    | None => verify_all p w head seen (fail name failNotConfigured) rest
    | Some provider =>
      match ap_Verify provider w head receipt with
      | Some e => verify_all p w head seen (fail name (failVerify e)) rest
      | None => verify_all p w head seen (mkThreshold (tr_Required report) (tr_Valid report + 1) (tr_Providers report ++ [name]) (tr_Failures report)) rest
      end
    end
  end.

Definition Threshold_Verify (p : AnchorThresholdPolicy W) (w : W) (head : Head) (receipts : list AnchorReceipt) : AnchorThresholdReport * option ev_error :=
  let report := mkThreshold (tp_threshold p) 0 [] ∅ in
  match NewAnchorStatement head with
  | Err e => (report, Some e)
  | Ok _ =>
    let report := verify_all p w head ∅ report receipts in
    let report := mkThreshold (tr_Required report) (tr_Valid report) (sort_by str_ltb (tr_Providers report)) (tr_Failures report) in
    (report, if tr_Valid report <? tp_threshold p then Some ErrAnchorThreshold else None)
  end.

End Threshold.
(** ** Events and records *)

Record AgentEvent := mkEvent {
  e_Version : bytes;
  e_ID : bytes;
  e_Kind : bytes;
  e_Subject : bytes;
  e_ObservedAtUnix : Z;
  e_Details : gmap bytes bytes
}.

Record AgentEvidenceRecord := mkRecord {
  r_Version : bytes;
  r_Event : AgentEvent;
  r_Leaf : Leaf;
  r_Proof : MerkleProof;
  r_Statement : SignedStatement;
  r_HeadOf : Head;
  r_Receipt : AnchorReceipt
}.

Record AgentJournalStatus := mkStatus {
  js_Version : bytes;
  js_StreamID : bytes;
  js_Records : Z;
  js_SignerKeyID : bytes;
  js_Head : option Head;
  js_Receipt : option AnchorReceipt;
  js_LastEventKind : bytes;
  js_LastObservedAt : Z
}.

Record AgentJournalExport := mkExport {
  je_Version : bytes;
  je_Status : AgentJournalStatus;
  je_Records : list AgentEvidenceRecord
}.

(** *** Their JSON texts *)

Definition json_bool (b : bool) : bytes := if b then str "true" else str "false".

Definition marshal_event (e : AgentEvent) : bytes :=
  [123] ++ json_field "version" (json_string (e_Version e)) ++
  [44] ++ json_field "id" (json_string (e_ID e)) ++
  [44] ++ json_field "kind" (json_string (e_Kind e)) ++
  [44] ++ json_field "subject" (json_string (e_Subject e)) ++
  [44] ++ json_field "observed_at_unix" (json_int (e_ObservedAtUnix e)) ++
  (if bool_decide (e_Details e = ∅) then [] else [44] ++ json_field "details" (json_string_map (e_Details e))) ++ [125].

Definition marshal_step (s : ProofStep) : bytes :=
  [123] ++ json_field "sha256" (json_string (p_SHA256 s)) ++ [44] ++ json_field "left" (json_bool (p_Left s)) ++ [125].

(** A proof without siblings has a nil slice. *)
Definition marshal_proof (p : MerkleProof) : bytes :=
  [123] ++ json_field "index" (json_int (p_Index p)) ++
  [44] ++ json_field "leaf_count" (json_int (p_LeafCount p)) ++
  [44] ++ json_field "siblings" (match p_Siblings p with [] => str "null" | l => [91] ++ json_list (marshal_step <$> l) ++ [93] end) ++ [125].

Definition marshal_signed (s : SignedStatement) : bytes :=
  [123] ++ json_field "statement" (marshal_statement (ss_Statement s)) ++
  [44] ++ json_field "algorithm" (json_string (ss_Algorithm s)) ++
  [44] ++ json_field "public_key" (json_string (ss_PublicKey s)) ++
  [44] ++ json_field "signature" (json_string (ss_Signature s)) ++ [125].

Definition marshal_head (h : Head) : bytes :=
  [123] ++ json_field "stream_id" (json_string (h_StreamID h)) ++
  [44] ++ json_field "sequence" (json_int (h_Sequence h)) ++
  [44] ++ json_field "statement_sha256" (json_string (h_StatementSHA256 h)) ++ [125].

Definition marshal_anchor (a : AnchorStatement) : bytes :=
  [123] ++ json_field "version" (json_string (a_Version a)) ++
  [44] ++ json_field "stream_id" (json_string (a_StreamID a)) ++
  [44] ++ json_field "sequence" (json_int (a_Sequence a)) ++
  [44] ++ json_field "statement_sha256" (json_string (a_StatementSHA256 a)) ++ [125].

Definition Anchor_CanonicalBytes `{UnicodeTables} (s : AnchorStatement) : result ev_error bytes :=
  match Anchor_Validate s with Some e => Err e | None => Ok (marshal_anchor s) end.
Definition Anchor_SHA256 `{UnicodeTables} (s : AnchorStatement) : result ev_error bytes :=
  let* canonical := Anchor_CanonicalBytes s in Ok (sha256_hex (str "weaverssh:evidence:anchor:v1" ++ [0] ++ canonical)).
Definition anchorProofSHA256 (raw : bytes) : bytes := sha256_hex raw.
Definition anchorIdempotencyKey `{UnicodeTables} (statement : AnchorStatement) : result ev_error bytes :=
  let* digest := Anchor_SHA256 statement in Ok (str "weaverssh-evidence-" ++ digest).

Definition marshal_receipt (r : AnchorReceipt) : bytes :=
  [123] ++ json_field "version" (json_string (rc_Version r)) ++
  [44] ++ json_field "provider" (json_string (rc_Provider r)) ++
  [44] ++ json_field "statement" (marshal_anchor (rc_Statement r)) ++
  [44] ++ json_field "external_id" (json_string (rc_ExternalID r)) ++
  [44] ++ json_field "proof_sha256" (json_string (rc_ProofSHA256 r)) ++
  [44] ++ json_field "committed" (json_bool (rc_Committed r)) ++
  (if rc_BlockNumber r =? 0 then [] else [44] ++ json_field "block_number" (json_int (rc_BlockNumber r))) ++ [125].

Definition marshal_record (r : AgentEvidenceRecord) : bytes :=
  [123] ++ json_field "version" (json_string (r_Version r)) ++
  [44] ++ json_field "event" (marshal_event (r_Event r)) ++
  [44] ++ json_field "leaf" (marshal_leaf (r_Leaf r)) ++
  [44] ++ json_field "proof" (marshal_proof (r_Proof r)) ++
  [44] ++ json_field "statement" (marshal_signed (r_Statement r)) ++
  [44] ++ json_field "head" (marshal_head (r_HeadOf r)) ++
  [44] ++ json_field "receipt" (marshal_receipt (r_Receipt r)) ++ [125].

Definition Event_Validate (e : AgentEvent) : option ev_error :=
  if negb (str_eqb (e_Version e) AgentEventVersion) || blank (e_ID e) || blank (e_Kind e) || blank (e_Subject e) || (e_ObservedAtUnix e <=? 0) then Some ErrInvalidEvidence else
  if existsb (fun kv => blank kv.1) (map_to_list (e_Details e)) then Some ErrInvalidEvidence else None.

(** [id] is the outcome of [randomNonce(18)]. *)
Definition NewAgentEvent (id : result ev_error bytes) (kind subject : bytes) (details : gmap bytes bytes) (observedAt clock : Z) : result ev_error AgentEvent :=
  let observedAt := if IsZero observedAt then clock else observedAt in
  let* id := id in
  let event := mkEvent AgentEventVersion id (TrimSpace kind) (TrimSpace subject) (Unix observedAt) details in
  match Event_Validate event with Some e => Err e | None => Ok event end.

Definition Event_CanonicalBytes (e : AgentEvent) : result ev_error bytes :=
  match Event_Validate e with Some err => Err err | None => Ok (marshal_event e) end.

(** ** The journal *)

(** The open journal: its ledger file is what is on disk, [j_open] is [false]
    once closed. *)
Record AgentEvidenceJournal := mkJournal {
  j_StreamID : bytes;
  j_privateKey : bytes;
  j_keyID : bytes;
  j_trust : TrustPolicy;
  j_open : bool;
  j_file : bytes;
  j_records : list AgentEvidenceRecord;
  j_ids : gset bytes
}.

(** What becomes of a line handed to [Write] and [Sync]. *)
Inductive write_result : Type :=
| Written
| WriteFailed (kept : nat)
| SyncFailed.

Definition write_text (r : write_result) (line : bytes) : bytes := match r with WriteFailed kept => take kept line | _ => line end.

(** The longest line the scanner of [loadAndVerify] takes. *)
Definition maxLine : Z := 4194304.

(** The text up to the next newline and what follows it. *)
Fixpoint cut_line (s : bytes) : bytes * option bytes :=
  match s with
  | [] => ([], None)
  | c :: r => if c =? 10 then ([], Some r) else let '(line, rest) := cut_line r in (c :: line, rest)
  end.

(** The lines of [bufio.Scanner], and whether it stopped at one that is too
    long; the carriage returns it drops are trimmed by the caller as well. *)
Fixpoint scan_lines (fuel : nat) (s : bytes) : list bytes * bool :=
  match fuel with
  | O => ([], false)
  | S fuel =>
    match s with
    | [] => ([], false)
    | _ :: _ =>
      let '(line, rest) := cut_line s in
      if maxLine <=? len line then ([], true) else
      match rest with
      | None => ([line], false)
      | Some rest => let '(lines, long) := scan_lines fuel rest in (line :: lines, long)
      end
    end
  end.

Section Journal.
Context `{UnicodeTables} `{Ed25519} {W : Type} (provider : AnchorProvider W).
(** [decodeJournalJSON] on a line. *)
Context (decode_record : bytes -> option AgentEvidenceRecord).

Definition verifyRecord (j : AgentEvidenceJournal) (w : W) (record : AgentEvidenceRecord) : option ev_error :=
  if negb (str_eqb (r_Version record) AgentJournalVersion) || negb (str_eqb (e_Version (r_Event record)) AgentEventVersion) then Some ErrInvalidEvidence else
  match Event_CanonicalBytes (r_Event record) with
  | Err e => Some e
  | Ok payload =>
    let leaf := r_Leaf record in
    let statement := ss_Statement (r_Statement record) in
    if negb (bool_decide (Leaf_Validate leaf = None)) || negb (str_eqb (l_ID leaf) (e_ID (r_Event record))) || negb (str_eqb (l_Kind leaf) (e_Kind (r_Event record))) ||
       negb (str_eqb (l_Subject leaf) (e_Subject (r_Event record))) || negb (VerifyPayload leaf payload) then Some ErrInvalidEvidence else
    if negb (str_eqb (s_StreamID statement) (j_StreamID j)) || negb (str_eqb (s_SignerKeyID statement) (j_keyID j)) ||
       negb (s_LeafCount statement =? 1) || str_eqb (s_MerkleRootSHA256 statement) [] then Some ErrInvalidEvidence else
    match VerifyMerkleProof leaf (s_MerkleRootSHA256 statement) (r_Proof record) with
    | Some e => Some e
    | None =>
      match Trust_Verify (j_trust j) (r_Statement record) with
      | Some e => Some e
      | None =>
        match SHA256 statement with
        | Err e => Some e
        | Ok digest =>
          if negb (bool_decide (r_HeadOf record = mkHead (j_StreamID j) (s_Sequence statement) digest)) then Some ErrHeadMismatch else
          ap_Verify provider w (r_HeadOf record) (r_Receipt record)
        end
      end
    end
  end.

Fixpoint verify_each (j : AgentEvidenceJournal) (w : W) (records : list AgentEvidenceRecord) : option ev_error :=
  match records with
  | [] => None
  | r :: rest => match verifyRecord j w r with Some e => Some e | None => verify_each j w rest end
  end.

Definition verifyRecords (j : AgentEvidenceJournal) (w : W) (records : list AgentEvidenceRecord) : result ev_error VerificationReport :=
  match last records with
  | None => Err ErrInvalidEvidence
  | Some final =>
    match verify_each j w records with
    | Some e => Err e
    | None => VerifyLedger (r_Statement <$> records) (j_trust j) (j_StreamID j) (Some (r_HeadOf final))
    end
  end.

(** The record [Append] makes for [event]; [nonce] is the outcome of
    [randomNonce(24)]. The provider is asked before the record is checked. *)
Definition prepare (j : AgentEvidenceJournal) (w : W) (nonce : result ev_error bytes) (event : AgentEvent) : result ev_error AgentEvidenceRecord * W :=
  let built :=
    let* payload := Event_CanonicalBytes event in
    let* leaf := NewLeaf (e_ID event) (e_Subject event) (e_Kind event) payload (e_ObservedAtUnix event * second) 0 in
    let* proof := BuildMerkleProof [leaf] 0 in
    let sequence := u64 (len (j_records j) + 1) in
    let previous := match last (j_records j) with Some r => h_StatementSHA256 (r_HeadOf r) | None => [] end in
    let* nonce := nonce in
    let* statement := NewStatement (j_StreamID j) sequence previous [leaf] (j_keyID j) nonce (e_ObservedAtUnix event * second) 0 in
    let* signed := SignStatement statement (j_privateKey j) in
    let* digest := SHA256 statement in
    Ok (leaf, proof, signed, mkHead (j_StreamID j) sequence digest) in
  match built with
  | Err e => (Err e, w)
  | Ok (leaf, proof, signed, head) =>
    match ap_Anchor provider w head with
    | (Err e, w) => (Err e, w)
    | (Ok receipt, w) =>
      let record := mkRecord AgentJournalVersion event leaf proof signed head receipt in
      match verifyRecord j w record with
      | Some e => (Err e, w)
      | None => (Ok record, w)
      end
    end
  end.

Definition Append (j : AgentEvidenceJournal) (w : W) (nonce : result ev_error bytes) (io : write_result) (event : AgentEvent) : result ev_error AgentEvidenceRecord * AgentEvidenceJournal * W :=
  match Event_Validate event with
  | Some e => (Err e, j, w)
  | None =>
    if negb (j_open j) then (Err ErrInvalidEvidence, j, w) else
    if bool_decide (e_ID event ∈ j_ids j) then (Err ErrDuplicateEvidence, j, w) else
    match prepare j w nonce event with
    | (Err e, w) => (Err e, j, w)
    | (Ok record, w) =>
      let file := j_file j ++ write_text io (marshal_record record ++ [10]) in
      match io with
      | Written =>
        (Ok record, mkJournal (j_StreamID j) (j_privateKey j) (j_keyID j) (j_trust j) (j_open j) file (j_records j ++ [record]) ({[e_ID event]} ∪ j_ids j), w)
      | _ => (Err (ErrIO []), mkJournal (j_StreamID j) (j_privateKey j) (j_keyID j) (j_trust j) (j_open j) file (j_records j) (j_ids j), w)
      end
    end
  end.

Definition Record_ (j : AgentEvidenceJournal) (w : W) (id nonce : result ev_error bytes) (io : write_result) (kind subject : bytes) (details : gmap bytes bytes) (clock : Z) : result ev_error AgentEvidenceRecord * AgentEvidenceJournal * W :=
  match NewAgentEvent id kind subject details clock clock with
  | Err e => (Err e, j, w)
  | Ok event => Append j w nonce io event
  end.

Definition Status (j : AgentEvidenceJournal) : AgentJournalStatus :=
  match last (j_records j) with
  | None => mkStatus AgentJournalVersion (j_StreamID j) (len (j_records j)) (j_keyID j) None None [] 0
  | Some r => mkStatus AgentJournalVersion (j_StreamID j) (len (j_records j)) (j_keyID j) (Some (r_HeadOf r)) (Some (r_Receipt r))
                (e_Kind (r_Event r)) (e_ObservedAtUnix (r_Event r))
  end.

Definition Verify (j : AgentEvidenceJournal) (w : W) : result ev_error VerificationReport := verifyRecords j w (j_records j).

(** The copies that [cloneAgentEvidenceRecord] makes are the records. *)
Definition Export (j : AgentEvidenceJournal) : AgentJournalExport := mkExport AgentJournalVersion (Status j) (j_records j).

Definition Close (j : AgentEvidenceJournal) : AgentEvidenceJournal :=
  mkJournal (j_StreamID j) (j_privateKey j) (j_keyID j) (j_trust j) false (j_file j) (j_records j) (j_ids j).

(** The loop of [loadAndVerify] over the lines. *)
Fixpoint load_lines (j : AgentEvidenceJournal) (w : W) (lines : list bytes) : result ev_error AgentEvidenceJournal :=
  match lines with
  | [] => Ok j
  | line :: rest =>
    let data := TrimSpace line in
    if len data =? 0 then Err ErrInvalidEvidence else
    match decode_record data with
    | None => Err (ErrIO (str "decode"))
    | Some record =>
      if bool_decide (e_ID (r_Event record) ∈ j_ids j) then Err ErrDuplicateEvidence else
      match verifyRecord j w record with
      | Some e => Err e
      | None =>
        load_lines (mkJournal (j_StreamID j) (j_privateKey j) (j_keyID j) (j_trust j) (j_open j) (j_file j) (j_records j ++ [record]) ({[e_ID (r_Event record)]} ∪ j_ids j)) w rest
      end
    end
  end.

Definition loadAndVerify (j : AgentEvidenceJournal) (w : W) : result ev_error AgentEvidenceJournal :=
  let '(lines, long) := scan_lines (S (length (j_file j))) (j_file j) in
  let* j := load_lines j w lines in
  if long then Err (ErrIO (str "bufio.Scanner: token too long")) else
  match j_records j with
  | [] => Ok j
  | _ => let* _ := verifyRecords j w (j_records j) in Ok j
  end.

(** [loadOrCreateJournalKey]: the file's text if there is one, else the text
    written and the generated key. *)
Definition loadOrCreateJournalKey (data : option bytes) (generated : bytes) : result ev_error (bytes * option bytes) :=
  match data with
  | Some text =>
    match b64_decode (TrimSpace text) with
    | Some key => if negb (len key =? PrivateKeySize) then Err ErrInvalidEvidence else Ok (key, None)
    | None => Err ErrInvalidEvidence
    end
  | None => Ok (generated, Some (b64_encode generated ++ [10]))
  end.

(** [OpenAgentEvidenceJournal] after the paths are settled: the stream's
    default name, the key, its policy and the ledger file. *)
Definition OpenAgentEvidenceJournal (streamID privateKey file : bytes) (w : W) : result ev_error AgentEvidenceJournal :=
  if blank (ap_Name provider) then Err ErrInvalidAnchor else
  let streamID := if blank streamID then str "agent/" ++ TrimSpace (ap_Name provider) else streamID in
  let publicKey := ed_public privateKey in
  let keyID := KeyID publicKey in
  let* trust := NewTrustPolicy {[keyID := publicKey]} in
  loadAndVerify (mkJournal streamID privateKey keyID trust true file [] ∅) w.

End Journal.

End EvidenceJournal.
