(* ===== verification/EvidenceJournalProofs.v ===== *)
(** * The journal's file and chain: lemmas *)

From S2P Require Import Prelude GoStrings Sha256 GoEncoding AuthProof Evidence EvidenceProofs EvidenceLedger EvidenceJournal.

Module EvidenceJournalProofs.
Import GoStrings Sha256 GoEncoding AuthProof Evidence EvidenceProofs EvidenceLedger EvidenceJournal.

(** ** Lines *)

Lemma printable_check s : forallb (Z.leb 32) s = true -> printable s.
Proof. intros Hs. apply forallb_Forall_true in Hs. eapply Forall_impl; [exact Hs|]. intros x. cbn. lia. Qed.

Ltac printable_step :=
  first
    [ rewrite printable_app; split
    | apply json_string_printable
    | apply json_int_printable
    | apply Forall_cons; split; [lia|]
    | match goal with |- context [if ?b then _ else _] => destruct b end
    | apply printable_check; reflexivity ].
Ltac printable_text := repeat printable_step.

Lemma json_list_printable l : Forall printable l -> printable (json_list l).
Proof.
  induction 1 as [|x r Hx Hr IH]; [constructor|]. cbn [json_list]. destruct r as [|y r]; [done|]. rewrite !printable_app. split; [done|]. split; [repeat constructor; lia|done].
Qed.

Lemma marshal_event_printable e : printable (marshal_event e).
Proof.
  unfold marshal_event, json_field, json_string_map. printable_text. apply json_list_printable, Forall_fmap, Forall_forall. intros kv _. cbn. printable_text.
Qed.

Lemma marshal_proof_printable p : printable (marshal_proof p).
Proof.
  unfold marshal_proof, json_field. printable_text. destruct (p_Siblings p) as [|x l]; printable_text.
  apply json_list_printable, Forall_fmap, Forall_forall. intros s _. unfold marshal_step, json_field, json_bool. cbn. printable_text.
Qed.

Lemma marshal_record_printable r : printable (marshal_record r).
Proof.
  unfold marshal_record, marshal_leaf, marshal_signed, marshal_statement, marshal_head, marshal_receipt, marshal_anchor, json_field, json_bool.
  repeat match goal with
    | |- printable (marshal_event _) => apply marshal_event_printable
    | |- printable (marshal_proof _) => apply marshal_proof_printable
    | |- _ => printable_step
    end.
Qed.

Lemma marshal_record_braces r : exists t, marshal_record r = 123 :: t ++ [125].
Proof. unfold marshal_record. rewrite !app_assoc. eexists. rewrite <- (app_assoc [123]). reflexivity. Qed.

Lemma marshal_record_trimmed r : TrimSpace (marshal_record r) = marshal_record r /\ marshal_record r <> [].
Proof.
  destruct (marshal_record_braces r) as [t ->]. split; [|done]. apply trimmed_TrimSpace. split.
  - by destruct t as [|b [|c t]].
  - cbn [rev]. rewrite rev_app_distr. cbn [rev app]. destruct (rev t ++ [123]) as [|b [|c u]]; cbn -[space2 space3]; unfold space2, space3; rewrite ?andb_false_r; try done;
      repeat case_match; try done; go_bool; lia.
Qed.

(** ** Scanning *)

Definition ends_line (s : bytes) : Prop := s = [] \/ exists t, s = t ++ [10].

Lemma cut_line_text line rest : printable line -> cut_line (line ++ 10 :: rest) = (line, Some rest).
Proof.
  induction 1 as [|c line Hc _ IH]; [done|]. cbn [app cut_line]. destruct (Z.eqb_spec c 10); [lia|]. by rewrite IH.
Qed.

Lemma cut_line_ends t : exists line rest, cut_line (t ++ [10]) = (line, Some rest) /\ ends_line rest /\ (length rest <= length t)%nat /\
  forall u, cut_line ((t ++ [10]) ++ u) = (line, Some (rest ++ u)).
Proof.
  induction t as [|c t (line & rest & E & He & Hl & Hu)]; cbn [app cut_line].
  - exists [], []. split; [done|]. split; [by left|]. split; [done|]. done.
  - destruct (Z.eqb_spec c 10) as [->|Hc].
    + exists [], (t ++ [10]). split; [done|]. split; [right; by exists t|]. split; [rewrite length_app; cbn; lia|done].
    + exists (c :: line), rest. rewrite E. split; [done|]. split; [done|]. split; [cbn; lia|]. intros u. by rewrite Hu.
Qed.

(** A line appended to a file of whole lines is the next line. *)
Lemma scan_append (fuel fuel' : nat) s line : ends_line s -> printable line -> line <> [] -> len line < maxLine ->
  (length s < fuel)%nat -> (length (s ++ line ++ [10%Z]) < fuel')%nat ->
  scan_lines fuel' (s ++ line ++ [10]) = let '(lines, long) := scan_lines fuel s in if long then (lines, true) else (lines ++ [line], false).
Proof.
  intros Hs Hp Hne Hl. revert fuel' s Hs. induction fuel as [|fuel IH]; intros fuel' s Hs Hf Hf'; [lia|]. destruct fuel' as [|fuel']; [lia|].
  destruct Hs as [->|[t ->]].
  - cbn [app scan_lines]. destruct (line ++ [10]) as [|c u] eqn:Eu; [by destruct line|]. rewrite <- Eu, cut_line_text by done.
    rewrite (proj2 (Z.leb_gt _ _)) by done. destruct fuel'; [rewrite length_app in Hf'; cbn in Hf'; destruct line; [done|cbn in Hf'; lia]|done].
  - destruct (cut_line_ends t) as (l & rest & E & He & Hr & Hu). cbn [scan_lines]. rewrite Hu, E.
    rewrite length_app in Hf. rewrite !length_app in Hf'. cbn [length] in Hf, Hf'.
    destruct ((t ++ [10]) ++ line ++ [10]) as [|c v] eqn:Ev; [by destruct t|]. destruct (t ++ [10]) as [|c' v'] eqn:Ev'; [by destruct t|].
    clear c v Ev c' v' Ev' E Hu. destruct (maxLine <=? len l); [done|].
    rewrite (IH fuel' rest) by (done || rewrite ?length_app; cbn [length]; lia). destruct (scan_lines fuel rest) as [lines long]. by destruct long.
Qed.

(** ** The chain of records *)

Section Journal.
Context `{UnicodeTables} `{Ed25519} {W : Type} (provider : AnchorProvider W).

(** What was verified before stays verified. *)
Definition keeps (w w' : W) : Prop := forall head receipt, ap_Verify provider w head receipt = None -> ap_Verify provider w' head receipt = None.

Lemma keeps_refl w : keeps w w.
Proof. by intros h r. Qed.
Lemma keeps_trans a b c : keeps a b -> keeps b c -> keeps a c.
Proof. intros H1 H2 h r Hv. auto. Qed.

(** Two journals of the same stream and key. *)
Definition same_journal (j j' : AgentEvidenceJournal) : Prop :=
  j_StreamID j = j_StreamID j' /\ j_privateKey j = j_privateKey j' /\ j_keyID j = j_keyID j' /\ j_trust j = j_trust j' /\ j_open j = j_open j'.

Lemma verifyRecord_same j j' w r : same_journal j j' -> verifyRecord provider j w r = verifyRecord provider j' w r.
Proof. intros (E1 & _ & E3 & E4 & _). unfold verifyRecord. by rewrite E1, E3, E4. Qed.

(** What an accepted record says. *)
Lemma verifyRecord_ok j w r : verifyRecord provider j w r = None ->
  s_StreamID (ss_Statement (r_Statement r)) = j_StreamID j /\ Trust_Verify (j_trust j) (r_Statement r) = None /\
  r_HeadOf r = mkHead (j_StreamID j) (s_Sequence (ss_Statement (r_Statement r))) (statement_digest (ss_Statement (r_Statement r))) /\
  ap_Verify provider w (r_HeadOf r) (r_Receipt r) = None.
Proof.
  unfold verifyRecord. destruct (_ || _); [done|]. destruct (Event_CanonicalBytes _); [|done]. destruct (_ || _); [done|].
  destruct (str_eqb_spec (s_StreamID (ss_Statement (r_Statement r))) (j_StreamID j)) as [Es|]; [|done]. destruct (_ || _); [done|].
  destruct (VerifyMerkleProof _ _ _); [done|]. destruct (Trust_Verify _ _) eqn:Et; [done|].
  destruct (SHA256 _) as [d|] eqn:Ed; [|done]. apply SHA256_ok in Ed as [_ ->]. destruct (bool_decide_reflect (r_HeadOf r = mkHead (j_StreamID j) (s_Sequence (ss_Statement (r_Statement r))) (statement_digest (ss_Statement (r_Statement r))))) as [Eh|]; [|done]. done.
Qed.

Lemma verifyRecord_keeps j w w' r : keeps w w' -> verifyRecord provider j w r = None -> verifyRecord provider j w' r = None.
Proof.
  intros Hk Hv. destruct (verifyRecord_ok _ _ _ Hv) as (_ & _ & _ & Ha). apply Hk in Ha. revert Hv. unfold verifyRecord.
  repeat (match goal with |- context [if ?b then _ else _] => destruct b | |- context [match ?x with _ => _ end] => destruct x end; try done).
Qed.

Lemma verify_each_all j w l : verify_each provider j w l = None <-> Forall (fun r => verifyRecord provider j w r = None) l.
Proof.
  induction l as [|r l IH]; cbn [verify_each]; [done|]. rewrite Forall_cons. destruct (verifyRecord provider j w r); [split; [done|naive_solver]|]. naive_solver.
Qed.

(** The records' statements form a ledger that ends in the last head. *)
Definition chained (j : AgentEvidenceJournal) : Prop :=
  match last (j_records j) with
  | None => True
  | Some final => exists report, VerifyLedger (r_Statement <$> j_records j) (j_trust j) (j_StreamID j) (Some (r_HeadOf final)) = Ok report
  end.

Definition verified (j : AgentEvidenceJournal) (w : W) : Prop := Forall (fun r => verifyRecord provider j w r = None) (j_records j) /\ chained j.

Lemma verified_keeps j w w' : keeps w w' -> verified j w -> verified j w'.
Proof. intros Hk [Ha Hc]. split; [|done]. eapply Forall_impl; [exact Ha|]. intros r. by apply verifyRecord_keeps. Qed.

Lemma verified_Verify j w : verified j w -> j_records j <> [] -> exists report, Verify provider j w = Ok report /\ Some (r_Head report) = r_HeadOf <$> last (j_records j).
Proof.
  intros [Ha Hc] Hne. unfold Verify, verifyRecords, chained in *. destruct (last (j_records j)) as [final|] eqn:El; [|by apply last_None in El].
  rewrite (proj2 (verify_each_all _ _ _) Ha). destruct Hc as [report Er]. exists report. split; [done|].
  apply VerifyLedger_ok in Er as (d & st & _ & _ & _ & _ & _ & _ & Hw). cbn. by rewrite (Hw _ eq_refl).
Qed.

(** The digest the next statement must name, at the end of the chain. *)
Definition tip (j : AgentEvidenceJournal) : bytes := match last (j_records j) with Some r => h_StatementSHA256 (r_HeadOf r) | None => [] end.

Lemma verified_chain j w : verified j w -> verify_chain (j_trust j) (j_StreamID j) 0 [] (r_Statement <$> j_records j) = Ok (tip j).
Proof.
  intros [Ha Hc]. unfold chained, tip in *. destruct (last (j_records j)) as [final|] eqn:El.
  - destruct Hc as [report Er]. apply VerifyLedger_ok in Er as (d & st & Ec & Hne & _ & Eh & _ & _ & Hw). rewrite (Hw _ eq_refl), Eh. cbn.
    destruct (j_records j) as [|r l]; [done|]. pose proof Ec as Ec'. rewrite fmap_cons in Ec'. apply verify_chain_cons in Ec' as [(Es & _) _].
    apply Forall_cons in Ha as [Hr _]. apply verifyRecord_ok in Hr as (Es' & _). by replace (j_StreamID j) with st by congruence.
  - apply last_None in El. by rewrite El.
Qed.

(** ** Appending *)

Lemma tip_plain j w : verified j w -> ToLower (TrimSpace (tip j)) = tip j.
Proof.
  intros Hv. pose proof (verified_chain j w Hv) as Hc. destruct (j_records j) as [|r l _] using rev_ind.
  - cbn in Hc. injection Hc as <-. reflexivity.
  - rewrite fmap_app in Hc. apply verify_chain_snoc in Hc as (? & _ & _ & ->). unfold statement_digest, sha256_hex.
    assert (Forall (fun b => 33 <= b < 128) (hex_encode (Sum256 (statement_input (ss_Statement (r_Statement r)))))) as Hp.
    { apply hex_encode_plain, Sum256_ok. }
    rewrite trimmed_TrimSpace by (by apply trimmed_plain). rewrite ToLower_ascii by (apply hex_encode_ascii, Sum256_ok). apply hex_encode_lower.
Qed.

Lemma NewStatement_ok stream sequence previous leaves key nonce at_ clock s : NewStatement stream sequence previous leaves key nonce at_ clock = Ok s ->
  s_StreamID s = TrimSpace stream /\ s_Sequence s = sequence /\ s_PreviousSHA256 s = ToLower (TrimSpace previous).
Proof. unfold NewStatement. intros E. apply result_bind_ok in E as (root & _ & E). destruct (Statement_Validate _); [done|]. by injection E as <-. Qed.

Lemma SignStatement_ok s key signed : SignStatement s key = Ok signed -> ss_Statement signed = s.
Proof. unfold SignStatement. destruct (negb _); [done|]. destruct (negb _); [done|]. intros E. apply result_bind_ok in E as (c & _ & E). by injection E as <-. Qed.

Lemma prepare_ok j w nonce event r w' : prepare provider j w nonce event = (Ok r, w') ->
  r_Event r = event /\ verifyRecord provider j w' r = None /\ w' = (ap_Anchor provider w (r_HeadOf r)).2 /\
  let s := ss_Statement (r_Statement r) in
  s_StreamID s = TrimSpace (j_StreamID j) /\ s_Sequence s = u64 (len (j_records j) + 1) /\ s_PreviousSHA256 s = ToLower (TrimSpace (tip j)).
Proof.
  unfold prepare. cbv zeta. match goal with |- context [result_bind ?x ?k] => destruct (result_bind x k) as [[[[leaf proof] signed] head]|e] eqn:E end; [|done].
  intros Hp. repeat match goal with E : result_bind _ _ = Ok _ |- _ => let a := fresh "a" in let Ea := fresh "Ea" in apply result_bind_ok in E as (a & Ea & E) end.
  injection E as -> -> -> <-. destruct (ap_Anchor provider w _) as [[receipt|e] w1] eqn:Ew; [|done].
  match type of Hp with context [verifyRecord ?a ?b ?c ?d] => destruct (verifyRecord a b c d) eqn:Ev end; [done|]. injection Hp as <- <-. cbn [r_Event r_Statement r_HeadOf].
  split; [done|]. split; [done|]. split; [by rewrite Ew|].
  match goal with E : SignStatement _ _ = Ok _ |- _ => apply SignStatement_ok in E as -> end.
  match goal with E : NewStatement _ _ _ _ _ _ _ _ = Ok _ |- _ => by apply NewStatement_ok in E end.
Qed.

(** The journal after a record. *)
Definition extend (j : AgentEvidenceJournal) (file : bytes) (r : AgentEvidenceRecord) : AgentEvidenceJournal :=
  mkJournal (j_StreamID j) (j_privateKey j) (j_keyID j) (j_trust j) (j_open j) file (j_records j ++ [r]) ({[e_ID (r_Event r)]} ∪ j_ids j).

Context (anchoring_keeps : forall w head, keeps w (ap_Anchor provider w head).2).

Lemma prepare_keeps j w nonce event r w' : prepare provider j w nonce event = (r, w') -> keeps w w'.
Proof.
  unfold prepare. cbv zeta. match goal with |- context [result_bind ?x ?k] => destruct (result_bind x k) as [[[[leaf proof] signed] head]|e] end;
    [|intros [= _ <-]; apply keeps_refl].
  pose proof (anchoring_keeps w head) as Hk. destruct (ap_Anchor provider w head) as [[receipt|e] w1]; [|by intros [= _ <-]].
  destruct (verifyRecord _ _ _ _); by intros [= _ <-].
Qed.

Lemma verified_extend j w nonce event r w' file : verified j w -> prepare provider j w nonce event = (Ok r, w') -> verified (extend j file r) w'.
Proof.
  intros Hv Hp. pose proof (prepare_keeps _ _ _ _ _ _ Hp) as Hk. pose proof (verified_chain _ _ Hv) as Hc. pose proof (tip_plain _ _ Hv) as Htip.
  apply prepare_ok in Hp as (He & Hr & _ & Es & Eq & Ep). destruct (verifyRecord_ok _ _ _ Hr) as (Es' & Et & Eh & _).
  apply (verified_keeps _ _ _ Hk) in Hv as [Ha _]. split.
  - cbn [extend j_records]. apply Forall_app. split; [eapply Forall_impl; [exact Ha|]|apply Forall_singleton]; [intros x Hx|]; by rewrite (verifyRecord_same _ j).
  - unfold chained. cbn [extend j_records j_trust j_StreamID]. rewrite last_snoc, fmap_app. cbn [fmap list_fmap].
    assert (verify_chain (j_trust j) (j_StreamID j) 0 [] ((r_Statement <$> j_records j) ++ [r_Statement r]) = Ok (statement_digest (ss_Statement (r_Statement r)))) as Hc'.
    { apply verify_chain_snoc. exists (tip j). split; [done|]. split; [|done]. split_and!; [done| |by rewrite Ep|done].
      rewrite Eq. unfold len. by rewrite length_fmap, Z.add_0_l. }
    unfold VerifyLedger. destruct ((r_Statement <$> j_records j) ++ [r_Statement r]) as [|x l] eqn:El; [by destruct (j_records j)|].
    assert ((if str_eqb (TrimSpace (j_StreamID j)) [] then s_StreamID (ss_Statement x) else TrimSpace (j_StreamID j)) = j_StreamID j) as ->.
    { destruct (str_eqb_spec (TrimSpace (j_StreamID j)) []); [|congruence]. by apply verify_chain_cons in Hc' as [(? & _) _]. }
    rewrite Hc'. cbn [result_bind]. rewrite bool_decide_true; [eauto|]. rewrite Eh, Eq, <- El. f_equal. unfold len. rewrite length_app, length_fmap. cbn [length]. f_equal. lia.
Qed.

(** ** Loading *)

Context (decode_record : bytes -> option AgentEvidenceRecord).

Definition with_file (f : bytes) (j : AgentEvidenceJournal) : AgentEvidenceJournal :=
  mkJournal (j_StreamID j) (j_privateKey j) (j_keyID j) (j_trust j) (j_open j) f (j_records j) (j_ids j).
Definition fresh (j : AgentEvidenceJournal) : AgentEvidenceJournal :=
  mkJournal (j_StreamID j) (j_privateKey j) (j_keyID j) (j_trust j) (j_open j) (j_file j) [] ∅.

Lemma load_lines_cons j w line rest j' : load_lines provider decode_record j w (line :: rest) = Ok j' <->
  exists r, TrimSpace line <> [] /\ decode_record (TrimSpace line) = Some r /\ (e_ID (r_Event r) ∉ j_ids j) /\ verifyRecord provider j w r = None /\
    load_lines provider decode_record (extend j (j_file j) r) w rest = Ok j'.
Proof.
  cbn [load_lines]. destruct (Z.eqb_spec (len (TrimSpace line)) 0) as [E|E].
  { split; [done|]. intros (r & Hne & _). destruct (TrimSpace line); [done|]. unfold len in E. cbn in E. lia. }
  assert (TrimSpace line <> []) by (intros E'; by rewrite E' in E). destruct (decode_record (TrimSpace line)) as [r|]; [|split; [done|naive_solver]].
  destruct (bool_decide_reflect (e_ID (r_Event r) ∈ j_ids j)); [split; [done|naive_solver]|]. destruct (verifyRecord provider j w r) eqn:Ev; [split; [done|naive_solver]|].
  unfold extend. naive_solver.
Qed.

Lemma load_lines_app j w a b j' : load_lines provider decode_record j w (a ++ b) = Ok j' <->
  exists j1, load_lines provider decode_record j w a = Ok j1 /\ load_lines provider decode_record j1 w b = Ok j'.
Proof.
  revert j. induction a as [|x a IH]; intros j; [cbn; naive_solver|]. cbn [app]. rewrite load_lines_cons. setoid_rewrite load_lines_cons. setoid_rewrite IH. naive_solver.
Qed.

Lemma load_lines_keeps j w w' f lines j' : keeps w w' -> load_lines provider decode_record j w lines = Ok j' ->
  load_lines provider decode_record (with_file f j) w' lines = Ok (with_file f j').
Proof.
  intros Hk. revert j. induction lines as [|x lines IH]; intros j; [cbn; by intros [= <-]|]. rewrite !load_lines_cons. intros (r & ? & ? & ? & Hv & Hr).
  exists r. split_and!; [done..| |exact (IH _ Hr)]. rewrite (verifyRecord_same _ j) by done. by eapply verifyRecord_keeps.
Qed.

Lemma load_lines_facts j w lines j' : load_lines provider decode_record j w lines = Ok j' -> same_journal j j' /\ j_file j' = j_file j /\
  (Forall (fun r => verifyRecord provider j w r = None) (j_records j) -> Forall (fun r => verifyRecord provider j' w r = None) (j_records j')).
Proof.
  revert j. induction lines as [|x lines IH]; intros j; [cbn; by intros [= <-]|]. rewrite load_lines_cons. intros (r & _ & _ & _ & Hv & Hr).
  apply IH in Hr as (Hs & Hf & Hall). split; [done|]. split; [done|]. intros Ha. apply Hall. cbn [extend j_records]. apply Forall_app.
  split; [eapply Forall_impl; [exact Ha|]|apply Forall_singleton]; [intros y Hy|]; by rewrite (verifyRecord_same _ j).
Qed.

(** The file's lines load to the journal. *)
Definition reloads (j : AgentEvidenceJournal) (w : W) : Prop :=
  ends_line (j_file j) /\ exists lines, scan_lines (S (length (j_file j))) (j_file j) = (lines, false) /\
    load_lines provider decode_record (fresh j) w lines = Ok j.

Lemma loadAndVerify_loaded j0 w j : j0 = fresh j0 -> ends_line (j_file j0) -> loadAndVerify provider decode_record j0 w = Ok j -> reloads j w /\ verified j w.
Proof.
  intros Ef He. unfold loadAndVerify. destruct (scan_lines _ _) as [lines long] eqn:Es. intros E. apply result_bind_ok in E as (j1 & El & E). destruct long; [done|].
  assert (j1 = j) as -> by (destruct (j_records j1); [congruence|]; apply result_bind_ok in E as (rep & _ & E); congruence).
  destruct (load_lines_facts _ _ _ _ El) as (Hs & Hf & Hall). assert (fresh j = j0) as Efj.
  { rewrite Ef. unfold fresh. destruct Hs as (-> & -> & -> & -> & ->). by rewrite Hf. }
  split.
  - split; [by rewrite Hf|]. exists lines. rewrite Hf, Efj. done.
  - split; [apply Hall; rewrite Ef; constructor|]. unfold chained. destruct (j_records j) as [|r l] eqn:Er; [done|]. apply result_bind_ok in E as (report & Ev & _).
    unfold verifyRecords in Ev. destruct (last (r :: l)); [|done]. destruct (verify_each _ _ _ _); [done|]. by exists report.
Qed.

Lemma loadAndVerify_reloads j w : reloads j w -> verified j w -> loadAndVerify provider decode_record (fresh j) w = Ok j.
Proof.
  intros (_ & lines & Es & El) [Ha Hc]. unfold loadAndVerify. cbn [fresh j_file]. rewrite Es, El. cbn [result_bind].
  destruct (j_records j) as [|r l] eqn:Er; [done|]. unfold chained in Hc. rewrite Er in Hc. unfold verifyRecords.
  destruct (last (r :: l)) as [final|] eqn:Ell; [|by apply last_None in Ell]. rewrite (proj2 (verify_each_all _ _ _) Ha). by destruct Hc as [report ->].
Qed.

Lemma reloads_keeps j w w' : keeps w w' -> reloads j w -> reloads j w'.
Proof. intros Hk (He & lines & Es & El). split; [done|]. exists lines. split; [done|]. apply (load_lines_keeps _ _ _ (j_file j) _ _ Hk) in El. by destruct j. Qed.

Lemma reloads_extend j w r : reloads j w -> verifyRecord provider j w r = None -> e_ID (r_Event r) ∉ j_ids j ->
  decode_record (marshal_record r) = Some r -> len (marshal_record r) < maxLine -> reloads (extend j (j_file j ++ marshal_record r ++ [10]) r) w.
Proof.
  intros (He & lines & Es & El) Hv Hid Hd Hl. destruct (marshal_record_trimmed r) as [Ht Hne]. split.
  { right. exists (j_file j ++ marshal_record r). cbn [extend j_file]. by rewrite app_assoc. }
  exists (lines ++ [marshal_record r]). split.
  - cbn [extend j_file]. rewrite (scan_append (S (length (j_file j))) _ _ _ He (marshal_record_printable r) Hne Hl) by lia. by rewrite Es.
  - apply load_lines_app. exists (with_file (j_file j ++ marshal_record r ++ [10]) j). split; [exact (load_lines_keeps _ _ _ _ _ _ (keeps_refl w) El)|].
    apply load_lines_cons. exists r. rewrite Ht. split_and!; [done..| |done]. by rewrite (verifyRecord_same _ j).
Qed.

End Journal.

End EvidenceJournalProofs.
