(* ===== verification/EvidenceJournalClaims.v ===== *)
(** * The journal survives reopening; thresholds count distinct providers
    (evidencebinding/agent_journal.go, anchor_threshold.go) *)

From S2P Require Import Prelude GoStrings Sha256 GoEncoding AuthProof AuthClaims Evidence EvidenceProofs EvidenceLedger EvidenceClaims EvidenceJournal EvidenceJournalProofs.

Module EvidenceJournalClaims.
Import GoStrings Sha256 GoEncoding AuthProof AuthClaims Evidence EvidenceProofs EvidenceLedger EvidenceClaims EvidenceJournal EvidenceJournalProofs.

#[local] Existing Instance latin1_tables.
#[local] Existing Instance checksum_ed25519.

Section Runs.
Context `{UnicodeTables} `{Ed25519} {W : Type} (provider : AnchorProvider W) (decode_record : bytes -> option AgentEvidenceRecord).

(** A sequence of events with their nonces, the writes all going through. *)
Fixpoint appends (j : AgentEvidenceJournal) (w : W) (ops : list (result ev_error bytes * AgentEvent)) : list (result ev_error AgentEvidenceRecord) * AgentEvidenceJournal * W :=
  match ops with
  | [] => ([], j, w)
  | (nonce, event) :: rest =>
    let '(out, j, w) := Append provider j w nonce Written event in
    let '(outs, j, w) := appends j w rest in (out :: outs, j, w)
  end.

Lemma Append_cases j w nonce event out j' w' : Append provider j w nonce Written event = (out, j', w') ->
  (exists e, out = Err e /\ j' = j /\ (w' = w \/ exists r, prepare provider j w nonce event = (r, w'))) \/
  (exists r, out = Ok r /\ prepare provider j w nonce event = (Ok r, w') /\ (e_ID (r_Event r) ∉ j_ids j) /\ r_Event r = event /\
     j' = extend j (j_file j ++ marshal_record r ++ [10]) r).
Proof.
  unfold Append. destruct (Event_Validate event) as [e|]; [intros [= <- <- <-]; left; eauto|]. destruct (negb (j_open j)); [intros [= <- <- <-]; left; eauto|].
  destruct (bool_decide_reflect (e_ID event ∈ j_ids j)) as [|Hid]; [intros [= <- <- <-]; left; eauto|].
  destruct (prepare provider j w nonce event) as [[r|e] w1] eqn:Ep; [|intros [= <- <- <-]; left; eauto 6]. unfold write_text. intros E. assert (out = Ok r /\ w' = w1 /\ j' = mkJournal (j_StreamID j) (j_privateKey j) (j_keyID j) (j_trust j) (j_open j) (j_file j ++ marshal_record r ++ [10]) (j_records j ++ [r]) ({[e_ID event]} ∪ j_ids j)) as (-> & -> & ->) by (split_and!; congruence). right. exists r.
  destruct (prepare_ok _ _ _ _ _ _ _ Ep) as (He & _). unfold extend. rewrite He. by split_and!.
Qed.

Lemma appends_reload j w ops outs j' w' : (forall w head, keeps provider w (ap_Anchor provider w head).2) ->
  reloads provider decode_record j w -> verified provider j w -> appends j w ops = (outs, j', w') ->
  (forall r, Ok r ∈ outs -> decode_record (marshal_record r) = Some r /\ len (marshal_record r) < maxLine) ->
  reloads provider decode_record j' w' /\ verified provider j' w' /\ same_journal j j' /\
  exists new, j_records j' = j_records j ++ new /\ (forall r, r ∈ new <-> Ok r ∈ outs).
Proof.
  intros Hk. revert j w outs. induction ops as [|[nonce event] ops IH]; intros j w outs Hr Hv E Hd; cbn [appends] in E.
  { injection E as <- <- <-. split_and!; try done. exists []. rewrite app_nil_r. split; [done|]. set_solver. }
  destruct (Append provider j w nonce Written event) as [[out j1] w1] eqn:Ea. destruct (appends j1 w1 ops) as [[outs1 j2] w2] eqn:Eo. injection E as <- <- <-.
  assert (reloads provider decode_record j1 w1 /\ verified provider j1 w1 /\ same_journal j j1 /\ j_records j1 = j_records j ++ match out with Ok r => [r] | Err _ => [] end) as (Hr1 & Hv1 & Hs1 & E1).
  { destruct (Append_cases _ _ _ _ _ _ _ Ea) as [(e & -> & -> & Hw)|(r & -> & Hp & Hid & _ & ->)].
    - assert (keeps provider w w1) as Hkw by (destruct Hw as [->|[r Hp]]; [apply keeps_refl|by eapply prepare_keeps]).
      rewrite app_nil_r. split_and!; [by eapply reloads_keeps|by eapply verified_keeps|done..].
    - destruct (Hd r ltac:(by left)) as [Hdec Hlen]. pose proof (prepare_keeps _ Hk _ _ _ _ _ _ Hp) as Hkw. destruct (prepare_ok _ _ _ _ _ _ _ Hp) as (_ & Hvr & _).
      split_and!; [|by eapply verified_extend|done..]. apply reloads_extend; try done. by eapply reloads_keeps. }
  destruct (IH _ _ _ Hr1 Hv1 Eo) as (? & ? & Hs & new & En & Hn); [intros r Hin; apply Hd; by right|].
  split_and!; [done..| |].
  { destruct Hs1 as (? & ? & ? & ? & ?), Hs as (? & ? & ? & ? & ?). repeat split; congruence. }
  exists (match out with Ok r => [r] | Err _ => [] end ++ new). split; [by rewrite En, E1, app_assoc|]. intros r. rewrite elem_of_app, Hn, elem_of_cons. destruct out; set_solver.
Qed.

End Runs.

(** The journal is durable: open it, append any events in any order, some
    refused and some accepted, and open the file it leaves: the same records
    come back, every one accepted together with the chain, no accepted event is
    missing and none is added, and the reported head is that of the last record.
    It is assumed that a provider goes on accepting the receipts it accepted,
    that the writes go through, and that each record's line decodes to it and is
    shorter than the reader's limit. *)
Theorem journal_reopens `{UnicodeTables} `{Ed25519} {W : Type} (provider : AnchorProvider W) (decode_record : bytes -> option AgentEvidenceRecord)
    (stream key file : bytes) (w w' : W) (j0 j : AgentEvidenceJournal) (ops : list (result ev_error bytes * AgentEvent)) (outs : list (result ev_error AgentEvidenceRecord)) :
  (forall w head, keeps provider w (ap_Anchor provider w head).2) -> ends_line file ->
  OpenAgentEvidenceJournal provider decode_record stream key file w = Ok j0 ->
  appends provider j0 w ops = (outs, j, w') ->
  (forall r, Ok r ∈ outs -> decode_record (marshal_record r) = Some r /\ len (marshal_record r) < maxLine) ->
  OpenAgentEvidenceJournal provider decode_record stream key (j_file j) w' = Ok j /\
  (exists new, j_records j = j_records j0 ++ new /\ (forall r, r ∈ new <-> Ok r ∈ outs)) /\
  (j_records j <> [] -> exists report, Verify provider j w' = Ok report /\ Some (r_Head report) = r_HeadOf <$> last (j_records j)).
Proof.
  intros Hk He. unfold OpenAgentEvidenceJournal. destruct (blank (ap_Name provider)); [done|]. cbv zeta. intros E Ea Hd. apply result_bind_ok in E as (trust & -> & E). cbn [result_bind].
  set (base f := mkJournal (if blank stream then str "agent/" ++ TrimSpace (ap_Name provider) else stream) key (KeyID (ed_public key)) trust true f [] ∅).
  change (loadAndVerify provider decode_record (base file) w = Ok j0) in E. fold (base (j_file j)).
  destruct (loadAndVerify_loaded _ _ (base file) w j0 eq_refl He E) as [Hr Hv].
  assert (same_journal (base file) j0) as Hs0.
  { unfold loadAndVerify in E. destruct (scan_lines _ _) as [lines long]. apply result_bind_ok in E as (j1 & El & E). apply load_lines_facts in El as (Hs & _).
    destruct long; [done|]. destruct (j_records j1); [by injection E as ->|]. apply result_bind_ok in E as (? & _ & E). by injection E as ->. }
  destruct (appends_reload _ _ _ _ _ _ _ _ Hk Hr Hv Ea Hd) as (Hr' & Hv' & Hs & Hn). split; [|split; [done|by apply verified_Verify]].
  replace (base (j_file j)) with (fresh j); [by apply loadAndVerify_reloads|]. unfold fresh. destruct Hs0 as (E1 & E2 & E3 & E4 & E5), Hs as (F1 & F2 & F3 & F4 & F5).
  rewrite <- F1, <- F2, <- F3, <- F4, <- F5, <- E1, <- E2, <- E3, <- E4, <- E5. done.
Qed.

(** A provider that remembers the heads it anchored. *)
Definition demo_provider : AnchorProvider (list Head) := mkProvider (str "local")
  (fun w head => match NewAnchorStatement head with
                 | Err e => (Err e, w)
                 | Ok a => (Ok (mkReceipt AnchorVersion (str "local") a (str "tx") demo_hash true 0), head :: w)
                 end)
  (fun w head receipt => if bool_decide (head ∈ w) then ValidateFor receipt (str "local") head else Some ErrAnchorMismatch).

Lemma demo_provider_keeps w head : keeps demo_provider w (ap_Anchor demo_provider w head).2.
Proof.
  intros h r. cbn [demo_provider ap_Anchor ap_Verify]. destruct (bool_decide_reflect (h ∈ w)); [|done]. intros Hv. rewrite bool_decide_true; [done|].
  destruct (NewAnchorStatement head); cbn; [by right|done].
Qed.

Definition demo_event (id : string) : AgentEvent := mkEvent AgentEventVersion (str id) (str "connect") (str "agent") 100 {[str "peer" := str "10.0.0.1"]}.
Definition demo_ops : list (result ev_error bytes * AgentEvent) := [(Ok (str "n1"), demo_event "e1"); (Ok (str "n2"), demo_event "e1")].
Definition demo_base : AgentEvidenceJournal := mkJournal (str "agent/local") demo_key (KeyID demo_public) demo_trust true [] [] ∅.
Definition demo_outs : list (result ev_error AgentEvidenceRecord) := Eval vm_compute in (appends demo_provider demo_base [] demo_ops).1.1.

Definition demo_decode (s : bytes) : option AgentEvidenceRecord :=
  match demo_outs with
  | [Ok r; _] => if str_eqb s (marshal_record r) then Some r else None
  | _ => None
  end.

Lemma journal_reopens_witness : let '(_, j, w) := appends demo_provider demo_base [] demo_ops in
  length (j_records j) = 1%nat /\ OpenAgentEvidenceJournal demo_provider demo_decode [] demo_key (j_file j) w = Ok j.
Proof.
  destruct (appends demo_provider demo_base [] demo_ops) as [[outs j] w] eqn:E.
  assert ((outs, length (j_records j)) = (demo_outs, 1%nat)) as Ho
    by (change ((fun x => (x.1.1, length (j_records x.1.2))) (outs, j, w) = (demo_outs, 1%nat)); rewrite <- E; vm_compute; reflexivity).
  injection Ho as Ho Hl. split; [exact Hl|].
  apply (journal_reopens demo_provider demo_decode [] demo_key [] [] w demo_base j demo_ops outs); [exact demo_provider_keeps|by left|vm_compute; reflexivity|exact E|].
  rewrite Ho. clear. intros r Hr. unfold demo_outs in Hr. rewrite !elem_of_cons, elem_of_nil in Hr.
  destruct Hr as [Hr|[Hr|[]]]; try discriminate Hr; injection Hr as ->; (split; vm_compute; reflexivity).
Defined.

(** A failed write breaks the journal: the rest of the torn line is completed by
    the next record, and when that is no record, opening fails. *)
Lemma torn_line_blocks `{UnicodeTables} `{Ed25519} {W : Type} (provider : AnchorProvider W) decode_record (stream key torn : bytes) (r : AgentEvidenceRecord) (w : W) :
  printable torn -> len (torn ++ marshal_record r) < maxLine -> decode_record (TrimSpace (torn ++ marshal_record r)) = None -> is_ok (OpenAgentEvidenceJournal provider decode_record stream key (torn ++ marshal_record r ++ [10]) w) = false.
Proof.
  intros Hp Hl Hd. unfold OpenAgentEvidenceJournal. destruct (blank _); [done|]. cbv zeta. destruct (NewTrustPolicy _) as [trust|]; [|done]. cbn [result_bind].
  unfold loadAndVerify. cbn [j_file]. rewrite app_assoc. destruct (marshal_record_trimmed r) as [_ Hne].
  pose proof (scan_append 1 (S (length ((torn ++ marshal_record r) ++ [10%Z]))) [] (torn ++ marshal_record r)) as Hs. cbn [app] in Hs. rewrite Hs;
    [|by left|by apply printable_app; split; [|apply marshal_record_printable]|by destruct torn|done|cbn; lia|lia].
  cbn [scan_lines app load_lines]. destruct (len (TrimSpace (torn ++ marshal_record r)) =? 0); [done|]. by rewrite Hd.
Qed.

(** ** Thresholds *)

Lemma verify_all_spec `{UnicodeTables} {W : Type} (p : AnchorThresholdPolicy W) w head all : forall receipts seen report, receipts ⊆ all ->
  let accepted name := exists provider r, tp_providers p !! name = Some provider /\ r ∈ all /\ TrimSpace (rc_Provider r) = name /\ ap_Verify provider w head r = None in
  NoDup (tr_Providers report) -> (forall n, n ∈ tr_Providers report -> n ∈ seen /\ accepted n) -> tr_Valid report = len (tr_Providers report) ->
  let report' := verify_all p w head seen report receipts in
  NoDup (tr_Providers report') /\ (forall n, n ∈ tr_Providers report' -> accepted n) /\ tr_Valid report' = len (tr_Providers report').
Proof.
  induction receipts as [|r receipts IH]; intros seen report Hsub accepted Hnd Hacc Hval; cbn [verify_all]; [split_and!; [done|naive_solver|done]|].
  assert (receipts ⊆ all) as Hsub' by set_solver. assert (r ∈ all) as Hr by set_solver.
  destruct (str_eqb _ _); [by apply IH|]. destruct (bool_decide_reflect (TrimSpace (rc_Provider r) ∈ seen)) as [|Hnew]; [by apply IH|].
  destruct (tp_providers p !! TrimSpace (rc_Provider r)) as [provider|] eqn:Ep; [|apply IH; try done; set_solver].
  destruct (ap_Verify provider w head r) eqn:Ev; [apply IH; try done; set_solver|]. apply IH; cbn [tr_Providers tr_Valid]; [done| | |].
  - apply NoDup_app. split; [done|]. split; [|apply NoDup_singleton]. intros n Hn ->%list_elem_of_singleton. by apply Hacc in Hn as [? _].
  - intros n [Hn| ->%list_elem_of_singleton]%elem_of_app; [split; [set_solver|by apply Hacc]|]. split; [set_solver|]. by exists provider, r.
  - rewrite Hval. unfold len. rewrite length_app. cbn. lia.
Qed.

(** An anchored head has enough independent witnesses: when the threshold
    policy accepts a set of receipts, the providers it reports are distinct,
    configured, at least as many as the threshold, and each verified a receipt
    of the set under its own name; repeating a receipt gains nothing. *)
Theorem threshold_distinct `{UnicodeTables} {W : Type} (p : AnchorThresholdPolicy W) (w : W) (head : Head) (receipts : list AnchorReceipt) (report : AnchorThresholdReport) :
  Threshold_Verify p w head receipts = (report, None) ->
  NoDup (tr_Providers report) /\ tp_threshold p <= len (tr_Providers report) /\
  forall name, name ∈ tr_Providers report -> exists provider r,
    tp_providers p !! name = Some provider /\ r ∈ receipts /\ TrimSpace (rc_Provider r) = name /\ ap_Verify provider w head r = None.
Proof.
  unfold Threshold_Verify. destruct (NewAnchorStatement head); [|done].
  pose proof (verify_all_spec p w head receipts receipts ∅ (mkThreshold (tp_threshold p) 0 [] ∅) ltac:(done) NoDup_nil_2 ltac:(set_solver) eq_refl) as (Hnd & Hacc & Hval).
  set (rep := verify_all p w head ∅ _ receipts) in *. cbn [tr_Valid]. intros E. destruct (Z.ltb_spec (tr_Valid rep) (tp_threshold p)); [done|]. injection E as <-. cbn [tr_Providers].
  split; [by rewrite sort_by_perm|]. split; [unfold len; rewrite sort_by_perm; unfold len in Hval; lia|]. intros name Hn. apply elem_of_sort_by in Hn. by apply Hacc.
Qed.

Definition demo_head : Head := mkHead (str "agent/local") 1 demo_hash.
Definition demo_policy : AnchorThresholdPolicy (list Head) := mkPolicy {[str "local" := demo_provider]} 1.
Definition demo_receipt : AnchorReceipt := mkReceipt AnchorVersion (str "local") (mkAnchor AnchorVersion (str "agent/local") 1 demo_hash) (str "tx") demo_hash true 0.

Lemma threshold_distinct_witness : exists report, Threshold_Verify demo_policy [demo_head] demo_head [demo_receipt; demo_receipt] = (report, None) /\ NoDup (tr_Providers report).
Proof.
  destruct (Threshold_Verify demo_policy [demo_head] demo_head [demo_receipt; demo_receipt]) as [report e] eqn:E.
  assert (e = None) as -> by (change e with (report, e).2; rewrite <- E; vm_compute; reflexivity). exists report. split; [reflexivity|].
  apply (threshold_distinct demo_policy [demo_head] demo_head [demo_receipt; demo_receipt] report E).
Defined.

End EvidenceJournalClaims.
