(* ===== verification/EvidenceQueue.v ===== *)
(** * The queue of remote anchors (evidencebinding/agent_remote_queue.go)

    Heads wait in a file until enough providers have verified them.  A flush
    holds no lock while it talks to the providers, so its two halves, picking a
    due item and recording the outcome, are separate operations, and other calls
    come in between.  Items are copied through JSON, which makes every string
    valid UTF-8.  The texts of errors, the encoding of the file, the clock and
    what becomes of a write are arguments. *)

From S2P Require Import Prelude GoStrings Sha256 GoEncoding AuthProof Evidence EvidenceJournal.

Module EvidenceQueue.
Import GoStrings Sha256 GoEncoding AuthProof Evidence EvidenceJournal.

Definition AgentRemoteQueueVersion := str "weaverssh.agent-remote-anchor-queue.v1".

Record AgentRemoteDelivery := mkDelivery {
  d_Version : bytes;
  d_Head : Head;
  d_Receipts : list AnchorReceipt;
  d_EnqueuedAtUnix : Z;
  d_Attempts : Z;
  d_LastAttemptUnix : Z;
  d_NextAttemptUnix : Z;
  d_DeliveredAtUnix : Z;
  d_LastError : bytes
}.

Record AgentRemoteQueueStatus := mkQueueStatus {
  qs_Version : bytes;
  qs_Enabled : bool;
  qs_Pending : Z;
  qs_Delivered : Z;
  qs_TotalAttempts : Z;
  qs_OldestPendingUnix : Z;
  qs_NextAttemptUnix : Z;
  qs_LastError : bytes;
  qs_LastDeliveredHead : option Head
}.

Record AgentRemoteFlushReport := mkFlush {
  fr_Attempted : Z;
  fr_Delivered : Z;
  fr_Failures : gmap bytes bytes
}.

Record AgentRemoteQueueConfig := mkQueueConfig {
  qc_MinBackoff : Z;
  qc_MaxBackoff : Z;
  qc_PollEvery : Z
}.

Record agentRemoteQueueState := mkQueueState {
  st_Version : bytes;
  st_Items : list AgentRemoteDelivery
}.

(** The queue and the file it keeps, [None] when there is none. *)
Record AgentRemoteAnchorQueue := mkQueue {
  q_config : AgentRemoteQueueConfig;
  q_items : list AgentRemoteDelivery;
  q_closed : bool;
  q_file : option bytes
}.

(** What the host answers to the calls of [persistState]: the check for a link,
    opening, writing, syncing and closing the temporary file, renaming it,
    removing the old file, renaming again, and setting the mode. *)
Inductive remove_result : Type :=
| Removed
| NotExist
| RemoveFailed.

Record persist_host := mkPersist {
  ph_nolink : bool;
  ph_open : bool;
  ph_write : bool;
  ph_sync : bool;
  ph_close : bool;
  ph_rename : bool;
  ph_remove : remove_result;
  ph_retry : bool;
  ph_chmod : bool
}.

Definition Persisted : persist_host := mkPersist true true true true true true Removed true true.

(** [fmt.Sprintf] of the stream, the padded sequence and the digest. *)
Definition remoteHeadKey (head : Head) : bytes := h_StreamID head ++ [58] ++ pad20 (h_Sequence head) ++ [58] ++ h_StatementSHA256 head.

(** The defaults of [OpenAgentRemoteAnchorQueue]. *)
Definition normalize_config (config : AgentRemoteQueueConfig) : AgentRemoteQueueConfig :=
  let min := if qc_MinBackoff config <=? 0 then 5 * second else qc_MinBackoff config in
  let max := if qc_MaxBackoff config <? min then 5 * 60 * second else qc_MaxBackoff config in
  let poll := if qc_PollEvery config <=? 0 then second else qc_PollEvery config in
  mkQueueConfig min max poll.

(** The loop of [backoff] from attempt [i]; the delay doubles in 64 bits. *)
Fixpoint backoff_loop (fuel : nat) (config : AgentRemoteQueueConfig) (backoff i attempt : Z) : Z :=
  match fuel with
  | O => backoff
  | S fuel =>
    if (i <? attempt) && (backoff <? qc_MaxBackoff config) then
      if Z.quot (qc_MaxBackoff config) 2 <? backoff then qc_MaxBackoff config else backoff_loop fuel config (i64 (backoff * 2)) (i + 1) attempt
    else if qc_MaxBackoff config <? backoff then qc_MaxBackoff config else backoff
  end.

(** Sixty-four doublings pass any 64-bit maximum. *)
Definition backoff (config : AgentRemoteQueueConfig) (attempt : Z) : Z := backoff_loop 65 config (qc_MinBackoff config) 1 attempt.

(** By provider, the later receipt of a name replacing the earlier. *)
Definition mergeAnchorReceipts (existing incoming : list AnchorReceipt) : list AnchorReceipt :=
  let byProvider := fold_left (fun m r => <[rc_Provider r := r]> m) (existing ++ incoming) (∅ : gmap bytes AnchorReceipt) in
  (sort_by (fun a b => str_ltb a.1 b.1) (map_to_list byProvider)).*2.

(** [cloneRemoteDelivery] marshals the item and unmarshals the text: numbers come
    back as they were, strings as valid UTF-8. *)
Definition clone_head (h : Head) : Head := mkHead (json_text (h_StreamID h)) (h_Sequence h) (json_text (h_StatementSHA256 h)).
Definition clone_statement (a : AnchorStatement) : AnchorStatement :=
  mkAnchor (json_text (a_Version a)) (json_text (a_StreamID a)) (a_Sequence a) (json_text (a_StatementSHA256 a)).
Definition clone_receipt (r : AnchorReceipt) : AnchorReceipt :=
  mkReceipt (json_text (rc_Version r)) (json_text (rc_Provider r)) (clone_statement (rc_Statement r)) (json_text (rc_ExternalID r))
    (json_text (rc_ProofSHA256 r)) (rc_Committed r) (rc_BlockNumber r).
Definition cloneRemoteDelivery (item : AgentRemoteDelivery) : AgentRemoteDelivery :=
  mkDelivery (json_text (d_Version item)) (clone_head (d_Head item)) (clone_receipt <$> d_Receipts item) (d_EnqueuedAtUnix item) (d_Attempts item)
    (d_LastAttemptUnix item) (d_NextAttemptUnix item) (d_DeliveredAtUnix item) (json_text (d_LastError item)).

(** *** Queries *)

Fixpoint status_loop (status : AgentRemoteQueueStatus) (items : list AgentRemoteDelivery) : AgentRemoteQueueStatus :=
  match items with
  | [] => status
  | item :: rest =>
    let total := qs_TotalAttempts status + d_Attempts item in
    if 0 <? d_DeliveredAtUnix item then
      status_loop (mkQueueStatus (qs_Version status) (qs_Enabled status) (qs_Pending status) (qs_Delivered status + 1) total
        (qs_OldestPendingUnix status) (qs_NextAttemptUnix status) (qs_LastError status) (Some (d_Head item))) rest
    else
      let earlier t best := (0 <? t) && ((best =? 0) || (t <? best)) in
      status_loop (mkQueueStatus (qs_Version status) (qs_Enabled status) (qs_Pending status + 1) (qs_Delivered status) total
        (if earlier (d_EnqueuedAtUnix item) (qs_OldestPendingUnix status) then d_EnqueuedAtUnix item else qs_OldestPendingUnix status)
        (if earlier (d_NextAttemptUnix item) (qs_NextAttemptUnix status) then d_NextAttemptUnix item else qs_NextAttemptUnix status)
        (if str_eqb (d_LastError item) [] then qs_LastError status else d_LastError item) (qs_LastDeliveredHead status)) rest
  end.

Definition Queue_Status (q : option AgentRemoteAnchorQueue) : AgentRemoteQueueStatus :=
  match q with
  | None => mkQueueStatus AgentRemoteQueueVersion false 0 0 0 0 0 [] None
  | Some q => status_loop (mkQueueStatus AgentRemoteQueueVersion true 0 0 0 0 0 [] None) (q_items q)
  end.

Record AgentRemoteQueueExport := mkQueueExport {
  qe_Version : bytes;
  qe_Status : AgentRemoteQueueStatus;
  qe_Items : list AgentRemoteDelivery
}.

Definition Queue_Export (q : option AgentRemoteAnchorQueue) : AgentRemoteQueueExport :=
  match q with
  | None => mkQueueExport AgentRemoteQueueVersion (mkQueueStatus AgentRemoteQueueVersion false 0 0 0 0 0 [] None) []
  | Some x => mkQueueExport AgentRemoteQueueVersion (Queue_Status q) (cloneRemoteDelivery <$> q_items x)
  end.

(** A copy of the first item that is not delivered, not yet attempted and due. *)
Fixpoint find_due (index : nat) (force : bool) (now : Z) (attempted : gset bytes) (items : list AgentRemoteDelivery) : option (nat * AgentRemoteDelivery) :=
  match items with
  | [] => None
  | item :: rest =>
    if 0 <? d_DeliveredAtUnix item then find_due (S index) force now attempted rest else
    if bool_decide (remoteHeadKey (d_Head item) ∈ attempted) then find_due (S index) force now attempted rest else
    if force || (d_NextAttemptUnix item =? 0) || (d_NextAttemptUnix item <=? Unix now) then Some (index, cloneRemoteDelivery item) else
    find_due (S index) force now attempted rest
  end.

Definition nextDue (q : AgentRemoteAnchorQueue) (force : bool) (now : Z) (attempted : gset bytes) : option (nat * AgentRemoteDelivery) :=
  if q_closed q then None else find_due 0 force now attempted (q_items q).

Section Queue.
Context `{UnicodeTables} {W : Type} (policy : AnchorThresholdPolicy W).
Context (marshal_state : agentRemoteQueueState -> bytes) (decode_state : bytes -> option agentRemoteQueueState).
(** The text of the joined errors of [Anchor] and [Verify]. *)
Context (error_text : option (ev_error * list (bytes * ev_error)) -> ev_error -> bytes).

(** The error and the file afterwards. *)
Definition persistState (q : AgentRemoteAnchorQueue) (items : list AgentRemoteDelivery) (h : persist_host) : option ev_error * option bytes :=
  let payload := marshal_state (mkQueueState AgentRemoteQueueVersion items) in
  if negb (ph_nolink h) then (Some ErrInvalidEvidence, q_file q) else
  if negb (ph_open h) || negb (ph_write h) || negb (ph_sync h) || negb (ph_close h) then (Some (ErrIO []), q_file q) else
  let done := (if ph_chmod h then None else Some (ErrIO []), Some payload) in
  if ph_rename h then done else
  match ph_remove h with
  | RemoveFailed => (Some (ErrIO []), q_file q)
  | _ => if ph_retry h then done else (Some (ErrIO []), None)
  end.

Definition persistLocked (q : AgentRemoteAnchorQueue) (items : list AgentRemoteDelivery) (h : persist_host) : option ev_error * option bytes :=
  persistState q (cloneRemoteDelivery <$> items) h.

(** [now] is the reading of [time.Now]; an error leaves the queue as it was. *)
Definition Enqueue (q : AgentRemoteAnchorQueue) (head : Head) (now : Z) (io : persist_host) : option ev_error * AgentRemoteAnchorQueue :=
  match NewAnchorStatement head with
  | Err e => (Some e, q)
  | Ok _ =>
    if q_closed q then (Some ErrInvalidAnchor, q) else
    if existsb (fun item => bool_decide (d_Head item = head)) (q_items q) then (None, q) else
    let item := mkDelivery AgentRemoteQueueVersion head [] (Unix now) 0 0 (Unix now) 0 [] in
    let items := q_items q ++ [item] in
    match persistLocked q items io with
    | (None, file) => (None, mkQueue (q_config q) items (q_closed q) file)
    | (Some e, file) => (Some e, mkQueue (q_config q) (q_items q) (q_closed q) file)
    end
  end.

(** One attempt's outcome for an item; the three clock readings are those of the
    attempt, the delivery and the retry. *)
Definition attempt_item (config : AgentRemoteQueueConfig) (w : W) (item : AgentRemoteDelivery) (receipts : list AnchorReceipt)
    (anchorErr : option (ev_error * list (bytes * ev_error))) (now1 now2 : Z) : AgentRemoteDelivery * option bytes :=
  let attempts := d_Attempts item + 1 in
  let merged := mergeAnchorReceipts (d_Receipts item) receipts in
  match (Threshold_Verify policy w (d_Head item) merged).2 with
  | None => (mkDelivery (d_Version item) (d_Head item) merged (d_EnqueuedAtUnix item) attempts (Unix now1) 0 (Unix now2) [], None)
  | Some e =>
    let text := error_text anchorErr e in
    (mkDelivery (d_Version item) (d_Head item) merged (d_EnqueuedAtUnix item) attempts (Unix now1) (Unix (now2 + backoff config attempts)) (d_DeliveredAtUnix item) text, Some text)
  end.

(** The second half of an iteration of [Flush], under the lock again: the queue,
    the failure's text if any, and the error of the write; [None] when the item
    is no longer there. *)
Definition record_attempt (q : AgentRemoteAnchorQueue) (w : W) (index : nat) (head : Head) (receipts : list AnchorReceipt)
    (anchorErr : option (ev_error * list (bytes * ev_error))) (now1 now2 : Z) (io : persist_host) : option (AgentRemoteAnchorQueue * option bytes * option ev_error) :=
  match q_items q !! index with
  | None => None
  | Some item =>
    if negb (bool_decide (d_Head item = head)) then None else
    let '(current, failure) := attempt_item (q_config q) w item receipts anchorErr now1 now2 in
    let items := <[index := current]> (q_items q) in
    let '(persistErr, file) := persistLocked q items io in
    Some (mkQueue (q_config q) items (q_closed q) file, failure, persistErr)
  end.

(** What the environment does in one iteration: the clock at the pick, the
    context, the clock afterwards, the write. *)
Record tick := mkTick {
  t_pick : Z;
  t_ctx : option ev_error;
  t_now1 : Z;
  t_now2 : Z;
  t_io : persist_host
}.

(** [Flush] with no other call in between; [None] is out of fuel.  [key] is the
    key of the copy, so an item whose head is not valid UTF-8 is found again
    and again. *)
Fixpoint flush_loop (fuel : nat) (env : nat -> tick) (n : nat) (force : bool) (attempted : gset bytes) (report : AgentRemoteFlushReport)
    (q : AgentRemoteAnchorQueue) (w : W) : option (AgentRemoteFlushReport * option ev_error * AgentRemoteAnchorQueue * W) :=
  match fuel with
  | O => None
  | S fuel =>
    let t := env n in
    match nextDue q force (t_pick t) attempted with
    | None => Some (report, None, q, w)
    | Some (index, item) =>
      let key := remoteHeadKey (d_Head item) in
      let attempted := {[key]} ∪ attempted in
      match t_ctx t with
      | Some e => Some (report, Some e, q, w)
      | None =>
        let report := mkFlush (fr_Attempted report + 1) (fr_Delivered report) (fr_Failures report) in
        let '(receipts, anchorErr, w) := Threshold_Anchor policy (d_Head item) w in
        match record_attempt q w index (d_Head item) receipts anchorErr (t_now1 t) (t_now2 t) (t_io t) with
        | None => flush_loop fuel env (S n) force attempted report q w
        | Some (q, failure, persistErr) =>
          let report := match failure with
            | None => mkFlush (fr_Attempted report) (fr_Delivered report + 1) (fr_Failures report)
            | Some text => mkFlush (fr_Attempted report) (fr_Delivered report) (<[key := text]> (fr_Failures report))
            end in
          match persistErr with
          | None => flush_loop fuel env (S n) force attempted report q w
          | Some e => Some (report, Some e, q, w)
          end
        end
      end
    end
  end.

Definition Flush (env : nat -> tick) (force : bool) (q : AgentRemoteAnchorQueue) (w : W) : option (AgentRemoteFlushReport * option ev_error * AgentRemoteAnchorQueue * W) :=
  flush_loop (S (length (q_items q))) env 0 force ∅ (mkFlush 0 0 ∅) q w.

Definition Queue_Close (q : AgentRemoteAnchorQueue) : AgentRemoteAnchorQueue := mkQueue (q_config q) (q_items q) true (q_file q).

(** The checks of [load] on the items of the file. *)
Fixpoint check_items (seen : gset bytes) (items : list AgentRemoteDelivery) : option ev_error :=
  match items with
  | [] => None
  | item :: rest =>
    if negb (str_eqb (d_Version item) AgentRemoteQueueVersion) || (d_EnqueuedAtUnix item <=? 0) then Some ErrInvalidAnchor else
    match NewAnchorStatement (d_Head item) with
    | Err e => Some e
    | Ok _ =>
      let key := remoteHeadKey (d_Head item) in
      if bool_decide (key ∈ seen) then Some ErrInvalidAnchor else
      match list_find (fun r => ValidateFor r (rc_Provider r) (d_Head item) <> None) (d_Receipts item) with
      | Some (_, r) => ValidateFor r (rc_Provider r) (d_Head item)
      | None =>
        if (0 <? d_DeliveredAtUnix item) && (len (d_Receipts item) =? 0) then Some ErrInvalidAnchor else
        check_items ({[key]} ∪ seen) rest
      end
    end
  end.

Definition load (q : AgentRemoteAnchorQueue) (io : persist_host) : result ev_error AgentRemoteAnchorQueue :=
  match q_file q with
  | None =>
    match persistState q [] io with
    | (None, file) => Ok (mkQueue (q_config q) (q_items q) (q_closed q) file)
    | (Some e, _) => Err e
    end
  | Some data =>
    match decode_state data with
    | None => Err (ErrIO (str "decode"))
    | Some state =>
      if negb (str_eqb (st_Version state) AgentRemoteQueueVersion) then Err ErrInvalidAnchor else
      match check_items ∅ (st_Items state) with
      | Some e => Err e
      | None => Ok (mkQueue (q_config q) (st_Items state) (q_closed q) (q_file q))
      end
    end
  end.

(** [OpenAgentRemoteAnchorQueue] after the paths are settled. *)
Definition OpenAgentRemoteAnchorQueue (config : AgentRemoteQueueConfig) (providers : list (AnchorProvider W)) (file : option bytes) (io : persist_host) : result ev_error AgentRemoteAnchorQueue :=
  if len providers =? 0 then Err ErrInvalidAnchor else
  load (mkQueue (normalize_config config) [] false file) io.

End Queue.
End EvidenceQueue.
