(* ===== verification/EvidenceQueueProofs.v ===== *)
(** * The queue of remote anchors: lemmas *)

From S2P Require Import Prelude GoStrings Sha256 GoEncoding AuthProof Evidence EvidenceProofs EvidenceLedger EvidenceJournal EvidenceQueue.

Module EvidenceQueueProofs.
Import GoStrings Sha256 GoEncoding AuthProof Evidence EvidenceProofs EvidenceLedger EvidenceJournal EvidenceQueue.

(** ** Keys of heads *)

Lemma strip_keeps (head : bytes -> nat) fuel s x : (forall s, x ∉ take (head s) s) -> x ∈ s -> x ∈ strip head fuel s.
Proof.
  intros Hh. revert s. induction fuel as [|fuel IH]; intros s Hx; cbn [strip]; [done|]. destruct (head s) as [|n] eqn:En; [done|]. apply IH.
  rewrite <- (take_drop (S n) s) in Hx. apply elem_of_app in Hx as [Hx|Hx]; [|done]. specialize (Hh s). rewrite En in Hh. done.
Qed.

Lemma elem_rev (x : Z) l : x ∈ rev l <-> x ∈ l.
Proof. rewrite !list_elem_of_In. symmetry. apply in_rev. Qed.

Lemma colon_no_space : (forall s, 58 ∉ take (space_head s) s) /\ (forall s, 58 ∉ take (space_tail s) s).
Proof.
  split; intros [|a [|b [|c r]]]; cbn -[space1 space2 space3]; unfold space1, space2, space3; repeat case_match; cbn [take]; rewrite ?elem_of_cons, ?elem_of_nil; go_bool; lia.
Qed.

Lemma TrimSpace_colon s : 58 ∈ s -> 58 ∈ TrimSpace s.
Proof.
  intros Hs. destruct colon_no_space as [H1 H2]. unfold TrimSpace, trim_right, trim_left. rewrite elem_rev. apply strip_keeps; [done|]. rewrite elem_rev. by apply strip_keeps.
Qed.

Lemma ToLower_colon `{UnicodeTables} s : 58 ∈ s -> 58 ∈ ToLower s.
Proof.
  intros Hs. unfold ToLower. destruct (is_ascii s).
  - apply list_elem_of_fmap. exists 58. done.
  - apply list_elem_of_In, in_concat. exists [58]. split; [|by left]. apply list_elem_of_In, list_elem_of_fmap. exists 58. split; [done|]. by apply ascii_in_runes.
Qed.

Lemma hex_decode_colon s x : hex_decode s = Some x -> 58 ∉ s.
Proof.
  revert x. induction s as [|a|a b r IH] using list_pair_ind; intros x; cbn [hex_decode]; [set_solver|done|].
  destruct (from_hex a) eqn:Ea; [|done]. destruct (from_hex b) eqn:Eb; [|done]. destruct (hex_decode r) eqn:Er; [|done]. intros _.
  rewrite !elem_of_cons. intros [<-|[<-|Hr]]; [done|done|by eapply IH].
Qed.

Section Keys.
Context `{UnicodeTables}.

Definition valid_head (h : Head) : Prop := is_ok (NewAnchorStatement h) = true /\ 0 <= h_Sequence h < 2 ^ 64.

Lemma valid_head_colon h : valid_head h -> 58 ∉ h_StatementSHA256 h.
Proof.
  intros [Hok _] Hin. apply TrimSpace_colon, ToLower_colon in Hin. revert Hok. unfold NewAnchorStatement, Anchor_Validate. cbn [a_StatementSHA256 a_Version a_StreamID a_Sequence].
  destruct (isSHA256 (ToLower (TrimSpace (h_StatementSHA256 h)))) eqn:E; [|by rewrite !orb_true_r]. intros _. unfold isSHA256 in E.
  destruct (hex_decode _) eqn:Ed; [|by rewrite andb_false_r in E]. by apply hex_decode_colon in Ed.
Qed.

(** The text after the last colon is determined. *)
Lemma last_colon (a b c d : bytes) : 58 ∉ b -> 58 ∉ d -> a ++ [58] ++ b = c ++ [58] ++ d -> a = c /\ b = d.
Proof.
  intros Hb Hd E. assert (length b = length d) as Hl.
  { assert (forall (b d a c : bytes), 58 ∉ b -> a ++ [58] ++ b = c ++ [58] ++ d -> (length b <= length d)%nat) as Hle; [|apply Nat.le_antisymm; [by eapply Hle|by eapply (Hle d b)]].
    clear. intros b d a c Hb E. destruct (Nat.le_gt_cases (length b) (length d)) as [|Hlt]; [done|exfalso]. apply Hb.
    assert (length a < length c)%nat as Hac by (apply (f_equal length) in E; rewrite !length_app in E; cbn in E; lia).
    apply (f_equal (lookup (length c))) in E. rewrite (lookup_app_r c), Nat.sub_diag in E by lia. cbn in E.
    rewrite lookup_app_r in E by lia. destruct (length c - length a)%nat as [|k] eqn:Ek; [lia|]. cbn in E. by eapply list_elem_of_lookup_2. }
  apply app_inj_2 in E as [-> E]; [|cbn; lia]. injection E as ->. done.
Qed.

Lemma remoteHeadKey_inj h h' : valid_head h -> valid_head h' -> remoteHeadKey h = remoteHeadKey h' -> h = h'.
Proof.
  intros Hv Hv' E. unfold remoteHeadKey in E. pose proof (pad20_spec _ (proj2 Hv)) as [L V]. pose proof (pad20_spec _ (proj2 Hv')) as [L' V'].
  replace (h_StreamID h ++ [58] ++ pad20 (h_Sequence h) ++ [58] ++ h_StatementSHA256 h) with ((h_StreamID h ++ [58] ++ pad20 (h_Sequence h)) ++ [58] ++ h_StatementSHA256 h) in E by (by rewrite <- !app_assoc).
  replace (h_StreamID h' ++ [58] ++ pad20 (h_Sequence h') ++ [58] ++ h_StatementSHA256 h') with ((h_StreamID h' ++ [58] ++ pad20 (h_Sequence h')) ++ [58] ++ h_StatementSHA256 h') in E by (by rewrite <- !app_assoc).
  apply last_colon in E as [E Ed]; [|by apply valid_head_colon..]. apply app_inj_2 in E as [Es E]; [|rewrite !length_app, L, L'; done]. apply app_inv_head in E.
  destruct h, h'; cbn in *. f_equal; [done| |done]. by rewrite <- V, <- V', E.
Qed.

End Keys.

(** ** Copies *)

Definition head_text (h : Head) : Prop := text_ok (h_StreamID h) /\ text_ok (h_StatementSHA256 h).
Definition receipt_text (r : AnchorReceipt) : Prop :=
  Forall text_ok [rc_Version r; rc_Provider r; a_Version (rc_Statement r); a_StreamID (rc_Statement r); a_StatementSHA256 (rc_Statement r);
    rc_ExternalID r; rc_ProofSHA256 r].

Lemma clone_head_text h : head_text h -> clone_head h = h.
Proof. intros [H1 H2]. unfold clone_head. rewrite !json_text_valid by done. by destruct h. Qed.

Lemma clone_receipt_text r : receipt_text r -> clone_receipt r = r.
Proof.
  unfold receipt_text. rewrite !Forall_cons. intros (H1 & H2 & H3 & H4 & H5 & H6 & H7 & _). unfold clone_receipt, clone_statement.
  rewrite !json_text_valid by done. by destruct r as [? ? []].
Qed.

Lemma clone_receipts_text rs : Forall receipt_text rs -> clone_receipt <$> rs = rs.
Proof. induction 1 as [|r rs Hr _ IH]; [done|]. by rewrite fmap_cons, IH, clone_receipt_text. Qed.

(** ** Delays *)

Lemma backoff_loop_spec config attempt fuel : forall b i, 0 < b < 2 ^ 63 -> 2 ^ 64 <= b * 2 ^ Z.of_nat fuel -> qc_MaxBackoff config < 2 ^ 63 -> i <= attempt ->
  backoff_loop fuel config b i attempt = Z.min (qc_MaxBackoff config) (b * 2 ^ (attempt - i)).
Proof.
  induction fuel as [|fuel IH]; intros b i Hb Hf Hm Hi; [cbn in Hf; lia|]. cbn [backoff_loop].
  assert (1 <= 2 ^ (attempt - i)) as Hp by (apply (Z.pow_le_mono_r 2 0); lia).
  destruct (Z.ltb_spec i attempt) as [Hlt|Hge]; cbn [andb].
  - destruct (Z.ltb_spec b (qc_MaxBackoff config)) as [Hbm|Hbm].
    + assert (2 ^ (attempt - i) = 2 * 2 ^ (attempt - (i + 1))) as Ep by (rewrite <- Z.pow_succ_r by lia; f_equal; lia).
      assert (1 <= 2 ^ (attempt - (i + 1))) by (apply (Z.pow_le_mono_r 2 0); lia).
      pose proof (Z.quot_div_nonneg (qc_MaxBackoff config) 2 ltac:(lia) ltac:(lia)) as Eq. pose proof (Z.div_mod (qc_MaxBackoff config) 2 ltac:(lia)) as Ed.
      pose proof (Z.mod_pos_bound (qc_MaxBackoff config) 2 ltac:(lia)). destruct (Z.ltb_spec (Z.quot (qc_MaxBackoff config) 2) b).
      * rewrite Ep. symmetry. apply Z.min_l. nia.
      * rewrite i64_small by lia. rewrite IH; [rewrite Ep; f_equal; lia|lia| |lia|lia].
        replace (Z.of_nat (S fuel)) with (Z.succ (Z.of_nat fuel)) in Hf by lia. rewrite Z.pow_succ_r in Hf by lia. lia.
    + destruct (Z.ltb_spec (qc_MaxBackoff config) b); symmetry; [apply Z.min_l; nia|]. replace b with (qc_MaxBackoff config) by lia. apply Z.min_l. nia.
  - replace (attempt - i) with 0 by lia. rewrite Z.pow_0_r, Z.mul_1_r. destruct (Z.ltb_spec (qc_MaxBackoff config) b); lia.
Qed.

(** ** Receipts *)

Section Receipts.
Context `{UnicodeTables} {W : Type} (policy : AnchorThresholdPolicy W).

Lemma merge_lookup l m k (r : AnchorReceipt) : fold_left (fun m r => <[rc_Provider r := r]> m) l m !! k = Some r -> r ∈ l \/ (m : gmap bytes AnchorReceipt) !! k = Some r.
Proof.
  revert m. induction l as [|x l IH]; intros m; cbn [fold_left]; [by right|]. intros Hk. apply IH in Hk as [?|Hk]; [left; by right|].
  apply lookup_insert_Some in Hk as [[_ <-]|[_ ?]]; [left; by left|by right].
Qed.

Lemma merge_elem existing incoming r : r ∈ mergeAnchorReceipts existing incoming -> r ∈ existing \/ r ∈ incoming.
Proof.
  unfold mergeAnchorReceipts. cbv zeta. intros Hr. apply list_elem_of_fmap in Hr as ([k r'] & -> & Hr). apply elem_of_sort_by, elem_of_map_to_list in Hr.
  apply merge_lookup in Hr as [Hr|Hr]; [by apply elem_of_app|by rewrite lookup_empty in Hr].
Qed.

Definition receipt_for (head : Head) (r : AnchorReceipt) : Prop := ValidateFor r (rc_Provider r) head = None.

Lemma ValidateFor_own r name head : ValidateFor r name head = None -> receipt_for head r.
Proof.
  unfold receipt_for, ValidateFor. destruct (NewAnchorStatement head); [|done]. destruct (str_eqb_spec (TrimSpace (rc_Provider r)) (TrimSpace name)); [|by rewrite orb_true_r].
  destruct (str_eqb_spec (TrimSpace (rc_Provider r)) (TrimSpace (rc_Provider r))); done.
Qed.

Lemma anchor_all_receipts names head w : Forall (receipt_for head) (anchor_all policy names head w).1.1.
Proof.
  revert w. induction names as [|name names IH]; intros w; cbn [anchor_all]; [constructor|]. destruct (tp_providers policy !! name) as [provider|]; [|apply IH].
  destruct (ap_Anchor provider w head) as [[receipt|e] w1]; specialize (IH w1).
  - destruct (ValidateFor receipt name head) eqn:Ev; destruct (anchor_all policy names head w1) as [[rs fs] w2]; [exact IH|]. constructor; [by eapply ValidateFor_own|exact IH].
  - destruct (anchor_all policy names head w1) as [[rs fs] w2]. exact IH.
Qed.

Lemma Threshold_Anchor_receipts head w : Forall (receipt_for head) (Threshold_Anchor policy head w).1.1.
Proof.
  unfold Threshold_Anchor. destruct (NewAnchorStatement head); [|constructor]. pose proof (anchor_all_receipts (providerNames policy) head w) as Hr.
  destruct (anchor_all _ _ _ _) as [[rs fs] w1]. by destruct (len rs <? tp_threshold policy).
Qed.

(** Every receipt the providers return for a head that is text is text, as one
    decoded from JSON is. *)
Definition text_providers : Prop := forall name provider w head r w', tp_providers policy !! name = Some provider ->
  head_text head -> ap_Anchor provider w head = (Ok r, w') -> receipt_text r.

Lemma anchor_all_text names head w : text_providers -> head_text head -> Forall receipt_text (anchor_all policy names head w).1.1.
Proof.
  intros Ht Hh. revert w. induction names as [|name names IH]; intros w; cbn [anchor_all]; [constructor|]. destruct (tp_providers policy !! name) as [provider|] eqn:Ep; [|apply IH].
  destruct (ap_Anchor provider w head) as [[receipt|e] w1] eqn:Ea; specialize (IH w1).
  - destruct (ValidateFor receipt name head) eqn:Ev; destruct (anchor_all policy names head w1) as [[rs fs] w2]; [exact IH|]. constructor; [by eapply Ht|exact IH].
  - destruct (anchor_all policy names head w1) as [[rs fs] w2]. exact IH.
Qed.

Lemma Threshold_Anchor_text head w : text_providers -> head_text head -> Forall receipt_text (Threshold_Anchor policy head w).1.1.
Proof.
  intros Ht Hh. unfold Threshold_Anchor. destruct (NewAnchorStatement head); [|constructor]. pose proof (anchor_all_text (providerNames policy) head w Ht Hh) as Hr.
  destruct (anchor_all _ _ _ _) as [[rs fs] w1]. by destruct (len rs <? tp_threshold policy).
Qed.

(** The policy accepted the receipts at some time. *)
Definition accepted_by (head : Head) (receipts : list AnchorReceipt) : Prop := exists w, (Threshold_Verify policy w head receipts).2 = None.

Lemma accepted_nonempty head receipts : 0 < tp_threshold policy -> accepted_by head receipts -> receipts <> [].
Proof. intros Ht [w Hv] ->. unfold Threshold_Verify in Hv. destruct (NewAnchorStatement head); [|done]. cbn in Hv. destruct (Z.ltb_spec 0 (tp_threshold policy)); [done|lia]. Qed.

(** ** Items *)

Record item_ok (item : AgentRemoteDelivery) : Prop := {
  io_version : d_Version item = AgentRemoteQueueVersion;
  io_enqueued : 0 < d_EnqueuedAtUnix item;
  io_head : valid_head (d_Head item);
  io_receipts : Forall (receipt_for (d_Head item)) (d_Receipts item);
  io_delivered : 0 < d_DeliveredAtUnix item -> accepted_by (d_Head item) (d_Receipts item);
  io_head_text : head_text (d_Head item);
  io_receipts_text : Forall receipt_text (d_Receipts item)
}.

Definition items_ok (items : list AgentRemoteDelivery) : Prop := Forall item_ok items /\ NoDup (d_Head <$> items).

Lemma clone_item_ok item : item_ok item -> item_ok (cloneRemoteDelivery item) /\ d_Head (cloneRemoteDelivery item) = d_Head item.
Proof.
  intros [Hv He Hh Hr Hd Ht Hrt].
  assert (json_text (d_Version item) = d_Version item) as Ev by (rewrite Hv; by vm_compute).
  unfold cloneRemoteDelivery. rewrite Ev, clone_head_text, clone_receipts_text by done. by split; [split|].
Qed.

Lemma clone_items_ok items : items_ok items ->
  items_ok (cloneRemoteDelivery <$> items) /\ d_Head <$> (cloneRemoteDelivery <$> items) = d_Head <$> items.
Proof.
  intros [Hall Hnd]. assert (d_Head <$> (cloneRemoteDelivery <$> items) = d_Head <$> items) as E.
  { clear Hnd. induction Hall as [|x l Hx _ IH]; [done|]. rewrite !fmap_cons, IH. f_equal. by apply clone_item_ok. }
  split; [|done]. split; [|by rewrite E]. apply Forall_fmap. eapply Forall_impl; [exact Hall|]. intros x Hx. by apply clone_item_ok.
Qed.

Lemma check_items_ok items : 0 < tp_threshold policy -> items_ok items -> forall seen : gset bytes, (forall item, item ∈ items -> remoteHeadKey (d_Head item) ∉ seen) -> check_items seen items = None.
Proof.
  intros Ht [Hall Hnd]. induction items as [|x items IH]; intros seen Hseen; [done|]. cbn [check_items]. apply Forall_cons in Hall as [Hx Hall]. apply NoDup_cons in Hnd as [Hnx Hnd].
  destruct Hx as [Hv He [Hok Hrange] Hr Hd _ _]. rewrite Hv, str_eqb_refl, (proj2 (Z.leb_gt _ _)) by done. cbn [negb orb].
  destruct (NewAnchorStatement (d_Head x)) as [a|] eqn:Ea; [|done].
  rewrite bool_decide_false by (apply Hseen; by left).
  assert (list_find (fun r => ValidateFor r (rc_Provider r) (d_Head x) <> None) (d_Receipts x) = None) as ->.
  { apply list_find_None. eapply Forall_impl; [exact Hr|]. intros r Hrr Hn. by apply Hn. }
  assert ((0 <? d_DeliveredAtUnix x) && (len (d_Receipts x) =? 0) = false) as ->.
  { destruct (Z.ltb_spec 0 (d_DeliveredAtUnix x)) as [H0|]; [|done]. apply Hd, (accepted_nonempty _ _ Ht) in H0. cbn. apply Z.eqb_neq. unfold len. destruct (d_Receipts x); [done|cbn; lia]. }
  apply IH; [done|done|]. intros y Hy. rewrite elem_of_union, elem_of_singleton. intros [E|E]; [|by eapply Hseen; [right|]]. apply Hnx.
  apply remoteHeadKey_inj in E; [|by rewrite Forall_forall in Hall; apply Hall|by split; [rewrite Ea|]]. rewrite <- E. apply list_elem_of_fmap. by exists y.
Qed.

End Receipts.

(** ** One flush *)

Definition pendingb (attempted : gset bytes) (item : AgentRemoteDelivery) : bool :=
  negb (0 <? d_DeliveredAtUnix item) && negb (bool_decide (remoteHeadKey (d_Head item) ∈ attempted)).

Fixpoint pend (attempted : gset bytes) (items : list AgentRemoteDelivery) : nat :=
  match items with [] => 0 | x :: r => (if pendingb attempted x then 1 else 0) + pend attempted r end%nat.

Lemma pend_app A a b : pend A (a ++ b) = (pend A a + pend A b)%nat.
Proof. induction a as [|x a IH]; [done|]. cbn [app pend]. rewrite IH. lia. Qed.

Lemma pend_ext A B l : (forall x, x ∈ l -> pendingb A x = pendingb B x) -> pend A l = pend B l.
Proof. induction l as [|x l IH]; intros Hx; [done|]. cbn [pend]. rewrite (Hx x) by (by left). rewrite IH; [done|]. intros y Hy. apply Hx. by right. Qed.

Lemma pend_le A items : (pend A items <= length items)%nat.
Proof. induction items as [|x l IH]; [done|]. cbn [pend length]. destruct (pendingb A x); lia. Qed.

Lemma find_due_spec index force now A items i picked : find_due index force now A items = Some (i, picked) ->
  exists pre item post, items = pre ++ item :: post /\ i = (index + length pre)%nat /\ picked = cloneRemoteDelivery item /\ pendingb A item = true.
Proof.
  revert index. induction items as [|x items IH]; intros index; [done|]. cbn [find_due].
  assert (find_due (S index) force now A items = Some (i, picked) ->
    exists pre item post, x :: items = pre ++ item :: post /\ i = (index + length pre)%nat /\ picked = cloneRemoteDelivery item /\ pendingb A item = true) as Hnext.
  { intros E. apply IH in E as (pre & item & post & -> & -> & -> & Hp). exists (x :: pre), item, post. cbn. split; [done|]. split; [lia|done]. }
  destruct (0 <? d_DeliveredAtUnix x) eqn:Ed; [exact Hnext|]. destruct (bool_decide (remoteHeadKey (d_Head x) ∈ A)) eqn:Ea; [exact Hnext|].
  destruct (_ || _); [|exact Hnext]. intros [= <- <-]. exists [], x, items. cbn. split; [done|]. split; [lia|]. split; [done|]. unfold pendingb. by rewrite Ed, Ea.
Qed.

Lemma find_due_none index now A items : find_due index true now A items = None -> pend A items = 0%nat.
Proof.
  revert index. induction items as [|x items IH]; intros index; [done|]. cbn [find_due pend]. unfold pendingb.
  destruct (0 <? d_DeliveredAtUnix x); [apply IH|]. destruct (bool_decide _); [apply IH|done].
Qed.

(** Adding the key of an item makes no other pending or not. *)
Lemma pendingb_other A item x : remoteHeadKey (d_Head x) <> remoteHeadKey (d_Head item) -> pendingb ({[remoteHeadKey (d_Head item)]} ∪ A) x = pendingb A x.
Proof. intros Hne. unfold pendingb. do 2 f_equal. apply bool_decide_ext. set_solver. Qed.

Lemma pendingb_added A key x : remoteHeadKey (d_Head x) = key -> pendingb ({[key]} ∪ A) x = false.
Proof. intros <-. unfold pendingb. rewrite (bool_decide_true (_ ∈ _ ∪ _)) by set_solver. apply andb_false_r. Qed.

Lemma pendingb_less A key x : pendingb ({[key]} ∪ A) x = true -> pendingb A x = true.
Proof.
  unfold pendingb. destruct (0 <? d_DeliveredAtUnix x); [done|]. cbn. destruct (bool_decide_reflect (remoteHeadKey (d_Head x) ∈ {[key]} ∪ A)); [done|].
  intros _. rewrite bool_decide_false; [done|]. set_solver.
Qed.

Lemma pend_less A key items : (pend ({[key]} ∪ A) items <= pend A items)%nat.
Proof.
  induction items as [|x items IH]; [done|]. cbn [pend]. destruct (pendingb ({[key]} ∪ A) x) eqn:E; [apply pendingb_less in E as ->; lia|]. lia.
Qed.

Section Flush.
Context `{UnicodeTables} {W : Type} (policy : AnchorThresholdPolicy W) (marshal_state : agentRemoteQueueState -> bytes).
Context (error_text : option (ev_error * list (bytes * ev_error)) -> ev_error -> bytes).

Lemma attempt_item_facts config w item receipts err n1 n2 : let r := attempt_item policy error_text config w item receipts err n1 n2 in
  d_Head r.1 = d_Head item /\ d_Attempts r.1 = d_Attempts item + 1 /\ d_Version r.1 = d_Version item /\ d_EnqueuedAtUnix r.1 = d_EnqueuedAtUnix item /\
  d_Receipts r.1 = mergeAnchorReceipts (d_Receipts item) receipts /\
  (d_DeliveredAtUnix r.1 = d_DeliveredAtUnix item \/ accepted_by policy (d_Head item) (d_Receipts r.1)).
Proof.
  unfold attempt_item. destruct (Threshold_Verify policy w (d_Head item) (mergeAnchorReceipts (d_Receipts item) receipts)) as [rep [e|]] eqn:E; cbn; [by auto 10|].
  split_and!; try done. right. exists w. by rewrite E.
Qed.

(** The item picked is recorded in place. *)
Lemma record_picked q w pre item post receipts err n1 n2 io : q_items q = pre ++ item :: post ->
  record_attempt policy marshal_state error_text q w (length pre) (d_Head item) receipts err n1 n2 io =
    let '(current, failure) := attempt_item policy error_text (q_config q) w item receipts err n1 n2 in
    let '(persistErr, file) := persistLocked marshal_state q (pre ++ current :: post) io in
    Some (mkQueue (q_config q) (pre ++ current :: post) (q_closed q) file, failure, persistErr).
Proof.
  intros E. unfold record_attempt. rewrite E, lookup_app_r, Nat.sub_diag by lia. cbn [lookup list_lookup]. rewrite bool_decide_true by done. cbn [negb].
  destruct (attempt_item _ _ _ _ _ _ _ _ _) as [current failure]. rewrite insert_app_r_alt, Nat.sub_diag by lia. done.
Qed.

(** Each iteration leaves fewer items to attempt. *)
Lemma flush_loop_returns env force fuel : forall n A report q w, Forall (head_text ∘ d_Head) (q_items q) ->
  (pend A (q_items q) < fuel)%nat -> flush_loop policy marshal_state error_text fuel env n force A report q w <> None.
Proof.
  induction fuel as [|fuel IH]; intros n A report q w Htx Hf; [lia|]. cbn [flush_loop]. cbv zeta. destruct (nextDue q force (t_pick (env n)) A) as [[i picked]|] eqn:En; [|done].
  destruct (t_ctx (env n)); [done|]. unfold nextDue in En. destruct (q_closed q) eqn:Ecl; [done|]. apply find_due_spec in En as (pre & item & post & Eq & -> & -> & Hp).
  rewrite Eq in Htx. apply Forall_app in Htx as [Ht1 [Ht2 Ht3]%Forall_cons]. cbn [cloneRemoteDelivery d_Head]. rewrite (clone_head_text (d_Head item)) by done.
  destruct (Threshold_Anchor policy (d_Head item) w) as [[receipts err] w1]. rewrite Nat.add_0_l, (record_picked _ _ pre item post) by done.
  pose proof (attempt_item_facts (q_config q) w1 item receipts err (t_now1 (env n)) (t_now2 (env n))) as (Hh & _). destruct (attempt_item _ _ _ _ _ _ _ _ _) as [current failure].
  destruct (persistLocked _ _ _ _) as [[e|] file]; [done|]. cbn [fst] in Hh.
  apply IH; [apply Forall_app; split; [done|apply Forall_cons; cbn; by rewrite Hh]|]. cbn [q_items]. rewrite Eq, pend_app in Hf. rewrite pend_app. cbn [pend] in *. rewrite Hp in Hf.
  rewrite pendingb_added by (by rewrite Hh). pose proof (pend_less A (remoteHeadKey (d_Head item)) pre). pose proof (pend_less A (remoteHeadKey (d_Head item)) post). lia.
Qed.

(** Nothing fails: the flush gets through every pending item, once. *)
Lemma flush_loop_forced env fuel : (forall n, t_ctx (env n) = None /\ t_io (env n) = Persisted) ->
  forall n A report q w, q_closed q = false -> Forall (head_text ∘ d_Head) (q_items q) -> NoDup ((remoteHeadKey ∘ d_Head) <$> q_items q) -> (pend A (q_items q) < fuel)%nat ->
  exists report' q' w', flush_loop policy marshal_state error_text fuel env n true A report q w = Some (report', None, q', w') /\
    fr_Attempted report' = fr_Attempted report + Z.of_nat (pend A (q_items q)) /\ length (q_items q') = length (q_items q) /\
    forall i item, q_items q !! i = Some item -> exists item', q_items q' !! i = Some item' /\ d_Head item' = d_Head item /\
      if pendingb A item then d_Attempts item' = d_Attempts item + 1 else item' = item.
Proof.
  intros Henv. induction fuel as [|fuel IH]; intros n A report q w Hcl Htx Hnd Hf; [lia|]. cbn [flush_loop]. cbv zeta. destruct (Henv n) as [-> ->].
  unfold nextDue. rewrite Hcl. destruct (find_due 0 true (t_pick (env n)) A (q_items q)) as [[i picked]|] eqn:En.
  2: { apply find_due_none in En. exists report, q, w. rewrite En. split_and!; [done|lia|done|]. intros i item Hi. exists item. split; [done|]. split; [done|].
       assert (pendingb A item = false) as ->; [|done]. clear - En Hi. revert i Hi. induction (q_items q) as [|x l IH]; intros i Hi; [done|]. cbn [pend] in En.
       destruct (pendingb A x) eqn:Ex; [lia|]. destruct i as [|i]; [by injection Hi as ->|]. by eapply IH. }
  apply find_due_spec in En as (pre & item & post & Eq & -> & -> & Hp). pose proof Htx as Htx'. rewrite Eq in Htx'.
  apply Forall_app in Htx' as [Ht1 [Ht2 Ht3]%Forall_cons]. cbn [cloneRemoteDelivery d_Head]. rewrite (clone_head_text (d_Head item)) by done.
  destruct (Threshold_Anchor policy (d_Head item) w) as [[receipts err] w1]. rewrite Nat.add_0_l, (record_picked _ _ pre item post) by done.
  pose proof (attempt_item_facts (q_config q) w1 item receipts err (t_now1 (env n)) (t_now2 (env n))) as (Hh & Hat & _). destruct (attempt_item _ _ _ _ _ _ _ _ _) as [current failure]. cbn [fst] in Hh, Hat.
  change (persistLocked marshal_state q (pre ++ current :: post) Persisted) with (@None ev_error, Some (marshal_state (mkQueueState AgentRemoteQueueVersion (cloneRemoteDelivery <$> (pre ++ current :: post))))). cbv beta iota.
  set (key := remoteHeadKey (d_Head item)) in *. rewrite Eq in Hnd. rewrite fmap_app, fmap_cons in Hnd.
  assert (forall x, x ∈ pre \/ x ∈ post -> remoteHeadKey (d_Head x) <> key) as Hne.
  { intros x Hx E. apply NoDup_app in Hnd as (_ & Hd & Hn). apply NoDup_cons in Hn as [Hn _]. destruct Hx as [Hx|Hx].
    - apply (Hd (remoteHeadKey (d_Head x))); [apply list_elem_of_fmap; by exists x|]. rewrite E. by left.
    - apply Hn. apply list_elem_of_fmap. exists x. done. }
  assert (pendingb ({[key]} ∪ A) current = false) as Hcur by (apply pendingb_added; by rewrite Hh).
  assert (pend A (q_items q) = S (pend ({[key]} ∪ A) (pre ++ current :: post))) as Epend.
  { rewrite Eq, !pend_app. cbn [pend]. rewrite Hp, Hcur, (pend_ext ({[key]} ∪ A) A pre), (pend_ext ({[key]} ∪ A) A post); [lia|intros x Hx; apply pendingb_other; auto..]. }
  match goal with |- context [flush_loop _ _ _ fuel env (S n) true _ ?rep ?q1 w1] => destruct (IH (S n) ({[key]} ∪ A) rep q1 w1) as (report' & q' & w' & E & Ea & El & Hall) end.
  { done. } { cbn [q_items]. apply Forall_app. split; [done|]. apply Forall_cons. cbn. by rewrite Hh. } { cbn [q_items]. rewrite fmap_app, fmap_cons. unfold compose in *. by rewrite Hh. } { cbn [q_items]. lia. }
  exists report', q', w'. split; [exact E|]. cbn [q_items] in Ea, El, Hall. split; [rewrite Ea, Epend; destruct failure; cbn [fr_Attempted]; lia|].
  split; [rewrite El, Eq, !length_app; done|]. intros i x Hi. rewrite Eq in Hi. destruct (decide (i = length pre)) as [->|Hi'].
  - rewrite lookup_app_r, Nat.sub_diag in Hi by lia. injection Hi as <-. destruct (Hall (length pre) current) as (y & Hy & Hyh & Hyc); [by rewrite lookup_app_r, Nat.sub_diag by lia|].
    rewrite Hcur in Hyc. subst y. exists current. by rewrite Hp.
  - assert (x ∈ pre \/ x ∈ post) as Hin.
    { apply lookup_app_Some in Hi as [Hi|[Hge Hi]]; [left; by eapply list_elem_of_lookup_2|]. right. destruct (i - length pre)%nat as [|k] eqn:Ek; [lia|]. by eapply list_elem_of_lookup_2. }
    rewrite <- (pendingb_other A item x) by (by apply Hne). apply Hall. rewrite <- Hi.
    destruct (decide (i < length pre)%nat); [by rewrite !lookup_app_l by lia|]. rewrite !lookup_app_r by lia. by destruct (i - length pre)%nat as [|k] eqn:Ek; [lia|].
Qed.

End Flush.

End EvidenceQueueProofs.
