(* ===== verification/EvidenceQueueClaims.v ===== *)
(** * The queue of remote anchors keeps what it accepted
    (evidencebinding/agent_remote_queue.go)

    Any interleaving of calls, a flush in progress, failed writes and restarts:
    every accepted head stays queued and the file, unless a write lost it, stays
    loadable.  A flush ends and attempts each pending head once, and the delays
    between attempts double up to their maximum. *)

From S2P Require Import Prelude GoStrings Sha256 GoEncoding AuthProof AuthClaims Evidence EvidenceProofs EvidenceLedger EvidenceJournal EvidenceJournalClaims EvidenceQueue EvidenceQueueProofs.

Module EvidenceQueueClaims.
Import GoStrings Sha256 GoEncoding AuthProof AuthClaims Evidence EvidenceProofs EvidenceLedger EvidenceJournal EvidenceJournalClaims EvidenceQueue EvidenceQueueProofs.

#[local] Existing Instance latin1_tables.

(** ** Interleavings *)

(** Where the one flush at a time stands: idle, an item picked, its providers
    asked. *)
Inductive flight : Type :=
| Idle
| Picked (index : nat) (head : Head)
| Answered (index : nat) (head : Head) (receipts : list AnchorReceipt) (err : option (ev_error * list (bytes * ev_error))).

Section Steps.
Context `{UnicodeTables} {W : Type} (policy : AnchorThresholdPolicy W).
Context (marshal_state : agentRemoteQueueState -> bytes) (decode_state : bytes -> option agentRemoteQueueState).
Context (error_text : option (ev_error * list (bytes * ev_error)) -> ev_error -> bytes).

(** The queue, the providers' world, the flush, and the heads accepted so far. *)
Record system := mkSystem {
  y_queue : AgentRemoteAnchorQueue;
  y_world : W;
  y_flight : flight;
  y_accepted : list Head
}.

(** The write removed the old file and could not put the new one in its place. *)
Definition loses_file (h : persist_host) : Prop := ph_rename h = false /\ ph_remove h <> RemoveFailed /\ ph_retry h = false.

Lemma persistLocked_file q items h err file : persistLocked marshal_state q items h = (err, file) ->
  (file = Some (marshal_state (mkQueueState AgentRemoteQueueVersion (cloneRemoteDelivery <$> items)))) \/
  (err <> None /\ (file = q_file q \/ file = None /\ loses_file h)).
Proof.
  unfold loses_file, persistLocked, persistState. destruct (ph_nolink h), (ph_open h), (ph_write h), (ph_sync h), (ph_close h); cbn [negb orb]; try (intros [= <- <-]; by auto).
  destruct (ph_rename h), (ph_remove h), (ph_retry h); intros [= <- <-]; by auto 10.
Qed.

Inductive step : system -> system -> Prop :=
| step_enqueue q w f acc head now io err q' : head_text head -> second <= now -> 0 <= h_Sequence head < 2 ^ 64 ->
    Enqueue marshal_state q head now io = (err, q') ->
    step (mkSystem q w f acc) (mkSystem q' w f (match err with None => head :: acc | Some _ => acc end))
| step_pick q w acc force now attempted index item :
    nextDue q force now attempted = Some (index, item) -> step (mkSystem q w Idle acc) (mkSystem q w (Picked index (d_Head item)) acc)
| step_anchor q w w' acc index head receipts err :
    Threshold_Anchor policy head w = (receipts, err, w') -> step (mkSystem q w (Picked index head) acc) (mkSystem q w' (Answered index head receipts err) acc)
| step_record q w acc index head receipts err now1 now2 io q' failure perr :
    record_attempt policy marshal_state error_text q w index head receipts err now1 now2 io = Some (q', failure, perr) ->
    step (mkSystem q w (Answered index head receipts err) acc) (mkSystem q' w Idle acc)
| step_gone q w acc index head receipts err now1 now2 io :
    record_attempt policy marshal_state error_text q w index head receipts err now1 now2 io = None ->
    step (mkSystem q w (Answered index head receipts err) acc) (mkSystem q w Idle acc)
| step_world q w w' f acc : step (mkSystem q w f acc) (mkSystem q w' f acc)
| step_close q w f acc : step (mkSystem q w f acc) (mkSystem (Queue_Close q) w f acc)
| step_restart q w f acc io q' : q_file q <> None ->
    load marshal_state decode_state (mkQueue (q_config q) [] false (q_file q)) io = Ok q' -> step (mkSystem q w f acc) (mkSystem q' w Idle acc).

Definition heads (items : list AgentRemoteDelivery) : list Head := d_Head <$> items.

(** What the flush holds is still in the queue, and not delivered. *)
Definition held (items : list AgentRemoteDelivery) (i : nat) (h : Head) : Prop :=
  exists item, items !! i = Some item /\ d_Head item = h /\ d_DeliveredAtUnix item <= 0.
Definition flight_ok (items : list AgentRemoteDelivery) (f : flight) : Prop :=
  match f with
  | Idle => True
  | Picked i h => held items i h
  | Answered i h receipts _ => held items i h /\ Forall (receipt_for h) receipts /\ Forall receipt_text receipts
  end.

Record inv (s : system) : Prop := {
  inv_items : items_ok policy (q_items (y_queue s));
  inv_flight : flight_ok (q_items (y_queue s)) (y_flight s);
  inv_accepted : forall h, h ∈ y_accepted s -> h ∈ heads (q_items (y_queue s));
  inv_file : q_file (y_queue s) = None \/
    exists items, q_file (y_queue s) = Some (marshal_state (mkQueueState AgentRemoteQueueVersion (cloneRemoteDelivery <$> items))) /\
      items_ok policy items /\ forall h, h ∈ heads (q_items (y_queue s)) -> h ∈ heads items
}.

(** What [encoding/json] documents: a state comes back with its strings made
    valid UTF-8. *)
Definition json_state (s : agentRemoteQueueState) : agentRemoteQueueState :=
  mkQueueState (json_text (st_Version s)) (cloneRemoteDelivery <$> st_Items s).

Context (Hpos : 0 < tp_threshold policy) (Hdecode : forall s, decode_state (marshal_state s) = Some (json_state s)) (Htext : text_providers policy).

Lemma load_file config items io : items_ok policy items ->
  exists items', load marshal_state decode_state (mkQueue config [] false (Some (marshal_state (mkQueueState AgentRemoteQueueVersion (cloneRemoteDelivery <$> items))))) io =
    Ok (mkQueue config items' false (Some (marshal_state (mkQueueState AgentRemoteQueueVersion (cloneRemoteDelivery <$> items))))) /\
    items_ok policy items' /\ heads items' = heads items.
Proof.
  intros Hok. destruct (clone_items_ok policy items Hok) as [Hok1 E1]. destruct (clone_items_ok policy _ Hok1) as [Hok2 E2].
  exists (cloneRemoteDelivery <$> (cloneRemoteDelivery <$> items)). unfold heads. rewrite E2, E1. split; [|done].
  unfold load. cbn [q_file]. rewrite Hdecode. unfold json_state. cbn [st_Version st_Items].
  replace (json_text AgentRemoteQueueVersion) with AgentRemoteQueueVersion by (by vm_compute). rewrite str_eqb_refl. cbn [negb].
  by rewrite (check_items_ok policy _ Hpos Hok2 ∅) by set_solver.
Qed.

(** ** The invariant, step by step *)

Lemma flight_ok_app items more f : flight_ok items f -> flight_ok (items ++ more) f.
Proof.
  assert (forall i h, held items i h -> held (items ++ more) i h) as Hh; [|destruct f; cbn; naive_solver].
  intros i h (item & Hi & ?). exists item. split; [by apply lookup_app_l_Some|done].
Qed.

Lemma new_item_ok head now : valid_head head -> head_text head -> second <= now -> item_ok policy (mkDelivery AgentRemoteQueueVersion head [] (Unix now) 0 0 (Unix now) 0 []).
Proof.
  intros Hv Ht Hn. split; cbn; [done| |done|constructor|lia|done|constructor]. unfold Unix.
  assert (1 <= now / second) by (apply Z.div_le_lower_bound; unfold second in *; lia). lia.
Qed.

Lemma inv_enqueue q w f acc head now io err q' : head_text head -> second <= now -> 0 <= h_Sequence head < 2 ^ 64 -> Enqueue marshal_state q head now io = (err, q') ->
  inv (mkSystem q w f acc) -> inv (mkSystem q' w f (match err with None => head :: acc | Some _ => acc end)).
Proof.
  intros Hht Hn Hs E [[Hall Hnd] Hf Ha Hfile]. cbn [y_queue y_flight y_accepted] in *. unfold Enqueue in E.
  destruct (NewAnchorStatement head) as [a|e] eqn:Eh; [|injection E as <- <-; split; [done|done|done|done]].
  destruct (q_closed q); [injection E as <- <-; split; [done|done|done|done]|].
  destruct (existsb _ (q_items q)) eqn:Ex.
  { injection E as <- <-. split; [done|done| |done]. cbn. intros h [-> |Hh]%elem_of_cons; [|by apply Ha].
    apply existsb_exists in Ex as (x & Hx & Ex). apply bool_decide_eq_true in Ex as <-. apply list_elem_of_fmap. exists x. split; [done|]. by apply list_elem_of_In. }
  set (item := mkDelivery AgentRemoteQueueVersion head [] (Unix now) 0 0 (Unix now) 0 []) in *.
  assert (items_ok policy (q_items q ++ [item])) as Hnew.
  { split; [apply Forall_app; split; [done|apply Forall_singleton; apply new_item_ok; [split; [by rewrite Eh|done]|done|done]]|]. rewrite fmap_app. apply NoDup_app. split; [done|].
    split; [|apply NoDup_singleton]. intros h Hh ->%list_elem_of_singleton. apply list_elem_of_fmap in Hh as (x & Ehx & Hx). apply not_true_iff_false in Ex. apply Ex.
    apply existsb_exists. exists x. split; [by apply list_elem_of_In|]. apply bool_decide_eq_true. done. }
  assert (forall h, h ∈ heads (q_items q) -> h ∈ heads (q_items q ++ [item])) as Hmore by (intros h Hh; unfold heads; rewrite fmap_app; set_solver).
  destruct (persistLocked marshal_state q (q_items q ++ [item]) io) as [[e|] file] eqn:Ep; injection E as <- <-; apply persistLocked_file in Ep.
  2: { destruct Ep as [->|[? _]]; [|done]. split; [done| | |]; cbn [y_queue q_items y_flight y_accepted q_file].
    + by apply flight_ok_app.
    + intros h [-> |Hh]%elem_of_cons; [|by apply Hmore, Ha]. unfold heads. rewrite fmap_app. apply elem_of_app. right. by left.
    + right. by exists (q_items q ++ [item]). }
  split; [done|done|done|]. cbn [y_queue q_items q_file]. destruct Ep as [->|[_ [->|[-> _]]]]; [right; by exists (q_items q ++ [item])|done|by left].
Qed.

Lemma inv_record q w acc index head receipts err now1 now2 io q' failure perr :
  record_attempt policy marshal_state error_text q w index head receipts err now1 now2 io = Some (q', failure, perr) ->
  inv (mkSystem q w (Answered index head receipts err) acc) -> inv (mkSystem q' w Idle acc).
Proof.
  intros E [[Hall Hnd] [(it & Hit & Hith & Hitd) [Hr Hrt]] Ha Hfile]. cbn [y_queue y_flight y_accepted] in *. unfold record_attempt in E.
  destruct (q_items q !! index) as [item|] eqn:Ei; [|done]. destruct (bool_decide_reflect (d_Head item = head)) as [<-|]; [|done]. cbn [negb] in E.
  pose proof (attempt_item_facts policy error_text (q_config q) w item receipts err now1 now2) as (Hh & _ & Hv & He & Hrc & Hd).
  destruct (attempt_item _ _ _ _ _ _ _ _ _) as [current fl]. cbn [fst] in *. set (items' := <[index := current]> (q_items q)) in *.
  assert (heads items' = heads (q_items q)) as Ehd.
  { unfold items', heads. rewrite list_fmap_insert, Hh. apply list_insert_id. by rewrite list_lookup_fmap, Ei. }
  destruct (Forall_lookup_1 _ _ _ _ Hall Ei) as [Iv Ie Ih Ir Id It Irt].
  assert (items_ok policy items') as Hok.
  { split; [|by fold (heads items'); rewrite Ehd]. apply Forall_insert; [done|]. split; rewrite ?Hv, ?He, ?Hh; [done|done|done| | |done|].
    - rewrite Hrc. apply Forall_forall. intros r [Hin|Hin]%merge_elem; [by rewrite Forall_forall in Ir; apply Ir|by rewrite Forall_forall in Hr; apply Hr].
    - intros Hdel. destruct Hd as [Ed|Hd]; [|done]. rewrite Ed in Hdel. simplify_eq. lia.
    - rewrite Hrc. apply Forall_forall. intros r [Hin|Hin]%merge_elem; [by rewrite Forall_forall in Irt; apply Irt|by rewrite Forall_forall in Hrt; apply Hrt]. }
  destruct (persistLocked marshal_state q items' io) as [e file] eqn:Ep. apply persistLocked_file in Ep. injection E as <- _ _.
  split; cbn [y_queue y_flight y_accepted q_items q_file]; [done|done|by rewrite Ehd|]. destruct Ep as [->|[_ [->|[-> _]]]]; [right; by exists items'|by rewrite Ehd|by left].
Qed.

Lemma inv_step s s' : step s s' -> inv s -> inv s'.
Proof.
  intros Hstep. destruct Hstep as [q w f acc head now io err q' Hio Hn Hs E|q w acc force now attempted index item E|q w w' acc index head receipts err E
    |q w acc index head receipts err now1 now2 io q' failure perr E|q w acc index head receipts err now1 now2 io E|q w w' f acc|q w f acc|q w f acc io q' Hio E].
  - by eapply inv_enqueue.
  - intros [H1 H2 H3 H4]. split; [done| |done|done]. cbn. unfold nextDue in E. destruct (q_closed q); [done|]. apply find_due_spec in E as (pre & it & post & Eq & -> & -> & Hp). exists it.
    cbn in Eq, H1. rewrite Eq, lookup_app_r, Nat.add_0_l, Nat.sub_diag by lia. split; [done|].
    destruct H1 as [H1 _]. rewrite Eq in H1. apply Forall_app in H1 as [_ [H1 _]%Forall_cons]. split; [by symmetry; apply (clone_item_ok policy)|].
    unfold pendingb in Hp. destruct (Z.ltb_spec 0 (d_DeliveredAtUnix it)); [done|lia].
  - intros [H1 H2 H3 H4]. split; [done| |done|done]. cbn in *. split; [done|].
    pose proof (Threshold_Anchor_receipts policy head w) as Hr. assert (head_text head) as Hht.
    { destruct H2 as (it & Hi & <- & _), H1 as [H1 _]. by destruct (Forall_lookup_1 _ _ _ _ H1 Hi). }
    pose proof (Threshold_Anchor_text policy head w Htext Hht) as Hrt. by rewrite E in Hr, Hrt.
  - by eapply inv_record.
  - intros [H1 H2 H3 H4]. by split.
  - intros [H1 H2 H3 H4]. by split.
  - intros [H1 H2 H3 H4]. by split.
  - intros [H1 H2 H3 [?|(items & Ef & Hi & Hsub)]]; [done|]. cbn [y_queue] in *. destruct (load_file (q_config q) items io Hi) as (items' & El & Hi' & Eh).
    rewrite Ef, El in E. injection E as <-. split; cbn [y_queue y_flight y_accepted q_items q_file flight_ok]; [done|done| |right; exists items; by rewrite Eh]. intros h Hh. rewrite Eh. by apply Hsub, H3.
Qed.

Lemma inv_open config (providers : list (AnchorProvider W)) w q : OpenAgentRemoteAnchorQueue marshal_state decode_state config providers None Persisted = Ok q -> inv (mkSystem q w Idle []).
Proof.
  unfold OpenAgentRemoteAnchorQueue. destruct (len providers =? 0); [done|]. intros [= <-]. assert (items_ok policy []) as Hnil by (split; [constructor|apply NoDup_nil_2]).
  split; cbn; [done|done|intros h Hh; by apply elem_of_nil in Hh|]. right. by exists [].
Qed.

End Steps.
(** C18: an accepted head is never lost and never taken for delivered too early:
    in every state reachable from a new queue, with calls, an attempt in
    progress, providers, failed writes and restarts that find the file
    interleaved in any way, the heads are distinct and include all those
    accepted, an item counts as delivered only if the policy accepted its
    receipts, an attempt's result finds its item, and opening the file, if it is
    there, gives a queue with every accepted head.  A write takes the file away
    only when it removed the old file and both of its renames failed.  The
    heads handed in and the receipts of the providers are valid UTF-8; JSON
    gives back any other string changed. *)
Theorem queue_durable `{UnicodeTables} {W : Type} (policy : AnchorThresholdPolicy W) marshal_state decode_state error_text
    (config : AgentRemoteQueueConfig) (providers : list (AnchorProvider W)) (q0 : AgentRemoteAnchorQueue) (w : W) (s : system) :
  0 < tp_threshold policy -> text_providers policy -> (forall st, decode_state (marshal_state st) = Some (json_state st)) ->
  OpenAgentRemoteAnchorQueue marshal_state decode_state config providers None Persisted = Ok q0 ->
  rtc (step policy marshal_state decode_state error_text) (mkSystem q0 w Idle []) s ->
  let items := q_items (y_queue s) in
  NoDup (heads items) /\ (forall h, h ∈ y_accepted s -> h ∈ heads items) /\
  (forall item, item ∈ items -> 0 < d_DeliveredAtUnix item -> accepted_by policy (d_Head item) (d_Receipts item)) /\
  (forall index head receipts err now1 now2 io, y_flight s = Answered index head receipts err ->
     record_attempt policy marshal_state error_text (y_queue s) (y_world s) index head receipts err now1 now2 io <> None) /\
  (forall io, q_file (y_queue s) <> None ->
     exists q', load marshal_state decode_state (mkQueue (q_config (y_queue s)) [] false (q_file (y_queue s))) io = Ok q' /\
       forall h, h ∈ y_accepted s -> h ∈ heads (q_items q')) /\
  (forall io items', q_file (y_queue s) <> None -> (persistLocked marshal_state (y_queue s) items' io).2 = None -> loses_file io).
Proof.
  intros Hpos Htext Hdec Hopen Hrun. assert (inv policy marshal_state s) as [[Hall Hnd] Hf Ha Hfile].
  { apply (inv_open policy _ _ _ _ w) in Hopen. induction Hrun as [|x y z Hxy _ IH]; [done|]. by eapply IH, inv_step. }
  cbv zeta. split; [done|]. split; [done|]. split; [|split; [|split]].
  - intros item Hin. rewrite Forall_forall in Hall. by apply Hall.
  - intros index head receipts err now1 now2 io Efl. rewrite Efl in Hf. destruct Hf as [(item & Eit & <- & _) _]. unfold record_attempt. rewrite Eit, bool_decide_true by done. cbn [negb].
    destruct (attempt_item _ _ _ _ _ _ _ _ _). by destruct (persistLocked _ _ _ _).
  - intros io Hne. destruct Hfile as [?|(items & Ef & Hi & Hsub)]; [done|].
    destruct (load_file policy marshal_state decode_state Hpos Hdec Htext (q_config (y_queue s)) items io Hi) as (items' & El & _ & Eh).
    rewrite Ef, El. eexists. split; [done|]. intros h Hh. cbn [q_items]. rewrite Eh. by apply Hsub, Ha.
  - intros io items' Hne Hnone. destruct (persistLocked marshal_state (y_queue s) items' io) as [e file] eqn:Ep. cbn in Hnone. subst file.
    apply persistLocked_file in Ep as [?|[_ [Ep|[_ Ep]]]]; [done|by rewrite <- Ep in Hne|done].
Qed.

(** When both renames fail the file is gone, and a restart finds nothing. *)
Lemma failed_rename_loses_queue `{UnicodeTables} marshal_state decode_state (q : AgentRemoteAnchorQueue) (head : Head) (now : Z) :
  is_ok (NewAnchorStatement head) = true -> q_closed q = false -> head ∉ heads (q_items q) ->
  let q' := (Enqueue marshal_state q head now (mkPersist true true true true true false Removed false true)).2 in
  q_items q' = q_items q /\ load marshal_state decode_state (mkQueue (q_config q') [] false (q_file q')) Persisted =
    Ok (mkQueue (q_config q) [] false (Some (marshal_state (mkQueueState AgentRemoteQueueVersion [])))).
Proof.
  intros Hh Hc Hn. unfold Enqueue. destruct (NewAnchorStatement head); [|done]. rewrite Hc.
  assert (existsb (fun item => bool_decide (d_Head item = head)) (q_items q) = false) as ->; [|done].
  apply not_true_is_false. intros Hx. apply existsb_exists in Hx as (x & Hx & E). apply bool_decide_eq_true in E. apply Hn. apply list_elem_of_fmap. exists x. split; [done|]. by apply list_elem_of_In.
Qed.

(** ** A concrete queue *)

#[local] Instance head_countable : Countable Head :=
  inj_countable' (fun h => (h_StreamID h, h_Sequence h, h_StatementSHA256 h)) (fun '(a, b, c) => mkHead a b c) ltac:(by intros []).
#[local] Instance anchor_countable : Countable AnchorStatement :=
  inj_countable' (fun a => (a_Version a, a_StreamID a, a_Sequence a, a_StatementSHA256 a)) (fun '(a, b, c, d) => mkAnchor a b c d) ltac:(by intros []).
#[local] Instance receipt_countable : Countable AnchorReceipt :=
  inj_countable' (fun r => (rc_Version r, rc_Provider r, rc_Statement r, rc_ExternalID r, rc_ProofSHA256 r, rc_Committed r, rc_BlockNumber r))
    (fun '(a, b, c, d, e, f, g) => mkReceipt a b c d e f g) ltac:(by intros []).
#[local] Instance delivery_eq_dec : EqDecision AgentRemoteDelivery.
Proof. solve_decision. Defined.
#[local] Instance delivery_countable : Countable AgentRemoteDelivery :=
  inj_countable' (fun d => (d_Version d, d_Head d, d_Receipts d, d_EnqueuedAtUnix d, d_Attempts d, d_LastAttemptUnix d, d_NextAttemptUnix d, d_DeliveredAtUnix d, d_LastError d))
    (fun '(a, b, c, d, e, f, g, h, i) => mkDelivery a b c d e f g h i) ltac:(by intros []).
#[local] Instance state_eq_dec : EqDecision agentRemoteQueueState.
Proof. solve_decision. Defined.
#[local] Instance state_countable : Countable agentRemoteQueueState :=
  inj_countable' (fun s => (st_Version s, st_Items s)) (fun '(a, b) => mkQueueState a b) ltac:(by intros []).

Definition demo_marshal (s : agentRemoteQueueState) : bytes := [Z.pos (encode (json_state s))].
Definition demo_unmarshal (b : bytes) : option agentRemoteQueueState := match b with [Z.pos p] => decode p | _ => None end.

Lemma demo_marshal_law s : demo_unmarshal (demo_marshal s) = Some (json_state s).
Proof. unfold demo_unmarshal, demo_marshal. apply countable.decode_encode. Qed.

Definition demo_queue : AgentRemoteAnchorQueue :=
  mkQueue (normalize_config (mkQueueConfig 0 0 0)) [] false (Some (demo_marshal (mkQueueState AgentRemoteQueueVersion []))).
Definition demo_text (err : option (ev_error * list (bytes * ev_error))) (e : ev_error) : bytes := str "failed".

Lemma demo_head_text : head_text demo_head.
Proof. split; apply text_okb_ok; vm_compute; reflexivity. Qed.

(** A policy with one provider that anchors only the one head. *)
Definition choosy_provider : AnchorProvider (list Head) := mkProvider (str "local")
  (fun w head => if bool_decide (head = demo_head) then ap_Anchor demo_provider w head else (Err ErrInvalidAnchor, w)) (ap_Verify demo_provider).
Definition choosy_policy : AnchorThresholdPolicy (list Head) := mkPolicy {[str "local" := choosy_provider]} 1.

Definition receipt_textb (r : AnchorReceipt) : bool :=
  forallb text_okb [rc_Version r; rc_Provider r; a_Version (rc_Statement r); a_StreamID (rc_Statement r); a_StatementSHA256 (rc_Statement r);
    rc_ExternalID r; rc_ProofSHA256 r].
Lemma receipt_textb_ok r : receipt_textb r = true -> receipt_text r.
Proof. unfold receipt_textb, receipt_text. rewrite forallb_forall. intros Hr. apply Forall_forall. intros x Hx%list_elem_of_In. by apply text_okb_ok, Hr. Qed.

Lemma choosy_text_providers : text_providers choosy_policy.
Proof.
  intros name provider w head r w' Hp _ Ha. cbn [choosy_policy tp_providers] in Hp. apply lookup_singleton_Some in Hp as [_ <-]. revert Ha. cbn [choosy_provider ap_Anchor].
  destruct (bool_decide_reflect (head = demo_head)) as [->|]; [|done]. intros Ha. apply receipt_textb_ok.
  assert (match (ap_Anchor demo_provider w demo_head).1 with Ok r => receipt_textb r | Err _ => true end = true) as Hb by (vm_compute; reflexivity).
  by rewrite Ha in Hb.
Qed.

Lemma queue_durable_witness : let q := (Enqueue demo_marshal demo_queue demo_head (100 * second) Persisted).2 in
  exists q', load demo_marshal demo_unmarshal (mkQueue (q_config q) [] false (q_file q)) Persisted = Ok q' /\ demo_head ∈ heads (q_items q').
Proof.
  cbv zeta. destruct (Enqueue demo_marshal demo_queue demo_head (100 * second) Persisted) as [err q] eqn:E. cbn [snd].
  assert (err = None) as -> by (change err with (err, q).1; rewrite <- E; vm_compute; reflexivity).
  destruct (queue_durable choosy_policy demo_marshal demo_unmarshal demo_text (mkQueueConfig 0 0 0) [choosy_provider] demo_queue []
    (mkSystem q [] Idle [demo_head])) as (_ & _ & _ & _ & Hload & _).
  - reflexivity.
  - exact choosy_text_providers.
  - exact demo_marshal_law.
  - reflexivity.
  - apply rtc_once. apply (step_enqueue _ _ _ _ demo_queue [] Idle [] demo_head (100 * second) Persisted None q); [exact demo_head_text|unfold second; lia|cbn; lia|exact E].
  - assert (match q_file q with None => false | Some _ => true end = true) as Hfile by (change q with (@None ev_error, q).2; rewrite <- E; vm_compute; reflexivity).
    destruct (Hload Persisted) as (q' & El & Hq'); [by cbn; intros Hn; rewrite Hn in Hfile|exists q']. split; [exact El|]. apply Hq'. by left.
Defined.

(** ** Flushes and delays *)

(** C37: a forced flush does what it says: when no call fails and the heads are
    valid UTF-8 it comes to an end, having attempted every pending head exactly
    once, whatever the providers answer; delivered items are not touched and
    nothing is moved or removed. *)
Theorem flush_each_once `{UnicodeTables} {W : Type} (policy : AnchorThresholdPolicy W) marshal_state error_text (env : nat -> tick) (q : AgentRemoteAnchorQueue) (w : W) :
  (forall n, t_ctx (env n) = None /\ t_io (env n) = Persisted) -> q_closed q = false ->
  items_ok policy (q_items q) ->
  exists report q' w', Flush policy marshal_state error_text env true q w = Some (report, None, q', w') /\
    fr_Attempted report = Z.of_nat (pend ∅ (q_items q)) /\ heads (q_items q') = heads (q_items q) /\
    forall i item, q_items q !! i = Some item -> exists item', q_items q' !! i = Some item' /\
      if 0 <? d_DeliveredAtUnix item then item' = item else d_Attempts item' = d_Attempts item + 1.
Proof.
  intros Henv Hcl [Hall Hnd]. assert (NoDup ((remoteHeadKey ∘ d_Head) <$> q_items q)) as Hk.
  { clear - Hall Hnd. induction (q_items q) as [|x l IH]; [constructor|]. apply Forall_cons in Hall as [Hx Hall]. rewrite fmap_cons in *. apply NoDup_cons in Hnd as [Hn Hnd].
    apply NoDup_cons. split; [|by apply IH]. intros Hin. apply list_elem_of_fmap in Hin as (y & E & Hy). apply remoteHeadKey_inj in E; [|apply Hx|by rewrite Forall_forall in Hall; apply Hall].
    apply Hn. rewrite E. apply list_elem_of_fmap. by exists y. }
  assert (Forall (head_text ∘ d_Head) (q_items q)) as Htx by (eapply Forall_impl; [exact Hall|]; by intros x [_ _ _ _ _ Ht _]).
  destruct (flush_loop_forced policy marshal_state error_text env (S (length (q_items q))) Henv 0 ∅ (mkFlush 0 0 ∅) q w Hcl Htx Hk) as (report & q' & w' & E & Ea & El & Hi).
  { pose proof (pend_le ∅ (q_items q)). lia. }
  exists report, q', w'. split; [exact E|]. split; [rewrite Ea; cbn; lia|]. split.
  - unfold heads. apply list_eq_same_length with (n := length (q_items q)); [by rewrite length_fmap|by rewrite length_fmap|]. intros i x y _ Hx Hy.
    rewrite list_lookup_fmap in Hx, Hy. destruct (q_items q !! i) as [b|] eqn:Eb; [|done]. destruct (Hi i b Eb) as (a & Ea' & Eh & _). rewrite Ea' in Hx. cbn in *. congruence.
  - intros i item Hit. destruct (Hi i item Hit) as (item' & E' & _ & Hp). exists item'. split; [done|]. unfold pendingb in Hp. destruct (0 <? d_DeliveredAtUnix item); [done|].
    by rewrite bool_decide_false in Hp by set_solver.
Qed.

Lemma flush_each_once_witness : exists report q' w',
  Flush demo_policy demo_marshal demo_text (fun _ => mkTick (100 * second) None (100 * second) (101 * second) Persisted) true
    (mkQueue (normalize_config (mkQueueConfig 0 0 0)) [mkDelivery AgentRemoteQueueVersion demo_head [] 100 0 0 100 0 []] false None) [] = Some (report, None, q', w') /\ fr_Attempted report = 1.
Proof.
  destruct (flush_each_once demo_policy demo_marshal demo_text (fun _ => mkTick (100 * second) None (100 * second) (101 * second) Persisted)
    (mkQueue (normalize_config (mkQueueConfig 0 0 0)) [mkDelivery AgentRemoteQueueVersion demo_head [] 100 0 0 100 0 []] false None) []) as (report & q' & w' & E & Ea & _).
  - intros n. split; reflexivity.
  - reflexivity.
  - split; [|apply NoDup_singleton]. apply Forall_singleton. apply (new_item_ok demo_policy demo_head (100 * second)); [split; [vm_compute; reflexivity|cbn; lia]|exact demo_head_text|unfold second; lia].
  - exists report, q', w'. split; [exact E|]. rewrite Ea. vm_compute. reflexivity.
Defined.

(** A head that is not valid UTF-8 is attempted for ever: what was attempted is
    recorded under the key of the copy, and the result never finds the item. *)
Lemma flush_spins `{UnicodeTables} {W : Type} (policy : AnchorThresholdPolicy W) marshal_state error_text (env : nat -> tick) config item rest file :
  (forall n, t_ctx (env n) = None) -> d_DeliveredAtUnix item <= 0 -> remoteHeadKey (clone_head (d_Head item)) <> remoteHeadKey (d_Head item) ->
  forall fuel n (A : gset bytes) report w, remoteHeadKey (d_Head item) ∉ A ->
  flush_loop policy marshal_state error_text fuel env n true A report (mkQueue config (item :: rest) false file) w = None.
Proof.
  intros Henv Hd Hk fuel. induction fuel as [|fuel IH]; intros n A report w HA; [done|]. cbn [flush_loop]. cbv zeta.
  assert (nextDue (mkQueue config (item :: rest) false file) true (t_pick (env n)) A = Some (0%nat, cloneRemoteDelivery item)) as ->.
  { unfold nextDue. cbn [q_closed q_items find_due]. by rewrite (proj2 (Z.ltb_ge _ _)), bool_decide_false by done. }
  rewrite Henv. destruct (Threshold_Anchor policy _ w) as [[receipts err] w1].
  unfold record_attempt. cbn [q_items lookup list_lookup cloneRemoteDelivery d_Head]. rewrite bool_decide_false by congruence. cbn [negb].
  apply IH. set_solver.
Qed.

Lemma broken_head_spins : let head := mkHead [255] 1 demo_hash in
  is_ok (NewAnchorStatement head) = true /\ remoteHeadKey (clone_head head) <> remoteHeadKey head.
Proof. split; [vm_compute; reflexivity|vm_compute; discriminate]. Qed.

(** C40: the delay before attempt [n + 1] is the minimum doubled [n - 1] times and
    never more than the maximum, with no overflow on the way. *)
Theorem backoff_exact (config : AgentRemoteQueueConfig) (attempt : Z) :
  0 < qc_MinBackoff config < 2 ^ 63 -> qc_MaxBackoff config < 2 ^ 63 -> 1 <= attempt ->
  backoff config attempt = Z.min (qc_MaxBackoff config) (qc_MinBackoff config * 2 ^ (attempt - 1)).
Proof. intros Hmin Hmax Ha. unfold backoff. apply backoff_loop_spec; [lia| |lia|lia]. cbn. lia. Qed.

Lemma backoff_exact_witness : backoff (normalize_config (mkQueueConfig 0 0 0)) 1000 = 300 * second.
Proof. rewrite (backoff_exact (normalize_config (mkQueueConfig 0 0 0)) 1000); [vm_compute; reflexivity|split; reflexivity|reflexivity|lia]. Defined.

End EvidenceQueueClaims.
