(* ===== verification/SessionLink.v ===== *)
(** * Logical links and their transport generations (sessionlink)

    types.go and manager.go: deriving a link's identity from its signed
    topology, and the manager that publishes one value per link under a lease,
    fencing every operation of a superseded transport by generation. *)

From S2P Require Import Prelude GoStrings Sha256.

Module SessionLink.
Import GoStrings Sha256.

(** ** types.go *)

Definition IDVersion : bytes := str "weaverssh.session-link.v1".
Definition MaxLease : Z := 24 * hour.

Inductive link_error : Type :=
| ErrInvalidDescriptor
| ErrInvalidTransport
| ErrInvalidLease
| ErrNotReady
| ErrGenerationMismatch
| ErrLeaseExpired.

Inductive State : Type := StateDisconnected | StateConnecting | StateReady | StateDraining.

#[global] Instance State_eq_dec : EqDecision State.
Proof. solve_decision. Defined.

Record Descriptor := mkDescriptor {
  d_chain : bytes;
  Topology : list bytes;
  d_local : bytes;
  d_peer : bytes
}.

Record Token := mkToken {
  t_link : bytes;
  t_transport : bytes;
  t_generation : Z
}.

Record Snapshot := mkSnapshot {
  s_version : bytes;
  LinkID : bytes;
  TransportID : bytes;
  Generation : Z;
  LocalNode : bytes;
  PeerNode : bytes;
  st : State;
  LastError : bytes;
  LeaseUntil : Z;
  UpdatedAt : Z
}.

#[global] Instance upd_st : Update st := fun v s =>
  mkSnapshot (s_version s) (LinkID s) (TransportID s) (Generation s) (LocalNode s) (PeerNode s) v
    (LastError s) (LeaseUntil s) (UpdatedAt s).
#[global] Instance upd_LastError : Update LastError := fun v s =>
  mkSnapshot (s_version s) (LinkID s) (TransportID s) (Generation s) (LocalNode s) (PeerNode s) (st s)
    v (LeaseUntil s) (UpdatedAt s).
#[global] Instance upd_LeaseUntil : Update LeaseUntil := fun v s =>
  mkSnapshot (s_version s) (LinkID s) (TransportID s) (Generation s) (LocalNode s) (PeerNode s) (st s)
    (LastError s) v (UpdatedAt s).
#[global] Instance upd_UpdatedAt : Update UpdatedAt := fun v s =>
  mkSnapshot (s_version s) (LinkID s) (TransportID s) (Generation s) (LocalNode s) (PeerNode s) (st s)
    (LastError s) (LeaseUntil s) v.

Definition ReadyAt (s : Snapshot) (now : Z) : bool :=
  bool_decide (st s = StateReady) && negb (IsZero (LeaseUntil s)) && Before now (LeaseUntil s).

Definition no_space_or_control (value : bytes) : bool :=
  forallb (fun r => negb (GoStrings.IsSpace r || IsControl r)) (runes value).

Definition validNode (value : bytes) : bool :=
  if str_eqb value [] || (256 <? len value) then false else no_space_or_control value.

Definition ValidateTransportID (id : bytes) : option link_error :=
  let value := TrimSpace id in
  if (len value <? 8) || (512 <? len value) then Some ErrInvalidTransport else
  if negb (no_space_or_control value) then Some ErrInvalidTransport else None.

Definition validateLease (lease : Z) : option link_error :=
  if (lease <=? 0) || (MaxLease <? lease) then Some ErrInvalidLease else None.

Section Unicode.
Context `{UnicodeTables}.

Definition ValidateID (value : bytes) : option link_error :=
  if negb (len value =? 64) then Some ErrInvalidDescriptor else
  match hex_decode value with
  | None => Some ErrInvalidDescriptor
  | Some _ => if negb (str_eqb value (ToLower value)) then Some ErrInvalidDescriptor else None
  end.

(** The loop over the topology: the trimmed nodes, and the index of each end
    ([-1] while not met). *)
Fixpoint scan_topology (localNode peerNode : bytes) (index : Z) (seen : list bytes) (li pi : Z) (l : list bytes)
    : result link_error (list bytes * Z * Z) :=
  match l with
  | [] => Ok ([], li, pi)
  | rawNode :: r =>
    let node := TrimSpace rawNode in
    if negb (validNode node) || existsb (str_eqb node) seen then Err ErrInvalidDescriptor else
    let li' := if str_eqb node localNode then index else li in
    let pi' := if str_eqb node peerNode then index else pi in
    let* '(rest, li2, pi2) := scan_topology localNode peerNode (index + 1) (node :: seen) li' pi' r in
    Ok (node :: rest, li2, pi2)
  end.

(** The normalised descriptor and the two ends in topology order. *)
Definition normalizeDescriptor (raw : Descriptor) : result link_error (Descriptor * bytes * bytes) :=
  let chain := ToLower (TrimSpace (d_chain raw)) in
  let localNode := TrimSpace (d_local raw) in
  let peerNode := TrimSpace (d_peer raw) in
  if negb (len chain =? 64) then Err ErrInvalidDescriptor else
  match hex_decode chain with
  | None => Err ErrInvalidDescriptor
  | Some decoded =>
    if negb (len decoded =? 32) then Err ErrInvalidDescriptor else
    if negb (validNode localNode) || negb (validNode peerNode) || str_eqb localNode peerNode
    then Err ErrInvalidDescriptor else
    if (len (Topology raw) <? 2) || (1024 <? len (Topology raw)) then Err ErrInvalidDescriptor else
    let* '(topology, localIndex, peerIndex) := scan_topology localNode peerNode 0 [] (-1) (-1) (Topology raw) in
    if (localIndex <? 0) || (peerIndex <? 0) || negb (Z.abs (localIndex - peerIndex) =? 1)
    then Err ErrInvalidDescriptor else
    let '(lower, upper) := if peerIndex <? localIndex then (peerNode, localNode) else (localNode, peerNode) in
    Ok (mkDescriptor chain topology localNode peerNode, lower, upper)
  end.

(** The bytes written to the hash: each value followed by a NUL. *)
Definition id_preimage (chain lower upper : bytes) : bytes :=
  concat ((fun v => v ++ [0]) <$> [IDVersion; chain; lower; upper]).

Definition DeriveID (raw : Descriptor) : result link_error bytes :=
  let* '(descriptor, lower, upper) := normalizeDescriptor raw in
  Ok (sha256_hex (id_preimage (d_chain descriptor) lower upper)).

End Unicode.

(** ** manager.go

    [m.links] is the map; each method runs under the mutex, so it is one
    step, and reads the clock once ([now]) or twice ([now2], in
    [slotLocked]). A nil manager is not modelled. [changed] numbers the
    channel waiters block on: closing it moves to the next number. *)
Record slot (T : Type) := mkSlot {
  snapshot : Snapshot;
  value : T;
  hasValue : bool;
  changed : nat
}.
Arguments mkSlot {T}.
Arguments snapshot {T}.
Arguments value {T}.
Arguments hasValue {T}.
Arguments changed {T}.

(** [err.Error()] of a cause, and its bounded form. *)
Definition maxLastErrorBytes : nat := 4096.
Definition boundedError (err : bytes) : bytes := take maxLastErrorBytes (TrimSpace err).
Definition lease_expired_text : bytes := str "sessionlink: transport lease expired".

Definition matches (s : Snapshot) (t : Token) : bool :=
  str_eqb (LinkID s) (t_link t) && str_eqb (TransportID s) (t_transport t) && (Generation s =? t_generation t).

Section Manager.
Context {T : Type} (zero : T) `{UnicodeTables}.

Abbreviation Manager := (gmap bytes (slot T)).

Definition NewManager : Manager := ∅.

Definition signalLocked (s : slot T) : slot T := mkSlot (snapshot s) (value s) (hasValue s) (S (changed s)).

Definition disconnectLocked (s : slot T) (now : Z) (cause : option bytes) : slot T :=
  let snap := (snapshot s) <| st := StateDisconnected |> <| UpdatedAt := now |>
                <| LastError := match cause with Some c => boundedError c | None => [] end |> in
  signalLocked (mkSlot snap zero false (changed s)).

Definition expireLocked (s : slot T) (now : Z) : slot T :=
  if bool_decide (st (snapshot s) = StateDisconnected) || IsZero (LeaseUntil (snapshot s)) ||
     Before now (LeaseUntil (snapshot s))
  then s else disconnectLocked s now (Some lease_expired_text).

(** Zero of every field the composite literal leaves out. *)
Definition new_slot (id : bytes) (now : Z) : slot T :=
  mkSlot (mkSnapshot IDVersion id [] 0 [] [] StateDisconnected [] time_zero now) zero false 0.

Definition slotLocked (m : Manager) (id : bytes) (now : Z) : slot T :=
  match m !! id with Some s => s | None => new_slot id now end.

Definition Begin (m : Manager) (descriptor : Descriptor) (transportID : bytes) (lease now now2 : Z)
    : result link_error (Token * Snapshot) * Manager :=
  match DeriveID descriptor with Err e => (Err e, m) | Ok id =>
  match ValidateTransportID transportID with Some e => (Err e, m) | None =>
  match validateLease lease with Some e => (Err e, m) | None =>
  match normalizeDescriptor descriptor with Err e => (Err e, m) | Ok (normalized, _, _) =>
  let s := expireLocked (slotLocked m id now2) now in
  let generation := u64 (Generation (snapshot s) + 1) in
  let snap := mkSnapshot IDVersion id (TrimSpace transportID) generation (d_local normalized) (d_peer normalized)
                StateConnecting [] (now + lease) now in
  let s := signalLocked (mkSlot snap zero false (changed s)) in
  (Ok (mkToken id (TransportID snap) generation, snap), <[id := s]> m)
  end end end end.

(** [Ready], [Renew] and [Drain] return the snapshot next to some errors. *)
Definition Ready (m : Manager) (token : Token) (v : T) (now : Z) : option Snapshot * option link_error * Manager :=
  match m !! t_link token with
  | None => (None, Some ErrGenerationMismatch, m)
  | Some s =>
    if negb (matches (snapshot s) token) then (None, Some ErrGenerationMismatch, m) else
    if negb (Before now (LeaseUntil (snapshot s))) then
      let s := disconnectLocked s now (Some lease_expired_text) in
      (Some (snapshot s), Some ErrLeaseExpired, <[t_link token := s]> m) else
    if negb (bool_decide (st (snapshot s) = StateConnecting)) then (Some (snapshot s), Some ErrGenerationMismatch, m) else
    let snap := (snapshot s) <| st := StateReady |> <| LastError := [] |> <| UpdatedAt := now |> in
    (Some snap, None, <[t_link token := signalLocked (mkSlot snap v true (changed s))]> m)
  end.

Definition Publish (m : Manager) (descriptor : Descriptor) (transportID : bytes) (lease : Z) (v : T)
    (now now2 now3 : Z) : result link_error (Token * Snapshot) * Manager :=
  match Begin m descriptor transportID lease now now2 with
  | (Err e, m) => (Err e, m)
  | (Ok (token, _), m) =>
    match Ready m token v now3 with
    | (Some snap, None, m) => (Ok (token, snap), m)
    | (_, Some e, m) => (Err e, m)
    | (None, None, m) => (Err ErrGenerationMismatch, m)
    end
  end.

Definition Renew (m : Manager) (token : Token) (lease now : Z) : option Snapshot * option link_error * Manager :=
  match validateLease lease with Some e => (None, Some e, m) | None =>
  match m !! t_link token with
  | None => (None, Some ErrGenerationMismatch, m)
  | Some s =>
    if negb (matches (snapshot s) token) then (None, Some ErrGenerationMismatch, m) else
    if negb (Before now (LeaseUntil (snapshot s))) then
      let s := disconnectLocked s now (Some lease_expired_text) in
      (Some (snapshot s), Some ErrLeaseExpired, <[t_link token := s]> m) else
    if bool_decide (st (snapshot s) = StateDisconnected) then (Some (snapshot s), Some ErrNotReady, m) else
    let snap := (snapshot s) <| LeaseUntil := now + lease |> <| UpdatedAt := now |> in
    (Some snap, None, <[t_link token := signalLocked (mkSlot snap (value s) (hasValue s) (changed s))]> m)
  end end.

Definition Drain (m : Manager) (token : Token) (now : Z) : option Snapshot * option link_error * Manager :=
  match m !! t_link token with
  | None => (None, Some ErrGenerationMismatch, m)
  | Some s =>
    if negb (matches (snapshot s) token) then (None, Some ErrGenerationMismatch, m) else
    let s := expireLocked s now in
    if negb (bool_decide (st (snapshot s) = StateReady))
    then (Some (snapshot s), Some ErrNotReady, <[t_link token := s]> m) else
    let snap := (snapshot s) <| st := StateDraining |> <| UpdatedAt := now |> in
    (Some snap, None, <[t_link token := signalLocked (mkSlot snap (value s) (hasValue s) (changed s))]> m)
  end.

Definition Withdraw (m : Manager) (token : Token) (cause : option bytes) (now : Z) : bool * Manager :=
  match m !! t_link token with
  | None => (false, m)
  | Some s =>
    if negb (matches (snapshot s) token) then (false, m)
    else (true, <[t_link token := disconnectLocked s now cause]> m)
  end.

Definition Current (m : Manager) (id : bytes) (now : Z) : T * option Snapshot * bool * Manager :=
  match ValidateID id with Some _ => (zero, None, false, m) | None =>
  match m !! id with
  | None => (zero, None, false, m)
  | Some s =>
    let s := expireLocked s now in
    let m := <[id := s]> m in
    if negb (ReadyAt (snapshot s) now) || negb (hasValue s) then (zero, Some (snapshot s), false, m)
    else (value s, Some (snapshot s), true, m)
  end end.

(** One round of [Wait]: either the value, or what the goroutine blocks on:
    the channel of the slot and, while a lease runs, a timer. *)
Inductive wait_result : Type :=
| WaitInvalid
| WaitReady (v : T) (s : Snapshot)
| WaitOn (channel : nat) (timer : option Z).

Definition Wait_round (m : Manager) (id : bytes) (now now2 : Z) : wait_result * Manager :=
  match ValidateID id with Some _ => (WaitInvalid, m) | None =>
  let s := expireLocked (slotLocked m id now2) now in
  let m := <[id := s]> m in
  if ReadyAt (snapshot s) now && hasValue s then (WaitReady (value s) (snapshot s), m) else
  let leaseUntil := LeaseUntil (snapshot s) in
  let timer := if negb (IsZero leaseUntil) && Before now leaseUntil then Some (Sub leaseUntil now) else None in
  (WaitOn (changed s) timer, m)
  end.

Definition Manager_Snapshot (m : Manager) (id : bytes) (now : Z) : option Snapshot * Manager :=
  match ValidateID id with Some _ => (None, m) | None =>
  match m !! id with
  | None => (None, m)
  | Some s => let s := expireLocked s now in (Some (snapshot s), <[id := s]> m)
  end end.

Definition List_ (m : Manager) (now : Z) : list Snapshot * Manager :=
  let m' := (fun s => expireLocked s now) <$> m in
  (sort_by (fun a b => str_ltb (LinkID a) (LinkID b)) ((fun kv => snapshot (snd kv)) <$> map_to_list m'), m').

End Manager.

End SessionLink.
