(* ===== verification/SessionLinkProofs.v ===== *)
(** * Logical links: identity, fencing, publication and waiting

    The theorems about sessionlink: both ends of an adjacency derive the same
    identity and different adjacencies hash different bytes; every reachable
    manager state is well formed; a superseded transport can no longer touch
    its link; a waiter never misses the publication it waits for. *)

From S2P Require Import Prelude GoStrings Sha256 SessionLink.

Module SessionLinkProofs.
Import GoStrings Sha256 SessionLink.

(** ** Identity *)

Section Identity.
Context `{UnicodeTables}.

(** Swapping the two ends swaps the two indices. *)
Lemma scan_topology_swap a b l : forall index seen li pi,
  scan_topology a b index seen li pi l =
  (let* '(t, x, y) := scan_topology b a index seen pi li l in Ok (t, y, x)).
Proof.
  induction l as [|n l IH]; intros index seen li pi; cbn [scan_topology]; [done|].
  case_match; [done|]. rewrite IH. destruct (scan_topology b a _ _ _ _ l) as [[[t x] y]|e]; done.
Qed.

(** Where an end of the topology was found. *)
Lemma scan_topology_index a b l : forall index seen li pi t x y,
  scan_topology a b index seen li pi l = Ok (t, x, y) ->
  (x = li \/ index <= x < index + len l) /\ (y = pi \/ index <= y < index + len l) /\
  Forall (fun n => validNode n = true) t.
Proof.
  induction l as [|n l IH]; intros index seen li pi t x y; cbn [scan_topology].
  { intros [= <- <- <-]. split_and!; [by left..|constructor]. }
  destruct (validNode (TrimSpace n)) eqn:Ev; cbn [negb orb]; [|done].
  destruct (existsb _ _); [done|]. intros E. apply result_bind_ok in E as ([[t' x'] y'] & E & [= <- <- <-]).
  apply IH in E as (Hx & Hy & Ht). rewrite len_cons. pose proof (len_nonneg l).
  split_and!; [..|by constructor].
  - destruct (str_eqb (TrimSpace n) a); lia.
  - destruct (str_eqb (TrimSpace n) b); lia.
Qed.

Lemma normalizeDescriptor_swap c t a b :
  match normalizeDescriptor (mkDescriptor c t a b), normalizeDescriptor (mkDescriptor c t b a) with
  | Ok (d, lo, up), Ok (d', lo', up') => d_chain d = d_chain d' /\ lo = lo' /\ up = up'
  | Err e, Err e' => e = e'
  | _, _ => False
  end.
Proof.
  unfold normalizeDescriptor. cbn [d_chain d_local d_peer Topology].
  destruct (negb (len _ =? 64)); [done|]. destruct (hex_decode _) as [dec|]; [|done].
  destruct (negb (len dec =? 32)); [done|].
  rewrite (orb_comm (negb (validNode (TrimSpace a)))).
  assert (str_eqb (TrimSpace a) (TrimSpace b) = str_eqb (TrimSpace b) (TrimSpace a)) as ->
    by (apply bool_decide_ext; intuition congruence).
  destruct (_ || _ || _); [done|]. destruct (_ || _); [done|].
  rewrite (scan_topology_swap (TrimSpace a)).
  destruct (scan_topology (TrimSpace b) (TrimSpace a) 0 [] (-1) (-1) t) as [[[t' x] y]|e]; [|done]. cbn [result_bind].
  rewrite (orb_comm (y <? 0)). replace (Z.abs (y - x)) with (Z.abs (x - y)) by lia.
  destruct (Z.ltb_spec x 0), (Z.ltb_spec y 0), (Z.eqb_spec (Z.abs (x - y)) 1); cbn [negb orb]; try done.
  destruct (Z.ltb_spec x y), (Z.ltb_spec y x); done || lia.
Qed.

(** The ends a normalised descriptor is hashed with are valid node names. *)
Lemma normalizeDescriptor_valid raw d lo up :
  normalizeDescriptor raw = Ok (d, lo, up) -> len (d_chain d) = 64 /\ hex_decode (d_chain d) <> None /\
  validNode lo = true /\ validNode up = true.
Proof.
  unfold normalizeDescriptor. destruct (Z.eqb_spec (len (ToLower (TrimSpace (d_chain raw)))) 64) as [El|]; [|done].
  cbn [negb]. destruct (hex_decode _) as [dec|] eqn:Eh; [|done]. destruct (negb _); [done|].
  destruct (validNode (TrimSpace (d_local raw))) eqn:E1; [|done].
  destruct (validNode (TrimSpace (d_peer raw))) eqn:E2; [|done]. cbn [negb orb].
  destruct (str_eqb _ _); [done|]. destruct (_ || _); [done|].
  intros E. apply result_bind_ok in E as ([[t x] y] & _ & E). destruct (_ || _ || _); [done|].
  destruct (y <? x); injection E as <- <- <-; cbn; split_and!; congruence.
Qed.

Lemma hex_decode_nonzero s dec : hex_decode s = Some dec -> 0 ∉ s.
Proof.
  revert dec. assert (forall n s dec, (length s <= n)%nat -> hex_decode s = Some dec -> 0 ∉ s) as Hn; [|eauto].
  induction n as [|n IH]; intros [|a [|b r]] dec Hl E; cbn in Hl; try lia; try apply not_elem_of_nil; [done|].
  cbn [hex_decode] in E. destruct (from_hex a) eqn:Ea, (from_hex b) eqn:Eb, (hex_decode r) eqn:Er; try done.
  rewrite !not_elem_of_cons. split_and!; [intros <-; done..|]. eapply IH; [|exact Er]. lia.
Qed.

Lemma validNode_nonzero v : validNode v = true -> 0 ∉ v.
Proof.
  unfold validNode, no_space_or_control. destruct (_ || _); [done|]. intros Hf Hin.
  apply ascii_in_runes in Hin; [|lia]. rewrite forallb_forall in Hf. apply list_elem_of_In, Hf in Hin. done.
Qed.

Lemma nul_terminated_inj (a b t t' : bytes) : 0 ∉ a -> 0 ∉ b -> (a ++ [0]) ++ t = (b ++ [0]) ++ t' -> a = b /\ t = t'.
Proof.
  intros Ha. rewrite <- !app_assoc. cbn. revert b. induction a as [|x a IH]; intros [|y b] Hb E; cbn in E.
  - by injection E.
  - injection E as <- _. exfalso. apply Hb. by left.
  - injection E as -> _. exfalso. apply Ha. by left.
  - injection E as -> E. apply not_elem_of_cons in Ha as [_ Ha], Hb as [_ Hb]. apply IH in E as [-> ->]; done.
Qed.

Lemma id_preimage_inj c lo up c' lo' up' :
  0 ∉ c -> 0 ∉ c' -> 0 ∉ lo -> 0 ∉ lo' -> id_preimage c lo up = id_preimage c' lo' up' -> 0 ∉ up -> 0 ∉ up' ->
  c = c' /\ lo = lo' /\ up = up'.
Proof.
  intros ? ? ? ? E ? ?. unfold id_preimage in E. cbn [fmap list_fmap concat] in E.
  rewrite <- !(app_assoc IDVersion) in E. apply app_inv_head, app_inv_head in E.
  apply nul_terminated_inj in E as [-> E]; [|done..]. apply nul_terminated_inj in E as [-> E]; [|done..].
  by apply nul_terminated_inj in E as [-> _].
Qed.

End Identity.

(** The two ends of an adjacency derive the same link identity, error
    cases included, and two descriptors are hashed from the same bytes only
    if they name the same chain and the same two nodes in the same order. *)
Theorem link_identity `{UnicodeTables} :
  (forall c t a b, DeriveID (mkDescriptor c t a b) = DeriveID (mkDescriptor c t b a)) /\
  (forall raw raw' d d' lo up lo' up',
     normalizeDescriptor raw = Ok (d, lo, up) -> normalizeDescriptor raw' = Ok (d', lo', up') ->
     id_preimage (d_chain d) lo up = id_preimage (d_chain d') lo' up' ->
     d_chain d = d_chain d' /\ lo = lo' /\ up = up').
Proof.
  split.
  - intros c t a b. unfold DeriveID. pose proof (normalizeDescriptor_swap c t a b) as Hs.
    destruct (normalizeDescriptor (mkDescriptor c t a b)) as [[[d lo] up]|e],
      (normalizeDescriptor (mkDescriptor c t b a)) as [[[d' lo'] up']|e']; cbn; try done; [|by rewrite Hs].
    destruct Hs as (-> & -> & ->). done.
  - intros raw raw' d d' lo up lo' up' E1 E2 Ep.
    apply normalizeDescriptor_valid in E1 as (_ & Hc & Hl & Hu), E2 as (_ & Hc' & Hl' & Hu').
    destruct (hex_decode (d_chain d)) eqn:Ed; [|done]. destruct (hex_decode (d_chain d')) eqn:Ed'; [|done].
    apply id_preimage_inj in Ep; eauto using validNode_nonzero, hex_decode_nonzero.
Qed.

#[local] Existing Instance latin1_tables.

Definition demo_chain : bytes := str " BA7816bf8f01cfea414140de5dae2223b00361a396177a9cb410ff61f20015ad".
Definition demo_descriptor (a b : string) : Descriptor :=
  mkDescriptor demo_chain [str "n1"; str " n2 "; str "n3"] (str a) (str b).

Lemma link_identity_witness :
  DeriveID (demo_descriptor "n2" "n3") = DeriveID (demo_descriptor "n3" "n2") /\
  (exists id, DeriveID (demo_descriptor "n2" "n3") = Ok id /\ length id = 64%nat) /\
  DeriveID (demo_descriptor "n1" "n3") = Err ErrInvalidDescriptor.
Proof.
  split; [exact (proj1 link_identity demo_chain _ (str "n2") (str "n3"))|].
  split; [eexists; split; vm_compute; reflexivity|vm_compute; reflexivity].
Defined.

(** ** The manager as a transition system *)

Section Manager.
Context {T : Type} (zero : T) `{UnicodeTables}.
Abbreviation Manager := (gmap bytes (slot T)).

(** Any call of the manager at any time after the epoch; a second clock
    reading may differ from the first. *)
Inductive manager_step : Manager -> Manager -> Prop :=
| ms_begin m d tr lease now now2 : 0 <= now -> manager_step m (snd (Begin zero m d tr lease now now2))
| ms_ready m tok v now : 0 <= now -> manager_step m (snd (Ready zero m tok v now))
| ms_renew m tok lease now : 0 <= now -> manager_step m (snd (Renew zero m tok lease now))
| ms_drain m tok now : 0 <= now -> manager_step m (snd (Drain zero m tok now))
| ms_withdraw m tok cause now : 0 <= now -> manager_step m (snd (Withdraw zero m tok cause now))
| ms_current m id now : 0 <= now -> manager_step m (snd (Current zero m id now))
| ms_wait m id now now2 : 0 <= now -> manager_step m (snd (Wait_round zero m id now now2))
| ms_snapshot m id now : 0 <= now -> manager_step m (snd (Manager_Snapshot zero m id now))
| ms_list m now : 0 <= now -> manager_step m (snd (List_ zero m now)).

(** A value is held exactly while a transport is ready or draining; a link
    not disconnected runs under a real lease. *)
Record slot_wf (id : bytes) (s : slot T) : Prop := {
  sw_link : LinkID (snapshot s) = id;
  sw_gen : is_u 64 (Generation (snapshot s));
  sw_value : hasValue s = bool_decide (st (snapshot s) = StateReady \/ st (snapshot s) = StateDraining);
  sw_zero : hasValue s = false -> value s = zero;
  sw_lease : st (snapshot s) <> StateDisconnected -> IsZero (LeaseUntil (snapshot s)) = false;
  sw_error : (length (LastError (snapshot s)) <= maxLastErrorBytes)%nat
}.

Definition manager_wf (m : Manager) : Prop := map_Forall slot_wf m.

(** How one slot may change in one call: not at all, or visibly to waiters
    and with the generation kept or advanced by one. *)
Definition gen_next (g g' : Z) : Prop := g' = g \/ g' = u64 (g + 1).

Definition evolves (o o' : option (slot T)) : Prop :=
  match o, o' with
  | None, None => True
  | None, Some s' => gen_next 0 (Generation (snapshot s')) /\ (hasValue s' = true -> 0 < changed s')%nat
  | Some s, Some s' => s' = s \/ (changed s < changed s')%nat /\ gen_next (Generation (snapshot s)) (Generation (snapshot s'))
  | Some _, None => False
  end.

Lemma boundedError_length c : (length (boundedError c) <= maxLastErrorBytes)%nat.
Proof. unfold boundedError. rewrite length_take. lia. Qed.

Lemma disconnect_wf id s now cause : slot_wf id s -> slot_wf id (disconnectLocked zero s now cause).
Proof.
  intros []. constructor; cbn; try done. destruct cause; cbn; [apply boundedError_length|lia].
Qed.

Lemma expire_wf id s now : slot_wf id s -> slot_wf id (expireLocked zero s now).
Proof. intros Hs. unfold expireLocked. case_match; [done|]. by apply disconnect_wf. Qed.

Lemma new_slot_wf id now : slot_wf id (new_slot zero id now).
Proof. constructor; cbn; try done; unfold maxLastErrorBytes; lia. Qed.

Lemma slotLocked_wf m id now : manager_wf m -> slot_wf id (slotLocked zero m id now).
Proof. intros Hm. unfold slotLocked. destruct (m !! id) eqn:E; [by apply Hm|apply new_slot_wf]. Qed.

Lemma expire_evolves s now : evolves (Some s) (Some (expireLocked zero s now)).
Proof. unfold expireLocked. case_match; cbn; [by left|]. right. split; [lia|by left]. Qed.

Lemma expire_changed s now : (changed s <= changed (expireLocked zero s now))%nat /\
  Generation (snapshot (expireLocked zero s now)) = Generation (snapshot s).
Proof. unfold expireLocked. case_match; cbn; split; lia. Qed.

Lemma evolves_refl o : evolves o o.
Proof. destruct o; [by left|done]. Qed.

(** A call that writes one slot. *)
Lemma evolves_insert (m : Manager) k s' id : evolves (m !! k) (Some s') -> evolves (m !! id) (<[k := s']> m !! id).
Proof.
  intros He. destruct (decide (id = k)) as [->|Hne]; [by rewrite lookup_insert_eq|].
  rewrite lookup_insert_ne by done. apply evolves_refl.
Qed.

Lemma wf_insert (m : Manager) k s' : manager_wf m -> slot_wf k s' -> manager_wf (<[k := s']> m).
Proof. intros. by apply map_Forall_insert_2. Qed.

Lemma lease_nonzero now lease : 0 <= now -> validateLease lease = None -> IsZero (now + lease) = false.
Proof.
  unfold validateLease, IsZero. intros Hn. destruct (_ || _) eqn:E; [done|]. intros _.
  rewrite orb_false_iff, Z.leb_gt in E. apply Z.eqb_neq. unfold time_zero, second. lia.
Qed.

Lemma slotLocked_evolves m id now2 s' :
  (changed (slotLocked zero m id now2) < changed s')%nat ->
  gen_next (Generation (snapshot (slotLocked zero m id now2))) (Generation (snapshot s')) ->
  evolves (m !! id) (Some s').
Proof.
  unfold slotLocked. destruct (m !! id); cbn; intros Hc Hg; [by right|]. split; [done|]. intros _. lia.
Qed.

(** What every call must establish. *)
Definition op_ok (m m' : Manager) : Prop :=
  (manager_wf m -> manager_wf m') /\ forall id, evolves (m !! id) (m' !! id).

Lemma op_ok_same m : op_ok m m.
Proof. split; [done|]. intros. apply evolves_refl. Qed.

Lemma op_ok_insert m k s' : (manager_wf m -> slot_wf k s') -> evolves (m !! k) (Some s') -> op_ok m (<[k := s']> m).
Proof. intros Hw He. split; [intros Hm; apply wf_insert; auto|]. intros id. by apply evolves_insert. Qed.

(** Writing a slot that was looked up. *)
Lemma op_ok_update m k s s' : m !! k = Some s -> (slot_wf k s -> slot_wf k s') ->
  evolves (Some s) (Some s') -> op_ok m (<[k := s']> m).
Proof. intros E Hw He. apply op_ok_insert; [intros Hm; apply Hw, (Hm k s E)|by rewrite E]. Qed.

#[local] Hint Resolve op_ok_same disconnect_wf expire_wf expire_evolves : core.

Lemma disconnect_evolves s now cause : evolves (Some s) (Some (disconnectLocked zero s now cause)).
Proof. right. cbn. split; [lia|by left]. Qed.
#[local] Hint Resolve disconnect_evolves : core.

Lemma Begin_ok m d tr lease now now2 : 0 <= now -> op_ok m (snd (Begin zero m d tr lease now now2)).
Proof.
  intros Hn. unfold Begin. destruct (DeriveID d) as [id|]; [|done]. destruct (ValidateTransportID tr); [done|].
  destruct (validateLease lease) eqn:El; [done|]. destruct (normalizeDescriptor d) as [[[nd lo] up]|]; [|done].
  cbn [snd]. destruct (expire_changed (slotLocked zero m id now2) now) as [Hc Hg]. apply op_ok_insert.
  - intros Hm. constructor; cbn; try done; [by apply is_u_mod| |lia].
    intros _. by apply lease_nonzero.
  - apply (slotLocked_evolves m id now2); cbn; [lia|]. right. by rewrite Hg.
Qed.

(** Calls that look a slot up by token. *)
Ltac token_call :=
  match goal with
  | |- op_ok ?m (snd (match ?m !! ?k with _ => _ end)) => destruct (m !! k) as [s|] eqn:Es; [|done]
  end; destruct (negb (matches _ _)); [done|].

Lemma Ready_ok m tok v now : op_ok m (snd (Ready zero m tok v now)).
Proof.
  unfold Ready. token_call. destruct (negb (Before _ _)); [eapply op_ok_update; eauto|].
  destruct (bool_decide (st (snapshot s) = StateConnecting)) eqn:Ec; cbn [negb snd]; [|done].
  apply bool_decide_eq_true in Ec. eapply op_ok_update; [done| |].
  - intros []. constructor; cbn; try done; [|lia]. intros _. apply sw_lease0. by rewrite Ec.
  - right. cbn. split; [lia|by left].
Qed.

Lemma Renew_ok m tok lease now : 0 <= now -> op_ok m (snd (Renew zero m tok lease now)).
Proof.
  intros Hn. unfold Renew. destruct (validateLease lease) eqn:El; [done|]. token_call.
  destruct (negb (Before _ _)); [eapply op_ok_update; eauto|]. case_match; [done|].
  cbn [snd]. eapply op_ok_update; [done| |].
  - intros []. constructor; cbn; try done. intros _. by apply lease_nonzero.
  - right. cbn. split; [lia|by left].
Qed.

Lemma Drain_ok m tok now : op_ok m (snd (Drain zero m tok now)).
Proof.
  unfold Drain. token_call. pose proof (expire_changed s now) as [Hc Hg].
  destruct (bool_decide (st (snapshot (expireLocked zero s now)) = StateReady)) eqn:Ec; cbn [negb snd];
    [|eapply op_ok_update; eauto].
  apply bool_decide_eq_true in Ec. eapply op_ok_update; [done| |].
  - intros Hw%(expire_wf _ _ now). destruct Hw. constructor; cbn; try done.
    + rewrite sw_value0, Ec. done.
    + intros _. apply sw_lease0. by rewrite Ec.
  - right. cbn. split; [lia|by left].
Qed.

Lemma manager_step_ok m m' : manager_step m m' -> op_ok m m'.
Proof.
  destruct 1; auto using Begin_ok, Ready_ok, Renew_ok, Drain_ok.
  - unfold Withdraw. token_call. eapply op_ok_update; eauto.
  - unfold Current. destruct (ValidateID id); [done|]. destruct (m !! id) eqn:Es; [|done].
    case_match; eapply op_ok_update; eauto.
  - unfold Wait_round. destruct (ValidateID id); [done|].
    assert (op_ok m (<[id := expireLocked zero (slotLocked zero m id now2) now]> m)) as Hw.
    { apply op_ok_insert; [intros; apply expire_wf; by apply slotLocked_wf|]. unfold slotLocked.
      destruct (m !! id); [apply expire_evolves|]. cbn. split; [by left|done]. }
    by case_match.
  - unfold Manager_Snapshot. destruct (ValidateID id); [done|]. destruct (m !! id) eqn:Es; [|done].
    eapply op_ok_update; eauto.
  - split.
    + intros Hm. cbn. apply map_Forall_fmap. eapply map_Forall_impl; [exact Hm|]. cbn. auto.
    + intros id. cbn. rewrite lookup_fmap. destruct (m !! id); [apply expire_evolves|done].
Qed.

Lemma manager_steps_wf n m m' : nsteps manager_step n m m' -> manager_wf m -> manager_wf m'.
Proof. induction 1; auto. intros. apply IHnsteps. by apply (manager_step_ok x y). Qed.

(** ** Generations *)

Definition gen_of (m : Manager) (id : bytes) : Z :=
  match m !! id with Some s => Generation (snapshot s) | None => 0 end.

Lemma gen_of_range m id : manager_wf m -> is_u 64 (gen_of m id).
Proof. intros Hm. unfold gen_of. destruct (m !! id) eqn:E; [apply (Hm id _ E)|unfold is_u; lia]. Qed.

Lemma evolves_gen (m m' : Manager) id : evolves (m !! id) (m' !! id) -> gen_next (gen_of m id) (gen_of m' id).
Proof.
  unfold evolves, gen_of. destruct (m !! id), (m' !! id); try done; [|naive_solver|by left].
  intros [->|[_ Hg]]; [by left|done].
Qed.

Lemma u64_add a k : u64 (u64 a + k) = u64 (a + k).
Proof. unfold u64. by rewrite Zplus_mod_idemp_l. Qed.

Lemma nsteps_gen n m m' id : nsteps manager_step n m m' -> manager_wf m ->
  exists k, 0 <= k <= Z.of_nat n /\ gen_of m' id = u64 (gen_of m id + k).
Proof.
  induction 1 as [m|n m1 m2 m3 Hs _ IH]; intros Hw.
  - exists 0. split; [lia|]. rewrite Z.add_0_r, u64_small; [done|by apply gen_of_range].
  - apply manager_step_ok in Hs as [Hw' He]. destruct (IH (Hw' Hw)) as (k & Hk & ->).
    destruct (evolves_gen _ _ id (He id)) as [-> | ->].
    + exists k. split; [lia|done].
    + exists (k + 1). split; [lia|]. rewrite u64_add. f_equal. lia.
Qed.

Lemma Begin_gen m d tr lease now now2 tok snap m' :
  Begin zero m d tr lease now now2 = (Ok (tok, snap), m') ->
  t_generation tok = u64 (gen_of m (t_link tok) + 1) /\ gen_of m' (t_link tok) = t_generation tok.
Proof.
  unfold Begin. destruct (DeriveID d) as [id|]; [|done]. destruct (ValidateTransportID tr); [done|].
  destruct (validateLease lease); [done|]. destruct (normalizeDescriptor d) as [[[nd lo] up]|]; [|done].
  intros [= <- _ <-]. cbn [t_generation t_link]. split.
  - rewrite (proj2 (expire_changed _ _)). unfold slotLocked, gen_of. by destruct (m !! id).
  - unfold gen_of. by rewrite lookup_insert_eq.
Qed.

(** Generations of two successive transports of a link differ, whatever
    happened in between, until 2^64 transports have been started. *)
Lemma later_generation m d tr lease now now2 tok snap m1 m2 d' tr' lease' now' now2' tok' snap' m3 m4 n n' :
  manager_wf m -> 0 <= now -> Begin zero m d tr lease now now2 = (Ok (tok, snap), m1) ->
  nsteps manager_step n m1 m2 -> 0 <= now' ->
  Begin zero m2 d' tr' lease' now' now2' = (Ok (tok', snap'), m3) -> t_link tok' = t_link tok ->
  nsteps manager_step n' m3 m4 -> Z.of_nat n + Z.of_nat n' + 1 < 2 ^ 64 ->
  gen_of m4 (t_link tok) <> t_generation tok.
Proof.
  intros Hm Hn B1 S1 Hn' B2 El S2 Hlim.
  pose proof (Begin_ok m d tr lease now now2 Hn) as [W1 _]. rewrite B1 in W1. specialize (W1 Hm). cbn in W1.
  pose proof (manager_steps_wf _ _ _ S1 W1) as W2.
  pose proof (Begin_ok m2 d' tr' lease' now' now2' Hn') as [W3 _]. rewrite B2 in W3. specialize (W3 W2). cbn in W3.
  destruct (nsteps_gen _ _ _ (t_link tok) S1 W1) as (k1 & K1 & G1).
  destruct (nsteps_gen _ _ _ (t_link tok) S2 W3) as (k2 & K2 & G2).
  destruct (Begin_gen _ _ _ _ _ _ _ _ _ B1) as [_ E1]. destruct (Begin_gen _ _ _ _ _ _ _ _ _ B2) as [E2 E3].
  rewrite El in *. rewrite G2, E3, E2, G1, E1, u64_add, <- Z.add_assoc, u64_add.
  assert (is_u 64 (t_generation tok)) as Hr by (rewrite <- E1; by apply gen_of_range). unfold is_u in Hr.
  unfold u64. intros E. rewrite <- (Z.mod_small (t_generation tok) (2 ^ 64)) in E at 2 by lia.
  apply (f_equal (fun z => (z - t_generation tok) mod 2 ^ 64)) in E.
  rewrite !Zminus_mod_idemp_l in E. replace (t_generation tok - t_generation tok) with 0 in E by lia.
  replace (t_generation tok + k1 + (1 + k2) - t_generation tok) with (k1 + 1 + k2) in E by lia.
  rewrite Z.mod_small in E by lia. rewrite Z.mod_0_l in E by lia. lia.
Qed.

Lemma stale_refused (m : Manager) tok : gen_of m (t_link tok) <> t_generation tok ->
  m !! t_link tok = None \/ exists s, m !! t_link tok = Some s /\ matches (snapshot s) tok = false.
Proof.
  unfold gen_of. destruct (m !! t_link tok) as [s|]; [|by left]. intros Hg. right. exists s. split; [done|].
  unfold matches. by rewrite (proj2 (Z.eqb_neq _ _)), andb_false_r.
Qed.

End Manager.

(** C19: fencing: once a newer transport has begun on a link, the token of the
    older one is refused by every operation and changes nothing, for ever
    (fewer than 2^64 calls), whatever is interleaved before and after. *)
Theorem superseded_transport_fenced {T} (zero : T) `{UnicodeTables} (m m1 m2 m3 m4 : gmap bytes (slot T))
    (d d' : Descriptor) (tr tr' : bytes) (lease lease' now now' now2 now2' : Z) (tok tok' : Token)
    (snap snap' : Snapshot) (n n' : nat) :
  manager_wf zero m -> 0 <= now -> Begin zero m d tr lease now now2 = (Ok (tok, snap), m1) ->
  nsteps (manager_step zero) n m1 m2 ->
  0 <= now' -> Begin zero m2 d' tr' lease' now' now2' = (Ok (tok', snap'), m3) -> t_link tok' = t_link tok ->
  nsteps (manager_step zero) n' m3 m4 -> Z.of_nat n + Z.of_nat n' + 1 < 2 ^ 64 ->
  forall v l c t,
    Ready zero m4 tok v t = (None, Some ErrGenerationMismatch, m4) /\
    (exists e, Renew zero m4 tok l t = (None, Some e, m4)) /\
    Drain zero m4 tok t = (None, Some ErrGenerationMismatch, m4) /\
    Withdraw zero m4 tok c t = (false, m4).
Proof.
  intros Hm Hn B1 S1 Hn' B2 El S2 Hlim v l c t.
  pose proof (later_generation zero _ _ _ _ _ _ _ _ _ _ _ _ _ _ _ _ _ _ _ _ _ Hm Hn B1 S1 Hn' B2 El S2 Hlim) as Hg.
  apply stale_refused in Hg. unfold Ready, Renew, Drain, Withdraw.
  destruct Hg as [->|(s & -> & ->)]; cbn [negb]; (split_and!; [done| |done|done]);
    destruct (validateLease l); eauto.
Qed.

(** A run: transport 1 begins and becomes ready, transport 2 begins. *)
Definition demo_begin (m : gmap bytes (slot Z)) (tr : string) (now : Z) :=
  Begin 0 m (demo_descriptor "n2" "n3") (str tr) hour now now.
Definition demo_token (r : result link_error (Token * Snapshot) * gmap bytes (slot Z)) : Token :=
  match fst r with Ok (t, _) => t | Err _ => mkToken [] [] 0 end.
Definition demo_m1 : gmap bytes (slot Z) := snd (demo_begin ∅ "transport-1" 10).
Definition demo_tok1 : Token := demo_token (demo_begin ∅ "transport-1" 10).
Definition demo_m2 : gmap bytes (slot Z) := snd (Ready 0 demo_m1 demo_tok1 7 20).
Definition demo_m3 : gmap bytes (slot Z) := snd (demo_begin demo_m2 "transport-2" 30).
Definition demo_tok2 : Token := demo_token (demo_begin demo_m2 "transport-2" 30).

Lemma demo_begin_ok m tr now : is_ok (fst (demo_begin m tr now)) = true ->
  exists s, demo_begin m tr now = (Ok (demo_token (demo_begin m tr now), s), snd (demo_begin m tr now)).
Proof. destruct (demo_begin m tr now) as [[[t s]|e] m']; [by eexists|done]. Qed.

Lemma superseded_transport_fenced_witness :
  Withdraw 0 demo_m3 demo_tok1 None 40 = (false, demo_m3) /\ fst (Withdraw 0 demo_m2 demo_tok1 None 40) = true.
Proof.
  split; [|vm_compute; reflexivity].
  destruct (demo_begin_ok ∅ "transport-1" 10) as [s1 B1]; [vm_compute; reflexivity|].
  destruct (demo_begin_ok demo_m2 "transport-2" 30) as [s2 B2]; [vm_compute; reflexivity|].
  assert (nsteps (manager_step 0) 1 demo_m1 demo_m2) as S1
    by (eapply nsteps_l; [apply (ms_ready 0 demo_m1 demo_tok1 7 20); lia|apply nsteps_O]).
  assert (t_link demo_tok2 = t_link demo_tok1) as El by (vm_compute; reflexivity).
  destruct (superseded_transport_fenced 0 ∅ demo_m1 demo_m2 demo_m3 demo_m3 _ _ _ _ _ _ 10 30 _ _ _ _ _ _ 1 0
    (map_Forall_empty _) ltac:(lia) B1 S1 ltac:(lia) B2 El (nsteps_O _ _) ltac:(lia) 0 0 None 40)
    as (_ & _ & _ & Hw).
  exact Hw.
Defined.

(** ** Publication and waiting *)

Section Publication.
Context {T : Type} (zero : T) `{UnicodeTables}.
Abbreviation Manager := (gmap bytes (slot T)).

Lemma hex_text_lower b : bytes_ok b -> ToLower (hex_encode b) = hex_encode b.
Proof.
  intros Hb. assert (Forall (fun c => c < 128 /\ ascii_lower c = c) (hex_encode b)) as Hf.
  { assert (forall n, 0 <= n < 16 -> hex_digit n < 128 /\ ascii_lower (hex_digit n) = hex_digit n) as Hd.
    { intros n Hn. unfold hex_digit, ascii_lower. destruct (Z.ltb_spec n 10); (split; [lia|]);
        rewrite (proj2 (andb_false_iff _ _)); try done; rewrite !Z.leb_gt; lia. }
    unfold hex_encode. induction Hb as [|x b Hx _ IH]; [constructor|]. unfold is_u in Hx.
    cbn [fmap list_fmap concat app]. constructor; [|constructor; [|done]]; apply Hd.
    - split; [apply Z.div_pos; lia|apply Z.div_lt_upper_bound; lia].
    - apply Z.mod_pos_bound. lia. }
  rewrite ToLower_ascii by (apply is_ascii_Forall; eapply Forall_impl; [exact Hf|]; naive_solver).
  rewrite <- (list_fmap_id (hex_encode b)) at 2. apply list_fmap_ext. intros i c Hc.
  rewrite Forall_forall in Hf. apply Hf. by eapply list_elem_of_lookup_2.
Qed.

Lemma DeriveID_valid d id : DeriveID d = Ok id -> ValidateID id = None.
Proof.
  unfold DeriveID. intros E. apply result_bind_ok in E as ([[nd lo] up] & _ & [= <-]).
  unfold ValidateID, sha256_hex. set (m := id_preimage _ _ _).
  pose proof (sha256_hex_length m) as Hl. unfold sha256_hex in Hl. unfold len. rewrite Hl. cbn [negb Z.eqb].
  rewrite hex_roundtrip by apply Sum256_ok. rewrite hex_text_lower by apply Sum256_ok. by rewrite str_eqb_refl.
Qed.

(** What a slot offers at a given time, after expiry. *)
Lemma expire_ready id s now : slot_wf zero id s ->
  ReadyAt (snapshot (expireLocked zero s now)) now && hasValue (expireLocked zero s now) =
  bool_decide (st (snapshot s) = StateReady) && Before now (LeaseUntil (snapshot s)).
Proof.
  intros [_ _ Hv _ Hl _]. unfold expireLocked.
  destruct (bool_decide_reflect (st (snapshot s) = StateDisconnected)) as [Ed|Hd]; cbn [orb].
  { unfold ReadyAt. by rewrite (bool_decide_false (st (snapshot s) = StateReady)) by congruence. }
  rewrite (Hl Hd). cbn [orb]. destruct (Before now (LeaseUntil (snapshot s))) eqn:Eb.
  - unfold ReadyAt. rewrite (Hl Hd), Eb, Hv. cbn. rewrite !andb_true_r.
    destruct (st (snapshot s)); try done.
  - by rewrite !andb_false_r.
Qed.

Lemma expire_live s now : st (snapshot s) = StateReady -> Before now (LeaseUntil (snapshot s)) = true ->
  expireLocked zero s now = s.
Proof. intros _ Hb. unfold expireLocked. by rewrite Hb, !orb_true_r. Qed.

Lemma Publish_slot m d tr lease v now now2 now3 tok snap m' :
  Publish zero m d tr lease v now now2 now3 = (Ok (tok, snap), m') ->
  ValidateID (t_link tok) = None /\ st snap = StateReady /\ LeaseUntil snap = now + lease /\
  matches snap tok = true /\ exists c, m' !! t_link tok = Some (mkSlot snap v true c).
Proof.
  unfold Publish. destruct (Begin zero m d tr lease now now2) as [[[tk sn]|e] m1] eqn:Eb; [|done].
  unfold Begin in Eb. destruct (DeriveID d) as [id|] eqn:Ed; [|done]. destruct (ValidateTransportID tr); [done|].
  destruct (validateLease lease); [done|]. destruct (normalizeDescriptor d) as [[[nd lo] up]|]; [|done].
  injection Eb as <- <- <-. unfold Ready. cbn [t_link]. rewrite lookup_insert_eq. cbn [snapshot signalLocked].
  destruct (negb (matches _ _)) eqn:Em; [done|]. destruct (negb (Before _ _)); [done|]. cbn [st].
  rewrite bool_decide_true by done. cbn [negb]. intros [= <- <- <-]. cbn [t_link].
  apply negb_false_iff in Em. split_and!; [by eapply DeriveID_valid|done|done|done|].
  eexists. by rewrite lookup_insert_eq.
Qed.

Lemma rtc_evolves id m m' s : rtc (manager_step zero) m m' -> manager_wf zero m -> m !! id = Some s ->
  exists s', m' !! id = Some s' /\ (s' = s \/ (changed s < changed s')%nat).
Proof.
  intros Hs. revert s. induction Hs as [m|m m1 m' Hs _ IH]; intros s Hm E; [by eauto|].
  apply manager_step_ok in Hs as [Hw He]. specialize (He id). rewrite E in He.
  destruct (m1 !! id) as [s1|] eqn:E1; [|done]. destruct (IH s1 (Hw Hm) eq_refl) as (s' & E' & Hs').
  exists s'. split; [done|]. cbn in He. destruct He as [->|[Hc _]]; [done|].
  right. destruct Hs' as [->|?]; lia.
Qed.

Lemma Wait_round_on m id now now2 ch timer m1 : manager_wf zero m ->
  Wait_round zero m id now now2 = (WaitOn ch timer, m1) ->
  ValidateID id = None /\ manager_wf zero m1 /\
  exists s, m1 !! id = Some s /\ changed s = ch /\ st (snapshot s) <> StateReady.
Proof.
  intros Hm. unfold Wait_round. destruct (ValidateID id) eqn:Ev; [done|].
  set (s0 := slotLocked zero m id now2). assert (slot_wf zero id s0) as Hs0 by (by apply slotLocked_wf).
  rewrite (expire_ready id s0 now Hs0). destruct (_ && _) eqn:Er; [done|]. intros [= <- _ <-].
  split; [done|]. split; [apply wf_insert; [done|]; by apply expire_wf|].
  eexists. rewrite lookup_insert_eq. split; [done|]. split; [done|]. intros Hst.
  assert (st (snapshot s0) = StateReady /\ Before now (LeaseUntil (snapshot s0)) = true) as [E1 E2].
  { revert Hst. unfold expireLocked. destruct Hs0 as [_ _ _ _ Hl _].
    destruct (bool_decide_reflect (st (snapshot s0) = StateDisconnected)) as [Ed|Hd]; cbn [orb]; [congruence|].
    rewrite (Hl Hd). cbn [orb]. by destruct (Before _ _). }
  by rewrite bool_decide_true, E2 in Er.
Qed.

End Publication.

(** C36: every reachable manager state is well formed: a slot is filed under
    its link, its generation is a 64-bit number, it holds a value exactly
    while ready or draining and none otherwise, a connected link runs under a
    real lease, and error texts are bounded. *)
Theorem manager_invariant {T} (zero : T) `{UnicodeTables} (m : gmap bytes (slot T)) (id : bytes) (s : slot T) :
  rtc (manager_step zero) NewManager m -> m !! id = Some s ->
  LinkID (snapshot s) = id /\ is_u 64 (Generation (snapshot s)) /\
  (hasValue s = true <-> st (snapshot s) = StateReady \/ st (snapshot s) = StateDraining) /\
  (hasValue s = false -> value s = zero) /\
  (st (snapshot s) <> StateDisconnected -> IsZero (LeaseUntil (snapshot s)) = false) /\
  (length (LastError (snapshot s)) <= 4096)%nat.
Proof.
  intros Hr E. assert (manager_wf zero m) as Hm.
  { apply rtc_nsteps in Hr as [n Hr]. eapply manager_steps_wf; [exact Hr|]. apply map_Forall_empty. }
  destruct (Hm id s E) as [H1 H2 H3 H4 H5 H6]. split_and!; try done.
  rewrite H3. apply bool_decide_eq_true.
Qed.

Lemma manager_invariant_witness :
  exists s, demo_m2 !! t_link demo_tok1 = Some s /\ hasValue s = true /\ LinkID (snapshot s) = t_link demo_tok1.
Proof.
  destruct (demo_m2 !! t_link demo_tok1) as [s|] eqn:E; [|exfalso; vm_compute in E; discriminate].
  exists s. split; [reflexivity|].
  assert (rtc (manager_step 0) NewManager demo_m2) as Hr.
  { eapply rtc_l; [|apply rtc_once; apply (ms_ready 0 demo_m1 demo_tok1 7 20); lia].
    apply (ms_begin 0 NewManager (demo_descriptor "n2" "n3") (str "transport-1") hour 10 10). lia. }
  destruct (manager_invariant 0 demo_m2 (t_link demo_tok1) s Hr E) as (Hl & _ & Hv & _).
  split; [|done]. apply Hv. left.
  transitivity (match demo_m2 !! t_link demo_tok1 with Some s => st (snapshot s) | None => StateDisconnected end).
  - by rewrite E.
  - vm_compute. reflexivity.
Defined.

(** A published value is what [Current] returns under its lease and never
    after: until the lease ends [Current] gives that value and snapshot, from
    then on nothing, and a withdrawal takes it away at once. *)
Theorem published_until_lease_ends {T} (zero : T) `{UnicodeTables} (m m' : gmap bytes (slot T)) (d : Descriptor)
    (tr : bytes) (lease : Z) (v : T) (now now2 now3 : Z) (tok : Token) (snap : Snapshot) :
  0 <= now -> 0 <= now3 -> manager_wf zero m ->
  Publish zero m d tr lease v now now2 now3 = (Ok (tok, snap), m') ->
  (forall t, t < now + lease -> Current zero m' (t_link tok) t = (v, Some snap, true, m')) /\
  (forall t, now + lease <= t -> fst (fst (fst (Current zero m' (t_link tok) t))) = zero /\
     snd (fst (Current zero m' (t_link tok) t)) = false) /\
  (forall cause t t', let '(ok, m'') := Withdraw zero m' tok cause t in
     ok = true /\ snd (fst (Current zero m'' (t_link tok) t')) = false).
Proof.
  intros Hn Hn3 Hm Hp. assert (manager_wf zero m') as Hm'.
  { unfold Publish in Hp. pose proof (Begin_ok zero m d tr lease now now2 Hn) as [Hb _].
    destruct (Begin zero m d tr lease now now2) as [[[tk sn]|e] m1]; [|done].
    pose proof (Ready_ok zero m1 tk v now3) as [Hr _]. cbn in Hb, Hr.
    destruct (Ready zero m1 tk v now3) as [[[s|] [e|]] m2]; injection Hp; intros; subst; cbn in Hr; try done; auto. }
  apply Publish_slot in Hp as (Hv & Hst & Hl & Hma & c & E).
  pose proof (Hm' _ _ E) as Hw.
  assert (forall t, Current zero m' (t_link tok) t =
    let s := expireLocked zero (mkSlot snap v true c) t in
    if bool_decide (StateReady = StateReady) && Before t (now + lease)
    then (value s, Some (snapshot s), true, <[t_link tok := s]> m') else (zero, Some (snapshot s), false, <[t_link tok := s]> m')) as Hcur.
  { intros t. unfold Current. rewrite Hv, E. pose proof (expire_ready zero _ _ t Hw) as Hr. cbn [snapshot] in Hr.
    rewrite Hst, Hl in Hr. cbv zeta. rewrite <- Hr. rewrite <- negb_andb. by destruct (_ && _). }
  split_and!.
  - intros t Ht. rewrite Hcur. cbv zeta. unfold Before. rewrite (proj2 (Z.ltb_lt _ _)), bool_decide_true by done. cbn [andb].
    rewrite expire_live; cbn [snapshot value]; [|done|rewrite Hl; by apply Z.ltb_lt].
    by rewrite insert_id.
  - intros t Ht. rewrite Hcur. cbv zeta. unfold Before. by rewrite (proj2 (Z.ltb_ge _ _)), andb_false_r.
  - intros cause t t'. unfold Withdraw. rewrite E. cbn [snapshot]. rewrite Hma. cbn [negb]. split; [done|].
    unfold Current. rewrite Hv, lookup_insert_eq. unfold expireLocked. cbn. done.
Qed.

Lemma published_until_lease_ends_witness :
  let r := Publish 0 ∅ (demo_descriptor "n2" "n3") (str "transport-1") hour 7 10 10 20 in
  exists tok snap, fst r = Ok (tok, snap) /\ Current 0 (snd r) (t_link tok) 1000 = (7, Some snap, true, snd r).
Proof.
  intros r. destruct r as [[[tok snap]|e] m'] eqn:E.
  - exists tok, snap. split; [done|].
    exact (proj1 (published_until_lease_ends 0 ∅ m' (demo_descriptor "n2" "n3") (str "transport-1") hour 7 10 10 20 tok snap
      ltac:(lia) ltac:(lia) (map_Forall_empty _) E) 1000 ltac:(reflexivity)).
  - exfalso. apply (f_equal (fun x => is_ok (fst x))) in E. vm_compute in E. discriminate.
Defined.

(** No lost wakeup: if a waiter blocked on a link's channel and the link
    later has a value to offer, that channel has been closed in between, so
    the waiter was woken; expiry alone never makes a link ready. *)
Theorem no_lost_wakeup {T} (zero : T) `{UnicodeTables} (m m1 m2 m3 : gmap bytes (slot T)) (id : bytes)
    (now now2 t t2 : Z) (ch : nat) (timer : option Z) (v : T) (snap : Snapshot) :
  manager_wf zero m -> Wait_round zero m id now now2 = (WaitOn ch timer, m1) ->
  rtc (manager_step zero) m1 m2 -> Wait_round zero m2 id t t2 = (WaitReady v snap, m3) ->
  exists s, m2 !! id = Some s /\ (ch < changed s)%nat.
Proof.
  intros Hm W1 Hs W2. destruct (Wait_round_on zero _ _ _ _ _ _ _ Hm W1) as (Hv & Hm1 & s & E & <- & Hst).
  destruct (rtc_evolves zero id m1 m2 s Hs Hm1 E) as (s' & E' & [->|Hc]); [|by eauto]. exfalso.
  unfold Wait_round in W2. rewrite Hv in W2. unfold slotLocked in W2. rewrite E' in W2.
  assert (manager_wf zero m2) as Hm2.
  { apply rtc_nsteps in Hs as [n Hs]. by eapply manager_steps_wf. }
  rewrite (expire_ready zero id s t (Hm2 _ _ E')) in W2. by rewrite bool_decide_false in W2.
Qed.

Lemma pair_of_fst {A B} (p : A * B) a : fst p = a -> p = (a, snd p).
Proof. by destruct p; cbn; intros ->. Qed.

Definition demo_w : gmap bytes (slot Z) := snd (Wait_round 0 demo_m1 (t_link demo_tok1) 12 12).
Definition demo_m2' : gmap bytes (slot Z) := snd (Ready 0 demo_w demo_tok1 7 20).

Lemma no_lost_wakeup_witness :
  exists s, demo_m2' !! t_link demo_tok1 = Some s /\ (1 < changed s)%nat.
Proof.
  assert (exists tm, fst (Wait_round 0 demo_m1 (t_link demo_tok1) 12 12) = WaitOn 1 tm) as [tm W1]
    by (eexists; vm_compute; reflexivity).
  apply pair_of_fst in W1.
  assert (rtc (manager_step 0) demo_w demo_m2') as Hs
    by (apply rtc_once; apply (ms_ready 0 demo_w demo_tok1 7 20); lia).
  assert (manager_wf 0 demo_m1) as Hm.
  { apply (Begin_ok 0 ∅ (demo_descriptor "n2" "n3") (str "transport-1") hour 10 10 ltac:(lia)). apply map_Forall_empty. }
  assert (exists v sn, fst (Wait_round 0 demo_m2' (t_link demo_tok1) 25 25) = WaitReady v sn) as (v & sn & W2)
    by (eexists _, _; vm_compute; reflexivity).
  refine (no_lost_wakeup 0 demo_m1 demo_w demo_m2' (snd (Wait_round 0 demo_m2' (t_link demo_tok1) 25 25))
    (t_link demo_tok1) 12 12 25 25 1 tm v sn Hm W1 Hs _).
  exact (pair_of_fst _ _ W2).
Defined.

End SessionLinkProofs.
