(* ===== verification/NodeContext.v ===== *)
(** * Signed node contexts (authproof/node_context.go)

    A node's position in a chain: normalisation, validation, the canonical
    JSON that is signed, signing and verification, and what a verified
    context guarantees to the routing code. *)

From S2P Require Import Prelude GoStrings Sha256 GoEncoding AuthProof.

Module NodeContext.
Import GoStrings Sha256 GoEncoding AuthProof.

Definition NodeContextVersion : bytes := str "weaverssh.node-context.v1".
Definition AudienceNodeContext : bytes := str "wv-node-context".

Record NodeContext := mkContext {
  c_version : bytes;
  c_algorithm : bytes;
  c_issuer : bytes;
  c_audience : bytes;
  ChainID : bytes;
  c_chain : bytes;
  Nodes : list bytes;
  CurrentNode : bytes;
  OriginNode : bytes;
  EndpointNode : bytes;
  c_caps : list bytes;
  c_nonce : bytes;
  c_issued : Z;
  c_expires : Z
}.

Record SignedNodeContext := mkSignedContext {
  sc_context : NodeContext;
  sc_signature : bytes
}.

Record NodeContextVerifyOptions := mkContextOptions {
  no_now : Z;
  no_audience : bytes;
  no_chain_id : bytes;
  no_chain : bytes;
  no_current : bytes;
  no_max_ttl : Z
}.

Definition normalizeNodeContextNodes (nodes : list bytes) : list bytes := dedup_trim [] nodes.

Definition nodeInContext (nodes : list bytes) (want : bytes) : bool :=
  existsb (fun n => str_eqb n (TrimSpace want)) nodes.

Section Unicode.
Context `{UnicodeTables}.

Definition Normalized (c : NodeContext) : NodeContext :=
  let nodes := normalizeNodeContextNodes (Nodes c) in
  let caps := normalizeCapabilities (c_caps c) in
  {| c_version := or_default (c_version c) NodeContextVersion;
     c_algorithm := or_default (c_algorithm c) Algorithm;
     c_issuer := TrimSpace (c_issuer c);
     c_audience := TrimSpace (or_default (c_audience c) AudienceNodeContext);
     ChainID := TrimSpace (ChainID c);
     c_chain := ToLower (TrimSpace (c_chain c));
     Nodes := nodes;
     CurrentNode := TrimSpace (CurrentNode c);
     OriginNode := or_default (TrimSpace (OriginNode c)) (default [] (head nodes));
     EndpointNode := or_default (TrimSpace (EndpointNode c)) (default [] (last nodes));
     c_caps := match caps with [] => [CapabilityNodeContext] | _ => caps end;
     c_nonce := TrimSpace (c_nonce c);
     c_issued := c_issued c;
     c_expires := c_expires c |}.

Definition Validate (c0 : NodeContext) : option auth_error :=
  let c := Normalized c0 in
  if negb (str_eqb (c_version c) NodeContextVersion) then Some ErrInvalidGrant else
  if negb (str_eqb (c_algorithm c) Algorithm) then Some ErrInvalidGrant else
  if existsb (fun v => str_eqb v [])
       [c_issuer c; c_audience c; ChainID c; c_chain c; CurrentNode c; OriginNode c; EndpointNode c; c_nonce c]
  then Some ErrInvalidGrant else
  if negb (isLowerHexSHA256 (c_chain c)) then Some ErrInvalidGrant else
  if len (Nodes c) =? 0 then Some ErrInvalidGrant else
  if negb (forallb (nodeInContext (Nodes c)) [CurrentNode c; OriginNode c; EndpointNode c]) then Some ErrInvalidGrant else
  if negb (str_eqb (OriginNode c) (default [] (head (Nodes c)))) then Some ErrInvalidGrant else
  if negb (str_eqb (EndpointNode c) (default [] (last (Nodes c)))) then Some ErrInvalidGrant else
  if negb (hasCapability (c_caps c) CapabilityNodeContext) then Some ErrMissingCapability else
  if negb (forallb knownCapability (c_caps c)) then Some ErrInvalidGrant else
  if (c_issued c <=? 0) || (c_expires c <=? 0) || (c_expires c <=? c_issued c) then Some ErrInvalidGrant else None.

Definition marshal_context (c : NodeContext) : bytes :=
  [123] ++ json_field "version" (json_string (c_version c)) ++
  [44] ++ json_field "algorithm" (json_string (c_algorithm c)) ++
  [44] ++ json_field "issuer_peer_id" (json_string (c_issuer c)) ++
  [44] ++ json_field "audience" (json_string (c_audience c)) ++
  [44] ++ json_field "chain_id" (json_string (ChainID c)) ++
  [44] ++ json_field "chain_sha256" (json_string (c_chain c)) ++
  [44] ++ json_field "nodes" (json_strings (Nodes c)) ++
  [44] ++ json_field "current_node" (json_string (CurrentNode c)) ++
  [44] ++ json_field "origin_node" (json_string (OriginNode c)) ++
  [44] ++ json_field "endpoint_node" (json_string (EndpointNode c)) ++
  [44] ++ json_field "capabilities" (json_strings (c_caps c)) ++
  [44] ++ json_field "nonce" (json_string (c_nonce c)) ++
  [44] ++ json_field "issued_at_unix" (json_int (c_issued c)) ++
  [44] ++ json_field "expires_at_unix" (json_int (c_expires c)) ++ [125].

Definition CanonicalNodeContextBytes (c0 : NodeContext) : result auth_error bytes :=
  let c := Normalized c0 in
  match Validate c with
  | Some err => Err err
  | None => Ok (marshal_context c)
  end.

Section Ed25519.
Context `{Ed25519}.

Definition SignNodeContext (c : NodeContext) (privateKey : bytes) : result auth_error SignedNodeContext :=
  if negb (len privateKey =? PrivateKeySize) then Err ErrInvalidGrant else
  let* canonical := CanonicalNodeContextBytes c in
  Ok (mkSignedContext (Normalized c) (b64_encode (ed_sign privateKey canonical))).

Definition VerifySignedNodeContext (sc : SignedNodeContext) (publicKey : bytes) (opts : NodeContextVerifyOptions)
    (cache : option NonceCache) (clock : Z) : result auth_error NodeContext * option NonceCache :=
  if negb (len publicKey =? PublicKeySize) then (Err ErrInvalidGrant, cache) else
  let ctx := Normalized (sc_context sc) in
  match Validate ctx with Some e => (Err e, cache) | None =>
  match CanonicalNodeContextBytes ctx with Err e => (Err e, cache) | Ok canonical =>
  match check_signature publicKey canonical (sc_signature sc) with Some e => (Err e, cache) | None =>
  let now := if IsZero (no_now opts) then clock else no_now opts in
  let nowUnix := Unix now in
  if nowUnix <? c_issued ctx then (Err ErrNotYetValid, cache) else
  if c_expires ctx <=? nowUnix then (Err ErrExpiredGrant, cache) else
  if ttl_too_long (c_issued ctx) (c_expires ctx) (no_max_ttl opts) then (Err ErrGrantTTLTooLong, cache) else
  if negb (str_eqb (no_audience opts) []) && negb (str_eqb (c_audience ctx) (no_audience opts))
  then (Err ErrWrongAudience, cache) else
  if negb (str_eqb (no_chain_id opts) []) && negb (str_eqb (ChainID ctx) (no_chain_id opts))
  then (Err ErrWrongChainHash, cache) else
  if negb (str_eqb (no_chain opts) []) && negb (str_eqb (c_chain ctx) (ToLower (TrimSpace (no_chain opts))))
  then (Err ErrWrongChainHash, cache) else
  if negb (str_eqb (no_current opts) []) && negb (str_eqb (CurrentNode ctx) (TrimSpace (no_current opts)))
  then (Err ErrWrongSubject, cache) else
  match CheckAndStore cache (c_nonce ctx) (c_expires ctx) now with
  | (Some e, cache') => (Err e, cache')
  | (None, cache') => (Ok ctx, cache')
  end end end end.

End Ed25519.

(** ** What a valid context looks like *)

Record context_valid (c : NodeContext) : Prop := {
  cv_nodes : NoDup (Nodes c) /\ Nodes c <> [] /\ Forall (fun n => n <> [] /\ trimmed n) (Nodes c);
  cv_current : CurrentNode c ∈ Nodes c;
  cv_origin : head (Nodes c) = Some (OriginNode c);
  cv_endpoint : last (Nodes c) = Some (EndpointNode c);
  cv_chain : isLowerHexSHA256 (c_chain c) = true;
  cv_caps : CapabilityNodeContext ∈ c_caps c /\ Forall (fun x => knownCapability x = true) (c_caps c);
  cv_window : 0 < c_issued c < c_expires c
}.

Lemma nodes_normal c : NoDup (Nodes (Normalized c)) /\ Forall (fun n => n <> [] /\ trimmed n) (Nodes (Normalized c)).
Proof.
  destruct (dedup_trim_spec [] (Nodes c)) as [Hn Hf]. split; [done|]. eapply Forall_impl; [exact Hf|]. naive_solver.
Qed.

(** Normalising again keeps the nodes and the current node. *)
Lemma Nodes_idemp c : Nodes (Normalized (Normalized c)) = Nodes (Normalized c).
Proof.
  cbn. unfold normalizeNodeContextNodes. destruct (dedup_trim_spec [] (Nodes c)) as [Hn Hf]. by apply dedup_trim_id.
Qed.
Lemma CurrentNode_idemp c : CurrentNode (Normalized (Normalized c)) = CurrentNode (Normalized c).
Proof. cbn. apply TrimSpace_idemp. Qed.

Lemma ChainID_idemp c : ChainID (Normalized (Normalized c)) = ChainID (Normalized c).
Proof. cbn. apply TrimSpace_idemp. Qed.

Lemma Validate_valid c : Validate c = None -> context_valid (Normalized c).
Proof.
  unfold Validate. cbv zeta. destruct (nodes_normal c) as [Hnd Hf]. revert Hnd Hf.
  assert (TrimSpace (CurrentNode (Normalized c)) = CurrentNode (Normalized c)) as Ht by (cbn; apply TrimSpace_idemp).
  revert Ht. generalize (Normalized c). clear c. intros c Ht Hnd Hf.
  destruct (negb (str_eqb (c_version c) _)); [done|]. destruct (negb (str_eqb (c_algorithm c) _)); [done|].
  destruct (existsb _ _); [done|]. destruct (isLowerHexSHA256 (c_chain c)) eqn:Ec; [|done]. cbn [negb].
  destruct (Z.eqb_spec (len (Nodes c)) 0) as [|Hl]; [done|].
  destruct (forallb _ _) eqn:Ei; [|done]. cbn [negb].
  destruct (str_eqb_spec (OriginNode c) (default [] (head (Nodes c)))) as [Eo|]; [|done]. cbn [negb].
  destruct (str_eqb_spec (EndpointNode c) (default [] (last (Nodes c)))) as [Ee|]; [|done]. cbn [negb].
  destruct (hasCapability _ _) eqn:Eh; [|done]. destruct (forallb knownCapability _) eqn:Ek; [|done]. cbn [negb].
  destruct (_ || _ || _) eqn:Ew; [done|]. intros _. rewrite !orb_false_iff, !Z.leb_gt in Ew.
  assert (Nodes c <> []) as Hne by (intros E; rewrite E in Hl; by len_nil_simpl).
  constructor; try done.
  - cbn in Ei. apply andb_true_iff in Ei as [Ei _]. unfold nodeInContext in Ei.
    apply existsb_exists in Ei as (n & Hn & E). destruct (str_eqb_spec n (TrimSpace (CurrentNode c))); [|done].
    subst n. rewrite <- Ht. by apply list_elem_of_In.
  - rewrite Eo. by destruct (Nodes c).
  - rewrite Ee. destruct (last (Nodes c)) eqn:E; [done|]. by apply last_None in E.
  - split; [|by apply forallb_Forall_true]. apply hasCapability_spec in Eh. exact Eh.
  - lia.
Qed.

(** Another node of the same chain. *)
Definition at_node (c : NodeContext) (n : bytes) : NodeContext :=
  mkContext (c_version c) (c_algorithm c) (c_issuer c) (c_audience c) (ChainID c) (c_chain c) (Nodes c) n (OriginNode c) (EndpointNode c) (c_caps c) (c_nonce c) (c_issued c) (c_expires c).

Lemma or_default_nonempty v d : v <> [] -> or_default v d = v.
Proof. unfold or_default. by destruct (str_eqb_spec v []). Qed.

Lemma existsb_empty_true l : Forall (fun v => v <> []) l -> existsb (fun v => str_eqb v []) l = false.
Proof. induction 1 as [|v l Hv _ IH]; [done|]. cbn. rewrite IH. by destruct (str_eqb_spec v []). Qed.

(** Every node of a valid context's chain has a valid context, already in normal form. *)
Lemma Normalized_at_node c n : Validate c = None -> n ∈ Nodes (Normalized c) ->
  Normalized (at_node (Normalized c) n) = at_node (Normalized c) n /\ Validate (at_node (Normalized c) n) = None.
Proof.
  intros Hv Hn. pose proof (Validate_valid c Hv) as [(Hnd & Hne & Hf) Hcur Ho He Hc Hcaps Hw]. pose proof Hv as Hv0.
  unfold Validate in Hv. cbv zeta in Hv.
  destruct (negb (str_eqb (c_version _) _)) eqn:E1; [done|]. destruct (negb (str_eqb (c_algorithm _) _)) eqn:E2; [done|].
  destruct (existsb _ _) eqn:E3; [done|]. apply existsb_empty_false in E3. rewrite !Forall_cons in E3. destruct E3 as (V1 & V2 & V3 & V4 & V5 & V6 & V7 & V8 & _).
  assert (n <> [] /\ trimmed n) as [Hnn Htn] by (rewrite Forall_forall in Hf; by apply Hf).
  apply isLowerHexSHA256_plain in Hc as [_ Hlow].
  assert (Normalized (at_node (Normalized c) n) = at_node (Normalized c) n) as E.
  { unfold at_node, Normalized at 1. cbn [c_version c_algorithm c_issuer c_audience ChainID c_chain Nodes CurrentNode OriginNode EndpointNode c_caps c_nonce c_issued c_expires].
    assert (normalizeNodeContextNodes (Nodes (Normalized c)) = Nodes (Normalized c)) as -> by apply (Nodes_idemp c).
    rewrite (trimmed_TrimSpace n Htn), Hlow. f_equal; cbn; rewrite ?TrimSpace_idemp, ?or_default_idemp, ?normalizeCapabilities_idemp by done; try done.
    - rewrite or_default_nonempty, TrimSpace_idemp by done. done.
    - revert V6 Ho. cbn. unfold or_default. destruct (str_eqb_spec (TrimSpace (OriginNode c)) []) as [|Hz].
      + intros V6 Ho. assert (TrimSpace (default [] (head (normalizeNodeContextNodes (Nodes c)))) = default [] (head (normalizeNodeContextNodes (Nodes c)))) as ->.
        { rewrite Ho. cbn. apply trimmed_TrimSpace. rewrite Forall_forall in Hf. apply Hf. cbn. destruct (normalizeNodeContextNodes (Nodes c)); [done|]. left. }
        by destruct (str_eqb_spec (default [] (head (normalizeNodeContextNodes (Nodes c)))) []).
      + intros _ _. rewrite TrimSpace_idemp. by destruct (str_eqb_spec (TrimSpace (OriginNode c)) []).
    - revert V7 He. cbn. unfold or_default. destruct (str_eqb_spec (TrimSpace (EndpointNode c)) []) as [|Hz].
      + intros V7 He. assert (TrimSpace (default [] (last (normalizeNodeContextNodes (Nodes c)))) = default [] (last (normalizeNodeContextNodes (Nodes c)))) as ->.
        { rewrite He. cbn. apply trimmed_TrimSpace. rewrite Forall_forall in Hf. apply Hf. cbn. by apply last_Some_elem_of. }
        by destruct (str_eqb_spec (default [] (last (normalizeNodeContextNodes (Nodes c)))) []).
      + intros _ _. rewrite TrimSpace_idemp. by destruct (str_eqb_spec (TrimSpace (EndpointNode c)) []).
    - destruct (normalizeCapabilities (c_caps c)) eqn:Ec; [done|]. by rewrite <- Ec, normalizeCapabilities_idemp, Ec. }
  split; [exact E|]. unfold Validate. rewrite E. cbv zeta. cbn [at_node c_version c_algorithm c_issuer c_audience ChainID c_chain Nodes CurrentNode OriginNode EndpointNode c_caps c_nonce c_issued c_expires].
  rewrite E1, E2, existsb_empty_true by (by repeat constructor).
  destruct (negb (isLowerHexSHA256 _)); [done|]. destruct (_ =? 0); [done|]. cbn [forallb] in Hv |- *.
  assert (nodeInContext (Nodes (Normalized c)) n = true) as ->.
  { unfold nodeInContext. apply existsb_exists. exists n. rewrite (trimmed_TrimSpace n Htn). split; [by apply list_elem_of_In|apply str_eqb_refl]. }
  destruct (nodeInContext _ (CurrentNode _)); [|done]. exact Hv.
Qed.

Lemma ChainID_valid c : Validate c = None -> TrimSpace (ChainID (Normalized c)) = ChainID (Normalized c) /\ ChainID (Normalized c) <> [].
Proof.
  intros Hv. split; [cbn; apply TrimSpace_idemp|]. unfold Validate in Hv. cbv zeta in Hv. do 2 (destruct (negb _); [done|]).
  destruct (existsb _ _) eqn:E; [done|]. apply existsb_empty_false in E. rewrite !Forall_cons in E. tauto.
Qed.

Lemma at_node_same c : at_node c (CurrentNode c) = c.
Proof. by destruct c. Qed.

Lemma Normalized_valid c : Validate c = None -> Normalized (Normalized c) = Normalized c /\ Validate (Normalized c) = None.
Proof.
  intros Hv. pose proof (Validate_valid c Hv) as [_ Hcur _ _ _ _ _]. pose proof (Normalized_at_node c _ Hv Hcur) as E. by rewrite at_node_same in E.
Qed.

End Unicode.

#[global] Arguments Normalized : simpl never.
#[global] Opaque Normalized.

End NodeContext.
