(* ===== verification/HopProof.v ===== *)
(** * Chains of signed hops (hopproof/hop.go)

    Every SSH hop of a session is signed by the node it leaves and linked to the
    record before it by SHA-256; the node it arrives at verifies the whole path.
    OpenSSH signatures are an interface, as are the random nonce and the JSON
    decoder of an encoded chain. *)

From S2P Require Import Prelude GoStrings Sha256 GoEncoding AuthProof NodeContext.

Module HopProof.
Import GoStrings Sha256 GoEncoding AuthProof NodeContext.

Definition ChainVersion : bytes := str "weaverssh.hop-chain.v1".
Definition HopVersion : bytes := str "weaverssh.hop.v1".
Definition MaxHops : Z := 16.
Definition MaxEncodedBytes : Z := 48 * 1024.

Inductive hop_error : Type :=
| ErrInvalidChain
| ErrWrongHop
| ErrExpiredHop
| ErrHopReplay
| ErrSignature
| ErrNoNextNode
| ErrNoPreviousNode
| ErrContext (e : auth_error)
| ErrSigner
| ErrRandom.

Record Hop := mkHop {
  h_Version : bytes;
  h_ChainID : bytes;
  h_ChainSHA256 : bytes;
  RootNode : bytes;
  FromNode : bytes;
  ToNode : bytes;
  HopIndex : Z;
  ParentHopSHA256 : bytes;
  ParentSessionBinding : bytes;
  h_Nonce : bytes;
  h_IssuedAtUnix : Z;
  h_ExpiresAtUnix : Z
}.

Record SignedHop := mkSignedHop {
  Principal : bytes;
  sh_Hop : Hop;
  sh_Signature : bytes
}.

Record Chain := mkChain {
  ch_Version : bytes;
  Hops : list SignedHop
}.

Record HopVerifyOptions := mkHopOptions {
  ho_Now : Z;
  ho_MaxTTL : Z;
  ho_ClockSkew : Z
}.

(** The interfaces [Signer] and [Verifier]. *)
Class SshSig : Type := {
  ssh_Sign : bytes -> bytes -> option bytes;
  ssh_Verify : bytes -> bytes -> bytes -> bool
}.

(** What ssh-keygen documents: a signature made for a principal verifies for it. *)
Class SshSigLaws `{SshSig} : Prop := {
  ssh_sign_verifies : forall p m s, ssh_Sign p m = Some s -> ssh_Verify p m s = true;
  ssh_sign_bytes : forall p m s, ssh_Sign p m = Some s -> bytes_ok s
}.

Section Unicode.
Context `{UnicodeTables}.

(** ** Position in the topology *)

Definition CurrentIndex (ctx : NodeContext) : result hop_error Z :=
  let ctx := Normalized ctx in
  match Validate ctx with
  | Some e => Err (ErrContext e)
  | None =>
    let index := index_from 0 (Nodes ctx) (CurrentNode ctx) in
    if index <? 0 then Err ErrInvalidChain else Ok index
  end.

(** An index the code has checked. *)
Definition node_at_index (nodes : list bytes) (i : Z) : bytes := nth (Z.to_nat i) nodes [].

Definition PreviousNode (ctx : NodeContext) : result hop_error bytes :=
  let* index := CurrentIndex ctx in
  if index <=? 0 then Err ErrNoPreviousNode else Ok (node_at_index (Nodes (Normalized ctx)) (index - 1)).

Definition NextNode (ctx : NodeContext) : result hop_error bytes :=
  let* index := CurrentIndex ctx in
  if len (Nodes (Normalized ctx)) <=? index + 1 then Err ErrNoNextNode else Ok (node_at_index (Nodes (Normalized ctx)) (index + 1)).

(** ** Records *)

Definition normalizeHop (hop : Hop) : Hop :=
  {| h_Version := or_default (h_Version hop) HopVersion;
     h_ChainID := TrimSpace (h_ChainID hop);
     h_ChainSHA256 := ToLower (TrimSpace (h_ChainSHA256 hop));
     RootNode := TrimSpace (RootNode hop);
     FromNode := TrimSpace (FromNode hop);
     ToNode := TrimSpace (ToNode hop);
     HopIndex := HopIndex hop;
     ParentHopSHA256 := ToLower (TrimSpace (ParentHopSHA256 hop));
     ParentSessionBinding := TrimSpace (ParentSessionBinding hop);
     h_Nonce := TrimSpace (h_Nonce hop);
     h_IssuedAtUnix := h_IssuedAtUnix hop;
     h_ExpiresAtUnix := h_ExpiresAtUnix hop |}.

Definition validateHop (hop : Hop) : option hop_error :=
  if negb (str_eqb (h_Version hop) HopVersion) || str_eqb (h_ChainID hop) [] || str_eqb (RootNode hop) [] || str_eqb (FromNode hop) []
     || str_eqb (ToNode hop) [] || str_eqb (h_Nonce hop) [] || (HopIndex hop <=? 0) then Some ErrInvalidChain else
  if negb (len (h_ChainSHA256 hop) =? 64) then Some ErrInvalidChain else
  if negb (str_eqb (ParentHopSHA256 hop) []) && negb (len (ParentHopSHA256 hop) =? 64) then Some ErrInvalidChain else
  if h_ExpiresAtUnix hop <=? h_IssuedAtUnix hop then Some ErrInvalidChain else None.

(** [json.Marshal]; the parent's digest and binding have [omitempty]. *)
Definition marshal_hop (hop : Hop) : bytes :=
  [123] ++ json_field "version" (json_string (h_Version hop)) ++
  [44] ++ json_field "chain_id" (json_string (h_ChainID hop)) ++
  [44] ++ json_field "chain_sha256" (json_string (h_ChainSHA256 hop)) ++
  [44] ++ json_field "root_node" (json_string (RootNode hop)) ++
  [44] ++ json_field "from_node" (json_string (FromNode hop)) ++
  [44] ++ json_field "to_node" (json_string (ToNode hop)) ++
  [44] ++ json_field "hop_index" (json_int (HopIndex hop)) ++
  (if str_eqb (ParentHopSHA256 hop) [] then [] else [44] ++ json_field "parent_hop_sha256" (json_string (ParentHopSHA256 hop))) ++
  (if str_eqb (ParentSessionBinding hop) [] then [] else [44] ++ json_field "parent_session_binding" (json_string (ParentSessionBinding hop))) ++
  [44] ++ json_field "nonce" (json_string (h_Nonce hop)) ++
  [44] ++ json_field "issued_at_unix" (json_int (h_IssuedAtUnix hop)) ++
  [44] ++ json_field "expires_at_unix" (json_int (h_ExpiresAtUnix hop)) ++ [125].

Definition marshal_signed_hop (s : SignedHop) : bytes :=
  [123] ++ json_field "principal" (json_string (Principal s)) ++
  [44] ++ json_field "hop" (marshal_hop (sh_Hop s)) ++
  [44] ++ json_field "signature" (json_string (sh_Signature s)) ++ [125].

Definition CanonicalHopBytes (hop : Hop) : result hop_error bytes :=
  let hop := normalizeHop hop in
  match validateHop hop with
  | Some e => Err e
  | None => Ok (marshal_hop hop)
  end.

Definition SignedHopDigest (hop : SignedHop) : result hop_error bytes :=
  let hop := mkSignedHop (TrimSpace (Principal hop)) (normalizeHop (sh_Hop hop)) (sh_Signature hop) in
  if str_eqb (Principal hop) [] || str_eqb (sh_Signature hop) [] then Err ErrInvalidChain
  else Ok (sha256_hex (marshal_signed_hop hop)).

Definition ImmediatePrevious (chain : Chain) : result hop_error bytes :=
  match last (Hops chain) with
  | None => Err ErrInvalidChain
  | Some s => Ok (FromNode (sh_Hop s))
  end.

(** ** Appending a hop

    [nonce] is what the random source returned, [clock] the reading used when
    no time is given. *)

Section Signatures.
Context `{SshSig}.

Definition Append (nodeContext : NodeContext) (parent : Chain) (parentBinding : bytes) (ttl now clock : Z) (nonce : option bytes) : result hop_error Chain :=
  let nodeContext := Normalized nodeContext in
  let* index := CurrentIndex nodeContext in
  if len (Nodes nodeContext) <=? index + 1 then Err ErrNoNextNode else
  let ttl := if ttl <=? 0 then 300 * second else ttl in
  let now := if IsZero now then clock else now in
  if negb (len (Hops parent) =? index) then Err ErrInvalidChain else
  if (0 <? index) && str_eqb (TrimSpace parentBinding) [] then Err ErrInvalidChain else
  let parent := if index =? 0 then mkChain ChainVersion [] else parent in
  let parentBinding := if index =? 0 then [] else parentBinding in
  let* parentDigest := match last (Hops parent) with None => Ok [] | Some s => SignedHopDigest s end in
  match nonce with
  | None => Err ErrRandom
  | Some raw =>
    let hop := mkHop HopVersion (ChainID nodeContext) (c_chain nodeContext) (node_at_index (Nodes nodeContext) 0) (CurrentNode nodeContext)
      (node_at_index (Nodes nodeContext) (index + 1)) (index + 1) parentDigest (TrimSpace parentBinding) (b64_encode raw) (Unix now) (Unix (now + ttl)) in
    let* message := CanonicalHopBytes hop in
    match ssh_Sign (FromNode hop) message with
    | None => Err ErrSigner
    | Some signature =>
      if len signature =? 0 then Err ErrSignature else
      let signed := mkSignedHop (FromNode hop) hop (b64_encode signature) in
      let out := mkChain ChainVersion (Hops parent ++ [signed]) in
      if MaxHops <? len (Hops out) then Err ErrInvalidChain else Ok out
    end
  end.

(** ** Verifying a path *)

(** The checks of one record before its signature. *)
Definition check_hop (ctx : NodeContext) (hopIndex : Z) (previousDigest : bytes) (now maxTTL skew : Z) (signed : SignedHop) : option hop_error :=
  let hop := normalizeHop (sh_Hop signed) in
  let expectedFrom := node_at_index (Nodes ctx) hopIndex in
  let expectedTo := node_at_index (Nodes ctx) (hopIndex + 1) in
  if negb (str_eqb (Principal signed) expectedFrom) || negb (str_eqb (FromNode hop) expectedFrom) || negb (str_eqb (ToNode hop) expectedTo)
     || negb (HopIndex hop =? hopIndex + 1) || negb (str_eqb (RootNode hop) (node_at_index (Nodes ctx) 0))
     || negb (str_eqb (h_ChainID hop) (ChainID ctx)) || negb (str_eqb (h_ChainSHA256 hop) (c_chain ctx))
     || negb (str_eqb (ParentHopSHA256 hop) previousDigest) then Some ErrWrongHop else
  if (hopIndex =? 0) && negb (str_eqb (ParentSessionBinding hop) []) then Some ErrWrongHop else
  if (0 <? hopIndex) && str_eqb (ParentSessionBinding hop) [] then Some ErrWrongHop else
  if (h_IssuedAtUnix hop <=? 0) || (h_ExpiresAtUnix hop <=? h_IssuedAtUnix hop)
     || (maxTTL <? i64 (i64 (h_ExpiresAtUnix hop - h_IssuedAtUnix hop) * second)) then Some ErrInvalidChain else
  if Unix (now + skew) <? h_IssuedAtUnix hop then Some ErrInvalidChain else
  if h_ExpiresAtUnix hop <=? Unix (now - skew) then Some ErrExpiredHop else None.

(** The loop of [Verify]. *)
Fixpoint verify_hops (ctx : NodeContext) (hopIndex : Z) (previousDigest : bytes) (now maxTTL skew : Z) (hops : list SignedHop)
    (cache : option NonceCache) : option hop_error * option NonceCache :=
  match hops with
  | [] => (None, cache)
  | signed :: rest =>
    let hop := normalizeHop (sh_Hop signed) in
    match check_hop ctx hopIndex previousDigest now maxTTL skew signed with
    | Some e => (Some e, cache)
    | None =>
      match CanonicalHopBytes hop with
      | Err e => (Some e, cache)
      | Ok message =>
        match b64_decode (sh_Signature signed) with
        | None | Some [] => (Some ErrSignature, cache)
        | Some signature =>
          if negb (ssh_Verify (Principal signed) message signature) then (Some ErrSignature, cache) else
          match CheckAndStore cache (h_Nonce hop) (h_ExpiresAtUnix hop) now with
          | (Some _, cache) => (Some ErrHopReplay, cache)
          | (None, cache) =>
            match SignedHopDigest (mkSignedHop (Principal signed) hop (sh_Signature signed)) with
            | Err e => (Some e, cache)
            | Ok digest => verify_hops ctx (hopIndex + 1) digest now maxTTL skew rest cache
            end
          end
        end
      end
    end
  end.

Definition Verify (nodeContext : NodeContext) (chain : Chain) (options : HopVerifyOptions) (cache : option NonceCache) (clock : Z)
    : option hop_error * option NonceCache :=
  let nodeContext := Normalized nodeContext in
  match CurrentIndex nodeContext with
  | Err e => (Some e, cache)
  | Ok index =>
    if index <=? 0 then (Some ErrNoPreviousNode, cache) else
    if negb (str_eqb (ch_Version chain) ChainVersion) || negb (len (Hops chain) =? index) || (MaxHops <? len (Hops chain))
    then (Some ErrInvalidChain, cache) else
    let now := if IsZero (ho_Now options) then clock else ho_Now options in
    let maxTTL := if ho_MaxTTL options <=? 0 then 600 * second else ho_MaxTTL options in
    let skew := Z.max 0 (ho_ClockSkew options) in
    match verify_hops nodeContext 0 [] now maxTTL skew (Hops chain) cache with
    | (Some e, cache) => (Some e, cache)
    | (None, cache) =>
      match last (Hops chain) with
      | Some s => if negb (str_eqb (ToNode (sh_Hop s)) (CurrentNode nodeContext)) then (Some ErrWrongHop, cache) else (None, cache)
      | None => (Some ErrWrongHop, cache)
      end
    end
  end.

End Signatures.
End Unicode.

(** ** The environment variable *)

Fixpoint marshal_hops (hops : list SignedHop) : bytes :=
  match hops with
  | [] => []
  | [s] => marshal_signed_hop s
  | s :: rest => marshal_signed_hop s ++ [44] ++ marshal_hops rest
  end.
Definition marshal_chain (chain : Chain) : bytes :=
  [123] ++ json_field "version" (json_string (ch_Version chain)) ++ [44] ++ json_field "hops" ([91] ++ marshal_hops (Hops chain) ++ [93]) ++ [125].

Definition chain_bounds (chain : Chain) : bool := str_eqb (ch_Version chain) ChainVersion && (0 <? len (Hops chain)) && (len (Hops chain) <=? MaxHops).

Definition Encode (chain : Chain) : result hop_error bytes :=
  if negb (chain_bounds chain) then Err ErrInvalidChain else
  let encoded := b64_encode (marshal_chain chain) in
  if MaxEncodedBytes <? len encoded then Err ErrInvalidChain else Ok encoded.

(** [unmarshal] is [json.Unmarshal] into a [Chain]. *)
Definition Decode (unmarshal : bytes -> option Chain) (encoded : bytes) : result hop_error Chain :=
  let encoded := TrimSpace encoded in
  if str_eqb encoded [] || (MaxEncodedBytes <? len encoded) then Err ErrInvalidChain else
  match b64_decode encoded with
  | None => Err ErrInvalidChain
  | Some payload =>
    match unmarshal payload with
    | None => Err ErrInvalidChain
    | Some chain => if negb (chain_bounds chain) then Err ErrInvalidChain else Ok chain
    end
  end.

End HopProof.
