(* ===== verification/HopProofs.v ===== *)
(** * Chains of signed hops: lemmas

    What a record has to satisfy, what the loop over the records establishes, and
    the bytes that determine a record. *)

From S2P Require Import Prelude GoStrings Sha256 GoEncoding AuthProof NodeContext HopProof.

Module HopProofs.
Import GoStrings Sha256 GoEncoding AuthProof NodeContext HopProof.

(** ** Positions *)

Lemma index_from_lookup l want i : index_from i l want = -1 \/ exists k, l !! k = Some want /\ index_from i l want = i + Z.of_nat k.
Proof.
  revert i. induction l as [|v r IH]; intros i; cbn [index_from]; [by left|]. destruct (str_eqb_spec v want) as [->|].
  - right. exists 0%nat. split; [done|lia].
  - destruct (IH (i + 1)) as [->|(k & Hk & ->)]; [by left|]. right. exists (S k). split; [done|lia].
Qed.

Lemma index_from_nodup l want i k : NoDup l -> l !! k = Some want -> index_from i l want = i + Z.of_nat k.
Proof.
  intros Hnd. revert i k. induction Hnd as [|v r Hv Hnd IH]; intros i k Hk; [done|]. cbn [index_from]. destruct k as [|k]; cbn in Hk.
  - injection Hk as ->. rewrite str_eqb_refl. lia.
  - destruct (str_eqb_spec v want) as [->|]; [by apply list_elem_of_lookup_2 in Hk|]. rewrite (IH _ k Hk). lia.
Qed.

Section Positions.
Context `{UnicodeTables}.

Lemma CurrentIndex_ok ctx index : CurrentIndex ctx = Ok index ->
  Validate (Normalized ctx) = None /\ 0 <= index < len (Nodes (Normalized ctx)) /\ node_at_index (Nodes (Normalized ctx)) index = CurrentNode (Normalized ctx).
Proof.
  unfold CurrentIndex. destruct (Validate _) eqn:Ev; [done|]. destruct (Z.ltb_spec (index_from 0 (Nodes (Normalized ctx)) (CurrentNode (Normalized ctx))) 0) as [|Hi]; [done|].
  intros [= <-]. split; [done|]. destruct (index_from_lookup (Nodes (Normalized ctx)) (CurrentNode (Normalized ctx)) 0) as [E|(k & Hk & E)]; [lia|]. rewrite E.
  apply lookup_lt_Some in Hk as Hlt. unfold len, node_at_index. split; [lia|]. replace (Z.to_nat (0 + Z.of_nat k)) with k by lia. by apply nth_lookup_Some.
Qed.

Lemma CurrentIndex_at_node c k n : Validate c = None -> Nodes (Normalized c) !! k = Some n -> CurrentIndex (at_node (Normalized c) n) = Ok (Z.of_nat k).
Proof.
  intros Hv Hk. destruct (Normalized_at_node c n Hv) as [E Ev]; [by eapply list_elem_of_lookup_2|]. unfold CurrentIndex. rewrite E, Ev. cbn [at_node Nodes CurrentNode].
  apply Validate_valid in Hv as [(Hnd & _) _ _ _ _ _ _]. rewrite (index_from_nodup _ _ 0 k Hnd Hk). destruct (Z.ltb_spec (0 + Z.of_nat k) 0); [lia|]. f_equal; lia.
Qed.

End Positions.

(** ** The bytes of a record *)

Record hop_text (h : Hop) : Prop := {
  ht_strings : Forall text_ok [h_Version h; h_ChainID h; h_ChainSHA256 h; RootNode h; FromNode h; ToNode h; ParentHopSHA256 h; ParentSessionBinding h; h_Nonce h];
  ht_ints : 0 <= HopIndex h < 2 ^ 63 /\ 0 <= h_IssuedAtUnix h < 2 ^ 63 /\ 0 <= h_ExpiresAtUnix h < 2 ^ 63
}.

(** The text does not go on with the field [k]. *)
Definition not_field (k : string) (t : bytes) : Prop := forall v u, t <> [44] ++ json_field k v ++ u.

Lemma opt_field_inj k s s' t t' : not_field k t -> not_field k t' -> text_ok s -> text_ok s' ->
  (if str_eqb s [] then [] else [44] ++ json_field k (json_string s)) ++ t = (if str_eqb s' [] then [] else [44] ++ json_field k (json_string s')) ++ t' ->
  s = s' /\ t = t'.
Proof.
  intros Ht Ht' Hs Hs' E. destruct (str_eqb_spec s []) as [->|Hn], (str_eqb_spec s' []) as [->|Hn'].
  - done.
  - exfalso. rewrite app_nil_l, <- app_assoc in E. by apply Ht in E.
  - exfalso. rewrite app_nil_l, <- app_assoc in E. symmetry in E. by apply Ht' in E.
  - rewrite <- !app_assoc in E. next_string E. done.
Qed.

Lemma parent_names v u v' u' : json_field "parent_hop_sha256" v ++ u <> json_field "parent_session_binding" v' ++ u'.
Proof.
  unfold json_field. assert (exists r, json_string (str "parent_hop_sha256") = [34] ++ str "parent_h" ++ r) as [r ->] by (vm_compute; eauto).
  assert (exists r, json_string (str "parent_session_binding") = [34] ++ str "parent_s" ++ r) as [r' ->] by (vm_compute; eauto). vm_compute. congruence.
Qed.
Lemma parent_or_nonce k v u v' u' : k = "parent_hop_sha256"%string \/ k = "parent_session_binding"%string -> json_field k v ++ u <> json_field "nonce" v' ++ u'.
Proof.
  unfold json_field. assert (exists r, json_string (str "nonce") = [34; 110] ++ r) as [r ->] by (vm_compute; eauto).
  intros Hk. assert (exists r, json_string (str k) = [34; 112] ++ r) as [r' ->] by (destruct Hk as [-> | ->]; vm_compute; eauto). cbn. congruence.
Qed.

Lemma not_field_nonce k v u : k = "parent_hop_sha256"%string \/ k = "parent_session_binding"%string -> not_field k ([44] ++ json_field "nonce" v ++ u).
Proof. intros Hk v' u' E. apply app_inv_head in E. symmetry in E. by apply parent_or_nonce in E. Qed.

Lemma not_field_binding s v u : not_field "parent_hop_sha256"
  ((if str_eqb s [] then [] else [44] ++ json_field "parent_session_binding" (json_string s)) ++ [44] ++ json_field "nonce" v ++ u).
Proof.
  destruct (str_eqb s []); [apply not_field_nonce; by left|]. intros v' u' E. rewrite <- app_assoc in E. apply app_inv_head in E. symmetry in E. by apply parent_names in E.
Qed.

Lemma opt_end k s t : int_end t -> int_end ((if str_eqb s [] then [] else [44] ++ json_field k (json_string s)) ++ t).
Proof. destruct (str_eqb s []); [done|]. intros _. rewrite <- app_assoc. apply int_end_comma. Qed.

Lemma marshal_hop_inj h h' t t' : hop_text h -> hop_text h' -> marshal_hop h ++ t = marshal_hop h' ++ t' -> h = h' /\ t = t'.
Proof.
  intros [Hs Ht] [Hs' Ht'] E. rewrite !Forall_cons in Hs, Hs'.
  destruct Hs as (? & ? & ? & ? & ? & ? & ? & ? & ? & _), Hs' as (? & ? & ? & ? & ? & ? & ? & ? & ? & _).
  unfold marshal_hop in E. rewrite <- !(app_assoc _ _ t), <- !(app_assoc _ _ t') in E. do 6 next_string E.
  apply app_inv_head, json_field_inj, json_int_inj in E as [? E]; [|lia|lia|repeat apply opt_end; apply int_end_comma..].
  apply opt_field_inj in E as [? E]; [|apply not_field_binding|apply not_field_binding|done|done].
  apply opt_field_inj in E as [? E]; [|apply not_field_nonce; by right|apply not_field_nonce; by right|done|done].
  next_string E. do 2 (apply app_inv_head, json_field_inj, json_int_inj in E as [? E]; [|lia|lia|try apply int_end_comma..]).
  2,3: intros x [= <-]; unfold is_digit; lia.
  apply app_inv_head in E. split; [|done]. destruct h, h'; cbn in *. by subst.
Qed.

Record signed_text (s : SignedHop) : Prop := {
  gt_hop : hop_text (sh_Hop s);
  gt_principal : text_ok (Principal s);
  gt_signature : text_ok (sh_Signature s)
}.

Lemma marshal_signed_hop_inj s s' : signed_text s -> signed_text s' -> marshal_signed_hop s = marshal_signed_hop s' -> s = s'.
Proof.
  intros [Hh Hp Hg] [Hh' Hp' Hg'] E. unfold marshal_signed_hop in E. next_string E. apply app_inv_head, json_field_inj, marshal_hop_inj in E as [? E]; [|done|done].
  next_string E. destruct s, s'; cbn in *. by subst.
Qed.

(** ** Records of a path *)

Section Path.
Context `{UnicodeTables} `{SshSig}.

Definition norm_signed (s : SignedHop) : SignedHop := mkSignedHop (Principal s) (normalizeHop (sh_Hop s)) (sh_Signature s).
Definition hop_digest (s : SignedHop) : bytes := sha256_hex (marshal_signed_hop (norm_signed s)).

(** The record for the hop from node [k] of the chain to the next. *)
Record hop_good (ctx : NodeContext) (k : Z) (previous : bytes) (s : SignedHop) : Prop := {
  hg_principal : Principal s = node_at_index (Nodes ctx) k;
  hg_from : FromNode (normalizeHop (sh_Hop s)) = node_at_index (Nodes ctx) k;
  hg_to : ToNode (normalizeHop (sh_Hop s)) = node_at_index (Nodes ctx) (k + 1);
  hg_index : HopIndex (sh_Hop s) = k + 1;
  hg_root : RootNode (normalizeHop (sh_Hop s)) = node_at_index (Nodes ctx) 0;
  hg_chain_id : h_ChainID (normalizeHop (sh_Hop s)) = ChainID ctx;
  hg_chain : h_ChainSHA256 (normalizeHop (sh_Hop s)) = c_chain ctx;
  hg_parent : ParentHopSHA256 (normalizeHop (sh_Hop s)) = previous;
  hg_binding : k = 0 <-> ParentSessionBinding (normalizeHop (sh_Hop s)) = []
}.

Record hop_current (now maxTTL skew : Z) (h : Hop) : Prop := {
  hc_issued : 0 < h_IssuedAtUnix h < h_ExpiresAtUnix h;
  hc_ttl : i64 (i64 (h_ExpiresAtUnix h - h_IssuedAtUnix h) * second) <= maxTTL;
  hc_window : h_IssuedAtUnix h <= Unix (now + skew) /\ Unix (now - skew) < h_ExpiresAtUnix h
}.

Definition hop_signed (s : SignedHop) : Prop :=
  exists signature, b64_decode (sh_Signature s) = Some signature /\ signature <> [] /\ ssh_Verify (Principal s) (marshal_hop (normalizeHop (sh_Hop s))) signature = true.

Record record_ok (ctx : NodeContext) (now maxTTL skew k : Z) (previous : bytes) (s : SignedHop) : Prop := {
  ro_good : hop_good ctx k previous s;
  ro_current : hop_current now maxTTL skew (sh_Hop s);
  ro_valid : validateHop (normalizeHop (sh_Hop s)) = None;
  ro_signed : hop_signed s
}.

Lemma negb_str_eqb a b : negb (str_eqb a b) = false <-> a = b.
Proof. rewrite negb_false_iff. destruct (str_eqb_spec a b); naive_solver. Qed.

Lemma check_hop_ok ctx k previous now maxTTL skew s : 0 <= k ->
  check_hop ctx k previous now maxTTL skew s = None <-> hop_good ctx k previous s /\ hop_current now maxTTL skew (sh_Hop s).
Proof.
  intros Hk. unfold check_hop. cbv zeta. split.
  - destruct (_ || _) eqn:E1; [done|]. rewrite !orb_false_iff, !negb_str_eqb, negb_false_iff, Z.eqb_eq in E1. destruct E1 as [[[[[[[? ?] ?] ?] ?] ?] ?] ?].
    destruct (_ && _) eqn:E2; [done|]. destruct ((0 <? k) && _) eqn:E3; [done|]. destruct (_ || _ || _) eqn:E4; [done|].
    destruct (Z.ltb_spec (Unix (now + skew)) (h_IssuedAtUnix (normalizeHop (sh_Hop s)))); [done|]. destruct (Z.leb_spec (h_ExpiresAtUnix (normalizeHop (sh_Hop s))) (Unix (now - skew))); [done|].
    rewrite !orb_false_iff, !Z.leb_gt, Z.ltb_ge in E4. cbn in *. intros _. split; [constructor; try done|constructor; cbn; lia].
    destruct (str_eqb_spec (TrimSpace (ParentSessionBinding (sh_Hop s))) []) as [Eb|Eb].
    + split; [done|]. intros _. rewrite andb_true_r in E3. lia.
    + split; [|done]. intros ->. done.
  - intros [[E1 E2 E3 E4 E5 E6 E7 E8 E9] [Hi Ht [Hw1 Hw2]]].
    rewrite E1, E2, E3, E5, E6, E7, E8, !str_eqb_refl. cbn [normalizeHop HopIndex h_IssuedAtUnix h_ExpiresAtUnix]. rewrite E4, Z.eqb_refl. cbn [negb orb].
    rewrite (proj2 (andb_false_iff (k =? 0) _)), (proj2 (andb_false_iff (0 <? k) _)).
    + rewrite (proj2 (Z.leb_gt _ _)), (proj2 (Z.leb_gt _ _)), (proj2 (Z.ltb_ge _ _)), (proj2 (Z.ltb_ge _ _)), (proj2 (Z.leb_gt _ _)) by lia. done.
    + destruct (Z.ltb_spec 0 k); [|by left]. right. destruct (str_eqb_spec (ParentSessionBinding (normalizeHop (sh_Hop s))) []) as [Eb|]; [|done]. apply E9 in Eb. lia.
    + destruct (Z.eqb_spec k 0) as [->|]; [|by left]. right. by rewrite (proj1 E9 eq_refl).
Qed.

Lemma normalizeHop_good ctx k previous s : isLowerHexSHA256 (c_chain ctx) = true -> ToLower (TrimSpace previous) = previous -> hop_good ctx k previous s ->
  normalizeHop (normalizeHop (sh_Hop s)) = normalizeHop (sh_Hop s).
Proof.
  intros Hc Hp [_ _ _ _ _ _ E7 E8 _]. apply isLowerHexSHA256_plain in Hc as [_ Hc]. unfold normalizeHop at 1. rewrite E7, E8, Hc, Hp. rewrite <- E7 at 1. rewrite <- E8 at 1.
  unfold normalizeHop. cbn. by rewrite !TrimSpace_idemp, or_default_idemp.
Qed.

Lemma hop_validate_ids h : validateHop h = None -> FromNode h <> [] /\ h_Nonce h <> [].
Proof.
  unfold validateHop. destruct (_ || _) eqn:E; [done|]. rewrite !orb_false_iff in E. intros _. destruct E as [[[[[[_ _] _] E1] _] E2] _].
  split; [by destruct (str_eqb_spec (FromNode h) [])|by destruct (str_eqb_spec (h_Nonce h) [])].
Qed.

Lemma SignedHopDigest_good ctx now maxTTL skew k previous s : isLowerHexSHA256 (c_chain ctx) = true -> ToLower (TrimSpace previous) = previous ->
  record_ok ctx now maxTTL skew k previous s -> SignedHopDigest (norm_signed s) = Ok (hop_digest s) /\ SignedHopDigest s = Ok (hop_digest s).
Proof.
  intros Hc Hp [Hg _ Hv (sig & Hd & Hsig & _)]. pose proof (normalizeHop_good _ _ _ _ Hc Hp Hg) as En.
  assert (TrimSpace (Principal s) = Principal s) as Et by (rewrite (hg_principal _ _ _ _ Hg), <- (hg_from _ _ _ _ Hg); apply TrimSpace_idemp).
  assert (Principal s <> []) as Hpr by (rewrite (hg_principal _ _ _ _ Hg), <- (hg_from _ _ _ _ Hg); by apply hop_validate_ids).
  assert (sh_Signature s <> []) as Hs by (intros E; rewrite E in Hd; by injection Hd as <-).
  unfold SignedHopDigest, hop_digest, norm_signed. cbn [Principal sh_Hop sh_Signature]. rewrite Et, En.
  destruct (str_eqb_spec (Principal s) []); [done|]. by destruct (str_eqb_spec (sh_Signature s) []).
Qed.

(** ** Paths *)

Inductive path (ctx : NodeContext) (now maxTTL skew : Z) : Z -> bytes -> list SignedHop -> Prop :=
| path_nil k previous : path ctx now maxTTL skew k previous []
| path_cons k previous s rest : record_ok ctx now maxTTL skew k previous s -> path ctx now maxTTL skew (k + 1) (hop_digest s) rest ->
    path ctx now maxTTL skew k previous (s :: rest).

(** The nonces of a path go into the cache one after the other. *)
Fixpoint store_all (now : Z) (hops : list SignedHop) (cache : option NonceCache) : bool * option NonceCache :=
  match hops with
  | [] => (true, cache)
  | s :: rest =>
    match CheckAndStore cache (h_Nonce (normalizeHop (sh_Hop s))) (h_ExpiresAtUnix (sh_Hop s)) now with
    | (Some _, cache) => (false, cache)
    | (None, cache) => store_all now rest cache
    end
  end.

Lemma verify_hops_ok ctx now maxTTL skew hops : isLowerHexSHA256 (c_chain ctx) = true -> forall k previous cache cache', 0 <= k -> ToLower (TrimSpace previous) = previous ->
  verify_hops ctx k previous now maxTTL skew hops cache = (None, cache') <-> path ctx now maxTTL skew k previous hops /\ store_all now hops cache = (true, cache').
Proof.
  intros Hc. induction hops as [|s hops IH]; intros k previous cache cache' Hk Hp; cbn [verify_hops store_all].
  - split; [intros [= ->]; split; [constructor|done]|]. by intros [_ [= ->]].
  - destruct (check_hop ctx k previous now maxTTL skew s) eqn:Eh.
    { split; [done|]. intros [Hpath _]. inversion Hpath as [|? ? ? ? [Hg Hcur _ _] _]; subst. by rewrite (proj2 (check_hop_ok ctx k previous now maxTTL skew s Hk)) in Eh. }
    apply check_hop_ok in Eh as [Hg Hcur]; [|done]. pose proof (normalizeHop_good _ _ _ _ Hc Hp Hg) as En. unfold CanonicalHopBytes. rewrite En.
    destruct (validateHop (normalizeHop (sh_Hop s))) eqn:Ev.
    { split; [done|]. intros [Hpath _]. inversion Hpath as [|? ? ? ? [_ _ ? _] _]; congruence. }
    destruct (b64_decode (sh_Signature s)) as [sig|] eqn:Eb.
    2:{ split; [done|]. intros [Hpath _]. inversion Hpath as [|? ? ? ? [_ _ _ (? & ? & _)] _]; congruence. }
    destruct sig as [|b sig].
    { split; [done|]. intros [Hpath _]. inversion Hpath as [|? ? ? ? [_ _ _ (? & ? & ? & _)] _]; congruence. }
    destruct (ssh_Verify (Principal s) _ (b :: sig)) eqn:Es; cbn [negb].
    2:{ split; [done|]. intros [Hpath _]. inversion Hpath as [|? ? ? ? [_ _ _ (? & ? & _ & ?)] _]; congruence. }
    assert (record_ok ctx now maxTTL skew k previous s) as Hr by (constructor; [done|done|done|by exists (b :: sig)]).
    change (h_ExpiresAtUnix (normalizeHop (sh_Hop s))) with (h_ExpiresAtUnix (sh_Hop s)).
    destruct (CheckAndStore cache _ _ _) as [[e|] c] eqn:Ec; [split; [done|by intros [_ ?]]|].
    fold (norm_signed s). rewrite (proj1 (SignedHopDigest_good _ _ _ _ _ _ _ Hc Hp Hr)). rewrite IH by (lia || apply digest_normal).
    split; intros [Hpath ?]; (split; [|done]); [by constructor|by inversion Hpath].
Qed.

(** The digest the record after [l] has to name. *)
Definition path_end (previous : bytes) (l : list SignedHop) : bytes := match last l with None => previous | Some s => hop_digest s end.

Lemma path_end_cons previous s l : path_end previous (s :: l) = path_end (hop_digest s) l.
Proof. unfold path_end. destruct l as [|t l]; [done|]. rewrite last_cons_cons. by destruct (last (t :: l)) eqn:E; [|apply last_None in E]. Qed.

Lemma path_end_normal previous l : ToLower (TrimSpace previous) = previous -> ToLower (TrimSpace (path_end previous l)) = path_end previous l.
Proof. unfold path_end. destruct (last l); [|done]. intros _. apply digest_normal. Qed.

Lemma path_app ctx now maxTTL skew l s : forall k previous,
  path ctx now maxTTL skew k previous (l ++ [s]) <-> path ctx now maxTTL skew k previous l /\ record_ok ctx now maxTTL skew (k + len l) (path_end previous l) s.
Proof.
  induction l as [|t l IH]; intros k previous; cbn [app].
  - replace (k + len (@nil SignedHop)) with k by (unfold len; cbn; lia). split; [inversion 1; subst; split; [constructor|done]|]. intros [_ ?]. constructor; [done|constructor].
  - rewrite path_end_cons, len_cons. replace (k + (1 + len l)) with (k + 1 + len l) by lia.
    split; [inversion 1 as [|? ? ? ? Hr Hp]; subst; apply IH in Hp as [? ?]; split; [by constructor|done]|].
    intros [Hp Hs]. inversion Hp; subst. constructor; [done|]. by apply IH.
Qed.

Lemma path_lookup ctx now maxTTL skew l : forall k previous, path ctx now maxTTL skew k previous l -> forall j s, l !! j = Some s ->
  record_ok ctx now maxTTL skew (k + Z.of_nat j) (path_end previous (take j l)) s.
Proof.
  induction l as [|t l IH]; intros k previous Hp j s Hj; [done|]. inversion Hp as [|? ? ? ? Hr Hp']; subst. destruct j as [|j]; cbn [lookup list_lookup take] in *.
  - injection Hj as ->. by replace (k + Z.of_nat 0) with k by lia.
  - rewrite path_end_cons. replace (k + Z.of_nat (S j)) with (k + 1 + Z.of_nat j) by lia. by apply IH.
Qed.

(** Only the window depends on the time of verification. *)
Lemma path_later ctx now maxTTL skew now' maxTTL' skew' l : forall k previous, path ctx now maxTTL skew k previous l ->
  Forall (fun s => hop_current now' maxTTL' skew' (sh_Hop s)) l -> path ctx now' maxTTL' skew' k previous l.
Proof.
  induction l as [|t l IH]; intros k previous Hp Hf; [constructor|]. inversion Hp as [|? ? ? ? [? ? ? ?] Hp']; subst. apply Forall_cons in Hf as [? ?]. constructor; [by constructor|by apply IH].
Qed.

(** Two paths whose ends have the same digest are the same path. *)
Lemma path_same (S : bytes -> Prop) ctx now maxTTL skew now' maxTTL' skew' : collision_free S -> forall l l',
  path ctx now maxTTL skew 0 [] l -> path ctx now' maxTTL' skew' 0 [] l' -> Forall (fun s => S (marshal_signed_hop (norm_signed s)) /\ signed_text (norm_signed s)) (l ++ l') ->
  path_end [] l = path_end [] l' -> norm_signed <$> l = norm_signed <$> l'.
Proof.
  intros HS l. induction l as [|s l IH] using rev_ind; intros l' Hp Hp' Hf E.
  - destruct l' as [|s' l' _] using rev_ind; [done|]. unfold path_end in E. rewrite last_snoc in E. cbn in E. apply (f_equal length) in E.
    unfold hop_digest in E. by rewrite sha256_hex_length in E.
  - destruct l' as [|s' l' _] using rev_ind.
    { unfold path_end in E. rewrite last_snoc in E. cbn in E. apply (f_equal length) in E. unfold hop_digest in E. by rewrite sha256_hex_length in E. }
    apply path_app in Hp as [Hp Hr], Hp' as [Hp' Hr']. rewrite !Forall_app, !Forall_singleton in Hf. destruct Hf as [[Hf [S1 T1]] [Hf' [S2 T2]]].
    unfold path_end in E. rewrite !last_snoc in E. unfold hop_digest in E. apply hex_encode_inj in E; [|apply Sum256_ok|apply Sum256_ok].
    apply (HS _ _ S1 S2) in E. apply (marshal_signed_hop_inj _ _ T1 T2) in E. rewrite !fmap_app. cbn [fmap list_fmap]. rewrite E. f_equal.
    apply IH; [done|done|by apply Forall_app|]. rewrite <- (hg_parent _ _ _ _ (ro_good _ _ _ _ _ _ _ Hr)), <- (hg_parent _ _ _ _ (ro_good _ _ _ _ _ _ _ Hr')).
    by apply (f_equal (ParentHopSHA256 ∘ sh_Hop)) in E.
Qed.

(** ** Nonces *)

Lemma store_all_app now l l' cache : store_all now (l ++ l') cache = match store_all now l cache with (true, c) => store_all now l' c | r => r end.
Proof. revert cache. induction l as [|s l IH]; intros cache; cbn [app store_all]; [done|]. by destruct (CheckAndStore _ _ _ _) as [[]]. Qed.

Definition hop_nonce (s : SignedHop) : bytes := h_Nonce (normalizeHop (sh_Hop s)).

Lemma store_all_none now l : store_all now l None = (true, None).
Proof. induction l as [|s l IH]; [done|]. exact IH. Qed.

Lemma store_all_fresh now l seen : NoDup (hop_nonce <$> l) -> Forall (fun s => seen !! hop_nonce s = None) l -> exists seen', store_all now l (Some seen) = (true, Some seen').
Proof.
  revert seen. induction l as [|s l IH]; intros seen Hnd Hf; cbn [store_all]; [by eexists|]. cbn [fmap list_fmap] in Hnd. apply NoDup_cons in Hnd as [Hn Hnd]. apply Forall_cons in Hf as [Hs Hf].
  unfold CheckAndStore. fold (hop_nonce s). assert (filter (fun kv : bytes * Z => Unix now < kv.2) seen !! hop_nonce s = None) as -> by (apply map_lookup_filter_None; by left).
  apply IH; [done|]. apply Forall_forall. intros t Ht. rewrite Forall_forall in Hf. rewrite lookup_insert_ne.
  - apply map_lookup_filter_None. left. by apply Hf.
  - intros E. apply Hn. rewrite E. apply list_elem_of_fmap. by exists t.
Qed.

(** A stored nonce stays as long as the plain clock is before its expiry. *)
Lemma store_all_keeps now l : forall seen n x r c, seen !! n = Some x -> Unix now < x -> store_all now l (Some seen) = (r, c) ->
  (exists seen', c = Some seen' /\ seen' !! n = Some x) /\ (r = true -> n ∉ hop_nonce <$> l).
Proof.
  induction l as [|s l IH]; intros seen n x r c Hn Hx; cbn [store_all].
  - intros [= <- <-]. split; [by eexists|]. intros _. by apply not_elem_of_nil.
  - destruct (CheckAndStore (Some seen) _ _ now) as [e c1] eqn:Ec. apply (CheckAndStore_live _ _ _ _ _ _ _ _ Hn Hx) in Ec as [(seen1 & -> & H1) Hne].
    destruct e; [intros [= <- <-]; split; [by eexists|done]|]. intros E. destruct (IH _ _ _ _ _ H1 Hx E) as [? Hin]. split; [done|]. intros Hr. cbn [fmap list_fmap].
    rewrite not_elem_of_cons. split; [|by apply Hin]. intros ->. by apply Hne.
Qed.

Lemma store_all_stores now l : forall seen c, store_all now l (Some seen) = (true, c) -> forall s, s ∈ l -> Unix now < h_ExpiresAtUnix (sh_Hop s) ->
  exists seen', c = Some seen' /\ seen' !! hop_nonce s = Some (h_ExpiresAtUnix (sh_Hop s)).
Proof.
  induction l as [|t l IH]; intros seen c E s Hs Hx; [by apply not_elem_of_nil in Hs|]. cbn [store_all] in E.
  destruct (CheckAndStore (Some seen) _ _ now) as [e c1] eqn:Ec. destruct e; [done|]. apply CheckAndStore_fresh in Ec as [_ (seen1 & -> & H1)].
  apply elem_of_cons in Hs as [->|Hs]; [|by eapply IH]. destruct (store_all_keeps _ _ _ _ _ _ _ H1 Hx E) as [? _]. done.
Qed.

Lemma store_all_nodup now l : forall seen c, store_all now l (Some seen) = (true, c) -> Forall (fun s => Unix now < h_ExpiresAtUnix (sh_Hop s)) l -> NoDup (hop_nonce <$> l).
Proof.
  induction l as [|t l IH]; intros seen c E Hf; [constructor|]. cbn [store_all] in E. apply Forall_cons in Hf as [Ht Hf].
  destruct (CheckAndStore (Some seen) _ _ now) as [e c1] eqn:Ec. destruct e; [done|]. apply CheckAndStore_fresh in Ec as [_ (seen1 & -> & H1)].
  destruct (store_all_keeps _ _ _ _ _ _ _ H1 Ht E) as [_ Hno]. cbn [fmap list_fmap]. apply NoDup_cons. split; [by apply Hno|by eapply IH].
Qed.

Lemma path_live ctx now maxTTL l : forall k previous, path ctx now maxTTL 0 k previous l -> Forall (fun s => Unix now < h_ExpiresAtUnix (sh_Hop s)) l.
Proof.
  induction l as [|s l IH]; intros k previous Hp; [constructor|]. inversion Hp as [|? ? ? ? [_ [_ _ [_ Hw]] _ _] Hp']; subst. rewrite Z.sub_0_r in Hw. constructor; [done|by eapply IH].
Qed.

(** A path does not depend on the node it is checked at. *)
Lemma path_at_node c n now maxTTL skew k previous l : path (at_node c n) now maxTTL skew k previous l <-> path c now maxTTL skew k previous l.
Proof.
  assert (forall n c k previous l, path (at_node c n) now maxTTL skew k previous l -> path c now maxTTL skew k previous l) as Hp.
  { clear. intros n c k previous l. induction 1 as [|k previous s rest [[] ? ? ?] _ IH]; constructor; [|done]. constructor; [by constructor|done..]. }
  split; [apply Hp|]. intros Hl. apply (Hp (CurrentNode c)). by destruct c.
Qed.

(** ** Appending *)

Lemma node_at_lookup nodes k n : nodes !! k = Some n -> node_at_index nodes (Z.of_nat k) = n.
Proof. intros Hk. unfold node_at_index. rewrite Nat2Z.id. by apply nth_lookup_Some. Qed.

(** The record [Append] signs at node [k] of the chain. *)
Definition next_hop (c : NodeContext) (k : nat) (previous binding : bytes) (ttl now : Z) (raw : bytes) : Hop :=
  mkHop HopVersion (ChainID c) (c_chain c) (node_at_index (Nodes c) 0) (node_at_index (Nodes c) (Z.of_nat k)) (node_at_index (Nodes c) (Z.of_nat k + 1)) (Z.of_nat k + 1)
    previous (if (k =? 0)%nat then [] else TrimSpace binding) (b64_encode raw) (Unix now) (Unix (now + ttl)).

Definition next_signed (c : NodeContext) (k : nat) (previous binding : bytes) (ttl now : Z) (raw sig : bytes) : SignedHop :=
  mkSignedHop (node_at_index (Nodes c) (Z.of_nat k)) (next_hop c k previous binding ttl now raw) (b64_encode sig).

Lemma next_hop_normal c k previous binding ttl now raw : context_valid c -> TrimSpace (ChainID c) = ChainID c -> ToLower (TrimSpace previous) = previous -> bytes_ok raw -> (S k < length (Nodes c))%nat ->
  normalizeHop (next_hop c k previous binding ttl now raw) = next_hop c k previous binding ttl now raw.
Proof.
  intros [(_ & _ & Hf) _ _ _ Hc _ _] Hid Hp Hraw Hk. apply isLowerHexSHA256_plain in Hc as [_ Hc].
  assert (forall i, 0 <= i < len (Nodes c) -> TrimSpace (node_at_index (Nodes c) i) = node_at_index (Nodes c) i) as Hn.
  { intros i Hi. unfold node_at_index. apply trimmed_TrimSpace. destruct (lookup_lt_is_Some_2 (Nodes c) (Z.to_nat i)) as [n Hin]; [unfold len in Hi; lia|].
    rewrite (nth_lookup_Some _ _ _ _ Hin). rewrite Forall_forall in Hf. by apply Hf, (list_elem_of_lookup_2 _ _ _ Hin). }
  unfold normalizeHop, next_hop. cbn. rewrite Hid, Hc, Hp, !Hn by (unfold len; lia). rewrite (trimmed_TrimSpace (b64_encode raw)) by (by apply trimmed_plain, b64_plain).
  f_equal. destruct (k =? 0)%nat; [done|apply TrimSpace_idemp].
Qed.

Lemma next_hop_valid c k previous binding ttl now raw : context_valid c -> ChainID c <> [] -> (previous = [] \/ len previous = 64) -> raw <> [] -> second <= ttl -> (S k < length (Nodes c))%nat ->
  validateHop (next_hop c k previous binding ttl now raw) = None.
Proof.
  intros [(_ & _ & Hf) _ _ _ Hc _ _] Hid Hp Hraw Ht Hk.
  assert (forall i, 0 <= i < len (Nodes c) -> node_at_index (Nodes c) i <> []) as Hn.
  { intros i Hi. unfold node_at_index. destruct (lookup_lt_is_Some_2 (Nodes c) (Z.to_nat i)) as [n Hin]; [unfold len in Hi; lia|].
    rewrite (nth_lookup_Some _ _ _ _ Hin). rewrite Forall_forall in Hf. by apply Hf, (list_elem_of_lookup_2 _ _ _ Hin). }
  assert (forall v, v <> [] -> str_eqb v [] = false) as Hne by (intros v Hv; by destruct (str_eqb_spec v [])).
  unfold validateHop, next_hop. cbn [h_Version h_ChainID h_ChainSHA256 RootNode FromNode ToNode HopIndex ParentHopSHA256 h_Nonce h_IssuedAtUnix h_ExpiresAtUnix].
  rewrite str_eqb_refl, !Hne by (done || by apply b64_encode_nonempty || (apply Hn; unfold len; lia)). cbn [negb orb].
  destruct (Z.leb_spec (Z.of_nat k + 1) 0); [lia|]. unfold isLowerHexSHA256 in Hc. destruct (len (c_chain c) =? 64); [|done]. cbn [negb].
  assert (negb (str_eqb previous []) && negb (len previous =? 64) = false) as ->.
  { destruct Hp as [->|Hp]; [done|]. rewrite (proj2 (Z.eqb_eq _ _) Hp). apply andb_false_r. }
  destruct (Z.leb_spec (Unix (now + ttl)) (Unix now)) as [Hu|]; [|done]. unfold Unix, second in *. exfalso.
  assert (now / 1000000000 + 1 <= (now + ttl) / 1000000000); [|lia]. rewrite <- (Z.div_add now 1 1000000000) by lia. apply Z.div_le_mono; lia.
Qed.

Section Append.
Context `{!SshSigLaws}.
Context (c : NodeContext) (Hv : Validate c = None).
Context (k : nat) (Hk : (S k < length (Nodes (Normalized c)))%nat).
Context (previous binding raw sig : bytes) (ttl now : Z).
Context (Hprevious : (previous = [] \/ len previous = 64) /\ ToLower (TrimSpace previous) = previous).
Context (Hbinding : k <> 0%nat -> TrimSpace binding <> []).
Context (Hraw : bytes_ok raw /\ raw <> []) (Httl : second <= ttl).
Let n := node_at_index (Nodes (Normalized c)) (Z.of_nat k).
Let hop := next_hop (Normalized c) k previous binding ttl now raw.
Context (Hsig : ssh_Sign n (marshal_hop hop) = Some sig) (Hsig' : sig <> []).

Lemma next_hop_canonical : normalizeHop hop = hop /\ validateHop hop = None /\ CanonicalHopBytes hop = Ok (marshal_hop hop).
Proof using Hv Hk Hprevious Hraw Httl.
  destruct Hprevious as [Hp1 Hp2], Hraw as [Hr1 Hr2]. pose proof (Validate_valid c Hv) as Hc. destruct (ChainID_valid c Hv) as [Hid1 Hid2].
  assert (normalizeHop hop = hop) as E by (by apply next_hop_normal). assert (validateHop hop = None) as V by (by apply next_hop_valid).
  split; [done|]. split; [done|]. unfold CanonicalHopBytes. by rewrite E, V.
Qed.

Lemma next_signed_ok now' maxTTL skew : hop_current now' maxTTL skew hop ->
  record_ok (Normalized c) now' maxTTL skew (Z.of_nat k) previous (next_signed (Normalized c) k previous binding ttl now raw sig).
Proof using All.
  intros Hcur. destruct next_hop_canonical as (E & V & _). constructor; [|exact Hcur| |].
  - constructor; cbn [next_signed Principal sh_Hop]; fold hop; rewrite ?E; try done. unfold hop, next_hop. cbn [ParentSessionBinding].
    destruct (Nat.eqb_spec k 0) as [->|Hk0]; [done|]. split; [lia|]. intros Eb. by apply Hbinding in Eb.
  - cbn [next_signed sh_Hop]. fold hop. by rewrite E.
  - exists sig. cbn [next_signed sh_Hop sh_Signature Principal]. fold hop n. rewrite E. split; [by apply b64_roundtrip, (ssh_sign_bytes _ _ _ Hsig)|]. split; [done|]. by apply ssh_sign_verifies.
Qed.

Lemma Append_ok parent clock : length (Hops parent) = k -> previous = path_end [] (Hops parent) -> (forall s, last (Hops parent) = Some s -> SignedHopDigest s = Ok (hop_digest s)) ->
  Z.of_nat k < MaxHops -> IsZero now = false ->
  Append (at_node (Normalized c) n) parent binding ttl now clock (Some raw) = Ok (mkChain ChainVersion (Hops parent ++ [next_signed (Normalized c) k previous binding ttl now raw sig])).
Proof using All.
  intros Hl Hp Hd Hmax Hz. destruct next_hop_canonical as (_ & _ & Ec).
  assert (Nodes (Normalized c) !! k = Some n) as Hn.
  { destruct (lookup_lt_is_Some_2 (Nodes (Normalized c)) k) as [x Hx]; [lia|]. unfold n. by rewrite (node_at_lookup _ _ _ Hx). }
  pose proof (CurrentIndex_at_node c k n Hv Hn) as Ei. destruct (Normalized_at_node c n Hv) as [En _]; [by eapply list_elem_of_lookup_2|].
  unfold Append. rewrite En, Ei. cbn [result_bind at_node Nodes ChainID c_chain CurrentNode].
  destruct (Z.leb_spec (len (Nodes (Normalized c))) (Z.of_nat k + 1)); [unfold len in *; lia|]. destruct (Z.leb_spec ttl 0); [unfold second in *; lia|]. rewrite Hz.
  assert (len (Hops parent) = Z.of_nat k) as -> by (unfold len; lia). rewrite Z.eqb_refl. cbn [negb].
  assert ((0 <? Z.of_nat k) && str_eqb (TrimSpace binding) [] = false) as ->.
  { destruct (Z.ltb_spec 0 (Z.of_nat k)); [|done]. destruct (str_eqb_spec (TrimSpace binding) []) as [Eb|]; [|done]. apply Hbinding in Eb; [done|lia]. }
  assert ((if Z.of_nat k =? 0 then mkChain ChainVersion [] else parent) = mkChain (if Z.of_nat k =? 0 then ChainVersion else ch_Version parent) (Hops parent)) as ->.
  { destruct (Z.eqb_spec (Z.of_nat k) 0); [|by destruct parent]. destruct (Hops parent); [done|cbn in Hl; lia]. }
  cbn [Hops]. assert (match last (Hops parent) with Some s => SignedHopDigest s | None => Ok [] end = Ok previous) as ->.
  { rewrite Hp. unfold path_end. destruct (last (Hops parent)) as [s|]; [by apply Hd|done]. }
  cbn [result_bind]. assert (TrimSpace (if Z.of_nat k =? 0 then [] else binding) = (if (k =? 0)%nat then [] else TrimSpace binding)) as ->.
  { destruct (Z.eqb_spec (Z.of_nat k) 0), (Nat.eqb_spec k 0); try lia; done. }
  change (mkHop _ _ _ _ _ _ _ _ _ _ _ _) with hop. rewrite Ec. cbn [result_bind]. change (FromNode hop) with n. rewrite Hsig.
  destruct (Z.eqb_spec (len sig) 0) as [E0|]; [by apply len_zero_nil in E0|]. rewrite len_app. unfold MaxHops, len in *. cbn [length]. rewrite Hl.
  destruct (Z.ltb_spec 16 (Z.of_nat k + Z.of_nat 1)); [lia|]. done.
Qed.

End Append.
End Path.

End HopProofs.
