(* ===== verification/RecursiveHop.v ===== *)
(** * Recursive sessions (internal/app/recursive_hop.go, recursive_attach.go,
    ssh_session_env.go)

    A node that starts the next SSH hop extends the chain of hops it came in by
    and hands chain and origin to the child in two environment variables; the
    child verifies both before it attaches.  The active session, the stored hop
    state, the environment and the agent's preflight are arguments. *)

From S2P Require Import Prelude GoStrings GoEncoding AuthProof NodeContext HopProof.

Module RecursiveHop.
Import GoStrings GoEncoding AuthProof NodeContext HopProof.

Inductive app_error : Type :=
| ErrHop (e : hop_error)
| ErrHopRequired
| ErrAllowedSigners
| ErrPreflight
| ErrNoSession
| ErrNoHopState
| ErrSessionNode
| ErrOriginMismatch
| ErrOriginMissing
| ErrRootInherits
| ErrEnvironmentValue.

Record VerifiedRecursiveHop := mkVerifiedHop {
  vr_Chain : Chain;
  vr_PreviousNode : bytes;
  vr_Depth : Z
}.

Record RecursiveHopEnvironment := mkHopEnvironment {
  e_Origin : bytes;
  e_HopChain : bytes;
  e_NextNode : bytes;
  e_HopDepth : Z;
  e_PreviousNode : bytes;
  e_IncomingChain : bytes;
  e_CurrentDepth : Z
}.

(** [sessionbroker.ActiveState] (node and binding), [ActiveHopState] (previous
    node and chain), and the two environment variables. *)
Record session_env := mkSessionEnv {
  se_state : option (bytes * bytes);
  se_hop_state : option (bytes * bytes);
  se_origin : bytes;
  se_hop : bytes
}.

Record RecursiveHopConfig := mkHopConfig {
  rc_NodeContext : NodeContext;
  rc_IncomingChain : bytes;
  rc_has_verifier : bool;
  rc_preflight : bool;
  rc_TTL : Z;
  rc_Now : Z
}.

Definition lift {A} (r : result hop_error A) : result app_error A := result_map_err ErrHop r.

Definition validateSSHEnvironmentValue (value : bytes) : option app_error :=
  let value := TrimSpace value in
  if str_eqb value [] then Some ErrEnvironmentValue else
  if existsb (fun c => existsb (Z.eqb c) [61; 0; 13; 10; 9; 32]) value then Some ErrEnvironmentValue else None.

Section Unicode.
Context `{UnicodeTables} `{SshSig}.

Definition SignedWVOrigin (ctx : NodeContext) : result app_error bytes :=
  let ctx := Normalized ctx in
  match Validate ctx with
  | Some e => Err (ErrHop (ErrContext e))
  | None =>
    let current := TrimSpace (CurrentNode ctx) in
    match validateSSHEnvironmentValue current with Some e => Err e | None => Ok current end
  end.

Definition ValidateWVOrigin (value : bytes) (ctx : NodeContext) : result app_error bytes :=
  let* want := lift (PreviousNode ctx) in
  let value := TrimSpace value in
  if str_eqb value [] then Err ErrOriginMissing else
  if negb (str_eqb value want) then Err ErrOriginMismatch else Ok value.

(** Both callers verify with ten minutes, no skew and a cache of their own. *)
Definition verify_here (ctx : NodeContext) (chain : Chain) (now clock : Z) : option hop_error := (Verify ctx chain (mkHopOptions now (600 * second) 0) (Some ∅) clock).1.

Section Decoder.
Context (unmarshal : bytes -> option Chain).

Definition verifyIncomingRecursiveHop (nodeContext : NodeContext) (encoded wvOrigin : bytes) (now clock : Z) : result app_error VerifiedRecursiveHop :=
  let* chain := lift (Decode unmarshal (TrimSpace encoded)) in
  match verify_here nodeContext chain now clock with
  | Some e => Err (ErrHop e)
  | None =>
    let* previous := lift (ImmediatePrevious chain) in
    if negb (str_eqb (TrimSpace wvOrigin) previous) then Err ErrOriginMismatch else Ok (mkVerifiedHop chain previous (len (Hops chain)))
  end.

(** [None] is the empty value of the workflow without hops. *)
Definition VerifyIncomingRecursiveHop (nodeContext : NodeContext) (encoded wvOrigin allowedSignersFile : bytes) (required : bool) (now clock : Z)
    : result app_error (option VerifiedRecursiveHop) :=
  let encoded := TrimSpace encoded in
  if str_eqb encoded [] then (if required then Err ErrHopRequired else Ok None) else
  if str_eqb (TrimSpace allowedSignersFile) [] then Err ErrAllowedSigners else
  let* v := verifyIncomingRecursiveHop nodeContext encoded wvOrigin now clock in Ok (Some v).

(** What the current node came in by: chain, binding, previous node and the encoded chain. *)
Definition incoming (config : RecursiveHopConfig) (env : session_env) (nodeContext : NodeContext) (index now clock : Z) : result app_error (Chain * bytes * bytes * bytes) :=
  if 0 <? index then
    match se_state env with
    | None => Err ErrNoSession
    | Some (node, binding) =>
      if negb (str_eqb node (CurrentNode nodeContext)) then Err ErrSessionNode else
      let incomingEncoded := TrimSpace (rc_IncomingChain config) in
      let receivedOrigin := TrimSpace (se_origin env) in
      let* '(incomingEncoded, receivedOrigin) :=
        (if str_eqb incomingEncoded [] || str_eqb receivedOrigin [] then
           match se_hop_state env with
           | None => Err ErrNoHopState
           | Some (previous, chain) => Ok (or_default incomingEncoded chain, or_default receivedOrigin previous)
           end
         else Ok (incomingEncoded, receivedOrigin)) in
      let* parent := lift (Decode unmarshal incomingEncoded) in
      match verify_here nodeContext parent now clock with
      | Some e => Err (ErrHop e)
      | None =>
        let* previousNode := lift (ImmediatePrevious parent) in
        if negb (str_eqb receivedOrigin previousNode) then Err ErrOriginMismatch else Ok (parent, binding, previousNode, incomingEncoded)
      end
    end
  else if negb (str_eqb (TrimSpace (rc_IncomingChain config)) []) || negb (str_eqb (TrimSpace (se_hop env)) []) then Err ErrRootInherits
  else Ok (mkChain [] [], [], [], []).

Definition PrepareRecursiveHop (config : RecursiveHopConfig) (env : session_env) (clock : Z) (nonce : option bytes) : result app_error RecursiveHopEnvironment :=
  let nodeContext := Normalized (rc_NodeContext config) in
  let* index := lift (CurrentIndex nodeContext) in
  let* _ := lift (NextNode nodeContext) in
  if negb (rc_has_verifier config) then Err ErrAllowedSigners else
  if negb (rc_preflight config) then Err ErrPreflight else
  let now := if IsZero (rc_Now config) then clock else rc_Now config in
  let ttl := if rc_TTL config <=? 0 then 300 * second else rc_TTL config in
  let* '(parent, parentBinding, previousNode, incomingEncoded) := incoming config env nodeContext index now clock in
  let* chain := lift (Append nodeContext parent parentBinding ttl now clock nonce) in
  let* nextNode := lift (NextNode nodeContext) in
  match verify_here (at_node nodeContext nextNode) chain now clock with
  | Some e => Err (ErrHop e)
  | None =>
    let* encoded := lift (Encode chain) in
    let* origin := SignedWVOrigin nodeContext in
    Ok (mkHopEnvironment origin encoded nextNode (len (Hops chain)) previousNode incomingEncoded (len (Hops parent)))
  end.

End Decoder.
End Unicode.
End RecursiveHop.
