(* ===== verification/HopClaims.v ===== *)
(** * Recursive hops: what an accepted chain means

    An accepted chain is the signed path through the topology to the verifying
    node, it is determined by its last record, a live one is accepted once, and
    what a node prepares for its child the child accepts. *)

From S2P Require Import Prelude GoStrings Sha256 GoEncoding AuthProof NodeContext HopProof HopProofs RecursiveHop.

Module HopClaims.
Import GoStrings Sha256 GoEncoding AuthProof NodeContext HopProof HopProofs RecursiveHop.

Definition at_hop_time (o : HopVerifyOptions) (clock : Z) : Z := if IsZero (ho_Now o) then clock else ho_Now o.
Definition max_ttl (o : HopVerifyOptions) : Z := if ho_MaxTTL o <=? 0 then 600 * second else ho_MaxTTL o.
Definition skew_of (o : HopVerifyOptions) : Z := Z.max 0 (ho_ClockSkew o).

Section Claims.
Context `{UnicodeTables} `{SshSig}.

Section Context_.
Context (ctx : NodeContext) (Hv : Validate ctx = None).

Lemma context_chain : isLowerHexSHA256 (c_chain (Normalized ctx)) = true.
Proof using Hv. by destruct (Validate_valid ctx Hv). Qed.

(** [Verify] accepts exactly the paths to the current node. *)
Lemma Verify_ok chain o cache clock cache' : Verify ctx chain o cache clock = (None, cache') <->
  exists index, CurrentIndex ctx = Ok index /\ 0 < index <= MaxHops /\ ch_Version chain = ChainVersion /\ len (Hops chain) = index /\
    path (Normalized ctx) (at_hop_time o clock) (max_ttl o) (skew_of o) 0 [] (Hops chain) /\ store_all (at_hop_time o clock) (Hops chain) cache = (true, cache') /\
    exists s, last (Hops chain) = Some s /\ ToNode (sh_Hop s) = CurrentNode (Normalized ctx).
Proof using Hv.
  pose proof (Normalized_valid ctx Hv) as [En Evn]. assert (CurrentIndex (Normalized ctx) = CurrentIndex ctx) as Ei0 by (unfold CurrentIndex; by rewrite En).
  unfold Verify. fold (at_hop_time o clock). fold (max_ttl o). fold (skew_of o). rewrite Ei0. destruct (CurrentIndex ctx) as [index|e]; [|split; [done|by intros (? & ? & _)]].
  destruct (Z.leb_spec index 0) as [|Hi]; [split; [done|intros (? & [= <-] & ? & _); lia]|].
  destruct (str_eqb_spec (ch_Version chain) ChainVersion) as [Ever|]; [|split; [done|by intros (? & _ & _ & ? & _)]].
  destruct (Z.eqb_spec (len (Hops chain)) index) as [El|]; [|split; [done|by intros (? & [= <-] & _ & _ & ? & _)]].
  destruct (Z.ltb_spec MaxHops (len (Hops chain))); [split; [done|intros (? & [= <-] & ? & _ & ? & _); lia]|]. cbn [negb orb].
  destruct (verify_hops _ _ _ _ _ _ _ _) as [[e|] c] eqn:Eh.
  - split; [done|]. intros (? & _ & _ & _ & _ & Hp & Hs & _). rewrite (proj2 (verify_hops_ok _ _ _ _ _ context_chain 0 [] cache cache' ltac:(lia) eq_refl)) in Eh; [done|by split].
  - apply (verify_hops_ok _ _ _ _ _ context_chain) in Eh as [Hp Hs]; [|lia|done]. destruct (last (Hops chain)) as [s|]; [|split; [done|by intros (? & _ & _ & _ & _ & _ & _ & ? & ? & _)]].
    destruct (str_eqb_spec (ToNode (sh_Hop s)) (CurrentNode (Normalized ctx))) as [Et|Et]; cbn [negb].
    + split; [|intros (? & _ & _ & _ & _ & _ & E & _); congruence]. intros [= <-]. exists index. repeat (split; [done || lia|]). by exists s.
    + split; [done|]. by intros (? & _ & _ & _ & _ & _ & _ & ? & [= <-] & ?).
Qed.

(** C24: what an accepted chain of hops means to a node with a valid context: it has one record for every node
    before the verifying one, in the order of the topology; each was signed by
    the node it leaves over exactly its normalised content, is for this chain
    and root, names the digest of the record before it, and is in its validity
    window, widened by the clock skew of the options; and the last one comes from the previous node of the topology.
    With a replay cache, no chain that shares a still valid record with it is
    accepted again. *)
Theorem hop_chain_sound chain o cache clock cache' : Verify ctx chain o cache clock = (None, cache') ->
  exists index, CurrentIndex ctx = Ok index /\ len (Hops chain) = index /\ PreviousNode ctx = Ok (node_at_index (Nodes (Normalized ctx)) (index - 1)) /\
  (forall k s, Hops chain !! k = Some s ->
    let h := normalizeHop (sh_Hop s) in
    Principal s = node_at_index (Nodes (Normalized ctx)) (Z.of_nat k) /\ FromNode h = Principal s /\ ToNode h = node_at_index (Nodes (Normalized ctx)) (Z.of_nat k + 1) /\
    h_ChainSHA256 h = c_chain (Normalized ctx) /\ RootNode h = node_at_index (Nodes (Normalized ctx)) 0 /\ HopIndex h = Z.of_nat k + 1 /\
    (exists signature, b64_decode (sh_Signature s) = Some signature /\ ssh_Verify (Principal s) (marshal_hop h) signature = true) /\
    h_IssuedAtUnix h <= Unix (at_hop_time o clock + skew_of o) /\ Unix (at_hop_time o clock - skew_of o) < h_ExpiresAtUnix h /\
    ParentHopSHA256 h = match k with O => [] | S j => match Hops chain !! j with Some p => hop_digest p | None => [] end end) /\
  (forall seen s chain2 o2 clock2, cache = Some seen -> s ∈ Hops chain -> s ∈ Hops chain2 ->
    Unix (at_hop_time o clock) < h_ExpiresAtUnix (sh_Hop s) -> Unix (at_hop_time o2 clock2) < h_ExpiresAtUnix (sh_Hop s) ->
    (Verify ctx chain2 o2 cache' clock2).1 <> None).
Proof using Hv.
  intros E. apply Verify_ok in E as (index & Ei & Hi & _ & Hl & Hp & Hs & _). exists index. split; [done|]. split; [done|]. split; [|split].
  - unfold PreviousNode. rewrite Ei. cbn [result_bind]. destruct (Z.leb_spec index 0); [lia|done].
  - intros k s Hk. cbv zeta. pose proof (path_lookup _ _ _ _ _ _ _ Hp _ _ Hk) as [[E1 E2 E3 E4 E5 E6 E7 E8 _] [_ _ [Hw1 Hw2]] _ (sig & Hd & _ & Hsig)].
    replace (0 + Z.of_nat k) with (Z.of_nat k) in * by lia. split; [done|]. split; [congruence|]. repeat (split; [done|]). split; [by exists sig|]. split; [done|]. split; [done|].
    rewrite E8. unfold path_end. destruct k as [|j]; [done|]. destruct (lookup_lt_is_Some_2 (Hops chain) j) as [p Hj]; [apply lookup_lt_Some in Hk; lia|].
    by rewrite Hj, (take_S_r _ _ _ Hj), last_snoc.
  - intros seen s chain2 o2 clock2 -> Hin Hin2 Hx Hx2 E2. destruct (Verify ctx chain2 o2 cache' clock2) as [r c2] eqn:Ev. cbn in E2. subst r.
    apply Verify_ok in Ev as (_ & _ & _ & _ & _ & _ & Hs2 & _). destruct (store_all_stores _ _ _ _ Hs s Hin Hx) as (seen' & -> & Hseen).
    destruct (store_all_keeps _ _ _ _ _ _ _ Hseen Hx2 Hs2) as [_ Hno]. apply Hno; [done|]. apply list_elem_of_fmap. by exists s.
Qed.

(** An accepted chain is tamper evident: two chains accepted at the same node
    whose last records have the same digest consist, record by record, of the
    same normalised hops under the same signatures, unless SHA-256 collides on
    the bytes of these records. *)
Theorem hop_chain_tamper_evident chain1 chain2 o1 o2 cache1 cache2 clock1 clock2 s1 s2 :
  (Verify ctx chain1 o1 cache1 clock1).1 = None -> (Verify ctx chain2 o2 cache2 clock2).1 = None ->
  last (Hops chain1) = Some s1 -> last (Hops chain2) = Some s2 -> SignedHopDigest s1 = SignedHopDigest s2 ->
  Forall (signed_text ∘ norm_signed) (Hops chain1 ++ Hops chain2) -> collision_free (fun x => x ∈ (marshal_signed_hop ∘ norm_signed) <$> (Hops chain1 ++ Hops chain2)) ->
  norm_signed <$> Hops chain1 = norm_signed <$> Hops chain2.
Proof using Hv.
  intros V1 V2 L1 L2 Ed Ht HS. destruct (Verify ctx chain1 o1 cache1 clock1) as [r1 c1] eqn:E1, (Verify ctx chain2 o2 cache2 clock2) as [r2 c2] eqn:E2. cbn in V1, V2. subst r1 r2.
  apply Verify_ok in E1 as (_ & _ & _ & _ & _ & Hp1 & _), E2 as (_ & _ & _ & _ & _ & Hp2 & _).
  eapply (path_same _ _ _ _ _ _ _ _ HS); [exact Hp1|exact Hp2| |].
  - apply Forall_forall. intros s Hs. split; [apply list_elem_of_fmap; by exists s|]. rewrite Forall_forall in Ht. by apply Ht.
  - unfold path_end. rewrite L1, L2.
    assert (forall l s a b d, path (Normalized ctx) a b d 0 [] l -> last l = Some s -> SignedHopDigest s = Ok (hop_digest s)) as Hd.
    { intros l s a b d Hp Hs. destruct l as [|t l _] using rev_ind; [done|]. rewrite last_snoc in Hs. injection Hs as ->. apply path_app in Hp as [_ Hr].
      apply (SignedHopDigest_good _ _ _ _ _ _ _ context_chain (path_end_normal [] l eq_refl) Hr). }
    rewrite (Hd _ _ _ _ _ Hp1 L1), (Hd _ _ _ _ _ Hp2 L2) in Ed. congruence.
Qed.

End Context_.
(** ** From a node to its child *)

Section Child.
Context (c : NodeContext) (Hv : Validate c = None).
(** Accepted at a node of the chain, with the options both callers use. *)
Lemma verify_here_ok j x chain now clock : Nodes (Normalized c) !! j = Some x -> IsZero now = false ->
  verify_here (at_node (Normalized c) x) chain now clock = None <->
  0 < Z.of_nat j <= MaxHops /\ ch_Version chain = ChainVersion /\ length (Hops chain) = j /\ path (Normalized c) now (600 * second) 0 0 [] (Hops chain) /\
    NoDup (hop_nonce <$> Hops chain) /\ exists s, last (Hops chain) = Some s /\ ToNode (sh_Hop s) = x.
Proof using Hv.
  intros Hj Hz. destruct (Normalized_at_node c x Hv) as [En Ev]; [by eapply list_elem_of_lookup_2|]. unfold verify_here.
  assert (forall cache', Verify (at_node (Normalized c) x) chain (mkHopOptions now (600 * second) 0) (Some ∅) clock = (None, cache') <->
    0 < Z.of_nat j <= MaxHops /\ ch_Version chain = ChainVersion /\ length (Hops chain) = j /\ path (Normalized c) now (600 * second) 0 0 [] (Hops chain) /\
    store_all now (Hops chain) (Some ∅) = (true, cache') /\ exists s, last (Hops chain) = Some s /\ ToNode (sh_Hop s) = x) as Hiff.
  { intros cache'. rewrite (Verify_ok _ Ev), (CurrentIndex_at_node c j x Hv Hj), En. unfold at_hop_time, max_ttl, skew_of. cbn [ho_Now ho_MaxTTL ho_ClockSkew at_node CurrentNode]. rewrite Hz.
    change (600 * second <=? 0) with false. change (Z.max 0 0) with 0. cbv iota. setoid_rewrite path_at_node. unfold len.
    split; [intros (i & [= <-] & ? & ? & ? & ?); split_and!; lia || naive_solver|]. intros (? & ? & ? & ?). exists (Z.of_nat j). split_and!; lia || naive_solver. }
  split.
  - intros E0. destruct (proj1 (Hiff (Verify (at_node (Normalized c) x) chain (mkHopOptions now (600 * second) 0) (Some ∅) clock).2)) as (? & ? & ? & Hp & Hs & ?); [rewrite <- E0; apply surjective_pairing|].
    repeat (split; [done|]). split; [|done].
    apply (store_all_nodup _ _ _ _ Hs). exact (path_live _ _ _ _ _ _ Hp).
  - intros (? & ? & ? & ? & Hnd & ?). destruct (store_all_fresh now _ ∅ Hnd) as [seen Hs]; [apply Forall_forall; intros; apply lookup_empty|].
    by rewrite (proj2 (Hiff (Some seen))).
Qed.

Lemma Encode_Decode unmarshal chain : chain_bounds chain = true -> bytes_ok (marshal_chain chain) -> unmarshal (marshal_chain chain) = Some chain ->
  len (b64_encode (marshal_chain chain)) <= MaxEncodedBytes ->
  Encode chain = Ok (b64_encode (marshal_chain chain)) /\ TrimSpace (b64_encode (marshal_chain chain)) = b64_encode (marshal_chain chain) /\ b64_encode (marshal_chain chain) <> [] /\
  Decode unmarshal (b64_encode (marshal_chain chain)) = Ok chain.
Proof using.
  intros Hb Hok Hu Hl. unfold Encode, Decode. rewrite Hb. cbn [negb]. destruct (Z.ltb_spec MaxEncodedBytes (len (b64_encode (marshal_chain chain)))); [lia|].
  assert (TrimSpace (b64_encode (marshal_chain chain)) = b64_encode (marshal_chain chain)) as Et by (by apply trimmed_TrimSpace, trimmed_plain, b64_plain).
  assert (b64_encode (marshal_chain chain) <> []) as Hne by (by apply b64_encode_nonempty). split; [done|]. split; [done|]. split; [done|]. rewrite Et.
  destruct (str_eqb_spec (b64_encode (marshal_chain chain)) []); [done|]. cbn [orb]. destruct (Z.ltb_spec MaxEncodedBytes (len (b64_encode (marshal_chain chain)))); [lia|].
  by rewrite b64_roundtrip, Hu, Hb.
Qed.

Context `{!SshSigLaws} (k : nat) (Hk : (S k < length (Nodes (Normalized c)))%nat) (Hmax : Z.of_nat k < MaxHops).
Let n := node_at_index (Nodes (Normalized c)) (Z.of_nat k).
Let m := node_at_index (Nodes (Normalized c)) (Z.of_nat k + 1).

Lemma hop_lookups : Nodes (Normalized c) !! k = Some n /\ Nodes (Normalized c) !! S k = Some m.
Proof using Hk.
  unfold n, m. destruct (lookup_lt_is_Some_2 (Nodes (Normalized c)) k) as [x Hx]; [lia|]. destruct (lookup_lt_is_Some_2 (Nodes (Normalized c)) (S k)) as [y Hy]; [lia|].
  replace (Z.of_nat k + 1) with (Z.of_nat (S k)) by lia. by rewrite (node_at_lookup _ _ _ Hx), (node_at_lookup _ _ _ Hy).
Qed.

Lemma NextNode_ok : NextNode (at_node (Normalized c) n) = Ok m.
Proof using Hv Hk.
  destruct hop_lookups as [Hn _]. unfold NextNode. rewrite (CurrentIndex_at_node c k n Hv Hn). destruct (Normalized_at_node c n Hv) as [-> _]; [by eapply list_elem_of_lookup_2|].
  cbn [result_bind at_node Nodes]. destruct (Z.leb_spec (len (Nodes (Normalized c))) (Z.of_nat k + 1)); [unfold len in *; lia|done].
Qed.

Context (parent : Chain) (binding raw sig : bytes) (ttl now : Z).
Let hop := next_hop (Normalized c) k (path_end [] (Hops parent)) binding ttl now raw.
Let chain := mkChain ChainVersion (Hops parent ++ [next_signed (Normalized c) k (path_end [] (Hops parent)) binding ttl now raw sig]).
Context (Hparent : length (Hops parent) = k /\ path (Normalized c) now (600 * second) 0 0 [] (Hops parent) /\ NoDup (hop_nonce <$> Hops parent)).
Context (Hbinding : k <> 0%nat -> TrimSpace binding <> []).
Context (Hraw : bytes_ok raw /\ raw <> []) (Hfresh : b64_encode raw ∉ hop_nonce <$> Hops parent).
Context (Httl : second <= ttl <= 600 * second /\ (second | ttl)) (Hnow : IsZero now = false /\ 0 < Unix now).
Context (Hsig : ssh_Sign n (marshal_hop hop) = Some sig) (Hsig' : sig <> []).

Lemma next_expiry : h_ExpiresAtUnix hop = Unix now + ttl / second /\ 1 <= ttl / second <= 600.
Proof using All.
  destruct Httl as [Ht [q ->]]. unfold hop, next_hop, Unix, second in *. cbn [h_ExpiresAtUnix]. rewrite Z.div_add, Z.div_mul by lia. lia.
Qed.

Lemma parent_previous : ((path_end [] (Hops parent) = [] \/ len (path_end [] (Hops parent)) = 64) /\ ToLower (TrimSpace (path_end [] (Hops parent))) = path_end [] (Hops parent)) /\
  forall s, last (Hops parent) = Some s -> SignedHopDigest s = Ok (hop_digest s).
Proof using All.
  destruct Hparent as (_ & Hp & _). split; [split; [|by apply path_end_normal]|].
  - unfold path_end. destruct (last (Hops parent)); [right|by left]. unfold hop_digest, len. by rewrite sha256_hex_length.
  - intros s Hs. destruct (Hops parent) as [|t l _] using rev_ind; [done|]. rewrite last_snoc in Hs. injection Hs as ->. apply path_app in Hp as [_ Hr].
    apply (SignedHopDigest_good _ _ _ _ _ _ _ (context_chain c Hv) (path_end_normal [] l eq_refl) Hr).
Qed.

Lemma chain_live : Forall (fun s => Unix now < h_ExpiresAtUnix (sh_Hop s)) (Hops chain).
Proof using All.
  destruct Hparent as (_ & Hp & _), next_expiry as [E ?]. apply Forall_app. split; [exact (path_live _ _ _ _ _ _ Hp)|]. constructor; [|constructor]. cbn [next_signed sh_Hop]. fold hop. rewrite E. lia.
Qed.

(** The extended chain is accepted by the child from now until a record of it expires. *)
Lemma child_accepts now' clock : now <= now' -> IsZero now' = false -> Forall (fun s => Unix now' < h_ExpiresAtUnix (sh_Hop s)) (Hops chain) ->
  verify_here (at_node (Normalized c) m) chain now' clock = None.
Proof using All.
  intros Hn' Hz' Hexp. destruct Hparent as (Hl & Hp & Hnd), hop_lookups as [_ Hm], next_expiry as [Ee Hd], Hnow as [Hz Hpos], Httl as [Ht _], parent_previous as [Hprev _].
  assert (Unix now <= Unix now') as Hu by (unfold Unix; apply Z.div_le_mono; [done|lia]).
  apply (verify_here_ok (S k) m chain now' clock Hm Hz'). cbn [chain ch_Version Hops]. split; [lia|]. split; [done|]. split; [rewrite length_app, Hl; cbn; lia|].
  apply Forall_app in Hexp as [Hexp He]. apply Forall_cons in He as [He _]. cbn [next_signed sh_Hop] in He. fold hop in He. rewrite Ee in He.
  split; [apply path_app; split|split].
  - apply (path_later _ _ _ _ _ _ _ _ _ _ Hp). apply Forall_forall. intros s Hs. rewrite Forall_forall in Hexp. specialize (Hexp s Hs).
    apply list_elem_of_lookup in Hs as [i Hi]. destruct (path_lookup _ _ _ _ _ _ _ Hp _ _ Hi) as [_ [Hc1 Hc2 [Hc3 _]] _ _]. rewrite Z.add_0_r in Hc3.
    constructor; [done|done|]. rewrite Z.add_0_r, Z.sub_0_r. split; [lia|done].
  - assert (0 + len (Hops parent) = Z.of_nat k) as -> by (unfold len; lia). eapply next_signed_ok; try done; try lia. fold hop.
    constructor; rewrite ?Ee; change (h_IssuedAtUnix hop) with (Unix now); rewrite ?Z.add_0_r, ?Z.sub_0_r; [lia| |split; [done|lia]].
    replace (Unix now + ttl / second - Unix now) with (ttl / second) by lia. unfold second in *. generalize dependent (ttl / 1000000000). intros q ? ? Hd. rewrite (i64_small q) by lia. rewrite i64_small; lia.
  - rewrite fmap_app. apply NoDup_app. split; [done|]. split; [|apply NoDup_singleton]. intros x Hx Hx'. apply list_elem_of_singleton in Hx'. subst x.
    unfold hop_nonce at 1 in Hx. cbn [next_signed sh_Hop] in Hx. fold hop in Hx. destruct (next_hop_canonical c Hv k Hk _ binding raw ttl now Hprev Hraw (proj1 Ht)) as (E & _). fold hop in E. by rewrite E in Hx.
  - eexists. split; [apply last_snoc|done].
Qed.

End Child.

(** The chain a node came in by is a path to it. *)
Lemma incoming_path unmarshal c k n config env now clock parent binding previous enc : Validate c = None -> Nodes (Normalized c) !! k = Some n -> IsZero now = false ->
  incoming unmarshal config env (at_node (Normalized c) n) (Z.of_nat k) now clock = Ok (parent, binding, previous, enc) ->
  length (Hops parent) = k /\ path (Normalized c) now (600 * second) 0 0 [] (Hops parent) /\ NoDup (hop_nonce <$> Hops parent).
Proof.
  intros Hv Hn Hz. unfold incoming. destruct (Z.ltb_spec 0 (Z.of_nat k)) as [Hk|Hk].
  - destruct (se_state env) as [[node b]|]; [|done]. destruct (negb _); [done|]. intros ([e o] & _ & E)%result_bind_ok. apply result_bind_ok in E as (p & _ & E).
    destruct (verify_here _ _ _ _) eqn:Eh; [done|]. apply result_bind_ok in E as (x & _ & E). destruct (negb _); [done|]. injection E as -> _ _ _.
    apply (verify_here_ok c Hv k n _ _ _ Hn Hz) in Eh. tauto.
  - destruct (negb _ || negb _); [done|]. intros [= <- _ _ _]. cbn [Hops length]. split; [lia|]. split; constructor.
Qed.

(** What a node prepares for its child, the child accepts: at a node that has
    a successor and came in by a verified chain, with a signer that signs, a
    fresh nonce and a lifetime of whole seconds up to ten minutes, the
    environment is prepared, names this node as origin and the next one as
    target; and with the two environment values the next node verifies the chain,
    at any time from then until a record expires, and sees this node as its
    previous one at the next depth.  The JSON decoder is only asked to read back
    the encoded chain. *)
Theorem recursive_hop_arrives `{!SshSigLaws} unmarshal c k config env clock raw sig parent binding previous enc (C := Normalized c)
    (n := node_at_index (Nodes C) (Z.of_nat k)) (m := node_at_index (Nodes C) (Z.of_nat k + 1)) (now := rc_Now config)
    (hop := next_hop C k (path_end [] (Hops parent)) binding (rc_TTL config) now raw)
    (chain := mkChain ChainVersion (Hops parent ++ [next_signed C k (path_end [] (Hops parent)) binding (rc_TTL config) now raw sig])) :
  Validate c = None -> (S k < length (Nodes C))%nat -> Z.of_nat k < MaxHops -> rc_NodeContext config = at_node C n -> rc_has_verifier config = true -> rc_preflight config = true ->
  IsZero now = false /\ 0 < Unix now -> second <= rc_TTL config <= 600 * second /\ (second | rc_TTL config) ->
  incoming unmarshal config env (at_node C n) (Z.of_nat k) now clock = Ok (parent, binding, previous, enc) -> (k <> 0%nat -> TrimSpace binding <> []) ->
  bytes_ok raw /\ raw <> [] -> b64_encode raw ∉ hop_nonce <$> Hops parent -> ssh_Sign n (marshal_hop hop) = Some sig -> sig <> [] -> validateSSHEnvironmentValue n = None ->
  bytes_ok (marshal_chain chain) -> len (b64_encode (marshal_chain chain)) <= MaxEncodedBytes -> unmarshal (marshal_chain chain) = Some chain ->
  exists e, PrepareRecursiveHop unmarshal config env clock (Some raw) = Ok e /\ e_Origin e = n /\ e_NextNode e = m /\ e_HopDepth e = Z.of_nat k + 1 /\ e_PreviousNode e = previous /\
  forall signers required now' clock', TrimSpace signers <> [] -> now <= now' -> IsZero now' = false -> Forall (fun s => Unix now' < h_ExpiresAtUnix (sh_Hop s)) (Hops chain) ->
    VerifyIncomingRecursiveHop unmarshal (at_node C m) (e_HopChain e) (e_Origin e) signers required now' clock' = Ok (Some (mkVerifiedHop chain n (Z.of_nat k + 1))).
Proof.
  intros Hv Hk Hmax Hctx Hver Hpre Hnow Httl Hin Hb Hraw Hfresh Hsig Hsig' Henv Hok Hlen Hun.
  destruct (hop_lookups c k Hk) as [Hn Hm]. fold C n m in Hn, Hm. pose proof (incoming_path _ _ _ _ _ _ _ _ _ _ _ _ Hv Hn (proj1 Hnow) Hin) as Hparent.
  pose proof (child_accepts c Hv k Hk Hmax parent binding raw sig (rc_TTL config) now Hparent Hb Hraw Hfresh Httl Hnow Hsig Hsig') as Hacc. fold C m chain in Hacc.
  destruct (parent_previous c Hv k Hk Hmax parent binding raw sig (rc_TTL config) now Hparent Hb Hraw Hfresh Httl Hnow Hsig Hsig') as [Hprev Hdig].
  pose proof Hparent as (Hl & _). destruct Hnow as [Hz Hpos], Httl as [Ht Hdiv].
  pose proof (Append_ok c Hv k Hk _ binding raw sig (rc_TTL config) now Hprev Hb Hraw (proj1 Ht) Hsig Hsig' parent clock Hl eq_refl Hdig Hmax Hz) as Happ. fold C n chain in Happ.
  assert (chain_bounds chain = true /\ len (Hops chain) = Z.of_nat k + 1) as [Hcb Hlc].
  { unfold chain_bounds, chain, len, MaxHops in *. cbn [ch_Version Hops]. rewrite length_app, Hl, str_eqb_refl. cbn [length andb].
    rewrite andb_true_iff, Z.ltb_lt, Z.leb_le. clear -Hmax. lia. }
  destruct (Encode_Decode unmarshal chain Hcb Hok Hun Hlen) as (Henc & Htrim & Hne & Hdec).
  assert (TrimSpace n = n) as Htn.
  { apply trimmed_TrimSpace. destruct (Validate_valid c Hv) as [(_ & _ & Hf) _ _ _ _ _ _]. rewrite Forall_forall in Hf. by apply Hf, (list_elem_of_lookup_2 _ k). }
  exists (mkHopEnvironment n (b64_encode (marshal_chain chain)) m (Z.of_nat k + 1) previous enc (len (Hops parent))).
  split; [|split; [done|split; [done|split; [done|split; [done|]]]]].
  - destruct (Normalized_at_node c n Hv) as [En Evn]; [by eapply list_elem_of_lookup_2|]. fold C in En, Evn.
    pose proof (CurrentIndex_at_node c k n Hv Hn) as Ei. pose proof (NextNode_ok c Hv k Hk) as Enx. fold C n in Ei, Enx. fold m in Enx.
    unfold PrepareRecursiveHop. rewrite Hctx, En, Ei, Enx, Hver, Hpre. cbn [lift result_map_err result_bind negb]. fold now. rewrite Hz.
    destruct (Z.leb_spec (rc_TTL config) 0); [unfold second in *; lia|]. rewrite Hin. cbn [result_bind]. rewrite Happ. cbn [lift result_map_err result_bind].
    change (at_node (at_node C n) m) with (at_node C m). rewrite Hacc, Henc; [|done|done|].
    + cbn [lift result_map_err result_bind]. unfold SignedWVOrigin. rewrite En, Evn. cbn [at_node CurrentNode]. rewrite Htn, Henv. cbn [result_bind]. by rewrite Hlc.
    + exact (chain_live c Hv k Hk Hmax parent binding raw sig (rc_TTL config) now Hparent Hb Hraw Hfresh (conj Ht Hdiv) (conj Hz Hpos) Hsig Hsig').
  - intros signers required now' clock' Hs Hn' Hz' Hexp. cbn [e_HopChain e_Origin]. unfold VerifyIncomingRecursiveHop. rewrite Htrim.
    destruct (str_eqb_spec (b64_encode (marshal_chain chain)) []); [done|]. destruct (str_eqb_spec (TrimSpace signers) []); [done|].
    unfold verifyIncomingRecursiveHop. rewrite Htrim, Hdec. cbn [lift result_map_err result_bind]. rewrite Hacc by done. unfold ImmediatePrevious.
    assert (last (Hops chain) = Some (next_signed C k (path_end [] (Hops parent)) binding (rc_TTL config) now raw sig)) as -> by apply last_snoc.
    cbn [lift result_map_err result_bind next_signed sh_Hop next_hop FromNode]. fold n. rewrite Htn, str_eqb_refl. cbn [negb result_bind]. by rewrite Hlc.
Qed.

End Claims.

(** ** A concrete topology

    A checksum standing in for OpenSSH's signatures: it satisfies the laws, it is
    not a signature scheme. *)

#[local] Existing Instance latin1_tables.

#[local] Instance toy_ssh : SshSig := {|
  ssh_Sign p m := Some [foldr Z.add 0 (p ++ m) `mod` 256; 7];
  ssh_Verify p m s := str_eqb s [foldr Z.add 0 (p ++ m) `mod` 256; 7]
|}.

#[local] Instance toy_ssh_laws : SshSigLaws.
Proof.
  split; cbn; intros p m s [= <-]; [apply str_eqb_refl|]. pose proof (Z.mod_pos_bound (foldr Z.add 0 (p ++ m)) 256 ltac:(lia)). repeat constructor; cbn; lia.
Qed.

Definition hop_context (current : bytes) : NodeContext :=
  mkContext [] [] (str "issuer") [] (str "chain") (repeat 97 64) [str "alpha"; str "beta"; str "gamma"] current [] [] [] (str "nonce") 100 200.
Definition hop_start : Z := 1000 * second.
Definition demo_hops (nonce : bytes) : Chain :=
  let hop := mkHop HopVersion (str "chain") (repeat 97 64) (str "alpha") (str "alpha") (str "beta") 1 [] [] nonce 1000 1300 in
  let normal := normalizeHop hop in
  mkChain ChainVersion [mkSignedHop (str "alpha") hop (b64_encode [foldr Z.add 0 (str "alpha" ++ marshal_hop normal) `mod` 256; 7])].
Definition hop_options (now skew : Z) : HopVerifyOptions := mkHopOptions now 0 skew.

Lemma hop_chain_sound_witness : (Verify (hop_context (str "beta")) (demo_hops (str "AAA")) (hop_options (1100 * second) 0)
  (Verify (hop_context (str "beta")) (demo_hops (str "AAA")) (hop_options hop_start 0) (Some ∅) 0).2 0).1 <> None.
Proof.
  destruct (hop_chain_sound (hop_context (str "beta")) ltac:(vm_compute; reflexivity) (demo_hops (str "AAA")) (hop_options hop_start 0) (Some ∅) 0
    (Verify (hop_context (str "beta")) (demo_hops (str "AAA")) (hop_options hop_start 0) (Some ∅) 0).2) as (_ & _ & _ & _ & _ & Hreplay); [vm_compute; reflexivity|].
  apply (Hreplay ∅ (default (mkSignedHop [] (normalizeHop (mkHop [] [] [] [] [] [] 0 [] [] [] 0 0)) []) (head (Hops (demo_hops (str "AAA")))))); [reflexivity|left|left|reflexivity|reflexivity].
Defined.

(** The second chain spells the nonce with a space. *)
Lemma hop_chain_tamper_evident_witness : norm_signed <$> Hops (demo_hops (str "AAA")) = norm_signed <$> Hops (demo_hops (str " AAA")).
Proof.
  eapply (hop_chain_tamper_evident (hop_context (str "beta")) ltac:(vm_compute; reflexivity) (demo_hops (str "AAA")) (demo_hops (str " AAA")) (hop_options hop_start 0)
    (hop_options hop_start 0) None None 0 0); [vm_compute; reflexivity|vm_compute; reflexivity|reflexivity|reflexivity|vm_compute; reflexivity| |].
  - repeat constructor; try (apply text_okb_ok; vm_compute; reflexivity); vm_compute; congruence.
  - apply apart_collision_free. vm_compute. reflexivity.
Defined.

Definition root_config : RecursiveHopConfig := mkHopConfig (at_node (Normalized (hop_context (str "alpha"))) (str "alpha")) [] true true (300 * second) hop_start.
Definition root_sig : bytes := [foldr Z.add 0 (str "alpha" ++ marshal_hop (next_hop (Normalized (hop_context (str "alpha"))) 0 [] [] (300 * second) hop_start [1; 2; 3])) `mod` 256; 7].
Definition root_chain : Chain := mkChain ChainVersion [next_signed (Normalized (hop_context (str "alpha"))) 0 [] [] (300 * second) hop_start [1; 2; 3] root_sig].
(** A decoder that reads this chain. *)
Definition root_decoder (payload : bytes) : option Chain := if str_eqb payload (marshal_chain root_chain) then Some root_chain else None.

Lemma recursive_hop_arrives_witness : exists e, PrepareRecursiveHop root_decoder root_config (mkSessionEnv None None [] []) 0 (Some [1; 2; 3]) = Ok e /\
  VerifyIncomingRecursiveHop root_decoder (at_node (Normalized (hop_context (str "alpha"))) (str "beta")) (e_HopChain e) (e_Origin e) (str "signers") true (1299 * second) 0
    = Ok (Some (mkVerifiedHop root_chain (str "alpha") 1)).
Proof.
  destruct (recursive_hop_arrives root_decoder (hop_context (str "alpha")) 0 root_config (mkSessionEnv None None [] []) 0 [1; 2; 3] root_sig (mkChain [] []) [] [] [])
    as (e & He & _ & _ & _ & _ & Hchild);
    [vm_compute; reflexivity|vm_compute; repeat constructor|reflexivity|vm_compute; reflexivity|reflexivity|reflexivity|split; vm_compute; reflexivity| |vm_compute; reflexivity|done
    |split; [repeat constructor; cbn; lia|done]|apply not_elem_of_nil|vm_compute; reflexivity|discriminate|vm_compute; reflexivity| |vm_compute; discriminate|vm_compute; reflexivity|].
  - split; [vm_compute; split; discriminate|exists 300; reflexivity].
  - apply text_okb_ok. vm_compute. reflexivity.
  - exists e. split; [exact He|]. apply (Hchild (str "signers") true (1299 * second) 0); [vm_compute; discriminate|vm_compute; discriminate|reflexivity|].
    constructor; [vm_compute; reflexivity|constructor].
Defined.

(** ** What the replay cache does not stop *)

(** The cache forgets a nonce at its expiry, which the skew lets it outlive: in
    the seconds between, the same chain is accepted again. *)
Lemma skew_admits_replay : let o := hop_options (1302 * second) (5 * second) in
  let '(first, cache) := Verify (hop_context (str "beta")) (demo_hops (str "AAA")) o (Some ∅) 0 in
  first = None /\ (Verify (hop_context (str "beta")) (demo_hops (str "AAA")) o cache 0).1 = None.
Proof. vm_compute. split; reflexivity. Qed.

End HopClaims.
