(* ===== verification/ReconnectIdentity.v ===== *)
(** * Reconnect identities (authproof/reconnect_identity.go)

    A node context together with a public key of the node, certified by the
    authority: normalisation, validation, canonical JSON, signing and
    verification. *)

From S2P Require Import Prelude GoStrings Sha256 GoEncoding AuthProof NodeContext.

Module ReconnectIdentity.
Import GoStrings Sha256 GoEncoding AuthProof NodeContext.

Definition ReconnectIdentityVersion : bytes := str "weaverssh.reconnect-identity.v1".
Definition AudienceReconnectIdentity : bytes := str "wv-reconnect-identity".

Inductive identity_error : Type :=
| ErrInvalidReconnectIdentity
| ErrIdentityAuth (e : auth_error).

Record ReconnectIdentity := mkIdentity {
  id_Version : bytes;
  id_Algorithm : bytes;
  id_Audience : bytes;
  id_Context : NodeContext;
  id_PublicKey : bytes;
  id_KeySHA256 : bytes
}.
Record SignedReconnectIdentity := mkSignedIdentity { si_Identity : ReconnectIdentity; si_Signature : bytes }.

Record IdentityVerifyOptions := mkIdentityOptions {
  io_Now : Z;
  io_Audience : bytes;
  io_ChainID : bytes;
  io_ChainSHA256 : bytes;
  io_CurrentNode : bytes;
  io_MaxTTL : Z
}.

Definition decodeReconnectPublicKey (raw : bytes) : option bytes :=
  match b64_decode (TrimSpace raw) with
  | None => None
  | Some decoded => if negb (len decoded =? PublicKeySize) then None else Some decoded
  end.

(** [publicKeySHA256] is [Sha256.sha256_hex]. *)

Section Unicode.
Context `{UnicodeTables}.

Definition Identity_Normalized (i : ReconnectIdentity) : ReconnectIdentity :=
  let public := TrimSpace (id_PublicKey i) in
  let digest := ToLower (TrimSpace (id_KeySHA256 i)) in
  let '(public, digest) :=
    match decodeReconnectPublicKey public with
    | Some key => (b64_encode key, or_default digest (sha256_hex key))
    | None => (public, digest)
    end in
  mkIdentity (TrimSpace (or_default (id_Version i) ReconnectIdentityVersion)) (TrimSpace (or_default (id_Algorithm i) Algorithm))
    (TrimSpace (or_default (id_Audience i) AudienceReconnectIdentity)) (Normalized (id_Context i)) public digest.

Definition Identity_Validate (i : ReconnectIdentity) : option identity_error :=
  let i := Identity_Normalized i in
  if negb (str_eqb (id_Version i) ReconnectIdentityVersion) || negb (str_eqb (id_Algorithm i) Algorithm) || negb (str_eqb (id_Audience i) AudienceReconnectIdentity)
  then Some ErrInvalidReconnectIdentity else
  match Validate (id_Context i) with
  | Some _ => Some ErrInvalidReconnectIdentity
  | None =>
    if negb (str_eqb (c_audience (id_Context i)) AudienceNodeContext) then Some ErrInvalidReconnectIdentity else
    match decodeReconnectPublicKey (id_PublicKey i) with
    | None => Some ErrInvalidReconnectIdentity
    | Some key => if negb (str_eqb (id_KeySHA256 i) (sha256_hex key)) then Some ErrInvalidReconnectIdentity else None
    end
  end.

Definition PublicKey (i : ReconnectIdentity) : result identity_error bytes :=
  let i := Identity_Normalized i in
  match Identity_Validate i with
  | Some e => Err e
  | None => match decodeReconnectPublicKey (id_PublicKey i) with None => Err ErrInvalidReconnectIdentity | Some key => Ok key end
  end.

Definition NewReconnectIdentity (context : NodeContext) (nodePublicKey : bytes) : result identity_error ReconnectIdentity :=
  if negb (len nodePublicKey =? PublicKeySize) then Err ErrInvalidReconnectIdentity else
  let identity := Identity_Normalized (mkIdentity [] [] [] context (b64_encode nodePublicKey) (sha256_hex nodePublicKey)) in
  match Identity_Validate identity with Some e => Err e | None => Ok identity end.

Definition marshal_identity (i : ReconnectIdentity) : bytes :=
  [123] ++ json_field "version" (json_string (id_Version i)) ++
  [44] ++ json_field "algorithm" (json_string (id_Algorithm i)) ++
  [44] ++ json_field "audience" (json_string (id_Audience i)) ++
  [44] ++ json_field "context" (marshal_context (id_Context i)) ++
  [44] ++ json_field "node_public_key" (json_string (id_PublicKey i)) ++
  [44] ++ json_field "node_key_sha256" (json_string (id_KeySHA256 i)) ++ [125].

Definition canonicalReconnectIdentity (identity : ReconnectIdentity) : result identity_error (bytes * ReconnectIdentity) :=
  let normalized := Identity_Normalized identity in
  match Identity_Validate normalized with
  | Some e => Err e
  | None => Ok (marshal_identity normalized, normalized)
  end.

(** The digest of the identity in its signed envelope. *)
Definition ReconnectIdentitySHA256 (signed : SignedReconnectIdentity) : result identity_error bytes :=
  let* '(_, identity) := canonicalReconnectIdentity (si_Identity signed) in
  let signature := TrimSpace (si_Signature signed) in
  match b64_decode signature with
  | None => Err (ErrIdentityAuth ErrInvalidSignature)
  | Some decoded =>
    if negb (len decoded =? SignatureSize) then Err (ErrIdentityAuth ErrInvalidSignature)
    else Ok (sha256_hex ([123] ++ json_field "identity" (marshal_identity identity) ++ [44] ++ json_field "signature" (json_string signature) ++ [125]))
  end.

Section Ed25519.
Context `{Ed25519}.

Definition SignReconnectIdentity (identity : ReconnectIdentity) (authorityPrivateKey : bytes) : result identity_error SignedReconnectIdentity :=
  if negb (len authorityPrivateKey =? PrivateKeySize) then Err ErrInvalidReconnectIdentity else
  let* '(canonical, normalized) := canonicalReconnectIdentity identity in
  Ok (mkSignedIdentity normalized (b64_encode (ed_sign authorityPrivateKey canonical))).

Definition set_option (o : bytes) : bool := negb (str_eqb (TrimSpace o) []).

Definition VerifySignedReconnectIdentity (signed : SignedReconnectIdentity) (authorityPublicKey : bytes) (options : IdentityVerifyOptions) (clock : Z)
    : result identity_error ReconnectIdentity :=
  if negb (len authorityPublicKey =? PublicKeySize) then Err (ErrIdentityAuth ErrInvalidSignature) else
  let* '(canonical, identity) := canonicalReconnectIdentity (si_Identity signed) in
  match check_signature authorityPublicKey canonical (TrimSpace (si_Signature signed)) with
  | Some e => Err (ErrIdentityAuth e)
  | None =>
    let now := if IsZero (io_Now options) then clock else io_Now options in
    let context := id_Context identity in
    if Unix now <? c_issued context then Err (ErrIdentityAuth ErrNotYetValid) else
    if c_expires context <=? Unix now then Err (ErrIdentityAuth ErrExpiredGrant) else
    if ttl_too_long (c_issued context) (c_expires context) (io_MaxTTL options) then Err (ErrIdentityAuth ErrGrantTTLTooLong) else
    if set_option (io_Audience options) && negb (str_eqb (id_Audience identity) (TrimSpace (io_Audience options))) then Err (ErrIdentityAuth ErrWrongAudience) else
    if set_option (io_ChainID options) && negb (str_eqb (ChainID context) (TrimSpace (io_ChainID options))) then Err (ErrIdentityAuth ErrWrongChainHash) else
    if set_option (io_ChainSHA256 options) && negb (str_eqb (c_chain context) (ToLower (TrimSpace (io_ChainSHA256 options)))) then Err (ErrIdentityAuth ErrWrongChainHash) else
    if set_option (io_CurrentNode options) && negb (str_eqb (CurrentNode context) (TrimSpace (io_CurrentNode options))) then Err (ErrIdentityAuth ErrWrongSubject) else
    Ok identity
  end.

End Ed25519.
End Unicode.
End ReconnectIdentity.
