(* ===== verification/SessionControl.v ===== *)
(** * Registration on a session (sessioncontrol)

    The registry of authenticated nodes, both registration exchanges (the
    one-shot one of control.go and registration_any.go, and the challenge and
    proof of reconnect_*.go), and the admission of target streams.  A message is
    the value its JSON text encodes; the clock, the random source and the
    policy of a host are arguments. *)

From S2P Require Import Prelude GoStrings Sha256 GoEncoding MuxFrame AuthProof NodeContext SessionLink ReconnectIdentity.

Module SessionControl.
Import GoStrings Sha256 GoEncoding MuxFrame AuthProof NodeContext SessionLink ReconnectIdentity.

Definition ProtocolVersion : bytes := str "weaverssh.session-control.v1".
Definition ReconnectProtocolVersion : bytes := str "weaverssh.session-control.reconnect.v1".
Definition ReconnectChallengeVersion : bytes := str "weaverssh.reconnect-challenge.v1".
Definition ReconnectStatementVersion : bytes := str "weaverssh.reconnect-statement.v1".
Definition MaxReconnectChallengeTTL : Z := 120 * second.
Definition messageRegister : bytes := str "node.register".
Definition messageAccepted : bytes := str "node.registered".
Definition reconnectChallengeType : bytes := str "node.reconnect.challenge".
Definition reconnectProofType : bytes := str "node.reconnect.prove".
Definition reconnectAcceptedType : bytes := str "node.reconnected".

Inductive control_error : Type :=
| ErrReconnectProtocol
| ErrReconnectChallenge
| ErrReconnectProof
| ErrReconnectReplay
| ErrReconnectSignature
| ErrControlIdentity (e : identity_error)
| ErrControlContext (e : auth_error)
| ErrChainMismatch
| ErrUnknownNode
| ErrServiceUnavailable
| ErrStaleRegistration
| ErrInvalidService
| ErrWrongProtocol
| ErrWrongBinding
| ErrUnexpectedType
| ErrControlDenied
| ErrTargetDenied
| ErrInvalidTarget
| ErrUnexpectedControl
| ErrNonce.

(** ** The registry *)

Record Node := mkNode { n_ID : bytes; n_Index : Z; n_Context : NodeContext; n_services : gset Z }.

Record Registry := mkRegistry {
  g_chainID : bytes;
  g_chainSHA256 : bytes;
  g_order : list bytes;
  g_nodes : gmap bytes Node
}.
Definition NewRegistry : Registry := mkRegistry [] [] [] ∅.

Definition Supports (n : Node) (service : Z) : bool := bool_decide (service ∈ n_services n).
Definition Services (n : Node) : list Z := sort_by Z.ltb (elements (n_services n)).

Definition containsCapability (capabilities : list bytes) (want : bytes) : bool := existsb (fun c => str_eqb (TrimSpace c) want) capabilities.

Definition serviceAuthorizedByCapabilities (capabilities : list bytes) (service : Z) : bool :=
  if service =? ServiceControl then containsCapability capabilities CapabilityNodeContext else
  if service =? ServiceFS then containsCapability capabilities CapabilityVFSMesh || containsCapability capabilities CapabilityFileBackhaul else
  if (service =? ServiceTCP) || (service =? ServiceUDP) then containsCapability capabilities CapabilitySocksProxy else
  if (service =? ServiceExec) || (service =? ServiceEvents) then containsCapability capabilities CapabilityMapReduce else false.

Fixpoint services_loop (capabilities : list bytes) (out : gset Z) (requested : list Z) : result control_error (gset Z) :=
  match requested with
  | [] => Ok out
  | service :: rest =>
    if negb (service_valid service) then Err ErrInvalidService else
    if negb (serviceAuthorizedByCapabilities capabilities service) then Err (ErrControlContext ErrMissingCapability) else
    services_loop capabilities ({[service]} ∪ out) rest
  end.
Definition normalizeServices (capabilities : list bytes) (services : list Z) : result control_error (gset Z) :=
  services_loop capabilities ∅ (ServiceControl :: services).

Section Unicode.
Context `{UnicodeTables}.

Definition cloneNode (n : Node) : Node := mkNode (n_ID n) (n_Index n) (Normalized (n_Context n)) (n_services n).

(** [clock] is [time.Now]. *)
Definition RegisterVerified (r : Registry) (ctx : NodeContext) (services : list Z) (clock : Z) : result control_error Node * Registry :=
  let ctx := Normalized ctx in
  match Validate ctx with
  | Some e => (Err (ErrControlContext e), r)
  | None =>
    if c_expires ctx <=? Unix clock then (Err (ErrControlContext ErrExpiredGrant), r) else
    match normalizeServices (c_caps ctx) services with
    | Err e => (Err e, r)
    | Ok normalizedServices =>
      let fresh := str_eqb (g_chainID r) [] in
      if negb fresh && (negb (str_eqb (g_chainID r) (ChainID ctx)) || negb (str_eqb (g_chainSHA256 r) (c_chain ctx)) || negb (bool_decide (g_order r = Nodes ctx)))
      then (Err ErrChainMismatch, r) else
      let r := if fresh then mkRegistry (ChainID ctx) (c_chain ctx) (Nodes ctx) (g_nodes r) else r in
      let index := index_from 0 (g_order r) (CurrentNode ctx) in
      if index <? 0 then (Err ErrUnknownNode, r) else
      if match g_nodes r !! CurrentNode ctx with Some existing => c_issued ctx <? c_issued (n_Context existing) | None => false end then (Err ErrStaleRegistration, r) else
      let node := mkNode (CurrentNode ctx) index ctx normalizedServices in
      (Ok (cloneNode node), mkRegistry (g_chainID r) (g_chainSHA256 r) (g_order r) (<[n_ID node := node]> (g_nodes r)))
    end
  end.

Definition endpoint_names : list bytes := [str "endpoint"; str "target"; str "remote"; str "last"].
Definition self_names : list bytes := [str "self"; str "local"; str "here"; str "this"; str "current"; str "."].

(** The name a reference stands for at [currentNode]. *)
Definition resolve_name (r : Registry) (ref currentNode : bytes) : result control_error bytes :=
  let name := TrimSpace ref in
  let currentNode := TrimSpace currentNode in
  let alias := ToLower name in
  let order := g_order r in
  if one_of alias endpoint_names then Ok (match last order with Some n => n | None => name end) else
  if one_of alias self_names then Ok currentNode else
  if one_of alias [str "previous"; str "prev"] then
    (let index := index_from 0 order currentNode in if index <=? 0 then Err ErrUnknownNode else Ok (nth (Z.to_nat (index - 1)) order [])) else
  if str_eqb alias (str "next") then
    (let index := index_from 0 order currentNode in if (index <? 0) || (len order <=? index + 1) then Err ErrUnknownNode else Ok (nth (Z.to_nat (index + 1)) order []))
  else Ok name.

Definition Resolve (r : Registry) (ref currentNode : bytes) : result control_error Node :=
  let* name := resolve_name r ref currentNode in
  if str_eqb name [] then Err ErrUnknownNode else
  match g_nodes r !! name with
  | None => Err ErrUnknownNode
  | Some node => Ok (cloneNode node)
  end.

Definition Authorize (r : Registry) (nodeRef currentNode : bytes) (service : Z) : result control_error Node :=
  let* node := Resolve r nodeRef currentNode in
  if negb (Supports node service) then Err ErrServiceUnavailable else Ok node.

(** [Registered] and [Lookup] of snapshot.go. *)
Definition Registered (r : Registry) : list Node := sort_by (fun a b => n_Index a <? n_Index b) (cloneNode <$> (map_to_list (g_nodes r)).*2).
Definition Lookup (r : Registry) (nodeID : bytes) : option Node := cloneNode <$> g_nodes r !! nodeID.

(** ** Challenge and statement *)

Record ReconnectChallenge := mkChallenge {
  ch_Version : bytes;
  ch_Algorithm : bytes;
  ch_ID : bytes;
  ch_LinkID : bytes;
  ch_TransportID : bytes;
  ch_Binding : bytes;
  ch_Chain : bytes;
  ch_Acceptor : bytes;
  ch_Prover : bytes;
  ch_Issued : Z;
  ch_Expires : Z
}.

(** A nil slice of services is [None]. *)
Record ReconnectStatement := mkStatement {
  st_Version : bytes;
  st_Algorithm : bytes;
  st_ChallengeSHA256 : bytes;
  st_IdentitySHA256 : bytes;
  st_LinkID : bytes;
  st_TransportID : bytes;
  st_Binding : bytes;
  st_Chain : bytes;
  st_Acceptor : bytes;
  st_Prover : bytes;
  st_Services : option (list Z)
}.
Record ReconnectProof := mkProof { pf_Statement : ReconnectStatement; pf_Signature : bytes }.

Definition validSHA256 (value : bytes) : bool :=
  (len value =? 64) && str_eqb value (ToLower value) && match hex_decode value with Some decoded => len decoded =? 32 | None => false end.

Definition validReconnectText (value : bytes) (maximum : Z) : bool :=
  let value := TrimSpace value in
  if str_eqb value [] || (maximum <? len value) then false else no_space_or_control value.

Fixpoint reconnect_services_loop (seen : list Z) (raw : list Z) : result control_error (list Z) :=
  match raw with
  | [] => Ok []
  | service :: rest =>
    if negb (service_valid service) || (service =? ServiceControl) then Err ErrReconnectProof else
    if existsb (Z.eqb service) seen then reconnect_services_loop seen rest
    else let* out := reconnect_services_loop (service :: seen) rest in Ok (service :: out)
  end.
Definition normalizeReconnectServices (raw : list Z) : result control_error (list Z) :=
  if 64 <? len raw then Err ErrReconnectProof else let* out := reconnect_services_loop [] raw in Ok (sort_by Z.ltb out).

Definition Challenge_Normalized (c : ReconnectChallenge) : ReconnectChallenge :=
  mkChallenge (TrimSpace (or_default (ch_Version c) ReconnectChallengeVersion)) (TrimSpace (or_default (ch_Algorithm c) Algorithm)) (TrimSpace (ch_ID c)) (ch_LinkID c)
    (TrimSpace (ch_TransportID c)) (TrimSpace (ch_Binding c)) (ToLower (TrimSpace (ch_Chain c))) (TrimSpace (ch_Acceptor c)) (TrimSpace (ch_Prover c)) (ch_Issued c) (ch_Expires c).

Definition Statement_Normalized (s : ReconnectStatement) : ReconnectStatement :=
  mkStatement (TrimSpace (or_default (st_Version s) ReconnectStatementVersion)) (TrimSpace (or_default (st_Algorithm s) Algorithm))
    (ToLower (TrimSpace (st_ChallengeSHA256 s))) (ToLower (TrimSpace (st_IdentitySHA256 s))) (st_LinkID s) (TrimSpace (st_TransportID s)) (TrimSpace (st_Binding s))
    (ToLower (TrimSpace (st_Chain s))) (TrimSpace (st_Acceptor s)) (TrimSpace (st_Prover s))
    (match normalizeReconnectServices (default [] (st_Services s)) with Ok l => Some l | Err _ => None end).

Definition Challenge_Validate (c0 : ReconnectChallenge) (now clock : Z) : option control_error :=
  let c := Challenge_Normalized c0 in
  if negb (str_eqb (ch_Version c) ReconnectChallengeVersion) || negb (str_eqb (ch_Algorithm c) Algorithm) || negb (validReconnectText (ch_ID c) 512)
     || negb (bool_decide (ValidateID (ch_LinkID c) = None)) || negb (bool_decide (ValidateTransportID (ch_TransportID c) = None)) || negb (validReconnectText (ch_Binding c) 512)
     || negb (validSHA256 (ch_Chain c)) || negb (validReconnectText (ch_Acceptor c) 256) || negb (validReconnectText (ch_Prover c) 256) || str_eqb (ch_Acceptor c) (ch_Prover c)
     || (ch_Issued c <=? 0) || (ch_Expires c <=? ch_Issued c) || (MaxReconnectChallengeTTL <? i64 (i64 (ch_Expires c - ch_Issued c) * second))
  then Some ErrReconnectChallenge else
  let now := if IsZero now then clock else now in
  if (Unix now <? ch_Issued c) || (ch_Expires c <=? Unix now) then Some ErrReconnectChallenge else None.

(** [nonce] is what the random source returned. *)
Definition NewReconnectChallenge (localContext : NodeContext) (peerNode transportID sessionBinding : bytes) (ttl now clock : Z) (nonce : option bytes)
    : result control_error ReconnectChallenge :=
  let localContext := Normalized localContext in
  match Validate localContext with
  | Some _ => Err ErrReconnectChallenge
  | None =>
    let peerNode := TrimSpace peerNode in
    if negb (bool_decide (ValidateTransportID transportID = None)) || negb (validReconnectText sessionBinding 512) then Err ErrReconnectChallenge else
    if (ttl <=? 0) || (MaxReconnectChallengeTTL <? ttl) then Err ErrReconnectChallenge else
    match DeriveID (mkDescriptor (c_chain localContext) (Nodes localContext) (CurrentNode localContext) peerNode) with
    | Err _ => Err ErrReconnectChallenge
    | Ok linkID =>
      let now := if IsZero now then clock else now in
      match nonce with
      | None => Err ErrNonce
      | Some raw =>
        let challenge := mkChallenge ReconnectChallengeVersion Algorithm (b64_encode raw) linkID transportID (TrimSpace sessionBinding) (c_chain localContext)
          (CurrentNode localContext) peerNode (Unix now) (Unix (now + ttl)) in
        match Challenge_Validate challenge now clock with Some e => Err e | None => Ok challenge end
      end
    end
  end.

Definition marshal_challenge (c : ReconnectChallenge) : bytes :=
  [123] ++ json_field "version" (json_string (ch_Version c)) ++ [44] ++ json_field "algorithm" (json_string (ch_Algorithm c)) ++
  [44] ++ json_field "challenge_id" (json_string (ch_ID c)) ++ [44] ++ json_field "link_id" (json_string (ch_LinkID c)) ++
  [44] ++ json_field "transport_id" (json_string (ch_TransportID c)) ++ [44] ++ json_field "session_binding" (json_string (ch_Binding c)) ++
  [44] ++ json_field "chain_sha256" (json_string (ch_Chain c)) ++ [44] ++ json_field "acceptor_node" (json_string (ch_Acceptor c)) ++
  [44] ++ json_field "prover_node" (json_string (ch_Prover c)) ++ [44] ++ json_field "issued_at_unix" (json_int (ch_Issued c)) ++
  [44] ++ json_field "expires_at_unix" (json_int (ch_Expires c)) ++ [125].

Definition marshal_statement (s : ReconnectStatement) : bytes :=
  [123] ++ json_field "version" (json_string (st_Version s)) ++ [44] ++ json_field "algorithm" (json_string (st_Algorithm s)) ++
  [44] ++ json_field "challenge_sha256" (json_string (st_ChallengeSHA256 s)) ++ [44] ++ json_field "identity_sha256" (json_string (st_IdentitySHA256 s)) ++
  [44] ++ json_field "link_id" (json_string (st_LinkID s)) ++ [44] ++ json_field "transport_id" (json_string (st_TransportID s)) ++
  [44] ++ json_field "session_binding" (json_string (st_Binding s)) ++ [44] ++ json_field "chain_sha256" (json_string (st_Chain s)) ++
  [44] ++ json_field "acceptor_node" (json_string (st_Acceptor s)) ++ [44] ++ json_field "prover_node" (json_string (st_Prover s)) ++
  [44] ++ json_field "services" (match st_Services s with None => str "null" | Some l => [91] ++ json_list (json_int <$> l) ++ [93] end) ++ [125].

Definition identityMatchesChallenge (identity : ReconnectIdentity) (c : ReconnectChallenge) : bool :=
  let context := Normalized (id_Context identity) in
  if negb (str_eqb (c_chain context) (ch_Chain c)) || negb (str_eqb (CurrentNode context) (ch_Prover c)) then false else
  match DeriveID (mkDescriptor (c_chain context) (Nodes context) (ch_Acceptor c) (CurrentNode context)) with
  | Err _ => false
  | Ok linkID => str_eqb linkID (ch_LinkID c)
  end.

Definition lift {A} (r : result identity_error A) : result control_error A := result_map_err ErrControlIdentity r.

Definition expectedReconnectStatement (c : ReconnectChallenge) (identity : SignedReconnectIdentity) (services : list Z) : result control_error ReconnectStatement :=
  let challengeDigest := sha256_hex (marshal_challenge (Challenge_Normalized c)) in
  let* identityDigest := lift (ReconnectIdentitySHA256 identity) in
  Ok (Statement_Normalized (mkStatement ReconnectStatementVersion Algorithm challengeDigest identityDigest (ch_LinkID c) (ch_TransportID c) (ch_Binding c) (ch_Chain c)
    (ch_Acceptor c) (ch_Prover c) (Some services))).

Definition canonicalReconnectStatement (s : ReconnectStatement) : result control_error bytes :=
  let n := Statement_Normalized s in
  if negb (str_eqb (st_Version n) ReconnectStatementVersion) || negb (str_eqb (st_Algorithm n) Algorithm) || negb (validSHA256 (st_ChallengeSHA256 n))
     || negb (validSHA256 (st_IdentitySHA256 n)) || negb (bool_decide (ValidateID (st_LinkID n) = None)) || negb (bool_decide (ValidateTransportID (st_TransportID n) = None))
     || negb (validReconnectText (st_Binding n) 512) || negb (validSHA256 (st_Chain n)) || negb (validReconnectText (st_Acceptor n) 256) || negb (validReconnectText (st_Prover n) 256)
     || str_eqb (st_Acceptor n) (st_Prover n) then Err ErrReconnectProof else
  let* _ := normalizeReconnectServices (default [] (st_Services n)) in Ok (marshal_statement n).

Definition equalReconnectStatement (left right : ReconnectStatement) : bool :=
  match canonicalReconnectStatement left, canonicalReconnectStatement right with
  | Ok a, Ok b => str_eqb a b
  | _, _ => false
  end.

Section Ed25519.
Context `{Ed25519}.

(** ** Proof and verification *)

Definition BuildReconnectProof (c : ReconnectChallenge) (identity : SignedReconnectIdentity) (nodePrivateKey : bytes) (services : list Z) (now clock : Z)
    : result control_error ReconnectProof :=
  let c := Challenge_Normalized c in
  match Challenge_Validate c now clock with
  | Some e => Err e
  | None =>
    if negb (len nodePrivateKey =? PrivateKeySize) then Err ErrReconnectProof else
    let normalizedIdentity := Identity_Normalized (si_Identity identity) in
    match Identity_Validate normalizedIdentity with
    | Some e => Err (ErrControlIdentity e)
    | None =>
      if negb (identityMatchesChallenge normalizedIdentity c) then Err ErrReconnectProof else
      match PublicKey normalizedIdentity with
      | Err _ => Err ErrReconnectProof
      | Ok certifiedKey =>
        if negb (str_eqb certifiedKey (ed_public nodePrivateKey)) then Err ErrReconnectProof else
        let* normalizedServices := normalizeReconnectServices services in
        let* statement := expectedReconnectStatement c identity normalizedServices in
        let* canonical := canonicalReconnectStatement statement in
        Ok (mkProof statement (b64_encode (ed_sign nodePrivateKey canonical)))
      end
    end
  end.

(** What is checked before the replay cache. *)
Definition check_proof (c : ReconnectChallenge) (identity : SignedReconnectIdentity) (proof : ReconnectProof) (authorityPublicKey : bytes) (maxIdentityTTL now clock : Z)
    : result control_error (ReconnectIdentity * list Z) :=
  match Challenge_Validate c now clock with
  | Some e => Err e
  | None =>
    let* verifiedIdentity := lift (VerifySignedReconnectIdentity identity authorityPublicKey
      (mkIdentityOptions now AudienceReconnectIdentity [] (ch_Chain c) (ch_Prover c) maxIdentityTTL) clock) in
    if negb (identityMatchesChallenge verifiedIdentity c) then Err ErrReconnectProof else
    let* normalizedServices := normalizeReconnectServices (default [] (st_Services (pf_Statement proof))) in
    let* expected := expectedReconnectStatement c identity normalizedServices in
    let statement := Statement_Normalized (pf_Statement proof) in
    if negb (equalReconnectStatement statement expected) then Err ErrReconnectProof else
    let* canonical := canonicalReconnectStatement statement in
    match PublicKey verifiedIdentity with
    | Err _ => Err ErrReconnectSignature
    | Ok publicKey =>
      match check_signature publicKey canonical (TrimSpace (pf_Signature proof)) with
      | Some _ => Err ErrReconnectSignature
      | None => Ok (verifiedIdentity, normalizedServices)
      end
    end
  end.

Definition VerifyReconnectProof (c : ReconnectChallenge) (identity : SignedReconnectIdentity) (proof : ReconnectProof) (authorityPublicKey : bytes) (maxIdentityTTL : Z)
    (cache : option NonceCache) (now clock : Z) : result control_error (ReconnectIdentity * list Z) * option NonceCache :=
  let c := Challenge_Normalized c in
  match check_proof c identity proof authorityPublicKey maxIdentityTTL now clock with
  | Err e => (Err e, cache)
  | Ok r =>
    match CheckAndStore cache (ch_ID c) (ch_Expires c) (if IsZero now then clock else now) with
    | (Some _, cache) => (Err ErrReconnectReplay, cache)
    | (None, cache) => (Ok r, cache)
    end
  end.

(** ** The two exchanges *)

Record ReconnectServerConfig := mkServerConfig {
  sv_AuthorityPublicKey : bytes;
  sv_LocalContext : NodeContext;
  sv_PeerNode : bytes;
  sv_SessionBinding : bytes;
  sv_TransportID : bytes;
  sv_ChallengeTTL : Z;
  sv_MaxIdentityTTL : Z
}.
Record ReconnectClientConfig := mkClientConfig {
  cl_Identity : SignedReconnectIdentity;
  cl_NodePrivateKey : bytes;
  cl_Services : list Z;
  cl_ExpectedAcceptor : bytes;
  cl_ExpectedBinding : bytes;
  cl_ExpectedTransport : bytes
}.
Record ChallengeEnvelope := mkChallengeEnvelope { ce_Type : bytes; ce_Protocol : bytes; ce_Challenge : ReconnectChallenge }.
Record ProofEnvelope := mkProofEnvelope { pe_Type : bytes; pe_Protocol : bytes; pe_Identity : SignedReconnectIdentity; pe_Proof : ReconnectProof }.
Record RegisterResponse := mkRegisterResponse { rr_Type : bytes; rr_Protocol : bytes; rr_Node : bytes; rr_Services : list Z; rr_Error : option control_error }.
Record ReconnectAccepted := mkAccepted {
  ra_Node : Node;
  ra_Identity : ReconnectIdentity;
  ra_LinkID : bytes;
  ra_TransportID : bytes;
  ra_Binding : bytes;
  ra_Services : list Z
}.

(** [ServeReconnectStream] up to the challenge it sends. *)
Definition serve_challenge (config : ReconnectServerConfig) (now clock : Z) (nonce : option bytes) : result control_error ChallengeEnvelope :=
  if negb (len (sv_AuthorityPublicKey config) =? PublicKeySize) then Err ErrReconnectProtocol else
  let ttl := if sv_ChallengeTTL config <=? 0 then 30 * second else sv_ChallengeTTL config in
  let* challenge := NewReconnectChallenge (sv_LocalContext config) (sv_PeerNode config) (sv_TransportID config) (sv_SessionBinding config) ttl now clock nonce in
  Ok (mkChallengeEnvelope reconnectChallengeType ReconnectProtocolVersion challenge).

(** [ServeReconnectStream] from the proof it reads: what it returns, the response it sends, the registry and the cache. *)
Definition serve_proof (config : ReconnectServerConfig) (challenge : ReconnectChallenge) (request : ProofEnvelope) (r : Registry) (cache : option NonceCache) (now clock : Z)
    : result control_error ReconnectAccepted * RegisterResponse * Registry * option NonceCache :=
  let deny e r cache := (Err e, mkRegisterResponse reconnectAcceptedType ReconnectProtocolVersion [] [] (Some e), r, cache) in
  if negb (str_eqb (pe_Type request) reconnectProofType) || negb (str_eqb (pe_Protocol request) ReconnectProtocolVersion) then deny ErrReconnectProtocol r cache else
  match VerifyReconnectProof challenge (pe_Identity request) (pe_Proof request) (sv_AuthorityPublicKey config) (sv_MaxIdentityTTL config) cache now clock with
  | (Err e, cache) => deny e r cache
  | (Ok (verifiedIdentity, services), cache) =>
    match RegisterVerified r (id_Context verifiedIdentity) services clock with
    | (Err e, r) => deny e r cache
    | (Ok node, r) =>
      (Ok (mkAccepted node verifiedIdentity (ch_LinkID challenge) (ch_TransportID challenge) (ch_Binding challenge) services),
       mkRegisterResponse reconnectAcceptedType ReconnectProtocolVersion (n_ID node) (Services node) None, r, cache)
    end
  end.

(** [RegisterNodeReconnectStream] from the challenge it reads to the proof it sends. *)
Definition client_prove (config : ReconnectClientConfig) (envelope : ChallengeEnvelope) (now clock : Z) : result control_error ProofEnvelope :=
  if negb (str_eqb (ce_Type envelope) reconnectChallengeType) || negb (str_eqb (ce_Protocol envelope) ReconnectProtocolVersion) then Err ErrReconnectProtocol else
  let challenge := Challenge_Normalized (ce_Challenge envelope) in
  match Challenge_Validate challenge now clock with
  | Some e => Err e
  | None =>
    let identity := Identity_Normalized (si_Identity (cl_Identity config)) in
    if set_option (cl_ExpectedAcceptor config) && negb (str_eqb (ch_Acceptor challenge) (TrimSpace (cl_ExpectedAcceptor config))) then Err ErrReconnectChallenge else
    if set_option (cl_ExpectedBinding config) && negb (str_eqb (ch_Binding challenge) (TrimSpace (cl_ExpectedBinding config))) then Err ErrWrongBinding else
    if negb (str_eqb (cl_ExpectedTransport config) []) && negb (str_eqb (ch_TransportID challenge) (cl_ExpectedTransport config)) then Err ErrReconnectChallenge else
    if negb (str_eqb (ch_Prover challenge) (CurrentNode (id_Context identity))) || negb (str_eqb (ch_Chain challenge) (c_chain (id_Context identity))) then Err ErrReconnectChallenge else
    let* proof := BuildReconnectProof challenge (cl_Identity config) (cl_NodePrivateKey config) (cl_Services config) now clock in
    Ok (mkProofEnvelope reconnectProofType ReconnectProtocolVersion (cl_Identity config) proof)
  end.

(** [RegisterNodeReconnectStream] from the response it reads. *)
Definition client_finish (response : RegisterResponse) : result control_error RegisterResponse :=
  if negb (str_eqb (rr_Protocol response) ReconnectProtocolVersion) || negb (str_eqb (rr_Type response) reconnectAcceptedType) then Err ErrReconnectProtocol else
  match rr_Error response with Some _ => Err ErrControlDenied | None => Ok response end.

Record RegisterRequest := mkRegisterRequest { rq_Type : bytes; rq_Protocol : bytes; rq_Binding : bytes; rq_Signed : SignedNodeContext; rq_Services : list Z }.

(** [ServeRegistrationStream] from the request it reads, with the verifier of [NewAuthproofVerifier]. *)
Definition serve_registration (publicKey : bytes) (options : NodeContextVerifyOptions) (expectedBinding : bytes) (request : RegisterRequest) (r : Registry) (cache : option NonceCache) (clock : Z)
    : result control_error Node * RegisterResponse * Registry * option NonceCache :=
  let deny e r cache := (Err e, mkRegisterResponse messageAccepted ProtocolVersion [] [] (Some e), r, cache) in
  if negb (str_eqb (rq_Type request) messageRegister) || negb (str_eqb (rq_Protocol request) ProtocolVersion) then deny ErrWrongProtocol r cache else
  if str_eqb (TrimSpace (rq_Binding request)) [] || negb (str_eqb (rq_Binding request) (TrimSpace expectedBinding)) then deny ErrWrongBinding r cache else
  match VerifySignedNodeContext (rq_Signed request) publicKey options cache clock with
  | (Err _, cache) => deny ErrControlDenied r cache
  | (Ok verified, cache) =>
    match RegisterVerified r verified (rq_Services request) clock with
    | (Err e, r) => deny e r cache
    | (Ok node, r) => (Ok node, mkRegisterResponse messageAccepted ProtocolVersion (n_ID node) (Services node) None, r, cache)
    end
  end.

End Ed25519.

(** ** Target streams *)

Record OpenMetadata := mkOpenMetadata { om_Protocol : bytes; om_Node : bytes; om_Data : bytes }.
Definition targetProtocol : bytes := str "weaverssh.target-open.v1".
Definition targetAcceptedMessage : bytes := [87; 86; 84; 65; 1].

(** [raw] is the decoded JSON of the metadata. *)
Definition DecodeOpenMetadata (raw : option OpenMetadata) : result control_error OpenMetadata :=
  match raw with
  | None => Err ErrInvalidTarget
  | Some m =>
    let node := TrimSpace (om_Node m) in
    if negb (str_eqb (om_Protocol m) targetProtocol) || str_eqb node [] then Err ErrInvalidTarget else Ok (mkOpenMetadata (om_Protocol m) node (om_Data m))
  end.

(** [AcceptTargetWithPolicy] and [AuthorizeAcceptedTarget]: the node, the data and what is written to the stream; an error resets the stream. *)
Definition AuthorizeAcceptedTarget (r : Registry) (currentNode : bytes) (policy : option (Node -> Z -> bool)) (service : Z) (raw : option OpenMetadata)
    : result control_error (Node * bytes * bytes) :=
  if service =? ServiceControl then Err ErrUnexpectedControl else
  let* m := DecodeOpenMetadata raw in
  match Authorize r (om_Node m) currentNode service with
  | Err _ => Err ErrTargetDenied
  | Ok node =>
    if match policy with None => false | Some p => negb (p node service) end then Err ErrTargetDenied else Ok (node, om_Data m, targetAcceptedMessage)
  end.

Definition referenceResolvesToLocal (ref : bytes) (local : NodeContext) : bool :=
  let ref := TrimSpace ref in
  let alias := ToLower ref in
  if one_of alias self_names then true else
  if one_of alias endpoint_names then str_eqb (CurrentNode local) (EndpointNode local) else
  if one_of alias [str "previous"; str "prev"; str "next"] then false else str_eqb ref (CurrentNode local).

Fixpoint advertised_loop (capabilities : list bytes) (advertised : list Z) : option control_error :=
  match advertised with
  | [] => None
  | service :: rest =>
    if negb (service_valid service) || (service =? ServiceControl) then Some ErrInvalidService else
    if negb (serviceAuthorizedByCapabilities capabilities service) then Some (ErrControlContext ErrMissingCapability) else advertised_loop capabilities rest
  end.

(** [AcceptLocalTarget] and [AuthorizeAcceptedLocal]. *)
Definition AcceptLocalTarget (local : NodeContext) (advertised : list Z) (service : Z) (raw : option OpenMetadata) : result control_error (bytes * bytes * bytes) :=
  let local := Normalized local in
  match Validate local with
  | Some e => Err (ErrControlContext e)
  | None =>
    match advertised_loop (c_caps local) advertised with
    | Some e => Err e
    | None =>
      if service =? ServiceControl then Err ErrUnexpectedControl else
      let* m := DecodeOpenMetadata raw in
      if negb (referenceResolvesToLocal (om_Node m) local) then Err ErrTargetDenied else
      if negb (existsb (Z.eqb service) advertised) then Err ErrServiceUnavailable else Ok (CurrentNode local, om_Data m, targetAcceptedMessage)
    end
  end.

End Unicode.
End SessionControl.
