(* ===== verification/SessionControlProofs.v ===== *)
(** * Registration on a session: lemmas

    The invariant of the registry, the normal forms of identities, challenges and
    statements, and the bytes that determine them. *)

From S2P Require Import Prelude GoStrings Sha256 GoEncoding MuxFrame AuthProof NodeContext SessionLink ReconnectIdentity SessionControl.

Module SessionControlProofs.
Import GoStrings Sha256 GoEncoding MuxFrame AuthProof NodeContext SessionLink ReconnectIdentity SessionControl.

(** ** Services *)

Definition service_granted (capabilities : list bytes) (s : Z) : Prop := service_valid s = true /\ serviceAuthorizedByCapabilities capabilities s = true.

Lemma services_loop_ok caps requested : forall out s, services_loop caps out requested = Ok s ->
  (forall x, x ∈ s <-> x ∈ out \/ x ∈ requested) /\ Forall (service_granted caps) requested.
Proof.
  induction requested as [|v rest IH]; intros out s; cbn [services_loop].
  - intros [= <-]. split; [|constructor]. intros x. rewrite elem_of_nil. tauto.
  - destruct (service_valid v) eqn:Ev; [|done]. destruct (serviceAuthorizedByCapabilities caps v) eqn:Ea; [|done]. cbn [negb]. intros E. apply IH in E as [Hs Hf].
    split; [|by constructor]. intros x. rewrite Hs, elem_of_union, elem_of_singleton, elem_of_cons. tauto.
Qed.

Lemma normalizeServices_ok caps services s : normalizeServices caps services = Ok s ->
  (forall x, x ∈ s <-> x = ServiceControl \/ x ∈ services) /\ forall x, x ∈ s -> service_granted caps x.
Proof.
  intros E. apply services_loop_ok in E as [Hs Hf]. assert (forall x, x ∈ s <-> x = ServiceControl \/ x ∈ services) as Hx.
  { intros x. rewrite Hs, elem_of_empty, elem_of_cons. tauto. }
  split; [done|]. intros x Hin. rewrite Forall_forall in Hf. apply Hf, elem_of_cons, Hx, Hin.
Qed.

Section Unicode.
Context `{UnicodeTables}.

(** ** The registry *)

Record node_ok (r : Registry) (name : bytes) (n : Node) : Prop := {
  no_id : n_ID n = name /\ CurrentNode (n_Context n) = name;
  no_context : Validate (n_Context n) = None;
  no_chain : ChainID (n_Context n) = g_chainID r /\ c_chain (n_Context n) = g_chainSHA256 r /\ Nodes (n_Context n) = g_order r;
  no_index : 0 <= n_Index n /\ g_order r !! Z.to_nat (n_Index n) = Some name;
  no_services : forall s, s ∈ n_services n -> service_granted (c_caps (n_Context n)) s
}.

Record registry_inv (r : Registry) : Prop := {
  ri_empty : g_chainID r = [] -> g_nodes r = ∅;
  ri_order : NoDup (g_order r);
  ri_nodes : map_Forall (node_ok r) (g_nodes r)
}.

Lemma NewRegistry_inv : registry_inv NewRegistry.
Proof. split; [done|constructor|apply map_Forall_empty]. Qed.

(** The registry as a registration finds it: a first one fixes the chain. *)
Definition on_chain (r : Registry) (ctx : NodeContext) : Registry := if str_eqb (g_chainID r) [] then mkRegistry (ChainID ctx) (c_chain ctx) (Nodes ctx) (g_nodes r) else r.

Lemma index_found (l : list bytes) (x : bytes) : x ∈ l -> 0 <= index_from 0 l x /\ l !! Z.to_nat (index_from 0 l x) = Some x.
Proof.
  intros Hx. destruct (index_from_spec 0 l x) as [[_ Hn]|(k & -> & Hk)]; [done|]. split; [lia|]. by replace (Z.to_nat (0 + Z.of_nat k)) with k by lia.
Qed.

Lemma normal_current ctx : Validate (Normalized ctx) = None -> CurrentNode (Normalized ctx) ∈ Nodes (Normalized ctx) /\ ChainID (Normalized ctx) <> [].
Proof.
  intros Hv. pose proof (Validate_valid _ Hv) as [_ Hc _ _ _ _ _]. rewrite Nodes_idemp, CurrentNode_idemp in Hc. split; [done|].
  destruct (ChainID_valid _ Hv) as [_ Hne]. by rewrite ChainID_idemp in Hne.
Qed.

(** Every way a registration can go. *)
Lemma RegisterVerified_cases r ctx services clock (c := Normalized ctx) : registry_inv r ->
  (exists e, RegisterVerified r ctx services clock = (Err e, r)) \/
  (exists s, Validate c = None /\ Unix clock < c_expires c /\ normalizeServices (c_caps c) services = Ok s /\
    (g_chainID r = [] \/ (g_chainID r = ChainID c /\ g_chainSHA256 r = c_chain c /\ g_order r = Nodes c)) /\
    (forall old, g_nodes r !! CurrentNode c = Some old -> c_issued (n_Context old) <= c_issued c) /\
    let node := mkNode (CurrentNode c) (index_from 0 (Nodes c) (CurrentNode c)) c s in
    RegisterVerified r ctx services clock = (Ok (cloneNode node), mkRegistry (ChainID c) (c_chain c) (Nodes c) (<[CurrentNode c := node]> (g_nodes r)))).
Proof.
  intros [He _ _]. unfold RegisterVerified. fold c. destruct (Validate c) as [e|] eqn:Ev; [left; by eexists|]. destruct (normal_current ctx Ev) as [Hcur Hne]. fold c in Hcur, Hne.
  destruct (Z.leb_spec (c_expires c) (Unix clock)) as [|Hx]; [left; by eexists|]. destruct (normalizeServices _ _) as [s|e] eqn:Es; [|left; by eexists].
  destruct (index_found _ _ Hcur) as [Hi%Z.ltb_ge _].
  destruct (str_eqb_spec (g_chainID r) []) as [E0|E0]; cbn [negb andb].
  - right. exists s. rewrite (He E0). cbn [g_chainID g_chainSHA256 g_order g_nodes n_ID]. rewrite Hi, lookup_empty. repeat (split; [done || by left|]). done.
  - destruct (str_eqb_spec (g_chainID r) (ChainID c)) as [E1|]; [|left; by eexists]. destruct (str_eqb_spec (g_chainSHA256 r) (c_chain c)) as [E2|]; [|left; by eexists].
    destruct (bool_decide_reflect (g_order r = Nodes c)) as [E3|]; [|left; by eexists]. cbn [negb orb]. rewrite E3, Hi.
    destruct (g_nodes r !! CurrentNode c) as [old|] eqn:Eo; [destruct (Z.ltb_spec (c_issued c) (c_issued (n_Context old))); [left; by eexists|]|].
    + right. exists s. repeat (split; [done || by right|]). split; [by intros ? [= <-]|]. cbn [n_ID]. by rewrite E1, E2.
    + right. exists s. rewrite E1, E2. cbn [n_ID]. repeat (split; [done || by right|]). done.
Qed.

Lemma RegisterVerified_inv r ctx services clock : registry_inv r -> registry_inv (RegisterVerified r ctx services clock).2.
Proof.
  intros Hi. destruct (RegisterVerified_cases r ctx services clock Hi) as [[e ->]|(s & Hv & _ & Hs & Hch & _ & ->)]; [done|]. cbn [snd].
  destruct Hi as [He _ Hn], (normal_current ctx Hv) as [Hcur Hne]. split; cbn [g_chainID g_order g_nodes]; [done|apply nodes_normal|].
  apply map_Forall_insert_2.
  - split; cbn [n_ID n_Context n_Index n_services g_chainID g_chainSHA256 g_order]; [done|done|done|by apply index_found|]. intros x. by apply normalizeServices_ok in Hs as [_ Hs]; apply Hs.
  - destruct Hch as [E0|(E1 & E2 & E3)]; [rewrite (He E0); apply map_Forall_empty|]. eapply map_Forall_impl; [exact Hn|]. intros name n [H1 H2 (H3 & H4 & H5) H6 H7].
    split; cbn [g_chainID g_chainSHA256 g_order]; [done|done|split_and!; congruence|by rewrite <- E3|done].
Qed.

(** Services the capabilities grant are taken. *)
Lemma services_loop_granted caps requested : forall out, Forall (service_granted caps) requested -> is_ok (services_loop caps out requested) = true.
Proof. induction requested as [|v rest IH]; intros out; [done|]. intros [[Hv Ha] Hf]%Forall_cons. cbn [services_loop]. rewrite Hv, Ha. by apply IH. Qed.

Lemma control_granted ctx : Validate ctx = None -> service_granted (c_caps (Normalized ctx)) ServiceControl.
Proof.
  intros Hv. split; [done|]. unfold serviceAuthorizedByCapabilities. rewrite Z.eqb_refl. apply existsb_exists. exists CapabilityNodeContext.
  split; [apply list_elem_of_In; by destruct (cv_caps _ (Validate_valid ctx Hv))|]. vm_compute. reflexivity.
Qed.

(** A live context of the registry's chain that is not stale is registered. *)
Lemma RegisterVerified_accepts r ctx services clock (c := Normalized ctx) : registry_inv r -> Validate ctx = None -> Unix clock < c_expires c -> Forall (service_granted (c_caps c)) services ->
  (g_chainID r = [] \/ (g_chainID r = ChainID c /\ g_chainSHA256 r = c_chain c /\ g_order r = Nodes c)) ->
  (forall old, g_nodes r !! CurrentNode c = Some old -> c_issued (n_Context old) <= c_issued c) ->
  exists node r', RegisterVerified r c services clock = (Ok (cloneNode node), r') /\ g_nodes r' !! CurrentNode c = Some node /\ n_ID node = CurrentNode c /\ n_Context node = c /\
    forall s, s ∈ n_services node <-> s = ServiceControl \/ s ∈ services.
Proof.
  intros [He _ _] Hv Hx Hg Hch Hold. destruct (Normalized_valid ctx Hv) as [En Evn]. fold c in En, Evn. unfold RegisterVerified. rewrite En, Evn. destruct (Z.leb_spec (c_expires c) (Unix clock)); [lia|].
  pose proof (services_loop_granted (c_caps c) (ServiceControl :: services) ∅) as Hs. fold (normalizeServices (c_caps c) services) in Hs.
  destruct (normalizeServices (c_caps c) services) as [s|] eqn:Es; [|by discriminate Hs; constructor; [apply control_granted|]]. clear Hs. apply normalizeServices_ok in Es as [Hs _].
  assert (0 <= index_from 0 (Nodes c) (CurrentNode c)) as Hi%Z.ltb_ge by (by apply index_found, (cv_current _ (Validate_valid ctx Hv))).
  assert (match g_nodes r !! CurrentNode c with Some existing => c_issued c <? c_issued (n_Context existing) | None => false end = false) as Hst.
  { destruct (g_nodes r !! CurrentNode c) as [old|]; [|done]. specialize (Hold old eq_refl). lia. }
  destruct (str_eqb_spec (g_chainID r) []) as [E0|E0]; cbn [negb andb g_order g_nodes n_ID g_chainID g_chainSHA256].
  - rewrite Hi, Hst. eexists _, _. split; [done|]. split; [apply lookup_insert_eq|done].
  - destruct Hch as [|(-> & -> & ->)]; [done|]. rewrite !str_eqb_refl, bool_decide_true by done. cbn [negb orb]. rewrite Hi, Hst. eexists _, _. split; [done|]. split; [apply lookup_insert_eq|done].
Qed.

(** ** References *)

(** A resolved reference is a registered node, and a relative one is where it says. *)
Lemma Resolve_ok r ref current node : registry_inv r -> Resolve r ref current = Ok node ->
  exists name stored, g_nodes r !! name = Some stored /\ node = cloneNode stored /\ resolve_name r ref current = Ok name.
Proof.
  intros _ (name & Hname & E)%result_bind_ok. destruct (str_eqb name []); [done|]. destruct (g_nodes r !! name) as [stored|] eqn:Es; [|done]. injection E as <-. by exists name, stored.
Qed.

Lemma position_unique (l : list bytes) i j x : NoDup l -> 0 <= i -> 0 <= j -> l !! Z.to_nat i = Some x -> l !! Z.to_nat j = Some x -> i = j.
Proof. intros Hnd Hi Hj H1 H2. pose proof (NoDup_lookup _ _ _ _ Hnd H1 H2). lia. Qed.

(** One alias at a time. *)
Ltac alias_cases Ha :=
  unfold one_of, self_names, endpoint_names in Ha; cbn [existsb] in Ha; rewrite ?orb_true_iff in Ha; repeat (destruct Ha as [Ha|Ha]); try discriminate;
  match type of Ha with str_eqb ?a ?s = true => destruct (str_eqb_spec a s) as [Ea|]; [|discriminate] end.

Ltac eval_alias Hr Ea :=
  rewrite Ea in Hr;
  repeat match type of Hr with
  | context [one_of ?a ?l] => let b := eval vm_compute in (one_of a l) in change (one_of a l) with b in Hr
  | context [str_eqb (str ?a) (str ?b)] => let c := eval vm_compute in (str_eqb (str a) (str b)) in change (str_eqb (str a) (str b)) with c in Hr
  end; cbv iota in Hr.

Lemma resolve_relative r ref current name n (alias := ToLower (TrimSpace ref)) (index := index_from 0 (g_order r) (TrimSpace current)) : registry_inv r ->
  resolve_name r ref current = Ok name -> node_ok r name n ->
  (one_of alias [str "previous"; str "prev"] = true -> n_Index n = index - 1) /\ (alias = str "next" -> n_Index n = index + 1) /\
  (one_of alias self_names = true -> name = TrimSpace current) /\ (one_of alias endpoint_names = true -> n_Index n = len (g_order r) - 1).
Proof.
  intros [_ Hnd _] Hr [_ _ _ [Hi Hpos] _]. unfold resolve_name in Hr. fold alias index in Hr.
  assert (forall k, 0 <= k -> nth (Z.to_nat k) (g_order r) [] = name -> (Z.to_nat k < length (g_order r))%nat -> n_Index n = k) as Hnth.
  { intros k Hk En Hl. apply (position_unique (g_order r) _ _ name Hnd Hi Hk Hpos). destruct (lookup_lt_is_Some_2 _ _ Hl) as [x Hx]. by rewrite (nth_lookup_Some _ _ _ _ Hx) in En; subst. }
  assert (index < len (g_order r)) as Hlt.
  { unfold index. destruct (index_from_spec 0 (g_order r) (TrimSpace current)) as [[-> _]|(k & -> & Hk%lookup_lt_Some)]; pose proof (len_nonneg (g_order r)); unfold len in *; lia. }
  assert (name ∈ g_order r) as Hin by (by eapply list_elem_of_lookup_2).
  split; [intros Ha|split; [intros Ea|split; intros Ha]].
  - alias_cases Ha; eval_alias Hr Ea; (destruct (Z.leb_spec index 0); [done|]; injection Hr as Hr; apply Hnth; [lia|done|unfold len in *; lia]).
  - eval_alias Hr Ea. destruct (Z.ltb_spec index 0); [done|]. destruct (Z.leb_spec (len (g_order r)) (index + 1)); [done|]. cbn [orb] in Hr. injection Hr as Hr.
    apply Hnth; [lia|done|unfold len in *; lia].
  - alias_cases Ha; eval_alias Hr Ea; by injection Hr as <-.
  - assert (last (g_order r) = Some name -> n_Index n = len (g_order r) - 1) as Hlast.
    { intros E. rewrite last_lookup in E. apply (position_unique (g_order r) _ _ name Hnd Hi); [| |]; [apply lookup_lt_Some in E; unfold len; lia|done|].
      rewrite <- E. f_equal. unfold len. lia. }
    alias_cases Ha; eval_alias Hr Ea; (destruct (last (g_order r)) as [y|] eqn:El; [injection Hr as ->; by apply Hlast|apply last_None in El; rewrite El in Hin; by apply not_elem_of_nil in Hin]).
Qed.

(** ** Proofs of possession *)

Section Ed25519.
Context `{Ed25519}.

Lemma check_signature_ok pk m sig : check_signature pk m sig = None -> exists s, b64_decode sig = Some s /\ ed_verify pk m s = true.
Proof. unfold check_signature. destruct (b64_decode sig) as [s|]; [|done]. destruct (negb (_ =? _)); [done|]. destruct (ed_verify pk m s) eqn:E; [|done]. by exists s. Qed.

(** What a verified identity is. *)
Record identity_good (pk : bytes) (o : IdentityVerifyOptions) (t : Z) (signed : SignedReconnectIdentity) (id : ReconnectIdentity) : Prop := {
  ig_normal : id = Identity_Normalized (si_Identity signed);
  ig_valid : Identity_Validate id = None;
  ig_signed : exists s, b64_decode (TrimSpace (si_Signature signed)) = Some s /\ ed_verify pk (marshal_identity id) s = true;
  ig_window : c_issued (id_Context id) <= Unix t < c_expires (id_Context id);
  ig_chain : TrimSpace (io_ChainSHA256 o) <> [] -> c_chain (id_Context id) = ToLower (TrimSpace (io_ChainSHA256 o));
  ig_node : TrimSpace (io_CurrentNode o) <> [] -> CurrentNode (id_Context id) = TrimSpace (io_CurrentNode o)
}.

Lemma set_option_check o b : set_option o && negb b = false -> TrimSpace o <> [] -> b = true.
Proof. unfold set_option. destruct (str_eqb_spec (TrimSpace o) []); [done|]. cbn [negb andb]. by destruct b. Qed.

Lemma VerifyIdentity_ok signed pk o clock id : VerifySignedReconnectIdentity signed pk o clock = Ok id -> identity_good pk o (if IsZero (io_Now o) then clock else io_Now o) signed id.
Proof.
  unfold VerifySignedReconnectIdentity. destruct (negb _); [done|]. intros ([m i] & Hc & E)%result_bind_ok. unfold canonicalReconnectIdentity in Hc.
  destruct (Identity_Validate _) eqn:Ev; [done|]. injection Hc as <- <-. destruct (check_signature _ _ _) eqn:Es; [done|]. apply check_signature_ok in Es.
  destruct (Z.ltb_spec (Unix (if IsZero (io_Now o) then clock else io_Now o)) (c_issued (id_Context (Identity_Normalized (si_Identity signed))))); [done|].
  destruct (Z.leb_spec (c_expires (id_Context (Identity_Normalized (si_Identity signed)))) (Unix (if IsZero (io_Now o) then clock else io_Now o))); [done|].
  destruct (ttl_too_long _ _ _); [done|]. destruct (_ && _); [done|]. destruct (_ && _); [done|]. destruct (set_option (io_ChainSHA256 o) && _) eqn:E3; [done|].
  destruct (set_option (io_CurrentNode o) && _) eqn:E4; [done|]. injection E as <-. split; [done|done|done|done| |]; intros Ho.
  - apply (set_option_check _ _ E3) in Ho. by destruct (str_eqb_spec (c_chain (id_Context (Identity_Normalized (si_Identity signed)))) (ToLower (TrimSpace (io_ChainSHA256 o)))).
  - apply (set_option_check _ _ E4) in Ho. by destruct (str_eqb_spec (CurrentNode (id_Context (Identity_Normalized (si_Identity signed)))) (TrimSpace (io_CurrentNode o))).
Qed.

Lemma identity_matches id c : identityMatchesChallenge id c = true ->
  c_chain (Normalized (id_Context id)) = ch_Chain c /\ CurrentNode (Normalized (id_Context id)) = ch_Prover c /\
  DeriveID (mkDescriptor (ch_Chain c) (Nodes (Normalized (id_Context id))) (ch_Acceptor c) (ch_Prover c)) = Ok (ch_LinkID c).
Proof.
  unfold identityMatchesChallenge. destruct (str_eqb_spec (c_chain (Normalized (id_Context id))) (ch_Chain c)) as [->|]; [|done].
  destruct (str_eqb_spec (CurrentNode (Normalized (id_Context id))) (ch_Prover c)) as [->|]; [|done]. cbn [negb orb]. destruct (DeriveID _) as [l|]; [|done].
  by destruct (str_eqb_spec l (ch_LinkID c)) as [->|].
Qed.

(** A challenge that validates. *)
Lemma Challenge_window c now clock : Challenge_Validate c now clock = None -> ch_Issued c <= Unix (if IsZero now then clock else now) < ch_Expires c /\
  0 < ch_Issued c /\ i64 (i64 (ch_Expires c - ch_Issued c) * second) <= MaxReconnectChallengeTTL.
Proof.
  unfold Challenge_Validate. cbn [Challenge_Normalized ch_Issued ch_Expires]. destruct (_ || (MaxReconnectChallengeTTL <? _)) eqn:E; [done|]. apply orb_false_iff in E as [E1 E2].
  apply orb_false_iff in E1 as [E1 _]. apply orb_false_iff in E1 as [_ E3]. destruct (_ || _) eqn:E4; [done|]. apply orb_false_iff in E4 as [E4 E5]. intros _. lia.
Qed.

Lemma check_proof_ok c identity proof pk maxTTL now clock id services : check_proof c identity proof pk maxTTL now clock = Ok (id, services) ->
  Challenge_Validate c now clock = None /\
  identity_good pk (mkIdentityOptions now AudienceReconnectIdentity [] (ch_Chain c) (ch_Prover c) maxTTL) (if IsZero now then clock else now) identity id /\
  identityMatchesChallenge id c = true /\ normalizeReconnectServices (default [] (st_Services (pf_Statement proof))) = Ok services /\
  exists expected m key s, expectedReconnectStatement c identity services = Ok expected /\ canonicalReconnectStatement expected = Ok m /\
    canonicalReconnectStatement (Statement_Normalized (pf_Statement proof)) = Ok m /\ PublicKey id = Ok key /\
    b64_decode (TrimSpace (pf_Signature proof)) = Some s /\ ed_verify key m s = true.
Proof.
  unfold check_proof. destruct (Challenge_Validate c now clock) eqn:Ec; [done|]. intros (i & Hi & E)%result_bind_ok.
  assert (VerifySignedReconnectIdentity identity pk (mkIdentityOptions now AudienceReconnectIdentity [] (ch_Chain c) (ch_Prover c) maxTTL) clock = Ok i) as Hi'
    by (unfold lift in Hi; by destruct (VerifySignedReconnectIdentity _ _ _ _); [injection Hi as ->|]).
  apply VerifyIdentity_ok in Hi'. cbn [io_Now] in Hi'. destruct (identityMatchesChallenge i c) eqn:Em; [|done]. cbn [negb] in E.
  apply result_bind_ok in E as (sv & Hs & E). apply result_bind_ok in E as (expected & Hx & E). destruct (equalReconnectStatement _ _) eqn:Eq; [|done]. cbn [negb] in E.
  apply result_bind_ok in E as (m & Hm & E). destruct (PublicKey i) as [key|] eqn:Ek; [|done]. destruct (check_signature _ _ _) eqn:Es; [done|]. injection E as -> ->.
  apply check_signature_ok in Es as (s & Hs1 & Hs2). unfold equalReconnectStatement in Eq. rewrite Hm in Eq. destruct (canonicalReconnectStatement expected) as [m'|] eqn:Em'; [|done].
  destruct (str_eqb_spec m m') as [<-|]; [|done]. repeat (split; [done|]). by exists expected, m, key, s.
Qed.

(** The canonical bytes start with the digests of challenge and identity. *)
Lemma canonical_prefix c identity services e m : expectedReconnectStatement c identity services = Ok e -> canonicalReconnectStatement e = Ok m ->
  exists x tail, ReconnectIdentitySHA256 identity = Ok (sha256_hex x) /\
    m = [123] ++ json_field "version" (json_string ReconnectStatementVersion) ++ [44] ++ json_field "algorithm" (json_string Algorithm) ++
      [44] ++ json_field "challenge_sha256" (json_string (sha256_hex (marshal_challenge (Challenge_Normalized c)))) ++ [44] ++ json_field "identity_sha256" (json_string (sha256_hex x)) ++ tail.
Proof.
  intros (d & Hd & E)%result_bind_ok Hm. assert (ReconnectIdentitySHA256 identity = Ok d) as Hd' by (unfold lift in Hd; by destruct (ReconnectIdentitySHA256 identity); [injection Hd as ->|]).
  assert (exists x, d = sha256_hex x) as [x ->].
  { unfold ReconnectIdentitySHA256 in Hd'. apply result_bind_ok in Hd' as ([mi i] & _ & Hd'). destruct (b64_decode _) as [sig|]; [|done]. destruct (negb _); [done|]. injection Hd' as <-. by eexists. }
  injection E as <-. unfold canonicalReconnectStatement in Hm. destruct (_ || _) eqn:Eo; [done|]. apply result_bind_ok in Hm as (_ & _ & [= <-]).
  exists x. eexists. split; [done|]. unfold marshal_statement. cbn [Statement_Normalized st_Version st_Algorithm st_ChallengeSHA256 st_IdentitySHA256]. rewrite !digest_normal.
  assert (TrimSpace (or_default (TrimSpace (or_default ReconnectStatementVersion ReconnectStatementVersion)) ReconnectStatementVersion) = ReconnectStatementVersion) as -> by (vm_compute; reflexivity).
  assert (TrimSpace (or_default (TrimSpace (or_default Algorithm Algorithm)) Algorithm) = Algorithm) as -> by (vm_compute; reflexivity). reflexivity.
Qed.

Lemma digest_text x : text_ok (sha256_hex x).
Proof. apply ascii_text. eapply Forall_impl; [apply hex_encode_plain, Sum256_ok|]. cbn. lia. Qed.

(** Equal canonical bytes: equal digests. *)
Lemma canonical_digests c1 c2 id1 id2 s1 s2 e1 e2 m : expectedReconnectStatement c1 id1 s1 = Ok e1 -> expectedReconnectStatement c2 id2 s2 = Ok e2 ->
  canonicalReconnectStatement e1 = Ok m -> canonicalReconnectStatement e2 = Ok m ->
  sha256_hex (marshal_challenge (Challenge_Normalized c1)) = sha256_hex (marshal_challenge (Challenge_Normalized c2)) /\ ReconnectIdentitySHA256 id1 = ReconnectIdentitySHA256 id2.
Proof.
  intros H1 H2 M1 M2. destruct (canonical_prefix _ _ _ _ _ H1 M1) as (x1 & t1 & -> & E1), (canonical_prefix _ _ _ _ _ H2 M2) as (x2 & t2 & -> & E2). rewrite E1 in E2. clear E1.
  do 4 apply app_inv_head in E2. pose proof digest_text as Ht. apply app_inv_head, json_field_inj, json_string_inj in E2 as [Ec E2]; [|apply Ht..].
  apply app_inv_head, json_field_inj, json_string_inj in E2 as [Ei _]; [|apply Ht..]. by rewrite Ec, Ei.
Qed.

(** The JSON of a challenge determines it. *)
Record challenge_text (c : ReconnectChallenge) : Prop := {
  ct_strings : Forall text_ok [ch_Version c; ch_Algorithm c; ch_ID c; ch_LinkID c; ch_TransportID c; ch_Binding c; ch_Chain c; ch_Acceptor c; ch_Prover c];
  ct_ints : 0 <= ch_Issued c < 2 ^ 64 /\ 0 <= ch_Expires c < 2 ^ 64
}.

Lemma marshal_challenge_inj c c' : challenge_text c -> challenge_text c' -> marshal_challenge c = marshal_challenge c' -> c = c'.
Proof.
  intros [Hs Hi] [Hs' Hi'] E. rewrite !Forall_cons in Hs, Hs'. destruct Hs as (? & ? & ? & ? & ? & ? & ? & ? & ? & _), Hs' as (? & ? & ? & ? & ? & ? & ? & ? & ? & _).
  unfold marshal_challenge in E. do 9 next_string E. apply app_inv_head, json_field_inj, json_int_inj in E as [? E]; [|lia|lia|apply int_end_comma..].
  apply app_inv_head, json_field_inj, json_int_inj in E as [? _]; [|lia|lia|apply int_end_brace..]. destruct c, c'; cbn in *. by subst.
Qed.

(** A proof accepted for two challenges. *)
Lemma proof_challenges c1 c2 id1 id2 proof pk1 pk2 ttl1 ttl2 now1 now2 clock1 clock2 r1 r2 :
  check_proof c1 id1 proof pk1 ttl1 now1 clock1 = Ok r1 -> check_proof c2 id2 proof pk2 ttl2 now2 clock2 = Ok r2 ->
  sha256_hex (marshal_challenge (Challenge_Normalized c1)) = sha256_hex (marshal_challenge (Challenge_Normalized c2)) /\ ReconnectIdentitySHA256 id1 = ReconnectIdentitySHA256 id2.
Proof.
  destruct r1 as [i1 s1], r2 as [i2 s2]. intros E1 E2. apply check_proof_ok in E1 as (_ & _ & _ & _ & e1 & m1 & _ & _ & Hx1 & Hm1 & Hp1 & _).
  apply check_proof_ok in E2 as (_ & _ & _ & _ & e2 & m2 & _ & _ & Hx2 & Hm2 & Hp2 & _). rewrite Hp1 in Hp2. injection Hp2 as <-. by apply (canonical_digests _ _ _ _ _ _ _ _ _ Hx1 Hx2 Hm1 Hm2).
Qed.

(** ** Normal forms *)

Lemma digest_valid x : validSHA256 (sha256_hex x) = true.
Proof.
  unfold validSHA256. assert (len (sha256_hex x) = 64) as -> by (unfold len; by rewrite sha256_hex_length). pose proof (digest_normal x) as E.
  assert (ToLower (sha256_hex x) = sha256_hex x) as ->.
  { pose proof (Sum256_ok x) as Hm. by rewrite trimmed_TrimSpace in E by (by apply trimmed_plain, hex_encode_plain). }
  rewrite str_eqb_refl. unfold sha256_hex. rewrite hex_roundtrip by apply Sum256_ok. unfold len. by rewrite Sum256_length.
Qed.

(** Services in normal form stay as they are. *)
Lemma reconnect_services_valid raw : forall seen out, reconnect_services_loop seen raw = Ok out ->
  NoDup out /\ (length out <= length raw)%nat /\ Forall (fun s => service_valid s = true /\ s <> ServiceControl) out /\ forall s, s ∈ out <-> s ∈ raw /\ s ∉ seen.
Proof.
  induction raw as [|v rest IH]; intros seen out; cbn [reconnect_services_loop].
  - intros [= <-]. split_and!; [apply NoDup_nil_2|done|constructor|]. intros s. rewrite elem_of_nil. tauto.
  - destruct (service_valid v) eqn:Ev; [|done]. cbn [negb orb]. destruct (Z.eqb_spec v ServiceControl) as [|Hv]; [done|]. destruct (existsb (Z.eqb v) seen) eqn:Ee.
    + apply existsb_exists in Ee as (y & Hy & ->%Z.eqb_eq). apply list_elem_of_In in Hy. intros E. apply IH in E as (? & ? & ? & Hm). cbn [length]. split_and!; [done|lia|done|]. intros s. split.
      * intros Hs. apply Hm in Hs as [Hr ?]. split; [by right|done].
      * intros [[->|?]%elem_of_cons ?]; [done|]. by apply Hm.
    + assert (v ∉ seen) as Hns. { intros Hin. apply not_true_iff_false in Ee. apply Ee, existsb_exists. exists v. split; [by apply list_elem_of_In|apply Z.eqb_refl]. }
      intros (o & Ho & [= <-])%result_bind_ok. apply IH in Ho as (? & ? & ? & Hm). cbn [length]. split_and!; [|lia|by constructor|intros s; split].
      * constructor; [|done]. intros Hin. apply Hm in Hin as [_ Hin]. apply Hin. by left.
      * intros [->|Hs]%elem_of_cons; [split; [by left|done]|]. apply Hm in Hs as [? Hns']. split; [by right|]. intros ?. apply Hns'. by right.
      * intros [[->|?]%elem_of_cons ?]; [by left|]. destruct (decide (s = v)) as [->|]; [by left|]. right. apply Hm. split; [done|]. by rewrite not_elem_of_cons.
Qed.

Lemma reconnect_services_id l : forall seen, NoDup l -> Forall (fun s => service_valid s = true /\ s <> ServiceControl) l -> (forall s, s ∈ l -> s ∉ seen) -> reconnect_services_loop seen l = Ok l.
Proof.
  induction l as [|v l IH]; intros seen Hnd Hf Hs; [done|]. apply NoDup_cons in Hnd as [Hv Hnd]. apply Forall_cons in Hf as [[Ev Hc] Hf]. cbn [reconnect_services_loop]. rewrite Ev. cbn [negb orb].
  destruct (Z.eqb_spec v ServiceControl); [done|]. destruct (existsb (Z.eqb v) seen) eqn:Ee.
  - apply existsb_exists in Ee as (y & Hy & ->%Z.eqb_eq). apply list_elem_of_In in Hy. exfalso. apply (Hs y); [by left|done].
  - rewrite IH; [done|done|done|]. intros s Hin. rewrite not_elem_of_cons. split; [by intros ->|]. apply Hs. by right.
Qed.

Lemma normalizeReconnectServices_ok raw out : normalizeReconnectServices raw = Ok out ->
  NoDup out /\ Forall (fun s => service_valid s = true /\ s <> ServiceControl) out /\ (forall s, s ∈ out <-> s ∈ raw) /\ normalizeReconnectServices out = Ok out.
Proof.
  unfold normalizeReconnectServices. destruct (Z.ltb_spec 64 (len raw)) as [|Hl]; [done|]. intros (o & Ho & [= <-])%result_bind_ok.
  apply reconnect_services_valid in Ho as (Hnd & Hlen & Hf & Hm). assert (NoDup (sort_by Z.ltb o)) as Hnd' by (by rewrite sort_by_perm).
  assert (Forall (fun s => service_valid s = true /\ s <> ServiceControl) (sort_by Z.ltb o)) as Hf' by (by rewrite sort_by_perm). split; [done|]. split; [done|]. split.
  - intros s. rewrite elem_of_sort_by, Hm. split; [tauto|]. intros ?. split; [done|apply not_elem_of_nil].
  - destruct (Z.ltb_spec 64 (len (sort_by Z.ltb o))) as [Hc|]; [unfold len in *; rewrite (Permutation_length (sort_by_perm Z.ltb o)) in Hc; lia|].
    rewrite reconnect_services_id; [|done|done|intros; apply not_elem_of_nil]. cbn [result_bind]. rewrite sort_by_id; [done|]. apply sort_by_in_order; intros; lia.
Qed.

(** ** What an honest exchange computes *)

(** The identity [NewReconnectIdentity] makes. *)
Definition std_identity (ctx : NodeContext) (key : bytes) : ReconnectIdentity :=
  mkIdentity ReconnectIdentityVersion Algorithm AudienceReconnectIdentity (Normalized ctx) (b64_encode key) (sha256_hex key).

Lemma decode_key key : bytes_ok key -> len key = PublicKeySize -> TrimSpace (b64_encode key) = b64_encode key /\ decodeReconnectPublicKey (b64_encode key) = Some key.
Proof.
  intros Hb Hl. unfold decodeReconnectPublicKey. rewrite b64_trimmed, Hl by done. split; [|done]. by apply trimmed_TrimSpace, trimmed_plain, b64_plain.
Qed.

Lemma digest_nonempty x d : or_default (sha256_hex x) d = sha256_hex x.
Proof. unfold or_default. destruct (sha256_hex x) eqn:E; [|done]. pose proof (sha256_hex_length x) as Hl. by rewrite E in Hl. Qed.

Lemma std_normal ctx key : Validate ctx = None -> bytes_ok key -> len key = PublicKeySize -> Identity_Normalized (std_identity ctx key) = std_identity ctx key.
Proof.
  intros Hv Hb Hl. destruct (decode_key key Hb Hl) as [Et Ed], (Normalized_valid ctx Hv) as [En _]. unfold Identity_Normalized, std_identity.
  cbn [id_PublicKey id_KeySHA256 id_Version id_Algorithm id_Audience id_Context]. rewrite Et, Ed, digest_normal, digest_nonempty, En.
  assert (TrimSpace (or_default ReconnectIdentityVersion ReconnectIdentityVersion) = ReconnectIdentityVersion) as -> by (vm_compute; reflexivity).
  assert (TrimSpace (or_default Algorithm Algorithm) = Algorithm) as -> by (vm_compute; reflexivity).
  by assert (TrimSpace (or_default AudienceReconnectIdentity AudienceReconnectIdentity) = AudienceReconnectIdentity) as -> by (vm_compute; reflexivity).
Qed.

Lemma std_valid ctx key : Validate ctx = None -> c_audience (Normalized ctx) = AudienceNodeContext -> bytes_ok key -> len key = PublicKeySize ->
  Identity_Validate (std_identity ctx key) = None /\ PublicKey (std_identity ctx key) = Ok key /\ canonicalReconnectIdentity (std_identity ctx key) = Ok (marshal_identity (std_identity ctx key), std_identity ctx key).
Proof.
  intros Hv Ha Hb Hl. destruct (decode_key key Hb Hl) as [_ Ed], (Normalized_valid ctx Hv) as [_ Evn]. pose proof (std_normal ctx key Hv Hb Hl) as En.
  assert (Identity_Validate (std_identity ctx key) = None) as Ei.
  { unfold Identity_Validate. rewrite En. unfold std_identity at 1 2 3. cbn [id_PublicKey id_KeySHA256 id_Version id_Algorithm id_Audience id_Context std_identity]. rewrite !str_eqb_refl, Evn, Ha, Ed. cbn [negb orb]. by rewrite !str_eqb_refl. }
  unfold PublicKey, canonicalReconnectIdentity. rewrite En, Ei. split_and!; [done| |done]. unfold std_identity. cbn [id_PublicKey]. by rewrite Ed.
Qed.

Lemma NewReconnectIdentity_eq ctx key : bytes_ok key -> NewReconnectIdentity ctx key =
  if negb (len key =? PublicKeySize) then Err ErrInvalidReconnectIdentity else match Identity_Validate (std_identity ctx key) with Some e => Err e | None => Ok (std_identity ctx key) end.
Proof.
  intros Hb. unfold NewReconnectIdentity. destruct (Z.eqb_spec (len key) PublicKeySize) as [Hl|]; [|done]. cbn [negb]. destruct (decode_key key Hb Hl) as [Et Ed].
  assert (Identity_Normalized (mkIdentity [] [] [] ctx (b64_encode key) (sha256_hex key)) = std_identity ctx key) as ->; [|done].
  unfold Identity_Normalized. cbn [id_PublicKey id_KeySHA256 id_Version id_Algorithm id_Audience id_Context]. rewrite Et, Ed, digest_normal, digest_nonempty. unfold std_identity. f_equal; vm_compute; reflexivity.
Qed.

Lemma NewReconnectIdentity_ok ctx key i : Validate ctx = None -> bytes_ok key -> NewReconnectIdentity ctx key = Ok i -> i = std_identity ctx key /\ c_audience (Normalized ctx) = AudienceNodeContext /\ len key = PublicKeySize.
Proof.
  intros Hv Hb. rewrite NewReconnectIdentity_eq by done. destruct (Z.eqb_spec (len key) PublicKeySize) as [Hl|]; [|done]. cbn [negb].
  destruct (Identity_Validate _) eqn:Ei; [done|]. intros [= <-]. split; [done|]. split; [|done]. unfold Identity_Validate in Ei. rewrite std_normal in Ei by done.
  destruct (_ || _); [done|]. change (id_Context (std_identity ctx key)) with (Normalized ctx) in Ei. destruct (Validate (Normalized ctx)); [done|].
  by destruct (str_eqb_spec (c_audience (Normalized ctx)) AudienceNodeContext).
Qed.

(** The parts of a challenge that validates. *)
Record challenge_good (c : ReconnectChallenge) : Prop := {
  cg_text : validReconnectText (ch_Binding c) 512 = true /\ validReconnectText (ch_Acceptor c) 256 = true /\ validReconnectText (ch_Prover c) 256 = true;
  cg_ids : ValidateID (ch_LinkID c) = None /\ ValidateTransportID (ch_TransportID c) = None;
  cg_chain : validSHA256 (ch_Chain c) = true;
  cg_apart : ch_Acceptor c <> ch_Prover c
}.

Lemma Challenge_good c now clock : Challenge_Validate c now clock = None -> challenge_good (Challenge_Normalized c).
Proof.
  unfold Challenge_Validate. generalize (Challenge_Normalized c). clear c. intros c. destruct (_ || (MaxReconnectChallengeTTL <? _)) eqn:E; [done|]. intros _.
  rewrite !orb_false_iff, !negb_false_iff, !bool_decide_eq_true in E. destruct E as ((((((((((((_ & _) & _) & ?) & ?) & ?) & ?) & ?) & ?) & Ea) & _) & _) & _).
  split; [done|done|done|]. by destruct (str_eqb_spec (ch_Acceptor c) (ch_Prover c)).
Qed.

(** Its validity at another time is a matter of its window. *)
Lemma Challenge_later c now clock now' clock' (t := if IsZero now' then clock' else now') : Challenge_Validate c now clock = None -> ch_Issued c <= Unix t < ch_Expires c -> Challenge_Validate c now' clock' = None.
Proof.
  unfold Challenge_Validate. cbv zeta. destruct (_ || (MaxReconnectChallengeTTL <? _)); [done|]. intros _ Hw. fold t. cbn [Challenge_Normalized ch_Issued ch_Expires].
  destruct (Z.ltb_spec (Unix t) (ch_Issued c)); [lia|]. by destruct (Z.leb_spec (ch_Expires c) (Unix t)); [lia|].
Qed.

(** What the acceptor sends. *)
Lemma NewReconnectChallenge_ok local peer transport binding ttl now clock nonce c : Validate local = None -> NewReconnectChallenge local peer transport binding ttl now clock nonce = Ok c ->
  Challenge_Validate c now clock = None /\ Challenge_Normalized (Challenge_Normalized c) = Challenge_Normalized c /\
  exists raw, nonce = Some raw /\ DeriveID (mkDescriptor (c_chain (Normalized local)) (Nodes (Normalized local)) (CurrentNode (Normalized local)) (TrimSpace peer)) = Ok (ch_LinkID c) /\
    Challenge_Normalized c = mkChallenge ReconnectChallengeVersion Algorithm (TrimSpace (b64_encode raw)) (ch_LinkID c) (TrimSpace transport) (TrimSpace binding) (c_chain (Normalized local))
      (CurrentNode (Normalized local)) (TrimSpace peer) (ch_Issued c) (ch_Expires c).
Proof.
  intros Hv. unfold NewReconnectChallenge. destruct (Validate (Normalized local)); [done|]. destruct (_ || _); [done|]. destruct (_ || _); [done|]. destruct (DeriveID _) as [link|] eqn:Ed; [|done].
  destruct nonce as [raw|]; [|done]. set (ch := mkChallenge _ _ _ _ _ _ _ _ _ _ _). set (t := if IsZero now then clock else now) in *. destruct (Challenge_Validate ch t clock) eqn:Ec; [done|]. intros [= <-].
  assert (Challenge_Validate ch now clock = None) as Ec'.
  { pose proof (Challenge_window _ _ _ Ec) as [Hw _]. eapply Challenge_later; [exact Ec|]. fold t. destruct (IsZero t) eqn:Et; [|done]. unfold t in *. by destruct (IsZero now) eqn:Ez; [|congruence]. }
  destruct (isLowerHexSHA256_plain _ (cv_chain _ (Validate_valid local Hv))) as [_ Echain].
  assert (TrimSpace (CurrentNode (Normalized local)) = CurrentNode (Normalized local)) as Ecur by apply CurrentNode_idemp.
  assert (Challenge_Normalized ch = mkChallenge ReconnectChallengeVersion Algorithm (TrimSpace (b64_encode raw)) link (TrimSpace transport) (TrimSpace binding) (c_chain (Normalized local))
      (CurrentNode (Normalized local)) (TrimSpace peer) (Unix t) (Unix (t + ttl))) as E.
  { unfold ch, Challenge_Normalized. cbn [ch_Version ch_Algorithm ch_ID ch_LinkID ch_TransportID ch_Binding ch_Chain ch_Acceptor ch_Prover ch_Issued ch_Expires].
    rewrite Echain, Ecur, !TrimSpace_idemp. f_equal; vm_compute; reflexivity. }
  split; [exact Ec'|]. split; [|exists raw; by rewrite E]. rewrite E. unfold Challenge_Normalized. cbn [ch_Version ch_Algorithm ch_ID ch_LinkID ch_TransportID ch_Binding ch_Chain ch_Acceptor ch_Prover ch_Issued ch_Expires].
  rewrite Echain, Ecur, !TrimSpace_idemp. f_equal; vm_compute; reflexivity.
Qed.

(** The statement for a challenge in normal form has a canonical text, and is in normal form. *)
Lemma statement_canonical c signed sv x : Challenge_Normalized c = c -> challenge_good c -> ReconnectIdentitySHA256 signed = Ok (sha256_hex x) -> normalizeReconnectServices sv = Ok sv ->
  exists e m, expectedReconnectStatement c signed sv = Ok e /\ st_Services e = Some sv /\ Statement_Normalized e = e /\ canonicalReconnectStatement e = Ok m.
Proof.
  intros En [(Hb & Ha & Hp) [Hl Ht] Hc Hne] Hx Hs. unfold expectedReconnectStatement. rewrite Hx. cbn [lift result_map_err result_bind]. eexists _, _. split; [done|].
  pose proof (f_equal ch_TransportID En) as E1. pose proof (f_equal ch_Binding En) as E2. pose proof (f_equal ch_Chain En) as E3. pose proof (f_equal ch_Acceptor En) as E4. pose proof (f_equal ch_Prover En) as E5.
  cbn [Challenge_Normalized ch_TransportID ch_Binding ch_Chain ch_Acceptor ch_Prover] in E1, E2, E3, E4, E5.
  set (e := Statement_Normalized _).
  assert (e = mkStatement ReconnectStatementVersion Algorithm (sha256_hex (marshal_challenge (Challenge_Normalized c))) (sha256_hex x) (ch_LinkID c) (ch_TransportID c) (ch_Binding c) (ch_Chain c)
    (ch_Acceptor c) (ch_Prover c) (Some sv)) as Ee.
  { unfold e, Statement_Normalized. cbn [st_Version st_Algorithm st_ChallengeSHA256 st_IdentitySHA256 st_LinkID st_TransportID st_Binding st_Chain st_Acceptor st_Prover st_Services default].
    rewrite !digest_normal, E1, E2, E3, E4, E5. unfold default, from_option, id. rewrite Hs. f_equal; vm_compute; reflexivity. }
  assert (Statement_Normalized e = e) as Ei. { rewrite Ee at 1. unfold e at 1. reflexivity. }
  split; [by rewrite Ee|]. split; [done|]. unfold canonicalReconnectStatement. rewrite Ei. rewrite Ee.
  cbn [st_Version st_Algorithm st_ChallengeSHA256 st_IdentitySHA256 st_LinkID st_TransportID st_Binding st_Chain st_Acceptor st_Prover st_Services default].
  rewrite !str_eqb_refl, !digest_valid, Hl, Ht, Hb, Hc, Ha, Hp. destruct (str_eqb_spec (ch_Acceptor c) (ch_Prover c)); [done|]. cbn [negb orb bool_decide]. rewrite !bool_decide_true by done. cbn [negb orb].
  unfold default, from_option, id. rewrite Hs. reflexivity.
Qed.

Section Honest.
Context `{!Ed25519Laws}.

Lemma own_signature k m : len k = PrivateKeySize -> bytes_ok k -> check_signature (ed_public k) m (TrimSpace (b64_encode (ed_sign k m))) = None /\
  b64_decode (TrimSpace (b64_encode (ed_sign k m))) = Some (ed_sign k m).
Proof. intros Hl Hb. unfold check_signature. rewrite b64_trimmed by (by apply ed_sign_bytes). by rewrite ed_sign_size, ed_sign_verifies. Qed.

Context (ctx : NodeContext) (authority node : bytes).
Context (Hctx : Validate ctx = None) (Haudience : c_audience (Normalized ctx) = AudienceNodeContext).
Context (Hauthority : len authority = PrivateKeySize /\ bytes_ok authority) (Hnode : len node = PrivateKeySize /\ bytes_ok node /\ bytes_ok (ed_public node)).

Let identity := std_identity ctx (ed_public node).
Let signed := mkSignedIdentity identity (b64_encode (ed_sign authority (marshal_identity identity))).

Lemma identity_facts : Identity_Normalized identity = identity /\ Identity_Validate identity = None /\ PublicKey identity = Ok (ed_public node) /\
  canonicalReconnectIdentity identity = Ok (marshal_identity identity, identity).
Proof using All. destruct Hnode as (Hl & _ & Hb). pose proof (ed_public_size node Hl) as Hs. split; [by apply std_normal|by apply std_valid]. Qed.

Lemma signed_facts : SignReconnectIdentity identity authority = Ok signed /\ exists x, ReconnectIdentitySHA256 signed = Ok (sha256_hex x).
Proof using All.
  destruct identity_facts as (_ & _ & _ & Ec), Hauthority as [Hl Hb]. unfold SignReconnectIdentity, ReconnectIdentitySHA256. rewrite Hl. cbn [Z.eqb negb].
  change (si_Identity signed) with identity. rewrite Ec. cbn [result_bind]. split; [done|]. unfold signed. cbn [si_Signature]. destruct (own_signature authority (marshal_identity identity) Hl Hb) as [_ ->].
  rewrite ed_sign_size. by eexists.
Qed.

(** The authority's own signature verifies while the context lives. *)
Lemma identity_verifies chain prover maxTTL now clock (t := if IsZero now then clock else now) :
  c_issued (Normalized ctx) <= Unix t < c_expires (Normalized ctx) -> ttl_too_long (c_issued (Normalized ctx)) (c_expires (Normalized ctx)) maxTTL = false ->
  ToLower (TrimSpace chain) = c_chain (Normalized ctx) -> TrimSpace prover = CurrentNode (Normalized ctx) ->
  VerifySignedReconnectIdentity signed (ed_public authority) (mkIdentityOptions now AudienceReconnectIdentity [] chain prover maxTTL) clock = Ok identity.
Proof using All.
  intros Hw Httl Hc Hp. destruct identity_facts as (_ & _ & _ & Ec), Hauthority as [Hl Hb]. unfold VerifySignedReconnectIdentity. rewrite (ed_public_size _ Hl). cbn [Z.eqb negb Pos.eqb PublicKeySize].
  change (si_Identity signed) with identity. rewrite Ec. cbn [result_bind]. unfold signed. cbn [si_Signature]. destruct (own_signature authority (marshal_identity identity) Hl Hb) as [-> _].
  cbn [io_Now io_Audience io_ChainID io_ChainSHA256 io_CurrentNode io_MaxTTL]. fold t. change (id_Context identity) with (Normalized ctx). rewrite Httl, Hc, Hp.
  destruct (Z.ltb_spec (Unix t) (c_issued (Normalized ctx))); [lia|]. destruct (Z.leb_spec (c_expires (Normalized ctx)) (Unix t)); [lia|].
  change (id_Audience identity) with AudienceReconnectIdentity.
  assert (TrimSpace AudienceReconnectIdentity = AudienceReconnectIdentity) as -> by (vm_compute; reflexivity). rewrite !str_eqb_refl, !andb_false_r.
  by assert (set_option [] = false) as -> by (vm_compute; reflexivity).
Qed.

(** The proof the node builds is the proof the acceptor checks. *)
Lemma built_proof_checks c services sv now clock now' clock' maxTTL (t := if IsZero now' then clock' else now') :
  Challenge_Normalized c = c -> Challenge_Validate c now clock = None -> ch_Issued c <= Unix t < ch_Expires c ->
  ch_Chain c = c_chain (Normalized ctx) -> ch_Prover c = CurrentNode (Normalized ctx) ->
  DeriveID (mkDescriptor (ch_Chain c) (Nodes (Normalized ctx)) (ch_Acceptor c) (ch_Prover c)) = Ok (ch_LinkID c) ->
  c_issued (Normalized ctx) <= Unix t < c_expires (Normalized ctx) -> ttl_too_long (c_issued (Normalized ctx)) (c_expires (Normalized ctx)) maxTTL = false ->
  normalizeReconnectServices services = Ok sv ->
  exists proof, BuildReconnectProof c signed node services now clock = Ok proof /\ check_proof c signed proof (ed_public authority) maxTTL now' clock' = Ok (identity, sv).
Proof using All.
  intros En Hv Hw Ec Ep Hd Hlife Httl Hs. pose proof (Challenge_good _ _ _ Hv) as Hg. rewrite En in Hg. destruct signed_facts as (_ & x & Hx), identity_facts as (Ein & Eiv & Ek & _), Hnode as (Hl & Hb & _).
  apply normalizeReconnectServices_ok in Hs as Hs'. destruct Hs' as (_ & _ & _ & Hs'). destruct (statement_canonical c signed sv x En Hg Hx Hs') as (e & m & He & Hse & Hne & Hm).
  assert (identityMatchesChallenge identity c = true) as Hmatch.
  { unfold identityMatchesChallenge. change (id_Context identity) with (Normalized ctx). destruct (Normalized_valid ctx Hctx) as [-> _]. rewrite <- Ec, <- Ep, !str_eqb_refl, Hd. apply str_eqb_refl. }
  pose proof (f_equal ch_Chain En) as E1. pose proof (f_equal ch_Prover En) as E2. cbn [Challenge_Normalized ch_Chain ch_Prover] in E1, E2.
  exists (mkProof e (b64_encode (ed_sign node m))). split.
  - unfold BuildReconnectProof. rewrite En, Hv, Hl. cbn [Z.eqb Pos.eqb negb PrivateKeySize]. change (si_Identity signed) with identity. rewrite Ein, Eiv, Hmatch, Ek, str_eqb_refl. cbn [negb]. rewrite Hs. cbn [result_bind]. rewrite He. cbn [result_bind]. by rewrite Hm.
  - unfold check_proof. rewrite (Challenge_later c now clock now' clock' Hv Hw). rewrite (identity_verifies (ch_Chain c) (ch_Prover c) maxTTL now' clock'); [|done|done|congruence|congruence].
    cbn [lift result_map_err result_bind pf_Statement pf_Signature]. rewrite Hmatch. cbn [negb]. rewrite Hse. unfold default, from_option, id. rewrite Hs'. cbn [result_bind]. rewrite He. cbn [result_bind].
    unfold equalReconnectStatement. rewrite Hne, Hm, str_eqb_refl. cbn [negb result_bind]. rewrite Ek. by destruct (own_signature node m Hl Hb) as [-> _].
Qed.

End Honest.

End Ed25519.
End Unicode.
End SessionControlProofs.
