(* ===== verification/SessionControlClaims.v ===== *)
(** * Registration on a session: what it guarantees

    The registry holds what authenticated registrations granted; an accepted
    reconnect proof is fresh, certified and held by the node's key; a proof
    answers one challenge; and an honest exchange registers the node. *)

From S2P Require Import Prelude GoStrings Sha256 GoEncoding MuxFrame AuthProof NodeContext SessionLink ReconnectIdentity SessionControl SessionControlProofs.

Module SessionControlClaims.
Import GoStrings Sha256 GoEncoding MuxFrame AuthProof NodeContext SessionLink ReconnectIdentity SessionControl SessionControlProofs.

Section Claims.
Context `{UnicodeTables}.

(** ** The registry over a history of registrations *)

Definition registration : Type := NodeContext * list Z * Z.
Definition register (r : Registry) (q : registration) : Registry := (RegisterVerified r q.1.1 q.1.2 q.2).2.
Definition registrations (history : list registration) : Registry := foldl register NewRegistry history.

(** The registration a stored node came from. *)
Record comes_from (n : Node) (q : registration) : Prop := {
  cf_context : n_Context n = Normalized q.1.1 /\ Validate (Normalized q.1.1) = None;
  cf_live : Unix q.2 < c_expires (Normalized q.1.1);
  cf_services : forall s, s ∈ n_services n <-> s = ServiceControl \/ s ∈ q.1.2
}.

Lemma registrations_snoc history q : registrations (history ++ [q]) = register (registrations history) q.
Proof. unfold registrations. by rewrite foldl_app. Qed.

Lemma registrations_inv history : registry_inv (registrations history).
Proof.
  induction history as [|q history IH] using rev_ind; [apply NewRegistry_inv|]. rewrite registrations_snoc. by apply RegisterVerified_inv.
Qed.

Lemma registrations_origin history name n : g_nodes (registrations history) !! name = Some n -> exists q, q ∈ history /\ comes_from n q.
Proof.
  induction history as [|q history IH] using rev_ind; [done|]. rewrite registrations_snoc. unfold register.
  destruct (RegisterVerified_cases _ q.1.1 q.1.2 q.2 (registrations_inv history)) as [[e ->]|(s & Hv & Hx & Hs & _ & _ & ->)]; cbn [snd g_nodes].
  - intros (q' & ? & ?)%IH. exists q'. split; [apply elem_of_app; by left|done].
  - intros [[<- <-]|[_ (q' & ? & ?)%IH]]%lookup_insert_Some.
    + exists q. split; [apply elem_of_app; right; apply list_elem_of_singleton; done|]. apply normalizeServices_ok in Hs as [Hs _]. by split.
    + exists q'. split; [apply elem_of_app; by left|done].
Qed.

(** A later registration keeps every node, with a context at least as new. *)
Lemma register_keeps r q name n : registry_inv r -> g_nodes r !! name = Some n -> exists n', g_nodes (register r q) !! name = Some n' /\ c_issued (n_Context n) <= c_issued (n_Context n').
Proof.
  intros Hi Hn. unfold register. destruct (RegisterVerified_cases r q.1.1 q.1.2 q.2 Hi) as [[e ->]|(s & _ & _ & _ & _ & Hold & ->)]; cbn [snd g_nodes]; [by exists n|].
  destruct (decide (name = CurrentNode (Normalized q.1.1))) as [->|Hne]; [|exists n; by rewrite lookup_insert_ne by done]. rewrite lookup_insert. rewrite decide_True by done. eexists. split; [done|]. by apply Hold.
Qed.

Lemma register_all_keeps later : forall r name n, registry_inv r -> g_nodes r !! name = Some n ->
  exists n', g_nodes (foldl register r later) !! name = Some n' /\ c_issued (n_Context n) <= c_issued (n_Context n').
Proof.
  induction later as [|q later IH]; intros r name n Hi Hn; [by exists n|]. destruct (register_keeps r q name n Hi Hn) as (n1 & H1 & ?).
  destruct (IH (register r q) name n1 (RegisterVerified_inv _ _ _ _ Hi) H1) as (n2 & H2 & ?). exists n2. split; [done|lia].
Qed.

(** What a reference names, at [current]. *)
Definition named_by (r : Registry) (ref current : bytes) (n : Node) : Prop :=
  let alias := ToLower (TrimSpace ref) in
  let index := index_from 0 (g_order r) (TrimSpace current) in
  (one_of alias [str "previous"; str "prev"] = true -> n_Index n = index - 1) /\ (alias = str "next" -> n_Index n = index + 1) /\
  (one_of alias self_names = true -> n_ID n = TrimSpace current) /\ (one_of alias endpoint_names = true -> n_Index n = len (g_order r) - 1).


(** ** Reconnect proofs *)

Section Ed25519.
Context `{Ed25519}.

Lemma VerifyReconnectProof_ok c identity proof pk ttl seen now clock id services cache (t := if IsZero now then clock else now) :
  VerifyReconnectProof c identity proof pk ttl (Some seen) now clock = (Ok (id, services), cache) ->
  check_proof (Challenge_Normalized c) identity proof pk ttl now clock = Ok (id, services) /\
  exists seen', cache = Some seen' /\ seen' !! ch_ID (Challenge_Normalized c) = Some (ch_Expires c).
Proof.
  unfold VerifyReconnectProof. destruct (check_proof _ _ _ _ _ _ _) as [r|]; [|done]. fold t. destruct (CheckAndStore _ _ _ _) as [[e|] k] eqn:Ec; [done|]. intros [= -> ->]. split; [done|].
  apply CheckAndStore_fresh in Ec as [_ Ec]. exact Ec.
Qed.

(** A challenge in the cache is refused until it expires. *)
Lemma used_challenge_refused c identity proof pk ttl seen now clock (t := if IsZero now then clock else now) :
  seen !! ch_ID (Challenge_Normalized c) = Some (ch_Expires c) -> Unix t < ch_Expires c ->
  is_ok (VerifyReconnectProof c identity proof pk ttl (Some seen) now clock).1 = false.
Proof.
  intros Hs Ht. unfold VerifyReconnectProof. destruct (check_proof _ _ _ _ _ _ _) as [r|]; [|done]. fold t. destruct (CheckAndStore _ _ _ _) as [[e|] k] eqn:Ec; [done|].
  apply (CheckAndStore_live _ _ _ _ _ _ _ _ Hs Ht) in Ec as [_ Ec]. by destruct (Ec eq_refl).
Qed.

Lemma serve_proof_ok config c request r seen now clock accepted response r' cache :
  serve_proof config c request r (Some seen) now clock = (Ok accepted, response, r', cache) ->
  VerifyReconnectProof c (pe_Identity request) (pe_Proof request) (sv_AuthorityPublicKey config) (sv_MaxIdentityTTL config) (Some seen) now clock = (Ok (ra_Identity accepted, ra_Services accepted), cache) /\
  RegisterVerified r (id_Context (ra_Identity accepted)) (ra_Services accepted) clock = (Ok (ra_Node accepted), r') /\
  ra_LinkID accepted = ch_LinkID c /\ response = mkRegisterResponse reconnectAcceptedType ReconnectProtocolVersion (n_ID (ra_Node accepted)) (Services (ra_Node accepted)) None.
Proof.
  unfold serve_proof. destruct (_ || _); [done|]. destruct (VerifyReconnectProof _ _ _ _ _ _ _ _) as [[[i sv]|e] k] eqn:Ev; [|done].
  destruct (RegisterVerified r (id_Context i) sv clock) as [[n|e] r1] eqn:Er; [|done]. by intros [= <- <- <- <-].
Qed.

(** C21: When the acceptor's side of the exchange, with a replay cache and a
    well-formed registry, takes a proof, the challenge was
    in its window, the identity was signed by the authority, is alive, and names
    the challenged node, chain and link, and the statement of this challenge,
    identity and list of services was signed by the key certified in that
    identity. The node is then registered with just these services, and the same
    challenge is refused until it expires, whatever proof comes with it. *)
Theorem reconnect_proof_sound config challenge request r seen now clock accepted response r' cache (t := if IsZero now then clock else now) (c := Challenge_Normalized challenge)
    (id := ra_Identity accepted) (context := Normalized (id_Context id)) :
  registry_inv r -> serve_proof config challenge request r (Some seen) now clock = (Ok accepted, response, r', cache) ->
  (ch_Issued c <= Unix t < ch_Expires c /\ c_issued (id_Context id) <= Unix t < c_expires (id_Context id)) /\
  (exists sig, b64_decode (TrimSpace (si_Signature (pe_Identity request))) = Some sig /\ ed_verify (sv_AuthorityPublicKey config) (marshal_identity id) sig = true) /\
  (c_chain context = ch_Chain c /\ CurrentNode context = ch_Prover c /\ DeriveID (mkDescriptor (ch_Chain c) (Nodes context) (ch_Acceptor c) (ch_Prover c)) = Ok (ra_LinkID accepted)) /\
  (exists e m key sig, expectedReconnectStatement c (pe_Identity request) (ra_Services accepted) = Ok e /\ canonicalReconnectStatement e = Ok m /\ PublicKey id = Ok key /\
    b64_decode (TrimSpace (pf_Signature (pe_Proof request))) = Some sig /\ ed_verify key m sig = true) /\
  (exists node, g_nodes r' !! ch_Prover c = Some node /\ ra_Node accepted = cloneNode node /\ n_Context node = context /\
    (forall s, s ∈ n_services node <-> s = ServiceControl \/ s ∈ ra_Services accepted) /\ registry_inv r') /\
  (forall request' r2 now2 clock2, Unix (if IsZero now2 then clock2 else now2) < ch_Expires c -> is_ok (serve_proof config challenge request' r2 cache now2 clock2).1.1.1 = false).
Proof.
  intros Hi E. apply serve_proof_ok in E as (Hv & Hr & Hl & _). apply VerifyReconnectProof_ok in Hv as (Hc & seen' & -> & Hs). apply check_proof_ok in Hc as (Hw & Hg & Hm & _ & e & m & key & sig & Hx & Hm' & _ & Hk & Hd & Hver).
  apply Challenge_window in Hw as [Hw _]. destruct Hg as [_ _ Hsig Hlife _ _]. apply identity_matches in Hm as (M1 & M2 & M3). fold id in Hlife, Hsig, M1, M2, M3, Hk. fold context in M1, M2, M3. fold c in M1, M2, M3, Hx, Hw, Hs.
  split; [done|]. split; [done|]. split; [by rewrite Hl|]. split; [by exists e, m, key, sig|]. split.
  - pose proof (RegisterVerified_inv r (id_Context id) (ra_Services accepted) clock Hi) as Hi'. destruct (RegisterVerified_cases r (id_Context id) (ra_Services accepted) clock Hi) as [[? E]|(s & _ & _ & Hn & _ & _ & E)]; fold id in Hr; rewrite Hr in E; [done|].
    rewrite Hr in Hi'. injection E as Hnode ->. fold context in Hnode, Hn. eexists. split; [cbn [g_nodes]; rewrite <- M2; apply lookup_insert_eq|]. split; [exact Hnode|]. cbn [n_Context n_services]. split; [done|].
    split; [by apply normalizeServices_ok in Hn as [Hn _]|exact Hi'].
  - intros request' r2 now2 clock2 Ht. unfold serve_proof. destruct (_ || _); [done|].
    pose proof (used_challenge_refused challenge (pe_Identity request') (pe_Proof request') (sv_AuthorityPublicKey config) (sv_MaxIdentityTTL config) seen' now2 clock2 Hs Ht) as Hu.
    by destruct (VerifyReconnectProof _ _ _ _ _ _ _ _) as [[?|?] ?].
Qed.

(** A proof answers one challenge, for one certified identity: if it is
    accepted for two, by whatever acceptors and at whatever times, the challenges
    agree in every field of the form that is signed, and the identities have the
    same digest (SHA-256 collision-free on the two challenges, whose strings are
    valid UTF-8). *)
Theorem reconnect_proof_bound c1 c2 id1 id2 proof pk1 pk2 ttl1 ttl2 seen1 seen2 now1 now2 clock1 clock2 r1 r2 k1 k2
    (n1 := Challenge_Normalized (Challenge_Normalized c1)) (n2 := Challenge_Normalized (Challenge_Normalized c2)) :
  VerifyReconnectProof c1 id1 proof pk1 ttl1 (Some seen1) now1 clock1 = (Ok r1, k1) -> VerifyReconnectProof c2 id2 proof pk2 ttl2 (Some seen2) now2 clock2 = (Ok r2, k2) ->
  challenge_text n1 -> challenge_text n2 -> collision_free (fun x => x ∈ [marshal_challenge n1; marshal_challenge n2]) ->
  n1 = n2 /\ ReconnectIdentitySHA256 id1 = ReconnectIdentitySHA256 id2.
Proof.
  destruct r1 as [i1 s1], r2 as [i2 s2]. intros [V1 _]%VerifyReconnectProof_ok [V2 _]%VerifyReconnectProof_ok T1 T2 Hcf. destruct (proof_challenges _ _ _ _ _ _ _ _ _ _ _ _ _ _ _ V1 V2) as [E Hid].
  split; [|done]. apply hex_encode_inj in E; [|apply Sum256_ok..]. apply marshal_challenge_inj; [done|done|]. apply Hcf; [left|right; left|exact E].
Qed.

(** ** The exchange between honest ends *)

Definition at_time (now clock : Z) : Z := if IsZero now then clock else now.
Definition unset_or (option value : bytes) : Prop := option = [] \/ option = value.

(** The two ends' configurations agree: the node's identity comes from the
    authority the acceptor trusts, and both are neighbours on one chain. *)
Record ends_agree (config : ReconnectServerConfig) (client : ReconnectClientConfig) (ctx : NodeContext) (authority : bytes) : Prop := {
  ea_contexts : Validate (sv_LocalContext config) = None /\ Validate ctx = None;
  ea_keys : (len authority = PrivateKeySize /\ bytes_ok authority) /\ len (cl_NodePrivateKey client) = PrivateKeySize /\ bytes_ok (cl_NodePrivateKey client) /\ bytes_ok (ed_public (cl_NodePrivateKey client));
  ea_authority : sv_AuthorityPublicKey config = ed_public authority;
  ea_identity : (let* i := NewReconnectIdentity ctx (ed_public (cl_NodePrivateKey client)) in SignReconnectIdentity i authority) = Ok (cl_Identity client);
  ea_chain : c_chain (Normalized (sv_LocalContext config)) = c_chain (Normalized ctx) /\ Nodes (Normalized (sv_LocalContext config)) = Nodes (Normalized ctx);
  ea_peer : TrimSpace (sv_PeerNode config) = CurrentNode (Normalized ctx);
  ea_expected : unset_or (TrimSpace (cl_ExpectedAcceptor client)) (CurrentNode (Normalized (sv_LocalContext config))) /\
    unset_or (TrimSpace (cl_ExpectedBinding client)) (TrimSpace (sv_SessionBinding config)) /\ unset_or (cl_ExpectedTransport client) (TrimSpace (sv_TransportID config))
}.

(** The registry is of that chain, or of none yet, and holds no newer context. *)
Record registry_open (r : Registry) (ctx : NodeContext) : Prop := {
  ro_inv : registry_inv r;
  ro_chain : g_chainID r = [] \/ (g_chainID r = ChainID (Normalized ctx) /\ g_chainSHA256 r = c_chain (Normalized ctx) /\ g_order r = Nodes (Normalized ctx));
  ro_older : forall old, g_nodes r !! CurrentNode (Normalized ctx) = Some old -> c_issued (n_Context old) <= c_issued (Normalized ctx)
}.

Lemma unset_or_check o v : unset_or (TrimSpace o) v -> set_option o && negb (str_eqb v (TrimSpace o)) = false.
Proof. unfold set_option. intros [->| ->]; [done|]. by rewrite str_eqb_refl, andb_false_r. Qed.

Context `{!Ed25519Laws}.

(** The identity the authority signed is the standard one. *)
Lemma issued_identity ctx key authority signed : Validate ctx = None -> bytes_ok (ed_public key) -> len authority = PrivateKeySize /\ bytes_ok authority -> len key = PrivateKeySize /\ bytes_ok key /\ bytes_ok (ed_public key) ->
  (let* i := NewReconnectIdentity ctx (ed_public key) in SignReconnectIdentity i authority) = Ok signed ->
  c_audience (Normalized ctx) = AudienceNodeContext /\ signed = mkSignedIdentity (std_identity ctx (ed_public key)) (b64_encode (ed_sign authority (marshal_identity (std_identity ctx (ed_public key))))).
Proof.
  intros Hv Hb Ha Hn (i & Hi & E)%result_bind_ok. apply NewReconnectIdentity_ok in Hi as (-> & Haud & _); [|done|done]. split; [done|].
  destruct (signed_facts ctx authority key Hv Haud Ha Hn) as [E' _]. rewrite E' in E. by injection E as <-.
Qed.

(** An honest reconnect succeeds: when the two ends' configurations agree
    ([ends_agree]), the node's capabilities grant the services it asks for, the
    lifetime of its identity is admitted, the registry is of this chain or empty
    and holds no newer context of the node, and the clocks of both ends are within
    the windows of challenge and identity, then the node answers the challenge it
    is sent, the acceptor takes the answer if the challenge is unused, and the
    node learns that it is registered, under its own name, with control and the
    services it asked for; the acceptor binds it to the link of the challenge. *)
Theorem reconnect_handshake config client ctx authority now0 clock0 nonce envelope now1 clock1 services r seen now2 clock2 (challenge := ce_Challenge envelope) (name := CurrentNode (Normalized ctx)) :
  ends_agree config client ctx authority -> serve_challenge config now0 clock0 nonce = Ok envelope ->
  ch_Issued challenge <= Unix (at_time now1 clock1) < ch_Expires challenge -> ch_Issued challenge <= Unix (at_time now2 clock2) < ch_Expires challenge ->
  c_issued (Normalized ctx) <= Unix (at_time now2 clock2) < c_expires (Normalized ctx) -> Unix clock2 < c_expires (Normalized ctx) ->
  ttl_too_long (c_issued (Normalized ctx)) (c_expires (Normalized ctx)) (sv_MaxIdentityTTL config) = false ->
  normalizeReconnectServices (cl_Services client) = Ok services -> Forall (service_granted (c_caps (Normalized ctx))) services ->
  registry_open r ctx -> seen !! ch_ID (Challenge_Normalized challenge) = None ->
  exists request accepted response r' cache, client_prove client envelope now1 clock1 = Ok request /\
    serve_proof config challenge request r (Some seen) now2 clock2 = (Ok accepted, response, r', cache) /\ client_finish response = Ok response /\
    rr_Node response = name /\ (forall s, s ∈ rr_Services response <-> s = ServiceControl \/ s ∈ cl_Services client) /\
    Lookup r' name = Some (ra_Node accepted) /\ ra_LinkID accepted = ch_LinkID challenge.
Proof.
  intros [[Hlv Hv] [Ha (Hl & Hb & Hpb)] Hpk Hid [Hchain Hnodes] Hpeer (Hx1 & Hx2 & Hx3)] He Hw1 Hw2 Hlife Hclock Httl Hs Hg [Hi Hch Hold] Hseen.
  destruct (issued_identity ctx _ _ _ Hv Hpb Ha (conj Hl (conj Hb Hpb)) Hid) as [Haud Esigned]. unfold serve_challenge in He. destruct (negb _); [done|]. apply result_bind_ok in He as (c & Hc & [= <-]).
  cbn [ce_Challenge] in challenge. subst challenge. apply NewReconnectChallenge_ok in Hc as (Hcv & Hcn & raw & _ & Hd & Ec); [|done].
  assert (Challenge_Validate (Challenge_Normalized c) now1 clock1 = None) as Hcv1.
  { apply (Challenge_later _ now0 clock0); [|done]. unfold Challenge_Validate in Hcv |- *. by rewrite Hcn. }
  assert (ch_Acceptor (Challenge_Normalized c) = CurrentNode (Normalized (sv_LocalContext config)) /\ ch_Binding (Challenge_Normalized c) = TrimSpace (sv_SessionBinding config) /\
    ch_TransportID (Challenge_Normalized c) = TrimSpace (sv_TransportID config)) as (Eac & Ebi & Etr) by (by rewrite Ec).
  assert (ch_Chain (Challenge_Normalized c) = c_chain (Normalized ctx) /\ ch_Prover (Challenge_Normalized c) = name) as [Ech Epr] by (rewrite Ec; by split; [rewrite <- Hchain|]).
  destruct (built_proof_checks ctx authority (cl_NodePrivateKey client) Hv Haud Ha (conj Hl (conj Hb Hpb)) (Challenge_Normalized c) (cl_Services client) services now1 clock1 now2 clock2 (sv_MaxIdentityTTL config))
    as (proof & Hproof & Hcheck); [done|done|done|done|done| |done|done|done|].
  { rewrite Ech, Epr. unfold name. rewrite <- Hchain, <- Hnodes, <- Hpeer, Ec. exact Hd. }
  rewrite <- Esigned in Hproof, Hcheck. destruct (normalizeReconnectServices_ok _ _ Hs) as (_ & _ & Hsame & _).
  destruct (RegisterVerified_accepts r ctx services clock2 Hi Hv Hclock Hg Hch Hold) as (node & r' & Hr & Hnode & Hname & Hnctx & Hsv).
  exists (mkProofEnvelope reconnectProofType ReconnectProtocolVersion (cl_Identity client) proof).
  exists (mkAccepted (cloneNode node) (std_identity ctx (ed_public (cl_NodePrivateKey client))) (ch_LinkID c) (ch_TransportID c) (ch_Binding c) services), (mkRegisterResponse reconnectAcceptedType ReconnectProtocolVersion (n_ID (cloneNode node)) (Services (cloneNode node)) None), r'.
  eexists. split; [|split; [|split; [done|split; [done|split; [|split; [by unfold Lookup, name; rewrite Hnode|done]]]]]].
  - unfold client_prove. cbn [ce_Type ce_Protocol ce_Challenge]. rewrite !str_eqb_refl. cbn [negb orb]. rewrite Hcv1.
    assert (id_Context (Identity_Normalized (si_Identity (cl_Identity client))) = Normalized ctx) as -> by (rewrite Esigned; cbn [si_Identity]; by rewrite (std_normal ctx _ Hv Hpb (ed_public_size _ Hl))).
    rewrite Ech, Epr, !str_eqb_refl.
    rewrite Eac, Ebi, Etr. rewrite (unset_or_check _ _ Hx1), (unset_or_check _ _ Hx2). cbn [negb orb]. rewrite Hproof.
    by destruct Hx3 as [-> | ->]; rewrite ?str_eqb_refl, ?andb_false_r.
  - unfold serve_proof. cbn [pe_Type pe_Protocol pe_Identity pe_Proof]. rewrite !str_eqb_refl. cbn [negb orb]. unfold VerifyReconnectProof. rewrite Hpk, Hcheck.
    rewrite CheckAndStore_unused by done. change (id_Context (std_identity ctx (ed_public (cl_NodePrivateKey client)))) with (Normalized ctx). by rewrite Hr.
  - intros s. cbn [rr_Services]. unfold Services. rewrite elem_of_sort_by, elem_of_elements. cbn [cloneNode n_services]. by rewrite Hsv, Hsame.
Qed.

End Ed25519.
End Claims.

(** ** The hypotheses at concrete inputs *)

#[local] Existing Instance latin1_tables.

(** A checksum in place of Ed25519: it satisfies the laws the theorems use. *)
#[local] Instance sum_ed25519 : Ed25519 := {|
  ed_public k := drop 32 k;
  ed_sign k m := (foldr Z.add 0 (drop 32 k ++ m) `mod` 256) :: repeat 0 63;
  ed_verify pk m sig := str_eqb sig ((foldr Z.add 0 (pk ++ m) `mod` 256) :: repeat 0 63)
|}.

#[local] Instance sum_ed25519_laws : Ed25519Laws.
Proof.
  split; cbn.
  - intros k Hk. rewrite len_drop, Hk. done.
  - intros k m. done.
  - intros k m _. constructor; [apply Z.mod_pos_bound; lia|]. repeat constructor; unfold is_u; lia.
  - intros k m _. apply str_eqb_refl.
Qed.

Definition demo_context (current : bytes) (issued : Z) : NodeContext :=
  mkContext [] [] (str "issuer") AudienceNodeContext (str "chain") (repeat 97 64) [str "alpha"; str "beta"] current [] [] [CapabilityNodeContext; CapabilityMapReduce] (str "nonce") issued 2000.
Definition demo_authority : bytes := repeat 5 64.
Definition demo_key : bytes := repeat 7 64.
Definition demo_server : ReconnectServerConfig := mkServerConfig (ed_public demo_authority) (demo_context (str "alpha") 100) (str " beta ") (str "binding") (str "transport-1") 0 0.
Definition demo_identity : SignedReconnectIdentity :=
  mkSignedIdentity (std_identity (demo_context (str "beta") 100) (ed_public demo_key)) (b64_encode (ed_sign demo_authority (marshal_identity (std_identity (demo_context (str "beta") 100) (ed_public demo_key))))).
Definition demo_client : ReconnectClientConfig := mkClientConfig demo_identity demo_key [ServiceExec; ServiceExec] (str "alpha") [] (str "transport-1").
Definition demo_nonce : bytes := repeat 9 32.


Definition get_ok {E A} (d : A) (r : result E A) : A := match r with Ok a => a | Err _ => d end.
Definition demo_envelope : ChallengeEnvelope :=
  get_ok (mkChallengeEnvelope [] [] (mkChallenge [] [] [] [] [] [] [] [] [] 0 0)) (serve_challenge demo_server (1000 * second) 0 (Some demo_nonce)).

Lemma demo_facts : (Validate (demo_context (str "beta") 100) = None /\ c_audience (Normalized (demo_context (str "beta") 100)) = AudienceNodeContext) /\
  (len demo_authority = PrivateKeySize /\ bytes_ok demo_authority) /\ len demo_key = PrivateKeySize /\ bytes_ok demo_key /\ bytes_ok (ed_public demo_key).
Proof.
  split; [split; vm_compute; reflexivity|]. split_and!; try reflexivity; apply Forall_forall; intros x Hx; vm_compute in Hx; apply list_elem_of_In in Hx; cbn in Hx; unfold is_u; lia.
Qed.

Lemma demo_agrees : ends_agree demo_server demo_client (demo_context (str "beta") 100) demo_authority.
Proof.
  destruct demo_facts as ((Hv & Haud) & Ha & Hn). split; [split; [vm_compute; reflexivity|exact Hv]|done|reflexivity| |vm_compute; done|vm_compute; reflexivity|].
  - cbn [demo_client cl_NodePrivateKey cl_Identity]. rewrite NewReconnectIdentity_eq by apply Hn. destruct (std_valid _ _ Hv Haud (proj2 (proj2 Hn)) (ed_public_size _ (proj1 Hn))) as [-> _].
    rewrite (ed_public_size _ (proj1 Hn)). cbn [Z.eqb Pos.eqb negb PublicKeySize result_bind]. by destruct (signed_facts _ _ _ Hv Haud Ha Hn) as [-> _].
  - split_and!; [right; vm_compute; reflexivity|by left|right; vm_compute; reflexivity].
Qed.

Lemma reconnect_handshake_witness : exists request accepted response r' cache, client_prove demo_client demo_envelope (1010 * second) 0 = Ok request /\
  serve_proof demo_server (ce_Challenge demo_envelope) request NewRegistry (Some ∅) (1020 * second) (1020 * second) = (Ok accepted, response, r', cache) /\ rr_Node response = str "beta".
Proof.
  destruct (reconnect_handshake demo_server demo_client (demo_context (str "beta") 100) demo_authority (1000 * second) 0 (Some demo_nonce) demo_envelope (1010 * second) 0 [ServiceExec] NewRegistry ∅
    (1020 * second) (1020 * second)) as (request & accepted & response & r' & cache & H1 & H2 & _ & H3 & _);
    [exact demo_agrees|vm_compute; reflexivity|vm_compute; split; congruence|vm_compute; split; congruence|vm_compute; split; congruence|vm_compute; reflexivity|vm_compute; reflexivity|vm_compute; reflexivity
    |repeat constructor; vm_compute; reflexivity|split; [apply NewRegistry_inv|by left|done]|done|].
  exists request, accepted, response, r', cache. split; [exact H1|]. split; [exact H2|]. exact H3.
Defined.

(** The challenge of the envelope, and a proof for it. *)
Definition demo_link : bytes := get_ok [] (DeriveID (mkDescriptor (repeat 97 64) [str "alpha"; str "beta"] (str "alpha") (str "beta"))).
Definition demo_challenge (prover : bytes) : ReconnectChallenge :=
  mkChallenge ReconnectChallengeVersion Algorithm (b64_encode demo_nonce) demo_link (str "transport-1") (str "binding") (repeat 97 64) (str "alpha") prover 1000 1030.

Lemma demo_normal prover : TrimSpace prover = str "beta" -> Challenge_Normalized (demo_challenge prover) = demo_challenge (str "beta").
Proof. intros E. unfold demo_challenge, Challenge_Normalized. cbn [ch_Version ch_Algorithm ch_ID ch_LinkID ch_TransportID ch_Binding ch_Chain ch_Acceptor ch_Prover ch_Issued ch_Expires]. rewrite E. f_equal; vm_compute; reflexivity. Qed.

Lemma demo_proof : exists proof, check_proof (demo_challenge (str "beta")) demo_identity proof (ed_public demo_authority) 0 (1020 * second) (1020 * second) = Ok (std_identity (demo_context (str "beta") 100) (ed_public demo_key), [ServiceExec]).
Proof.
  destruct demo_facts as ((Hv & Haud) & Ha & Hn).
  destruct (built_proof_checks _ _ _ Hv Haud Ha Hn (demo_challenge (str "beta")) [ServiceExec; ServiceExec] [ServiceExec] (1010 * second) 0 (1020 * second) (1020 * second) 0) as (proof & _ & Hc);
    [apply demo_normal; vm_compute; reflexivity|vm_compute; reflexivity|vm_compute; split; congruence|vm_compute; reflexivity|vm_compute; reflexivity|vm_compute; reflexivity|vm_compute; split; congruence|reflexivity|vm_compute; reflexivity|].
  exists proof. exact Hc.
Qed.

Lemma demo_verified prover proof seen : TrimSpace prover = str "beta" -> seen !! b64_encode demo_nonce = None ->
  check_proof (demo_challenge (str "beta")) demo_identity proof (ed_public demo_authority) 0 (1020 * second) (1020 * second) = Ok (std_identity (demo_context (str "beta") 100) (ed_public demo_key), [ServiceExec]) ->
  exists cache, VerifyReconnectProof (demo_challenge prover) demo_identity proof (ed_public demo_authority) 0 (Some seen) (1020 * second) (1020 * second) = (Ok (std_identity (demo_context (str "beta") 100) (ed_public demo_key), [ServiceExec]), cache).
Proof. intros Hp Hs Hc. unfold VerifyReconnectProof. rewrite (demo_normal prover Hp), Hc. eexists. rewrite CheckAndStore_unused; [reflexivity|exact Hs]. Qed.

(** What is served is accepted once. *)
Lemma reconnect_proof_sound_witness : exists request accepted response r' cache,
  serve_proof demo_server (demo_challenge (str "beta")) request NewRegistry (Some ∅) (1020 * second) (1020 * second) = (Ok accepted, response, r', cache) /\
  is_ok (serve_proof demo_server (demo_challenge (str "beta")) request r' cache (1021 * second) (1021 * second)).1.1.1 = false.
Proof.
  destruct demo_proof as [proof Hc], demo_facts as ((Hv & _) & _). destruct (demo_verified (str "beta") proof ∅ ltac:(vm_compute; reflexivity) eq_refl Hc) as [cache Hver].
  destruct (RegisterVerified_accepts NewRegistry (demo_context (str "beta") 100) [ServiceExec] (1020 * second)) as (node & r' & Hr & _);
    [apply NewRegistry_inv|exact Hv|vm_compute; reflexivity|repeat constructor; vm_compute; reflexivity|by left|done|].
  assert (serve_proof demo_server (demo_challenge (str "beta")) (mkProofEnvelope reconnectProofType ReconnectProtocolVersion demo_identity proof) NewRegistry (Some ∅) (1020 * second) (1020 * second) =
    (Ok (mkAccepted (cloneNode node) (std_identity (demo_context (str "beta") 100) (ed_public demo_key)) demo_link (str "transport-1") (str "binding") [ServiceExec]),
     mkRegisterResponse reconnectAcceptedType ReconnectProtocolVersion (n_ID (cloneNode node)) (Services (cloneNode node)) None, r', cache)) as E.
  { unfold serve_proof. cbn [pe_Type pe_Protocol pe_Identity pe_Proof demo_server sv_AuthorityPublicKey sv_MaxIdentityTTL]. rewrite !str_eqb_refl. cbn [negb orb]. rewrite Hver.
    change (id_Context (std_identity (demo_context (str "beta") 100) (ed_public demo_key))) with (Normalized (demo_context (str "beta") 100)). by rewrite Hr. }
  eexists _, _, _, _, _. split; [exact E|]. destruct (reconnect_proof_sound _ _ _ _ _ _ _ _ _ _ _ NewRegistry_inv E) as (_ & _ & _ & _ & _ & Hreplay). apply Hreplay. vm_compute. reflexivity.
Defined.

Lemma challenge_text_check c : forallb text_okb [ch_Version c; ch_Algorithm c; ch_ID c; ch_LinkID c; ch_TransportID c; ch_Binding c; ch_Chain c; ch_Acceptor c; ch_Prover c]
  && (0 <=? ch_Issued c) && (ch_Issued c <? 2 ^ 64) && (0 <=? ch_Expires c) && (ch_Expires c <? 2 ^ 64) = true -> challenge_text c.
Proof.
  rewrite !andb_true_iff. intros ((((Hf & ?) & ?) & ?) & ?). split; [|lia]. rewrite forallb_forall in Hf. apply Forall_forall. intros x Hx. by apply text_okb_ok, Hf, list_elem_of_In.
Qed.

(** The same proof, taken by an acceptor that spells the peer's name with spaces. *)
Lemma reconnect_proof_bound_witness : Challenge_Normalized (Challenge_Normalized (demo_challenge (str "beta"))) = Challenge_Normalized (Challenge_Normalized (demo_challenge (str " beta "))).
Proof.
  destruct demo_proof as [proof Hc]. destruct (demo_verified (str "beta") proof ∅ ltac:(vm_compute; reflexivity) eq_refl Hc) as [k1 V1], (demo_verified (str " beta ") proof ∅ ltac:(vm_compute; reflexivity) eq_refl Hc) as [k2 V2].
  eapply (reconnect_proof_bound _ _ _ _ _ _ _ _ _ _ _ _ _ _ _ _ _ _ _ V1 V2); [apply challenge_text_check; vm_compute; reflexivity|apply challenge_text_check; vm_compute; reflexivity|].
  apply apart_collision_free. vm_compute. reflexivity.
Defined.

End SessionControlClaims.
