(* ===== verification/Framing.v ===== *)
(** * Length-prefixed messages

    The framing that sessionudp, sessionudpproof, sessionevents, sessionexec,
    mapreduce and sessionbroker each write out: a four-byte big-endian length
    and the payload, and the short status replies of sessionudp,
    sessionudpproof and sessionbroker. [writeFull] and [ReadFull] are those of
    the multiplexer's codec, with short writes and truncated input. *)

From S2P Require Import Prelude GoStrings MuxFrame.

Module Framing.
Import GoStrings MuxFrame.

Inductive frame_error : Type :=
| FrameIO (e : mux_error)
| FrameSize
| FrameMagic
| FrameDenied (message : bytes).

(** The result of a writer: its error, what reached the wire, the script left. *)
Abbreviation written := (option (result frame_error unit * bytes * list write_answer)).

Definition io (w : option (result mux_error unit * bytes * list write_answer)) : written :=
  match w with
  | None => None
  | Some (r, out, script) => Some (result_map_err FrameIO r, out, script)
  end.

(** Header, then payload. *)
Definition write_parts (script : list write_answer) (header payload : bytes) : written :=
  match writeFull script header with
  | Some (Ok _, out, script') =>
    match writeFull script' payload with
    | Some (r, out', script'') => Some (result_map_err FrameIO r, out ++ out', script'')
    | None => None
    end
  | other => io other
  end.

Definition write_frame (maximum : Z) (script : list write_answer) (packet : bytes) : written :=
  if (len packet =? 0) || (maximum <? len packet) then Some (Err FrameSize, [], script) else
  write_parts script (be_put 4 (len packet)) packet.

Definition read_full (n : nat) (inp : bytes) : result frame_error (bytes * bytes) :=
  result_map_err FrameIO (ReadFull n inp).

Definition read_frame (maximum : Z) (inp : bytes) : result frame_error (bytes * bytes) :=
  let* '(header, rest) := read_full 4 inp in
  let length := be_get header in
  if (length <? 1) || (maximum <? length) then Err FrameSize else
  read_full (Z.to_nat length) rest.

(** ** The packages *)

Definition udp_maxFrameBytes : Z := 64 * 2 ^ 10.
Definition sessionudp_WriteFrame := write_frame udp_maxFrameBytes.
Definition sessionudp_ReadFrame := read_frame udp_maxFrameBytes.

(** [maxFrameBytes] of sessionudpproof is declared in socksproof. *)
Definition sessionudpproof_writeFrame (maxFrameBytes : Z) := write_frame maxFrameBytes.
Definition sessionudpproof_readFrame (maxFrameBytes : Z) := read_frame maxFrameBytes.

Definition events_MaxMessageBytes : Z := 2 * 2 ^ 20.
Definition sessionevents_writeFrame := write_frame events_MaxMessageBytes.
Definition sessionevents_readFrame := read_frame events_MaxMessageBytes.

Definition exec_MaxMessageBytes : Z := 16 * 2 ^ 20.
Definition sessionexec_writeFrame := write_frame exec_MaxMessageBytes.
Definition sessionexec_readFrame := read_frame exec_MaxMessageBytes.

Definition mapreduce_MaxMessageBytes : Z := 16 * 2 ^ 20.
Definition mapreduce_writeFrame := write_frame mapreduce_MaxMessageBytes.
Definition mapreduce_readFrame := read_frame mapreduce_MaxMessageBytes.

(** ** Status replies *)

Definition responseMagic : bytes := [87; 86; 85; 49].
Definition maxErrorBytes : nat := 4096.

(** [writeResult] of sessionudp and sessionudpproof; [None] is a nil error. *)
Definition writeResult (script : list write_answer) (resultErr : option bytes) : written :=
  let status := match resultErr with None => 0 | Some _ => 1 end in
  let payload := take maxErrorBytes (default [] resultErr) in
  write_parts script (responseMagic ++ [1; status; 0] ++ be_put 2 (len payload)) payload.

Definition readResult (inp : bytes) : result frame_error bytes :=
  let* '(header, rest) := read_full 9 inp in
  if negb (bool_decide (slice header 0 4 = responseMagic)) || negb (nth 4 header 0 =? 1) then Err FrameMagic else
  let length := be_get (slice header 7 9) in
  if Z.of_nat maxErrorBytes <? length then Err FrameSize else
  let* '(payload, rest) := read_full (Z.to_nat length) rest in
  if negb (nth 5 header 0 =? 0) then Err (FrameDenied (TrimSpace payload)) else Ok rest.

Definition broker_maxRequestBytes : nat := Z.to_nat (64 * 2 ^ 10).

Definition broker_writeResponse (script : list write_answer) (responseErr : option bytes) : written :=
  let status := match responseErr with None => 0 | Some _ => 1 end in
  let payload := take broker_maxRequestBytes (default [] responseErr) in
  write_parts script (status :: be_put 4 (len payload)) payload.

Definition broker_readResponse (inp : bytes) : result frame_error bytes :=
  let* '(header, rest) := read_full 5 inp in
  let length := be_get (drop 1 header) in
  if Z.of_nat broker_maxRequestBytes <? length then Err FrameSize else
  let* '(payload, rest) := read_full (Z.to_nat length) rest in
  if negb (nth 0 header 0 =? 0) then Err (FrameDenied payload) else Ok rest.

(** ** Proofs *)

Lemma read_full_app n a b : length a = n -> read_full n (a ++ b) = Ok (a, b).
Proof. intros Hn. unfold read_full. by rewrite ReadFull_app. Qed.

(** Whatever the writer answers, a prefix reaches the wire, and everything without an error. *)
Lemma write_parts_spec script header payload r out script' :
  write_parts script header payload = Some (r, out, script') ->
  exists tail, header ++ payload = out ++ tail /\ (r = Ok tt -> tail = []).
Proof.
  unfold write_parts. destruct (writeFull script header) as [[[r1 o1] s1]|] eqn:E1; [|done].
  apply writeFull_spec in E1 as (t1 & Ht1 & Hr1). destruct r1 as [[]|e].
  - destruct (writeFull s1 payload) as [[[r2 o2] s2]|] eqn:E2; [|done]. intros [= <- <- _].
    apply writeFull_spec in E2 as (t2 & Ht2 & Hr2). exists t2. rewrite (Hr1 eq_refl), app_nil_r in Ht1.
    subst header payload. split; [by rewrite app_assoc|]. destruct r2 as [[]|]; [by intros _; apply Hr2|done].
  - intros [= <- <- _]. exists (t1 ++ payload). split; [|done]. by rewrite Ht1, app_assoc.
Qed.

Lemma read_frame_written maximum packet rest : 0 < len packet <= maximum -> maximum < 2 ^ 32 ->
  read_frame maximum (be_put 4 (len packet) ++ packet ++ rest) = Ok (packet, rest).
Proof.
  intros Hl Hm. unfold read_frame. rewrite read_full_app by apply be_put_length. cbn [result_bind].
  rewrite be_get_put. change (8 * Z.of_nat 4) with 32. rewrite Z.mod_small by lia.
  replace (len packet <? 1) with false by lia. replace (maximum <? len packet) with false by lia. cbn [orb].
  apply read_full_app. unfold len. lia.
Qed.

(** A conversation: frames written one after the other until an error. *)
Fixpoint write_all (maximum : Z) (script : list write_answer) (packets : list bytes) : written :=
  match packets with
  | [] => Some (Ok tt, [], script)
  | p :: r =>
    match write_frame maximum script p with
    | Some (Ok _, out, script') =>
      match write_all maximum script' r with
      | Some (res, out', script'') => Some (res, out ++ out', script'')
      | None => None
      end
    | other => other
    end
  end.

Fixpoint read_all (n : nat) (maximum : Z) (inp : bytes) : result frame_error (list bytes * bytes) :=
  match n with
  | O => Ok ([], inp)
  | S n =>
    let* '(p, rest) := read_frame maximum inp in
    let* '(ps, rest) := read_all n maximum rest in
    Ok (p :: ps, rest)
  end.

Lemma write_frame_ok maximum script packet out script' :
  write_frame maximum script packet = Some (Ok tt, out, script') ->
  0 < len packet <= maximum /\ out = be_put 4 (len packet) ++ packet.
Proof.
  unfold write_frame. destruct (Z.eqb_spec (len packet) 0); [done|]. destruct (Z.ltb_spec maximum (len packet)); [done|].
  cbn [orb]. intros E. apply write_parts_spec in E as (tail & Ht & Hr). rewrite (Hr eq_refl), app_nil_r in Ht.
  pose proof (len_nonneg packet). split; [lia|done].
Qed.

Lemma readResult_written e rest : readResult (responseMagic ++ [1; match e with None => 0 | Some _ => 1 end; 0] ++
    be_put 2 (len (take maxErrorBytes (default [] e))) ++ take maxErrorBytes (default [] e) ++ rest) =
  match e with None => Ok rest | Some m => Err (FrameDenied (TrimSpace (take maxErrorBytes m))) end.
Proof.
  set (payload := take maxErrorBytes (default [] e)). set (status := match e with None => 0 | Some _ => 1 end).
  assert (0 <= len payload <= 4096) as Hp.
  { unfold payload. rewrite len_take. pose proof (len_nonneg (default [] e)). unfold maxErrorBytes. lia. }
  unfold readResult. rewrite (app_assoc _ (be_put 2 _)), (app_assoc responseMagic).
  rewrite read_full_app by (rewrite !length_app, be_put_length; done). cbn [result_bind].
  change (slice (responseMagic ++ [1; status; 0] ++ be_put 2 (len payload)) 7 9) with (be_put 2 (len payload)).
  change (slice (responseMagic ++ [1; status; 0] ++ be_put 2 (len payload)) 0 4) with responseMagic.
  rewrite bool_decide_true by done. cbn [negb orb responseMagic app nth].
  rewrite be_get_put. change (8 * Z.of_nat 2) with 16. rewrite Z.mod_small by lia.
  change (Z.of_nat maxErrorBytes) with 4096. replace (4096 <? len payload) with false by lia.
  rewrite read_full_app by (unfold len; lia). cbn [result_bind]. unfold status, payload. by destruct e.
Qed.

Lemma broker_limit : Z.of_nat broker_maxRequestBytes = 65536.
Proof. unfold broker_maxRequestBytes. rewrite Z2Nat.id; lia. Qed.

Lemma broker_response_written e rest : broker_readResponse (match e with None => 0 | Some _ => 1 end ::
    be_put 4 (len (take broker_maxRequestBytes (default [] e))) ++ take broker_maxRequestBytes (default [] e) ++ rest) =
  match e with None => Ok rest | Some m => Err (FrameDenied (take broker_maxRequestBytes m)) end.
Proof.
  set (payload := take broker_maxRequestBytes (default [] e)). set (status := match e with None => 0 | Some _ => 1 end).
  assert (0 <= len payload <= 65536) as Hp.
  { unfold payload. rewrite len_take. pose proof (len_nonneg (default [] e)). rewrite broker_limit. lia. }
  unfold broker_readResponse. rewrite app_comm_cons.
  rewrite read_full_app by (cbn [length]; by rewrite be_put_length). cbn [result_bind].
  change (drop 1 (status :: be_put 4 (len payload))) with (be_put 4 (len payload)).
  rewrite be_get_put. change (8 * Z.of_nat 4) with 32. rewrite Z.mod_small by lia.
  rewrite broker_limit. replace (65536 <? len payload) with false by lia.
  rewrite read_full_app by (unfold len; lia). cbn [result_bind nth]. unfold status, payload. by destruct e.
Qed.

(** Framing is lossless on every session protocol: messages whose writes
    were reported successful, however the connection split them, are read
    back as the same messages in the same order, with what follows them left
    unread; a status reply reaches the other end as success exactly when it
    was one, and as the (bounded, trimmed) error text otherwise. *)
Theorem framing_lossless (maximum : Z) (packets : list bytes) (script script' : list write_answer) (out rest : bytes) :
  maximum < 2 ^ 32 ->
  (write_all maximum script packets = Some (Ok tt, out, script') ->
   read_all (length packets) maximum (out ++ rest) = Ok (packets, rest)) /\
  (forall e, writeResult script e = Some (Ok tt, out, script') ->
   readResult (out ++ rest) =
     match e with None => Ok rest | Some m => Err (FrameDenied (TrimSpace (take maxErrorBytes m))) end) /\
  (forall e, broker_writeResponse script e = Some (Ok tt, out, script') ->
   broker_readResponse (out ++ rest) =
     match e with None => Ok rest | Some m => Err (FrameDenied (take broker_maxRequestBytes m)) end).
Proof.
  intros Hm. split_and!.
  - revert script out. induction packets as [|p r IH]; intros script out; cbn [write_all read_all length].
    + by intros [= <- _].
    + destruct (write_frame maximum script p) as [[[[[]|] o1] s1]|] eqn:E1; try done.
      destruct (write_all maximum s1 r) as [[[res o2] s2]|] eqn:E2; [|done]. intros [= -> <- <-].
      apply write_frame_ok in E1 as [Hp ->]. rewrite <- !app_assoc, read_frame_written by done. cbn [result_bind].
      by rewrite (IH s1 o2 E2).
  - intros e E. apply write_parts_spec in E as (tail & Ht & Hr). rewrite (Hr eq_refl), app_nil_r in Ht. subst out.
    rewrite <- !app_assoc. apply readResult_written.
  - intros e E. apply write_parts_spec in E as (tail & Ht & Hr). rewrite (Hr eq_refl), app_nil_r in Ht. subst out.
    rewrite <- app_assoc, <- app_comm_cons. apply broker_response_written.
Qed.

Lemma framing_lossless_witness :
  read_all 2 udp_maxFrameBytes ([0; 0; 0; 1; 5; 0; 0; 0; 2; 6; 7] ++ [9]) = Ok ([[5]; [6; 7]], [9]).
Proof.
  exact (proj1 (framing_lossless udp_maxFrameBytes [[5]; [6; 7]] [Wrote 3; Wrote 1; Wrote 1; Wrote 4; Wrote 1; Wrote 1] []
    [0; 0; 0; 1; 5; 0; 0; 0; 2; 6; 7] [9] eq_refl) eq_refl).
Defined.

End Framing.
