(* ===== verification/MapReduce.v ===== *)
(** * Map/reduce jobs: requests, policy and registry (mapreduce/types.go,
    policy.go, registry.go, rule_json.go)

    Requests and their limits, grouping, the policy that admits a request and
    bounds its resources, and the registry of plugins with their hooks.  A plugin
    is a function of its input; the context it is passed is in the worker pool. *)

From S2P Require Import Prelude GoStrings Sha256 GoEncoding AuthProof.

Module MapReduce.
Import GoStrings Sha256 GoEncoding AuthProof.

Definition ProtocolVersion : bytes := str "weaverssh.mapreduce.v1".
Definition OpenProtocolVersion : bytes := str "weaverssh.mapreduce-open.v1".
Definition PolicyVersion : bytes := str "weaverssh.mapreduce-policy.v1".
Definition MaxMessageBytes : Z := Z.shiftl 16 20.
Definition MaxRecords : Z := 4096.
Definition MaxGroups : Z := 4096.
Definition MaxValuesPerGroup : Z := 4096.
Definition MaxRecordKeyBytes : Z := 1024.
Definition MaxRecordValueBytes : Z := Z.shiftl 1 20.
Definition MaxLabels : Z := 32.
Definition MaxLabelKeyBytes : Z := 64.
Definition MaxLabelValueBytes : Z := 1024.
Definition MaxPluginNameBytes : Z := 128.
Definition MaxJobIDBytes : Z := 128.
Definition MaxErrorBytes : Z := 4096.

Definition OperationDescribe : bytes := str "describe".
Definition OperationMap : bytes := str "map".
Definition OperationReduce : bytes := str "reduce".
Definition OperationRun : bytes := str "run".

(** [Operation.Valid]. *)
Definition operation_Valid (o : bytes) : bool := existsb (str_eqb o) [OperationDescribe; OperationMap; OperationReduce; OperationRun].

Inductive mr_error : Type :=
| ErrInvalidRequest
| ErrDenied
| ErrPluginNotFound
| ErrMapUnavailable
| ErrReduceUnavailable
| ErrLimitExceeded
| ErrTopology
| ErrMetadata
| ErrPolicy
| ErrRegistry
| ErrWire
| ErrDeadlineExceeded
| ErrCanceled
| ErrPlugin (code : Z).
#[export] Instance mr_error_eq_dec : EqDecision mr_error.
Proof. solve_decision. Defined.

(** ** Data *)

Record Rec := mkRec { r_Key : bytes; r_Value : bytes }.
Record Group := mkGroup { g_Key : bytes; g_Values : list bytes }.
Definition labels := gmap bytes bytes.

Record Request := mkRequest {
  q_Protocol : bytes;
  q_ID : bytes;
  q_Operation : bytes;
  q_Plugin : bytes;
  q_Records : list Rec;
  q_Groups : list Group;
  q_Labels : labels;
  q_Parallel : Z;
  q_TimeoutMillis : Z;
  q_Fanout : Z
}.

Record Limits := mkLimits {
  MaxItems : Z;
  MaxInputBytes : Z;
  MaxOutputRecords : Z;
  MaxOutputBytes : Z;
  MaxParallel : Z;
  MaxFanout : Z;
  MaxDurationMillis : Z;
  MaxValuesPerKey : Z
}.
Definition HardLimits : Limits := mkLimits MaxRecords MaxMessageBytes MaxRecords MaxMessageBytes 64 64 600000 MaxValuesPerGroup.
Definition no_limits : Limits := mkLimits 0 0 0 0 0 0 0 0.

Record DecisionSummary := mkDecision {
  d_Allowed : bool;
  d_RuleNames : list bytes;
  d_Limits : Limits;
  d_PolicySHA256 : bytes
}.

Record PluginDescription := mkPluginDescription {
  pd_Name : bytes;
  pd_Version : bytes;
  pd_HasMap : bool;
  pd_HasReduce : bool;
  pd_MapHooks : Z;
  pd_ReduceHooks : Z
}.

Record Invocation := mkInvocation {
  i_SourceNode : bytes;
  i_TargetNode : bytes;
  i_SourceRole : bytes;
  i_Operation : bytes;
  i_Plugin : bytes;
  i_Labels : labels;
  i_Items : Z;
  i_InputBytes : Z;
  i_Parallel : Z;
  i_TimeoutMillis : Z;
  i_Fanout : Z
}.

(** ** Names *)

Definition alnum (c : Z) : bool := ((48 <=? c) && (c <=? 57)) || ((65 <=? c) && (c <=? 90)) || ((97 <=? c) && (c <=? 122)).
(** The pattern [^[A-Za-z0-9][A-Za-z0-9._-]{0,127}$]. *)
Definition name_pattern (value : bytes) : bool :=
  match value with
  | [] => false
  | c :: rest => alnum c && forallb (fun c => alnum c || (c =? 46) || (c =? 95) || (c =? 45)) rest && (len rest <=? 127)
  end.
Definition validName (value : bytes) : bool := (len value <=? MaxPluginNameBytes) && name_pattern value.

Definition has_nul (value : bytes) : bool := existsb (Z.eqb 0) value.

Definition validNodeName (value : bytes) : bool :=
  let value := TrimSpace value in
  if str_eqb value [] || (256 <? len value) || has_nul value then false else forallb (fun r => negb ((r <? 32) || (r =? 127))) (runes value).

(** ** Validation *)

Definition validateRecord (r : Rec) : option mr_error :=
  if (MaxRecordKeyBytes <? len (r_Key r)) || has_nul (r_Key r) || (MaxRecordValueBytes <? len (r_Value r)) then Some ErrInvalidRequest else None.

Definition validateGroup (g : Group) : option mr_error :=
  if (MaxRecordKeyBytes <? len (g_Key g)) || has_nul (g_Key g) || (len (g_Values g) =? 0) || (MaxValuesPerGroup <? len (g_Values g)) then Some ErrInvalidRequest else
  if existsb (fun v => MaxRecordValueBytes <? len v) (g_Values g) then Some ErrInvalidRequest else None.

Definition validateLabels (l : labels) : option mr_error :=
  if MaxLabels <? Z.of_nat (size l) then Some ErrInvalidRequest else
  if existsb (fun kv => str_eqb kv.1 [] || negb (str_eqb kv.1 (TrimSpace kv.1)) || (MaxLabelKeyBytes <? len kv.1) || (MaxLabelValueBytes <? len kv.2)
                        || has_nul kv.1 || has_nul kv.2) (map_to_list l) then Some ErrInvalidRequest else None.

(** The first error of a loop that validates. *)
Fixpoint first_error {A} (check : A -> option mr_error) (l : list A) : option mr_error :=
  match l with
  | [] => None
  | x :: rest => match check x with Some e => Some e | None => first_error check rest end
  end.

Definition validate_items (q : Request) : option mr_error :=
  if str_eqb (q_Operation q) OperationDescribe then
    (if negb (str_eqb (q_Plugin q) []) || negb (len (q_Records q) =? 0) || negb (len (q_Groups q) =? 0) then Some ErrInvalidRequest else None)
  else if str_eqb (q_Operation q) OperationMap || str_eqb (q_Operation q) OperationRun then
    (if (len (q_Records q) =? 0) || (MaxRecords <? len (q_Records q)) || negb (len (q_Groups q) =? 0) then Some ErrInvalidRequest else first_error validateRecord (q_Records q))
  else
    (if (len (q_Groups q) =? 0) || (MaxGroups <? len (q_Groups q)) || negb (len (q_Records q) =? 0) then Some ErrInvalidRequest else first_error validateGroup (q_Groups q)).

Definition NormalizeRequest (raw : Request) : result mr_error Request :=
  let out := mkRequest (if str_eqb (q_Protocol raw) [] then ProtocolVersion else q_Protocol raw) (TrimSpace (q_ID raw)) (q_Operation raw) (TrimSpace (q_Plugin raw))
    (q_Records raw) (q_Groups raw) (q_Labels raw) (q_Parallel raw) (q_TimeoutMillis raw) (q_Fanout raw) in
  if negb (str_eqb (q_Protocol out) ProtocolVersion) || negb (operation_Valid (q_Operation out)) || str_eqb (q_ID out) [] || (MaxJobIDBytes <? len (q_ID out)) then Err ErrInvalidRequest else
  if negb (str_eqb (q_Operation out) OperationDescribe) && negb (validName (q_Plugin out)) then Err ErrInvalidRequest else
  if (q_Parallel out <? 0) || (q_TimeoutMillis out <? 0) || (q_Fanout out <? 0) then Err ErrInvalidRequest else
  match validateLabels (q_Labels out) with
  | Some e => Err e
  | None => match validate_items out with Some e => Err e | None => Ok out end
  end.

(** ** Metrics *)

Definition record_bytes (r : Rec) : Z := len (r_Key r) + len (r_Value r).
Definition group_bytes (g : Group) : Z := len (g_Key g) + foldr Z.add 0 (len <$> g_Values g).

Definition InputMetrics (q : Request) : Z * Z :=
  if str_eqb (q_Operation q) OperationMap || str_eqb (q_Operation q) OperationRun then (len (q_Records q), foldr Z.add 0 (record_bytes <$> q_Records q))
  else if str_eqb (q_Operation q) OperationReduce then (len (q_Groups q), foldr Z.add 0 (group_bytes <$> q_Groups q))
  else (0, 0).

Definition OutputMetrics (records : list Rec) : Z * Z := (len records, foldr Z.add 0 (record_bytes <$> records)).

(** ** Grouping *)

Fixpoint group_loop (maxValues : Z) (grouped : gmap bytes (list bytes)) (records : list Rec) : result mr_error (gmap bytes (list bytes)) :=
  match records with
  | [] => Ok grouped
  | r :: rest =>
    let values := default [] (grouped !! r_Key r) in
    if maxValues <=? len values then Err ErrLimitExceeded else group_loop maxValues (<[r_Key r := values ++ [r_Value r]]> grouped) rest
  end.

Definition GroupRecords (records : list Rec) (maxValues : Z) : result mr_error (list Group) :=
  let maxValues := if maxValues <=? 0 then MaxValuesPerGroup else maxValues in
  let* grouped := group_loop maxValues ∅ records in
  Ok ((fun key => mkGroup key (default [] (grouped !! key))) <$> sort_by str_ltb (map_to_list grouped).*1).

(** ** Policy *)

Definition EffectAllow : bytes := str "allow".
Definition EffectDeny : bytes := str "deny".

Record Rule := mkRule {
  u_Name : bytes;
  u_Effect : bytes;
  u_SourceNodes : list bytes;
  u_SourceRoles : list bytes;
  u_TargetNodes : list bytes;
  u_Plugins : list bytes;
  u_Operations : list bytes;
  u_RequiredLabels : labels;
  u_Limits : Limits
}.

Record Policy := mkPolicy {
  p_Version : bytes;
  p_Default : bytes;
  p_Rules : list Rule;
  p_digest : bytes
}.

Definition star : bytes := str "*".

(** The loop of [normalizeNodePatterns] and [normalizePluginPatterns]. *)
Fixpoint pattern_loop (valid : bytes -> bool) (seen : list bytes) (raw : list bytes) : result mr_error (list bytes) :=
  match raw with
  | [] => Ok []
  | value :: rest =>
    let value := TrimSpace value in
    if str_eqb value [] then pattern_loop valid seen rest else
    if negb (str_eqb value star) && negb (valid value) then Err ErrPolicy else
    if existsb (str_eqb value) seen then pattern_loop valid seen rest
    else let* out := pattern_loop valid (value :: seen) rest in Ok (value :: out)
  end.

Definition normalizeNodePatterns (raw : list bytes) : result mr_error (list bytes) := let* out := pattern_loop validNodeName [] raw in Ok (sort_by str_ltb out).
Definition normalizePluginPatterns (raw : list bytes) : result mr_error (list bytes) := let* out := pattern_loop validName [] raw in Ok (sort_by str_ltb out).

Definition role_names : list bytes := [str "origin"; str "intermediate"; str "endpoint"; str "single"].

Fixpoint operation_loop (seen : list bytes) (raw : list bytes) : result mr_error (list bytes) :=
  match raw with
  | [] => Ok []
  | o :: rest =>
    if negb (operation_Valid o) then Err ErrPolicy else
    if existsb (str_eqb o) seen then operation_loop seen rest else let* out := operation_loop (o :: seen) rest in Ok (o :: out)
  end.

Definition positive_or (value hard : Z) : Z := if value <=? 0 then hard else value.

Definition normalizeRuleLimits (raw : Limits) : Limits :=
  let hard := HardLimits in
  mkLimits (positive_or (MaxItems raw) (MaxItems hard)) (positive_or (MaxInputBytes raw) (MaxInputBytes hard)) (positive_or (MaxOutputRecords raw) (MaxOutputRecords hard))
    (positive_or (MaxOutputBytes raw) (MaxOutputBytes hard)) (positive_or (MaxParallel raw) (MaxParallel hard)) (positive_or (MaxFanout raw) (MaxFanout hard))
    (positive_or (MaxDurationMillis raw) (MaxDurationMillis hard)) (positive_or (MaxValuesPerKey raw) (MaxValuesPerKey hard)).

Definition within (value hard : Z) : bool := negb ((value <=? 0) || (hard <? value)).
Definition validateLimits (l : Limits) : bool :=
  let hard := HardLimits in
  within (MaxItems l) (MaxItems hard) && within (MaxInputBytes l) (MaxInputBytes hard) && within (MaxOutputRecords l) (MaxOutputRecords hard)
  && within (MaxOutputBytes l) (MaxOutputBytes hard) && within (MaxParallel l) (MaxParallel hard) && within (MaxFanout l) (MaxFanout hard)
  && within (MaxDurationMillis l) (MaxDurationMillis hard) && within (MaxValuesPerKey l) (MaxValuesPerKey hard).

Definition minLimits (a b : Limits) : Limits :=
  mkLimits (Z.min (MaxItems a) (MaxItems b)) (Z.min (MaxInputBytes a) (MaxInputBytes b)) (Z.min (MaxOutputRecords a) (MaxOutputRecords b))
    (Z.min (MaxOutputBytes a) (MaxOutputBytes b)) (Z.min (MaxParallel a) (MaxParallel b)) (Z.min (MaxFanout a) (MaxFanout b))
    (Z.min (MaxDurationMillis a) (MaxDurationMillis b)) (Z.min (MaxValuesPerKey a) (MaxValuesPerKey b)).

Definition checkInvocationLimits (inv : Invocation) (l : Limits) : option mr_error :=
  if MaxItems l <? i_Items inv then Some ErrLimitExceeded else
  if MaxInputBytes l <? i_InputBytes inv then Some ErrLimitExceeded else
  if MaxParallel l <? i_Parallel inv then Some ErrLimitExceeded else
  if MaxFanout l <? i_Fanout inv then Some ErrLimitExceeded else
  if MaxDurationMillis l <? i_TimeoutMillis inv then Some ErrLimitExceeded else None.

Definition matchPattern (patterns : list bytes) (value : bytes) : bool := existsb (fun p => str_eqb p star || str_eqb p value) patterns.

(** An absent label reads as the empty string. *)
Definition ruleMatches (rule : Rule) (inv : Invocation) : bool :=
  if negb (matchPattern (u_SourceNodes rule) (i_SourceNode inv)) || negb (matchPattern (u_TargetNodes rule) (i_TargetNode inv))
     || negb (matchPattern (u_Plugins rule) (i_Plugin inv)) then false else
  if (0 <? len (u_SourceRoles rule)) && negb (existsb (str_eqb (i_SourceRole inv)) (u_SourceRoles rule)) then false else
  if negb (existsb (str_eqb (i_Operation inv)) (u_Operations rule)) then false else
  forallb (fun kv => str_eqb (default [] (i_Labels inv !! kv.1)) kv.2) (map_to_list (u_RequiredLabels rule)).

Section Unicode.
Context `{UnicodeTables}.

Fixpoint role_loop (seen : list bytes) (raw : list bytes) : list bytes :=
  match raw with
  | [] => []
  | role :: rest =>
    let role := ToLower (TrimSpace role) in
    if existsb (str_eqb role) role_names && negb (existsb (str_eqb role) seen) then role :: role_loop (role :: seen) rest else role_loop seen rest
  end.
Definition normalizeRoles (raw : list bytes) : list bytes := sort_by str_ltb (role_loop [] raw).

Definition normalizeRule (raw : Rule) : result mr_error Rule :=
  let name := TrimSpace (u_Name raw) in
  if negb (validName name) then Err ErrPolicy else
  if negb (str_eqb (u_Effect raw) EffectAllow) && negb (str_eqb (u_Effect raw) EffectDeny) then Err ErrPolicy else
  let* sources := normalizeNodePatterns (u_SourceNodes raw) in
  let* targets := normalizeNodePatterns (u_TargetNodes raw) in
  let* plugins := normalizePluginPatterns (u_Plugins raw) in
  if (len sources =? 0) || (len targets =? 0) || (len plugins =? 0) then Err ErrPolicy else
  let roles := normalizeRoles (u_SourceRoles raw) in
  if (0 <? len (u_SourceRoles raw)) && (len roles =? 0) then Err ErrPolicy else
  if len (u_Operations raw) =? 0 then Err ErrPolicy else
  let* operations := operation_loop [] (u_Operations raw) in
  match validateLabels (u_RequiredLabels raw) with
  | Some e => Err e
  | None =>
    let* limits := if str_eqb (u_Effect raw) EffectAllow then
        let normalized := normalizeRuleLimits (u_Limits raw) in if negb (validateLimits normalized) then Err ErrPolicy else Ok normalized
      else Ok no_limits in
    Ok (mkRule name (u_Effect raw) sources roles targets plugins (sort_by str_ltb operations) (u_RequiredLabels raw) limits)
  end.

Fixpoint rules_loop (seen : list bytes) (rules : list Rule) : result mr_error (list Rule) :=
  match rules with
  | [] => Ok []
  | raw :: rest =>
    let* rule := normalizeRule raw in
    if existsb (str_eqb (u_Name rule)) seen then Err ErrPolicy else
    let* out := rules_loop (u_Name rule :: seen) rest in Ok (rule :: out)
  end.

Definition normalizePolicy (raw : Policy) : result mr_error Policy :=
  let version := if str_eqb (p_Version raw) [] then PolicyVersion else p_Version raw in
  if negb (str_eqb version PolicyVersion) then Err ErrPolicy else
  let default := if str_eqb (p_Default raw) [] then EffectDeny else p_Default raw in
  if negb (str_eqb default EffectDeny) then Err ErrPolicy else
  if (len (p_Rules raw) =? 0) || (256 <? len (p_Rules raw)) then Err ErrPolicy else
  let* rules := rules_loop [] (p_Rules raw) in Ok (mkPolicy version default rules (p_digest raw)).

End Unicode.

(** [Rule.UnmarshalJSON] after decoding: an unknown role is refused, so that it cannot vanish into "all roles". *)
Definition rule_roles_valid (rule : Rule) : bool := forallb (fun role => existsb (str_eqb (TrimSpace role)) role_names) (u_SourceRoles rule).

(** [json.Marshal]; roles and labels have [omitempty]. *)
Definition marshal_limits (l : Limits) : bytes :=
  [123] ++ json_field "max_items" (json_int (MaxItems l)) ++ [44] ++ json_field "max_input_bytes" (json_int (MaxInputBytes l)) ++
  [44] ++ json_field "max_output_records" (json_int (MaxOutputRecords l)) ++ [44] ++ json_field "max_output_bytes" (json_int (MaxOutputBytes l)) ++
  [44] ++ json_field "max_parallel" (json_int (MaxParallel l)) ++ [44] ++ json_field "max_fanout" (json_int (MaxFanout l)) ++
  [44] ++ json_field "max_duration_millis" (json_int (MaxDurationMillis l)) ++ [44] ++ json_field "max_values_per_key" (json_int (MaxValuesPerKey l)) ++ [125].

Definition marshal_rule (u : Rule) : bytes :=
  [123] ++ json_field "name" (json_string (u_Name u)) ++ [44] ++ json_field "effect" (json_string (u_Effect u)) ++
  [44] ++ json_field "source_nodes" (json_strings (u_SourceNodes u)) ++
  (match u_SourceRoles u with [] => [] | roles => [44] ++ json_field "source_roles" (json_strings roles) end) ++
  [44] ++ json_field "target_nodes" (json_strings (u_TargetNodes u)) ++ [44] ++ json_field "plugins" (json_strings (u_Plugins u)) ++
  [44] ++ json_field "operations" (json_strings (u_Operations u)) ++
  (if decide (u_RequiredLabels u = ∅) then [] else [44] ++ json_field "required_labels" (json_string_map (u_RequiredLabels u))) ++
  [44] ++ json_field "limits" (marshal_limits (u_Limits u)) ++ [125].

Definition marshal_policy (p : Policy) : bytes :=
  [123] ++ json_field "version" (json_string (p_Version p)) ++ [44] ++ json_field "default" (json_string (p_Default p)) ++
  [44] ++ json_field "rules" ([91] ++ json_list (marshal_rule <$> p_Rules p) ++ [93]) ++ [125].

Definition NewPolicy `{UnicodeTables} (raw : Policy) : result mr_error Policy :=
  let* n := normalizePolicy raw in Ok (mkPolicy (p_Version n) (p_Default n) (p_Rules n) (sha256_hex (marshal_policy n))).

(** The loop of [Evaluate]: the first matching deny rule, or the matching allow rules in order. *)
Fixpoint match_loop (inv : Invocation) (rules : list Rule) : Rule + list Rule :=
  match rules with
  | [] => inr []
  | rule :: rest =>
    if negb (ruleMatches rule inv) then match_loop inv rest else
    if str_eqb (u_Effect rule) EffectDeny then inl rule else
    match match_loop inv rest with inl deny => inl deny | inr allow => inr (rule :: allow) end
  end.

Definition trim_invocation (inv : Invocation) : Invocation :=
  mkInvocation (TrimSpace (i_SourceNode inv)) (TrimSpace (i_TargetNode inv)) (TrimSpace (i_SourceRole inv)) (i_Operation inv) (TrimSpace (i_Plugin inv)) (i_Labels inv)
    (i_Items inv) (i_InputBytes inv) (i_Parallel inv) (i_TimeoutMillis inv) (i_Fanout inv).

Definition no_decision : DecisionSummary := mkDecision false [] no_limits [].

(** [Policy.Evaluate]; [None] is the nil policy. *)
Definition Evaluate (p : option Policy) (inv : Invocation) : DecisionSummary * option mr_error :=
  match p with
  | None => (no_decision, Some ErrDenied)
  | Some p =>
    let inv := trim_invocation inv in
    if negb (validNodeName (i_SourceNode inv)) || negb (validNodeName (i_TargetNode inv)) || negb (operation_Valid (i_Operation inv)) || negb (validName (i_Plugin inv))
    then (no_decision, Some ErrInvalidRequest) else
    match validateLabels (i_Labels inv) with
    | Some e => (no_decision, Some e)
    | None =>
      if (i_Items inv <? 0) || (i_InputBytes inv <? 0) || (i_Parallel inv <? 0) || (i_TimeoutMillis inv <? 0) || (i_Fanout inv <? 0) then (no_decision, Some ErrInvalidRequest) else
      match match_loop inv (p_Rules p) with
      | inl deny => (mkDecision false [u_Name deny] no_limits (p_digest p), Some ErrDenied)
      | inr [] => (mkDecision false [] no_limits (p_digest p), Some ErrDenied)
      | inr allow =>
        let effective := fold_left (fun acc rule => minLimits acc (normalizeRuleLimits (u_Limits rule))) allow HardLimits in
        match checkInvocationLimits inv effective with
        | Some e => (mkDecision false (u_Name <$> allow) effective (p_digest p), Some e)
        | None => (mkDecision true (u_Name <$> allow) effective (p_digest p), None)
        end
      end
    end
  end.

(** ** The registry *)

Definition maxPlugins : Z := 128.
Definition maxStageHooks : Z := 256.

Record Descriptor := mkDescriptor { ds_Name : bytes; ds_Version : bytes; ds_Description : bytes }.
Record MapInput := mkMapInput { mi_JobID : bytes; mi_SourceNode : bytes; mi_TargetNode : bytes; mi_Labels : labels; mi_Record : Rec }.
Record ReduceInput := mkReduceInput { ri_JobID : bytes; ri_SourceNode : bytes; ri_TargetNode : bytes; ri_Labels : labels; ri_Group : Group }.

(** A stage from [I] to [O], and a hook around it. *)
Definition stage (I O : Type) := I -> result mr_error O.
Definition hook (I O : Type) := I -> stage I O -> result mr_error O.
Definition MapFunc := stage MapInput (list Rec).
Definition ReduceFunc := stage ReduceInput Rec.

Record hookEntry (H : Type) := mkHookEntry { h_priority : Z; h_order : Z; h_hook : H }.
Arguments mkHookEntry {H}. Arguments h_priority {H}. Arguments h_order {H}. Arguments h_hook {H}.

Record Plugin := mkPlugin { pl_Descriptor : Descriptor; pl_Map : option MapFunc; pl_Reduce : option ReduceFunc }.
Record pluginEntry := mkEntry {
  pe_plugin : Plugin;
  pe_mapHooks : list (hookEntry (hook MapInput (list Rec)));
  pe_reduceHooks : list (hookEntry (hook ReduceInput Rec))
}.
Record Registry := mkRegistry { rg_plugins : gmap bytes pluginEntry; rg_nextOrder : Z }.

Definition NewRegistry : Registry := mkRegistry ∅ 0.
Definition Empty (r : Registry) : bool := Z.of_nat (size (rg_plugins r)) =? 0.

Definition normalizePlugin (raw : Plugin) : result mr_error Plugin :=
  let d := mkDescriptor (TrimSpace (ds_Name (pl_Descriptor raw))) (TrimSpace (ds_Version (pl_Descriptor raw))) (TrimSpace (ds_Description (pl_Descriptor raw))) in
  if negb (validName (ds_Name d)) || str_eqb (ds_Version d) [] || (64 <? len (ds_Version d)) || (1024 <? len (ds_Description d)) then Err ErrRegistry else
  match pl_Map raw, pl_Reduce raw with
  | None, None => Err ErrRegistry
  | _, _ => Ok (mkPlugin d (pl_Map raw) (pl_Reduce raw))
  end.

Definition RegisterPlugin (r : Registry) (plugin : Plugin) : result mr_error Registry :=
  let* n := normalizePlugin plugin in
  if maxPlugins <=? Z.of_nat (size (rg_plugins r)) then Err ErrRegistry else
  match rg_plugins r !! ds_Name (pl_Descriptor n) with
  | Some _ => Err ErrRegistry
  | None => Ok (mkRegistry (<[ds_Name (pl_Descriptor n) := mkEntry n [] []]> (rg_plugins r)) (rg_nextOrder r))
  end.

Definition hook_less {H} (a b : hookEntry H) : bool :=
  if negb (h_priority a =? h_priority b) then h_priority a <? h_priority b else h_order a <? h_order b.

Definition RegisterMapHook (r : Registry) (plugin : bytes) (priority : Z) (h : hook MapInput (list Rec)) : result mr_error Registry :=
  let plugin := TrimSpace plugin in
  match rg_plugins r !! plugin with
  | None => Err ErrPluginNotFound
  | Some entry =>
    if maxStageHooks <=? len (pe_mapHooks entry) then Err ErrRegistry else
    let order := u64 (rg_nextOrder r + 1) in
    Ok (mkRegistry (<[plugin := mkEntry (pe_plugin entry) (sort_by hook_less (pe_mapHooks entry ++ [mkHookEntry priority order h])) (pe_reduceHooks entry)]> (rg_plugins r)) order)
  end.

Definition RegisterReduceHook (r : Registry) (plugin : bytes) (priority : Z) (h : hook ReduceInput Rec) : result mr_error Registry :=
  let plugin := TrimSpace plugin in
  match rg_plugins r !! plugin with
  | None => Err ErrPluginNotFound
  | Some entry =>
    if maxStageHooks <=? len (pe_reduceHooks entry) then Err ErrRegistry else
    let order := u64 (rg_nextOrder r + 1) in
    Ok (mkRegistry (<[plugin := mkEntry (pe_plugin entry) (pe_mapHooks entry) (sort_by hook_less (pe_reduceHooks entry ++ [mkHookEntry priority order h]))]> (rg_plugins r)) order)
  end.

Definition describe_entry (entry : pluginEntry) : PluginDescription :=
  let d := pl_Descriptor (pe_plugin entry) in
  mkPluginDescription (ds_Name d) (ds_Version d) (bool_decide (is_Some (pl_Map (pe_plugin entry))) || (0 <? len (pe_mapHooks entry)))
    (bool_decide (is_Some (pl_Reduce (pe_plugin entry))) || (0 <? len (pe_reduceHooks entry))) (len (pe_mapHooks entry)) (len (pe_reduceHooks entry)).
Definition Descriptions (r : Registry) : list PluginDescription :=
  omap (fun name => describe_entry <$> rg_plugins r !! name) (sort_by str_ltb (map_to_list (rg_plugins r)).*1).

(** The loop that wraps the base in the hooks, last to first. *)
Definition wrap {I O} (base : stage I O) (hooks : list (hookEntry (hook I O))) : stage I O :=
  fold_left (fun next entry input => h_hook entry input next) (rev hooks) base.

Definition Registry_Map (r : Registry) (plugin : bytes) (input : MapInput) : result mr_error (list Rec) :=
  match rg_plugins r !! TrimSpace plugin with
  | None => Err ErrPluginNotFound
  | Some entry => wrap (default (fun _ => Err ErrMapUnavailable) (pl_Map (pe_plugin entry))) (pe_mapHooks entry) input
  end.

Definition Registry_Reduce (r : Registry) (plugin : bytes) (input : ReduceInput) : result mr_error Rec :=
  match rg_plugins r !! TrimSpace plugin with
  | None => Err ErrPluginNotFound
  | Some entry => wrap (default (fun _ => Err ErrReduceUnavailable) (pl_Reduce (pe_plugin entry))) (pe_reduceHooks entry) input
  end.

End MapReduce.
