(* ===== verification/WorkerPool.v ===== *)
(** * The worker pool of a map or reduce stage (mapreduce/engine.go, the
    goroutines of executeMap and executeReduce; mapreduce/coordinator.go, the
    goroutines of Run)

    A sender hands indices to workers over an unbuffered channel; the first error
    is kept under a mutex and cancels the others.  Goroutines as a step relation,
    one step per synchronisation, and what every interleaving has in common. *)

From S2P Require Import Prelude.

Module WorkerPool.

(** A worker waits for an index, has received one, is in the plugin's call with
    it, has recorded the first error and is about to cancel, or has returned. *)
Inductive worker : Type :=
| Waiting
| Received (i : nat)
| Calling (i : nat)
| Cancelling
| Returned.
#[export] Instance worker_eq_dec : EqDecision worker.
Proof. solve_decision. Defined.

Record pool (E B : Type) := mkPool {
  po_next : nat;
  po_closed : bool;
  po_workers : list worker;
  po_results : list B;
  po_firstErr : option E;
  po_cancelled : bool;
  po_parent : bool
}.
Arguments mkPool {E B}. Arguments po_next {E B}. Arguments po_closed {E B}. Arguments po_workers {E B}. Arguments po_results {E B}.
Arguments po_firstErr {E B}. Arguments po_cancelled {E B}. Arguments po_parent {E B}.

Section Pool.
Context {E B : Type}.

(** The number of items, what a call returns, what it may return instead once its
    context is done, the zero value and the context's error. *)
Context (n : nat) (work : nat -> result E B) (interrupted : nat -> result E B -> Prop) (zero : B) (ctxErr : E).

Definition pool_start (parallel : nat) : pool E B := mkPool 0 false (replicate parallel Waiting) (replicate n zero) None false false.
(** The coordinator starts one goroutine per item at its call. *)
Definition fan_start : pool E B := mkPool n true (Calling <$> seq 0 n) (replicate n zero) None false false.

(** What a call may return in the state [s]. *)
Definition returns (s : pool E B) (i : nat) (r : result E B) : Prop := r = work i \/ (po_cancelled s = true /\ interrupted i r).

Definition set_workers (s : pool E B) (w : list worker) : pool E B := mkPool (po_next s) (po_closed s) w (po_results s) (po_firstErr s) (po_cancelled s) (po_parent s).

Inductive step : pool E B -> pool E B -> Prop :=
(** [jobs <- index] meets the receive of a waiting worker. *)
| step_send s w : po_closed s = false -> (po_next s < n)%nat -> po_workers s !! w = Some Waiting ->
    step s (mkPool (S (po_next s)) false (<[w := Received (po_next s)]> (po_workers s)) (po_results s) (po_firstErr s) (po_cancelled s) (po_parent s))
(** The loop has sent everything, or sees the cancellation; [close(jobs)]. *)
| step_close s : po_closed s = false -> po_next s = n \/ po_cancelled s = true ->
    step s (mkPool (po_next s) true (po_workers s) (po_results s) (po_firstErr s) (po_cancelled s) (po_parent s))
(** [workerCtx.Err()]. *)
| step_call s w i : po_workers s !! w = Some (Received i) -> po_cancelled s = false -> step s (set_workers s (<[w := Calling i]> (po_workers s)))
| step_skip s w i : po_workers s !! w = Some (Received i) -> po_cancelled s = true -> step s (set_workers s (<[w := Returned]> (po_workers s)))
(** The call returns. *)
| step_ok s w i b : po_workers s !! w = Some (Calling i) -> returns s i (Ok b) ->
    step s (mkPool (po_next s) (po_closed s) (<[w := Waiting]> (po_workers s)) (<[i := b]> (po_results s)) (po_firstErr s) (po_cancelled s) (po_parent s))
| step_first_error s w i e : po_workers s !! w = Some (Calling i) -> returns s i (Err e) -> po_firstErr s = None ->
    step s (mkPool (po_next s) (po_closed s) (<[w := Cancelling]> (po_workers s)) (po_results s) (Some e) (po_cancelled s) (po_parent s))
| step_later_error s w i e f : po_workers s !! w = Some (Calling i) -> returns s i (Err e) -> po_firstErr s = Some f -> step s (set_workers s (<[w := Returned]> (po_workers s)))
| step_cancel s w : po_workers s !! w = Some Cancelling ->
    step s (mkPool (po_next s) (po_closed s) (<[w := Returned]> (po_workers s)) (po_results s) (po_firstErr s) true (po_parent s))
(** The channel is closed. *)
| step_return s w : po_workers s !! w = Some Waiting -> po_closed s = true -> step s (set_workers s (<[w := Returned]> (po_workers s)))
(** The caller's context is done. *)
| step_parent s : po_parent s = false -> step s (mkPool (po_next s) (po_closed s) (po_workers s) (po_results s) (po_firstErr s) true true).

(** [wg.Wait()] returns. *)
Definition finished (s : pool E B) : Prop := po_closed s = true /\ Forall (eq Returned) (po_workers s).

(** The error or the results, as the stage reads them after the wait. *)
Definition pool_result (s : pool E B) : result E (list B) :=
  match po_firstErr s with
  | Some e => Err e
  | None => if po_parent s then Err ctxErr else Ok (po_results s)
  end.

(** ** Termination *)

Definition worker_weight (w : worker) : nat := match w with Waiting => 1 | Received _ => 4 | Calling _ => 3 | Cancelling => 1 | Returned => 0 end.
Definition flag_weight (b : bool) : nat := if b then 0 else 1.
Definition weight (s : pool E B) : nat := 4 * (n - po_next s) + sum_list_with worker_weight (po_workers s) + flag_weight (po_closed s) + flag_weight (po_parent s).

Lemma workers_weight l w x y : l !! w = Some x -> (sum_list_with worker_weight (<[w := y]> l) + worker_weight x = sum_list_with worker_weight l + worker_weight y)%nat.
Proof.
  revert w. induction l as [|z l IH]; intros [|w]; try done; [intros [= <-]; cbn; lia|]. intros Hw. specialize (IH w Hw). cbn [sum_list_with].
  change (<[S w:=y]> (z :: l)) with (z :: <[w:=y]> l). cbn [sum_list_with]. lia.
Qed.

Lemma step_weight s t : step s t -> (weight t < weight s)%nat.
Proof.
  unfold weight, set_workers. destruct 1; cbn [set_workers po_next po_closed po_workers po_results po_firstErr po_cancelled po_parent];
    try match goal with Hw : po_workers _ !! ?w = Some ?x |- context [<[?w := ?y]> _] => pose proof (workers_weight _ _ _ y Hw) as Hs; cbn [worker_weight] in Hs end;
    repeat match goal with Hc : _ = false |- _ => rewrite Hc end; cbn [flag_weight]; lia.
Qed.

Lemma run_length k s t : nsteps step k s t -> (k + weight t <= weight s)%nat.
Proof. induction 1 as [|k s t u Hs _ IH]; [lia|]. apply step_weight in Hs. lia. Qed.

(** ** The invariant *)

Definition holding (w : worker) : option nat := match w with Received i | Calling i => Some i | _ => None end.
Definition held (s : pool E B) (i : nat) : Prop := i ∈ omap holding (po_workers s).

Record pool_inv (s : pool E B) : Prop := {
  pi_next : (po_next s <= n)%nat;
  pi_results : length (po_results s) = n;
  pi_held : forall i, held s i -> (i < po_next s)%nat;
  pi_distinct : NoDup (omap holding (po_workers s));
  pi_done : po_cancelled s = false -> po_firstErr s = None -> forall i, (i < po_next s)%nat -> held s i \/ exists b, po_results s !! i = Some b /\ work i = Ok b;
  pi_closed : po_closed s = true -> po_next s = n \/ po_cancelled s = true;
  pi_returned : Returned ∈ po_workers s -> po_closed s = true \/ po_cancelled s = true \/ po_firstErr s <> None;
  pi_cancelled : po_cancelled s = true -> po_parent s = true \/ po_firstErr s <> None;
  pi_first : po_firstErr s <> None -> po_cancelled s = true \/ Cancelling ∈ po_workers s;
  pi_cancelling : Cancelling ∈ po_workers s -> po_firstErr s <> None;
  pi_error : forall e, po_firstErr s = Some e -> po_parent s = true \/ exists i, (i < n)%nat /\ work i = Err e
}.

Definition hold_list (w : worker) : list nat := match holding w with Some i => [i] | None => [] end.

(** The indices held before and after one worker moves. *)
Lemma move_held l w x : l !! w = Some x -> exists rest, omap holding l ≡ₚ hold_list x ++ rest /\ forall y, omap holding (<[w := y]> l) ≡ₚ hold_list y ++ rest.
Proof.
  intros Hw. exists (omap holding (take w l) ++ omap holding (drop (S w) l)). pose proof (lookup_lt_Some _ _ _ Hw) as Hlt.
  assert (forall y, omap holding (take w l ++ y :: drop (S w) l) ≡ₚ hold_list y ++ omap holding (take w l) ++ omap holding (drop (S w) l)) as Hy.
  { intros y. rewrite omap_app. cbn. unfold hold_list. destruct (holding y); cbn; [symmetry; apply Permutation_middle|done]. }
  split; [rewrite <- Hy; by rewrite take_drop_middle|]. intros y. by rewrite insert_take_drop, Hy.
Qed.

Lemma move_in (l : list worker) (w : nat) (x y z : worker) : l !! w = Some x -> z ∈ <[w := y]> l -> z = y \/ z ∈ l.
Proof. intros Hw [j Hj]%list_elem_of_lookup. apply list_lookup_insert_Some in Hj as [(-> & <- & _)|[_ Hj]]; [by left|right]. by eapply list_elem_of_lookup_2. Qed.

Lemma move_new (l : list worker) (w : nat) (x y : worker) : l !! w = Some x -> y ∈ <[w := y]> l.
Proof. intros Hw. apply (list_elem_of_lookup_2 _ w), list_lookup_insert_eq. by eapply lookup_lt_Some. Qed.

Lemma move_keeps (l : list worker) (w : nat) (x y z : worker) : l !! w = Some x -> z <> x -> z ∈ l -> z ∈ <[w := y]> l.
Proof.
  intros Hw Hz [j Hj]%list_elem_of_lookup. apply (list_elem_of_lookup_2 _ j). rewrite list_lookup_insert_ne; [done|]. intros ->. congruence.
Qed.

(** What is known of the state before a worker moves. *)
Ltac move_worker :=
  match goal with Hw : po_workers ?s !! ?w = Some ?x |- context [<[?w := ?y]> (po_workers ?s)] =>
    let rest := fresh "rest" in let Hx := fresh "Hx" in let Hy := fresh "Hy" in
    pose proof (move_in _ _ _ y Returned Hw) as Hret; pose proof (move_in _ _ _ y Cancelling Hw) as Hcan; pose proof (move_new _ _ _ y Hw) as Hnew;
    pose proof (fun Hz => move_keeps _ _ _ y Cancelling Hw Hz) as Hkeep;
    destruct (move_held _ _ _ Hw) as (rest & Hx & Hy); specialize (Hy y); cbn [hold_list holding app] in Hx, Hy
  end.

Lemma step_inv s t : step s t -> pool_inv s -> pool_inv t.
Proof.
  destruct 1; intros [I1 I2 I3 I4 I5 I6 I7 I8 I9 I11 I10]; unfold held in *; try move_worker; try (setoid_rewrite Hx in I3; rewrite Hx in I4; setoid_rewrite Hx in I5);
    constructor; unfold held; cbn [set_workers po_next po_closed po_workers po_results po_firstErr po_cancelled po_parent]; try done; try (setoid_rewrite Hy); try lia.
  all: try (intros He; destruct (I9 He) as [?|Hc]; [by left|right; by apply Hkeep]).
  all: try (intros Hr; apply Hret in Hr as [Hr|Hr]; [discriminate|]; destruct (I7 Hr) as [?|[?|?]]; [auto; congruence|auto..]).
  all: try (intros j Hj; apply I3; by (apply Hj || right)).
  all: try (first [exact I4|by apply NoDup_cons in I4 as [_ ?]]).
  all: try (intros Hc He j Hj; destruct (I5 Hc He j Hj) as [Hr|?]; [|by right]; first [by left|congruence]).
  all: try (intros Hc; apply Hcan in Hc as [Hc|Hc]; [discriminate|by apply I11]).
  all: try (intros _; first [by left|right; left; congruence|right; right; congruence]).
  - intros j [->|Hj]%elem_of_cons; [lia|]. specialize (I3 j Hj). lia.
  - apply NoDup_cons. split; [|done]. intros Hn. specialize (I3 _ Hn). lia.
  - intros Hc He j Hj. destruct (decide (j = po_next s)) as [->|]; [left; by left|]. destruct (I5 Hc He j ltac:(lia)) as [?|?]; [left; by right|by right].
  - by rewrite length_insert.
  - intros Hc He j Hj. destruct (decide (j = i)) as [->|Hji].
    + right. exists b. split; [apply list_lookup_insert_eq; rewrite I2; lia|]. destruct H0 as [?|[? _]]; [done|congruence].
    + rewrite list_lookup_insert_ne by done. destruct (I5 Hc He j Hj) as [[?|?]%elem_of_cons|?]; [done|by left|by right].
  - by right.
  - intros _. by right.
  - intros ? [= <-]. destruct H0 as [Hw|[Hc _]]; [|by destruct (I8 Hc); [left|]]. right. exists i. split; [|done]. specialize (I3 i ltac:(by left)). lia.
  - intros _. right. apply I11. by eapply list_elem_of_lookup_2.
Qed.

Lemma holding_none (l : list worker) : Forall (fun w => holding w = None) l -> omap holding l = [].
Proof. induction 1 as [|w l Hw _ IH]; [done|]. cbn. by rewrite Hw. Qed.

Lemma pool_start_inv parallel : pool_inv (pool_start parallel).
Proof.
  unfold pool_start. assert (omap holding (replicate parallel Waiting) = []) as E0 by (apply holding_none, Forall_replicate; done).
  constructor; unfold held; cbn; rewrite ?E0; try done; try lia; try (by rewrite length_replicate); try (intros ?%elem_of_replicate; naive_solver).
  - intros i Hi. by apply not_elem_of_nil in Hi.
  - constructor.
Qed.

Lemma omap_calling (l : list nat) : omap holding (Calling <$> l) = l.
Proof. induction l as [|i l IH]; [done|]. cbn. f_equal. apply IH. Qed.

Lemma fan_start_inv : pool_inv fan_start.
Proof.
  unfold fan_start. pose proof (omap_calling (seq 0 n)) as Eo.
  constructor; unfold held; cbn [po_next po_closed po_workers po_results po_firstErr po_cancelled po_parent]; rewrite ?Eo; try done; try (by rewrite length_replicate); try (by left).
  - intros i Hi. apply list_elem_of_In, in_seq in Hi. lia.
  - apply NoDup_seq.
  - intros _ _ i Hi. left. apply list_elem_of_In, in_seq. lia.
  - intros (? & ? & _)%list_elem_of_fmap. done.
Qed.

(** Every state of a run. *)
Lemma run_inv s t : rtc step s t -> pool_inv s -> pool_inv t.
Proof. induction 1 as [|s t u Hs _ IH]; [done|]. intros Hi. by apply IH, (step_inv _ _ Hs). Qed.

Lemma run_workers s t : rtc step s t -> po_workers s <> [] -> po_workers t <> [].
Proof.
  assert (forall (l : list worker) w y, l <> [] -> <[w := y]> l <> []) as Hne by (by intros [|x l] [|w] y).
  induction 1 as [|s t u Hs _ IH]; [done|]. intros Hw. apply IH. destruct Hs; cbn; auto.
Qed.

Lemma run_closed s t : rtc step s t -> po_closed s = true -> po_closed t = true.
Proof. induction 1 as [|s t u Hs _ IH]; [done|]. intros Hc. apply IH. destruct Hs; cbn; congruence. Qed.

Lemma workers_start parallel : sum_list_with worker_weight (replicate parallel Waiting) = parallel.
Proof. induction parallel as [|p IH]; [done|]. cbn. by rewrite IH. Qed.

Lemma workers_calling l : sum_list_with worker_weight (Calling <$> l) = (3 * length l)%nat.
Proof. induction l as [|i l IH]; [done|]. cbn [fmap list_fmap sum_list_with worker_weight length]. rewrite IH. lia. Qed.

(** ** No deadlock *)

(** A step of the program, not of its environment. *)
Definition own_step (s t : pool E B) : Prop := step s t /\ po_parent t = po_parent s.

Lemma busy_steps s w x : po_workers s !! w = Some x -> x <> Waiting -> x <> Returned -> exists t, own_step s t.
Proof.
  intros Hw H1 H2. destruct x as [|i|i| |]; try done.
  - destruct (po_cancelled s) eqn:Ec; eexists; (split; [first [by eapply step_skip|by eapply step_call]|done]).
  - destruct (work i) as [b|e] eqn:Ew; [|destruct (po_firstErr s) as [f|] eqn:Ef]; eexists;
      (split; [first [by eapply step_ok; [|left]|by eapply step_later_error; [|left|]|by eapply step_first_error; [|left|]]|done]).
  - eexists. split; [by eapply step_cancel|done].
Qed.

Lemma pool_progress s : pool_inv s -> po_workers s <> [] \/ po_closed s = true -> finished s \/ exists t, own_step s t.
Proof.
  intros [I1 _ _ _ _ I6 I7 _ I9 _ _] Hne.
  destruct (decide (Forall (fun w => w = Waiting \/ w = Returned) (po_workers s))) as [Hall|Hbusy].
  2: { apply not_Forall_Exists, Exists_exists in Hbusy as (x & Hx & Hb); [|apply _]. apply list_elem_of_lookup in Hx as [w Hw]. right. apply (busy_steps s w x Hw); naive_solver. }
  destruct (decide (Waiting ∈ po_workers s)) as [[w Hw]%list_elem_of_lookup|Hnw].
  - right. destruct (po_closed s) eqn:Ec; [eexists; split; [by eapply step_return|done]|]. destruct (decide (po_next s = n)) as [|Hn].
    + eexists. split; [apply step_close; auto|done].
    + eexists. split; [apply (step_send s w); [done|lia|done]|done].
  - assert (Forall (eq Returned) (po_workers s)) as Hret by (rewrite Forall_forall in *; intros x Hx; destruct (Hall x Hx) as [->|]; done).
    destruct (po_closed s) eqn:Ec; [left; by split|]. right. assert (Returned ∈ po_workers s) as Hin.
    { destruct (po_workers s) as [|x l]; [by destruct Hne|]. apply Forall_cons in Hret as [<- _]. by left. }
    assert (po_cancelled s = true) as Hc.
    { destruct (I7 Hin) as [?|[?|He]]; [done|done|]. destruct (I9 He) as [?|Hc]; [done|]. rewrite Forall_forall in Hret. by apply Hret in Hc. }
    eexists. split; [apply step_close; auto|done].
Qed.

(** ** The result *)

Lemma finished_result s : pool_inv s -> finished s ->
  match pool_result s with
  | Ok l => length l = n /\ forall i b, l !! i = Some b -> work i = Ok b
  | Err e => po_parent s = true \/ exists i, (i < n)%nat /\ work i = Err e
  end.
Proof.
  intros [I1 I2 _ _ I5 I6 _ I8 _ _ I10] [Hc Hr]. unfold pool_result. destruct (po_firstErr s) as [e|] eqn:Ef; [by apply I10|]. destruct (po_parent s) eqn:Ep; [by left|].
  split; [done|]. intros i b Hb. assert (po_cancelled s = false) as Hcan by (apply not_true_is_false; intros Ht; by destruct (I8 Ht)).
  destruct (I6 Hc) as [Hn|]; [|congruence]. apply lookup_lt_Some in Hb as Hlt. destruct (I5 Hcan eq_refl i ltac:(lia)) as [Hh|(b' & Hb' & ?)]; [|congruence]. exfalso.
  unfold held in Hh. rewrite holding_none in Hh; [by apply not_elem_of_nil in Hh|]. eapply Forall_impl; [exact Hr|]. by intros ? <-.
Qed.

(** C15: a stage under every interleaving of its goroutines: a run has at most
    [4 n + parallel + 2] steps, and a state that is not finished has a step of the
    program itself, so the wait always returns; no two workers ever hold the same
    index, so no result is written twice; and when the wait returns, either the
    results are what the calls return, item by item in the order of the input, or
    the error is one that some item's call returns, or the caller's context was
    done. *)
Theorem pool_correct parallel k s : (0 < parallel)%nat -> nsteps step k (pool_start parallel) s ->
  (k <= 4 * n + parallel + 2)%nat /\ (finished s \/ exists t, own_step s t) /\ NoDup (omap holding (po_workers s)) /\
  (finished s -> match pool_result s with
    | Ok l => length l = n /\ forall i b, l !! i = Some b -> work i = Ok b
    | Err e => po_parent s = true \/ exists i, (i < n)%nat /\ work i = Err e
    end).
Proof.
  intros Hp Hr. pose proof (run_inv _ _ (rtc_nsteps_2 _ _ _ Hr) (pool_start_inv parallel)) as Hi. split; [|split; [|split]].
  - apply run_length in Hr. unfold weight at 2 in Hr. unfold pool_start in Hr. cbn [po_next po_closed po_workers po_parent flag_weight] in Hr. rewrite workers_start in Hr. lia.
  - apply pool_progress; [done|]. left. apply (run_workers _ _ (rtc_nsteps_2 _ _ _ Hr)). destruct parallel; [lia|done].
  - by apply pi_distinct.
  - by apply finished_result.
Qed.

(** The coordinator's goroutines, for which the same holds. *)
Lemma fan_correct k s : nsteps step k fan_start s ->
  (k <= 3 * n + 1)%nat /\ (finished s \/ exists t, own_step s t) /\
  (finished s -> match pool_result s with
    | Ok l => length l = n /\ forall i b, l !! i = Some b -> work i = Ok b
    | Err e => po_parent s = true \/ exists i, (i < n)%nat /\ work i = Err e
    end).
Proof.
  intros Hr. pose proof (run_inv _ _ (rtc_nsteps_2 _ _ _ Hr) fan_start_inv) as Hi. split; [|split].
  - apply run_length in Hr. unfold weight at 2 in Hr. unfold fan_start in Hr. cbn [po_next po_closed po_workers po_parent flag_weight] in Hr. rewrite workers_calling, length_seq in Hr. lia.
  - apply pool_progress; [done|]. right. apply (run_closed _ _ (rtc_nsteps_2 _ _ _ Hr)). done.
  - by apply finished_result.
Qed.

End Pool.

(** Two workers on two items: the second item is done first. *)
Definition demo_work (i : nat) : result bool nat := Ok (i + 10)%nat.
Definition demo_final : pool bool nat := mkPool 2 true [Returned; Returned] [10%nat; 11%nat] None false false.

Lemma demo_run : nsteps (step 2 demo_work (fun _ _ => False)) 9 (pool_start 2 0%nat 2) demo_final.
Proof.
  eapply nsteps_l; [apply (step_send _ _ _ _ 0); [done|cbn; lia|done]|]. eapply nsteps_l; [apply (step_send _ _ _ _ 1); [done|cbn; lia|done]|]. cbn.
  eapply nsteps_l; [apply (step_call _ _ _ _ 1 1); done|]. eapply nsteps_l; [apply (step_call _ _ _ _ 0 0); done|]. cbn.
  eapply nsteps_l; [apply (step_ok _ _ _ _ 1 1 11%nat); [done|by left]|]. eapply nsteps_l; [apply step_close; [done|by left]|]. cbn.
  eapply nsteps_l; [apply (step_ok _ _ _ _ 0 0 10%nat); [done|by left]|]. eapply nsteps_l; [apply (step_return _ _ _ _ 0); done|].
  eapply nsteps_l; [apply (step_return _ _ _ _ 1); done|]. constructor.
Qed.

Lemma pool_correct_witness : (9 <= 4 * 2 + 2 + 2)%nat /\ forall i b, [10%nat; 11%nat] !! i = Some b -> demo_work i = Ok b.
Proof.
  destruct (pool_correct 2 demo_work (fun _ _ => False) 0%nat true 2 9 demo_final ltac:(lia) demo_run) as (Hk & _ & _ & Hf). split; [exact Hk|].
  apply Hf. split; [reflexivity|repeat constructor].
Defined.

(** ** The pool as its clients see it

    What one run of a stage returned, with the errors a run may return when the
    caller's context is done. *)
Class Pools (E : Type) : Type := {
  run_pool : forall B : Type, B -> nat -> Z -> nat -> (nat -> result E B) -> result E (list B);
  run_fan : forall B : Type, B -> nat -> (nat -> result E B) -> result E (list B);
  late_error : E -> Prop
}.

(** All results in order, or one of the errors. *)
Definition pool_outcome {E B} (late : E -> Prop) (n : nat) (work : nat -> result E B) (r : result E (list B)) : Prop :=
  match r with
  | Ok l => length l = n /\ forall i b, l !! i = Some b -> work i = Ok b
  | Err e => late e \/ exists i, (i < n)%nat /\ work i = Err e
  end.

Class PoolsLaws (E : Type) `{Pools E} : Prop := {
  run_pool_outcome : forall B zero parallel timeout n work, (0 < parallel)%nat -> pool_outcome late_error n work (run_pool B zero parallel timeout n work);
  run_fan_outcome : forall B zero n work, pool_outcome late_error n work (run_fan B zero n work)
}.

(** What any finished run returns is such an outcome, whether it started as a
    stage's pool or as the coordinator's goroutines. *)
Lemma run_is_outcome {E B} n work interrupted (ctxErr : E) (late : E -> Prop) (s0 s : pool E B) : pool_inv n work s0 ->
  rtc (step n work interrupted) s0 s -> finished s -> (po_parent s = true -> forall e, pool_result ctxErr s = Err e -> late e) ->
  pool_outcome late n work (pool_result ctxErr s).
Proof.
  intros Hi Hs Hf Hl. pose proof (finished_result n work ctxErr s (run_inv _ _ _ _ _ Hs Hi) Hf) as Hr.
  unfold pool_outcome. destruct (pool_result ctxErr s) as [l|e] eqn:Er; [done|]. destruct Hr as [Hr|?]; [left; by apply (Hl Hr e)|by right].
Qed.

(** One item after the other. *)
Fixpoint run_from {E B} (work : nat -> result E B) (i n : nat) : result E (list B) :=
  match n with
  | O => Ok []
  | S n => let* b := work i in let* l := run_from work (S i) n in Ok (b :: l)
  end.

Lemma run_from_outcome {E B} (work : nat -> result E B) n : forall i,
  match run_from work i n with
  | Ok l => length l = n /\ forall j b, l !! j = Some b -> work (i + j)%nat = Ok b
  | Err e => exists j, (j < n)%nat /\ work (i + j)%nat = Err e
  end.
Proof.
  induction n as [|n IH]; intros i; cbn [run_from]; [by split|]. destruct (work i) as [b|e] eqn:Ew; cbn [result_bind]; [|exists 0%nat; split; [lia|by rewrite Nat.add_0_r]].
  specialize (IH (S i)). destruct (run_from work (S i) n) as [l|e]; cbn [result_bind].
  - destruct IH as [Hl Hw]. split; [cbn; lia|]. intros [|j] c; cbn; [intros [= <-]; by rewrite Nat.add_0_r|]. intros Hj. rewrite Nat.add_succ_r. by apply Hw.
  - destruct IH as (j & Hj & Hw). exists (S j). split; [lia|]. by rewrite Nat.add_succ_r.
Qed.

(** The sequential pool, which is never late. *)
Definition sequential_pools (E : Type) : Pools E := {|
  run_pool B _ _ _ n work := run_from work 0 n;
  run_fan B _ n work := run_from work 0 n;
  late_error _ := False
|}.

Lemma sequential_laws E : @PoolsLaws E (sequential_pools E).
Proof.
  split; cbn; intros; unfold pool_outcome; pose proof (run_from_outcome work n 0) as Hr; destruct (run_from work 0 n); [done|by right|done|by right].
Qed.

(** An outcome with results is the sequential one. *)
Lemma outcome_ok {E B} (late : E -> Prop) n (work : nat -> result E B) l : pool_outcome late n work (Ok l) -> run_from work 0 n = Ok l.
Proof.
  intros [Hl Hw]. pose proof (run_from_outcome work n 0) as Hr. destruct (run_from work 0 n) as [l'|e].
  - destruct Hr as [Hl' Hw']. f_equal. apply list_eq_same_length with n; [done|done|]. intros i x y _ Hx Hy. apply Hw in Hy. apply Hw' in Hx. cbn in Hx. congruence.
  - destruct Hr as (j & Hj & He). destruct (lookup_lt_is_Some_2 l j) as [b Hb]; [lia|]. apply Hw in Hb. cbn in He. congruence.
Qed.

(** An outcome with an error that is not late: some item fails, so the sequential run fails. *)
Lemma outcome_err {E B} (late : E -> Prop) n (work : nat -> result E B) e l : pool_outcome late n work (Err e) -> run_from work 0 n = Ok l -> late e.
Proof.
  intros [?|(i & Hi & He)] E0; [done|]. pose proof (run_from_outcome work n 0) as Hr. rewrite E0 in Hr. destruct Hr as [Hl Hw].
  destruct (lookup_lt_is_Some_2 l i) as [b Hb]; [lia|]. apply Hw in Hb. cbn in Hb. congruence.
Qed.

End WorkerPool.
