(* ===== verification/MapReduceEngine.v ===== *)
(** * Map/reduce jobs: engine, coordinator and wire (mapreduce/engine.go,
    coordinator.go, wire.go)

    The engine of a node executes admitted requests with its worker pools, the
    coordinator spreads a job over several nodes, and both ends of a stream
    exchange length-prefixed messages.  The pools are used through their
    interface; the JSON texts of messages are an interface of the wire. *)

From S2P Require Import Prelude GoStrings GoEncoding MuxFrame Framing MapReduce WorkerPool.

Module MapReduceEngine.
Import GoStrings GoEncoding MapReduce WorkerPool.

(** ** Topology *)

Record Topology := mkTopology { t_ChainSHA256 : bytes; t_Nodes : list bytes; t_CurrentNode : bytes }.

Fixpoint topology_loop (seen : list bytes) (nodes : list bytes) : result mr_error (list bytes) :=
  match nodes with
  | [] => Ok []
  | node :: rest =>
    let node := TrimSpace node in
    if str_eqb node [] || existsb (str_eqb node) seen || negb (validNodeName node) then Err ErrTopology
    else let* out := topology_loop (node :: seen) rest in Ok (node :: out)
  end.

Definition normalized `{UnicodeTables} (t : Topology) : result mr_error Topology :=
  let* nodes := topology_loop [] (t_Nodes t) in
  let out := mkTopology (ToLower (TrimSpace (t_ChainSHA256 t))) nodes (TrimSpace (t_CurrentNode t)) in
  if negb (len (t_ChainSHA256 out) =? 64) || (len nodes =? 0) || negb (existsb (str_eqb (t_CurrentNode out)) nodes) then Err ErrTopology else Ok out.

Fixpoint role_from (count i : Z) (nodes : list bytes) (node : bytes) : bytes :=
  match nodes with
  | [] => []
  | value :: rest =>
    if negb (str_eqb value node) then role_from count (i + 1) rest node else
    if i =? 0 then str "origin" else if i =? count - 1 then str "endpoint" else str "intermediate"
  end.

Definition Role (t : Topology) (node : bytes) : bytes :=
  let node := TrimSpace node in
  match t_Nodes t with
  | [only] => if str_eqb only node then str "single" else role_from 1 0 (t_Nodes t) node
  | nodes => role_from (len nodes) 0 nodes node
  end.

Definition Contains (t : Topology) (node : bytes) : bool := existsb (fun value => str_eqb value (TrimSpace node)) (t_Nodes t).

(** ** The engine *)

Record OpenMetadata := mkMetadata {
  m_Protocol : bytes;
  m_SourceNode : bytes;
  m_SourceBinding : bytes;
  m_ChainSHA256 : bytes;
  m_TargetNode : bytes
}.

Record Description := mkDescription {
  dn_Protocol : bytes;
  dn_CurrentNode : bytes;
  dn_PolicySHA256 : bytes;
  dn_Plugins : list PluginDescription;
  dn_Limits : Limits
}.

Record Response := mkResponse {
  rs_Protocol : bytes;
  rs_ID : bytes;
  rs_Records : list Rec;
  rs_Description : option Description;
  rs_Decision : DecisionSummary;
  rs_Error : option (bytes * bytes)
}.

Record Engine := mkEngine { e_topology : Topology; e_registry : Registry; e_policy : Policy }.

Definition NewEngine `{UnicodeTables} (topology : Topology) (registry : Registry) (policy : option Policy) : result mr_error Engine :=
  let* topology := normalized topology in
  if Empty registry then Err ErrRegistry else
  match policy with
  | None => Err ErrPolicy
  | Some policy => Ok (mkEngine topology registry policy)
  end.

Definition engine_Description (e : Engine) : Description :=
  mkDescription ProtocolVersion (t_CurrentNode (e_topology e)) (p_digest (e_policy e)) (Descriptions (e_registry e)) HardLimits.

Definition validateMetadata `{UnicodeTables} (e : Engine) (raw : OpenMetadata) : result mr_error OpenMetadata :=
  let m := mkMetadata (if str_eqb (m_Protocol raw) [] then OpenProtocolVersion else m_Protocol raw) (TrimSpace (m_SourceNode raw)) (TrimSpace (m_SourceBinding raw))
    (ToLower (TrimSpace (m_ChainSHA256 raw))) (TrimSpace (m_TargetNode raw)) in
  if negb (str_eqb (m_Protocol m) OpenProtocolVersion) || str_eqb (m_SourceNode m) [] || str_eqb (m_TargetNode m) [] || str_eqb (m_SourceBinding m) []
     || (512 <? len (m_SourceBinding m)) || negb (str_eqb (m_ChainSHA256 m) (t_ChainSHA256 (e_topology e))) then Err ErrMetadata else
  if negb (Contains (e_topology e) (m_SourceNode m)) || negb (Contains (e_topology e) (m_TargetNode m)) || negb (str_eqb (m_TargetNode m) (t_CurrentNode (e_topology e)))
  then Err ErrMetadata else Ok m.

Definition validateOutput (records : list Rec) (l : Limits) : option mr_error :=
  if MaxOutputRecords l <? len records then Some ErrLimitExceeded else
  if MaxOutputBytes l <? (OutputMetrics records).2 then Some ErrLimitExceeded else None.

Definition stage_parallel (q : Request) (l : Limits) : nat :=
  let parallel := if q_Parallel q <=? 0 then 1 else q_Parallel q in
  Z.to_nat (if MaxParallel l <? parallel then MaxParallel l else parallel).

Definition no_record : Rec := mkRec [] [].

(** A worker's body for one record. *)
Definition map_item (e : Engine) (m : OpenMetadata) (q : Request) (index : nat) : result mr_error (list Rec) :=
  let input := mkMapInput (q_ID q) (m_SourceNode m) (m_TargetNode m) (q_Labels q) (nth index (q_Records q) no_record) in
  let* output := Registry_Map (e_registry e) (q_Plugin q) input in
  match first_error validateRecord output with Some err => Err err | None => Ok output end.

(** A worker's body for one group. *)
Definition reduce_item (e : Engine) (m : OpenMetadata) (q : Request) (groups : list Group) (l : Limits) (index : nat) : result mr_error Rec :=
  let group := nth index groups (mkGroup [] []) in
  if MaxValuesPerKey l <? len (g_Values group) then Err ErrLimitExceeded else
  let* output := Registry_Reduce (e_registry e) (q_Plugin q) (mkReduceInput (q_ID q) (m_SourceNode m) (m_TargetNode m) (q_Labels q) group) in
  match validateRecord output with Some err => Err err | None => Ok output end.

(** The outputs in order, the limits checked after each. *)
Fixpoint collect (l : Limits) (out : list Rec) (results : list (list Rec)) : result mr_error (list Rec) :=
  match results with
  | [] => Ok out
  | records :: rest => match validateOutput (out ++ records) l with Some err => Err err | None => collect l (out ++ records) rest end
  end.

Section Pools.
Context `{UnicodeTables} `{Pools mr_error}.

Definition executeMap (e : Engine) (m : OpenMetadata) (q : Request) (l : Limits) (timeout : Z) : result mr_error (list Rec) :=
  let* results := run_pool (list Rec) [] (stage_parallel q l) timeout (length (q_Records q)) (map_item e m q) in
  collect l [] results.

Definition executeReduce (e : Engine) (m : OpenMetadata) (q : Request) (l : Limits) (timeout : Z) : result mr_error (list Rec) :=
  let groups := sort_by (fun a b => str_ltb (g_Key a) (g_Key b)) (q_Groups q) in
  let* results := run_pool Rec no_record (stage_parallel q l) timeout (length groups) (reduce_item e m q groups l) in
  match validateOutput results l with Some err => Err err | None => Ok results end.

Definition reduce_request (q : Request) (groups : list Group) : Request :=
  mkRequest (q_Protocol q) (q_ID q) OperationReduce (q_Plugin q) [] groups (q_Labels q) (q_Parallel q) (q_TimeoutMillis q) (q_Fanout q).

(** The switch over the operation. *)
Definition execute_operation (e : Engine) (m : OpenMetadata) (q : Request) (l : Limits) (timeout : Z) : result mr_error (list Rec) :=
  if str_eqb (q_Operation q) OperationDescribe then Ok [] else
  if str_eqb (q_Operation q) OperationMap then executeMap e m q l timeout else
  if str_eqb (q_Operation q) OperationReduce then executeReduce e m q l timeout else
  if str_eqb (q_Operation q) OperationRun then
    let* mapped := executeMap e m q l timeout in
    let* groups := GroupRecords mapped (MaxValuesPerKey l) in
    executeReduce e m (reduce_request q groups) l timeout
  else Err ErrInvalidRequest.

Definition millisecond : Z := 1000000.

Definition stage_timeout (q : Request) (l : Limits) : Z :=
  let millis := if (q_TimeoutMillis q <=? 0) || (MaxDurationMillis l <? q_TimeoutMillis q) then MaxDurationMillis l else q_TimeoutMillis q in
  i64 (millis * millisecond).

Definition no_response : Response := mkResponse [] [] [] None no_decision None.

Definition invocation (e : Engine) (m : OpenMetadata) (q : Request) : Invocation :=
  let '(items, inputBytes) := InputMetrics q in
  let plugin := if str_eqb (q_Operation q) OperationDescribe then str "system.describe" else q_Plugin q in
  mkInvocation (m_SourceNode m) (m_TargetNode m) (Role (e_topology e) (m_SourceNode m)) (q_Operation q) plugin (q_Labels q) items inputBytes (q_Parallel q) (q_TimeoutMillis q) (q_Fanout q).

Definition Execute (e : Engine) (metadata : OpenMetadata) (raw : Request) : Response * option mr_error :=
  match validateMetadata e metadata with
  | Err err => (no_response, Some err)
  | Ok m =>
    match NormalizeRequest raw with
    | Err err => (no_response, Some err)
    | Ok q =>
      match Evaluate (Some (e_policy e)) (invocation e m q) with
      | (decision, Some err) => (mkResponse ProtocolVersion (q_ID q) [] None decision None, Some err)
      | (decision, None) =>
        let l := d_Limits decision in
        let description := if str_eqb (q_Operation q) OperationDescribe then Some (engine_Description e) else None in
        match execute_operation e m q l (stage_timeout q l) with
        | Err err => (mkResponse ProtocolVersion (q_ID q) [] description decision None, Some err)
        | Ok records => (mkResponse ProtocolVersion (q_ID q) records description decision None, validateOutput records l)
        end
      end
    end
  end.

(** ** The coordinator *)

Record JobSpec := mkJobSpec {
  j_Plugin : bytes;
  j_Records : list Rec;
  j_MapTargets : list bytes;
  j_ReduceTarget : bytes;
  j_Labels : labels;
  j_Parallel : Z;
  j_TimeoutMillis : Z
}.

Fixpoint target_loop (seen : list bytes) (raw : list bytes) : result mr_error (list bytes) :=
  match raw with
  | [] => Ok []
  | target :: rest =>
    let target := TrimSpace target in
    if str_eqb target [] then target_loop seen rest else
    if negb (validNodeName target) then Err ErrInvalidRequest else
    if existsb (str_eqb target) seen then target_loop seen rest else let* out := target_loop (target :: seen) rest in Ok (target :: out)
  end.

(** [partitions[index % len(targets)] = append(...)]. *)
Fixpoint deal (count index : nat) (partitions : list (list Rec)) (records : list Rec) : list (list Rec) :=
  match records with
  | [] => partitions
  | r :: rest => deal count (S index) (alter (fun p => p ++ [r]) (index mod count)%nat partitions) rest
  end.

Definition partitionTargets (rawTargets : list bytes) (records : list Rec) : result mr_error (list (bytes * list Rec)) :=
  let* targets := target_loop [] rawTargets in
  if (len targets =? 0) || (MaxFanout HardLimits <? len targets) then Err ErrInvalidRequest else
  let partitions := deal (length targets) 0 (replicate (length targets) []) records in
  Ok (filter (fun tp => (0 <? len tp.2) = true) (zip targets partitions)).

Fixpoint unique (seen : list bytes) (values : list bytes) : list bytes :=
  match values with
  | [] => seen
  | value :: rest =>
    let value := TrimSpace value in
    if str_eqb value [] || existsb (str_eqb value) seen then unique seen rest else unique (value :: seen) rest
  end.
Definition uniqueCount (values : list bytes) : Z := len (unique [] values).

Definition map_request (spec : JobSpec) (plugin jobID : bytes) (fanout : Z) (index : nat) (records : list Rec) : Request :=
  mkRequest ProtocolVersion (jobID ++ str "-map-" ++ json_int (Z.of_nat index)) OperationMap plugin records [] (j_Labels spec) (j_Parallel spec) (j_TimeoutMillis spec) fanout.

(** [call] is [Caller.Call], [jobID] what [NewJobID] returned. *)
Definition Coordinator_Run (call : bytes -> Request -> result mr_error Response) (jobID : bytes) (spec : JobSpec) : result mr_error (list Rec) :=
  let plugin := TrimSpace (j_Plugin spec) in
  if negb (validName plugin) || (len (j_Records spec) =? 0) || (MaxRecords <? len (j_Records spec)) then Err ErrInvalidRequest else
  match validateLabels (j_Labels spec) with
  | Some err => Err err
  | None =>
    let* parts := partitionTargets (j_MapTargets spec) (j_Records spec) in
    let reduceTarget := if str_eqb (TrimSpace (j_ReduceTarget spec)) [] then default [] (head parts.*1) else TrimSpace (j_ReduceTarget spec) in
    if negb (validNodeName reduceTarget) then Err ErrInvalidRequest else
    let fanout := uniqueCount (parts.*1 ++ [reduceTarget]) in
    if MaxFanout HardLimits <? fanout then Err ErrLimitExceeded else
    let* mappedByTarget := run_fan (list Rec) [] (length parts) (fun index =>
      let '(target, records) := nth index parts ([], []) in
      let* response := call target (map_request spec plugin jobID fanout index records) in Ok (rs_Records response)) in
    let* groups := GroupRecords (concat mappedByTarget) MaxValuesPerGroup in
    let* response := call reduceTarget (mkRequest ProtocolVersion (jobID ++ str "-reduce") OperationReduce plugin [] groups (j_Labels spec) (j_Parallel spec) (j_TimeoutMillis spec) fanout) in
    Ok (rs_Records response)
  end.

(** ** The wire *)

(** The JSON texts of messages, decoded strictly, and the text of an error. *)
Class MessageCodec : Type := {
  marshal_request : Request -> bytes;
  unmarshal_request : bytes -> option Request;
  marshal_response : Response -> bytes;
  unmarshal_response : bytes -> option Response;
  unmarshal_metadata : bytes -> option OpenMetadata;
  error_text : mr_error -> bytes
}.

(** [writeFrame] on a stream that takes every byte; with any other writer it is [Framing.mapreduce_writeFrame]. *)
Definition writeFrame (payload : bytes) : result mr_error bytes :=
  if (len payload =? 0) || (MaxMessageBytes <? len payload) then Err ErrWire else Ok (put_u32 (len payload) ++ payload).

Definition readFrame (stream : bytes) : result mr_error (bytes * bytes) := result_map_err (fun _ => ErrWire) (Framing.mapreduce_readFrame stream).

Definition error_code (e : mr_error) : bytes :=
  match e with
  | ErrInvalidRequest => str "invalid_request"
  | ErrDenied => str "denied"
  | ErrPluginNotFound => str "plugin_not_found"
  | ErrMapUnavailable => str "map_unavailable"
  | ErrReduceUnavailable => str "reduce_unavailable"
  | ErrLimitExceeded => str "limit_exceeded"
  | ErrDeadlineExceeded => str "deadline_exceeded"
  | ErrCanceled => str "canceled"
  | _ => str "internal"
  end.

Section Wire.
Context `{MessageCodec}.

Definition errorResponse (id : bytes) (err : mr_error) (decision : DecisionSummary) : Response :=
  mkResponse ProtocolVersion id [] None decision (Some (error_code err, take (Z.to_nat MaxErrorBytes) (error_text err))).

Definition writeRequest (q : Request) : result mr_error bytes :=
  writeFrame (marshal_request (mkRequest ProtocolVersion (q_ID q) (q_Operation q) (q_Plugin q) (q_Records q) (q_Groups q) (q_Labels q) (q_Parallel q) (q_TimeoutMillis q) (q_Fanout q))).
Definition writeResponse (r : Response) : result mr_error bytes :=
  writeFrame (marshal_response (mkResponse ProtocolVersion (rs_ID r) (rs_Records r) (rs_Description r) (rs_Decision r) (rs_Error r))).

Definition readRequest (stream : bytes) : result mr_error Request :=
  let* '(payload, _) := readFrame stream in
  match unmarshal_request payload with None => Err ErrWire | Some q => NormalizeRequest q end.

Definition readResponse (stream : bytes) : result mr_error Response :=
  let* '(payload, _) := readFrame stream in
  match unmarshal_response payload with
  | None => Err ErrWire
  | Some r => if negb (str_eqb (rs_Protocol r) ProtocolVersion) then Err ErrWire else Ok r
  end.

Definition ParseOpenMetadata (raw : bytes) : result mr_error OpenMetadata :=
  if (len raw =? 0) || (4096 <? len raw) then Err ErrMetadata else
  match unmarshal_metadata raw with
  | None => Err ErrMetadata
  | Some m =>
    let m := mkMetadata (if str_eqb (m_Protocol m) [] then OpenProtocolVersion else m_Protocol m) (m_SourceNode m) (m_SourceBinding m) (m_ChainSHA256 m) (TrimSpace (m_TargetNode m)) in
    if negb (str_eqb (m_Protocol m) OpenProtocolVersion) || str_eqb (m_TargetNode m) [] then Err ErrMetadata else Ok m
  end.

(** [BindSource]: the metadata a broker sends on. *)
Definition BindSource (raw sourceNode sourceBinding chainSHA256 targetNode : bytes) : result mr_error OpenMetadata :=
  let* m := ParseOpenMetadata raw in
  let chainSHA256 := ToLower (TrimSpace chainSHA256) in
  let targetNode := TrimSpace targetNode in
  let* '(source, binding, chain) :=
    (if str_eqb (m_SourceNode m) [] && str_eqb (m_SourceBinding m) [] && str_eqb (m_ChainSHA256 m) [] then Ok (TrimSpace sourceNode, TrimSpace sourceBinding, chainSHA256)
     else let chain := ToLower (TrimSpace (m_ChainSHA256 m)) in
       if negb (str_eqb chain chainSHA256) then Err ErrMetadata else Ok (TrimSpace (m_SourceNode m), TrimSpace (m_SourceBinding m), chain)) in
  if negb (validNodeName source) || negb (validNodeName targetNode) || str_eqb binding [] || (512 <? len binding) || negb (len chain =? 64) then Err ErrMetadata
  else Ok (mkMetadata (m_Protocol m) source binding chain targetNode).

(** What the server writes to the stream. *)
Definition Serve (e : Engine) (metadataRaw stream : bytes) : result mr_error bytes :=
  let* metadata := ParseOpenMetadata metadataRaw in
  match readRequest stream with
  | Err err => match writeResponse (errorResponse [] err no_decision) with Ok out => Ok out | Err _ => Ok [] end
  | Ok q =>
    match Execute e metadata q with
    | (response, Some err) => writeResponse (errorResponse (q_ID q) err (rs_Decision response))
    | (response, None) => writeResponse response
    end
  end.

(** [peer] is the other end: what it answers to what was written. *)
Definition CallStream (peer : bytes -> bytes) (request : Request) : result mr_error Response :=
  let* q := NormalizeRequest request in
  let* sent := writeRequest q in
  let* response := readResponse (peer sent) in
  if negb (str_eqb (rs_ID response) (q_ID q)) then Err ErrWire else
  match rs_Error response with
  | Some _ => Err ErrWire
  | None => Ok response
  end.

End Wire.
End Pools.
End MapReduceEngine.
