(* ===== verification/MapReduceProofs.v ===== *)
(** * Map/reduce jobs: lemmas

    Grouping, the limits of a decision, the stages against a reference
    definition, and the dealing of records to targets. *)

From S2P Require Import Prelude GoStrings GoEncoding MapReduce WorkerPool MapReduceEngine.

Module MapReduceProofs.
Import GoStrings GoEncoding MapReduce WorkerPool MapReduceEngine.

(** ** Grouping *)

(** The values of a key, in the order of the records, and the keys in order. *)
Definition values_of (k : bytes) (records : list Rec) : list bytes := r_Value <$> filter (fun r => r_Key r = k) records.
Definition keys_of (records : list Rec) : list bytes := sort_by str_ltb (remove_dups (r_Key <$> records)).
Definition groups_of (records : list Rec) : list Group := (fun k => mkGroup k (values_of k records)) <$> keys_of records.

Lemma values_of_cons k r records : values_of k (r :: records) = if decide (r_Key r = k) then r_Value r :: values_of k records else values_of k records.
Proof. unfold values_of. rewrite filter_cons. by case_decide. Qed.

Lemma values_of_nil k records : k ∉ r_Key <$> records -> values_of k records = [].
Proof.
  induction records as [|r records IH]; [done|]. cbn [fmap list_fmap]. rewrite not_elem_of_cons. intros [Hk Hr]. rewrite values_of_cons. case_decide; [congruence|by apply IH].
Qed.

Lemma group_loop_ok max records : forall g, (forall k, len (default [] (g !! k)) <= max) ->
  match group_loop max g records with
  | Ok g' => (forall k, len (default [] (g !! k) ++ values_of k records) <= max) /\ forall k, g' !! k = if decide (k ∈ r_Key <$> records) then Some (default [] (g !! k) ++ values_of k records) else g !! k
  | Err e => e = ErrLimitExceeded /\ exists k, max < len (default [] (g !! k) ++ values_of k records)
  end.
Proof.
  induction records as [|r records IH]; intros g Hg; cbn [group_loop].
  - split; [intros k; cbn; rewrite app_nil_r; apply Hg|]. intros k. rewrite decide_False; [done|]. apply not_elem_of_nil.
  - destruct (Z.leb_spec max (len (default [] (g !! r_Key r)))) as [Hm|Hm].
    + split; [done|]. exists (r_Key r). rewrite values_of_cons, decide_True by done. rewrite len_app, len_cons. pose proof (len_nonneg (values_of (r_Key r) records)). lia.
    + set (g1 := <[r_Key r := default [] (g !! r_Key r) ++ [r_Value r]]> g).
      assert (forall k, default [] (g1 !! k) ++ values_of k records = default [] (g !! k) ++ values_of k (r :: records)) as Hk.
      { intros k. unfold g1. rewrite values_of_cons. case_decide as Ek; [subst k; rewrite lookup_insert; case_decide; [cbn; by rewrite <- app_assoc|done]|]. by rewrite lookup_insert_ne. }
      assert (forall k, len (default [] (g1 !! k)) <= max) as Hg1.
      { intros k. unfold g1. destruct (decide (r_Key r = k)) as [<-|]; [rewrite lookup_insert; case_decide; [|done]; cbn; rewrite len_app; unfold len in *; cbn; lia|by rewrite lookup_insert_ne]. }
      specialize (IH g1 Hg1). destruct (group_loop max g1 records) as [g'|e].
      * destruct IH as [H1 H2].
        split; [intros k; rewrite <- Hk; apply H1|]. intros k. rewrite H2, Hk. cbn [fmap list_fmap]. destruct (decide (k ∈ r_Key <$> records)) as [Hin|Hin].
        { rewrite decide_True; [done|]. by right. }
        destruct (decide (k = r_Key r)) as [->|Hne].
        { rewrite decide_True by (by left). unfold g1. rewrite lookup_insert. case_decide; [|done]. rewrite values_of_cons, decide_True by done. by rewrite (values_of_nil _ _ Hin). }
        rewrite decide_False; [unfold g1; by rewrite lookup_insert_ne|]. by rewrite not_elem_of_cons.
      * destruct IH as [-> (k & Hlt)].
        split; [done|]. exists k. by rewrite <- Hk.
Qed.

(** A limit of zero means the hard one. *)
Definition value_limit (maxValues : Z) : Z := if maxValues <=? 0 then MaxValuesPerGroup else maxValues.

Lemma GroupRecords_spec records maxValues :
  match GroupRecords records maxValues with
  | Ok groups => groups = groups_of records /\ forall k, len (values_of k records) <= value_limit maxValues
  | Err e => e = ErrLimitExceeded /\ exists k, value_limit maxValues < len (values_of k records)
  end.
Proof.
  unfold GroupRecords. fold (value_limit maxValues). assert (0 < value_limit maxValues) as Hm by (unfold value_limit, MaxValuesPerGroup; case_match; lia).
  pose proof (group_loop_ok (value_limit maxValues) records ∅) as H. setoid_rewrite lookup_empty in H. cbn [default app] in H.
  destruct (group_loop _ ∅ records) as [g|e]; cbn [result_bind]; [|apply H; intros; unfold len; cbn; lia].
  destruct H as [H1 H2]; [intros; unfold len; cbn; lia|]. split; [|done]. unfold groups_of.
  assert (keys_of records = sort_by str_ltb (map_to_list g).*1) as ->.
  { apply str_sort_unique. apply NoDup_Permutation; [apply NoDup_remove_dups|apply NoDup_fst_map_to_list|]. intros k. rewrite elem_of_remove_dups.
    rewrite elem_of_keys, H2. case_decide; split; try done; by intros [? ?]. }
  apply list_fmap_ext. intros i k Hk. apply list_elem_of_lookup_2 in Hk. rewrite elem_of_sort_by, elem_of_keys, H2 in Hk.
  rewrite H2. case_decide; [done|by destruct Hk].
Qed.

Lemma keys_of_order records : StronglySorted (fun a b => str_ltb a b = true) (keys_of records).
Proof.
  assert (NoDup (keys_of records)) as Hnd by (unfold keys_of; rewrite sort_by_perm; apply NoDup_remove_dups).
  pose proof (str_sort_in_order (remove_dups (r_Key <$> records))) as Ho. fold (keys_of records) in Ho. induction Ho as [|a l Ho IH Hf]; [constructor|].
  apply NoDup_cons in Hnd as [Ha Hnd]. constructor; [by apply IH|]. rewrite Forall_forall in *. intros b Hb. apply not_false_is_true. intros E.
  apply Ha. assert (a = b) as -> by (apply str_ltb_total; [done|by apply Hf]). done.
Qed.

Lemma elem_of_keys_of k records : k ∈ keys_of records <-> k ∈ r_Key <$> records.
Proof. unfold keys_of. by rewrite elem_of_sort_by, elem_of_remove_dups. Qed.

Lemma keys_of_perm records records' : records ≡ₚ records' -> keys_of records = keys_of records'.
Proof.
  intros Hp. apply str_sort_unique, NoDup_Permutation; [apply NoDup_remove_dups..|]. intros k. rewrite !elem_of_remove_dups. by rewrite Hp.
Qed.

Lemma values_of_perm k records records' : records ≡ₚ records' -> values_of k records ≡ₚ values_of k records'.
Proof. intros Hp. unfold values_of. by rewrite Hp. Qed.

(** Groups already in the order of their keys stay as they are. *)
Lemma groups_of_sorted records : sort_by (fun a b => str_ltb (g_Key a) (g_Key b)) (groups_of records) = groups_of records.
Proof.
  apply sort_by_id. unfold groups_of, in_order. pose proof (str_sort_in_order (remove_dups (r_Key <$> records))) as Ho. fold (keys_of records) in Ho.
  induction Ho as [|k l _ IH Hf]; [constructor|]. cbn [fmap list_fmap]. constructor; [done|]. apply Forall_fmap. eapply Forall_impl; [exact Hf|]. done.
Qed.

(** ** Policy *)

Lemma match_loop_spec inv rules :
  match match_loop inv rules with
  | inl deny => deny ∈ rules /\ ruleMatches deny inv = true /\ u_Effect deny = EffectDeny
  | inr allow => allow = filter (fun r => ruleMatches r inv = true) rules /\ Forall (fun r => u_Effect r <> EffectDeny) allow
  end.
Proof.
  induction rules as [|r rules IH]; cbn [match_loop]; [split; [done|constructor]|]. rewrite filter_cons. destruct (ruleMatches r inv) eqn:Em; cbn [negb].
  - destruct (str_eqb_spec (u_Effect r) EffectDeny) as [Ee|Ee]; [split; [by left|done]|]. destruct (match_loop inv rules) as [d|a].
    + destruct IH as (? & ? & ?). split; [by right|done].
    + destruct IH as [-> Hf]. rewrite decide_True by done. split; [done|by constructor].
  - rewrite decide_False by done. destruct (match_loop inv rules) as [d|a]; [|done]. destruct IH as (? & ? & ?). split; [by right|done].
Qed.

(** The limits one by one, and the quantities of a request they bound. *)
Definition limit_fields : list (Limits -> Z) := [MaxItems; MaxInputBytes; MaxOutputRecords; MaxOutputBytes; MaxParallel; MaxFanout; MaxDurationMillis; MaxValuesPerKey].
Definition usages : list ((Invocation -> Z) * (Limits -> Z)) :=
  [(i_Items, MaxItems); (i_InputBytes, MaxInputBytes); (i_Parallel, MaxParallel); (i_Fanout, MaxFanout); (i_TimeoutMillis, MaxDurationMillis)].

Lemma limits_eq a b : Forall (fun f => f a = f b) limit_fields -> a = b.
Proof. unfold limit_fields. rewrite !Forall_cons. destruct a, b; cbn. intros (-> & -> & -> & -> & -> & -> & -> & -> & _). done. Qed.

Lemma min_field f a b : f ∈ limit_fields -> f (minLimits a b) = Z.min (f a) (f b).
Proof. unfold limit_fields. rewrite !elem_of_cons. intros Hf. destruct_or! Hf; by subst || by apply not_elem_of_nil in Hf. Qed.

Lemma rule_limit_positive f l : f ∈ limit_fields -> 0 < f (normalizeRuleLimits l).
Proof.
  assert (forall v h, 0 < h -> 0 < positive_or v h) as Hp by (intros; unfold positive_or; case_match; lia).
  unfold limit_fields. rewrite !elem_of_cons. intros Hf. destruct_or! Hf; try (by apply not_elem_of_nil in Hf); subst f; by apply Hp.
Qed.

Lemma hard_limit_positive f : f ∈ limit_fields -> 0 < f HardLimits.
Proof. unfold limit_fields. rewrite !elem_of_cons. intros Hf. destruct_or! Hf; by subst || by apply not_elem_of_nil in Hf. Qed.

Lemma checkInvocationLimits_ok inv l : checkInvocationLimits inv l = None <-> Forall (fun uf => uf.1 inv <= uf.2 l) usages.
Proof.
  unfold checkInvocationLimits, usages. rewrite !Forall_cons. cbn [fst snd]. repeat case_match; split; intros; try done; try lia; repeat split; try lia. constructor.
Qed.

Definition effective_limits (matching : list Rule) : Limits := fold_left (fun acc rule => minLimits acc (normalizeRuleLimits (u_Limits rule))) matching HardLimits.

(** A field of the effective limits is the least of the hard limit and the rules' limits. *)
Lemma effective_field f matching : f ∈ limit_fields -> f (effective_limits matching) = foldr Z.min (f HardLimits) ((fun r => f (normalizeRuleLimits (u_Limits r))) <$> matching).
Proof.
  intros Hf. unfold effective_limits. generalize HardLimits. induction matching as [|r l IH]; intros acc; [done|]. cbn [fold_left fmap list_fmap foldr]. rewrite IH, (min_field f) by done.
  clear IH. induction l as [|r' l IH]; cbn [fmap list_fmap foldr]; lia.
Qed.

Lemma least_spec (x : Z) h l : x <= foldr Z.min h l <-> x <= h /\ Forall (fun y => x <= y) l.
Proof.
  induction l as [|y l IH]; cbn [foldr]; [split; [intros; split; [done|constructor]|tauto]|].
  rewrite Z.min_glb_iff, IH, Forall_cons. tauto.
Qed.

Lemma least_positive h l : 0 < h -> Forall (fun y => 0 < y) l -> 0 < foldr Z.min h l.
Proof. intros Hh. induction 1 as [|y l Hy _ IH]; cbn [foldr]; lia. Qed.

Lemma least_perm h l l' : l ≡ₚ l' -> foldr Z.min h l = foldr Z.min h l'.
Proof. induction 1; cbn [foldr]; lia. Qed.

Lemma effective_perm matching matching' : matching ≡ₚ matching' -> effective_limits matching = effective_limits matching'.
Proof. intros Hp. apply limits_eq, Forall_forall. intros f Hf. rewrite !effective_field by done. apply least_perm. by rewrite Hp. Qed.

Lemma effective_positive f matching : f ∈ limit_fields -> 0 < f (effective_limits matching).
Proof.
  intros Hf. rewrite effective_field by done. apply least_positive; [by apply hard_limit_positive|]. apply Forall_fmap, Forall_forall. intros r _. by apply rule_limit_positive.
Qed.

(** The checks of [Evaluate] on the invocation itself. *)
Definition invocation_valid (inv : Invocation) : bool :=
  let inv := trim_invocation inv in
  validNodeName (i_SourceNode inv) && validNodeName (i_TargetNode inv) && operation_Valid (i_Operation inv) && validName (i_Plugin inv)
  && bool_decide (validateLabels (i_Labels inv) = None)
  && negb ((i_Items inv <? 0) || (i_InputBytes inv <? 0) || (i_Parallel inv <? 0) || (i_TimeoutMillis inv <? 0) || (i_Fanout inv <? 0)).

Lemma Evaluate_valid p inv : invocation_valid inv = true -> Evaluate (Some p) inv =
  match match_loop (trim_invocation inv) (p_Rules p) with
  | inl deny => (mkDecision false [u_Name deny] no_limits (p_digest p), Some ErrDenied)
  | inr [] => (mkDecision false [] no_limits (p_digest p), Some ErrDenied)
  | inr allow => match checkInvocationLimits (trim_invocation inv) (effective_limits allow) with
    | Some e => (mkDecision false (u_Name <$> allow) (effective_limits allow) (p_digest p), Some e)
    | None => (mkDecision true (u_Name <$> allow) (effective_limits allow) (p_digest p), None)
    end
  end.
Proof.
  unfold invocation_valid. rewrite !andb_true_iff, bool_decide_eq_true, negb_true_iff. intros [[[[[H1 H2] H3] H4] H5] H6]. unfold Evaluate.
  rewrite H1, H2, H3, H4, H5, H6. done.
Qed.

Lemma Evaluate_ok_valid p inv d : Evaluate (Some p) inv = (d, None) -> invocation_valid inv = true.
Proof.
  unfold Evaluate, invocation_valid. destruct (validNodeName _), (validNodeName _), (operation_Valid _), (validName _); try done. cbn [negb orb andb].
  destruct (validateLabels _); [done|]. destruct (_ || _) eqn:E; [done|]. intros _. by rewrite bool_decide_eq_true_2.
Qed.

(** The limits of an admitted request. *)
Lemma Evaluate_limits p inv d f : Evaluate (Some p) inv = (d, None) -> f ∈ limit_fields -> 0 < f (d_Limits d).
Proof.
  intros E Hf. rewrite (Evaluate_valid _ _ (Evaluate_ok_valid _ _ _ E)) in E. destruct (match_loop _ _) as [|[|r l]]; [done..|]. destruct (checkInvocationLimits _ _); [done|].
  injection E as <-. by apply effective_positive.
Qed.

Definition matching_rules (p : Policy) (inv : Invocation) : list Rule := filter (fun r => ruleMatches r (trim_invocation inv) = true) (p_Rules p).
Definition admits (inv : Invocation) (matching : list Rule) : Prop :=
  matching <> [] /\ Forall (fun r => u_Effect r <> EffectDeny) matching /\ checkInvocationLimits (trim_invocation inv) (effective_limits matching) = None.

Lemma Evaluate_cases p inv : invocation_valid inv = true ->
  (admits inv (matching_rules p inv) /\ Evaluate (Some p) inv = (mkDecision true (u_Name <$> matching_rules p inv) (effective_limits (matching_rules p inv)) (p_digest p), None)) \/
  (~ admits inv (matching_rules p inv) /\ exists d e, Evaluate (Some p) inv = (d, Some e) /\ d_Allowed d = false).
Proof.
  intros Hv. rewrite (Evaluate_valid _ _ Hv). pose proof (match_loop_spec (trim_invocation inv) (p_Rules p)) as Hm. fold (matching_rules p inv) in Hm. unfold admits.
  destruct (match_loop _ _) as [deny|allow].
  - right. split; [|by do 2 eexists]. intros (_ & Hf & _). destruct Hm as (Hin & Hmatch & Heff). rewrite Forall_forall in Hf. apply (Hf deny); [|done].
    unfold matching_rules. by apply list_elem_of_filter.
  - destruct Hm as [-> Hf]. destruct (matching_rules p inv) as [|r l] eqn:El; [right; split; [by intros [? _]|by do 2 eexists]|].
    destruct (checkInvocationLimits _ _) eqn:Ec; [right; split; [by intros (_ & _ & ?)|by do 2 eexists]|left; done].
Qed.

Lemma matching_perm p p' inv : p_Rules p' ≡ₚ p_Rules p -> matching_rules p' inv ≡ₚ matching_rules p inv.
Proof. intros Hp. unfold matching_rules. by rewrite Hp. Qed.

Lemma admits_perm inv l l' : l ≡ₚ l' -> admits inv l -> admits inv l'.
Proof.
  intros Hp (Hne & Hf & Hc). split; [|split; [by rewrite <- Hp|by rewrite <- (effective_perm _ _ Hp)]]. intros ->. by apply Permutation_nil_r in Hp.
Qed.

(** The limits of a decision against the rules'. *)
Lemma effective_below x f matching : f ∈ limit_fields -> x <= f (effective_limits matching) <-> x <= f HardLimits /\ Forall (fun r => x <= f (normalizeRuleLimits (u_Limits r))) matching.
Proof. intros Hf. by rewrite effective_field, least_spec, Forall_fmap. Qed.

(** ** Hooks *)

(** The hooks wrap from the first to the last: each is called with the rest of the chain. *)
Lemma wrap_cons {I O} (base : stage I O) entry hooks input : wrap base (entry :: hooks) input = h_hook entry input (wrap base hooks).
Proof. unfold wrap. cbn [rev]. by rewrite fold_left_app. Qed.

(** What a registry keeps of the hooks of a stage. *)
Record hooks_ok {H} (nextOrder : Z) (hooks : list (hookEntry H)) : Prop := {
  ho_order : in_order hook_less hooks;
  ho_past : Forall (fun e => h_order e <= nextOrder) hooks
}.

Lemma hook_less_asym {H} (a b : hookEntry H) : hook_less a b = true -> hook_less b a = false.
Proof. unfold hook_less. rewrite (Z.eqb_sym (h_priority b)). destruct (Z.eqb_spec (h_priority a) (h_priority b)); cbn [negb]; lia. Qed.

Lemma hook_nless_trans {H} (a b c : hookEntry H) : hook_less b a = false -> hook_less c b = false -> hook_less c a = false.
Proof.
  unfold hook_less. destruct (Z.eqb_spec (h_priority b) (h_priority a)), (Z.eqb_spec (h_priority c) (h_priority b)), (Z.eqb_spec (h_priority c) (h_priority a)); cbn [negb]; lia.
Qed.

(** A new hook goes after those of the same or a lower priority number and before the others. *)
Lemma new_hook_position {H} nextOrder order priority (h : H) hooks : hooks_ok nextOrder hooks -> nextOrder < order ->
  sort_by hook_less (hooks ++ [mkHookEntry priority order h]) = filter (fun e => h_priority e <= priority) hooks ++ mkHookEntry priority order h :: filter (fun e => priority < h_priority e) hooks.
Proof.
  intros [Ho Hp] Hn. unfold sort_by. rewrite fold_left_app. cbn [fold_left]. fold (sort_by hook_less hooks). rewrite (sort_by_id _ _ Ho).
  induction Ho as [|e l Ho IH Hf]; [done|]. apply Forall_cons in Hp as [He Hp]. cbn [insert_sorted]. rewrite !filter_cons. unfold hook_less at 1. cbn [h_priority h_order].
  destruct (Z.eqb_spec priority (h_priority e)) as [Ee|Ne]; cbn [negb].
  - destruct (Z.ltb_spec order (h_order e)); [lia|]. rewrite decide_True, decide_False by lia. cbn [app]. f_equal. by apply IH.
  - destruct (Z.ltb_spec priority (h_priority e)).
    + rewrite decide_False, decide_True by lia.
      assert (Forall (fun e' => priority < h_priority e') l) as Hl.
      { eapply Forall_impl; [exact Hf|]. intros e' He'. cbn in He'. unfold hook_less in He'. destruct (Z.eqb_spec (h_priority e') (h_priority e)); cbn [negb] in He'; lia. }
      assert (filter (fun e => h_priority e <= priority) l = [] /\ filter (fun e => priority < h_priority e) l = l) as [-> ->]; [|done].
      clear -Hl. induction Hl as [|e' l He' _ [IH1 IH2]]; [done|]. rewrite !filter_cons, decide_False, decide_True by lia. by rewrite IH1, IH2.
    + rewrite decide_True, decide_False by lia. cbn [app]. f_equal. by apply IH.
Qed.

Lemma new_hook_ok {H} nextOrder priority (h : H) hooks : hooks_ok nextOrder hooks -> 0 <= nextOrder < 2 ^ 64 - 1 ->
  hooks_ok (u64 (nextOrder + 1)) (sort_by hook_less (hooks ++ [mkHookEntry priority (u64 (nextOrder + 1)) h])).
Proof.
  intros [Ho Hp] Hn. rewrite u64_small by (unfold is_u; lia). split; [apply sort_by_in_order; [apply hook_less_asym|apply hook_nless_trans]|].
  rewrite sort_by_perm. apply Forall_app. split; [eapply Forall_impl; [exact Hp|]; cbn; lia|]. constructor; [done|constructor].
Qed.

(** The hooks of every plugin are in order, with orders already given out. *)
Definition registry_ok (r : Registry) : Prop :=
  0 <= rg_nextOrder r /\ forall name entry, rg_plugins r !! name = Some entry ->
    hooks_ok (rg_nextOrder r) (pe_mapHooks entry) /\ hooks_ok (rg_nextOrder r) (pe_reduceHooks entry).

Lemma hooks_ok_later {H} a b (hooks : list (hookEntry H)) : a <= b -> hooks_ok a hooks -> hooks_ok b hooks.
Proof. intros Hab [Ho Hp]. split; [done|]. eapply Forall_impl; [exact Hp|]. cbn. lia. Qed.

Lemma RegisterPlugin_ok r plugin r' : RegisterPlugin r plugin = Ok r' -> registry_ok r -> registry_ok r'.
Proof.
  intros (n & _ & E)%result_bind_ok [Hn Hr]. destruct (_ <=? _); [done|]. destruct (rg_plugins r !! _); [done|]. injection E as <-. split; [done|]. cbn [rg_plugins rg_nextOrder].
  intros name entry [[_ <-]|[_ He]]%lookup_insert_Some; [|by apply (Hr name)]. split; split; constructor.
Qed.

Lemma RegisterMapHook_ok r plugin priority h r' : RegisterMapHook r plugin priority h = Ok r' -> rg_nextOrder r < 2 ^ 64 - 1 -> registry_ok r -> registry_ok r'.
Proof.
  unfold RegisterMapHook. intros E Hb [Hn Hr]. destruct (rg_plugins r !! _) as [entry|] eqn:Ee; [|done]. destruct (_ <=? _); [done|]. injection E as <-. destruct (Hr _ _ Ee) as [H1 H2].
  pose proof (new_hook_ok (rg_nextOrder r) priority h _ H1 ltac:(lia)) as Hnew. assert (rg_nextOrder r <= u64 (rg_nextOrder r + 1)) as Hle by (rewrite u64_small by (unfold is_u; lia); lia).
  split; cbn [rg_plugins rg_nextOrder]; [lia|]. intros name e [[_ <-]|[_ He]]%lookup_insert_Some; [split; [done|by eapply hooks_ok_later]|].
  destruct (Hr _ _ He). split; by eapply hooks_ok_later.
Qed.

Lemma RegisterReduceHook_ok r plugin priority h r' : RegisterReduceHook r plugin priority h = Ok r' -> rg_nextOrder r < 2 ^ 64 - 1 -> registry_ok r -> registry_ok r'.
Proof.
  unfold RegisterReduceHook. intros E Hb [Hn Hr]. destruct (rg_plugins r !! _) as [entry|] eqn:Ee; [|done]. destruct (_ <=? _); [done|]. injection E as <-. destruct (Hr _ _ Ee) as [H1 H2].
  pose proof (new_hook_ok (rg_nextOrder r) priority h _ H2 ltac:(lia)) as Hnew. assert (rg_nextOrder r <= u64 (rg_nextOrder r + 1)) as Hle by (rewrite u64_small by (unfold is_u; lia); lia).
  split; cbn [rg_plugins rg_nextOrder]; [lia|]. intros name e [[_ <-]|[_ He]]%lookup_insert_Some; [split; [by eapply hooks_ok_later|done]|].
  destruct (Hr _ _ He). split; by eapply hooks_ok_later.
Qed.

(** ** The stages, one item after the other *)

Fixpoint map_all {A B} (f : A -> result mr_error B) (l : list A) : result mr_error (list B) :=
  match l with
  | [] => Ok []
  | x :: rest => let* b := f x in let* out := map_all f rest in Ok (b :: out)
  end.

Lemma run_from_map_all {A B} (f : A -> result mr_error B) d l : forall pre, run_from (fun i => f (nth i (pre ++ l) d)) (length pre) (length l) = map_all f l.
Proof.
  induction l as [|x l IH]; intros pre; [done|]. cbn [run_from length map_all]. rewrite nth_middle. destruct (f x) as [b|e]; [|done]. cbn [result_bind].
  specialize (IH (pre ++ [x])). rewrite <- app_assoc, length_app, Nat.add_1_r in IH. cbn [app] in IH. by rewrite IH.
Qed.

Lemma map_all_ok {A B} (f : A -> result mr_error B) l out : map_all f l = Ok out <-> Forall2 (fun x b => f x = Ok b) l out.
Proof.
  revert out. induction l as [|x l IH]; intros out; cbn [map_all].
  - split; [intros [= <-]; constructor|]. by inversion 1.
  - split.
    + intros (b & Hb & E)%result_bind_ok. apply result_bind_ok in E as (o & Ho & [= <-]). constructor; [done|]. by apply IH.
    + inversion 1 as [|? b ? o Hb Ho]; subst. rewrite Hb. cbn [result_bind]. by rewrite (proj2 (IH o) Ho).
Qed.

Lemma map_all_ext {A B} (f g : A -> result mr_error B) l : (forall x b, x ∈ l -> f x = Ok b -> g x = Ok b) -> forall out, map_all f l = Ok out -> map_all g l = Ok out.
Proof.
  intros Hfg out. rewrite !map_all_ok. intros H. induction H as [|x b l o Hx _ IH]; constructor; [apply Hfg; [by left|done]|]. apply IH. intros y c Hy. apply Hfg. by right.
Qed.

Lemma map_all_app {A B} (f : A -> result mr_error B) l l' out : map_all f (l ++ l') = Ok out <-> exists o o', map_all f l = Ok o /\ map_all f l' = Ok o' /\ out = o ++ o'.
Proof.
  rewrite map_all_ok. setoid_rewrite map_all_ok. split.
  - intros (o & o' & H1 & H2 & ->)%Forall2_app_inv_l. by exists o, o'.
  - intros (o & o' & H1 & H2 & ->). by apply Forall2_app.
Qed.

Lemma map_all_perm {A B} (f : A -> result mr_error B) l l' out : l ≡ₚ l' -> map_all f l = Ok out -> exists out', map_all f l' = Ok out' /\ out ≡ₚ out'.
Proof.
  intros Hp. setoid_rewrite map_all_ok. revert out. induction Hp as [|x l l' _ IH|x y l|l1 l2 l3 _ IH1 _ IH2]; intros out.
  - inversion 1; subst. exists []. split; [constructor|done].
  - inversion 1 as [|? b ? o Hb Ho]; subst. destruct (IH _ Ho) as (o' & Ho' & Hp). exists (b :: o'). split; [by constructor|by rewrite Hp].
  - inversion 1 as [|? b ? o Hb Ho]; subst. inversion Ho as [|? c ? o' Hc Ho']; subst. exists (c :: b :: o'). split; [by repeat constructor|apply Permutation_swap].
  - intros H1. destruct (IH1 _ H1) as (o & Ho & Hp1). destruct (IH2 _ Ho) as (o' & Ho' & Hp2). exists o'. split; [done|by rewrite Hp1].
Qed.

(** The meaning of a job. *)
Definition map_reduce (mapf : Rec -> result mr_error (list Rec)) (redf : bytes -> list bytes -> result mr_error Rec) (records : list Rec) : result mr_error (list Rec) :=
  let* outs := map_all mapf records in map_all (fun g => redf (g_Key g) (g_Values g)) (groups_of (concat outs)).

(** With a reduction that does not depend on the order of the values, neither does the job. *)
Lemma map_reduce_perm mapf redf records records' out : (forall k vs vs', vs ≡ₚ vs' -> redf k vs = redf k vs') -> records ≡ₚ records' ->
  map_reduce mapf redf records = Ok out -> map_reduce mapf redf records' = Ok out.
Proof.
  intros Hr Hp (outs & Hm & E)%result_bind_ok. destruct (map_all_perm _ _ _ _ Hp Hm) as (outs' & Hm' & Hpo). unfold map_reduce. rewrite Hm'. cbn [result_bind].
  assert (concat outs ≡ₚ concat outs') as Hc by (clear -Hpo; induction Hpo; cbn; [done|by apply Permutation_app_head|by rewrite !app_assoc, (Permutation_app_comm y x)|by etrans]).
  revert E. unfold groups_of. rewrite (keys_of_perm _ _ Hc). generalize (keys_of (concat outs')). intros ks. revert out.
  induction ks as [|k ks IH]; intros out; [done|]. cbn [fmap list_fmap map_all g_Key g_Values]. rewrite (Hr k _ _ (values_of_perm k _ _ Hc)).
  intros (b & Hb & E)%result_bind_ok. apply result_bind_ok in E as (o & Ho & [= <-]). by rewrite Hb, (IH _ Ho).
Qed.

(** ** The engine's stages *)

(** A worker's body, by its item. *)
Definition map_record (e : Engine) (m : OpenMetadata) (q : Request) (r : Rec) : result mr_error (list Rec) :=
  let* output := Registry_Map (e_registry e) (q_Plugin q) (mkMapInput (q_ID q) (m_SourceNode m) (m_TargetNode m) (q_Labels q) r) in
  match first_error validateRecord output with Some err => Err err | None => Ok output end.
Definition reduce_group (e : Engine) (m : OpenMetadata) (q : Request) (l : Limits) (group : Group) : result mr_error Rec :=
  if MaxValuesPerKey l <? len (g_Values group) then Err ErrLimitExceeded else
  let* output := Registry_Reduce (e_registry e) (q_Plugin q) (mkReduceInput (q_ID q) (m_SourceNode m) (m_TargetNode m) (q_Labels q) group) in
  match validateRecord output with Some err => Err err | None => Ok output end.

Lemma map_items e m q : run_from (map_item e m q) 0 (length (q_Records q)) = map_all (map_record e m q) (q_Records q).
Proof. exact (run_from_map_all (map_record e m q) no_record (q_Records q) []). Qed.

Lemma reduce_items e m q groups l : run_from (reduce_item e m q groups l) 0 (length groups) = map_all (reduce_group e m q l) groups.
Proof. exact (run_from_map_all (reduce_group e m q l) (mkGroup [] []) groups []). Qed.

Lemma collect_ok l results : forall out records, collect l out results = Ok records -> records = out ++ concat results.
Proof.
  induction results as [|r rest IH]; intros out records; cbn [collect concat]; [intros [= <-]; by rewrite app_nil_r|].
  destruct (validateOutput _ _); [done|]. intros E. apply IH in E as ->. by rewrite app_assoc.
Qed.

Lemma stage_parallel_positive q l : 0 < MaxParallel l -> (0 < stage_parallel q l)%nat.
Proof. intros Hl. unfold stage_parallel. repeat case_match; lia. Qed.

(** ** Any schedule against the sequential one *)

(** Success is the same success; a failure of the sequential run is a failure. *)
Definition agrees {A} (late : mr_error -> Prop) (r s : result mr_error A) : Prop :=
  match s with
  | Ok x => r = Ok x \/ exists e, r = Err e /\ late e
  | Err _ => exists e, r = Err e
  end.

Lemma agrees_refl {A} late (r : result mr_error A) : agrees late r r.
Proof. destruct r; [by left|by eexists]. Qed.

Lemma agrees_bind {A B} late (r s : result mr_error A) (k k' : A -> result mr_error B) : agrees late r s -> (forall x, agrees late (k x) (k' x)) -> agrees late (result_bind r k) (result_bind s k').
Proof.
  destruct s as [x|e]; cbn [agrees result_bind]; [|intros [f ->] _; by exists f]. intros [->|(f & -> & Hf)] Hk; [apply Hk|]. cbn [result_bind].
  destruct (k' x); [right; by exists f|by exists f].
Qed.

Lemma agrees_pool {B} late n (work : nat -> result mr_error B) r : pool_outcome late n work r -> agrees late r (run_from work 0 n).
Proof.
  intros Ho. destruct r as [l|e]; [rewrite (outcome_ok _ _ _ _ Ho); by left|]. destruct (run_from work 0 n) as [l|f] eqn:E; [right; exists e; split; [done|]|by exists e].
  by apply (outcome_err _ _ _ _ l Ho).
Qed.

Section Pools.
Context `{UnicodeTables} `{PoolsLaws mr_error}.
Let sequential := sequential_pools mr_error.

Lemma executeMap_agrees e m q l t : 0 < MaxParallel l -> agrees late_error (executeMap e m q l t) (@executeMap sequential e m q l t).
Proof. intros Hl. apply agrees_bind; [|intros; apply agrees_refl]. apply agrees_pool, run_pool_outcome. by apply stage_parallel_positive. Qed.

Lemma executeReduce_agrees e m q l t : 0 < MaxParallel l -> agrees late_error (executeReduce e m q l t) (@executeReduce sequential e m q l t).
Proof. intros Hl. apply agrees_bind; [|intros; apply agrees_refl]. apply agrees_pool, run_pool_outcome. by apply stage_parallel_positive. Qed.

Lemma execute_operation_agrees e m q l t : 0 < MaxParallel l -> agrees late_error (execute_operation e m q l t) (@execute_operation sequential e m q l t).
Proof.
  intros Hl. unfold execute_operation. destruct (str_eqb _ OperationDescribe); [apply agrees_refl|]. destruct (str_eqb _ OperationMap); [by apply executeMap_agrees|].
  destruct (str_eqb _ OperationReduce); [by apply executeReduce_agrees|]. destruct (str_eqb _ OperationRun); [|apply agrees_refl].
  apply agrees_bind; [by apply executeMap_agrees|]. intros mapped. apply agrees_bind; [apply agrees_refl|]. intros groups. by apply executeReduce_agrees.
Qed.

(** ** What a successful stage computes *)

Lemma executeMap_ok e m q l t out : 0 < MaxParallel l -> executeMap e m q l t = Ok out -> exists outs, map_all (map_record e m q) (q_Records q) = Ok outs /\ out = concat outs.
Proof.
  intros Hl (outs & Ho & Hc)%result_bind_ok. exists outs. apply collect_ok in Hc. split; [|done]. rewrite <- map_items.
  apply (outcome_ok late_error). rewrite <- Ho. apply run_pool_outcome. by apply stage_parallel_positive.
Qed.

Lemma executeReduce_ok e m q l t out : 0 < MaxParallel l -> executeReduce e m q l t = Ok out ->
  map_all (reduce_group e m q l) (sort_by (fun a b => str_ltb (g_Key a) (g_Key b)) (q_Groups q)) = Ok out.
Proof.
  intros Hl (outs & Ho & Hc)%result_bind_ok. destruct (validateOutput _ _); [done|]. injection Hc as <-. rewrite <- reduce_items.
  apply (outcome_ok late_error). rewrite <- Ho. apply run_pool_outcome. by apply stage_parallel_positive.
Qed.

(** What a successful call went through. *)
Lemma Execute_ok e metadata raw response : Execute e metadata raw = (response, None) ->
  exists m q d, validateMetadata e metadata = Ok m /\ NormalizeRequest raw = Ok q /\ Evaluate (Some (e_policy e)) (invocation e m q) = (d, None) /\
    rs_Decision response = d /\ rs_ID response = q_ID q /\ rs_Protocol response = ProtocolVersion /\ rs_Error response = None /\
    execute_operation e m q (d_Limits d) (stage_timeout q (d_Limits d)) = Ok (rs_Records response) /\
    validateOutput (rs_Records response) (d_Limits d) = None /\ 0 < MaxParallel (d_Limits d).
Proof.
  unfold Execute. destruct (validateMetadata e metadata) as [m|] eqn:Em; [|done]. destruct (NormalizeRequest raw) as [q|] eqn:Eq; [|done].
  destruct (Evaluate _ _) as [d [err|]] eqn:Ev; [done|]. destruct (execute_operation _ _ _ _ _) as [records|] eqn:Eo; [|done].
  intros [= <- Hv]. exists m, q, d. cbn. repeat (split; [done|]). apply (Evaluate_limits _ _ _ MaxParallel Ev). do 4 right. left.
Qed.

End Pools.

(** ** Dealing records to targets *)

Lemma concat_alter (r : Rec) : forall i (l : list (list Rec)), (i < length l)%nat -> concat (alter (fun p => p ++ [r]) i l) ≡ₚ r :: concat l.
Proof.
  induction i as [|i IH]; intros [|p l] Hi; cbn in *; try lia.
  - rewrite <- app_assoc. cbn. symmetry. apply Permutation_middle.
  - change (list_alter _ i l) with (alter (fun p => p ++ [r]) i l). rewrite IH by lia. symmetry. apply Permutation_middle.
Qed.

Lemma deal_length count records : forall index partitions, length (deal count index partitions records) = length partitions.
Proof. induction records as [|r rest IH]; intros; cbn [deal]; [done|]. rewrite IH. apply length_alter. Qed.

(** Every record is dealt once. *)
Lemma deal_perm count records : forall index partitions, (0 < count)%nat -> length partitions = count -> concat (deal count index partitions records) ≡ₚ concat partitions ++ records.
Proof.
  induction records as [|r rest IH]; intros index partitions Hc Hl; cbn [deal]; [by rewrite app_nil_r|]. rewrite IH; [|done|by rewrite length_alter].
  rewrite concat_alter by (rewrite Hl; apply Nat.mod_upper_bound; lia). cbn. apply Permutation_middle.
Qed.

Lemma target_loop_nodup raw : forall seen out, target_loop seen raw = Ok out -> NoDup out /\ forall t, t ∈ out -> t ∉ seen.
Proof.
  induction raw as [|t raw IH]; intros seen out; cbn [target_loop]; [intros [= <-]; split; [constructor|intros ? []%not_elem_of_nil]|].
  destruct (str_eqb _ []); [apply IH|]. destruct (negb _); [done|]. destruct (existsb _ seen) eqn:Ee; [apply IH|].
  intros (o & Ho & [= <-])%result_bind_ok. apply IH in Ho as [Hnd Hs]. split.
  - constructor; [|done]. intros Ht. apply Hs in Ht. apply Ht. by left.
  - intros x [->|Hx]%elem_of_cons; [|intros Hin; apply (Hs x Hx); by right]. intros Hin. apply not_true_iff_false in Ee. apply Ee, existsb_exists. exists (TrimSpace t).
    split; [by apply list_elem_of_In|apply str_eqb_refl].
Qed.

(** Filtering out the empty partitions keeps the records. *)
Lemma filter_parts (l : list (bytes * list Rec)) : concat (filter (fun tp => (0 <? len tp.2) = true) l).*2 = concat l.*2.
Proof.
  induction l as [|[t p] l IH]; [done|]. rewrite filter_cons. case_decide as Hd; cbn [fmap list_fmap snd concat]; [by rewrite IH|]. cbn [snd] in Hd.
  rewrite IH. destruct p; [done|]. exfalso. apply Hd. done.
Qed.

Lemma partitionTargets_ok raw records parts : partitionTargets raw records = Ok parts -> NoDup parts.*1 /\ concat parts.*2 ≡ₚ records.
Proof.
  intros (targets & Ht & E)%result_bind_ok. destruct (len targets =? 0) eqn:E0; [done|]. destruct (_ <? _); [done|]. cbn [orb] in E. injection E as <-.
  apply Z.eqb_neq in E0. assert (0 < length targets)%nat by (unfold len in E0; lia).
  set (partitions := deal (length targets) 0 (replicate (length targets) []) records).
  assert (length partitions = length targets) as Hl by (unfold partitions; by rewrite deal_length, length_replicate). split.
  - apply target_loop_nodup in Ht as [Hnd _]. rewrite <- (fst_zip targets partitions) in Hnd by lia. revert Hnd. generalize (zip targets partitions). intros l Hnd.
    apply (sublist_NoDup _ _ Hnd). apply fmap_sublist, sublist_filter.
  - rewrite filter_parts, snd_zip by lia. unfold partitions. rewrite deal_perm; [|done|apply length_replicate].
    assert (concat (replicate (length targets) (@nil Rec)) = []) as -> by (generalize (length targets); intros k; by induction k). done.
Qed.

End MapReduceProofs.
