(* ===== verification/MapReduceClaims.v ===== *)
(** * Map/reduce jobs: what the components guarantee

    The decision of a policy, a job on one node under any schedule, the same job
    spread over several nodes, and a call over a stream. *)

From S2P Require Import Prelude GoStrings GoEncoding MuxFrame Framing MapReduce WorkerPool MapReduceEngine MapReduceProofs.

Module MapReduceClaims.
Import GoStrings GoEncoding MapReduce WorkerPool MapReduceEngine MapReduceProofs.

(** ** Admission *)

Lemma usages_fit inv matching : Forall (fun uf => uf.1 inv <= uf.2 (effective_limits matching)) usages <->
  Forall (fun uf => uf.1 inv <= uf.2 HardLimits /\ Forall (fun r => uf.1 inv <= uf.2 (normalizeRuleLimits (u_Limits r))) matching) usages.
Proof.
  unfold usages. rewrite !Forall_cons. cbn [fst snd]. rewrite !effective_below by (unfold limit_fields; rewrite !elem_of_cons; tauto). rewrite !Forall_nil. done.
Qed.

(** C31: the decision on a well-formed request: it is admitted exactly when some
    rule matches, no matching rule denies, and the request stays within the hard
    limits and the limits of every matching rule; the decision then names the
    matching rules, and each of its limits is positive and at most the hard limit
    and every matching rule's.  Neither the outcome nor the limits depend on the
    order of the rules. *)
Theorem policy_admission p inv : invocation_valid inv = true ->
  let matching := matching_rules p inv in
  let '(d, err) := Evaluate (Some p) inv in
  (err = None <-> matching <> [] /\ Forall (fun r => u_Effect r <> EffectDeny) matching /\
     Forall (fun uf => uf.1 (trim_invocation inv) <= uf.2 HardLimits /\ Forall (fun r => uf.1 (trim_invocation inv) <= uf.2 (normalizeRuleLimits (u_Limits r))) matching) usages) /\
  (d_Allowed d = true <-> err = None) /\
  (err = None -> d_RuleNames d = u_Name <$> matching /\
     Forall (fun f => 0 < f (d_Limits d) <= f HardLimits /\ Forall (fun r => f (d_Limits d) <= f (normalizeRuleLimits (u_Limits r))) matching) limit_fields) /\
  (forall p', p_Rules p' ≡ₚ p_Rules p -> d_Allowed (Evaluate (Some p') inv).1 = d_Allowed d /\ (err = None -> d_Limits (Evaluate (Some p') inv).1 = d_Limits d)).
Proof.
  intros Hv. cbv zeta. destruct (Evaluate_cases p inv Hv) as [[Ha ->]|[Hn (d & e & -> & Hd)]].
  - split; [|split; [done|split]].
    + split; [intros _|done]. destruct Ha as (Hne & Hf & Hc). split; [done|]. split; [done|]. apply usages_fit. by apply checkInvocationLimits_ok.
    + intros _. cbn [d_RuleNames d_Limits]. split; [done|]. apply Forall_forall. intros f Hf.
      destruct (proj1 (effective_below _ f (matching_rules p inv) Hf) (Z.le_refl _)) as [? ?]. split; [split; [by apply effective_positive|done]|done].
    + intros p' Hp. apply matching_perm with (inv := inv) in Hp. destruct (Evaluate_cases p' inv Hv) as [[_ ->]|[Hn _]].
      * cbn. split; [done|]. intros _. by apply effective_perm.
      * exfalso. apply Hn. by apply (admits_perm _ (matching_rules p inv)).
  - split; [|split; [by rewrite Hd|split; [done|]]].
    + split; [done|]. intros (Hne & Hf & Hu). exfalso. apply Hn. split; [done|]. split; [done|]. by apply checkInvocationLimits_ok, usages_fit.
    + intros p' Hp. apply matching_perm with (inv := inv) in Hp. destruct (Evaluate_cases p' inv Hv) as [[Ha ->]|[_ (d' & e' & -> & Hd')]].
      * exfalso. apply Hn. by apply (admits_perm _ (matching_rules p' inv)).
      * cbn. split; [congruence|done].
Qed.

(** ** Jobs *)

(** A plugin that depends on nothing but the record, or the key and its values. *)
Record pure_plugin (reg : Registry) (plugin : bytes) (mapf : Rec -> result mr_error (list Rec)) (redf : bytes -> list bytes -> result mr_error Rec) : Prop := {
  pure_map : forall input, Registry_Map reg plugin input = mapf (mi_Record input);
  pure_reduce : forall input, Registry_Reduce reg plugin input = redf (g_Key (ri_Group input)) (g_Values (ri_Group input))
}.

Lemma NormalizeRequest_fields raw q : NormalizeRequest raw = Ok q ->
  q = mkRequest ProtocolVersion (TrimSpace (q_ID raw)) (q_Operation raw) (TrimSpace (q_Plugin raw)) (q_Records raw) (q_Groups raw) (q_Labels raw) (q_Parallel raw) (q_TimeoutMillis raw) (q_Fanout raw).
Proof.
  unfold NormalizeRequest. cbn [q_Protocol q_ID q_Operation q_Plugin q_Records q_Groups q_Labels q_Parallel q_TimeoutMillis q_Fanout].
  destruct (str_eqb_spec (if str_eqb (q_Protocol raw) [] then ProtocolVersion else q_Protocol raw) ProtocolVersion) as [->|]; [|done]. cbn [negb orb].
  repeat case_match; congruence.
Qed.

Lemma NormalizeRequest_idemp raw q : NormalizeRequest raw = Ok q -> NormalizeRequest q = Ok q.
Proof.
  intros E. pose proof (NormalizeRequest_fields _ _ E) as ->. revert E. unfold NormalizeRequest.
  cbn [q_Protocol q_ID q_Operation q_Plugin q_Records q_Groups q_Labels q_Parallel q_TimeoutMillis q_Fanout]. rewrite !TrimSpace_idemp. change (str_eqb ProtocolVersion []) with false.
  destruct (str_eqb_spec (if str_eqb (q_Protocol raw) [] then ProtocolVersion else q_Protocol raw) ProtocolVersion) as [->|]; [|done]. by rewrite str_eqb_refl.
Qed.

Lemma map_record_pure e m q mapf redf r o : pure_plugin (e_registry e) (q_Plugin q) mapf redf -> map_record e m q r = Ok o -> mapf r = Ok o.
Proof. intros [Hm _] (o' & Ho & E)%result_bind_ok. rewrite Hm in Ho. cbn in Ho. case_match; congruence. Qed.

Lemma reduce_group_pure e m q l mapf redf g o : pure_plugin (e_registry e) (q_Plugin q) mapf redf -> reduce_group e m q l g = Ok o -> redf (g_Key g) (g_Values g) = Ok o.
Proof. intros [_ Hr]. unfold reduce_group. destruct (_ <? _); [done|]. intros (o' & Ho & E)%result_bind_ok. rewrite Hr in Ho. cbn in Ho. case_match; congruence. Qed.

Section Jobs.
Context `{UnicodeTables} `{PoolsLaws mr_error}.

Section Node.
Context (e : Engine) (metadata : OpenMetadata) (raw : Request) (response : Response) (Hok : Execute e metadata raw = (response, None)).
Context (mapf : Rec -> result mr_error (list Rec)) (redf : bytes -> list bytes -> result mr_error Rec) (Hpure : pure_plugin (e_registry e) (TrimSpace (q_Plugin raw)) mapf redf).

Lemma map_call : q_Operation raw = OperationMap -> exists outs, map_all mapf (q_Records raw) = Ok outs /\ rs_Records response = concat outs.
Proof using All.
  intros Ho. apply Execute_ok in Hok as (m & q & d & _ & Hn & _ & _ & _ & _ & _ & He & _ & Hp). pose proof (NormalizeRequest_fields _ _ Hn) as Hq.
  unfold execute_operation in He. assert (q_Operation q = OperationMap) as Eo by (by subst q). rewrite Eo in He.
  change (executeMap e m q (d_Limits d) (stage_timeout q (d_Limits d)) = Ok (rs_Records response)) in He. apply executeMap_ok in He as (outs & Hm & ->); [|done].
  exists outs. split; [|done]. assert (q_Records q = q_Records raw) as <- by (by subst q). revert Hm. apply map_all_ext. intros r o _. apply (map_record_pure _ _ _ _ redf). by subst q.
Qed.

Lemma reduce_call : q_Operation raw = OperationReduce ->
  map_all (fun g => redf (g_Key g) (g_Values g)) (sort_by (fun a b => str_ltb (g_Key a) (g_Key b)) (q_Groups raw)) = Ok (rs_Records response).
Proof using All.
  intros Ho. apply Execute_ok in Hok as (m & q & d & _ & Hn & _ & _ & _ & _ & _ & He & _ & Hp). pose proof (NormalizeRequest_fields _ _ Hn) as Hq.
  unfold execute_operation in He. assert (q_Operation q = OperationReduce) as Eo by (by subst q). rewrite Eo in He.
  change (executeReduce e m q (d_Limits d) (stage_timeout q (d_Limits d)) = Ok (rs_Records response)) in He. apply executeReduce_ok in He; [|done].
  assert (q_Groups q = q_Groups raw) as <- by (by subst q). revert He. apply map_all_ext. intros g o _. apply (reduce_group_pure _ _ _ _ mapf). by subst q.
Qed.

Lemma run_call : q_Operation raw = OperationRun -> map_reduce mapf redf (q_Records raw) = Ok (rs_Records response).
Proof using All.
  intros Ho. apply Execute_ok in Hok as (m & q & d & _ & Hn & _ & _ & _ & _ & _ & He & _ & Hp). pose proof (NormalizeRequest_fields _ _ Hn) as Hq.
  unfold execute_operation in He. assert (q_Operation q = OperationRun) as Eo by (by subst q). rewrite Eo in He. set (t := stage_timeout _ _) in He.
  change (result_bind (executeMap e m q (d_Limits d) t) (fun mapped => result_bind (GroupRecords mapped (MaxValuesPerKey (d_Limits d)))
    (fun groups => executeReduce e m (reduce_request q groups) (d_Limits d) t)) = Ok (rs_Records response)) in He.
  apply result_bind_ok in He as (mapped & Hm & He). apply result_bind_ok in He as (groups & Hg & He).
  apply executeMap_ok in Hm as (outs & Hm & ->); [|done]. pose proof (GroupRecords_spec (concat outs) (MaxValuesPerKey (d_Limits d))) as Hs. rewrite Hg in Hs. destruct Hs as [-> _].
  apply executeReduce_ok in He; [|done]. cbn [reduce_request q_Groups] in He. rewrite groups_of_sorted in He. unfold map_reduce.
  assert (map_all mapf (q_Records raw) = Ok outs) as ->.
  { assert (q_Records q = q_Records raw) as <- by (by subst q). revert Hm. apply map_all_ext. intros r o _. apply (map_record_pure _ _ _ _ redf). by subst q. }
  revert He. apply map_all_ext. intros g o _. apply (reduce_group_pure _ _ _ _ mapf). by subst q.
Qed.

End Node.

(** The schedule of the workers does not matter: whatever a node's pools did,
    a request that succeeds one item after the other succeeds with the same
    response, unless its context was done; and a request that fails one item after
    the other fails. *)
Theorem execute_any_schedule e metadata raw :
  let '(r, err) := Execute e metadata raw in let '(r0, err0) := @Execute _ (sequential_pools mr_error) e metadata raw in
  (err0 = None -> (err = None /\ r = r0) \/ exists x, err = Some x /\ late_error x) /\ (err0 <> None -> err <> None).
Proof.
  unfold Execute. destruct (validateMetadata e metadata) as [m|]; [|done]. destruct (NormalizeRequest raw) as [q|]; [|done]. destruct (Evaluate _ _) as [d [err|]] eqn:Ev; [done|].
  assert (0 < MaxParallel (d_Limits d)) as Hp by (apply (Evaluate_limits _ _ _ MaxParallel Ev); do 4 right; left).
  pose proof (execute_operation_agrees e m q (d_Limits d) (stage_timeout q (d_Limits d)) Hp) as Ha.
  destruct (@execute_operation (sequential_pools mr_error) _ _ _ _ _) as [records0|err0].
  - destruct Ha as [->|(x & -> & Hx)]; [split; [intros; by left|done]|]. split; [intros _; right; by exists x|done].
  - destruct Ha as [x ->]. done.
Qed.

(** ** Several nodes *)

(** A call that a node's engine answers. *)
Definition node_call (engines : bytes -> Engine) (metadata : bytes -> OpenMetadata) (target : bytes) (q : Request) : result mr_error Response :=
  match Execute (engines target) (metadata target) q with
  | (response, None) => Ok response
  | (_, Some err) => Err err
  end.

Lemma mapped_parts (mapf : Rec -> result mr_error (list Rec)) l mapped : Forall2 (fun part m => exists outs, map_all mapf part = Ok outs /\ m = concat outs) l mapped ->
  exists outs, map_all mapf (concat l) = Ok outs /\ concat mapped = concat outs.
Proof.
  induction 1 as [|p m l ms (o & Ho & ->) _ (os & Hos & IH)]; [by exists []|]. cbn [concat]. exists (o ++ os). split; [apply map_all_app; by exists o, os|]. by rewrite concat_app, IH.
Qed.

(** The calls of the map phase. *)
Lemma fan_parts engines metadata mapf redf spec plugin jobID fanout parts mapped : (forall t, pure_plugin (e_registry (engines t)) plugin mapf redf) -> TrimSpace plugin = plugin ->
  run_fan (list Rec) [] (length parts) (fun index => let '(target, records) := nth index parts ([], []) in
    let* response := node_call engines metadata target (map_request spec plugin jobID fanout index records) in Ok (rs_Records response)) = Ok mapped ->
  Forall2 (fun part m => exists outs, map_all mapf part = Ok outs /\ m = concat outs) parts.*2 mapped.
Proof.
  intros Hpure Htrim E. pose proof (run_fan_outcome (list Rec) [] (length parts) (fun index => let '(target, records) := nth index parts ([], []) in
    let* response := node_call engines metadata target (map_request spec plugin jobID fanout index records) in Ok (rs_Records response))) as Ho. rewrite E in Ho. destruct Ho as [Hl Hw].
  apply Forall2_fmap_l, Forall2_same_length_lookup. split; [done|]. intros i [target records] m Hi Hm. apply Hw in Hm. rewrite (nth_lookup_Some _ _ _ _ Hi) in Hm.
  apply result_bind_ok in Hm as (response & Hc & [= <-]). unfold node_call in Hc. destruct (Execute _ _ _) as [r [err|]] eqn:Ee; [done|]. injection Hc as ->.
  apply (map_call _ _ _ _ Ee mapf redf); [|done]. cbn [map_request q_Plugin]. rewrite Htrim. apply Hpure.
Qed.

(** What the coordinator asks of a job before it calls anyone. *)
Definition job_ok (spec : JobSpec) : Prop :=
  validName (TrimSpace (j_Plugin spec)) = true /\ 0 < len (j_Records spec) <= MaxRecords /\ validateLabels (j_Labels spec) = None /\
  exists parts, partitionTargets (j_MapTargets spec) (j_Records spec) = Ok parts /\
    let reduceTarget := if str_eqb (TrimSpace (j_ReduceTarget spec)) [] then default [] (head parts.*1) else TrimSpace (j_ReduceTarget spec) in
    validNodeName reduceTarget = true /\ uniqueCount (parts.*1 ++ [reduceTarget]) <= MaxFanout HardLimits.

(** The reasons for which a job may fail: it is malformed, a context was done, a
    node refused or failed its part, or a key has too many values. *)
Definition job_failure engines metadata mapf (spec : JobSpec) (e : mr_error) : Prop :=
  ~ job_ok spec \/ late_error e \/
  (exists target q, node_call engines metadata target q = Err e /\ q_Plugin q = TrimSpace (j_Plugin spec) /\ (q_Operation q = OperationMap \/ q_Operation q = OperationReduce)) \/
  (e = ErrLimitExceeded /\ exists dealt outs k, dealt ≡ₚ j_Records spec /\ map_all mapf dealt = Ok outs /\ MaxValuesPerGroup < len (values_of k (concat outs))).

Lemma Coordinator_Run_cases engines metadata mapf redf jobID spec :
  (forall t, pure_plugin (e_registry (engines t)) (TrimSpace (j_Plugin spec)) mapf redf) ->
  match Coordinator_Run (node_call engines metadata) jobID spec with
  | Ok out => exists dealt, dealt ≡ₚ j_Records spec /\ map_reduce mapf redf dealt = Ok out
  | Err e => job_failure engines metadata mapf spec e
  end.
Proof.
  intros Hpure. unfold Coordinator_Run, job_failure, job_ok. destruct (validName _); cbn [negb orb]; [|left; naive_solver].
  destruct (Z.eqb_spec (len (j_Records spec)) 0); cbn [orb]; [left; lia|]. destruct (Z.ltb_spec MaxRecords (len (j_Records spec))); [left; lia|].
  destruct (validateLabels _); [left; naive_solver|]. destruct (partitionTargets _ _) as [parts|e0] eqn:Hparts; cbn [result_bind]; [|left; naive_solver].
  destruct (validNodeName _) eqn:Hnode; cbn [negb]; [|left; intros (_ & _ & _ & ? & [= <-] & ? & _); congruence].
  destruct (Z.ltb_spec (MaxFanout HardLimits) (uniqueCount (parts.*1 ++ [if str_eqb (TrimSpace (j_ReduceTarget spec)) [] then default [] (head parts.*1) else TrimSpace (j_ReduceTarget spec)]))) as [Hfan|_];
    [left; intros (_ & _ & _ & ? & [= <-] & _ & ?); lia|].
  apply partitionTargets_ok in Hparts as [_ Hperm]. destruct (run_fan _ _ _ _) as [mapped|e] eqn:Hm; cbn [result_bind].
  2:{ right. match type of Hm with run_fan ?B ?z ?n ?w = _ => pose proof (run_fan_outcome B z n w) as Ho end. rewrite Hm in Ho. destruct Ho as [?|(i & _ & He)]; [by left|right; left].
    destruct (nth i parts ([], [])) as [target records]. destruct (node_call _ _ _ _) as [|e'] eqn:Ec in He; cbn [result_bind] in He; [done|]. injection He as ->. eexists _, _. split; [exact Ec|]. split; [done|by left]. }
  apply (fan_parts _ _ mapf redf) in Hm; [|done|apply TrimSpace_idemp]. apply mapped_parts in Hm as (outs & Hm & Ec).
  pose proof (GroupRecords_spec (concat mapped) MaxValuesPerGroup) as Hs. destruct (GroupRecords _ _) as [groups|e]; cbn [result_bind].
  2:{ destruct Hs as [-> [k Hk]]. do 3 right. split; [done|]. exists (concat parts.*2), outs, k. rewrite <- Ec. done. }
  rewrite Ec in Hs. destruct Hs as [-> _]. destruct (node_call _ _ _ _) as [response|e] eqn:Hc; cbn [result_bind].
  2:{ right; right; left. eexists _, _. split; [exact Hc|]. split; [done|by right]. }
  exists (concat parts.*2). split; [done|]. unfold map_reduce. rewrite Hm. cbn [result_bind]. unfold node_call in Hc. destruct (Execute _ _ _) as [r [err|]] eqn:Ee; [done|]. injection Hc as ->.
  rewrite <- (groups_of_sorted (concat outs)). apply (reduce_call _ _ _ _ Ee mapf redf); [|done]. cbn [q_Plugin]. rewrite TrimSpace_idemp. apply Hpure.
Qed.


(** ** A call over a stream *)

Lemma message_roundtrip payload out rest : writeFrame payload = Ok out -> readFrame (out ++ rest) = Ok (payload, rest).
Proof.
  unfold writeFrame, readFrame, Framing.mapreduce_readFrame. destruct (Z.eqb_spec (len payload) 0); [done|]. destruct (Z.ltb_spec MaxMessageBytes (len payload)) as [|Hm]; [done|]. cbn [orb].
  intros E. assert (out = be_put 4 (len payload) ++ payload) as -> by (by injection E as <-). pose proof (len_nonneg payload). change MaxMessageBytes with 16777216 in Hm.
  rewrite <- app_assoc, Framing.read_frame_written; [done| |]; unfold Framing.mapreduce_MaxMessageBytes; lia.
Qed.

(** What the codec of the package writes without an error is this frame. *)
Lemma writeFrame_wire script payload out script' : Framing.mapreduce_writeFrame script payload = Some (Ok tt, out, script') -> writeFrame payload = Ok out.
Proof.
  intros [Hl ->]%Framing.write_frame_ok. unfold writeFrame. change Framing.mapreduce_MaxMessageBytes with MaxMessageBytes in Hl.
  destruct (Z.eqb_spec (len payload) 0); [lia|]. destruct (Z.ltb_spec MaxMessageBytes (len payload)); [lia|]. done.
Qed.

(** A normal request is sent as it is. *)
Lemma same_request q : NormalizeRequest q = Ok q ->
  mkRequest ProtocolVersion (q_ID q) (q_Operation q) (q_Plugin q) (q_Records q) (q_Groups q) (q_Labels q) (q_Parallel q) (q_TimeoutMillis q) (q_Fanout q) = q.
Proof. intros Hq%NormalizeRequest_fields. destruct q. cbn in *. congruence. Qed.

(** What the server answered, as the client reads it. *)
Definition served `{MessageCodec} (e : Engine) (metadataRaw sent : bytes) : bytes := match Serve e metadataRaw sent with Ok out => out | Err _ => [] end.

Definition reply `{MessageCodec} (q : Request) (result : Response * option mr_error) : Response :=
  match result.2 with None => result.1 | Some err => errorResponse (q_ID q) err (rs_Decision result.1) end.

(** A call over a stream is the engine's execution: the client of a request
    that the server's engine executes gets exactly the engine's response, and an
    error when the engine refuses or fails; the answer is never taken for another
    request's.  Messages have to fit a frame, and their JSON texts to decode to
    what was encoded. *)
Theorem call_reaches_engine `{MessageCodec} e metadataRaw metadata request q (result := Execute e metadata q) :
  NormalizeRequest request = Ok q -> ParseOpenMetadata metadataRaw = Ok metadata ->
  is_ok (writeRequest q) = true -> unmarshal_request (marshal_request q) = Some q ->
  is_ok (writeResponse (reply q result)) = true -> unmarshal_response (marshal_response (reply q result)) = Some (reply q result) ->
  CallStream (served e metadataRaw) request = match result.2 with None => Ok result.1 | Some _ => Err ErrWire end.
Proof.
  intros Hn Hp Hw Hu Hw' Hu'. pose proof (NormalizeRequest_idemp _ _ Hn) as Hi.
  unfold CallStream. rewrite Hn. cbn [result_bind]. destruct (writeRequest q) as [sent|] eqn:Es; [|done]. cbn [result_bind].
  unfold writeRequest in Es. rewrite (same_request q Hi) in Es. unfold served, Serve. rewrite Hp. cbn [result_bind]. unfold readRequest. rewrite <- (app_nil_r sent), (message_roundtrip _ _ [] Es).
  cbn [result_bind]. rewrite Hu, Hi. unfold result, reply in *. pose proof (Execute_ok e metadata q) as Hok. destruct (Execute e metadata q) as [r [err|]]; cbn [fst snd] in *.
  - destruct (writeResponse _) as [out|] eqn:Eo; [|done]. change (writeFrame (marshal_response (errorResponse (q_ID q) err (rs_Decision r))) = Ok out) in Eo.
    unfold readResponse. rewrite <- (app_nil_r out), (message_roundtrip _ _ [] Eo). cbn [result_bind]. rewrite Hu'. cbn [rs_Protocol errorResponse]. rewrite !str_eqb_refl. cbn [negb result_bind rs_ID rs_Error]. rewrite str_eqb_refl. done.
  - destruct (Hok r eq_refl) as (m & q' & d & _ & Hn' & _ & _ & Hid & Hpr & Her & _). rewrite Hi in Hn'. injection Hn' as <-.
    destruct (writeResponse r) as [out|] eqn:Eo; [|done]. unfold writeResponse in Eo. replace (mkResponse _ _ _ _ _ _) with r in Eo by (destruct r; cbn in *; congruence).
    unfold readResponse. rewrite <- (app_nil_r out), (message_roundtrip _ _ [] Eo). cbn [result_bind]. rewrite Hu', Hpr, str_eqb_refl. cbn [negb result_bind]. by rewrite Hid, str_eqb_refl, Her.
Qed.

End Jobs.

(** ** A concrete job

    Counting: the map emits its record, or nothing for the key [skip]; the
    reduction counts the values of a key. *)

#[local] Existing Instance latin1_tables.

Definition count_map (r : Rec) : result mr_error (list Rec) := Ok (if str_eqb (r_Key r) (str "skip") then [] else [r]).
Definition count_reduce (k : bytes) (vs : list bytes) : result mr_error Rec := Ok (mkRec k [len vs]).
Definition count_plugin : Plugin :=
  mkPlugin (mkDescriptor (str "count") (str "1") []) (Some (fun input => count_map (mi_Record input))) (Some (fun input => count_reduce (g_Key (ri_Group input)) (g_Values (ri_Group input)))).
Definition count_registry : Registry := match RegisterPlugin NewRegistry count_plugin with Ok r => r | Err _ => NewRegistry end.
Definition allow_all : Rule := mkRule (str "all") EffectAllow [star] [] [star] [star] [OperationMap; OperationReduce; OperationRun] ∅ no_limits.
Definition deny_probe : Rule := mkRule (str "probe") EffectDeny [str "n2"] [] [star] [star] [OperationRun] ∅ no_limits.
Definition small_rule : Rule := mkRule (str "small") EffectAllow [star] [] [star] [star] [OperationRun] ∅ (mkLimits 10 0 0 0 2 0 0 0).
Definition job_policy : Policy := mkPolicy PolicyVersion EffectDeny [allow_all; small_rule; deny_probe] [].
Definition job_engine (node : bytes) : Engine := mkEngine (mkTopology (repeat 97 64) [str "n1"; str "n2"] node) count_registry job_policy.
Definition job_metadata (target : bytes) : OpenMetadata := mkMetadata [] (str "n1") (str "binding") (repeat 97 64) target.
Definition job_records : list Rec := [mkRec (str "b") [1]; mkRec (str "a") [2]; mkRec (str "b") [3]].
Definition job_request : Request := mkRequest [] (str "job") OperationRun (str "count") job_records [] ∅ 2 0 0.
Definition job_spec (records : list Rec) : JobSpec := mkJobSpec (str "count") records [str "n1"; str "n2"] (str "n2") ∅ 0 0.
Definition job_invocation : Invocation := mkInvocation (str "n1") (str "n2") (str "origin") OperationRun (str "count") ∅ 3 6 2 0 0.

Lemma policy_admission_witness : d_Limits (Evaluate (Some (mkPolicy PolicyVersion EffectDeny [deny_probe; small_rule; allow_all] [])) job_invocation).1
  = mkLimits 10 MaxMessageBytes MaxRecords MaxMessageBytes 2 64 600000 MaxValuesPerGroup.
Proof.
  pose proof (policy_admission job_policy job_invocation ltac:(vm_compute; reflexivity)) as Hp. cbv zeta in Hp.
  assert (Evaluate (Some job_policy) job_invocation = (mkDecision true [str "all"; str "small"] (mkLimits 10 MaxMessageBytes MaxRecords MaxMessageBytes 2 64 600000 MaxValuesPerGroup) [], None)) as E
    by (vm_compute; reflexivity).
  rewrite E in Hp. destruct Hp as (_ & _ & _ & Hperm). apply Hperm; [|reflexivity]. cbn [p_Rules job_policy].
  etrans; [apply Permutation_swap|]. etrans; [apply perm_skip, Permutation_swap|]. apply Permutation_swap.
Defined.

(** Pools whose context is done at once. *)
Definition late_pools : Pools mr_error := {|
  run_pool B _ _ _ n work := Err ErrDeadlineExceeded;
  run_fan B _ n work := Err ErrDeadlineExceeded;
  late_error e := e = ErrDeadlineExceeded
|}.
Lemma late_laws : @PoolsLaws mr_error late_pools.
Proof. split; intros; by left. Qed.

Lemma execute_any_schedule_witness : (@Execute _ late_pools (job_engine (str "n2")) (job_metadata (str "n2")) job_request).2 = Some ErrDeadlineExceeded.
Proof.
  pose proof (@execute_any_schedule _ late_pools late_laws (job_engine (str "n2")) (job_metadata (str "n2")) job_request) as Hs.
  assert ((@Execute _ (sequential_pools mr_error) (job_engine (str "n2")) (job_metadata (str "n2")) job_request).2 = None) as E0 by (vm_compute; reflexivity).
  assert ((@Execute _ late_pools (job_engine (str "n2")) (job_metadata (str "n2")) job_request).2 <> None) as E1 by (vm_compute; discriminate).
  destruct (@Execute _ late_pools _ _ _) as [r err], (@Execute _ (sequential_pools mr_error) _ _ _) as [r0 err0]. cbn in E0, E1 |- *.
  destruct Hs as [Hs _]. destruct (Hs E0) as [[Hn _]|(x & -> & ->)]; [contradiction (E1 Hn)|reflexivity].
Defined.

Lemma count_pure t : pure_plugin (e_registry (job_engine t)) (TrimSpace (str "count")) count_map count_reduce.
Proof. split; intros input; vm_compute; reflexivity. Qed.


(** A codec for the two messages of one call. *)
Definition sent_request : Request := match NormalizeRequest job_request with Ok q => q | Err _ => job_request end.
Definition sent_reply : Response := (@Execute _ (sequential_pools mr_error) (job_engine (str "n2")) (job_metadata (str "n2")) sent_request).1.
#[local] Instance job_codec : MessageCodec := {|
  marshal_request _ := [1];
  unmarshal_request payload := if str_eqb payload [1] then Some sent_request else None;
  marshal_response _ := [2];
  unmarshal_response payload := if str_eqb payload [2] then Some sent_reply else None;
  unmarshal_metadata payload := if str_eqb payload [3] then Some (mkMetadata OpenProtocolVersion (str "n1") (str "binding") (repeat 97 64) (str "n2")) else None;
  error_text _ := []
|}.

Lemma call_reaches_engine_witness : @CallStream (@job_codec) (@served _ (sequential_pools mr_error) job_codec (job_engine (str "n2")) [3]) job_request = Ok sent_reply.
Proof.
  refine (@call_reaches_engine _ (sequential_pools mr_error) job_codec (job_engine (str "n2")) [3] (mkMetadata OpenProtocolVersion (str "n1") (str "binding") (repeat 97 64) (str "n2"))
    job_request sent_request _ _ _ _ _ _); vm_compute; reflexivity.
Defined.

(** ** Two observations *)

(** A job whose map emits nothing: a single node answers with no records, the
    coordinator fails with the reduce request it made itself. *)
Lemma empty_map_divergence : let records := [mkRec (str "skip") [1]] in
  (@Execute _ (sequential_pools mr_error) (job_engine (str "n2")) (job_metadata (str "n2")) (mkRequest [] (str "job") OperationRun (str "count") records [] ∅ 0 0 0)).2 = None /\
  @Coordinator_Run (sequential_pools mr_error) (@node_call _ (sequential_pools mr_error) job_engine job_metadata) (str "id") (job_spec records) = Err ErrInvalidRequest.
Proof. vm_compute. split; reflexivity. Qed.

(** A rule that requires a label with an empty value matches requests without the label. *)
Lemma empty_label_matches_absent : ruleMatches (mkRule (str "r") EffectAllow [star] [] [star] [star] [OperationRun] {[ str "tier" := [] ]} no_limits) job_invocation = true.
Proof. vm_compute. reflexivity. Qed.

End MapReduceClaims.
