(* ===== verification/SessionRoute.v ===== *)
(** * Route registries and the router (sessionroute)

    registry.go, lease_store.go and router.go: name resolution inside a signed
    topology, the legacy registry and the generation-aware lease registry with
    their atomic file updates, selection of the adjacent broker, and the
    router's plan and dial loop. *)

From S2P Require Import Prelude GoStrings Sha256 GoEncoding AuthProof NodeContext SessionLink MuxFrame.

Module SessionRoute.
Import GoStrings GoEncoding AuthProof NodeContext SessionLink.

(** ** Errors and shared helpers (registry.go) *)

Inductive route_error : Type :=
| ErrNoRoute
| ErrInvalidEntry
| ErrRegistryBusy
| ErrTargetLocal
| ErrTargetUnknown
| ErrTooLarge
| ErrDecode
| ErrVersion
| ErrNotRoutable
| ErrAuth (e : auth_error)
| ErrLink (e : link_error)
| ErrIO
| ErrDial
| ErrPanic.

Definition indexOf (values : list bytes) (want : bytes) : Z := index_from 0 values want.

Fixpoint sameStrings (left right : list bytes) : bool :=
  match left, right with
  | [], [] => true
  | a :: l, b :: r => str_eqb a b && sameStrings l r
  | _, _ => false
  end.

(** Indexing a slice; the callers check the bounds first. *)
Definition at_index (l : list bytes) (i : Z) : option bytes := if i <? 0 then None else l !! Z.to_nat i.

(** A registry as it is read from or written to its file. *)
Record Registry (E : Type) := mkRegistry {
  r_version : bytes;
  Entries : list E
}.
Arguments mkRegistry {E}.
Arguments r_version {E}.
Arguments Entries {E}.

(** The system call that fails, if any, in the order they are made. *)
Inductive io_point : Type :=
| IoMkdir | IoLock | IoBusy | IoRead | IoCreate | IoChmod | IoWrite | IoSync | IoClose | IoRename.

#[global] Instance io_point_eq_dec : EqDecision io_point.
Proof. solve_decision. Defined.

Section Unicode.
Context `{UnicodeTables}.

Definition relative_names : list (list bytes) :=
  [[str "self"; str "local"; str "here"; str "this"; str "current"; str "."];
   [str "previous"; str "prev"]; [str "next"]; [str "endpoint"; str "last"; str "remote"]].

Definition ResolveNode (ctx0 : NodeContext) (raw : bytes) : result route_error (bytes * Z) :=
  let ctx := Normalized ctx0 in
  let current := indexOf (Nodes ctx) (CurrentNode ctx) in
  let name := TrimSpace raw in
  let key := ToLower name in
  let* name :=
    if one_of key (nth 0 relative_names []) then Ok (CurrentNode ctx) else
    if one_of key (nth 1 relative_names []) then
      if current <=? 0 then Err ErrTargetUnknown
      else match at_index (Nodes ctx) (current - 1) with Some n => Ok n | None => Err ErrPanic end else
    if one_of key (nth 2 relative_names []) then
      if (current <? 0) || (len (Nodes ctx) <=? current + 1) then Err ErrTargetUnknown
      else match at_index (Nodes ctx) (current + 1) with Some n => Ok n | None => Err ErrPanic end else
    if one_of key (nth 3 relative_names []) then
      if len (Nodes ctx) =? 0 then Err ErrTargetUnknown
      else match at_index (Nodes ctx) (len (Nodes ctx) - 1) with Some n => Ok n | None => Err ErrPanic end
    else Ok name in
  let index := indexOf (Nodes ctx) name in
  if index <? 0 then Err ErrTargetUnknown else Ok (name, index).

(** ** The legacy registry (registry.go) *)

Record Entry := mkEntry {
  e_version : bytes;
  Binding : bytes;
  Socket : bytes;
  e_local : bytes;
  e_peer : bytes;
  e_chain_id : bytes;
  e_chain : bytes;
  e_topology : list bytes;
  LocalIndex : Z;
  PeerIndex : Z;
  PID : Z;
  StartedAt : Z
}.

Definition RegistryVersion : bytes := str "weaverssh.route-registry.v1".
Definition maxRegistryBytes : Z := 1048576.

Definition normalizeEntry (e : Entry) : Entry :=
  mkEntry (or_default (e_version e) RegistryVersion) (TrimSpace (Binding e)) (TrimSpace (Socket e))
    (TrimSpace (e_local e)) (TrimSpace (e_peer e)) (TrimSpace (e_chain_id e)) (ToLower (TrimSpace (e_chain e)))
    (TrimSpace <$> e_topology e) (LocalIndex e) (PeerIndex e) (PID e) (StartedAt e).

(** The two indices name the two nodes and are adjacent. *)
Definition indices_ok (topology : list bytes) (localIndex peerIndex : Z) (localNode peerNode : bytes) : bool :=
  negb ((localIndex <? 0) || (peerIndex <? 0) || (len topology <=? localIndex) || (len topology <=? peerIndex) ||
        negb (bool_decide (at_index topology localIndex = Some localNode)) ||
        negb (bool_decide (at_index topology peerIndex = Some peerNode)) ||
        negb (Z.abs (localIndex - peerIndex) =? 1)).

Definition validateEntry (e : Entry) : option route_error :=
  if negb (str_eqb (e_version e) RegistryVersion) || str_eqb (Binding e) [] || str_eqb (Socket e) [] ||
     str_eqb (e_local e) [] || str_eqb (e_peer e) [] || str_eqb (e_chain_id e) [] ||
     negb (len (e_chain e) =? 64) || (len (e_topology e) <? 2) || (PID e <=? 0) || IsZero (StartedAt e)
  then Some ErrInvalidEntry else
  if negb (indices_ok (e_topology e) (LocalIndex e) (PeerIndex e) (e_local e) (e_peer e))
  then Some ErrInvalidEntry else None.

(** ** The lease registry (lease_store.go) *)

Record LeaseEntry := mkLease {
  l_version : bytes;
  l_link : bytes;
  l_transport : bytes;
  l_generation : Z;
  l_binding : bytes;
  l_socket : bytes;
  l_local : bytes;
  l_peer : bytes;
  l_chain_id : bytes;
  l_chain : bytes;
  l_topology : list bytes;
  l_local_index : Z;
  l_peer_index : Z;
  l_pid : Z;
  l_started : Z;
  l_updated : Z;
  l_until : Z
}.

Definition LeaseRegistryVersion : bytes := str "weaverssh.route-leases.v1".
Definition maxLeaseRegistryBytes : Z := 1048576.

Definition LeaseEntry_Token (e : LeaseEntry) : Token := mkToken (l_link e) (l_transport e) (l_generation e).

Definition LegacyEntry (e : LeaseEntry) : Entry :=
  mkEntry RegistryVersion (l_binding e) (l_socket e) (l_local e) (l_peer e) (l_chain_id e) (l_chain e)
    (l_topology e) (l_local_index e) (l_peer_index e) (l_pid e) (l_started e).

Definition normalizeLeaseEntry (e : LeaseEntry) : LeaseEntry :=
  mkLease (or_default (l_version e) LeaseRegistryVersion) (TrimSpace (l_link e)) (TrimSpace (l_transport e))
    (l_generation e) (TrimSpace (l_binding e)) (TrimSpace (l_socket e)) (TrimSpace (l_local e)) (TrimSpace (l_peer e))
    (TrimSpace (l_chain_id e)) (ToLower (TrimSpace (l_chain e))) (TrimSpace <$> l_topology e)
    (l_local_index e) (l_peer_index e) (l_pid e) (l_started e) (l_updated e) (l_until e).

Definition expiredLease (e : LeaseEntry) (now : Z) : bool := IsZero (l_until e) || negb (Before now (l_until e)).

Definition validateLeaseEntry (e : LeaseEntry) (now : Z) : option route_error :=
  if negb (str_eqb (l_version e) LeaseRegistryVersion) || bool_decide (is_Some (ValidateID (l_link e))) ||
     bool_decide (is_Some (ValidateTransportID (l_transport e))) || (l_generation e =? 0) ||
     str_eqb (l_binding e) [] || str_eqb (l_socket e) [] || str_eqb (l_local e) [] || str_eqb (l_peer e) [] ||
     str_eqb (l_chain_id e) [] || negb (len (l_chain e) =? 64) || (len (l_topology e) <? 2) ||
     (l_pid e <=? 0) || IsZero (l_started e) || IsZero (l_updated e) || IsZero (l_until e)
  then Some ErrInvalidEntry else
  if negb (After (l_until e) now) || (MaxLease <? Sub (l_until e) now) then Some (ErrLink ErrInvalidLease) else
  if negb (indices_ok (l_topology e) (l_local_index e) (l_peer_index e) (l_local e) (l_peer e))
  then Some ErrInvalidEntry else
  match DeriveID (mkDescriptor (l_chain e) (l_topology e) (l_local e) (l_peer e)) with
  | Err _ => Some ErrInvalidEntry
  | Ok linkID => if str_eqb linkID (l_link e) then None else Some ErrInvalidEntry
  end.

(** ** Registry files

    A registry file either does not exist or holds a payload. The JSON
    encoder is an argument ([marshal] writes the indented text and its
    newline), with the reader [unmarshal] and the length in bytes [size]. *)
Section File.
Context {E P : Type} (marshal : Registry E -> P) (unmarshal : P -> option (Registry E)) (size : P -> Z).
Context (version : bytes) (maxBytes : Z).

(** [os.ReadFile] and the checks after it, as in [snapshotUnlocked]. *)
Definition read_registry (fault : option io_point) (file : option P) : result route_error (Registry E) :=
  if bool_decide (fault = Some IoRead) then Err ErrIO else
  match file with
  | None => Ok (mkRegistry version [])
  | Some payload =>
    if maxBytes <? size payload then Err ErrTooLarge else
    match unmarshal payload with
    | None => Err ErrDecode
    | Some registry => if negb (str_eqb (r_version registry) version) then Err ErrVersion else Ok registry
    end
  end.

(** [mutate]: lock, read, apply, write a temporary file and rename it over
    the registry; the file changes only in the last step. *)
Definition mutate (snap : option io_point -> option P -> result route_error (Registry E))
    (apply : list E -> result route_error (list E)) (fault : option io_point) (file : option P)
    : option route_error * option P :=
  if bool_decide (fault = Some IoMkdir) then (Some ErrIO, file) else
  if bool_decide (fault = Some IoLock) then (Some ErrIO, file) else
  if bool_decide (fault = Some IoBusy) then (Some ErrRegistryBusy, file) else
  match snap fault file with Err e => (Some e, file) | Ok registry =>
  match apply (Entries registry) with Err e => (Some e, file) | Ok entries =>
  let payload := marshal (mkRegistry version entries) in
  if maxBytes <? size payload then (Some ErrTooLarge, file) else
  match fault with
  | Some _ => (Some ErrIO, file)
  | None => (None, Some payload)
  end end end.

End File.

(** ** Store: the legacy registry's operations *)

Section Store.
Context {P : Type} (marshal : Registry Entry -> P) (unmarshal : P -> option (Registry Entry)) (size : P -> Z).

Definition Store_Snapshot (fault : option io_point) (file : option P) : result route_error (Registry Entry) :=
  let* registry := read_registry unmarshal size RegistryVersion maxRegistryBytes fault file in
  let validated := List.filter (fun e => bool_decide (validateEntry e = None)) (normalizeEntry <$> Entries registry) in
  Ok (mkRegistry (r_version registry) (sort_by (fun a b => str_ltb (Binding a) (Binding b)) validated)).

Definition Store_mutate := mutate marshal size RegistryVersion maxRegistryBytes Store_Snapshot.

Definition keep_other_bindings (binding : bytes) (l : list Entry) : list Entry :=
  List.filter (fun e => negb (str_eqb (TrimSpace (Binding e)) binding)) l.

Definition Store_Register (entry0 : Entry) (fault : option io_point) (file : option P) : option route_error * option P :=
  let entry := normalizeEntry entry0 in
  match validateEntry entry with
  | Some e => (Some e, file)
  | None => Store_mutate (fun l => Ok (keep_other_bindings (Binding entry) l ++ [entry])) fault file
  end.

Definition Store_Remove (binding0 : bytes) (fault : option io_point) (file : option P) : option route_error * option P :=
  let binding := TrimSpace binding0 in
  if str_eqb binding [] then (None, file)
  else Store_mutate (fun l => Ok (keep_other_bindings binding l)) fault file.

Definition Store_Current (binding : bytes) (fault : option io_point) (file : option P) : result route_error Entry :=
  let* registry := Store_Snapshot fault file in
  match List.find (fun e => str_eqb (Binding e) (TrimSpace binding)) (Entries registry) with
  | Some e => Ok e
  | None => Err ErrNoRoute
  end.

End Store.

(** The head of both [ResolveAdjacent]s: the normalised context, the target
    and the index of the neighbour in its direction. *)
Definition direction_peer (ctx0 : NodeContext) (target : bytes)
    : result route_error (NodeContext * bytes * Z * Z) :=
  let ctx := Normalized ctx0 in
  match Validate ctx with Some e => Err (ErrAuth e) | None =>
  let currentIndex := indexOf (Nodes ctx) (CurrentNode ctx) in
  let* '(targetNode, targetIndex) := ResolveNode ctx target in
  if targetIndex =? currentIndex then Err ErrTargetLocal else
  let desiredPeer := if currentIndex <? targetIndex then currentIndex + 1 else currentIndex - 1 in
  Ok (ctx, targetNode, targetIndex, desiredPeer)
  end.

(** The loop's filter, on the legacy form of an entry. *)
Definition is_candidate (ctx : NodeContext) (currentBinding : bytes) (desiredPeer : Z) (e : Entry) : bool :=
  negb (str_eqb (Binding e) currentBinding || negb (str_eqb (e_local e) (CurrentNode ctx)) ||
        negb (str_eqb (e_chain_id e) (ChainID ctx)) || negb (str_eqb (e_chain e) (c_chain ctx)) ||
        negb (sameStrings (e_topology e) (Nodes ctx)) ||
        negb (LocalIndex e =? indexOf (Nodes ctx) (CurrentNode ctx)) || negb (PeerIndex e =? desiredPeer)).

Definition Store_ResolveAdjacent {P} (unmarshal : P -> option (Registry Entry)) (size : P -> Z)
    (currentBinding : bytes) (ctx0 : NodeContext) (target : bytes) (fault : option io_point) (file : option P)
    : result route_error (Entry * bytes * Z) :=
  let* '(ctx, targetNode, targetIndex, desiredPeer) := direction_peer ctx0 target in
  let* registry := Store_Snapshot unmarshal size fault file in
  let candidates := List.filter (is_candidate ctx (TrimSpace currentBinding) desiredPeer) (Entries registry) in
  match sort_by (fun a b => After (StartedAt a) (StartedAt b)) candidates with
  | [] => Err ErrNoRoute
  | e :: _ => Ok (e, targetNode, targetIndex)
  end.

(** ** LeaseStore: the generation-aware registry's operations *)

(** [continue] for entries that are expired or no longer valid. *)
Definition live_lease (now : Z) (e : LeaseEntry) : bool :=
  negb (expiredLease e now || bool_decide (is_Some (validateLeaseEntry e now))).

Fixpoint register_loop (now : Z) (entry : LeaseEntry) (l : list LeaseEntry) : result route_error (list LeaseEntry) :=
  match l with
  | [] => Ok []
  | raw :: r =>
    let existing := normalizeLeaseEntry raw in
    if negb (live_lease now existing) then register_loop now entry r else
    if negb (str_eqb (l_link existing) (l_link entry)) then
      let* rest := register_loop now entry r in Ok (existing :: rest) else
    if l_generation entry <? l_generation existing then Err (ErrLink ErrGenerationMismatch) else
    if (l_generation existing =? l_generation entry) && negb (str_eqb (l_transport existing) (l_transport entry))
    then Err (ErrLink ErrGenerationMismatch) else register_loop now entry r
  end.

Fixpoint renew_loop (now leaseUntil : Z) (token : Token) (l : list LeaseEntry)
    : result route_error (list LeaseEntry * bool) :=
  match l with
  | [] => Ok ([], false)
  | raw :: r =>
    let e := normalizeLeaseEntry raw in
    if negb (live_lease now e) then renew_loop now leaseUntil token r else
    if str_eqb (l_link e) (t_link token) then
      if negb (str_eqb (l_transport e) (t_transport token)) || negb (l_generation e =? t_generation token)
      then Err (ErrLink ErrGenerationMismatch) else
      let e' := mkLease (l_version e) (l_link e) (l_transport e) (l_generation e) (l_binding e) (l_socket e)
                  (l_local e) (l_peer e) (l_chain_id e) (l_chain e) (l_topology e) (l_local_index e)
                  (l_peer_index e) (l_pid e) (l_started e) now leaseUntil in
      let* '(rest, _) := renew_loop now leaseUntil token r in Ok (e' :: rest, true)
    else let* '(rest, found) := renew_loop now leaseUntil token r in Ok (e :: rest, found)
  end.

Definition token_matches (token : Token) (e : LeaseEntry) : bool :=
  str_eqb (l_link e) (t_link token) && str_eqb (l_transport e) (t_transport token) && (l_generation e =? t_generation token).

Section LeaseStore.
Context {P : Type} (marshal : Registry LeaseEntry -> P) (unmarshal : P -> option (Registry LeaseEntry)) (size : P -> Z).

Definition snapshotUnlocked := read_registry unmarshal size LeaseRegistryVersion maxLeaseRegistryBytes.
Definition LeaseStore_mutate := mutate marshal size LeaseRegistryVersion maxLeaseRegistryBytes snapshotUnlocked.

Definition LeaseStore_Register (entry0 : LeaseEntry) (now : Z) (fault : option io_point) (file : option P)
    : option route_error * option P :=
  let entry := normalizeLeaseEntry entry0 in
  match validateLeaseEntry entry now with
  | Some e => (Some e, file)
  | None => LeaseStore_mutate (fun l => let* rest := register_loop now entry l in Ok (rest ++ [entry])) fault file
  end.

Definition LeaseStore_Renew (token : Token) (leaseUntil now : Z) (fault : option io_point) (file : option P)
    : option route_error * option P :=
  if IsZero leaseUntil || negb (After leaseUntil now) || (MaxLease <? Sub leaseUntil now)
  then (Some (ErrLink ErrInvalidLease), file)
  else LeaseStore_mutate (fun l =>
    let* '(entries, found) := renew_loop now leaseUntil token l in
    if found then Ok entries else Err ErrNoRoute) fault file.

Definition LeaseStore_Remove (token : Token) (now : Z) (fault : option io_point) (file : option P)
    : option route_error * option P :=
  LeaseStore_mutate (fun l =>
    Ok (List.filter (fun e => live_lease now e && negb (token_matches token e)) (normalizeLeaseEntry <$> l))) fault file.

Definition LeaseStore_ResetLink (linkID : bytes) (now : Z) (fault : option io_point) (file : option P)
    : option route_error * option P :=
  match ValidateID linkID with
  | Some _ => (Some (ErrLink ErrInvalidDescriptor), file)
  | None => LeaseStore_mutate (fun l =>
      Ok (List.filter (fun e => live_lease now e && negb (str_eqb (l_link e) linkID)) (normalizeLeaseEntry <$> l))) fault file
  end.

Definition lease_less (a b : LeaseEntry) : bool :=
  if str_eqb (l_link a) (l_link b) then l_generation b <? l_generation a else str_ltb (l_link a) (l_link b).

Definition LeaseStore_Snapshot (now : Z) (fault : option io_point) (file : option P)
    : result route_error (Registry LeaseEntry) :=
  let* registry := snapshotUnlocked fault file in
  let validated := List.filter (live_lease now) (normalizeLeaseEntry <$> Entries registry) in
  Ok (mkRegistry (r_version registry) (sort_by lease_less validated)).

Definition newer (a b : LeaseEntry) : bool :=
  if l_generation a =? l_generation b then After (l_updated a) (l_updated b) else l_generation b <? l_generation a.

Definition LeaseStore_ResolveAdjacent (currentBinding : bytes) (ctx0 : NodeContext) (target : bytes) (now : Z)
    (fault : option io_point) (file : option P) : result route_error (LeaseEntry * bytes * Z) :=
  let* '(ctx, targetNode, targetIndex, desiredPeer) := direction_peer ctx0 target in
  let* registry := LeaseStore_Snapshot now fault file in
  let candidates := List.filter (fun e => is_candidate ctx (TrimSpace currentBinding) desiredPeer (LegacyEntry e))
                      (Entries registry) in
  match sort_by newer candidates with
  | [] => Err ErrNoRoute
  | e :: _ => Ok (e, targetNode, targetIndex)
  end.

End LeaseStore.

(** [startedAt] defaults to [clock], a reading of [time.Now]. *)
Definition NewLeaseEntry (ctx0 : NodeContext) (binding socket peerNode : bytes) (pid startedAt0 : Z) (token : Token)
    (leaseUntil clock : Z) : result route_error LeaseEntry :=
  let ctx := Normalized ctx0 in
  match Validate ctx with Some e => Err (ErrAuth e) | None =>
  let startedAt := if IsZero startedAt0 then clock else startedAt0 in
  match DeriveID (mkDescriptor (c_chain ctx) (Nodes ctx) (CurrentNode ctx) (TrimSpace peerNode)) with
  | Err e => Err (ErrLink e)
  | Ok linkID =>
    if negb (str_eqb (t_link token) linkID) || bool_decide (is_Some (ValidateTransportID (t_transport token))) ||
       (t_generation token =? 0)
    then Err (ErrLink ErrGenerationMismatch) else
    let entry := normalizeLeaseEntry (mkLease LeaseRegistryVersion (t_link token) (t_transport token) (t_generation token)
      binding socket (CurrentNode ctx) peerNode (ChainID ctx) (c_chain ctx) (Nodes ctx)
      (indexOf (Nodes ctx) (CurrentNode ctx)) (indexOf (Nodes ctx) (TrimSpace peerNode)) pid startedAt startedAt leaseUntil) in
    match validateLeaseEntry entry startedAt with Some e => Err e | None => Ok entry end
  end end.

(** ** The router (router.go) *)

Definition NewEntry (ctx0 : NodeContext) (binding socket peerNode : bytes) (pid startedAt : Z) : result route_error Entry :=
  let ctx := Normalized ctx0 in
  match Validate ctx with Some e => Err (ErrAuth e) | None =>
  let entry := normalizeEntry (mkEntry RegistryVersion (TrimSpace binding) (TrimSpace socket) (CurrentNode ctx)
    (TrimSpace peerNode) (ChainID ctx) (c_chain ctx) (Nodes ctx) (indexOf (Nodes ctx) (CurrentNode ctx))
    (indexOf (Nodes ctx) (TrimSpace peerNode)) pid startedAt) in
  match validateEntry entry with Some e => Err e | None => Ok entry end
  end.

Inductive direction : Type := DirNone | DirLocal | DirPrevious | DirNext.

Record Plan := mkPlan {
  TargetNode : bytes;
  TargetIndex : Z;
  Direction : direction;
  NextHop : bytes;
  NextBinding : bytes;
  Available : bool;
  UsesCurrent : bool
}.

Definition empty_plan : Plan := mkPlan [] 0 DirNone [] [] false false.

(** The router's own fields; [hasMux] tells whether [CurrentMux] is set and
    [hasLeases] whether [LeaseStore] is. *)
Record Router := mkRouter {
  hasLeases : bool;
  Context_ : NodeContext;
  CurrentBinding : bytes;
  hasMux : bool;
  rt_peer : bytes
}.

Definition routableService (service : Z) : bool :=
  (service =? MuxFrame.ServiceFS) || (service =? MuxFrame.ServiceTCP) || (service =? MuxFrame.ServiceUDP) ||
  (service =? MuxFrame.ServiceExec) || (service =? MuxFrame.ServiceEvents).

Record adjacentCandidate := mkCandidate {
  ac_entry : Entry;
  ac_lease : option LeaseEntry
}.

Section Router.
Context {P Q : Type} (marshal : Registry Entry -> P) (unmarshal : P -> option (Registry Entry)) (size : P -> Z).
Context (lmarshal : Registry LeaseEntry -> Q) (lunmarshal : Q -> option (Registry LeaseEntry)) (lsize : Q -> Z).

(** The two registry files the router reads and repairs. *)
Record Files := mkFiles {
  legacy_file : option P;
  lease_file : option Q
}.

Definition resolveAdjacent (r : Router) (currentBinding : bytes) (ctx : NodeContext) (target : bytes) (now : Z)
    (fault : option io_point) (fs : Files) : result route_error (adjacentCandidate * bytes * Z) :=
  let legacy :=
    let* '(e, targetNode, targetIndex) :=
      Store_ResolveAdjacent unmarshal size currentBinding ctx target fault (legacy_file fs) in
    Ok (mkCandidate e None, targetNode, targetIndex) in
  if hasLeases r then
    match LeaseStore_ResolveAdjacent lunmarshal lsize currentBinding ctx target now fault (lease_file fs) with
    | Ok (l, targetNode, targetIndex) => Ok (mkCandidate (LegacyEntry l) (Some l), targetNode, targetIndex)
    | Err ErrNoRoute => legacy
    | Err e => Err e
    end
  else legacy.

(** The plan is returned next to the error. *)
Definition Prepare (r : Router) (target : bytes) (now : Z) (fault : option io_point) (fs : Files)
    : Plan * option route_error :=
  let ctx := Normalized (Context_ r) in
  let currentIndex := indexOf (Nodes ctx) (CurrentNode ctx) in
  match ResolveNode ctx target with Err e => (empty_plan, Some e) | Ok (targetNode, targetIndex) =>
  if targetIndex =? currentIndex then
    (mkPlan targetNode targetIndex DirLocal (CurrentNode ctx) [] true false, None) else
  let '(wantedPeerIndex, dir) :=
    if currentIndex <? targetIndex then (currentIndex + 1, DirNext) else (currentIndex - 1, DirPrevious) in
  if (wantedPeerIndex <? 0) || (len (Nodes ctx) <=? wantedPeerIndex)
  then (mkPlan targetNode targetIndex dir [] [] false false, Some ErrNoRoute) else
  match at_index (Nodes ctx) wantedPeerIndex with None => (empty_plan, Some ErrPanic) | Some nextHop =>
  if str_eqb (TrimSpace (rt_peer r)) nextHop && hasMux r then
    (mkPlan targetNode targetIndex dir nextHop (TrimSpace (CurrentBinding r)) true true, None) else
  match resolveAdjacent r (CurrentBinding r) ctx targetNode now fault fs with
  | Err ErrNoRoute => (mkPlan targetNode targetIndex dir nextHop [] false false, None)
  | Err e => (mkPlan targetNode targetIndex dir nextHop [] false false, Some e)
  | Ok (candidate, _, _) =>
    (mkPlan targetNode targetIndex dir (e_peer (ac_entry candidate)) (Binding (ac_entry candidate)) true false, None)
  end end end.

(** What [sessionbroker.Dial] answered: a connection, a dial failure (the
    broker is gone) or another error. *)
Inductive dial_answer : Type := Dialed | Unavailable | Refused.

(** The key under which an attempt is remembered: the binding, or
    [fmt.Sprintf("%s/%d", LinkID, Generation)]. *)
Definition candidate_key (c : adjacentCandidate) : bytes :=
  match ac_lease c with
  | Some l => l_link l ++ [47] ++ json_int (l_generation l)
  | None => Binding (ac_entry c)
  end.

(** What the environment does at each attempt: the clock, a failing system
    call while resolving or while removing, and the broker's answer. *)
Record attempt_env := mkAttemptEnv {
  ae_now : Z;
  ae_resolve : option io_point;
  ae_remove : option io_point;
  ae_answer : adjacentCandidate -> dial_answer
}.

(** The loop of [dialRegistered], one environment per attempt; the second
    component lists the candidates dialled, oldest first. *)
Fixpoint dial_loop (r : Router) (target : bytes) (seen : list bytes) (envs : list attempt_env) (fs : Files)
    : result route_error adjacentCandidate * list adjacentCandidate * Files :=
  match envs with
  | [] => (Err ErrNoRoute, [], fs)
  | env :: envs' =>
    match resolveAdjacent r (CurrentBinding r) (Context_ r) target (ae_now env) (ae_resolve env) fs with
    | Err e => (Err e, [], fs)
    | Ok (candidate, _, _) =>
      let key := candidate_key candidate in
      if bool_decide (key ∈ seen) then (Err ErrNoRoute, [], fs) else
      match ae_answer env candidate with
      | Dialed => (Ok candidate, [candidate], fs)
      | Refused => (Err ErrDial, [candidate], fs)
      | Unavailable =>
        let fs' :=
          match ac_lease candidate with
          | Some l => if hasLeases r then
              mkFiles (legacy_file fs) (snd (LeaseStore_Remove lmarshal lunmarshal lsize (LeaseEntry_Token l) (ae_now env)
                (ae_remove env) (lease_file fs)))
            else mkFiles (snd (Store_Remove marshal unmarshal size (Binding (ac_entry candidate)) (ae_remove env) (legacy_file fs)))
                   (lease_file fs)
          | None => mkFiles (snd (Store_Remove marshal unmarshal size (Binding (ac_entry candidate)) (ae_remove env) (legacy_file fs)))
                      (lease_file fs)
          end in
        let '(res, tried, fs'') := dial_loop r target (key :: seen) envs' fs' in
        (res, candidate :: tried, fs'')
      end
    end
  end.

(** [for attempts := 0; attempts < 16; attempts++]. *)
Definition dialRegistered (r : Router) (target : bytes) (envs : list attempt_env) (fs : Files) :=
  dial_loop r target [] (take 16 envs) fs.

(** [OpenLocal] and [OpenForward] up to the connection itself. *)
Definition OpenLocal (r : Router) (target : bytes) (service now : Z) (fault : option io_point) (envs : list attempt_env)
    (fs : Files) : result route_error (option adjacentCandidate) * Files :=
  if negb (routableService service) then (Err ErrNotRoutable, fs) else
  match Prepare r target now fault fs with
  | (_, Some e) => (Err e, fs)
  | (plan, None) =>
    match Direction plan with
    | DirLocal => (Err ErrTargetLocal, fs)
    | _ =>
      if negb (Available plan) then (Err ErrNoRoute, fs) else
      if UsesCurrent plan then (Ok None, fs) else
      let '(res, _, fs') := dialRegistered r (TargetNode plan) envs fs in
      (let* c := res in Ok (Some c), fs')
    end
  end.

Definition OpenForward (r : Router) (nodeRef : bytes) (service : Z) (envs : list attempt_env) (fs : Files)
    : result route_error (adjacentCandidate * Plan) * Files :=
  if negb (routableService service) then (Err ErrNotRoutable, fs) else
  let ctx := Normalized (Context_ r) in
  let currentIndex := indexOf (Nodes ctx) (CurrentNode ctx) in
  let peerIndex := indexOf (Nodes ctx) (TrimSpace (rt_peer r)) in
  match ResolveNode ctx nodeRef with Err e => (Err e, fs) | Ok (targetNode, targetIndex) =>
  if targetIndex =? currentIndex then (Err ErrTargetLocal, fs) else
  if (peerIndex <? 0) || (0 <? (targetIndex - currentIndex) * (peerIndex - currentIndex)) then (Err ErrNoRoute, fs) else
  let '(res, _, fs') := dialRegistered r targetNode envs fs in
  let dir := if currentIndex <? targetIndex then DirNext else DirPrevious in
  match res with
  | Err e => (Err e, fs')
  | Ok c => (Ok (c, mkPlan targetNode targetIndex dir (e_peer (ac_entry c)) (Binding (ac_entry c)) true false), fs')
  end end.

End Router.

End Unicode.
End SessionRoute.
