(* ===== verification/SessionRouteProofs.v ===== *)
(** * Routing: progress, no reflection, fencing and atomic registries

    The theorems about sessionroute: every hop a router plans moves one node
    closer to the target, so a route along a chain arrives; a forwarded stream
    is never sent back; registry updates are atomic and generation-fenced;
    the dial loop never retries a broker. *)

From S2P Require Import Prelude GoStrings Sha256 GoEncoding AuthProof NodeContext SessionLink SessionRoute.

Module SessionRouteProofs.
Import GoStrings AuthProof NodeContext SessionLink SessionRoute.

(** ** Indices *)

Lemma at_index_Some l i x : at_index l i = Some x <-> 0 <= i /\ l !! Z.to_nat i = Some x.
Proof. unfold at_index. destruct (Z.ltb_spec i 0); [|intuition lia]. split; [done|lia]. Qed.

Lemma at_index_range l i x : at_index l i = Some x -> 0 <= i < len l.
Proof. rewrite at_index_Some. intros [Hi Hl]. apply lookup_lt_Some in Hl. unfold len. lia. Qed.

Lemma at_index_total l i : 0 <= i < len l -> exists x, at_index l i = Some x.
Proof.
  intros Hi. destruct (lookup_lt_is_Some_2 l (Z.to_nat i)) as [x Hx]; [unfold len in Hi; lia|].
  exists x. rewrite at_index_Some. split; [lia|done].
Qed.

Lemma indexOf_spec l w : (indexOf l w = -1 /\ w ∉ l) \/ (0 <= indexOf l w /\ at_index l (indexOf l w) = Some w).
Proof.
  unfold indexOf. destruct (index_from_spec 0 l w) as [?|(n & -> & Hn)]; [by left|]. right.
  rewrite at_index_Some. split_and!; [lia|lia|]. by replace (Z.to_nat (0 + Z.of_nat n)) with n by lia.
Qed.

Lemma at_index_inj l i j x : NoDup l -> at_index l i = Some x -> at_index l j = Some x -> i = j.
Proof.
  rewrite !at_index_Some. intros Hn [Hi Ei] [Hj Ej]. pose proof (NoDup_lookup _ _ _ _ Hn Ei Ej). lia.
Qed.

Lemma indexOf_at l i w : NoDup l -> at_index l i = Some w -> indexOf l w = i.
Proof.
  intros Hn Hi. destruct (indexOf_spec l w) as [[_ Hni]|[_ E]]; [|by eapply at_index_inj].
  exfalso. apply Hni. apply at_index_Some in Hi as [_ Hi]. by eapply list_elem_of_lookup_2.
Qed.

Lemma sameStrings_eq l l' : sameStrings l l' = true -> l = l'.
Proof.
  revert l'. induction l as [|a l IH]; intros [|b l']; cbn; try done. rewrite andb_true_iff.
  intros [E1 E2]. destruct (str_eqb_spec a b); [|done]. subst. f_equal. by apply IH.
Qed.

Section Route.
Context `{UnicodeTables}.

(** ** Name resolution *)

Lemma ResolveNode_at ctx raw name i :
  ResolveNode ctx raw = Ok (name, i) -> at_index (Nodes (Normalized ctx)) i = Some name.
Proof.
  unfold ResolveNode. intros E. apply result_bind_ok in E as (n & _ & E).
  destruct (Z.ltb_spec (indexOf (Nodes (Normalized ctx)) n) 0); [done|]. injection E as <- <-.
  destruct (indexOf_spec (Nodes (Normalized ctx)) n) as [[E1 _]|[_ ?]]; [lia|done].
Qed.

(** Names with a relative meaning. *)
Definition reserved (name : bytes) : bool := existsb (one_of (ToLower name)) relative_names.

(** A node that is not called like a relative name resolves to itself. *)
Lemma ResolveNode_name ctx name i :
  reserved name = false -> at_index (Nodes (Normalized ctx)) i = Some name ->
  ResolveNode ctx name = Ok (name, i).
Proof.
  intros Hr Hi. destruct (nodes_normal ctx) as [Hnd Hf].
  assert (TrimSpace name = name) as Ht.
  { apply at_index_Some in Hi as [_ Hl]. rewrite Forall_forall in Hf. apply trimmed_TrimSpace.
    apply (Hf name). by eapply list_elem_of_lookup_2. }
  unfold reserved, relative_names in Hr. cbn [existsb] in Hr. rewrite !orb_false_iff in Hr.
  destruct Hr as (R0 & R1 & R2 & R3 & _).
  unfold ResolveNode. rewrite Ht. cbn [nth relative_names]. rewrite R0, R1, R2, R3. cbn [result_bind].
  rewrite (indexOf_at _ _ _ Hnd Hi). pose proof (at_index_range _ _ _ Hi).
  by rewrite (proj2 (Z.ltb_ge _ _)) by lia.
Qed.

(** The neighbour in the direction of the target is one step closer. *)
Definition closer (current target peer : Z) : Prop :=
  Z.abs (peer - current) = 1 /\ Z.abs (peer - target) = Z.abs (current - target) - 1.

Lemma closer_step current target : target <> current ->
  closer current target (if current <? target then current + 1 else current - 1).
Proof. unfold closer. intros Hne. destruct (Z.ltb_spec current target); lia. Qed.

Lemma closer_side current target peer : closer current target peer -> 0 < (target - current) * (peer - current).
Proof. unfold closer. intros [H1 H2]. assert (peer = current + 1 \/ peer = current - 1) as [->| ->] by lia; lia. Qed.

Lemma direction_peer_spec ctx0 target ctx tn ti dp :
  direction_peer ctx0 target = Ok (ctx, tn, ti, dp) ->
  ctx = Normalized ctx0 /\ context_valid (Normalized ctx) /\ at_index (Nodes ctx) ti = Some tn /\
  ResolveNode ctx target = Ok (tn, ti) /\
  closer (indexOf (Nodes ctx) (CurrentNode ctx)) ti dp.
Proof.
  unfold direction_peer. destruct (Validate (Normalized ctx0)) eqn:Ev; [done|]. intros E.
  apply result_bind_ok in E as ([tn' ti'] & Er & E).
  destruct (Z.eqb_spec ti' (indexOf (Nodes (Normalized ctx0)) (CurrentNode (Normalized ctx0)))) as [|Hne]; [done|].
  injection E as <- <- <- <-. split_and!; [done|by apply Validate_valid| |done|].
  - apply ResolveNode_at in Er. by rewrite Nodes_idemp in Er.
  - by apply closer_step.
Qed.

(** ** Candidates *)

Lemma indices_ok_peer t li pi ln pn : indices_ok t li pi ln pn = true -> at_index t pi = Some pn.
Proof.
  unfold indices_ok. rewrite negb_true_iff, !orb_false_iff, !negb_false_iff, !bool_decide_eq_true. tauto.
Qed.

Lemma is_candidate_peer ctx b dp e : is_candidate ctx b dp e = true ->
  indices_ok (e_topology e) (LocalIndex e) (PeerIndex e) (e_local e) (e_peer e) = true ->
  at_index (Nodes ctx) dp = Some (e_peer e) /\ Binding e <> b.
Proof.
  unfold is_candidate. rewrite negb_true_iff, !orb_false_iff, !negb_false_iff, !Z.eqb_eq.
  intros ((((((Hb & _) & _) & _) & Ht) & _) & <-) Hi. split.
  - apply sameStrings_eq in Ht as <-. by eapply indices_ok_peer.
  - intros <-. by rewrite str_eqb_refl in Hb.
Qed.

Lemma In_filter_true {A} (f : A -> bool) l x : x ∈ List.filter f l -> f x = true /\ x ∈ l.
Proof. rewrite !list_elem_of_In, filter_In. tauto. Qed.

Lemma sort_by_first {A} (less : A -> A -> bool) l x r : sort_by less l = x :: r -> x ∈ l.
Proof. intros E. rewrite <- (elem_of_sort_by less), E. by left. Qed.

Lemma validateEntry_indices e : validateEntry e = None ->
  indices_ok (e_topology e) (LocalIndex e) (PeerIndex e) (e_local e) (e_peer e) = true.
Proof. unfold validateEntry. destruct (_ || _); [done|]. by destruct (indices_ok _ _ _ _ _). Qed.

Lemma validateLeaseEntry_indices e now : validateLeaseEntry e now = None ->
  indices_ok (l_topology e) (l_local_index e) (l_peer_index e) (l_local e) (l_peer e) = true.
Proof.
  unfold validateLeaseEntry. destruct (_ || _); [done|]. destruct (_ || _); [done|]. by destruct (indices_ok _ _ _ _ _).
Qed.

(** What resolving the neighbour guarantees. *)
Record good_candidate (ctx : NodeContext) (b target tn : bytes) (ti : Z) (c : adjacentCandidate) : Prop := {
  gc_valid : context_valid (Normalized ctx);
  gc_target : ResolveNode ctx target = Ok (tn, ti);
  gc_closer : exists dp, closer (indexOf (Nodes ctx) (CurrentNode ctx)) ti dp /\
                         at_index (Nodes ctx) dp = Some (e_peer (ac_entry c));
  gc_binding : Binding (ac_entry c) <> TrimSpace b
}.

Section Resolve.
Context {P Q : Type} (unmarshal : P -> option (Registry Entry)) (size : P -> Z).
Context (lunmarshal : Q -> option (Registry LeaseEntry)) (lsize : Q -> Z).

Lemma Store_ResolveAdjacent_good b ctx target fault file e tn ti :
  Store_ResolveAdjacent unmarshal size b ctx target fault file = Ok (e, tn, ti) ->
  good_candidate (Normalized ctx) b target tn ti (mkCandidate e None).
Proof.
  unfold Store_ResolveAdjacent. intros E. apply result_bind_ok in E as ([[[c tn'] ti'] dp] & Ed & E).
  apply direction_peer_spec in Ed as (-> & Hv & _ & Hr & Hc). apply result_bind_ok in E as (reg & Es & E).
  destruct (sort_by _ _) as [|e' r] eqn:Eso; [done|]. injection E as <- <- <-.
  apply sort_by_first, In_filter_true in Eso as [Hcand Hin].
  unfold Store_Snapshot in Es. apply result_bind_ok in Es as (raw & _ & Es). injection Es as <-. cbn [Entries] in Hin.
  rewrite elem_of_sort_by in Hin. apply In_filter_true in Hin as [Hval _]. apply bool_decide_eq_true in Hval.
  apply validateEntry_indices in Hval. destruct (is_candidate_peer _ _ _ _ Hcand Hval) as [Hp Hb].
  constructor; eauto.
Qed.

Lemma LeaseStore_ResolveAdjacent_good b ctx target now fault file e tn ti :
  LeaseStore_ResolveAdjacent lunmarshal lsize b ctx target now fault file = Ok (e, tn, ti) ->
  good_candidate (Normalized ctx) b target tn ti (mkCandidate (LegacyEntry e) (Some e)).
Proof.
  unfold LeaseStore_ResolveAdjacent. intros E. apply result_bind_ok in E as ([[[c tn'] ti'] dp] & Ed & E).
  apply direction_peer_spec in Ed as (-> & Hv & _ & Hr & Hc). apply result_bind_ok in E as (reg & Es & E).
  destruct (sort_by _ _) as [|e' r] eqn:Eso; [done|]. injection E as <- <- <-.
  apply sort_by_first, In_filter_true in Eso as [Hcand Hin].
  unfold LeaseStore_Snapshot in Es. apply result_bind_ok in Es as (raw & _ & Es). injection Es as <-. cbn [Entries] in Hin.
  rewrite elem_of_sort_by in Hin. apply In_filter_true in Hin as [Hlive _].
  unfold live_lease in Hlive. rewrite negb_true_iff, orb_false_iff, bool_decide_eq_false, <- eq_None_not_Some in Hlive.
  destruct Hlive as [_ Hval]. apply validateLeaseEntry_indices in Hval.
  destruct (is_candidate_peer _ _ _ (LegacyEntry e') Hcand Hval) as [Hp Hb]. constructor; eauto.
Qed.

Lemma resolveAdjacent_good r b ctx target now fault fs c tn ti :
  resolveAdjacent unmarshal size lunmarshal lsize r b ctx target now fault fs = Ok (c, tn, ti) ->
  good_candidate (Normalized ctx) b target tn ti c.
Proof.
  unfold resolveAdjacent. intros E.
  assert (forall x, (let* '(e, a, i) := Store_ResolveAdjacent unmarshal size b ctx target fault (legacy_file fs) in
                     Ok (mkCandidate e None, a, i)) = Ok x -> x = (c, tn, ti) ->
                    good_candidate (Normalized ctx) b target tn ti c) as Hl.
  { intros x Hx ->. apply result_bind_ok in Hx as ([[e a] i] & Hx & [= <- <- <-]).
    by eapply Store_ResolveAdjacent_good. }
  destruct (hasLeases r); [|by eapply Hl].
  destruct (LeaseStore_ResolveAdjacent _ _ _ _ _ _ _ _) as [[[l a] i]|e] eqn:El.
  - injection E as <- <- <-. by eapply LeaseStore_ResolveAdjacent_good.
  - destruct e; try done. by eapply Hl.
Qed.

(** ** The plan *)

(** A plan for a node of the topology hops one node closer to it. *)
Lemma Prepare_hop r tn ti j now fault fs plan :
  let ctx := Normalized (Context_ r) in
  reserved tn = false -> at_index (Nodes ctx) ti = Some tn -> at_index (Nodes ctx) j = Some (CurrentNode ctx) ->
  ti <> j -> Prepare unmarshal size lunmarshal lsize r tn now fault fs = (plan, None) ->
  exists dp, closer j ti dp /\ at_index (Nodes ctx) dp = Some (NextHop plan).
Proof.
  intros ctx Hres Hti Hj Hne. unfold Prepare. fold ctx. destruct (nodes_normal (Context_ r)) as [Hnd _]. fold ctx in Hnd.
  assert (ResolveNode ctx tn = Ok (tn, ti)) as Hr by (apply ResolveNode_name; [done|]; unfold ctx; by rewrite Nodes_idemp).
  rewrite Hr, (indexOf_at _ _ _ Hnd Hj), (proj2 (Z.eqb_neq ti j) Hne).
  pose proof (closer_step j ti Hne) as Hcl.
  replace (if j <? ti then (j + 1, DirNext) else (j - 1, DirPrevious))
    with (if j <? ti then j + 1 else j - 1, if j <? ti then DirNext else DirPrevious) by (by destruct (j <? ti)).
  set (dp := if j <? ti then j + 1 else j - 1) in *.
  destruct (_ || _); [done|]. destruct (at_index (Nodes ctx) dp) as [hop|] eqn:Eh; [|done].
  destruct (_ && _); [intros [= <-]; eauto|].
  destruct (resolveAdjacent _ _ _ _ _ _ _ _ _ _ _) as [[[c tn'] ti']|e] eqn:Ec.
  2:{ destruct e; intros [= <-]; eauto. }
  intros [= <-]. apply resolveAdjacent_good in Ec as [_ Ht (dp' & Hc & Hp) _]. cbn [NextHop].
  assert (Nodes (Normalized ctx) = Nodes ctx) as EN by apply Nodes_idemp.
  assert (CurrentNode (Normalized ctx) = CurrentNode ctx) as EC by apply CurrentNode_idemp.
  rewrite (ResolveNode_name _ tn ti) in Ht by (try rewrite Nodes_idemp; by rewrite ?EN). injection Ht as <- <-.
  rewrite EN, EC, (indexOf_at _ _ _ Hnd Hj) in Hc. rewrite EN in Hp. eauto.
Qed.

End Resolve.

(** ** The dial loop *)

Section Dial.
Context {P Q : Type} (marshal : Registry Entry -> P) (unmarshal : P -> option (Registry Entry)) (size : P -> Z).
Context (lmarshal : Registry LeaseEntry -> Q) (lunmarshal : Q -> option (Registry LeaseEntry)) (lsize : Q -> Z).

Lemma dial_loop_spec r target envs : forall seen fs res tried fs',
  dial_loop marshal unmarshal size lmarshal lunmarshal lsize r target seen envs fs = (res, tried, fs') ->
  NoDup (candidate_key <$> tried) /\ Forall (fun c => candidate_key c ∉ seen) tried /\
  (length tried <= length envs)%nat /\
  Forall (fun c => exists tn ti, good_candidate (Normalized (Context_ r)) (CurrentBinding r) target tn ti c) tried /\
  (forall c, res = Ok c -> last tried = Some c).
Proof.
  induction envs as [|env envs IH]; intros seen fs res tried fs'; cbn [dial_loop].
  { intros [= <- <- <-]. split_and!; try constructor; done || lia. }
  destruct (resolveAdjacent _ _ _ _ _ _ _ _ _ _ _) as [[[c tn] ti]|e] eqn:Er.
  2:{ intros [= <- <- <-]. cbn. split_and!; try constructor; done || lia. }
  apply resolveAdjacent_good in Er.
  destruct (bool_decide_reflect (candidate_key c ∈ seen)) as [|Hns].
  { intros [= <- <- <-]. cbn. split_and!; try constructor; done || lia. }
  destruct (ae_answer env c).
  - intros [= <- <- <-]. cbn. split_and!; [apply NoDup_singleton|by repeat constructor|lia|repeat constructor; eauto|naive_solver].
  - destruct (dial_loop _ _ _ _ _ _ _ _ _ _ _) as [[res1 tried1] fs1] eqn:El.
    intros [= <- <- <-]. apply IH in El as (H1 & H2 & H3 & H4 & H5). cbn [fmap list_fmap length].
    rewrite Forall_forall in H2. split_and!.
    + constructor; [|done]. intros Hin. apply list_elem_of_fmap in Hin as (c' & E & Hc').
      apply (H2 c' Hc'). rewrite <- E. by left.
    + constructor; [done|]. apply Forall_forall. intros c' Hc' Hs. apply (H2 c' Hc'). by right.
    + lia.
    + constructor; eauto.
    + intros c' E. apply H5 in E. destruct tried1; [done|exact E].
  - intros [= <- <- <-]. cbn. split_and!; [apply NoDup_singleton|by repeat constructor|lia|repeat constructor; eauto|done].
Qed.
End Dial.

End Route.

(** Where a chain of planned hops leads. *)
Definition hop (nodes : list bytes) (plans : Z -> Plan) (i : Z) : Z := indexOf nodes (NextHop (plans i)).

(** Routes arrive: along one signed topology of distinct nodes, following
    the hop every node plans for a target that is not named by one of the words
    for a relative position reaches that target after exactly as many hops as it is nodes away, each
    hop one node closer and none past it, whatever the registries of the
    nodes hold. *)
Theorem routing_reaches_target `{UnicodeTables} {P Q} (unmarshal : P -> option (Registry Entry)) (size : P -> Z)
    (lunmarshal : Q -> option (Registry LeaseEntry)) (lsize : Q -> Z)
    (nodes : list bytes) (plans : Z -> Plan) (tn : bytes) (ti i : Z) :
  NoDup nodes -> reserved tn = false -> at_index nodes ti = Some tn -> 0 <= i < len nodes ->
  (forall j, 0 <= j < len nodes -> j <> ti -> exists r now fault fs,
     Nodes (Normalized (Context_ r)) = nodes /\ at_index nodes j = Some (CurrentNode (Normalized (Context_ r))) /\
     Prepare unmarshal size lunmarshal lsize r tn now fault fs = (plans j, None)) ->
  Nat.iter (Z.to_nat (Z.abs (ti - i))) (hop nodes plans) i = ti /\
  (forall k, 0 <= k <= Z.abs (ti - i) -> Z.abs (ti - Nat.iter (Z.to_nat k) (hop nodes plans) i) = Z.abs (ti - i) - k).
Proof.
  intros Hnd Hres Hti Hi Hplans.
  assert (forall k : nat, Z.of_nat k <= Z.abs (ti - i) ->
    0 <= Nat.iter k (hop nodes plans) i < len nodes /\
    Z.abs (ti - Nat.iter k (hop nodes plans) i) = Z.abs (ti - i) - Z.of_nat k) as Hk.
  { induction k as [|k IH]; intros Hle; [cbn; lia|]. destruct IH as [Hr Hd]; [lia|].
    change (Nat.iter (S k) (hop nodes plans) i) with (hop nodes plans (Nat.iter k (hop nodes plans) i)).
    generalize dependent (Nat.iter k (hop nodes plans) i). intros j Hr Hd.
    destruct (Hplans j Hr ltac:(lia)) as (r & now & fault & fs & <- & Hj & Hp).
    destruct (Prepare_hop unmarshal size lunmarshal lsize r tn ti j now fault fs (plans j) Hres Hti Hj ltac:(lia) Hp)
      as (dp & [Hc1 Hc2] & Hdp).
    unfold hop. rewrite (indexOf_at _ _ _ Hnd Hdp). split; [by eapply at_index_range|lia]. }
  split.
  - destruct (Hk (Z.to_nat (Z.abs (ti - i))) ltac:(lia)) as [_ Hd]. lia.
  - intros k Hk'. destruct (Hk (Z.to_nat k) ltac:(lia)) as [_ Hd]. lia.
Qed.

(** A forwarded stream is never reflected: the broker [OpenForward]
    connects to is neither the session the stream came in on nor any other
    session with the peer it came from, and it lies one node closer to the
    target. *)
Theorem forward_never_reflects `{UnicodeTables} {P Q} (marshal : Registry Entry -> P) (unmarshal : P -> option (Registry Entry))
    (size : P -> Z) (lmarshal : Registry LeaseEntry -> Q) (lunmarshal : Q -> option (Registry LeaseEntry)) (lsize : Q -> Z)
    (r : Router) (nodeRef : bytes) (service : Z) (envs : list attempt_env) (fs fs' : Files)
    (c : adjacentCandidate) (plan : Plan) :
  let ctx := Normalized (Context_ r) in
  Forall (fun n => reserved n = false) (Nodes ctx) ->
  OpenForward marshal unmarshal size lmarshal lunmarshal lsize r nodeRef service envs fs = (Ok (c, plan), fs') ->
  NextHop plan = e_peer (ac_entry c) /\ e_peer (ac_entry c) <> TrimSpace (rt_peer r) /\
  Binding (ac_entry c) <> TrimSpace (CurrentBinding r) /\
  exists dp, at_index (Nodes ctx) dp = Some (NextHop plan) /\
    closer (indexOf (Nodes ctx) (CurrentNode ctx)) (TargetIndex plan) dp.
Proof.
  intros ctx Hres. unfold OpenForward. fold ctx. destruct (negb (routableService service)); [done|].
  destruct (ResolveNode ctx nodeRef) as [[tn ti]|e] eqn:Er; [|done].
  destruct (Z.eqb_spec ti (indexOf (Nodes ctx) (CurrentNode ctx))) as [|Hne]; [done|].
  destruct (Z.ltb_spec (indexOf (Nodes ctx) (TrimSpace (rt_peer r))) 0) as [|Hpi]; [done|]. cbn [orb].
  destruct (Z.ltb_spec 0 ((ti - indexOf (Nodes ctx) (CurrentNode ctx)) *
    (indexOf (Nodes ctx) (TrimSpace (rt_peer r)) - indexOf (Nodes ctx) (CurrentNode ctx)))) as [|Hside]; [done|].
  unfold dialRegistered. destruct (dial_loop _ _ _ _ _ _ _ _ _ _ _) as [[[c'|e] tried] fs1] eqn:El; [|done].
  intros [= <- <- _]. cbn [NextHop TargetIndex].
  apply dial_loop_spec in El as (_ & _ & _ & Hg & Hl). specialize (Hl c' eq_refl).
  rewrite Forall_forall in Hg. destruct (Hg c') as (tn' & ti' & [Hv Ht (dp & Hc & Hp) Hb]).
  { apply last_Some in Hl as [l ->]. apply elem_of_app. right. by left. }
  assert (Nodes (Normalized ctx) = Nodes ctx) as EN by apply Nodes_idemp. fold ctx in Hc, Hp, Ht.
  apply ResolveNode_at in Er as Hti. rewrite EN in Hti.
  rewrite (ResolveNode_name _ tn ti) in Ht; [|..].
  2:{ rewrite Forall_forall in Hres. apply Hres. apply at_index_Some in Hti as [_ Hti]. by eapply list_elem_of_lookup_2. }
  2:{ by rewrite EN. }
  injection Ht as <- <-. split_and!; [done| |done|by eauto].
  intros E. destruct (indexOf_spec (Nodes ctx) (TrimSpace (rt_peer r))) as [[E1 _]|[_ Hat]]; [lia|].
  rewrite <- E in Hat. destruct (nodes_normal (Context_ r)) as [Hnd _].
  pose proof (at_index_inj _ _ _ _ Hnd Hp Hat) as Edp. apply closer_side in Hc.
  rewrite Edp, E in Hc. lia.
Qed.

(** The dial loop tries a broker at most once and never more than sixteen:
    the candidates dialled are pairwise distinct, all lie one node closer to
    the target and off the current binding, and a connection is made to the
    last of them. *)
Theorem dial_tries_each_broker_once `{UnicodeTables} {P Q} (marshal : Registry Entry -> P)
    (unmarshal : P -> option (Registry Entry)) (size : P -> Z) (lmarshal : Registry LeaseEntry -> Q)
    (lunmarshal : Q -> option (Registry LeaseEntry)) (lsize : Q -> Z)
    (r : Router) (target : bytes) (envs : list attempt_env) (fs : Files) :
  let '(res, tried, _) := dialRegistered marshal unmarshal size lmarshal lunmarshal lsize r target envs fs in
  NoDup (candidate_key <$> tried) /\ (length tried <= 16)%nat /\
  Forall (fun c => exists tn ti, good_candidate (Normalized (Context_ r)) (CurrentBinding r) target tn ti c) tried /\
  (forall c, res = Ok c -> last tried = Some c).
Proof.
  unfold dialRegistered. destruct (dial_loop _ _ _ _ _ _ _ _ _ _ _) as [[res tried] fs1] eqn:El.
  apply dial_loop_spec in El as (H1 & _ & H3 & H4 & H5). rewrite length_take in H3. split_and!; done || lia.
Qed.

(** ** A concrete chain *)

#[local] Existing Instance latin1_tables.

Definition demo_hash : bytes := str "ba7816bf8f01cfea414140de5dae2223b00361a396177a9cb410ff61f20015ad".
Definition demo_nodes : list bytes := [str "n1"; str "n2"; str "n3"].
Definition demo_context (nodes : list bytes) (current : bytes) : NodeContext :=
  mkContext [] [] (str "issuer") [] (str "chain") demo_hash nodes current [] [] [] (str "nonce") 100 200.

(** A router whose own session leads to the next node of the chain. *)
Definition demo_router (j : Z) : Router :=
  mkRouter false (demo_context demo_nodes (nth (Z.to_nat j) demo_nodes [])) (str "b0") true
    (nth (Z.to_nat (j + 1)) demo_nodes []).

Definition no_entries {E} (_ : unit) : option (Registry E) := None.
Definition demo_plans (j : Z) : Plan :=
  fst (Prepare no_entries (fun _ => 0) no_entries (fun _ => 0) (demo_router j) (str "n3") 0 None (mkFiles None None)).

Lemma routing_reaches_target_witness :
  Nat.iter 2 (hop demo_nodes demo_plans) 0 = 2.
Proof.
  refine (proj1 (routing_reaches_target no_entries (fun _ => 0) no_entries (fun _ => 0) demo_nodes demo_plans
    (str "n3") 2 0 _ _ _ _ _)).
  - apply (bool_decide_unpack _). vm_compute. exact I.
  - vm_compute. reflexivity.
  - vm_compute. reflexivity.
  - vm_compute. split; [done|reflexivity].
  - intros j Hj Hne. change (len demo_nodes) with 3 in Hj.
    exists (demo_router j), 0, None, (mkFiles None None).
    assert (j = 0 \/ j = 1) as [-> | ->] by lia; split_and!; vm_compute; reflexivity.
Defined.

(** A node between its two neighbours, with one registered session onward. *)
Definition demo_forwarder : Router :=
  mkRouter false (demo_context demo_nodes (str "n2")) (str "b1") true (str "n1").
Definition demo_entry : Entry :=
  mkEntry [] (str "b2") (str "/run/b2") (str "n2") (str "n3") (str "chain") demo_hash demo_nodes 1 2 10 5.
Definition demo_files : @Files (Registry Entry) unit := mkFiles (Some (mkRegistry RegistryVersion [demo_entry])) None.

Lemma forward_never_reflects_witness :
  exists c plan, fst (OpenForward (fun r => r) Some (fun _ => 0) (fun _ => tt) no_entries (fun _ => 0)
    demo_forwarder (str "endpoint") MuxFrame.MuxFrame.ServiceTCP [mkAttemptEnv 0 None None (fun _ => Dialed)] demo_files)
    = Ok (c, plan) /\ e_peer (ac_entry c) = str "n3" /\ Binding (ac_entry c) <> str "b1".
Proof.
  destruct (OpenForward (fun r => r) Some (fun _ => 0) (fun _ => tt) no_entries (fun _ => 0)
    demo_forwarder (str "endpoint") MuxFrame.MuxFrame.ServiceTCP [mkAttemptEnv 0 None None (fun _ => Dialed)] demo_files)
    as [[[c plan]|e] fs'] eqn:E.
  2:{ exfalso. apply (f_equal (fun x => is_ok (fst x))) in E. vm_compute in E. discriminate. }
  exists c, plan. split; [reflexivity|].
  assert (Forall (fun n => reserved n = false) (Nodes (Normalized (Context_ demo_forwarder)))) as Hr
    by (repeat (constructor; [vm_compute; reflexivity|]); constructor).
  destruct (forward_never_reflects (fun r => r) Some (fun _ => 0) (fun _ => tt) no_entries (fun _ => 0)
    demo_forwarder (str "endpoint") MuxFrame.MuxFrame.ServiceTCP [mkAttemptEnv 0 None None (fun _ => Dialed)] demo_files
    fs' c plan Hr E) as (_ & _ & Hb & _).
  split; [|exact Hb]. apply (f_equal (fun x => match fst x with Ok (c, _) => e_peer (ac_entry c) | Err _ => [] end)) in E.
  vm_compute in E. symmetry. exact E.
Defined.

(** A chain whose last node is called like a relative name cannot be routed
    to: the resolved name is resolved a second time. *)
Lemma reserved_node_unreachable :
  snd (Prepare no_entries (fun _ => 0) no_entries (fun _ => 0)
    (mkRouter false (demo_context [str "n1"; str "n2"; str "self"] (str "n1")) (str "b0") false [])
    (str "endpoint") 0 None (mkFiles None None)) = Some ErrTargetLocal.
Proof. vm_compute. reflexivity. Qed.

(** ** Leases *)

Section Leases.
Context `{UnicodeTables}.

Lemma register_loop_spec now e l : forall rest, register_loop now e l = Ok rest ->
  rest = List.filter (fun x => live_lease now x && negb (str_eqb (l_link x) (l_link e))) (normalizeLeaseEntry <$> l) /\
  Forall (fun x => live_lease now x = true -> l_link x = l_link e ->
    l_generation x < l_generation e \/ l_generation x = l_generation e /\ l_transport x = l_transport e)
    (normalizeLeaseEntry <$> l).
Proof.
  induction l as [|raw l IH]; intros rest; cbn [register_loop fmap list_fmap List.filter]; [by intros [= <-]|].
  set (x := normalizeLeaseEntry raw). destruct (live_lease now x) eqn:El; cbn [negb andb].
  2:{ intros E. apply IH in E as [-> Hf]. split; [done|]. constructor; [congruence|done]. }
  destruct (str_eqb_spec (l_link x) (l_link e)) as [Ek|Hk]; cbn [negb].
  - destruct (Z.ltb_spec (l_generation e) (l_generation x)) as [|Hg]; [done|].
    destruct (Z.eqb_spec (l_generation x) (l_generation e)) as [Eg|Hne]; cbn [andb].
    + destruct (str_eqb_spec (l_transport x) (l_transport e)) as [Et|]; [|done]. cbn [negb].
      intros E. apply IH in E as [-> Hf]. split; [done|]. constructor; [by right|done].
    + intros E. apply IH in E as [-> Hf]. split; [done|]. constructor; [intros; left; lia|done].
  - intros E. apply result_bind_ok in E as (r & E & [= <-]). apply IH in E as [-> Hf].
    split; [done|]. constructor; [congruence|done].
Qed.

(** What a successful update read and wrote; a failed one leaves the file. *)
Lemma mutate_spec {E P} (marshal : Registry E -> P) (unmarshal : P -> option (Registry E)) (size : P -> Z) v n ap fault file :
  match mutate marshal size v n (read_registry unmarshal size v n) ap fault file with
  | (Some _, file') => file' = file
  | (None, file') => exists old entries, read_registry unmarshal size v n None file = Ok old /\
      ap (Entries old) = Ok entries /\ file' = Some (marshal (mkRegistry v entries))
  end.
Proof.
  unfold mutate. repeat (case_bool_decide; [done|]).
  destruct (read_registry unmarshal size v n fault file) as [old|] eqn:Er; [|done].
  destruct (ap (Entries old)) as [entries|] eqn:Ea; [|done]. destruct (n <? _); [done|].
  destruct fault; [done|]. eauto.
Qed.

Lemma filter_filter_false {A} (f g : A -> bool) l : (forall x, g x = true -> f x = false) ->
  List.filter f (List.filter g l) = [].
Proof.
  intros Hfg. induction l as [|x l IH]; [done|]. cbn. destruct (g x) eqn:Eg; [|done]. cbn. by rewrite Hfg.
Qed.

Lemma filter_filter_true {A} (f g : A -> bool) l : (forall x, g x = true -> f x = true) ->
  List.filter f (List.filter g l) = List.filter g l.
Proof.
  intros Hfg. induction l as [|x l IH]; [done|]. cbn. destruct (g x) eqn:Eg; [|done]. cbn. by rewrite Hfg, IH.
Qed.

Lemma renew_loop_spec now until tok l : forall rest found, renew_loop now until tok l = Ok (rest, found) ->
  (found = true -> exists x, x ∈ normalizeLeaseEntry <$> l /\ live_lease now x = true /\ token_matches tok x = true) /\
  Forall2 (fun x y => LeaseEntry_Token y = LeaseEntry_Token x /\ (l_link x <> t_link tok -> y = x) /\
                      (l_link x = t_link tok -> token_matches tok x = true /\ l_until y = until))
    (List.filter (live_lease now) (normalizeLeaseEntry <$> l)) rest.
Proof.
  induction l as [|raw l IH]; intros rest found; cbn [renew_loop fmap list_fmap List.filter];
    [intros [= <- <-]; split; [done|constructor]|].
  set (x := normalizeLeaseEntry raw). destruct (live_lease now x) eqn:El; cbn [negb].
  2:{ intros E. apply IH in E as (H2 & H3). split; [|done].
      intros Hf. destruct (H2 Hf) as (y & Hy & Hr). exists y. split; [by right|done]. }
  destruct (str_eqb_spec (l_link x) (t_link tok)) as [Ek|Hk].
  - destruct (str_eqb_spec (l_transport x) (t_transport tok)) as [Et|]; [|done]. cbn [negb orb].
    destruct (Z.eqb_spec (l_generation x) (t_generation tok)) as [Eg|]; [|done]. cbn [negb].
    assert (token_matches tok x = true) as Hm.
    { unfold token_matches. by rewrite Ek, Et, Eg, !str_eqb_refl, Z.eqb_refl. }
    intros E. apply result_bind_ok in E as ([r f] & E & [= <- <-]). apply IH in E as (H2 & H3). split.
    + intros _. exists x. split; [by left|done].
    + constructor; [|done]. split_and!; [done|congruence|done].
  - intros E. apply result_bind_ok in E as ([r f] & E & [= <- <-]). apply IH in E as (H2 & H3). split.
    + intros Hf. destruct (H2 Hf) as (y & Hy & Hr). exists y. split; [by right|done].
    + constructor; [by split_and!|done].
Qed.
End Leases.

(** C34: registering a lease is atomic and fenced: if it fails the registry
    file is untouched; if it succeeds the new file holds the lease as the only
    one of its link, every live lease of other links in their order, and no
    lease it replaced had a newer generation, nor the same generation on a
    different transport. *)
Theorem lease_registration_fenced `{UnicodeTables} {P} (marshal : Registry LeaseEntry -> P)
    (unmarshal : P -> option (Registry LeaseEntry)) (size : P -> Z)
    (entry : LeaseEntry) (now : Z) (fault : option io_point) (file : option P) :
  let e := normalizeLeaseEntry entry in
  match LeaseStore_Register marshal unmarshal size entry now fault file with
  | (Some _, file') => file' = file
  | (None, file') => exists old entries,
      snapshotUnlocked unmarshal size None file = Ok old /\
      file' = Some (marshal (mkRegistry LeaseRegistryVersion entries)) /\
      List.filter (fun x => str_eqb (l_link x) (l_link e)) entries = [e] /\
      List.filter (fun x => negb (str_eqb (l_link x) (l_link e))) entries =
        List.filter (fun x => live_lease now x && negb (str_eqb (l_link x) (l_link e))) (normalizeLeaseEntry <$> Entries old) /\
      Forall (fun x => live_lease now x = true -> l_link x = l_link e ->
        l_generation x < l_generation e \/ l_generation x = l_generation e /\ l_transport x = l_transport e)
        (normalizeLeaseEntry <$> Entries old)
  end.
Proof.
  cbv zeta. unfold LeaseStore_Register. set (e := normalizeLeaseEntry entry).
  destruct (validateLeaseEntry e now); [done|]. unfold LeaseStore_mutate, snapshotUnlocked.
  pose proof (mutate_spec marshal unmarshal size LeaseRegistryVersion maxLeaseRegistryBytes
    (fun l => let* rest := register_loop now e l in Ok (rest ++ [e])) fault file) as Hm.
  destruct (mutate _ _ _ _ _ _ _ _) as [[err|] file']; [done|].
  destruct Hm as (old & entries & Hr & Ha & ->). exists old, entries. split; [done|]. split; [done|].
  apply result_bind_ok in Ha as (rest & Hl & [= <-]). apply register_loop_spec in Hl as [-> Hf].
  split_and!; [..|done]; rewrite List.filter_app; cbn [List.filter]; rewrite str_eqb_refl; cbn [negb].
  - rewrite filter_filter_false; [done|]. intros x. rewrite andb_true_iff, negb_true_iff. tauto.
  - rewrite app_nil_r. apply filter_filter_true. intros x. rewrite andb_true_iff. tauto.
Qed.

(** A stale transport cannot disturb a newer lease: removing by token
    deletes exactly the live leases that carry that very link, transport and
    generation and keeps all others in order; renewing succeeds only if the
    live leases of the link all carry the token, extends those and changes
    nothing else; either leaves the file alone when it fails. *)
Theorem lease_token_operations `{UnicodeTables} {P} (marshal : Registry LeaseEntry -> P)
    (unmarshal : P -> option (Registry LeaseEntry)) (size : P -> Z)
    (tok : Token) (until now : Z) (fault : option io_point) (file : option P) :
  match LeaseStore_Remove marshal unmarshal size tok now fault file with
  | (Some _, file') => file' = file
  | (None, file') => exists old entries, snapshotUnlocked unmarshal size None file = Ok old /\
      file' = Some (marshal (mkRegistry LeaseRegistryVersion entries)) /\
      (forall x, x ∈ entries <-> x ∈ normalizeLeaseEntry <$> Entries old /\ live_lease now x = true /\ LeaseEntry_Token x <> tok)
  end /\
  match LeaseStore_Renew marshal unmarshal size tok until now fault file with
  | (Some _, file') => file' = file
  | (None, file') => exists old entries, snapshotUnlocked unmarshal size None file = Ok old /\
      file' = Some (marshal (mkRegistry LeaseRegistryVersion entries)) /\ now < until <= now + MaxLease /\
      (exists x, x ∈ normalizeLeaseEntry <$> Entries old /\ live_lease now x = true /\ LeaseEntry_Token x = tok) /\
      Forall2 (fun x y => LeaseEntry_Token y = LeaseEntry_Token x /\ (l_link x <> t_link tok -> y = x) /\
                          (l_link x = t_link tok -> LeaseEntry_Token x = tok /\ l_until y = until))
        (List.filter (live_lease now) (normalizeLeaseEntry <$> Entries old)) entries
  end.
Proof.
  assert (forall x, token_matches tok x = true <-> LeaseEntry_Token x = tok) as Htok.
  { intros x. unfold token_matches, LeaseEntry_Token, str_eqb. rewrite !andb_true_iff, !bool_decide_eq_true, Z.eqb_eq.
    destruct tok; cbn. naive_solver. }
  split.
  - unfold LeaseStore_Remove, LeaseStore_mutate, snapshotUnlocked.
    match goal with |- context [mutate _ _ _ _ _ ?ap _ _] =>
      pose proof (mutate_spec marshal unmarshal size LeaseRegistryVersion maxLeaseRegistryBytes ap fault file) as Hm end.
    destruct (mutate _ _ _ _ _ _ _ _) as [[err|] file']; [done|].
    destruct Hm as (old & entries & Hr & [= <-] & ->). exists old. eexists. split; [done|]. split; [done|].
    intros x. rewrite !list_elem_of_In, filter_In, andb_true_iff, negb_true_iff.
    rewrite <- (not_true_iff_false (token_matches tok x)), Htok. tauto.
  - unfold LeaseStore_Renew. destruct (_ || _) eqn:Eg; [done|].
    rewrite !orb_false_iff, negb_false_iff in Eg. destruct Eg as [[_ Ea] Es]. unfold After in Ea.
    apply Z.ltb_lt in Ea. apply Z.ltb_ge in Es.
    unfold LeaseStore_mutate, snapshotUnlocked.
    match goal with |- context [mutate _ _ _ _ _ ?ap _ _] =>
      pose proof (mutate_spec marshal unmarshal size LeaseRegistryVersion maxLeaseRegistryBytes ap fault file) as Hm end.
    destruct (mutate _ _ _ _ _ _ _ _) as [[err|] file']; [done|].
    destruct Hm as (old & entries & Hr & Ha & ->). exists old, entries. split; [done|]. split; [done|].
    apply result_bind_ok in Ha as ([rest found] & Hl & Ha). destruct found; [|done]. injection Ha as ->.
    apply renew_loop_spec in Hl as (H2 & H3). split; [|split].
    + unfold Sub in Es. assert (MaxLease < 2 ^ 63 - 1) by (unfold MaxLease, hour, second; lia). lia.
    + destruct (H2 eq_refl) as (x & Hx & Hlv & Hm). exists x. split; [done|]. split; [done|]. by apply Htok.
    + eapply Forall2_impl; [exact H3|]. intros x y (Hx1 & Hx2 & Hx3). split_and!; [done..|].
      intros Hx. destruct (Hx3 Hx). split; [by apply Htok|done].
Qed.

End SessionRouteProofs.
