(* ===== verification/Storage.v ===== *)
(** * Storage adapters (storageadapter)

    memory.go, file.go, wrappers.go, migrate.go, registry.go and config.go:
    the in-memory and file engines, the bounding and namespacing wrappers that
    [Open] puts around an engine, configuration, and migration between stores.
    A transaction callback is a program over the four operations of [Tx];
    each wrapper transforms that program as its [Tx] wrapper does. *)

From S2P Require Import Prelude GoStrings GoEncoding.

Module Storage.
Import GoStrings GoEncoding.

Inductive store_error : Type :=
| ErrNotFound
| ErrConflict
| ErrReadOnly
| ErrClosed
| ErrEngineUnavailable
| ErrNilStore
| ErrEmptyKey
| ErrBound
| ErrLimit
| ErrCanceled
| ErrConfig
| ErrRegistration
| ErrCorrupt
| ErrTooLarge
| ErrIO
| ErrCallback (code : Z)
| ErrPanic.

(** Byte slices keep Go's difference between nil ([None]) and empty. *)
Abbreviation slice := (option bytes).
Definition contents (s : slice) : bytes := default [] s.
(** [append([]byte(nil), value...)]: nil when there is nothing to append. *)
Definition clone (v : bytes) : slice := match v with [] => None | _ => Some v end.

Abbreviation values := (gmap bytes bytes).

(** ** Transactions *)

Inductive tx_prog : Type :=
| TxReturn (err : option store_error)
| TxGet (key : bytes) (k : result store_error slice -> tx_prog)
| TxPut (key : bytes) (value : slice) (k : option store_error -> tx_prog)
| TxDelete (key : bytes) (k : option store_error -> tx_prog)
| TxCAS (key : bytes) (oldValue newValue : slice) (k : option store_error -> tx_prog).

(** The methods of [mapTx]. *)
Definition mapTx_Get (m : values) (key : bytes) : result store_error slice :=
  match m !! key with None => Err ErrNotFound | Some v => Ok (clone v) end.

Definition mapTx_Put (m : values) (key : bytes) (value : slice) : option store_error * values :=
  if len key =? 0 then (Some ErrEmptyKey, m) else (None, <[key := contents value]> m).

Definition mapTx_Delete (m : values) (key : bytes) : option store_error * values :=
  if len key =? 0 then (Some ErrEmptyKey, m) else (None, delete key m).

Definition mapTx_CompareAndSwap (m : values) (key : bytes) (oldValue newValue : slice) : option store_error * values :=
  let conflict :=
    match oldValue, m !! key with
    | None, Some _ => true
    | None, None => false
    | Some _, None => true
    | Some o, Some current => negb (str_eqb current o)
    end in
  if conflict then (Some ErrConflict, m) else
  match newValue with
  | None => (None, delete key m)
  | Some n => (None, <[key := n]> m)
  end.

(** Run a callback on a working copy. *)
Fixpoint run (p : tx_prog) (m : values) : option store_error * values :=
  match p with
  | TxReturn err => (err, m)
  | TxGet key k => run (k (mapTx_Get m key)) m
  | TxPut key v k => let '(e, m') := mapTx_Put m key v in run (k e) m'
  | TxDelete key k => let '(e, m') := mapTx_Delete m key in run (k e) m'
  | TxCAS key o n k => let '(e, m') := mapTx_CompareAndSwap m key o n in run (k e) m'
  end.

(** ** Scans *)

Record ScanOptions := mkScan {
  Prefix : bytes;
  After_ : bytes;
  Limit : Z
}.

Record Entry := mkEntry {
  Key : bytes;
  Value : slice
}.

(** [bytes.HasPrefix(key, prefix)] and, if [after] is not empty, [key > after]. *)
Definition in_scan (prefix after key : bytes) : bool :=
  negb (negb (HasPrefix key prefix) || ((0 <? len after) && negb (str_ltb after key))).

Definition scan_keys (m : values) (prefix after : bytes) : list bytes :=
  sort_by str_ltb (List.filter (in_scan prefix after) ((map_to_list m).*1)).

(** [keys[:limit]] panics for a negative limit. *)
Definition scan_values (m : values) (o : ScanOptions) : result store_error (list Entry) :=
  let keys := scan_keys m (Prefix o) (After_ o) in
  let entry key := mkEntry key (clone (default [] (m !! key))) in
  if Limit o <? len keys then
    if Limit o <? 0 then Err ErrPanic else Ok (entry <$> take (Z.to_nat (Limit o)) keys)
  else Ok (entry <$> keys).

(** ** The [Store] interface

    The first argument of [store_update] tells whether the context is already
    done; callbacks are never nil here. *)

Class Store (S : Type) : Type := {
  store_get : S -> bytes -> result store_error slice;
  store_scan : S -> ScanOptions -> result store_error (list Entry);
  store_update : bool -> S -> tx_prog -> option store_error * S
}.

(** ** The memory engine (memory.go) *)

Record memoryStore := mkMemory {
  m_values : values;
  m_closed : bool;
  m_lastErr : option store_error
}.

Definition openMemory : memoryStore := mkMemory ∅ false None.

Definition memory_Get (s : memoryStore) (key : bytes) : result store_error slice :=
  if m_closed s then Err ErrClosed else mapTx_Get (m_values s) key.

Definition memory_Scan (s : memoryStore) (o : ScanOptions) : result store_error (list Entry) :=
  if m_closed s then Err ErrClosed else scan_values (m_values s) o.

Definition memory_Update (done : bool) (s : memoryStore) (fn : tx_prog) : option store_error * memoryStore :=
  if done then (Some ErrCanceled, s) else
  if m_closed s then (Some ErrClosed, s) else
  match run fn (m_values s) with
  | (Some err, _) => (Some err, mkMemory (m_values s) (m_closed s) (Some err))
  | (None, working) => (None, mkMemory working (m_closed s) None)
  end.

(** Number of entries and total bytes. *)
Definition memory_Snapshot (s : memoryStore) : Z * Z * option store_error :=
  (Z.of_nat (size (m_values s)), map_fold (fun k v acc => u64 (acc + (len k + len v))) 0 (m_values s), m_lastErr s).

Definition memory_Close (s : memoryStore) : memoryStore :=
  if m_closed s then s else mkMemory ∅ true (m_lastErr s).

#[global] Instance memory_store : Store memoryStore := {|
  store_get := memory_Get;
  store_scan := memory_Scan;
  store_update := memory_Update
|}.

(** ** The bounding wrapper (wrappers.go) *)

Record Config := mkConfig {
  c_Version : bytes;
  c_Engine : bytes;
  c_Namespace : bytes;
  c_Path : bytes;
  c_DSN : bytes;
  c_ReadOnly : bool;
  c_MaxKeyBytes : Z;
  c_MaxValueBytes : Z;
  c_Options : gmap bytes bytes
}.

Definition bad_key (c : Config) (key : bytes) : bool := (len key =? 0) || (c_MaxKeyBytes c <? len key).
Definition bad_value (c : Config) (value : slice) : bool := c_MaxValueBytes c <? len (contents value).

(** [boundedTx]: what the engine's transaction sees of a callback that runs on the wrapper. *)
Fixpoint boundedTx (c : Config) (p : tx_prog) : tx_prog :=
  match p with
  | TxReturn err => TxReturn err
  | TxGet key k =>
      if bad_key c key then boundedTx c (k (Err ErrBound)) else
      TxGet key (fun r => boundedTx c (k (match r with
        | Err e => Err e
        | Ok v => if bad_value c v then Err ErrBound else Ok (clone (contents v))
        end)))
  | TxPut key v k =>
      if bad_key c key || bad_value c v then boundedTx c (k (Some ErrBound)) else
      TxPut key v (fun e => boundedTx c (k e))
  | TxDelete key k =>
      if bad_key c key then boundedTx c (k (Some ErrBound)) else
      TxDelete key (fun e => boundedTx c (k e))
  | TxCAS key o n k =>
      if bad_key c key || bad_value c o || bad_value c n then boundedTx c (k (Some ErrBound)) else
      TxCAS key o n (fun e => boundedTx c (k e))
  end.

Record boundedStore (S : Type) := mkBounded {
  b_inner : S;
  b_config : Config
}.
Arguments mkBounded {S}.
Arguments b_inner {S}.
Arguments b_config {S}.

Section Bounded.
Context {S : Type} `{Store S}.

Definition bounded_Get (s : boundedStore S) (key : bytes) : result store_error slice :=
  if bad_key (b_config s) key then Err ErrBound else
  let* value := store_get (b_inner s) key in
  if bad_value (b_config s) value then Err ErrBound else Ok (clone (contents value)).

Definition bounded_Scan (s : boundedStore S) (o : ScanOptions) : result store_error (list Entry) :=
  let c := b_config s in
  if (c_MaxKeyBytes c <? len (Prefix o)) || (c_MaxKeyBytes c <? len (After_ o)) then Err ErrBound else
  if (Limit o <=? 0) || (10000 <? Limit o) then Err ErrLimit else
  let* entries := store_scan (b_inner s) o in
  if existsb (fun e => bad_key c (Key e) || bad_value c (Value e)) entries then Err ErrBound else
  Ok ((fun e => mkEntry (Key e) (clone (contents (Value e)))) <$> entries).

Definition bounded_Update (done : bool) (s : boundedStore S) (fn : tx_prog) : option store_error * boundedStore S :=
  if c_ReadOnly (b_config s) then (Some ErrReadOnly, s) else
  let '(e, inner) := store_update done (b_inner s) (boundedTx (b_config s) fn) in
  (e, mkBounded inner (b_config s)).

#[global] Instance bounded_store : Store (boundedStore S) := {|
  store_get := bounded_Get;
  store_scan := bounded_Scan;
  store_update := bounded_Update
|}.

End Bounded.

(** ** The namespace wrapper (wrappers.go) *)

Definition bad_logical (key : bytes) : bool := len key =? 0.

Fixpoint namespaceTx (ns : bytes) (p : tx_prog) : tx_prog :=
  match p with
  | TxReturn err => TxReturn err
  | TxGet key k =>
      if bad_logical key then namespaceTx ns (k (Err ErrEmptyKey)) else
      TxGet (ns ++ key) (fun r => namespaceTx ns (k r))
  | TxPut key v k =>
      if bad_logical key then namespaceTx ns (k (Some ErrEmptyKey)) else
      TxPut (ns ++ key) v (fun e => namespaceTx ns (k e))
  | TxDelete key k =>
      if bad_logical key then namespaceTx ns (k (Some ErrEmptyKey)) else
      TxDelete (ns ++ key) (fun e => namespaceTx ns (k e))
  | TxCAS key o n k =>
      if bad_logical key then namespaceTx ns (k (Some ErrEmptyKey)) else
      TxCAS (ns ++ key) o n (fun e => namespaceTx ns (k e))
  end.

Record namespaceStore (S : Type) := mkNamespace {
  n_inner : S;
  n_namespace : bytes
}.
Arguments mkNamespace {S}.
Arguments n_inner {S}.
Arguments n_namespace {S}.

(** The loop of [Scan]: entries outside the namespace are skipped, an empty
    logical key is an error. *)
Fixpoint strip_entries (ns : bytes) (entries : list Entry) : result store_error (list Entry) :=
  match entries with
  | [] => Ok []
  | e :: r =>
      if negb (HasPrefix (Key e) ns) then strip_entries ns r else
      let logical := drop (length ns) (Key e) in
      if len logical =? 0 then Err ErrEmptyKey else
      let* out := strip_entries ns r in
      Ok (mkEntry logical (Value e) :: out)
  end.

Section Namespace.
Context {S : Type} `{Store S}.

Definition namespace_Get (s : namespaceStore S) (key : bytes) : result store_error slice :=
  if bad_logical key then Err ErrEmptyKey else store_get (n_inner s) (n_namespace s ++ key).

Definition namespace_Scan (s : namespaceStore S) (o : ScanOptions) : result store_error (list Entry) :=
  let ns := n_namespace s in
  let after := if 0 <? len (After_ o) then ns ++ After_ o else [] in
  let* entries := store_scan (n_inner s) (mkScan (ns ++ Prefix o) after (Limit o)) in
  strip_entries ns entries.

Definition namespace_Update (done : bool) (s : namespaceStore S) (fn : tx_prog) : option store_error * namespaceStore S :=
  let '(e, inner) := store_update done (n_inner s) (namespaceTx (n_namespace s) fn) in
  (e, mkNamespace inner (n_namespace s)).

#[global] Instance namespace_store : Store (namespaceStore S) := {|
  store_get := namespace_Get;
  store_scan := namespace_Scan;
  store_update := namespace_Update
|}.

End Namespace.

(** ** Migration (migrate.go) *)

Record MigrateOptions := mkMigrateOptions {
  mo_Prefix : bytes;
  mo_BatchSize : Z;
  mo_Replace : bool
}.

Record MigrateReport := mkReport {
  r_Entries : Z;
  r_Bytes : Z;
  r_Batches : Z
}.

(** The callback given to the destination. *)
Fixpoint copy_batch (replace : bool) (entries : list Entry) : tx_prog :=
  match entries with
  | [] => TxReturn None
  | e :: r =>
      let put := TxPut (Key e) (Value e) (fun err =>
        match err with Some err => TxReturn (Some err) | None => copy_batch replace r end) in
      if replace then put else
      TxGet (Key e) (fun res =>
        match res with
        | Ok _ => TxReturn (Some ErrConflict)
        | Err ErrNotFound => put
        | Err err => TxReturn (Some err)
        end)
  end.

Definition count_batch (report : MigrateReport) (entries : list Entry) : MigrateReport :=
  fold_left (fun r e => mkReport (u64 (r_Entries r + 1))
                                 (u64 (r_Bytes r + (len (Key e) + len (contents (Value e)))))
                                 (r_Batches r))
    entries (mkReport (r_Entries report) (r_Bytes report) (u64 (r_Batches report + 1))).

Inductive migrated (D : Type) : Type :=
| Migrated (report : MigrateReport) (err : option store_error) (destination : D)
| OutOfFuel.
Arguments Migrated {D}.
Arguments OutOfFuel {D}.

Section Migrate.
Context {S D : Type} `{Store S} `{Store D}.

(** The loop of [Migrate]; [done] is what each poll of the context finds:
    once before the scan, once more inside the destination's [Update]. *)
Fixpoint migrate_loop (fuel : nat) (done : nat -> bool * bool) (source : S) (destination : D)
    (o : MigrateOptions) (after : bytes) (report : MigrateReport) : migrated D :=
  match fuel with
  | O => OutOfFuel
  | Datatypes.S fuel =>
    if fst (done fuel) then Migrated report (Some ErrCanceled) destination else
    match store_scan source (mkScan (mo_Prefix o) after (mo_BatchSize o)) with
    | Err e => Migrated report (Some e) destination
    | Ok [] => Migrated report None destination
    | Ok entries =>
      match store_update (snd (done fuel)) destination (copy_batch (mo_Replace o) entries) with
      | (Some e, destination) => Migrated report (Some e) destination
      | (None, destination) =>
        let report := count_batch report entries in
        let after := default [] (Key <$> last entries) in
        if len entries <? mo_BatchSize o then Migrated report None destination else
        if (0 <? len (mo_Prefix o)) && negb (HasPrefix after (mo_Prefix o)) then Migrated report None destination else
        migrate_loop fuel done source destination o after report
      end
    end
  end.

Definition Migrate (fuel : nat) (done : nat -> bool * bool) (source : S) (destination : D) (o : MigrateOptions) : migrated D :=
  let size := if mo_BatchSize o <=? 0 then 256 else mo_BatchSize o in
  if 10000 <? size then Migrated (mkReport 0 0 0) (Some ErrLimit) destination else
  migrate_loop fuel done source destination (mkMigrateOptions (mo_Prefix o) size (mo_Replace o)) [] (mkReport 0 0 0).

End Migrate.

(** ** Configuration (config.go) *)

Definition ConfigVersion : bytes := str "weaverssh.storage.v1".
Definition defaultMaxKeyBytes : Z := 4 * 2 ^ 10.
Definition defaultMaxValueBytes : Z := 16 * 2 ^ 20.
Definition maximumKeyBytes : Z := 64 * 2 ^ 10.
Definition maximumValueBytes : Z := 128 * 2 ^ 20.

Definition token_rune (r : Z) : bool :=
  (r =? 45) || (r =? 95) || (r =? 46) || ((97 <=? r) && (r <=? 122)) || ((48 <=? r) && (r <=? 57)).

Definition validToken (value : bytes) (maximum : Z) : bool :=
  negb ((len value =? 0) || (maximum <? len value)) && forallb token_rune (runes value).

(** [strings.ContainsAny(value, "\x00\r\n")]. *)
Definition has_break (value : bytes) : bool := existsb (fun b => (b =? 0) || (b =? 13) || (b =? 10)) value.

Section Configuration.
Context `{UnicodeTables}.

Definition validNamespace (value : bytes) : bool :=
  if (512 <? len value) || has_double_slash value then false else
  forallb (fun part => validToken (ToLower part) 128) (split_slash value).

Definition cleanOptions (input : gmap bytes bytes) : gmap bytes bytes :=
  fold_left (fun output key =>
    let value := TrimSpace (default [] (input !! key)) in
    let key := ToLower (TrimSpace key) in
    if validToken key 128 && (len value <=? 4096) && negb (has_break value) then <[key := value]> output else output)
    (sort_by str_ltb ((map_to_list input).*1)) ∅.

Definition Config_Normalize (c : Config) : result store_error Config :=
  let version := TrimSpace (c_Version c) in
  let version := if len version =? 0 then ConfigVersion else version in
  if negb (str_eqb version ConfigVersion) then Err ErrConfig else
  let engine := ToLower (TrimSpace (c_Engine c)) in
  if len engine =? 0 then Err ErrConfig else
  if negb (validToken engine 64) then Err ErrConfig else
  let namespace := trim_slash (TrimSpace (c_Namespace c)) in
  if negb (len namespace =? 0) && negb (validNamespace namespace) then Err ErrConfig else
  let path := TrimSpace (c_Path c) in
  let dsn := TrimSpace (c_DSN c) in
  if has_break path || has_break dsn then Err ErrConfig else
  let maxKey := if c_MaxKeyBytes c =? 0 then defaultMaxKeyBytes else c_MaxKeyBytes c in
  let maxValue := if c_MaxValueBytes c =? 0 then defaultMaxValueBytes else c_MaxValueBytes c in
  if (maxKey <? 1) || (maximumKeyBytes <? maxKey) then Err ErrConfig else
  if (maxValue <? 1) || (maximumValueBytes <? maxValue) then Err ErrConfig else
  Ok (mkConfig version engine namespace path dsn (c_ReadOnly c) maxKey maxValue (cleanOptions (c_Options c))).

(** ** The engine registry (registry.go) *)

(** A factory may fail or return a nil store; [None] is a nil factory. *)
Abbreviation Factory S := (Config -> result store_error (option S)).

Definition Registry_Register {S} (r : gmap bytes (Factory S)) (name : bytes) (factory : option (Factory S)) :
    option store_error * gmap bytes (Factory S) :=
  let name := ToLower (TrimSpace name) in
  match factory with
  | None => (Some ErrRegistration, r)
  | Some f =>
    if negb (validToken name 64) then (Some ErrRegistration, r) else
    match r !! name with
    | Some _ => (Some ErrRegistration, r)
    | None => (None, <[name := f]> r)
    end
  end.

Inductive opened (S : Type) : Type :=
| OpenBounded (s : boundedStore S)
| OpenNamespace (s : namespaceStore (boundedStore S)).
Arguments OpenBounded {S}.
Arguments OpenNamespace {S}.

Definition Registry_Open {S} (r : gmap bytes (Factory S)) (config : Config) : result store_error (opened S) :=
  let* normalized := Config_Normalize config in
  match r !! c_Engine normalized with
  | None => Err ErrEngineUnavailable
  | Some factory =>
    let* store := factory normalized in
    match store with
    | None => Err ErrNilStore
    | Some store =>
      let bounded := mkBounded store normalized in
      if len (c_Namespace normalized) =? 0 then Ok (OpenBounded bounded)
      else Ok (OpenNamespace (mkNamespace bounded (c_Namespace normalized ++ str "/")))
    end
  end.

Definition Registry_Engines {S} (r : gmap bytes (Factory S)) : list bytes :=
  sort_by str_ltb ((map_to_list r).*1).

End Configuration.

(** ** The file engine (file.go) *)

Definition fileStoreVersion : bytes := str "weaverssh.storage-file.v1".

Record fileDocument := mkDocument {
  d_Version : bytes;
  d_Values : gmap bytes bytes
}.

(** [base64.RawStdEncoding]: the URL alphabet with [+] and [/] for [-] and [_]. *)
Definition to_std (c : Z) : Z := if c =? 45 then 43 else if c =? 95 then 47 else c.
Definition from_std (c : Z) : Z := if c =? 43 then 45 else if c =? 47 then 95 else c.
Definition std_encode (b : bytes) : bytes := to_std <$> b64_encode b.
Definition std_decode (s : bytes) : option bytes :=
  if existsb (fun c => (c =? 45) || (c =? 95)) s then None else b64_decode (from_std <$> s).

(** Which of the system calls of one [persist] fail. *)
Record persist_io := mkIO {
  io_create : bool;
  io_chmod : bool;
  io_write : bool;
  io_sync : bool;
  io_close : bool;
  io_rename : bool;
  io_remove : bool;
  io_rename_again : bool
}.
Definition io_fine : persist_io := mkIO false false false false false false false false.

(** [f_disk] is the content of the file at [path], [f_io] the outcomes of the
    next calls of [persist]; when the list ends nothing fails any more. *)
Record fileStore := mkFile {
  f_values : values;
  f_closed : bool;
  f_lastErr : option store_error;
  f_disk : option bytes;
  f_io : list persist_io
}.

(** The outcome and what is left at [destination]; removing a missing file is no error. *)
Definition replaceFile (io : persist_io) (payload : bytes) (disk : option bytes) : option store_error * option bytes :=
  if negb (io_rename io) then (None, Some payload) else
  if io_remove io then (Some ErrIO, disk) else
  if io_rename_again io then (Some ErrIO, None) else (None, Some payload).

Definition file_document (m : values) : fileDocument :=
  mkDocument fileStoreVersion (list_to_map ((fun kv => (std_encode kv.1, std_encode kv.2)) <$> map_to_list m)).

Definition load_entry (acc : option values) (kv : bytes * bytes) : option values :=
  match acc, std_decode kv.1, std_decode kv.2 with
  | Some m, Some key, Some value => if len key =? 0 then None else Some (<[key := value]> m)
  | _, _, _ => None
  end.

(** [encoding/json] on the document: its rendering and [Decode] with unknown fields refused. *)
Section FileEngine.
Context (json_marshal : fileDocument -> bytes) (json_decode : bytes -> option fileDocument).

Definition persist (s : fileStore) (m : values) : option store_error * fileStore :=
  let payload := json_marshal (file_document m) in
  if 256 * 2 ^ 20 <? len payload then (Some ErrTooLarge, s) else
  let io := default io_fine (head (f_io s)) in
  let after disk := mkFile (f_values s) (f_closed s) (f_lastErr s) disk (tail (f_io s)) in
  if io_create io || io_chmod io || io_write io || io_sync io || io_close io then (Some ErrIO, after (f_disk s)) else
  let '(err, disk) := replaceFile io payload (f_disk s) in
  (err, after disk).

Definition set_values (m : values) (s : fileStore) : fileStore :=
  mkFile m (f_closed s) (f_lastErr s) (f_disk s) (f_io s).
Definition set_lastErr (e : option store_error) (s : fileStore) : fileStore :=
  mkFile (f_values s) (f_closed s) e (f_disk s) (f_io s).

Definition load (read_fails : bool) (s : fileStore) : option store_error * fileStore :=
  match f_disk s with
  | None => persist s (f_values s)
  | Some payload =>
    if read_fails then (Some ErrIO, s) else
    if (len payload =? 0) || (256 * 2 ^ 20 <? len payload) then (Some ErrTooLarge, s) else
    match json_decode payload with
    | None => (Some ErrCorrupt, s)
    | Some document =>
      if negb (str_eqb (d_Version document) fileStoreVersion) then (Some ErrCorrupt, s) else
      match fold_left load_entry (map_to_list (d_Values document)) (Some ∅) with
      | None => (Some ErrCorrupt, s)
      | Some m => (None, set_values m s)
      end
    end
  end.

(** [path] as configured; resolving it and creating its directory may fail. *)
Definition openFile (path : bytes) (prepare_fails read_fails : bool) (disk : option bytes) (io : list persist_io) :
    option store_error * fileStore :=
  let store := mkFile ∅ false None disk io in
  if len (TrimSpace path) =? 0 then (Some ErrConfig, store) else
  if prepare_fails then (Some ErrIO, store) else load read_fails store.

Definition file_Get (s : fileStore) (key : bytes) : result store_error slice :=
  if f_closed s then Err ErrClosed else mapTx_Get (f_values s) key.

Definition file_Scan (s : fileStore) (o : ScanOptions) : result store_error (list Entry) :=
  if f_closed s then Err ErrClosed else scan_values (f_values s) o.

Definition file_Update (done : bool) (s : fileStore) (fn : tx_prog) : option store_error * fileStore :=
  if done then (Some ErrCanceled, s) else
  if f_closed s then (Some ErrClosed, s) else
  match run fn (f_values s) with
  | (Some err, _) => (Some err, set_lastErr (Some err) s)
  | (None, working) =>
    match persist s working with
    | (Some err, s) => (Some err, set_lastErr (Some err) s)
    | (None, s) => (None, set_lastErr None (set_values working s))
    end
  end.

Definition file_Close (s : fileStore) : fileStore :=
  mkFile ∅ true (f_lastErr s) (f_disk s) (f_io s).

Definition file_store : Store fileStore := {|
  store_get := file_Get;
  store_scan := file_Scan;
  store_update := file_Update
|}.

End FileEngine.

End Storage.
