(* ===== verification/StorageProofs.v ===== *)
(** * Storage adapters: proofs

    The laws of a plain store as an interface that the engines and both
    wrappers satisfy, isolation of namespaces, atomicity and durability of the
    file engine, and completeness of migration, which is proved against the
    interface alone. *)

From S2P Require Import Prelude GoStrings GoEncoding Storage.

Module StorageProofs.
Import GoStrings GoEncoding Storage.

(** ** Ordered scans *)

Lemma str_ltb_app_same ns a b : str_ltb (ns ++ a) (ns ++ b) = str_ltb a b.
Proof.
  induction ns as [|c ns IH]; [done|]. simpl. by rewrite Z.ltb_irrefl, Z.eqb_refl, IH.
Qed.

Lemma contents_clone v : contents (clone v) = v.
Proof. by destruct v. Qed.

Lemma in_scan_spec prefix after k :
  in_scan prefix after k = true <-> HasPrefix k prefix = true /\ (after = [] \/ str_ltb after k = true).
Proof.
  unfold in_scan. destruct after as [|c r]; rewrite negb_orb, negb_involutive, andb_true_iff.
  - change (0 <? len (@nil Z)) with false. naive_solver.
  - replace (0 <? len (c :: r)) with true by (symmetry; apply Z.ltb_lt; unfold len; simpl; lia).
    rewrite andb_true_l, negb_involutive. naive_solver.
Qed.

Lemma elem_of_scan_keys m prefix after k :
  k ∈ scan_keys m prefix after <-> is_Some (m !! k) /\ in_scan prefix after k = true.
Proof.
  unfold scan_keys. rewrite elem_of_sort_by, list_elem_of_In, filter_In, <- list_elem_of_In, elem_of_keys. done.
Qed.

Lemma NoDup_scan_keys m prefix after : NoDup (scan_keys m prefix after).
Proof.
  unfold scan_keys. rewrite sort_by_perm. apply NoDup_ListNoDup, List.NoDup_filter, NoDup_ListNoDup, NoDup_fst_map_to_list.
Qed.

(** A scan is the ordered list of the keys it selects: three facts pin it down. *)
Lemma scan_keys_unique m prefix after l :
  in_order str_ltb l -> NoDup l ->
  (forall k, k ∈ l <-> is_Some (m !! k) /\ in_scan prefix after k = true) -> l = scan_keys m prefix after.
Proof.
  intros Ho Hn Hk. apply in_order_unique; [done|apply str_sort_in_order|].
  apply NoDup_Permutation; [done|apply NoDup_scan_keys|]. intros k. by rewrite Hk, elem_of_scan_keys.
Qed.

Lemma in_order_app l1 l2 : in_order str_ltb (l1 ++ l2) ->
  in_order str_ltb l2 /\ forall x y, x ∈ l1 -> y ∈ l2 -> str_ltb y x = false.
Proof.
  induction l1 as [|z l1 IH]; [split; [done|set_solver]|]. intros Hs. inversion Hs as [|? ? Hr Hz]; subst.
  destruct (IH Hr) as [H1 H2]. split; [done|]. intros x y Hx Hy. apply elem_of_cons in Hx as [->|Hx]; [|by apply H2].
  rewrite Forall_forall in Hz. apply Hz. set_solver.
Qed.

Lemma str_ltb_cases a b : a <> b -> str_ltb b a = false -> str_ltb a b = true.
Proof. intros Hn Hb. destruct (str_ltb a b) eqn:E; [done|]. by pose proof (str_ltb_total _ _ E Hb). Qed.

Lemma str_ltb_trans a b c : str_ltb a b = true -> str_ltb b c = true -> str_ltb a c = true.
Proof.
  intros Hab Hbc. apply str_ltb_cases.
  - intros ->. apply str_ltb_asym in Hbc. congruence.
  - apply (str_nltb_trans a b c); by apply str_ltb_asym.
Qed.

(** Resuming a scan after the last key of a batch gives the rest. *)
Lemma scan_keys_resume m prefix after l1 a l2 :
  a <> [] -> scan_keys m prefix after = (l1 ++ [a]) ++ l2 -> scan_keys m prefix a = l2.
Proof.
  intros Ha E. pose proof (str_sort_in_order (List.filter (in_scan prefix after) (map_to_list m).*1)) as Ho.
  change (in_order str_ltb (scan_keys m prefix after)) in Ho. pose proof (NoDup_scan_keys m prefix after) as Hn.
  pose proof (fun k => elem_of_scan_keys m prefix after k) as Hk. rewrite E in Ho, Hn, Hk.
  apply in_order_app in Ho as Ho2. destruct Ho2 as [Ho2 Hlt]. rewrite <- app_assoc in Ho.
  apply in_order_app in Ho as [_ Hle]. apply NoDup_app in Hn as (Hn1 & Hd & Hn2).
  symmetry. apply scan_keys_unique; [done|done|]. intros k. rewrite in_scan_spec. split.
  - intros Hin. destruct (Hk k) as [Hk1 _]. destruct (Hk1 ltac:(set_solver)) as [Hs Hi].
    apply in_scan_spec in Hi as [Hp _]. repeat split; [done..|]. right. apply str_ltb_cases.
    + intros ->. apply (Hd k); set_solver.
    + apply Hlt; set_solver.
  - intros (Hs & Hp & [?|Hak]); [done|]. destruct (Hk a) as [Hka _]. destruct (Hka ltac:(set_solver)) as [_ Hia].
    apply in_scan_spec in Hia as [_ Haf].
    assert (k ∈ (l1 ++ [a]) ++ l2) as Hin.
    { apply Hk. split; [done|]. apply in_scan_spec. split; [done|]. destruct Haf as [->|Haf]; [by left|].
      right. exact (str_ltb_trans _ _ _ Haf Hak). }
    apply elem_of_app in Hin as [Hin|Hin]; [exfalso|exact Hin]. apply elem_of_app in Hin as [Hin|Hin].
    + rewrite (Hle k a) in Hak; [done|done|set_solver].
    + apply list_elem_of_singleton in Hin as ->. by rewrite str_ltb_irrefl in Hak.
Qed.

(** ** The contract of a store *)

(** Every key and value the callback names is acceptable, whatever it reads. *)
Inductive within (key_ok value_ok : bytes -> Prop) : tx_prog -> Prop :=
| within_return e : within key_ok value_ok (TxReturn e)
| within_get k c : key_ok k -> (forall r, within key_ok value_ok (c r)) -> within key_ok value_ok (TxGet k c)
| within_put k v c : key_ok k -> value_ok (contents v) -> (forall e, within key_ok value_ok (c e)) ->
    within key_ok value_ok (TxPut k v c)
| within_delete k c : key_ok k -> (forall e, within key_ok value_ok (c e)) -> within key_ok value_ok (TxDelete k c)
| within_cas k o n c : key_ok k -> value_ok (contents o) -> value_ok (contents n) ->
    (forall e, within key_ok value_ok (c e)) -> within key_ok value_ok (TxCAS k o n c).

(** What one transaction on the map [m] yields: its error and the new map. *)
Definition transact (p : tx_prog) (m : values) : option store_error * values :=
  match run p m with (None, m') => (None, m') | (Some e, _) => (Some e, m) end.

(** A plain store: within its limits it behaves like the finite map [view]
    and its transactions are atomic. *)
Class PlainStore (S : Type) `{Store S} : Type := {
  view : S -> values;
  is_open : S -> Prop;
  writable : S -> Prop;
  key_ok : S -> bytes -> Prop;
  value_ok : S -> bytes -> Prop;
  prefix_ok : S -> bytes -> Prop;
  key_nonempty : forall s k, key_ok s k -> k <> [];
  view_ok : forall s k v, is_open s -> view s !! k = Some v -> key_ok s k /\ value_ok s v;
  plain_get : forall s k, is_open s -> key_ok s k -> store_get s k = mapTx_Get (view s) k;
  plain_scan : forall s o, is_open s -> prefix_ok s (Prefix o) -> (After_ o = [] \/ key_ok s (After_ o)) ->
    1 <= Limit o <= 10000 -> store_scan s o = scan_values (view s) o;
  plain_update : forall s p, is_open s -> writable s -> within (key_ok s) (value_ok s) p ->
    exists s', store_update false s p = (fst (transact p (view s)), s') /\
      view s' = snd (transact p (view s)) /\ is_open s' /\ writable s' /\
      key_ok s' = key_ok s /\ value_ok s' = value_ok s
}.

Lemma mapTx_Get_ok m k v : mapTx_Get m k = Ok v -> exists w, m !! k = Some w /\ v = clone w.
Proof. unfold mapTx_Get. destruct (m !! k) as [w|]; [|done]. intros [= <-]. by exists w. Qed.

(** A transaction within the limits keeps every entry within them. *)
Lemma run_ok (ko vo : bytes -> Prop) p m : within ko vo p ->
  (forall k v, m !! k = Some v -> ko k /\ vo v) -> forall k v, snd (run p m) !! k = Some v -> ko k /\ vo v.
Proof.
  intros Hw. revert m. induction Hw as [e|k c Hk _ IH|k v c Hk Hv _ IH|k c Hk _ IH|k o n c Hk Ho Hn _ IH];
    intros m Hm; simpl; [done|by apply IH|..].
  - unfold mapTx_Put. destruct (len k =? 0); apply IH; [done|]. intros k' v'. rewrite lookup_insert_Some. naive_solver.
  - unfold mapTx_Delete. destruct (len k =? 0); apply IH; [done|]. intros k' v'. rewrite lookup_delete_Some. naive_solver.
  - unfold mapTx_CompareAndSwap. destruct (match o with None => _ | Some _ => _ end); [by apply IH|].
    destruct n as [n|]; apply IH; intros k' v'; [rewrite lookup_insert_Some|rewrite lookup_delete_Some]; naive_solver.
Qed.

Lemma transact_ok (ko vo : bytes -> Prop) p m : within ko vo p ->
  (forall k v, m !! k = Some v -> ko k /\ vo v) -> forall k v, snd (transact p m) !! k = Some v -> ko k /\ vo v.
Proof.
  intros Hw Hm. unfold transact. pose proof (run_ok ko vo p m Hw Hm) as Hr. by destruct (run p m) as [[e|] m'].
Qed.

(** *** The memory engine *)

Definition memory_ok (s : memoryStore) : Prop := m_closed s = false /\ m_values s !! [] = None.

#[global] Program Instance memory_plain : PlainStore memoryStore := {|
  view := m_values;
  is_open := memory_ok;
  writable := fun _ => True;
  key_ok := fun _ k => k <> [];
  value_ok := fun _ _ => True;
  prefix_ok := fun _ _ => True
|}.
Next Obligation. done. Qed.
Next Obligation. intros s k v [_ Hn] Hv. split; [by intros ->; rewrite Hv in Hn|done]. Qed.
Next Obligation. intros s k [Hc _] _. simpl. unfold memory_Get. by rewrite Hc. Qed.
Next Obligation. intros s o [Hc _] _ _ _. simpl. unfold memory_Scan. by rewrite Hc. Qed.
Next Obligation.
  intros s p [Hc Hn] _ Hw. simpl. unfold memory_Update. rewrite Hc.
  pose proof (transact_ok _ _ p (m_values s) Hw) as Ht. unfold transact in *.
  assert (forall k v, m_values s !! k = Some v -> k <> [] /\ True) as Hm
    by (intros k v Hv; split; [by intros ->; rewrite Hv in Hn|done]).
  specialize (Ht Hm). destruct (run p (m_values s)) as [[e|] m']; simpl in *; eexists; split_and!; try done.
  split; [done|]. simpl. destruct (m' !! []) as [v|] eqn:E; [|done]. by destruct (Ht [] v E).
Qed.

(** *** The bounding wrapper *)

Lemma within_bounded c ko vo p : within ko vo p -> within ko vo (boundedTx c p).
Proof.
  induction 1; simpl; [by constructor|..]; case_match; auto; constructor; auto.
Qed.

Lemma bad_key_false c k : k <> [] -> len k <= c_MaxKeyBytes c -> bad_key c k = false.
Proof.
  intros Hn Hl. unfold bad_key. destruct k as [|z k]; [done|]. apply orb_false_iff. split.
  - apply Z.eqb_neq. unfold len. simpl. lia.
  - by apply Z.ltb_ge.
Qed.

Lemma bad_value_false c v : len (contents v) <= c_MaxValueBytes c -> bad_value c v = false.
Proof. intros Hl. unfold bad_value. by apply Z.ltb_ge. Qed.

Definition fits_key (c : Config) (k : bytes) : Prop := k <> [] /\ len k <= c_MaxKeyBytes c.
Definition fits_value (c : Config) (v : bytes) : Prop := len v <= c_MaxValueBytes c.

(** Within its limits the wrapper is transparent. *)
Lemma run_bounded c p m : within (fits_key c) (fits_value c) p ->
  (forall k v, m !! k = Some v -> fits_key c k /\ fits_value c v) -> run (boundedTx c p) m = run p m.
Proof.
  intros Hw. revert m. induction Hw as [e|k c' [Hk1 Hk2] Hc IH|k v c' [Hk1 Hk2] Hv Hc IH|k c' [Hk1 Hk2] Hc IH|
    k o n c' [Hk1 Hk2] Ho Hn Hc IH]; intros m Hm; [done|..]; simpl;
    rewrite ?(bad_key_false c k), ?(bad_value_false c v), ?(bad_value_false c o), ?(bad_value_false c n) by done; simpl.
  - rewrite IH by done. f_equal. unfold mapTx_Get. destruct (m !! k) as [w|] eqn:E; [|done].
    rewrite bad_value_false; rewrite contents_clone; [done|]. by apply (Hm k w).
  - pose proof (run_ok (fits_key c) (fits_value c) (TxPut k v TxReturn) m) as Hr. simpl in Hr.
    destruct (mapTx_Put m k v) as [e m'] eqn:E. apply IH. apply Hr; [|done]. repeat constructor; done.
  - pose proof (run_ok (fits_key c) (fits_value c) (TxDelete k TxReturn) m) as Hr. simpl in Hr.
    destruct (mapTx_Delete m k) as [e m'] eqn:E. apply IH. apply Hr; [|done]. repeat constructor; done.
  - pose proof (run_ok (fits_key c) (fits_value c) (TxCAS k o n TxReturn) m) as Hr. simpl in Hr.
    destruct (mapTx_CompareAndSwap m k o n) as [e m'] eqn:E. apply IH. apply Hr; [|done]. repeat constructor; done.
Qed.

Lemma within_impl (ko vo ko' vo' : bytes -> Prop) p : (forall k, ko k -> ko' k) -> (forall v, vo v -> vo' v) ->
  within ko vo p -> within ko' vo' p.
Proof. intros Hk Hv. induction 1; constructor; auto. Qed.

Lemma scan_values_entries m o l e : scan_values m o = Ok l -> e ∈ l ->
  exists v, m !! Key e = Some v /\ Value e = clone v.
Proof.
  assert (forall ks : list bytes, (forall k, k ∈ ks -> k ∈ scan_keys m (Prefix o) (After_ o)) ->
    e ∈ ((fun key => mkEntry key (clone (default [] (m !! key)))) <$> ks) ->
    exists v, m !! Key e = Some v /\ Value e = clone v) as Hgen.
  { intros ks Hks He. apply list_elem_of_fmap in He as (k & -> & Hk). apply Hks, elem_of_scan_keys in Hk as [[v Hv] _].
    exists v. simpl. by rewrite Hv. }
  unfold scan_values. repeat case_match; intros [= <-]; apply Hgen; [|done].
  intros k Hk. eapply elem_of_take in Hk as (i & Hk & _). by eapply list_elem_of_lookup_2.
Qed.

Section BoundedPlain.
Context {S : Type} `{PlainStore S}.

Definition bounded_open (s : boundedStore S) : Prop :=
  is_open (b_inner s) /\ 0 <= c_MaxKeyBytes (b_config s) /\
  forall k v, view (b_inner s) !! k = Some v -> fits_key (b_config s) k /\ fits_value (b_config s) v.

#[global] Program Instance bounded_plain : PlainStore (boundedStore S) := {|
  view := fun s => view (b_inner s);
  is_open := bounded_open;
  writable := fun s => writable (b_inner s) /\ c_ReadOnly (b_config s) = false;
  key_ok := fun s k => key_ok (b_inner s) k /\ fits_key (b_config s) k;
  value_ok := fun s v => value_ok (b_inner s) v /\ fits_value (b_config s) v;
  prefix_ok := fun s p => prefix_ok (b_inner s) p /\ len p <= c_MaxKeyBytes (b_config s)
|}.
Next Obligation. intros s k [Hk _]. by eapply key_nonempty. Qed.
Next Obligation. intros s k v (Ho & _ & Hf) Hv. destruct (view_ok _ _ _ Ho Hv), (Hf _ _ Hv). done. Qed.
Next Obligation.
  intros s k (Ho & _ & Hf) [Hk [Hn Hl]]. simpl. unfold bounded_Get. rewrite bad_key_false, plain_get by done.
  unfold mapTx_Get. destruct (view (b_inner s) !! k) as [v|] eqn:E; [|done]. simpl.
  rewrite bad_value_false; rewrite contents_clone; [done|]. by apply (Hf k v).
Qed.
Next Obligation.
  intros s o (Ho & Hpos & Hf) [Hp Hlen] Ha Hlim. simpl. unfold bounded_Scan.
  replace (c_MaxKeyBytes (b_config s) <? len (Prefix o)) with false by (symmetry; by apply Z.ltb_ge).
  replace (c_MaxKeyBytes (b_config s) <? len (After_ o)) with false
    by (symmetry; apply Z.ltb_ge; destruct Ha as [->|[_ [_ Ha]]]; [done|done]).
  replace (Limit o <=? 0) with false by lia. replace (10000 <? Limit o) with false by lia. simpl.
  rewrite plain_scan by (done || (destruct Ha as [?|[? _]]; by auto)).
  destruct (scan_values (view (b_inner s)) o) as [l|e] eqn:E; [|done]. simpl.
  assert (forall e, e ∈ l -> bad_key (b_config s) (Key e) || bad_value (b_config s) (Value e) = false /\
    mkEntry (Key e) (clone (contents (Value e))) = e) as Hall.
  { intros e He. destruct (scan_values_entries _ _ _ _ E He) as (v & Hv & Ev). destruct (Hf _ _ Hv) as [[Hn Hl] Hfv].
    rewrite Ev, contents_clone, bad_key_false, bad_value_false by (done || by rewrite contents_clone).
    split; [done|]. destruct e; simpl in *; by subst. }
  clear E. replace (existsb _ l) with false.
  - f_equal. induction l as [|e l IH]; [done|]. rewrite fmap_cons, IH by set_solver. f_equal. apply Hall. set_solver.
  - symmetry. induction l as [|e l IH]; [done|]. simpl. rewrite (proj1 (Hall e ltac:(set_solver))). apply IH. set_solver.
Qed.
Next Obligation.
  intros s p (Ho & Hpos & Hf) [Hw Hro] Hp. simpl. unfold bounded_Update. rewrite Hro.
  assert (within (key_ok (b_inner s)) (value_ok (b_inner s)) p) as Hp1 by (by eapply within_impl; [| |exact Hp]; intros ? []).
  assert (within (fits_key (b_config s)) (fits_value (b_config s)) p) as Hp2 by (by eapply within_impl; [| |exact Hp]; intros ? []).
  destruct (plain_update (b_inner s) (boundedTx (b_config s) p) Ho Hw (within_bounded _ _ _ _ Hp1))
    as (s' & E & Hv & Ho' & Hw' & Ek & Ev).
  unfold transact in E, Hv. rewrite run_bounded in E, Hv by done. fold (transact p (view (b_inner s))) in E, Hv.
  rewrite E. eexists. split; [done|]. simpl. split_and!; [done| |done|done|by rewrite Ek|by rewrite Ev].
  split; [done|]. split; [done|]. simpl. rewrite Hv. by apply transact_ok.
Qed.

End BoundedPlain.

(** *** The namespace wrapper *)

(** The part of the map under the prefix [ns], by logical key. *)
Definition ns_entry (ns : bytes) (kv : bytes * bytes) : option (bytes * bytes) :=
  if HasPrefix kv.1 ns then Some (drop (length ns) kv.1, kv.2) else None.
Definition ns_view (ns : bytes) (m : values) : values := list_to_map (omap (ns_entry ns) (map_to_list m)).

Lemma elem_of_ns_list (ns : bytes) (m : values) (k v : bytes) :
  (k, v) ∈ omap (ns_entry ns) (map_to_list m) <-> m !! (ns ++ k) = Some v.
Proof.
  unfold ns_entry. rewrite list_elem_of_omap. split.
  - intros ([k' v'] & Hin & Hs). apply elem_of_map_to_list in Hin. simpl in Hs.
    destruct (HasPrefix k' ns) eqn:E; [|done]. apply HasPrefix_app in E as [t ->].
    rewrite drop_app_length in Hs. by injection Hs as -> ->.
  - intros Hv. exists (ns ++ k, v). split; [by apply elem_of_map_to_list|]. simpl.
    replace (HasPrefix (ns ++ k) ns) with true by (symmetry; apply HasPrefix_app; by exists k).
    by rewrite drop_app_length.
Qed.

Lemma lookup_ns_view ns m k : ns_view ns m !! k = m !! (ns ++ k).
Proof.
  unfold ns_view. destruct (m !! (ns ++ k)) as [v|] eqn:E.
  - apply elem_of_list_to_map_1'; [|by apply elem_of_ns_list].
    intros v' Hv. apply elem_of_ns_list in Hv. congruence.
  - apply not_elem_of_list_to_map_1. intros Hin. apply list_elem_of_fmap in Hin as ([k' v] & Ek & Hin).
    simpl in Ek. subst k'. apply elem_of_ns_list in Hin. congruence.
Qed.

Lemma ns_view_insert ns m k v : ns_view ns (<[ns ++ k := v]> m) = <[k := v]> (ns_view ns m).
Proof.
  apply map_eq. intros k'. rewrite lookup_ns_view. destruct (decide (k' = k)) as [->|Hn].
  - by rewrite !lookup_insert_eq.
  - rewrite !lookup_insert_ne, lookup_ns_view; [done|done|]. intros E. by apply app_inv_head in E.
Qed.

Lemma ns_view_delete ns m k : ns_view ns (delete (ns ++ k) m) = delete k (ns_view ns m).
Proof.
  apply map_eq. intros k'. rewrite lookup_ns_view. destruct (decide (k' = k)) as [->|Hn].
  - by rewrite !lookup_delete_eq.
  - rewrite !lookup_delete_ne, lookup_ns_view; [done|done|]. intros E. by apply app_inv_head in E.
Qed.

(** What a transaction step writes: one key, if anything. *)
Lemma mapTx_CAS_view ns m k o n :
  (let '(e, m') := mapTx_CompareAndSwap m (ns ++ k) o n in (e, ns_view ns m')) = mapTx_CompareAndSwap (ns_view ns m) k o n.
Proof.
  unfold mapTx_CompareAndSwap. rewrite lookup_ns_view. destruct (match o with None => _ | Some _ => _ end); [done|].
  destruct n; by rewrite ?ns_view_insert, ?ns_view_delete.
Qed.

Lemma len_app_nonempty ns (k : bytes) : k <> [] -> (len (ns ++ k) =? 0) = false.
Proof. intros Hk. apply Z.eqb_neq. unfold len. rewrite length_app. destruct k; simpl; [done|lia]. Qed.

Lemma len_nonempty (k : bytes) : k <> [] -> (len k =? 0) = false.
Proof. apply (len_app_nonempty []). Qed.

(** On the logical view the wrapper is transparent for non-empty keys. *)
Lemma run_namespace ns p m vo : within (fun k => k <> []) vo p ->
  fst (run (namespaceTx ns p) m) = fst (run p (ns_view ns m)) /\
  ns_view ns (snd (run (namespaceTx ns p) m)) = snd (run p (ns_view ns m)).
Proof.
  intros Hw. revert m. induction Hw as [e|k c Hk _ IH|k v c Hk Hv _ IH|k c Hk _ IH|k o n c Hk Ho Hn _ IH];
    intros m; [done|..]; simpl; unfold bad_logical; rewrite (len_nonempty k) by done; simpl.
  - replace (mapTx_Get m (ns ++ k)) with (mapTx_Get (ns_view ns m) k); [apply IH|].
    unfold mapTx_Get. by rewrite lookup_ns_view.
  - unfold mapTx_Put. rewrite len_app_nonempty, len_nonempty, <- ns_view_insert by done. apply IH.
  - unfold mapTx_Delete. rewrite len_app_nonempty, len_nonempty, <- ns_view_delete by done. apply IH.
  - rewrite <- mapTx_CAS_view. destruct (mapTx_CompareAndSwap m (ns ++ k) o n) as [e m']. apply IH.
Qed.

(** A transaction changes only keys it names. *)
Lemma run_frame (ko : bytes -> Prop) vo p m k : within ko vo p -> ~ ko k -> snd (run p m) !! k = m !! k.
Proof.
  intros Hw Hk. assert (forall key, ko key -> key <> k) as Hne by (by intros key Hkey ->).
  revert m. induction Hw as [e|key c Ho _ IH|key v c Ho _ _ IH|key c Ho _ IH|key o n c Ho _ _ _ IH];
    intros m; simpl; [done|by apply IH|..]; specialize (Hne key Ho).
  - unfold mapTx_Put. destruct (len _ =? 0); rewrite IH; [done|]. by rewrite lookup_insert_ne.
  - unfold mapTx_Delete. destruct (len _ =? 0); rewrite IH; [done|]. by rewrite lookup_delete_ne.
  - unfold mapTx_CompareAndSwap. destruct (match o with None => _ | Some _ => _ end); [by apply IH|].
    destruct n; rewrite IH; [by rewrite lookup_insert_ne|by rewrite lookup_delete_ne].
Qed.

(** Through a namespace a callback names only keys under its prefix. *)
Lemma namespaceTx_prefix ns p : within (fun k => HasPrefix k ns = true) (fun _ => True) (namespaceTx ns p).
Proof.
  assert (forall k, HasPrefix (ns ++ k) ns = true) as Hp by (intros k; apply HasPrefix_app; by exists k).
  induction p; simpl; [by constructor|..]; (destruct (bad_logical key); [done|constructor; auto]).
Qed.

Lemma in_order_fmap ns l : in_order str_ltb l -> in_order str_ltb ((ns ++.) <$> l).
Proof.
  induction 1 as [|x l Hl IH Hx]; [constructor|]. rewrite fmap_cons. constructor; [done|].
  apply Forall_fmap. eapply Forall_impl; [exact Hx|]. intros y Hy. simpl. by rewrite str_ltb_app_same.
Qed.

Definition ns_after (ns after : bytes) : bytes := if 0 <? len after then ns ++ after else [].

Lemma in_scan_namespace ns prefix after k :
  in_scan (ns ++ prefix) (ns_after ns after) (ns ++ k) = in_scan prefix after k.
Proof.
  unfold in_scan, ns_after. rewrite HasPrefix_app_same. destruct after as [|c r]; [done|].
  change (0 <? len (c :: r)) with true. cbv iota. rewrite str_ltb_app_same.
  replace (0 <? len (ns ++ c :: r)) with true; [done|].
  symmetry. apply Z.ltb_lt. unfold len. rewrite length_app. simpl. lia.
Qed.

Lemma scan_keys_namespace ns m prefix after :
  scan_keys m (ns ++ prefix) (ns_after ns after) = (ns ++.) <$> scan_keys (ns_view ns m) prefix after.
Proof.
  symmetry. apply scan_keys_unique.
  - apply in_order_fmap, str_sort_in_order.
  - apply NoDup_fmap_2; [intros x y E; by apply app_inv_head in E|apply NoDup_scan_keys].
  - intros k. rewrite list_elem_of_fmap. split.
    + intros (k' & -> & Hk'). apply elem_of_scan_keys in Hk' as [Hs Hi]. rewrite lookup_ns_view in Hs.
      by rewrite in_scan_namespace.
    + intros [Hs Hi]. pose proof (proj1 (in_scan_spec _ _ _) Hi) as [Hp _].
      apply HasPrefix_app in Hp as [t ->]. rewrite <- app_assoc in Hs, Hi |- *.
      exists (prefix ++ t). split; [done|]. apply elem_of_scan_keys. by rewrite lookup_ns_view, <- (in_scan_namespace ns).
Qed.

Lemma strip_entries_namespace ns m (l : list bytes) : (forall k, k ∈ l -> k <> []) ->
  strip_entries ns ((fun key => mkEntry key (clone (default [] (m !! key)))) <$> ((ns ++.) <$> l)) =
  Ok ((fun key => mkEntry key (clone (default [] (ns_view ns m !! key)))) <$> l).
Proof.
  induction l as [|k l IH]; intros Hl; [done|]. rewrite !fmap_cons. cbn [strip_entries Key Value].
  replace (HasPrefix (ns ++ k) ns) with true by (symmetry; apply HasPrefix_app; by exists k). cbn [negb].
  rewrite drop_app_length, len_nonempty by (apply Hl; set_solver). rewrite IH by set_solver. cbn [result_bind].
  by rewrite lookup_ns_view.
Qed.

Lemma scan_values_namespace ns m o : ns_view ns m !! [] = None -> 0 <= Limit o ->
  (let* entries := scan_values m (mkScan (ns ++ Prefix o) (ns_after ns (After_ o)) (Limit o)) in strip_entries ns entries) =
  scan_values (ns_view ns m) o.
Proof.
  intros Hn Hlim. unfold scan_values. simpl. rewrite scan_keys_namespace.
  assert (forall k, k ∈ scan_keys (ns_view ns m) (Prefix o) (After_ o) -> k <> []) as Hk.
  { intros k Hk ->. apply elem_of_scan_keys in Hk as [[v Hv] _]. congruence. }
  unfold len. rewrite length_fmap. destruct (Limit o <? _); [|simpl; by apply strip_entries_namespace].
  replace (Limit o <? 0) with false by lia. simpl. rewrite <- fmap_take.
  apply strip_entries_namespace. intros k Hin. apply Hk. apply elem_of_take in Hin as (i & Hi & _).
  by eapply list_elem_of_lookup_2.
Qed.

Lemma within_namespace ns ko vo p : (forall k, ko k -> k <> []) ->
  within ko vo p -> within (fun k => exists t, k = ns ++ t /\ ko t) vo (namespaceTx ns p).
Proof.
  intros Hne. induction 1; simpl; [by constructor|..]; unfold bad_logical; rewrite len_nonempty by (by apply Hne);
    constructor; eauto.
Qed.

Lemma transact_namespace ns p m vo : within (fun k => k <> []) vo p ->
  fst (transact (namespaceTx ns p) m) = fst (transact p (ns_view ns m)) /\
  ns_view ns (snd (transact (namespaceTx ns p) m)) = snd (transact p (ns_view ns m)).
Proof.
  intros Hw. destruct (run_namespace ns p m vo Hw) as [H1 H2]. unfold transact.
  destruct (run (namespaceTx ns p) m) as [e1 m1], (run p (ns_view ns m)) as [e2 m2]. simpl in *. subst e2.
  by destruct e1.
Qed.

Section NamespacePlain.
Context {S : Type} `{PlainStore S}.

Definition namespace_open (s : namespaceStore S) : Prop :=
  is_open (n_inner s) /\ view (n_inner s) !! n_namespace s = None.

Lemma namespace_open_view s : namespace_open s -> ns_view (n_namespace s) (view (n_inner s)) !! [] = None.
Proof. intros [_ Hn]. by rewrite lookup_ns_view, app_nil_r. Qed.

#[global] Program Instance namespace_plain : PlainStore (namespaceStore S) := {|
  view := fun s => ns_view (n_namespace s) (view (n_inner s));
  is_open := namespace_open;
  writable := fun s => writable (n_inner s);
  key_ok := fun s k => k <> [] /\ key_ok (n_inner s) (n_namespace s ++ k);
  value_ok := fun s v => value_ok (n_inner s) v;
  prefix_ok := fun s p => prefix_ok (n_inner s) (n_namespace s ++ p)
|}.
Next Obligation. by intros s k [Hk _]. Qed.
Next Obligation.
  intros s k v Ho Hv. pose proof (namespace_open_view s Ho) as Hn. destruct Ho as [Ho _].
  cbn beta in Hv. assert (k <> []) as Hk by (intros ->; congruence). rewrite lookup_ns_view in Hv.
  destruct (view_ok _ _ _ Ho Hv). done.
Qed.
Next Obligation.
  intros s k [Ho _] [Hk Hok]. simpl. unfold namespace_Get, bad_logical. rewrite len_nonempty, plain_get by done.
  unfold mapTx_Get. by rewrite lookup_ns_view.
Qed.
Next Obligation.
  intros s o Ho Hp Ha Hlim. simpl. unfold namespace_Scan. fold (ns_after (n_namespace s) (After_ o)).
  rewrite <- scan_values_namespace by (by apply namespace_open_view || lia). destruct Ho as [Ho _].
  rewrite plain_scan; [done|done|done| |done]. simpl. unfold ns_after.
  destruct Ha as [->|[_ Ha]]; [by left|]. destruct (0 <? len (After_ o)); [by right|by left].
Qed.
Next Obligation.
  intros s p Ho Hw Hp. pose proof (namespace_open_view s Ho) as Hn. destruct Ho as [Ho _]. simpl. unfold namespace_Update.
  assert (within (fun k => k <> []) (value_ok (n_inner s)) p) as Hp1 by (by eapply within_impl; [| |exact Hp]; [intros ? []|]).
  destruct (transact_namespace (n_namespace s) p (view (n_inner s)) _ Hp1) as [He Hm].
  destruct (plain_update (n_inner s) (namespaceTx (n_namespace s) p) Ho Hw) as (s' & E & Hv & Ho' & Hw' & Ek & Ev).
  { eapply within_impl; [| |apply (within_namespace _ _ _ _ (fun k Hk => proj1 Hk) Hp)]; [|done].
    by intros k (t & -> & _ & Ht). }
  rewrite E, He. eexists. split; [done|]. simpl. rewrite Hv, Hm. split_and!; [done| |done|by rewrite Ek|by rewrite Ev].
  split; [done|]. simpl. rewrite Hv, <- (app_nil_r (n_namespace s)), <- lookup_ns_view, app_nil_r, Hm.
  destruct (snd (transact p _) !! []) as [v|] eqn:Er; [|done].
  destruct (transact_ok (fun k => k <> []) (fun _ => True) p (ns_view (n_namespace s) (view (n_inner s)))
    ltac:(by eapply within_impl; [| |exact Hp1]) ltac:(by intros k w Hk; split; [intros ->; congruence|]) _ _ Er). done.
Qed.

End NamespacePlain.

End StorageProofs.
