(* ===== verification/StorageClaims.v ===== *)
(** * Storage adapters: claims

    The opened store as a finite map, namespace isolation, migration between
    any two stores of the contract, and the file engine across restarts. *)

From S2P Require Import Prelude GoStrings GoEncoding Storage StorageProofs.

Module StorageClaims.
Import GoStrings GoEncoding Storage StorageProofs.

(** ** Migration *)

Definition entries_map (entries : list Entry) : values :=
  list_to_map ((fun e => (Key e, contents (Value e))) <$> entries).

Lemma lookup_entries_map_None entries k : k ∉ (Key <$> entries) -> entries_map entries !! k = None.
Proof.
  intros Hk. apply not_elem_of_list_to_map_1. intros Hin. apply Hk.
  rewrite <- list_fmap_compose in Hin. exact Hin.
Qed.

(** The callback of [Migrate] writes the whole batch, or reports a conflict. *)
Lemma run_copy_batch replace entries m :
  (forall e, e ∈ entries -> Key e <> []) -> NoDup (Key <$> entries) ->
  (replace = true \/ forall e, e ∈ entries -> m !! Key e = None) ->
  run (copy_batch replace entries) m = (None, entries_map entries ∪ m).
Proof.
  revert m. induction entries as [|e r IH]; intros m Hk Hn Hr; [simpl; f_equal; symmetry; apply (left_id_L ∅ (∪))|].
  rewrite fmap_cons in Hn. apply NoDup_cons in Hn as [He Hn].
  assert (run (TxPut (Key e) (Value e) (fun err => match err with Some err => TxReturn (Some err) | None => copy_batch replace r end)) m
    = (None, entries_map (e :: r) ∪ m)) as Hput.
  { simpl. unfold mapTx_Put. rewrite len_nonempty by (apply Hk; set_solver). rewrite IH; [|set_solver|done|].
    - f_equal. unfold entries_map. rewrite fmap_cons. simpl. fold (entries_map r).
      rewrite <- insert_union_l, <- insert_union_r; [done|]. by apply lookup_entries_map_None.
    - destruct Hr as [Hr|Hr]; [by left|right]. intros e' He'. rewrite lookup_insert_ne; [apply Hr; set_solver|].
      intros E. apply He. rewrite E. apply list_elem_of_fmap. by exists e'. }
  cbn [copy_batch]. destruct replace; [exact Hput|]. cbn [run]. destruct Hr as [?|Hr]; [done|].
  unfold mapTx_Get at 1. rewrite (Hr e) by set_solver. exact Hput.
Qed.

Lemma within_copy_batch ko vo replace entries :
  (forall e, e ∈ entries -> ko (Key e) /\ vo (contents (Value e))) -> within ko vo (copy_batch replace entries).
Proof.
  induction entries as [|e r IH]; intros He; [constructor|]. simpl.
  destruct (He e ltac:(set_solver)) as [Hk Hv].
  assert (within ko vo (TxPut (Key e) (Value e) (fun err => match err with Some err => TxReturn (Some err) | None => copy_batch replace r end))) as Hput.
  { constructor; [done|done|]. intros [err|]; [constructor|]. apply IH. set_solver. }
  destruct replace; [done|]. constructor; [done|]. intros [v|[]]; done || constructor.
Qed.

Lemma count_batch_entries report entries :
  r_Entries (count_batch report entries) = u64 (r_Entries report + len entries) \/ entries = [].
Proof.
  unfold count_batch. destruct entries as [|e r]; [by right|left].
  assert (forall l b n bt, r_Entries (fold_left (fun r e => mkReport (u64 (r_Entries r + 1))
    (u64 (r_Bytes r + (len (Key e) + len (contents (Value e))))) (r_Batches r)) l (mkReport (u64 n) b bt)) = u64 (n + len l)) as Hgen.
  { induction l as [|x l IH]; intros b n bt; simpl.
    - unfold len. simpl. by rewrite Z.add_0_r.
    - unfold u64 in *. rewrite Zplus_mod_idemp_l, IH. unfold len. simpl. f_equal. lia. }
  simpl. rewrite Hgen. unfold u64, len. simpl. f_equal. lia.
Qed.

(** The entries a scan returns for a list of keys. *)
Definition entries_of (m : values) (keys : list bytes) : list Entry :=
  (fun key => mkEntry key (clone (default [] (m !! key)))) <$> keys.

Lemma entries_of_keys m keys : Key <$> entries_of m keys = keys.
Proof. unfold entries_of. rewrite <- list_fmap_compose. induction keys; [done|]. rewrite fmap_cons. by f_equal. Qed.

Lemma lookup_entries_of m keys k : (forall x, x ∈ keys -> is_Some (m !! x)) ->
  entries_map (entries_of m keys) !! k = (if decide (k ∈ keys) then m !! k else None).
Proof.
  intros Hk. case_decide as Hin.
  - destruct (Hk k Hin) as [v Hv]. rewrite Hv. apply elem_of_list_to_map_1'.
    + intros w Hw. unfold entries_of in Hw. rewrite <- list_fmap_compose in Hw.
      apply list_elem_of_fmap in Hw as (x & [= -> ->] & _). rewrite contents_clone, Hv. done.
    + unfold entries_of. rewrite <- list_fmap_compose. apply list_elem_of_fmap. exists k. split; [|done].
      simpl. by rewrite Hv, contents_clone.
  - apply lookup_entries_map_None. by rewrite entries_of_keys.
Qed.

Lemma scan_values_keys m o : 0 <= Limit o ->
  scan_values m o = Ok (entries_of m (take (Z.to_nat (Limit o)) (scan_keys m (Prefix o) (After_ o)))).
Proof.
  intros Hl. unfold scan_values. destruct (Z.ltb_spec (Limit o) (len (scan_keys m (Prefix o) (After_ o)))).
  - by replace (Limit o <? 0) with false by lia.
  - rewrite take_ge; [done|]. unfold len in *. lia.
Qed.

Section MigrateClaims.
Context {S D : Type} `{PlainStore S} `{PlainStore D}.

(** No poll finds the context done. *)
Definition live (_ : nat) : bool * bool := (false, false).

(** [to] is [from] plus the entries of [m] at [keys]. *)
Definition copied (m : values) (keys : list bytes) (from to : values) : Prop :=
  forall k, to !! k = (if decide (k ∈ keys) then m !! k else from !! k).

Lemma copied_app m l1 l2 v1 v2 v3 : copied m l1 v1 v2 -> copied m l2 v2 v3 -> copied m (l1 ++ l2) v1 v3.
Proof. intros Hc1 Hc2 k. rewrite Hc2, Hc1. repeat case_decide; set_solver. Qed.

(** One batch: what the scan returned is what the destination gains. *)
Lemma migrate_batch (m : values) (destination : D) replace keys :
  is_open destination -> writable destination -> NoDup keys ->
  (forall k, k ∈ keys -> exists v, m !! k = Some v /\ key_ok destination k /\ value_ok destination v) ->
  (replace = true \/ forall k, k ∈ keys -> view destination !! k = None) ->
  exists d', store_update false destination (copy_batch replace (entries_of m keys)) = (None, d') /\
    is_open d' /\ writable d' /\ key_ok d' = key_ok destination /\ value_ok d' = value_ok destination /\
    copied m keys (view destination) (view d').
Proof.
  intros Ho Hw Hn Hk Hr.
  assert (forall e, e ∈ entries_of m keys -> key_ok destination (Key e) /\ value_ok destination (contents (Value e)) /\ Key e ∈ keys) as He.
  { intros e He. apply list_elem_of_fmap in He as (k & -> & Hin). simpl. destruct (Hk k Hin) as (v & -> & ? & ?).
    simpl. by rewrite contents_clone. }
  destruct (plain_update destination (copy_batch replace (entries_of m keys)) Ho Hw) as (d' & E & Hv & Ho' & Hw' & Ek & Ev).
  { apply within_copy_batch. intros e Hin. by destruct (He e Hin) as (? & ? & ?). }
  assert (run (copy_batch replace (entries_of m keys)) (view destination) =
    (None, entries_map (entries_of m keys) ∪ view destination)) as Er; [apply run_copy_batch|].
  - intros e Hin. eapply key_nonempty. by apply He.
  - by rewrite entries_of_keys.
  - destruct Hr as [Hr|Hr]; [by left|right]. intros e Hin. apply Hr. by apply He.
  - exists d'. unfold transact in E, Hv. rewrite Er in E, Hv.
    split_and!; [done..|]. intros k. simpl in Hv. rewrite Hv, lookup_union, lookup_entries_of.
    + case_decide as Hin; [|by rewrite (left_id_L None _)]. destruct (Hk k Hin) as (v & -> & _).
      by destruct (view destination !! k).
    + intros x Hx. destruct (Hk x Hx) as (v & -> & _). by eexists.
Qed.

Lemma match_nonempty {X Y} (l : list X) (a b : Y) : l <> [] -> match l with [] => a | _ :: _ => b end = b.
Proof. by destruct l. Qed.

Lemma take_snoc {X} n (l : list X) : (0 < n)%nat -> l <> [] -> exists l1 a, take n l = l1 ++ [a].
Proof.
  intros Hn Hl. destruct (take n l) as [|a l1 _] eqn:E using rev_ind; [|by eauto].
  destruct n, l; [lia|lia|done|done].
Qed.

Lemma last_entries_of m l a : default [] (Key <$> last (entries_of m (l ++ [a]))) = a.
Proof. unfold entries_of. rewrite fmap_app. simpl. by rewrite last_snoc. Qed.

Lemma migrate_loop_copies (source : S) prefix n replace fuel after report (destination : D) :
  1 <= n <= 10000 ->
  is_open source -> is_open destination -> writable destination -> prefix_ok source prefix ->
  (after = [] \/ key_ok source after) ->
  let keys := scan_keys (view source) prefix after in
  (forall k v, k ∈ keys -> view source !! k = Some v -> key_ok destination k /\ value_ok destination v) ->
  (replace = true \/ forall k, k ∈ keys -> view destination !! k = None) ->
  (length keys < fuel)%nat -> 0 <= r_Entries report < 2 ^ 64 ->
  exists report' d',
    migrate_loop fuel live source destination (mkMigrateOptions prefix n replace) after report = Migrated report' None d' /\
    is_open d' /\ copied (view source) keys (view destination) (view d') /\
    r_Entries report' = u64 (r_Entries report + len keys).
Proof.
  intros Hn Hs Hd Hw Hp. revert after report destination Hd Hw.
  induction fuel as [|fuel IH]; intros after report destination Hd Hw Ha keys Hk Hr Hf Hrep; [lia|].
  assert (forall k, k ∈ keys -> is_Some (view source !! k) /\ HasPrefix k prefix = true) as Hsome.
  { intros k Hin. apply elem_of_scan_keys in Hin as [? Hi]. by apply in_scan_spec in Hi as [? _]. }
  cbn [migrate_loop mo_Prefix mo_BatchSize mo_Replace fst snd live].
  rewrite plain_scan, scan_values_keys by (simpl; done || lia). cbn [Prefix After_ Limit]. fold keys.
  assert (NoDup keys) as Hnd by apply NoDup_scan_keys.
  destruct (decide (keys = [])) as [E|Hne].
  { rewrite E, take_nil. eexists _, _. split; [done|]. split_and!; [done|by intros k|].
    unfold u64, len. simpl. rewrite Z.add_0_r, Z.mod_small; lia. }
  destruct (take_snoc (Z.to_nat n) keys) as (l1 & a & Eb); [lia|done|].
  pose proof (take_drop (Z.to_nat n) keys) as Etd. rewrite Eb in Etd |- *. set (rest := drop (Z.to_nat n) keys) in *.
  assert (forall k, k ∈ l1 ++ [a] -> k ∈ keys) as Hsub by (rewrite <- Etd; set_solver).
  assert (a ∈ keys) as Hain by (apply Hsub; set_solver). destruct (Hsome a Hain) as [[va Hva] Hpa].
  destruct (view_ok source a va Hs Hva) as [Hka _].
  destruct (migrate_batch (view source) destination replace (l1 ++ [a])) as (d' & E & Hd' & Hw' & Ek & Ev & Hc); [done|done| | | |].
  { rewrite <- Etd in Hnd. by apply NoDup_app in Hnd as [? _]. }
  { intros k Hin. apply Hsub in Hin. destruct (Hsome k Hin) as [[v Hv] _]. exists v. split; [done|]. by apply Hk. }
  { destruct Hr as [Hr|Hr]; [by left|right]. auto. }
  rewrite match_nonempty by (unfold entries_of; rewrite fmap_app; by destruct (_ <$> l1)).
  rewrite E, last_entries_of, Hpa. cbn [negb]. rewrite andb_false_r.
  destruct (count_batch_entries report (entries_of (view source) (l1 ++ [a]))) as [Hcnt|Hnil]; cycle 1.
  { unfold entries_of in Hnil. rewrite fmap_app in Hnil. by destruct (_ <$> l1). }
  assert (len (entries_of (view source) (l1 ++ [a])) = len (l1 ++ [a])) as El by (unfold entries_of, len; by rewrite length_fmap).
  rewrite El in *. destruct (Z.ltb_spec (len (l1 ++ [a])) n) as [Hlt|Hge].
  - assert (rest = []) as Erest.
    { apply nil_length_inv. unfold rest. rewrite length_drop. apply (f_equal length) in Eb. rewrite length_take in Eb.
      unfold len in Hlt. lia. }
    rewrite Erest, app_nil_r in Etd. rewrite <- Etd. eauto 10.
  - assert (scan_keys (view source) prefix a = rest) as Erest.
    { apply (scan_keys_resume _ _ after l1 a); [|done]. exact (key_nonempty source a Hka). }
    destruct (IH a (count_batch report (entries_of (view source) (l1 ++ [a]))) d') as (report' & d2 & E2 & Ho2 & Hc2 & Hn2);
      [done|done|by right|..]; rewrite ?Erest, ?Ek, ?Ev.
    + intros k v Hin. apply Hk. rewrite <- Etd. set_solver.
    + destruct Hr as [Hr|Hr]; [by left|right]. intros k Hin. rewrite Hc, decide_False; [apply Hr; rewrite <- Etd; set_solver|].
      intros Hin'. rewrite <- Etd in Hnd. apply NoDup_app in Hnd as (_ & Hdis & _). by apply (Hdis k).
    + rewrite <- Etd, !length_app in Hf. simpl in Hf. lia.
    + rewrite Hcnt. unfold u64. apply Z.mod_pos_bound. lia.
    + rewrite E2. eexists _, _. split; [done|]. split_and!; [done|rewrite <- Etd; rewrite Erest in Hc2; by eapply copied_app|].
      rewrite Hn2, Hcnt, <- Etd, Erest. unfold u64. rewrite Zplus_mod_idemp_l. unfold len. rewrite !length_app. f_equal. lia.
Qed.

End MigrateClaims.

(** ** The file engine across restarts *)

Lemma b64_char_url n : 0 <= n < 64 -> b64_char n <> 43 /\ b64_char n <> 47.
Proof.
  intros Hn. unfold b64_char.
  repeat (match goal with |- context [if ?x then _ else _] => destruct x eqn:? end); go_bool; lia.
Qed.

Lemma b64_encode_url b : bytes_ok b -> Forall (fun c => c <> 43 /\ c <> 47) (b64_encode b).
Proof.
  induction b as [|x|x y|x y z r IH] using b64_ind; intros Hb; cbn -[Z.div Z.modulo];
    rewrite ?Forall_cons in *; unfold bytes_ok in Hb; rewrite ?Forall_cons in Hb;
    repeat split; try apply b64_char_url; sextet; try (apply IH; tauto); done.
Qed.

Lemma std_roundtrip b : bytes_ok b -> std_decode (std_encode b) = Some b.
Proof.
  intros Hb. unfold std_decode, std_encode. replace (existsb _ _) with false.
  - rewrite <- list_fmap_compose. rewrite <- (b64_roundtrip b Hb). f_equal.
    pose proof (b64_encode_url b Hb) as Hu. induction Hu as [|c l [H1 H2] _ IH]; [done|]. rewrite fmap_cons, IH. f_equal.
    unfold compose, to_std, from_std. repeat (case_match; go_bool; try lia).
  - symmetry. induction (b64_encode b) as [|c l IH]; [done|]. cbn [fmap list_fmap existsb]. rewrite IH, orb_false_r.
    unfold to_std. repeat (case_match; go_bool; try lia).
Qed.

Lemma std_encode_inj a b : bytes_ok a -> bytes_ok b -> std_encode a = std_encode b -> a = b.
Proof. intros Ha Hb E. apply std_roundtrip in Ha, Hb. congruence. Qed.

Definition storable_key (k : bytes) : Prop := k <> [] /\ bytes_ok k.
Definition storable (m : values) : Prop := forall k v, m !! k = Some v -> storable_key k /\ bytes_ok v.

Definition encode_pair (kv : bytes * bytes) : bytes * bytes := (std_encode kv.1, std_encode kv.2).

Lemma load_fold (l : list (bytes * bytes)) acc :
  (forall kv, kv ∈ l -> storable_key kv.1 /\ bytes_ok kv.2) ->
  fold_left load_entry (encode_pair <$> l) (Some acc) = Some (fold_left (fun m kv => <[kv.1 := kv.2]> m) l acc).
Proof.
  revert acc. induction l as [|kv l IH]; intros acc Hl; [done|]. rewrite fmap_cons. cbn [fold_left].
  destruct (Hl kv ltac:(by left)) as [[Hn Hk] Hv]. unfold load_entry at 2. cbn [encode_pair fst snd].
  rewrite !std_roundtrip, len_nonempty by done. apply IH. intros kv' Hin. apply Hl. by right.
Qed.

Lemma fold_insert_union (l : list (bytes * bytes)) (acc : values) : NoDup l.*1 ->
  fold_left (fun m kv => <[kv.1 := kv.2]> m) l acc = list_to_map l ∪ acc.
Proof.
  revert acc. induction l as [|[k v] l IH]; intros acc Hn; cbn [fold_left]; [symmetry; apply (left_id_L ∅ (∪))|].
  rewrite fmap_cons in Hn. apply NoDup_cons in Hn as [Hk Hn]. rewrite IH by done. simpl.
  rewrite <- insert_union_l, <- insert_union_r; [done|]. by apply not_elem_of_list_to_map_1.
Qed.

(** Decoding the document a map was saved as gives the map back. *)
Lemma load_document m : storable m ->
  fold_left load_entry (map_to_list (d_Values (file_document m))) (Some ∅) = Some m.
Proof.
  intros Hm. unfold file_document. cbn [d_Values].
  change (fun kv => (std_encode kv.1, std_encode kv.2)) with encode_pair.
  assert (forall kv, kv ∈ map_to_list m -> storable_key kv.1 /\ bytes_ok kv.2) as Hl.
  { intros [k v] Hin. apply elem_of_map_to_list in Hin. by apply Hm. }
  assert (NoDup (encode_pair <$> map_to_list m).*1) as Hn.
  { rewrite <- list_fmap_compose. change (fst ∘ encode_pair) with (std_encode ∘ @fst bytes bytes).
    rewrite list_fmap_compose. apply NoDup_fmap_2_strong; [|apply NoDup_fst_map_to_list].
    intros a b Ha Hb. apply list_elem_of_fmap in Ha as (x & -> & Hx), Hb as (y & -> & Hy).
    apply std_encode_inj; by apply Hl. }
  pose proof (map_to_list_to_map (M := gmap bytes) _ Hn) as Hp. apply Permutation_map_inv in Hp as (l & -> & Hp).
  change (map encode_pair l) with (encode_pair <$> l).
  rewrite load_fold by (intros kv Hin; apply Hl; by rewrite Hp).
  assert (NoDup l.*1) as Hnl by (rewrite <- Hp; apply NoDup_fst_map_to_list).
  rewrite fold_insert_union, (right_id_L ∅ (∪)) by done. f_equal.
  rewrite <- (list_to_map_to_list m). symmetry. apply list_to_map_proper; [apply NoDup_fst_map_to_list|done].
Qed.

Section FileClaims.
Context (json_marshal : fileDocument -> bytes) (json_decode : bytes -> option fileDocument).

Definition broken_replace (io : persist_io) : Prop :=
  io_rename io = true /\ io_remove io = false /\ io_rename_again io = true.

(** What [persist] leaves: the new payload, the old file, or, after two failed renames, none. *)
Lemma persist_spec s m :
  let '(e, s') := persist json_marshal s m in
  f_values s' = f_values s /\ f_closed s' = f_closed s /\
  match e with
  | None => f_disk s' = Some (json_marshal (file_document m)) /\ len (json_marshal (file_document m)) <= 256 * 2 ^ 20
  | Some _ => f_disk s' = f_disk s \/ f_disk s' = None /\ broken_replace (default io_fine (head (f_io s)))
  end.
Proof.
  unfold persist, replaceFile, broken_replace. destruct (Z.ltb_spec (256 * 2 ^ 20) (len (json_marshal (file_document m)))); [by auto|].
  set (io := default io_fine (head (f_io s))). destruct (io_create io || io_chmod io || io_write io || io_sync io || io_close io); [by auto|].
  destruct (io_rename io), (io_remove io), (io_rename_again io); cbn [negb f_values f_closed f_disk]; split_and!; auto 10.
Qed.

Lemma persist_succeeds s m : default io_fine (head (f_io s)) = io_fine ->
  len (json_marshal (file_document m)) <= 256 * 2 ^ 20 -> fst (persist json_marshal s m) = None.
Proof.
  intros Hio Hl. unfold persist. rewrite Hio.
  by replace (256 * 2 ^ 20 <? len (json_marshal (file_document m))) with false by (symmetry; by apply Z.ltb_ge).
Qed.

(** Opening a file that holds the rendering of [m] loads [m]. *)
Lemma openFile_loads path m io :
  (forall d, json_decode (json_marshal d) = Some d) -> (forall d, json_marshal d <> []) ->
  TrimSpace path <> [] -> storable m -> len (json_marshal (file_document m)) <= 256 * 2 ^ 20 ->
  openFile json_marshal json_decode path false false (Some (json_marshal (file_document m))) io =
  (None, mkFile m false None (Some (json_marshal (file_document m))) io).
Proof.
  intros Hc Hne Hp Hm Hl. unfold openFile, load. cbn [f_disk]. rewrite !len_nonempty by done.
  replace (256 * 2 ^ 20 <? len (json_marshal (file_document m))) with false by (symmetry; by apply Z.ltb_ge).
  cbn [orb]. rewrite Hc, load_document by done. cbn [file_document d_Version]. by rewrite str_eqb_refl.
Qed.

End FileClaims.

(** C26: the file engine is atomic and durable. An update that reports success
    has applied the whole transaction, and opening the file it left gives
    exactly the new entries back; one that fails leaves the entries as they
    were and the file untouched, unless both renames of the replacement
    failed. It does succeed when the callback does, the document fits in
    256 MiB and no system call fails. *)
Theorem file_update_durable (json_marshal : fileDocument -> bytes) (json_decode : bytes -> option fileDocument)
    (s : fileStore) (p : tx_prog) (path : bytes) :
  (forall d, json_decode (json_marshal d) = Some d) -> (forall d, json_marshal d <> []) ->
  TrimSpace path <> [] -> f_closed s = false -> storable (f_values s) -> within storable_key bytes_ok p ->
  let '(e, s') := file_Update json_marshal false s p in
  storable (f_values s') /\ f_closed s' = false /\
  match e with
  | None => run p (f_values s) = (None, f_values s') /\
      forall io, openFile json_marshal json_decode path false false (f_disk s') io =
        (None, mkFile (f_values s') false None (f_disk s') io)
  | Some _ => f_values s' = f_values s /\
      (f_disk s' = f_disk s \/ f_disk s' = None /\ broken_replace (default io_fine (head (f_io s))))
  end /\
  (fst (run p (f_values s)) = None -> default io_fine (head (f_io s)) = io_fine ->
   len (json_marshal (file_document (snd (run p (f_values s))))) <= 256 * 2 ^ 20 -> e = None).
Proof.
  intros Hc Hne Hpath Hcl Hst Hw. pose proof (run_ok _ _ p (f_values s) Hw Hst) as Hrun.
  unfold file_Update. rewrite Hcl. destruct (run p (f_values s)) as [[e|] m] eqn:Er; cbn [fst snd] in *.
  { split; [done|]. split; [done|]. split; [by auto|]. intros [=]. }
  pose proof (persist_spec json_marshal s m) as Hp. pose proof (persist_succeeds json_marshal s m) as Hs.
  destruct (persist json_marshal s m) as [[e|] s']; destruct Hp as (Hv & Hcl' & Hd); cbn [fst] in Hs.
  - cbn [set_lastErr f_values f_closed f_disk]. rewrite Hv, Hcl'. split_and!; [done|done|done|done|].
    intros _ Hio Hl. by specialize (Hs Hio Hl).
  - cbn [set_lastErr set_values f_values f_closed f_disk]. destruct Hd as [-> Hl]. rewrite Hcl'.
    split_and!; [done|done|done| |done]. intros io. by apply openFile_loads.
Qed.

(** A rendering with its decoder: the document's number in an enumeration. *)
Definition demo_marshal (d : fileDocument) : bytes := [Zpos (encode (d_Version d, d_Values d))].
Definition demo_decode (b : bytes) : option fileDocument :=
  match b with
  | [Zpos q] => (fun x => mkDocument x.1 x.2) <$> decode q
  | _ => None
  end.
Lemma demo_codec d : demo_decode (demo_marshal d) = Some d.
Proof. unfold demo_decode, demo_marshal. rewrite countable.decode_encode. by destruct d. Qed.

Definition demo_put : tx_prog := TxPut (str "k") (Some (str "v")) TxReturn.
Definition demo_file : fileStore := mkFile ∅ false None None [].

Lemma file_update_durable_witness :
  exists s', file_Update demo_marshal false demo_file demo_put = (None, s') /\
    f_values s' = {[ str "k" := str "v" ]} /\
    openFile demo_marshal demo_decode (str "/x") false false (f_disk s') [] =
      (None, mkFile (f_values s') false None (f_disk s') []).
Proof.
  pose proof (file_update_durable demo_marshal demo_decode demo_file demo_put (str "/x") demo_codec
    ltac:(done) ltac:(vm_compute; discriminate) eq_refl ltac:(done)
    ltac:(constructor; [split; [discriminate|solve_bytes; done]|solve_bytes; done|intros; constructor])) as Hd.
  destruct (file_Update demo_marshal false demo_file demo_put) as [e s'].
  destruct Hd as (_ & _ & Hd & He). rewrite He in Hd; [|done|done|vm_compute; discriminate].
  destruct Hd as [Hr Ho]. exists s'. rewrite He; [|done|done|vm_compute; discriminate].
  split; [done|]. split; [|by apply Ho]. injection Hr as <-. reflexivity.
Defined.

(** Two failed renames lose the file: the next start finds an empty store. *)
Lemma failed_replace_loses_file (json_marshal : fileDocument -> bytes) (json_decode : bytes -> option fileDocument)
    (s : fileStore) (p : tx_prog) (io : persist_io) (rest : list persist_io) :
  f_closed s = false -> fst (run p (f_values s)) = None -> f_io s = io :: rest ->
  io = mkIO false false false false false true false true ->
  len (json_marshal (file_document (snd (run p (f_values s))))) <= 256 * 2 ^ 20 ->
  let '(e, s') := file_Update json_marshal false s p in
  e = Some ErrIO /\ f_values s' = f_values s /\ f_disk s' = None.
Proof.
  intros Hcl Hr Hio -> Hl. unfold file_Update. rewrite Hcl. destruct (run p (f_values s)) as [e m]. cbn [fst snd] in *. subst e.
  unfold persist. rewrite Hio. cbn.
  by replace (256 * 2 ^ 20 <? len (json_marshal (file_document m))) with false by (symmetry; by apply Z.ltb_ge).
Qed.

(** ** Opened stores *)

(** Whatever the callback does, a transaction through a namespace leaves the rest of the engine alone. *)
Lemma store_update_frame m c ns p done : exists m' e,
  store_update done (mkNamespace (mkBounded m c) ns) p = (e, mkNamespace (mkBounded m' c) ns) /\
  forall key, HasPrefix key ns = false -> m_values m' !! key = m_values m !! key.
Proof.
  simpl. unfold namespace_Update, bounded_Update. simpl. unfold bounded_Update. simpl.
  destruct (c_ReadOnly c); [by eauto|]. unfold memory_Update.
  destruct done; [by eauto|]. destruct (m_closed m); [by eauto|].
  pose proof (fun key => run_frame _ _ _ (m_values m) key (within_bounded c _ _ _ (namespaceTx_prefix ns p))) as Hfr.
  destruct (run _ (m_values m)) as [[e|] w]; simpl; [by eauto|]. eexists _, _. split; [done|].
  intros key Hk. apply (Hfr key). by rewrite Hk.
Qed.

(** The contract of an opened store: a finite map of logical keys with limits.
    An empty key, a key that is too long below its namespace or a value that
    is too long is refused with its error and touches nothing; the callback
    goes on with the error it was given. *)
Definition refusal (c : Config) (ns key : bytes) (written : list slice) : option store_error :=
  if len key =? 0 then Some ErrEmptyKey else
  if (c_MaxKeyBytes c <? len ns + len key) || existsb (fun v => c_MaxValueBytes c <? len (contents v)) written
  then Some ErrBound else None.

Definition limited_get (c : Config) (ns : bytes) (m : values) (key : bytes) : result store_error slice :=
  match refusal c ns key [] with Some e => Err e | None => mapTx_Get m key end.

Definition limited_scan (c : Config) (ns : bytes) (m : values) (o : ScanOptions) : result store_error (list Entry) :=
  if (c_MaxKeyBytes c <? len ns + len (Prefix o)) ||
     ((0 <? len (After_ o)) && (c_MaxKeyBytes c <? len ns + len (After_ o))) then Err ErrBound else
  if (Limit o <=? 0) || (10000 <? Limit o) then Err ErrLimit else scan_values m o.

Fixpoint limited_run (c : Config) (ns : bytes) (p : tx_prog) (m : values) : option store_error * values :=
  match p with
  | TxReturn e => (e, m)
  | TxGet key k => limited_run c ns (k (limited_get c ns m key)) m
  | TxPut key v k =>
      match refusal c ns key [v] with
      | Some e => limited_run c ns (k (Some e)) m
      | None => limited_run c ns (k None) (<[key := contents v]> m)
      end
  | TxDelete key k =>
      match refusal c ns key [] with
      | Some e => limited_run c ns (k (Some e)) m
      | None => limited_run c ns (k None) (delete key m)
      end
  | TxCAS key o n k =>
      match refusal c ns key [o; n] with
      | Some e => limited_run c ns (k (Some e)) m
      | None => let '(e, m') := mapTx_CompareAndSwap m key o n in limited_run c ns (k e) m'
      end
  end.

(** A whole transaction: nothing on a store opened read-only or under a done
    context; otherwise all of the callback's writes, or none if it fails. *)
Definition limited_update (canceled : bool) (c : Config) (ns : bytes) (p : tx_prog) (m : values) :
    option store_error * values :=
  if c_ReadOnly c then (Some ErrReadOnly, m) else
  if canceled then (Some ErrCanceled, m) else
  match limited_run c ns p m with (None, m') => (None, m') | (Some e, _) => (Some e, m) end.

(** Every entry of the engine is within the limits, and none sits at the bare prefix. *)
Definition opened_ok (c : Config) (ns : bytes) (m : memoryStore) : Prop :=
  memory_ok m /\ (forall k v, m_values m !! k = Some v -> fits_key c k /\ fits_value c v) /\ m_values m !! ns = None.

Lemma bad_key_app c ns k : k <> [] -> bad_key c (ns ++ k) = (c_MaxKeyBytes c <? len ns + len k).
Proof. intros Hk. unfold bad_key. rewrite len_app_nonempty by done. unfold len. by rewrite length_app, Nat2Z.inj_add. Qed.

Lemma bad_key_spec c k : bad_key c k = false -> fits_key c k.
Proof.
  unfold bad_key. intros Hb. apply orb_false_iff in Hb as [Hl Hm]. split; [by intros ->|by apply Z.ltb_ge in Hm].
Qed.

(** Whatever the callback does, the engine is asked only what fits. *)
Lemma boundedTx_fits c p : within (fits_key c) (fits_value c) (boundedTx c p).
Proof.
  induction p as [|key k IH|key v k IH|key k IH|key o n k IH]; simpl; [by constructor|..].
  all: destruct (bad_key c key) eqn:Hk; simpl; [done|]; apply bad_key_spec in Hk; try (constructor; by auto).
  - destruct (bad_value c v) eqn:Hv; [done|]. apply Z.ltb_ge in Hv. constructor; by auto.
  - destruct (bad_value c o) eqn:Ho, (bad_value c n) eqn:Hn; simpl; try done.
    apply Z.ltb_ge in Ho, Hn. constructor; by auto.
Qed.

Lemma namespaceTx_below ns p : within (fun k => k <> ns) (fun _ => True) (namespaceTx ns p).
Proof.
  assert (forall k, bad_logical k = false -> ns ++ k <> ns) as Hp.
  { intros k Hk E. rewrite <- (app_nil_r ns) in E at 2. apply app_inv_head in E as ->. done. }
  induction p; simpl; [by constructor|..]; (destruct (bad_logical key) eqn:E; [done|constructor; auto]).
Qed.

Lemma refusal_empty c ns vs : refusal c ns [] vs = Some ErrEmptyKey.
Proof. done. Qed.

Lemma refusal_key c ns key vs : key <> [] ->
  refusal c ns key vs = if bad_key c (ns ++ key) || existsb (bad_value c) vs then Some ErrBound else None.
Proof. intros Hk. unfold refusal. by rewrite len_nonempty, bad_key_app. Qed.

Lemma limited_get_engine c ns m key : key <> [] -> (forall k v, m !! k = Some v -> fits_key c k /\ fits_value c v) ->
  limited_get c ns (ns_view ns m) key =
  if bad_key c (ns ++ key) then Err ErrBound else
  match mapTx_Get m (ns ++ key) with
  | Err e => Err e
  | Ok v => if bad_value c v then Err ErrBound else Ok (clone (contents v))
  end.
Proof.
  intros Hk Hf. unfold limited_get. rewrite refusal_key by done. simpl. rewrite orb_false_r.
  destruct (bad_key c (ns ++ key)); [done|]. unfold mapTx_Get. rewrite lookup_ns_view.
  destruct (m !! (ns ++ key)) as [v|] eqn:E; [|done]. rewrite bad_value_false; rewrite contents_clone; [done|].
  by apply (Hf _ _ E).
Qed.

Lemma limited_run_engine c ns p m : (forall k v, m !! k = Some v -> fits_key c k /\ fits_value c v) ->
  limited_run c ns p (ns_view ns m) =
  (fst (run (boundedTx c (namespaceTx ns p)) m), ns_view ns (snd (run (boundedTx c (namespaceTx ns p)) m))).
Proof.
  revert m. induction p as [e|key k IH|key v k IH|key k IH|key o n k IH]; intros m Hf; [done|..]; simpl.
  all: unfold bad_logical; destruct (decide (key = [])) as [->|Hk]; [by apply IH|].
  all: rewrite (len_nonempty key) by done; cbn [boundedTx].
  1: { rewrite limited_get_engine by done. destruct (bad_key c (ns ++ key)); by apply IH. }
  all: rewrite refusal_key by done; cbn [existsb]; rewrite ?orb_false_r, ?orb_assoc.
  all: match goal with |- context [if ?b then Some ErrBound else None] => destruct b eqn:Hb; [by apply IH|] end.
  all: cbn [run].
  - apply orb_false_iff in Hb as [Hb Hv]. unfold mapTx_Put. rewrite len_app_nonempty by done.
    rewrite <- ns_view_insert. apply IH. intros k' v'. rewrite lookup_insert_Some.
    intros [[<- <-]|[_ Hv']]; [split; [by apply bad_key_spec|by apply Z.ltb_ge in Hv]|by apply Hf].
  - unfold mapTx_Delete. rewrite len_app_nonempty by done. rewrite <- ns_view_delete. apply IH.
    intros k' v'. rewrite lookup_delete_Some. intros [_ Hv']. by apply Hf.
  - apply orb_false_iff in Hb as [Hb Hn]. apply orb_false_iff in Hb as [Hb Ho].
    apply bad_key_spec in Hb. apply Z.ltb_ge in Ho, Hn. rewrite <- mapTx_CAS_view.
    pose proof (run_ok (fits_key c) (fits_value c) (TxCAS (ns ++ key) o n TxReturn) m) as Hr. simpl in Hr.
    destruct (mapTx_CompareAndSwap m (ns ++ key) o n) as [e m']. apply IH, Hr; [|done]. constructor; [done..|]. intros; constructor.
Qed.

Lemma opened_get c ns m k : opened_ok c ns m ->
  store_get (mkNamespace (mkBounded m c) ns) k = limited_get c ns (ns_view ns (m_values m)) k.
Proof.
  intros ([Hc _] & Hf & _). simpl. unfold namespace_Get, bad_logical. simpl.
  destruct (decide (k = [])) as [->|Hk]; [done|]. rewrite len_nonempty, limited_get_engine by done.
  unfold bounded_Get. simpl. unfold memory_Get. rewrite Hc. destruct (bad_key c (ns ++ k)); [done|].
  by destruct (mapTx_Get (m_values m) (ns ++ k)).
Qed.

Lemma scan_bound c ns o : 0 <= c_MaxKeyBytes c ->
  (c_MaxKeyBytes c <? len (ns ++ Prefix o)) || (c_MaxKeyBytes c <? len (ns_after ns (After_ o))) =
  (c_MaxKeyBytes c <? len ns + len (Prefix o)) || ((0 <? len (After_ o)) && (c_MaxKeyBytes c <? len ns + len (After_ o))).
Proof.
  intros Hpos. unfold ns_after, len. rewrite length_app, Nat2Z.inj_add. f_equal.
  destruct (After_ o) as [|z r]; [by apply Z.ltb_ge|]. simpl. by rewrite length_app, Nat2Z.inj_add.
Qed.

Lemma opened_scan c ns m o : 0 <= c_MaxKeyBytes c -> opened_ok c ns m ->
  store_scan (mkNamespace (mkBounded m c) ns) o = limited_scan c ns (ns_view ns (m_values m)) o.
Proof.
  intros Hpos (Hm & Hf & Hn). unfold limited_scan. rewrite <- scan_bound by done.
  assert (store_scan (mkNamespace (mkBounded m c) ns) o =
    let* entries := bounded_Scan (mkBounded m c) (mkScan (ns ++ Prefix o) (ns_after ns (After_ o)) (Limit o)) in
    strip_entries ns entries) as E by done.
  unfold bounded_Scan in E. cbn [b_config Prefix After_ Limit] in E. destruct (orb _ _) eqn:Hb; [by rewrite E|].
  destruct (orb (Limit o <=? 0) _) eqn:Hl; [by rewrite E|]. clear E.
  apply orb_false_iff in Hb as [Hp Ha], Hl as [Hl1 Hl2].
  refine (plain_scan (mkNamespace (mkBounded m c) ns) o _ _ _ _); [split; [by split|done]| | |lia].
  - split; [done|]. simpl. lia.
  - destruct (After_ o) as [|z r]; [by left|right]. split; [done|]. unfold ns_after in Ha. simpl in Ha.
    assert (ns ++ z :: r <> []) by (by destruct ns). repeat split; [done..|]. simpl. lia.
Qed.

Lemma opened_update canceled c ns m p : opened_ok c ns m -> exists m',
  store_update canceled (mkNamespace (mkBounded m c) ns) p =
    (fst (limited_update canceled c ns p (ns_view ns (m_values m))), mkNamespace (mkBounded m' c) ns) /\
  ns_view ns (m_values m') = snd (limited_update canceled c ns p (ns_view ns (m_values m))) /\ opened_ok c ns m'.
Proof.
  intros Hm. pose proof Hm as ([Hc Hn] & Hf & Hns). simpl. unfold limited_update, namespace_Update. simpl.
  unfold bounded_Update. simpl. destruct (c_ReadOnly c); [by eauto|]. unfold memory_Update.
  destruct canceled; [by eauto|]. rewrite Hc, limited_run_engine by done.
  pose proof (run_ok _ _ _ _ (boundedTx_fits c (namespaceTx ns p)) Hf) as Hf'.
  pose proof (run_frame _ _ _ (m_values m) ns (within_bounded c _ _ _ (namespaceTx_below ns p)) ltac:(by intros H)) as Hns'.
  destruct (run _ (m_values m)) as [[e|] w]; simpl in *.
  - eexists. split; [done|]. split; [done|]. split; [by split|]. by split.
  - eexists. split; [done|]. split; [done|]. split; [split; [done|]|split; [exact Hf'|by etrans]]. simpl.
    destruct (w !! []) as [v|] eqn:E; [|done]. by destruct (Hf' _ _ E) as [[? _] _].
Qed.

(** C16: what [Open] returns for a namespace of the memory engine is a finite
    map with limits. For every key, every scan and every callback, in bounds
    or not, reads, ordered scans and whole transactions through the namespace
    and bounding wrappers give exactly what the contract gives on the map of
    logical keys, error or value: a key or value beyond the configured limits
    is refused and changes nothing, a store opened read-only or a done context
    changes nothing, a failed transaction changes nothing. No transaction
    touches a key outside the namespace, and all entries stay within the
    limits, with none at the bare prefix, which is all the statement needs of
    the engine and what a newly opened one satisfies. *)
Theorem opened_store_refines (c : Config) (ns : bytes) :
  0 <= c_MaxKeyBytes c ->
  opened_ok c ns openMemory /\
  forall m, opened_ok c ns m ->
    let s := mkNamespace (mkBounded m c) ns in
    let logical := ns_view ns (m_values m) in
    (forall k, store_get s k = limited_get c ns logical k) /\
    (forall o, store_scan s o = limited_scan c ns logical o) /\
    forall canceled p, exists m',
      store_update canceled s p = (fst (limited_update canceled c ns p logical), mkNamespace (mkBounded m' c) ns) /\
      ns_view ns (m_values m') = snd (limited_update canceled c ns p logical) /\
      (forall key, HasPrefix key ns = false -> m_values m' !! key = m_values m !! key) /\
      opened_ok c ns m'.
Proof.
  intros Hpos. split.
  { split; [by split|]. split; [|by vm_compute]. intros k v Hv. by vm_compute in Hv. }
  intros m Hm s logical. split; [intros k; by apply opened_get|]. split; [intros o; by apply opened_scan|].
  intros canceled p. destruct (opened_update canceled c ns m p Hm) as (m' & E & Hv & Hm'). exists m'.
  destruct (store_update_frame m c ns p canceled) as (m'' & e & E' & Hframe). fold s in E, E'. rewrite E' in E.
  injection E as -> <-. by rewrite E'.
Qed.

Definition demo_config : Config := mkConfig ConfigVersion (str "memory") (str "a") [] [] false 64 64 ∅.
Definition demo_memory : memoryStore := mkMemory {[ str "a/x" := str "1"; str "b/y" := str "2" ]} false None.

Lemma demo_fits k v : m_values demo_memory !! k = Some v -> fits_key demo_config k /\ fits_value demo_config v.
Proof.
  intros Hv. cbn [m_values demo_memory] in Hv. apply lookup_insert_Some in Hv as [[<- <-]|[_ Hv]].
  - split; [split; [discriminate|]|]; vm_compute; discriminate.
  - apply lookup_singleton_Some in Hv as [<- <-]. split; [split; [discriminate|]|]; vm_compute; discriminate.
Qed.

Lemma demo_opened : opened_ok demo_config (str "a/") demo_memory.
Proof. split; [by split; vm_compute|]. split; [exact demo_fits|by vm_compute]. Qed.

Definition demo_long : tx_prog := TxPut (repeat 97 65) (Some (str "v")) (fun e => TxPut (str "k") (Some (str "v")) TxReturn).

Lemma opened_store_refines_witness :
  store_scan (mkNamespace (mkBounded demo_memory demo_config) (str "a/")) (mkScan [] [] 10) =
    Ok [mkEntry (str "x") (Some (str "1"))] /\
  store_get (mkNamespace (mkBounded demo_memory demo_config) (str "a/")) (repeat 97 63) = Err ErrBound /\
  exists m', store_update false (mkNamespace (mkBounded demo_memory demo_config) (str "a/")) demo_long =
    (None, mkNamespace (mkBounded m' demo_config) (str "a/")) /\ m_values m' !! str "b/y" = Some (str "2") /\
    ns_view (str "a/") (m_values m') = {[ str "k" := str "v"; str "x" := str "1" ]}.
Proof.
  destruct (opened_store_refines demo_config (str "a/")) as [_ Hall]; [vm_compute; discriminate|].
  destruct (Hall demo_memory demo_opened) as (Hg & Hs & Hu). split; [rewrite Hs; by vm_compute|].
  split; [rewrite Hg; by vm_compute|]. destruct (Hu false demo_long) as (m' & E & Hv & Hf & _).
  exists m'. rewrite E, Hv, Hf by done. split; [f_equal|]. split; by vm_compute.
Defined.

Lemma HasPrefix_disjoint ns1 ns2 k : HasPrefix ns2 ns1 = false -> HasPrefix ns1 ns2 = false ->
  HasPrefix (ns2 ++ k) ns1 = false.
Proof.
  revert ns1. induction ns2 as [|c ns2 IH]; intros [|d ns1]; try done. simpl.
  rewrite (Z.eqb_sym c d). destruct (d =? c); simpl; [apply IH|done].
Qed.

(** A run of transactions through one namespace; the flag is the context's state. *)
Definition run_all (s : namespaceStore (boundedStore memoryStore)) (l : list (bool * tx_prog)) :=
  fold_left (fun s x => snd (store_update x.1 s x.2)) l s.

(** Namespaces of one memory engine are isolated: as long as neither of
    two namespace prefixes is a prefix of the other, no sequence of
    transactions through the first, whatever their callbacks do and however
    they end, changes anything a client of the second can see. *)
Theorem namespace_isolation (m : memoryStore) (c : Config) (ns1 ns2 : bytes) (l : list (bool * tx_prog)) :
  HasPrefix ns2 ns1 = false -> HasPrefix ns1 ns2 = false ->
  exists m', run_all (mkNamespace (mkBounded m c) ns1) l = mkNamespace (mkBounded m' c) ns1 /\
    ns_view ns2 (m_values m') = ns_view ns2 (m_values m).
Proof.
  intros H12 H21. revert m. induction l as [|[done p] l IH]; intros m; [by eauto|].
  destruct (store_update_frame m c ns1 p done) as (m' & e & E & Hfr). unfold run_all in *. cbn [fold_left fst snd].
  rewrite E. cbn [snd]. destruct (IH m') as (m2 & -> & Hv). exists m2. split; [reflexivity|]. rewrite Hv.
  apply map_eq. intros k. rewrite !lookup_ns_view. apply Hfr. by apply HasPrefix_disjoint.
Qed.

Lemma namespace_isolation_witness :
  exists m', run_all (mkNamespace (mkBounded demo_memory demo_config) (str "a/")) [(false, demo_put)] =
      mkNamespace (mkBounded m' demo_config) (str "a/") /\
    ns_view (str "b/") (m_values m') !! str "y" = Some (str "2").
Proof.
  destruct (namespace_isolation demo_memory demo_config (str "a/") (str "b/") [(false, demo_put)] eq_refl eq_refl)
    as (m' & E & Hv). exists m'. split; [exact E|]. rewrite Hv. by vm_compute.
Defined.

(** Nested namespaces do share keys: [a] with key [b/k] is [a/b] with key [k]. *)
Lemma nested_namespaces_overlap :
  let put := TxPut (str "b/k") (Some (str "v")) TxReturn in
  let '(_, s) := store_update false (mkNamespace (mkBounded openMemory demo_config) (str "a/")) put in
  store_get (mkNamespace (n_inner s) (str "a/b/")) (str "k") = Ok (Some (str "v")).
Proof. by vm_compute. Qed.

(** An empty value reads as nil, which [CompareAndSwap] takes to mean that the
    key must be absent: swapping what was just read is always a conflict. *)
Lemma empty_value_defeats_cas (m : values) (k : bytes) (n : slice) : k <> [] ->
  fst (run (TxPut k (Some []) (fun _ => TxGet k (fun r => match r with
    | Ok v => TxCAS k v n TxReturn
    | Err e => TxReturn (Some e)
    end))) m) = Some ErrConflict.
Proof.
  intros Hk. simpl. unfold mapTx_Put. rewrite len_nonempty by done. unfold mapTx_Get.
  rewrite lookup_insert_eq. simpl. unfold mapTx_CompareAndSwap. by rewrite lookup_insert_eq.
Qed.

(** Migration is complete and terminates: with a live context, a batch
    size of at most 10000 (default 256) and a destination that accepts the
    entries, as many rounds as there are entries to copy and one more are
    enough, and then the destination holds every source entry with the prefix
    and, elsewhere, what it held before; without [Replace] this needs that
    none of the keys exists there yet. The report counts the entries. *)
Theorem migrate_copies {S D} `{PlainStore S} `{PlainStore D} (source : S) (destination : D) (o : MigrateOptions) (fuel : nat) :
  is_open source -> is_open destination -> writable destination -> prefix_ok source (mo_Prefix o) ->
  mo_BatchSize o <= 10000 ->
  (forall k v, view source !! k = Some v -> HasPrefix k (mo_Prefix o) = true -> key_ok destination k /\ value_ok destination v) ->
  (mo_Replace o = true \/
   forall k, is_Some (view source !! k) -> HasPrefix k (mo_Prefix o) = true -> view destination !! k = None) ->
  (length (scan_keys (view source) (mo_Prefix o) []) < fuel)%nat ->
  exists report d', Migrate fuel live source destination o = Migrated report None d' /\
    r_Entries report = u64 (len (scan_keys (view source) (mo_Prefix o) [])) /\
    forall k, view d' !! k =
      (if HasPrefix k (mo_Prefix o) then match view source !! k with Some v => Some v | None => view destination !! k end
       else view destination !! k).
Proof.
  intros Hs Hd Hw Hp Hb Hk Hr Hf. unfold Migrate.
  set (n := if mo_BatchSize o <=? 0 then 256 else mo_BatchSize o).
  assert (1 <= n <= 10000) as Hn by (unfold n; destruct (Z.leb_spec (mo_BatchSize o) 0); lia).
  replace (10000 <? n) with false by lia.
  assert (forall k, k ∈ scan_keys (view source) (mo_Prefix o) [] <-> is_Some (view source !! k) /\ HasPrefix k (mo_Prefix o) = true) as Hin.
  { intros k. rewrite elem_of_scan_keys, in_scan_spec. naive_solver. }
  destruct (migrate_loop_copies source (mo_Prefix o) n (mo_Replace o) fuel [] (mkReport 0 0 0) destination)
    as (report & d' & E & _ & Hc & Hcount); [done..|by left| | |done|done|].
  - intros k v Hkin Hv. apply Hin in Hkin as [_ ?]. by apply Hk.
  - destruct Hr as [?|Hr]; [by left|right]. intros k Hkin. apply Hin in Hkin as [? ?]. by apply Hr.
  - exists report, d'. split; [done|]. split; [done|]. intros k. rewrite Hc.
    destruct (HasPrefix k (mo_Prefix o)) eqn:Epre, (view source !! k) as [v|] eqn:Ev; case_decide as Hkin;
      try done; rewrite Hin, Ev, Epre in Hkin; destruct Hkin; try done; try (by eexists).
    all: try match goal with h : is_Some None |- _ => by destruct h end.
Qed.

Lemma migrate_copies_witness :
  exists report d', Migrate 5 live (mkNamespace (mkBounded demo_memory demo_config) (str "a/")) openMemory
      (mkMigrateOptions [] 1 false) = Migrated report None d' /\
    r_Entries report = 1 /\ m_values d' !! str "x" = Some (str "1").
Proof.
  destruct (migrate_copies (mkNamespace (mkBounded demo_memory demo_config) (str "a/")) openMemory
    (mkMigrateOptions [] 1 false) 5) as (report & d' & E & Hc & Hv).
  - split; [split; [by split; vm_compute|split; [vm_compute; discriminate|exact demo_fits]]|by vm_compute].
  - by split; vm_compute.
  - done.
  - split; [done|vm_compute; discriminate].
  - simpl. lia.
  - intros k v Hk _. split; [|done]. intros ->. vm_compute in Hk. discriminate.
  - right. by intros k _ _.
  - apply Nat.ltb_lt. by vm_compute.
  - exists report, d'. split; [exact E|]. split; [rewrite Hc; by vm_compute|].
    etransitivity; [exact (Hv (str "x"))|]. by vm_compute.
Defined.

End StorageClaims.
