(* ===== verification/SessionResume.v ===== *)
(** * Resumable copies (sessionresume/copy.go)

    [Copy] as a state machine over an environment that answers every call:
    opening the endpoints, [ReadAt], [WriteAt], the context, the retry policy
    and the wait between attempts. The source is a fixed byte string and the
    destination a finite map from offsets to bytes, so that what a resumed
    copy leaves behind can be stated. The proofs are at the end. *)

From S2P Require Import Prelude.

Module SessionResume.

Inductive copy_error : Type :=
| ErrInvalidConfig
| ErrChunkTooLarge
| ErrContext
| ErrOpen
| ErrRead
| ErrWrite
| ErrNoProgress
| ErrSourceEnded.

Record Checkpoint := mkCheckpoint {
  cp_Offset : Z;
  cp_Size : Z;
  cp_Attempts : Z;
  cp_GenerationOpens : Z
}.

Record CopyConfig := mkConfig {
  Size : Z;
  ChunkBytes : Z;
  MaxAttempts : Z;
  MinRetryDelay : Z;
  MaxRetryDelay : Z
}.

Record Result_ := mkResult {
  Bytes : Z;
  Attempts : Z;
  GenerationOpens : Z
}.

(** What [ReadAt] reports beside its count. *)
Inductive read_error : Type := ReadFine | ReadEOF | ReadFails.

(** The environment's answers; each call takes the fields it needs from the
    next one. [e_n] and [e_count] are used within the bounds [io.ReaderAt] and
    [io.WriterAt] promise. *)
Record answer := mkAnswer {
  e_ctx_done : bool;
  e_reader_fails : bool;
  e_writer_fails : bool;
  e_n : Z;
  e_read : read_error;
  e_count : Z;
  e_write_fails : bool;
  e_retry : bool;
  e_wait_canceled : bool
}.
Abbreviation environment := (nat -> answer).

(** The variables of [Copy]; [opened] is [reader != nil && writer != nil]. *)
Record copy_state := mkState {
  offset : Z;
  attemptsAtOffset : Z;
  delay : Z;
  opened : bool;
  result_ : Result_;
  checkpoints : list Checkpoint;
  dest : gmap Z Z;
  tick : nat
}.

#[global] Instance update_offset : Update offset := fun v s =>
  mkState v (attemptsAtOffset s) (delay s) (opened s) (result_ s) (checkpoints s) (dest s) (tick s).
#[global] Instance update_attempts : Update attemptsAtOffset := fun v s =>
  mkState (offset s) v (delay s) (opened s) (result_ s) (checkpoints s) (dest s) (tick s).
#[global] Instance update_delay : Update delay := fun v s =>
  mkState (offset s) (attemptsAtOffset s) v (opened s) (result_ s) (checkpoints s) (dest s) (tick s).
#[global] Instance update_opened : Update opened := fun v s =>
  mkState (offset s) (attemptsAtOffset s) (delay s) v (result_ s) (checkpoints s) (dest s) (tick s).
#[global] Instance update_result : Update result_ := fun v s =>
  mkState (offset s) (attemptsAtOffset s) (delay s) (opened s) v (checkpoints s) (dest s) (tick s).
#[global] Instance update_checkpoints : Update checkpoints := fun v s =>
  mkState (offset s) (attemptsAtOffset s) (delay s) (opened s) (result_ s) v (dest s) (tick s).
#[global] Instance update_dest : Update dest := fun v s =>
  mkState (offset s) (attemptsAtOffset s) (delay s) (opened s) (result_ s) (checkpoints s) v (tick s).
#[global] Instance update_tick : Update tick := fun v s =>
  mkState (offset s) (attemptsAtOffset s) (delay s) (opened s) (result_ s) (checkpoints s) (dest s) v.

(** A round of the loop goes on or returns. *)
Inductive outcome : Type :=
| Continue (s : copy_state)
| Return (s : copy_state) (err : option copy_error)
| OutOfFuel.

Definition nextDelay (current maximum : Z) : Z :=
  let next := i64 (current * 2) in if maximum <? next then maximum else next.

(** Counts stay within what the caller offered. *)
Definition clamp (n bound : Z) : Z := Z.max 0 (Z.min n bound).

(** [WriteAt]: the first [len data] bytes at [off]. *)
Fixpoint write_at (d : gmap Z Z) (off : Z) (data : bytes) : gmap Z Z :=
  match data with
  | [] => d
  | b :: r => write_at (<[off := b]> d) (off + 1) r
  end.

Section Copy.
Context (env : environment) (source : bytes) (c : CopyConfig).

(** [result.Attempts++; attemptsAtOffset++; closeEndpoints()], then the retry
    decision, the wait and the next delay. *)
Definition retry (s : copy_state) (err : copy_error) : outcome :=
  let a := env (tick s) in
  let r := result_ s in
  let s := s <| result_ := mkResult (Bytes r) (Attempts r + 1) (GenerationOpens r) |>
             <| attemptsAtOffset := attemptsAtOffset s + 1 |> <| opened := false |> in
  if negb (e_retry a) || (MaxAttempts c <=? attemptsAtOffset s) then Return s (Some err) else
  if e_wait_canceled a then Return s (Some ErrContext) else
  Continue (s <| delay := nextDelay (delay s) (MaxRetryDelay c) |>).

(** The write loop of one chunk. [WroteAll]: [written] has reached [n];
    [Broke]: a write failed, is retried and may still have been complete. *)
Inductive write_outcome : Type :=
| WroteAll (s : copy_state)
| Broke (s : copy_state) (written : Z)
| WriteReturn (s : copy_state) (err : option copy_error)
| WriteOutOfFuel.

Fixpoint write_loop (fuel : nat) (s : copy_state) (base n written : Z) (chunk : bytes) : write_outcome :=
  if n <=? written then WroteAll s else
  match fuel with
  | O => WriteOutOfFuel
  | S fuel =>
    let a := env (tick s) in
    let count := clamp (e_count a) (n - written) in
    let s :=
      if 0 <? count then
        let r := result_ s in
        let r := mkResult (Bytes r + count) (Attempts r) (GenerationOpens r) in
        s <| dest := write_at (dest s) (base + written) (take (Z.to_nat count) (drop (Z.to_nat written) chunk)) |>
          <| offset := base + (written + count) |> <| result_ := r |> <| attemptsAtOffset := 0 |>
          <| delay := MinRetryDelay c |>
          <| checkpoints := checkpoints s ++ [mkCheckpoint (base + (written + count)) (Size c) (Attempts r) (GenerationOpens r)] |>
      else s in
    let written := written + count in
    if e_write_fails a then
      match retry s ErrWrite with
      | Continue s => Broke (s <| tick := S (tick s) |>) written
      | Return s err => WriteReturn s err
      | OutOfFuel => WriteOutOfFuel
      end
    else if count =? 0 then WriteReturn s (Some ErrNoProgress)
    else write_loop fuel (s <| tick := S (tick s) |>) base n written chunk
  end.

(** What follows the write loop in a round. *)
Definition after_write (s : copy_state) (a : answer) (n : Z) : outcome :=
  match e_read a with
  | ReadFails => retry s ErrRead
  | ReadEOF => if n =? 0 then Return s (Some ErrSourceEnded) else Continue s
  | ReadFine => if n =? 0 then Return s (Some ErrNoProgress) else Continue s
  end.

Definition next_tick (o : outcome) : outcome :=
  match o with Continue s => Continue (s <| tick := S (tick s) |>) | o => o end.

(** One round of [for offset < config.Size]. The write loop needs at most as
    many writes as there are bytes in the chunk. *)
Definition round (s : copy_state) : outcome :=
  let a := env (tick s) in
  if e_ctx_done a then Return s (Some ErrContext) else
  if negb (opened s) && (e_reader_fails a || e_writer_fails a) then next_tick (retry s ErrOpen) else
  let s :=
    if opened s then s else
    let r := result_ s in
    s <| opened := true |> <| result_ := mkResult (Bytes r) (Attempts r) (GenerationOpens r + 1) |> in
  let base := offset s in
  let want := Z.min (ChunkBytes c) (Size c - base) in
  let chunk := take (Z.to_nat want) (drop (Z.to_nat base) source) in
  let n := clamp (e_n a) (len chunk) in
  let s := s <| tick := S (tick s) |> in
  if 0 <? n then
    match write_loop (Z.to_nat n) s base n 0 chunk with
    | WriteOutOfFuel => OutOfFuel
    | WriteReturn s err => Return s err
    | Broke s written => if written <? n then next_tick (Continue s) else next_tick (after_write s a n)
    | WroteAll s => next_tick (after_write s a n)
    end
  else next_tick (after_write s a n).

Fixpoint copy_loop (fuel : nat) (s : copy_state) : outcome :=
  if negb (offset s <? Size c) then Return s None else
  match fuel with
  | O => OutOfFuel
  | S fuel =>
    match round s with
    | Continue s => copy_loop fuel s
    | o => o
    end
  end.

End Copy.

Definition start (c : CopyConfig) (d : gmap Z Z) : copy_state :=
  mkState 0 0 (MinRetryDelay c) false (mkResult 0 0 0) [] d 0.

Definition Copy (env : environment) (source : bytes) (fuel : nat) (c : CopyConfig) (d : gmap Z Z) : outcome :=
  let fail e := Return (start c d) (Some e) in
  if Size c <? 0 then fail ErrInvalidConfig else
  let chunk := if ChunkBytes c <=? 0 then 256 * 2 ^ 10 else ChunkBytes c in
  if 4 * 2 ^ 20 <? chunk then fail ErrChunkTooLarge else
  let attempts := if MaxAttempts c <=? 0 then 12 else MaxAttempts c in
  let minimum := if MinRetryDelay c <=? 0 then second / 10 else MinRetryDelay c in
  let maximum := if MaxRetryDelay c <=? 0 then 3 * second else MaxRetryDelay c in
  let c := mkConfig (Size c) chunk attempts minimum maximum in
  copy_loop env source c fuel (start c d).

(** ** Proofs *)

Lemma lookup_write_at d off data i :
  write_at d off data !! i =
  if (off <=? i) && (i <? off + len data) then data !! Z.to_nat (i - off) else d !! i.
Proof.
  revert d off. induction data as [|b r IH]; intros d off; cbn [write_at].
  - replace (i <? off + len []) with (i <? off) by (unfold len; simpl; f_equal; lia).
    by destruct (Z.leb_spec off i), (Z.ltb_spec i off); try lia.
  - rewrite IH. rewrite len_cons. destruct (Z.leb_spec (off + 1) i), (Z.ltb_spec i (off + 1 + len r)); cbn [andb].
    + replace (off <=? i) with true by lia. replace (i <? off + (1 + len r)) with true by lia. cbn [andb].
      replace (Z.to_nat (i - off)) with (S (Z.to_nat (i - (off + 1)))) by lia. done.
    + replace (i <? off + (1 + len r)) with false by lia. rewrite andb_false_r. by rewrite lookup_insert_ne by lia.
    + destruct (Z.eq_dec i off) as [->|Hn].
      * replace (off <=? off) with true by lia. replace (off <? off + (1 + len r)) with true by (pose proof (len_nonneg r); lia).
        rewrite Z.sub_diag, lookup_insert_eq. done.
      * replace (off <=? i) with false by lia. cbn [andb]. by rewrite lookup_insert_ne by lia.
    + pose proof (len_nonneg r). lia.
Qed.

Lemma write_at_app d off l1 l2 : write_at d off (l1 ++ l2) = write_at (write_at d off l1) (off + len l1) l2.
Proof.
  revert d off. induction l1 as [|b r IH]; intros d off; cbn [write_at app].
  - unfold len. simpl. by rewrite Z.add_0_r.
  - rewrite IH, len_cons. f_equal. lia.
Qed.

Section Invariant.
Context (env : environment) (source : bytes) (c : CopyConfig) (d0 : gmap Z Z).
Context (Hsize : 0 <= Size c) (Hchunk : 1 <= ChunkBytes c) (Hmax : 1 <= MaxAttempts c).

(** Everything up to [offset] has been copied, once; nothing else was written. *)
Record copy_inv (s : copy_state) : Prop := {
  inv_offset : 0 <= offset s <= Size c;
  inv_source : offset s <= len source;
  inv_bytes : Bytes (result_ s) = offset s;
  inv_dest : dest s = write_at d0 0 (take (Z.to_nat (offset s)) source);
  inv_points : Forall (fun p => 0 < cp_Offset p <= offset s /\ cp_Size p = Size c) (checkpoints s);
  inv_sorted : StronglySorted (fun p q => cp_Offset p < cp_Offset q) (checkpoints s);
  inv_attempts : 0 <= attemptsAtOffset s
}.

(** An environment that answers, always makes some progress and is retried. *)
Definition cooperative : Prop := forall t,
  e_ctx_done (env t) = false /\ e_retry (env t) = true /\ e_wait_canceled (env t) = false /\
  0 < e_n (env t) /\ 0 < e_count (env t).

(** Why a copy may stop short of its end. *)
Definition stop_ok (s : copy_state) (err : option copy_error) : Prop :=
  err <> None /\ (cooperative -> Size c <= len source -> attemptsAtOffset s = MaxAttempts c).

Definition measure (s : copy_state) : Z := (Size c - offset s) * MaxAttempts c + (MaxAttempts c - attemptsAtOffset s).

Lemma measure_progress s s' : offset s < offset s' -> 0 <= attemptsAtOffset s' ->
  attemptsAtOffset s < MaxAttempts c -> measure s' < measure s.
Proof. unfold measure. intros. nia. Qed.

Lemma retry_spec s err : copy_inv s -> attemptsAtOffset s < MaxAttempts c ->
  match retry env c s err with
  | Continue s' => copy_inv s' /\ attemptsAtOffset s' < MaxAttempts c /\ measure s' < measure s /\ offset s' = offset s
  | Return s' e => copy_inv s' /\ stop_ok s' e
  | OutOfFuel => False
  end.
Proof.
  intros [H1 H2 H3 H4 H5 H6 H7] Ha. unfold retry, stop_ok, measure, update. cbn.
  destruct (e_retry (env (tick s))) eqn:Er; cbn [negb orb].
  - destruct (Z.leb_spec (MaxAttempts c) (attemptsAtOffset s + 1)).
    + split; [by constructor; cbn; try done; lia|]. split; [done|]. cbn. lia.
    + destruct (e_wait_canceled (env (tick s))) eqn:Ew; cbn.
      * split; [by constructor; cbn; try done; lia|]. split; [done|]. intros Hc. destruct (Hc (tick s)) as (_ & _ & ? & _). congruence.
      * split; [by constructor; cbn; try done; lia|]. lia.
  - split; [by constructor; cbn; try done; lia|]. split; [done|]. intros Hc. destruct (Hc (tick s)) as (_ & ? & _). congruence.
Qed.

Lemma tick_inv s t : copy_inv s -> copy_inv (s <| tick := t |>).
Proof. intros []. by constructor. Qed.

Lemma chunk_slice base want written count : 0 <= base -> 0 <= written -> 0 <= count ->
  written + count <= len (take (Z.to_nat want) (drop (Z.to_nat base) source)) ->
  take (Z.to_nat (base + written)) source ++
    take (Z.to_nat count) (drop (Z.to_nat written) (take (Z.to_nat want) (drop (Z.to_nat base) source))) =
  take (Z.to_nat (base + (written + count))) source.
Proof.
  intros Hb Hw Hc Hl. rewrite len_take in Hl. rewrite skipn_firstn_comm, drop_drop, take_take.
  replace (Z.to_nat (base + (written + count))) with (Z.to_nat (base + written) + Z.to_nat count)%nat by lia.
  rewrite <- take_take_drop. f_equal. f_equal; [lia|]. f_equal. lia.
Qed.

(** One successful write extends the copied prefix. *)
Definition advance (s : copy_state) (base written count want : Z) : copy_state :=
  let r := mkResult (Bytes (result_ s) + count) (Attempts (result_ s)) (GenerationOpens (result_ s)) in
  s <| dest := write_at (dest s) (base + written) (take (Z.to_nat count) (drop (Z.to_nat written) (take (Z.to_nat want) (drop (Z.to_nat base) source)))) |>
    <| offset := base + (written + count) |> <| result_ := r |> <| attemptsAtOffset := 0 |>
    <| delay := MinRetryDelay c |>
    <| checkpoints := checkpoints s ++ [mkCheckpoint (base + (written + count)) (Size c) (Attempts r) (GenerationOpens r)] |>.

Lemma advance_inv s base written count want : copy_inv s -> offset s = base + written -> 0 <= base -> 0 <= written -> 0 < count ->
  written + count <= len (take (Z.to_nat want) (drop (Z.to_nat base) source)) -> base + want <= Size c ->
  copy_inv (advance s base written count want).
Proof.
  intros [H1 H2 H3 H4 H5 H6 H7] Ho Hb Hw Hc Hl Hwant. unfold advance, update. cbn.
  pose proof (chunk_slice base want written count Hb Hw ltac:(lia) Hl) as Hs. rewrite len_take, len_drop in Hl.
  constructor; cbn.
  - lia.
  - lia.
  - lia.
  - rewrite H4, Ho, <- Hs, write_at_app. f_equal. rewrite len_take. lia.
  - apply Forall_app. split; [|by constructor; [cbn; lia|]]. eapply Forall_impl; [exact H5|]. cbn. intros p [? ?]. lia.
  - clear -H5 H6 Ho Hc. induction H6 as [|p l Hl IH Hp]; cbn; [by repeat constructor|].
    inversion H5; subst. constructor; [by apply IH|]. apply Forall_app. split; [done|]. constructor; [cbn; lia|done].
  - lia.
Qed.

Lemma clamp_bounds n b : 0 <= b -> 0 <= clamp n b <= b.
Proof. unfold clamp. lia. Qed.

Lemma copy_write_loop_spec fuel s base n written want :
  copy_inv s -> attemptsAtOffset s < MaxAttempts c -> offset s = base + written ->
  0 <= base -> 0 <= written <= n -> n <= len (take (Z.to_nat want) (drop (Z.to_nat base) source)) ->
  base + want <= Size c -> n - written <= Z.of_nat fuel ->
  match write_loop env c fuel s base n written (take (Z.to_nat want) (drop (Z.to_nat base) source)) with
  | WroteAll s' => copy_inv s' /\ attemptsAtOffset s' < MaxAttempts c /\ offset s' = base + n
  | Broke s' w => copy_inv s' /\ attemptsAtOffset s' < MaxAttempts c /\ offset s' = base + w /\
      measure s' < measure s
  | WriteReturn s' e => copy_inv s' /\ stop_ok s' e
  | WriteOutOfFuel => False
  end.
Proof.
  revert s written. induction fuel as [|fuel IH]; intros s written Hi Ha Ho Hb Hw Hn Hwant Hf;
    cbn [write_loop]; (destruct (Z.leb_spec n written); [replace n with written by lia; done|]); [lia|].
  pose proof (clamp_bounds (e_count (env (tick s))) (n - written) ltac:(lia)) as Hc.
  set (count := clamp (e_count (env (tick s))) (n - written)) in *.
  destruct (Z.ltb_spec 0 count) as [Hpos|Hzero].
  - pose proof (advance_inv s base written count want Hi Ho Hb ltac:(lia) Hpos ltac:(lia) Hwant) as Hadv.
    fold (advance s base written count want). set (s1 := advance s base written count want) in *.
    assert (measure s1 < measure s) as Hm1 by (apply measure_progress; cbn; lia).
    destruct (e_write_fails (env (tick s))).
    + pose proof (retry_spec s1 ErrWrite Hadv ltac:(cbn; lia)) as Hr. destruct (retry env c s1 ErrWrite) as [s2|s2 e|]; [|done|done].
      destruct Hr as (Hi2 & Ha2 & Hm2 & Ho2). split; [by apply tick_inv|]. split; [done|].
      split; [cbn; rewrite Ho2; done|]. change (measure (s2 <| tick := S (tick s2) |>)) with (measure s2). lia.
    + replace (count =? 0) with false by lia.
      specialize (IH (s1 <| tick := S (tick s1) |>) (written + count) ltac:(by apply tick_inv) ltac:(cbn; lia) ltac:(cbn; lia) Hb
        ltac:(lia) Hn Hwant ltac:(lia)).
      destruct (write_loop _ _ _ _ _ _ _ _) as [s2|s2 w|s2 e|]; [done| |done|done].
      destruct IH as (? & ? & ? & Hm2). change (measure (s1 <| tick := S (tick s1) |>)) with (measure s1) in Hm2.
      split_and!; [done..|lia].
  - assert (count = 0) as E0 by lia. rewrite E0, Z.add_0_r. destruct (e_write_fails (env (tick s))).
    + pose proof (retry_spec s ErrWrite Hi Ha) as Hr. destruct (retry env c s ErrWrite) as [s2|s2 e|]; [|done|done].
      destruct Hr as (Hi2 & Ha2 & Hm2 & Ho2). split; [by apply tick_inv|]. split; [done|].
      split; [cbn; congruence|]. exact Hm2.
    + cbn. split; [done|]. split; [done|]. intros Hcoop. destruct (Hcoop (tick s)) as (_ & _ & _ & _ & Hcount).
      unfold count, clamp in E0. lia.
Qed.

Definition round_ok (s : copy_state) (o : outcome) : Prop :=
  match o with
  | Continue s' => copy_inv s' /\ attemptsAtOffset s' < MaxAttempts c /\ measure s' < measure s
  | Return s' e => copy_inv s' /\ stop_ok s' e
  | OutOfFuel => False
  end.

Lemma after_write_ok s s1 a n : copy_inv s1 -> attemptsAtOffset s1 < MaxAttempts c ->
  (0 < n -> measure s1 < measure s) -> (n = 0 -> measure s1 = measure s /\ ~ (cooperative /\ Size c <= len source)) ->
  0 <= n -> round_ok s (next_tick (after_write env c s1 a n)).
Proof.
  intros Hi Ha Hm Hz Hn. unfold after_write. destruct (e_read a).
  - destruct (Z.eqb_spec n 0) as [->|Hn0]; cbn.
    + split; [done|]. split; [done|]. destruct (Hz eq_refl) as [_ Hno]. tauto.
    + split_and!; [by apply tick_inv|done|apply Hm; lia].
  - destruct (Z.eqb_spec n 0) as [->|Hn0]; cbn.
    + split; [done|]. split; [done|]. destruct (Hz eq_refl) as [_ Hno]. tauto.
    + split_and!; [by apply tick_inv|done|apply Hm; lia].
  - pose proof (retry_spec s1 ErrRead Hi Ha) as Hr. destruct (retry env c s1 ErrRead) as [s2|s2 e|]; cbn; [|done|done].
    destruct Hr as (Hi2 & Ha2 & Hm2 & _). split_and!; [by apply tick_inv|done|].
    change (measure s2 < measure s).
    destruct (Z.eq_dec n 0) as [->|]; [destruct (Hz eq_refl); lia|]. specialize (Hm ltac:(lia)). lia.
Qed.

Lemma round_spec s : copy_inv s -> attemptsAtOffset s < MaxAttempts c -> offset s < Size c ->
  round_ok s (round env source c s).
Proof.
  intros Hi Ha Ho. unfold round. destruct (e_ctx_done (env (tick s))) eqn:Ec.
  { split; [done|]. split; [done|]. intros Hcoop. destruct (Hcoop (tick s)). congruence. }
  destruct (negb (opened s) && (e_reader_fails (env (tick s)) || e_writer_fails (env (tick s)))).
  { pose proof (retry_spec s ErrOpen Hi Ha) as Hr. destruct (retry env c s ErrOpen) as [s2|s2 e|]; cbn; [|done|done].
    destruct Hr as (Hi2 & Ha2 & Hm2 & _). split_and!; [by apply tick_inv|done|exact Hm2]. }
  set (s0 := if opened s then s else _).
  assert (copy_inv s0 /\ attemptsAtOffset s0 = attemptsAtOffset s /\ offset s0 = offset s) as (Hi0 & Ha0 & Ho0).
  { unfold s0. destruct (opened s); [done|]. destruct Hi. split; [by constructor|done]. }
  assert (measure s0 = measure s) as Hm0 by (unfold measure; by rewrite Ha0, Ho0).
  clearbody s0. pose proof (inv_offset _ Hi0) as Hoff.
  set (want := Z.min (ChunkBytes c) (Size c - offset s0)). set (chunk := take (Z.to_nat want) (drop (Z.to_nat (offset s0)) source)).
  pose proof (clamp_bounds (e_n (env (tick s))) (len chunk) (len_nonneg chunk)) as Hn.
  set (n := clamp (e_n (env (tick s))) (len chunk)) in *. set (s1 := s0 <| tick := S (tick s0) |>).
  assert (copy_inv s1) as Hi1 by (by apply tick_inv).
  destruct (Z.ltb_spec 0 n) as [Hpos|Hzero].
  - pose proof (copy_write_loop_spec (Z.to_nat n) s1 (offset s0) n 0 want Hi1 ltac:(cbn; lia) ltac:(cbn; lia) ltac:(lia) ltac:(lia)
      ltac:(fold chunk; lia) ltac:(lia) ltac:(lia)) as Hw. fold chunk in Hw.
    destruct (write_loop _ _ _ _ _ _ _ _) as [s2|s2 w|s2 e|]; [| |done|done].
    + destruct Hw as (Hi2 & Ha2 & Ho2). apply after_write_ok; [done|done| |lia|lia]. intros _.
      rewrite <- Hm0. apply measure_progress; [lia|by apply inv_attempts|lia].
    + destruct Hw as (Hi2 & Ha2 & Ho2 & Hm2). change (measure s1) with (measure s0) in Hm2.
      destruct (w <? n); [|by apply after_write_ok; [done|done|lia|lia|lia]].
      split_and!; [by apply tick_inv|done|]. change (measure s2 < measure s). lia.
  - apply after_write_ok; [done|cbn; lia|lia| |lia]. intros _. split; [done|]. intros [Hcoop Hlen].
    destruct (Hcoop (tick s)) as (_ & _ & _ & Hen & _). unfold n, clamp, chunk, want in Hzero.
    rewrite len_take, len_drop in Hzero. lia.
Qed.

(** The loop ends within the measure of its start. *)
Lemma copy_loop_spec fuel s : copy_inv s -> attemptsAtOffset s < MaxAttempts c -> measure s < Z.of_nat fuel ->
  exists s' e, copy_loop env source c fuel s = Return s' e /\ copy_inv s' /\
    match e with None => offset s' = Size c | Some _ => stop_ok s' e end.
Proof.
  revert s. induction fuel as [|fuel IH]; intros s Hi Ha Hf.
  { pose proof (inv_offset _ Hi). unfold measure in Hf. nia. }
  cbn [copy_loop]. destruct (Z.ltb_spec (offset s) (Size c)) as [Ho|Ho]; cbn [negb].
  - pose proof (round_spec s Hi Ha Ho) as Hr. destruct (round env source c s) as [s1|s1 e|]; cbn in Hr; [|..].
    + destruct Hr as (Hi1 & Ha1 & Hm1). apply IH; [done|done|lia].
    + destruct Hr as (Hi1 & Hs1). exists s1, e. split; [done|]. split; [done|]. destruct e; [done|]. by destruct Hs1.
    + done.
  - pose proof (inv_offset _ Hi). eexists _, None. split; [done|]. split; [done|]. lia.
Qed.

End Invariant.

(** The configured number of attempts, 12 by default, and enough rounds for any copy. *)
Definition attempts_of (c : CopyConfig) : Z := if MaxAttempts c <=? 0 then 12 else MaxAttempts c.
Definition enough (c : CopyConfig) : Z := Z.max 0 (Size c) * attempts_of c + attempts_of c.

Lemma start_inv source c d : 0 <= Size c -> copy_inv source c d (start c d).
Proof. intros Hs. constructor; cbn; try done; try lia; try by constructor. Qed.

Lemma Copy_spec env source c d fuel : enough c < Z.of_nat fuel -> 0 <= Size c -> ChunkBytes c <= 4 * 2 ^ 20 ->
  exists c' s e, Size c' = Size c /\ MaxAttempts c' = attempts_of c /\
    Copy env source fuel c d = Return s e /\ copy_inv source c' d s /\
    match e with None => offset s = Size c | Some _ => stop_ok env source c' s e end.
Proof.
  intros Hf Hs Hc. unfold Copy. replace (Size c <? 0) with false by lia.
  set (chunk := if ChunkBytes c <=? 0 then 256 * 2 ^ 10 else ChunkBytes c).
  assert (1 <= chunk <= 4 * 2 ^ 20) as Hchunk by (unfold chunk; destruct (Z.leb_spec (ChunkBytes c) 0); lia).
  replace (4 * 2 ^ 20 <? chunk) with false by lia. fold (attempts_of c).
  assert (1 <= attempts_of c) as Ha by (unfold attempts_of; destruct (Z.leb_spec (MaxAttempts c) 0); lia).
  set (c' := mkConfig (Size c) chunk (attempts_of c) _ _).
  destruct (copy_loop_spec env source c' d Hs ltac:(cbn; lia) Ha fuel (start c' d)) as (s & e & E & Hi & He).
  - by apply start_inv.
  - cbn. lia.
  - unfold measure. cbn. unfold enough in Hf. nia.
  - by exists c', s, e.
Qed.

(** C22: a resumable copy ends, whatever its endpoints do, within as many rounds
    as attempts are allowed for every byte, and what it leaves is exact: the
    destination holds the source up to the reported offset and its old
    content elsewhere, no byte is skipped, repeated or counted twice across
    failures and reopened transports, the checkpoints rise strictly, and
    without an error everything was copied. *)
Theorem copy_correct (env : environment) (source : bytes) (c : CopyConfig) (d : gmap Z Z) (fuel : nat) :
  enough c < Z.of_nat fuel ->
  exists s e, Copy env source fuel c d = Return s e /\
    (forall i, dest s !! i = if (0 <=? i) && (i <? offset s) then source !! Z.to_nat i else d !! i) /\
    Bytes (result_ s) = offset s /\ 0 <= offset s <= Z.max 0 (Size c) /\ offset s <= len source /\
    StronglySorted (fun p q => cp_Offset p < cp_Offset q) (checkpoints s) /\
    Forall (fun p => 0 < cp_Offset p <= offset s) (checkpoints s) /\
    (e = None -> offset s = Size c).
Proof.
  intros Hf.
  assert (forall e, exists s e', Return (start c d) (Some e) = Return s e' /\
    (forall i, dest s !! i = if (0 <=? i) && (i <? offset s) then source !! Z.to_nat i else d !! i) /\
    Bytes (result_ s) = offset s /\ 0 <= offset s <= Z.max 0 (Size c) /\ offset s <= len source /\
    StronglySorted (fun p q => cp_Offset p < cp_Offset q) (checkpoints s) /\
    Forall (fun p => 0 < cp_Offset p <= offset s) (checkpoints s) /\ (e' = None -> offset s = Size c)) as Hfail.
  { intros e. eexists _, _. split; [done|]. cbn. split_and!; try done; try lia; try by constructor.
    intros i. destruct (Z.leb_spec 0 i), (Z.ltb_spec i 0); done || lia. }
  destruct (Z.ltb_spec (Size c) 0) as [Hneg|Hs]; [unfold Copy; replace (Size c <? 0) with true by lia; apply Hfail|].
  destruct (Z.le_gt_cases (ChunkBytes c) (4 * 2 ^ 20)) as [Hc|Hc].
  2:{ unfold Copy. replace (Size c <? 0) with false by lia. replace (ChunkBytes c <=? 0) with false by lia.
      replace (4 * 2 ^ 20 <? ChunkBytes c) with true by lia. apply Hfail. }
  destruct (Copy_spec env source c d fuel Hf Hs Hc) as (c' & s & e & Es & _ & E & [H1 H2 H3 H4 H5 H6 H7] & He).
  exists s, e. rewrite Es in H1. split; [done|]. split_and!; try done; try lia.
  - intros i. rewrite H4, lookup_write_at, len_take. replace (Z.min _ _) with (offset s) by lia. rewrite Z.add_0_l.
    destruct (Z.leb_spec 0 i), (Z.ltb_spec i (offset s)); cbn [andb]; try done.
    rewrite Z.sub_0_r, lookup_take_lt by lia. done.
  - eapply Forall_impl; [exact H5|]. by intros p [? _].
  - by intros ->.
Qed.

(** A copy does not give up early: while the context lives, the policy
    retries, every read and write moves at least one byte when it is made and
    the source holds the declared size, the only error it can return is after
    as many consecutive failures at one offset as the configuration allows. *)
Theorem copy_persistent (env : environment) (source : bytes) (c : CopyConfig) (d : gmap Z Z) (fuel : nat) :
  enough c < Z.of_nat fuel -> 0 <= Size c <= len source -> ChunkBytes c <= 4 * 2 ^ 20 -> cooperative env ->
  exists s e, Copy env source fuel c d = Return s e /\
    match e with None => offset s = Size c | Some _ => attemptsAtOffset s = attempts_of c end.
Proof.
  intros Hf Hs Hc Hcoop. destruct (Copy_spec env source c d fuel Hf ltac:(lia) Hc) as (c' & s & e & Es & Em & E & _ & He).
  exists s, e. split; [done|]. destruct e; [|done]. destruct He as [_ He]. rewrite <- Em. apply He; [done|lia].
Qed.

(** A copy of three bytes in chunks of two; the second answer fails a write. *)
Definition demo_env (t : nat) : answer :=
  mkAnswer false false false 9 ReadFine 1 (bool_decide (t = 1%nat)) true false.
Definition demo_copy : CopyConfig := mkConfig 3 2 2 0 0.

Lemma copy_correct_witness :
  exists s e, Copy demo_env [7; 8; 9] 20 demo_copy ∅ = Return s e /\ Bytes (result_ s) = offset s.
Proof.
  destruct (copy_correct demo_env [7; 8; 9] demo_copy ∅ 20) as (s & e & E & _ & Hb & _); [by vm_compute|].
  exists s, e. split; [exact E|exact Hb].
Defined.

Lemma copy_persistent_witness :
  exists s, Copy demo_env [7; 8; 9] 20 demo_copy ∅ = Return s None /\ offset s = 3.
Proof.
  destruct (copy_persistent demo_env [7; 8; 9] demo_copy ∅ 20) as (s & e & E & Hs).
  - by vm_compute.
  - split; vm_compute; discriminate.
  - vm_compute. discriminate.
  - intros t. by repeat split.
  - exists s. assert (e = None) as ->; [|split; [exact E|exact Hs]].
    apply (f_equal (fun o => match o with Return _ e => e | _ => None end)) in E. by vm_compute in E.
Defined.

End SessionResume.
