(* ===== verification/PubSub.v ===== *)
(** * Topics and the in-process bus (pubsub)

    event.go (topic names), bus.go: topic validation and matching, and the bus
    with its bounded subscriber channels. A filter is compared with a topic
    level by level, as the loops of the code do. *)

From S2P Require Import Prelude GoStrings.

Module PubSub.
Import GoStrings.

Inductive pub_error : Type :=
| ErrTopicRequired
| ErrTopicTooLong
| ErrTopicWildcard
| ErrTopicEmptyLevel
| ErrHashPosition
| ErrPlusPosition
| ErrComponentRequired
| ErrEventTypeRequired.

Record Message := mkMessage {
  Topic : bytes;
  Payload : bytes
}.

Definition hash : bytes := str "#".
Definition plus : bytes := str "+".
Definition DefaultPrefix : bytes := str "weaverssh".

(** [strings.IndexByte(s, b) >= 0]. *)
Definition has_byte (b : Z) (s : bytes) : bool := existsb (Z.eqb b) s.

Definition ValidatePublishTopic (topic : bytes) : option pub_error :=
  let topic := TrimSpace topic in
  if len topic =? 0 then Some ErrTopicRequired else
  if 65535 <? len topic then Some ErrTopicTooLong else
  if has_byte 43 topic || has_byte 35 topic then Some ErrTopicWildcard else
  if existsb (fun part => len (TrimSpace part) =? 0) (split_slash topic) then Some ErrTopicEmptyLevel else None.

(** The loop over the levels of a filter, first violation first. *)
Fixpoint check_levels (parts : list bytes) : option pub_error :=
  match parts with
  | [] => None
  | part :: rest =>
    if has_byte 35 part && negb (str_eqb part hash && match rest with [] => true | _ => false end) then Some ErrHashPosition else
    if has_byte 43 part && negb (str_eqb part plus) then Some ErrPlusPosition else
    check_levels rest
  end.

Definition ValidateSubscribeTopic (topic : bytes) : option pub_error :=
  let topic := TrimSpace topic in
  if len topic =? 0 then Some ErrTopicRequired else
  if 65535 <? len topic then Some ErrTopicTooLong else
  check_levels (split_slash topic).

Definition cleanTopicPart (value : bytes) : bytes :=
  trim_slash ((fun b => if b =? 32 then 45 else b) <$> TrimSpace value).

Definition EventTopic (prefix component eventType : bytes) : bytes * option pub_error :=
  let prefix := cleanTopicPart prefix in
  let prefix := if len prefix =? 0 then DefaultPrefix else prefix in
  let component := cleanTopicPart component in
  let eventType := cleanTopicPart eventType in
  if len component =? 0 then ([], Some ErrComponentRequired) else
  if len eventType =? 0 then ([], Some ErrEventTypeRequired) else
  let topic := prefix ++ str "/" ++ component ++ str "/" ++ eventType in
  (topic, ValidatePublishTopic topic).

(** ** Matching *)

(** The scan of [splitTopic]: [part] is [topic[start:i]]. *)
Fixpoint split_from (part topic : bytes) : list bytes :=
  match topic with
  | [] => [part]
  | c :: r => if c =? 47 then part :: split_from [] r else split_from (part ++ [c]) r
  end.

Definition splitTopic (topic : bytes) : list bytes := if len topic =? 0 then [] else split_from [] topic.

Fixpoint match_levels (fp tp : list bytes) : bool :=
  match fp with
  | [] => match tp with [] => true | _ => false end
  | part :: fr =>
    if str_eqb part hash then match fr with [] => true | _ => false end else
    match tp with
    | [] => false
    | t :: tr => if str_eqb part plus || str_eqb part t then match_levels fr tr else false
    end
  end.

Definition TopicMatches (filter topic : bytes) : bool := match_levels (splitTopic filter) (splitTopic topic).

(** ** The bus *)

(** A subscriber's channel: its capacity and what is queued in it. *)
Record subscription := mkSubscription {
  filter_ : bytes;
  cap : Z;
  queue : list Message
}.

Record Bus := mkBus {
  next : Z;
  subs : gmap Z subscription
}.

Definition NewBus : Bus := mkBus 0 ∅.

(** The new subscription's identifier stands for its channel. *)
Definition Subscribe (b : Bus) (filter : bytes) (buffer : Z) : result pub_error Z * Bus :=
  match ValidateSubscribeTopic filter with
  | Some e => (Err e, b)
  | None =>
    let buffer := if buffer <? 0 then 0 else buffer in
    let id := u64 (next b + 1) in
    (Ok id, mkBus id (<[id := mkSubscription filter buffer []]> (subs b)))
  end.

Definition cancel (b : Bus) (id : Z) : Bus := mkBus (next b) (delete id (subs b)).

(** [select { case sub.ch <- msg: default: }]: the message is queued if there
    is room or a receiver is blocked on the channel, and dropped otherwise. *)
Definition offer (waiting : bool) (msg : Message) (sub : subscription) : subscription :=
  if TopicMatches (filter_ sub) (Topic msg) && ((len (queue sub) <? cap sub) || waiting)
  then mkSubscription (filter_ sub) (cap sub) (queue sub ++ [msg]) else sub.

Definition Bus_Publish (b : Bus) (waiting : Z -> bool) (topic payload : bytes) : option pub_error * Bus :=
  match ValidatePublishTopic topic with
  | Some e => (Some e, b)
  | None => (None, mkBus (next b) (map_imap (fun id sub => Some (offer (waiting id) (mkMessage topic payload) sub)) (subs b)))
  end.

(** A receive from the channel of [id]. *)
Definition receive (b : Bus) (id : Z) : option Message * Bus :=
  match subs b !! id with
  | Some (mkSubscription f c (msg :: r)) => (Some msg, mkBus (next b) (<[id := mkSubscription f c r]> (subs b)))
  | _ => (None, b)
  end.

(** ** Proofs *)

Lemma split_from_eq part topic :
  split_from part topic = match split_slash topic with p :: ps => (part ++ p) :: ps | [] => [part] end.
Proof.
  revert part. induction topic as [|c r IH]; intros part; cbn; [by rewrite app_nil_r|].
  pose proof (split_slash_nonempty r) as Hn. destruct (c =? 47); rewrite IH, ?app_nil_r; (destruct (split_slash r) as [|p ps]; [done|]).
  - done.
  - by rewrite <- app_assoc.
Qed.

Lemma splitTopic_eq topic : topic <> [] -> splitTopic topic = split_slash topic.
Proof.
  intros Hn. unfold splitTopic. destruct topic as [|c r]; [done|]. rewrite split_from_eq.
  replace (len (c :: r) =? 0) with false by (symmetry; apply Z.eqb_neq; rewrite len_cons; pose proof (len_nonneg r); lia).
  pose proof (split_slash_nonempty (c :: r)). by destruct (split_slash (c :: r)).
Qed.

(** MQTT's meaning of a filter: [+] is one level, a final [#] any number of them. *)
Inductive matches_topic : list bytes -> list bytes -> Prop :=
| matches_nil : matches_topic [] []
| matches_hash l : matches_topic [hash] l
| matches_plus f t l : matches_topic f l -> matches_topic (plus :: f) (t :: l)
| matches_level p f l : p <> hash -> p <> plus -> matches_topic f l -> matches_topic (p :: f) (p :: l).

Lemma match_levels_spec f t : match_levels f t = true <-> matches_topic f t.
Proof.
  split.
  - revert t. induction f as [|p f IH]; intros t; cbn; [destruct t; [by constructor|done]|].
    destruct (str_eqb_spec p hash) as [->|Hh]; [destruct f; [by constructor|done]|]. destruct t as [|x t]; [done|].
    destruct (str_eqb_spec p plus) as [->|Hp]; cbn; [intros Hm; constructor; by apply IH|].
    destruct (str_eqb_spec p x) as [->|]; [|done]. intros Hm. constructor; [done|done|by apply IH].
  - induction 1 as [|l|f t l _ IH|p f l Hh Hp _ IH]; cbn; [done|done|..].
    + replace (str_eqb plus hash) with false by done. by rewrite str_eqb_refl.
    + destruct (str_eqb_spec p hash); [done|]. by rewrite str_eqb_refl, orb_true_r.
Qed.

End PubSub.
