(* ===== verification/SessionEvents.v ===== *)
(** * Session events (sessionevents)

    policy.go, wire.go and runtime_policy.go: requests, the event policy of a
    final node, authorisation and the service of publish and subscribe
    requests on the node's bus. Messages are taken after their JSON decoding;
    the framing below them is in Framing.v. *)

From S2P Require Import Prelude GoStrings PubSub.

Module SessionEvents.
Import GoStrings PubSub.

Inductive event_error : Type :=
| ErrInvalidRequest
| ErrDenied
| ErrTopic (e : pub_error)
| ErrRuntime (code : Z)
| ErrMetadata
| ErrProvenance
| ErrPolicy
| ErrTopology.

Definition ProtocolVersion : bytes := str "weaverssh.events.v1".
Definition OpenProtocolVersion : bytes := str "weaverssh.events-open.v1".
Definition PolicyVersion : bytes := str "weaverssh.events-policy.v1".
Definition OperationPublish : bytes := str "publish".
Definition OperationSubscribe : bytes := str "subscribe".
Definition MaxPayloadBytes : Z := 2 ^ 20.
Definition MaxSubscriptionLimit : Z := 100000.

Record OpenMetadata := mkMetadata {
  md_Protocol : bytes;
  TargetNode : bytes;
  SourceNode : bytes;
  SourceBinding : bytes;
  md_ChainSHA256 : bytes
}.

Record Request := mkRequest {
  rq_Protocol : bytes;
  rq_ID : bytes;
  Operation : bytes;
  rq_Topic : bytes;
  rq_Payload : bytes;
  rq_Limit : Z;
  rq_Buffer : Z
}.

Record Rule := mkRule {
  ru_ID : bytes;
  Action : bytes;
  Sources : list bytes;
  Operations : list bytes;
  Topics : list bytes
}.

Record Policy := mkPolicy {
  po_Version : bytes;
  po_Default : bytes;
  Rules : list Rule
}.

Record Engine := mkEngine {
  topology : list bytes;
  chainSHA256 : bytes;
  currentNode : bytes;
  policy : Policy
}.

(** [r == '.' || r == '_' || r == '-'] or an ASCII letter or digit. *)
Definition name_rune (r : Z) : bool :=
  (r =? 46) || (r =? 95) || (r =? 45) || ((97 <=? r) && (r <=? 122)) || ((65 <=? r) && (r <=? 90)) || ((48 <=? r) && (r <=? 57)).

Definition validName (v : bytes) : bool :=
  let v := TrimSpace v in
  negb ((len v =? 0) || (128 <? len v)) && forallb name_rune (runes v).

Definition indexOf (values : list bytes) (want : bytes) : Z := index_from 0 (TrimSpace <$> values) want.

Definition contains (values : list bytes) (want : bytes) : bool := existsb (fun v => str_eqb (TrimSpace v) want) values.

Definition sourceMatches (values : list bytes) (want : bytes) : bool :=
  existsb (fun v => str_eqb v (str "*") || str_eqb (TrimSpace v) want) values.

(** The loop of [filterCovered] over the levels of both filters. *)
Fixpoint covered_levels (a r : list bytes) : bool :=
  match a with
  | [] => match r with [] => true | _ => false end
  | part :: ar =>
    if str_eqb part hash then match ar with [] => true | _ => false end else
    match r with
    | [] => false
    | q :: rr =>
      if str_eqb q hash then false else
      if str_eqb part plus then covered_levels ar rr else
      if negb (str_eqb q part) then false else covered_levels ar rr
    end
  end.

Definition filterCovered (allowed requested : bytes) : bool :=
  let allowed := TrimSpace allowed in
  let requested := TrimSpace requested in
  if str_eqb allowed requested || str_eqb allowed hash then true else
  covered_levels (split_slash allowed) (split_slash requested).

Section Engine.
Context `{UnicodeTables}.

(** ** Requests *)

(** [fresh] is what [NewRequestID] draws when the request has no identifier. *)
Definition normalizeRequest (fresh : bytes) (r : Request) : Request :=
  let id := TrimSpace (rq_ID r) in
  mkRequest ProtocolVersion (if len id =? 0 then fresh else id) (ToLower (TrimSpace (Operation r)))
    (TrimSpace (rq_Topic r)) (rq_Payload r) (rq_Limit r) (if rq_Buffer r =? 0 then 64 else rq_Buffer r).

Definition topic_error (e : option pub_error) : option event_error := ErrTopic <$> e.

Definition validateRequest (r : Request) : option event_error :=
  if negb (str_eqb (rq_Protocol r) ProtocolVersion) || (len (rq_ID r) =? 0) || (128 <? len (rq_ID r)) ||
     (negb (str_eqb (Operation r) OperationPublish) && negb (str_eqb (Operation r) OperationSubscribe)) ||
     (rq_Limit r <? 0) || (MaxSubscriptionLimit <? rq_Limit r) || (rq_Buffer r <? 0) || (65536 <? rq_Buffer r) ||
     (MaxPayloadBytes <? len (rq_Payload r)) then Some ErrInvalidRequest else
  if str_eqb (Operation r) OperationPublish then
    if len (rq_Payload r) =? 0 then Some ErrInvalidRequest else topic_error (ValidatePublishTopic (rq_Topic r))
  else if negb (len (rq_Payload r) =? 0) then Some ErrInvalidRequest else topic_error (ValidateSubscribeTopic (rq_Topic r)).

(** [readRequest] after the frame has been decoded. *)
Definition readRequest (fresh : bytes) (r : Request) : result event_error Request :=
  let r := normalizeRequest fresh r in
  match validateRequest r with Some e => Err e | None => Ok r end.

(** ** Open metadata *)

Definition ParseOpenMetadata (m : OpenMetadata) : result event_error OpenMetadata :=
  let m := mkMetadata (TrimSpace (md_Protocol m)) (TrimSpace (TargetNode m)) (TrimSpace (SourceNode m))
             (TrimSpace (SourceBinding m)) (ToLower (TrimSpace (md_ChainSHA256 m))) in
  if negb (str_eqb (md_Protocol m) OpenProtocolVersion) || negb (validName (TargetNode m)) then Err ErrMetadata else Ok m.

Definition BindSource (raw : OpenMetadata) (source binding chain target : bytes) : result event_error OpenMetadata :=
  let* m := ParseOpenMetadata raw in
  let chain := ToLower (TrimSpace chain) in
  let* m :=
    if (len (SourceNode m) =? 0) && (len (SourceBinding m) =? 0) && (len (md_ChainSHA256 m) =? 0)
    then Ok (mkMetadata (md_Protocol m) (TargetNode m) (TrimSpace source) (TrimSpace binding) chain)
    else if negb (str_eqb (md_ChainSHA256 m) chain) then Err ErrProvenance else Ok m in
  let m := mkMetadata (md_Protocol m) (TrimSpace target) (SourceNode m) (SourceBinding m) (md_ChainSHA256 m) in
  if negb (validName (SourceNode m)) || negb (validName (TargetNode m)) || (len (SourceBinding m) =? 0) ||
     (512 <? len (SourceBinding m)) || negb (len (md_ChainSHA256 m) =? 64) then Err ErrProvenance else Ok m.

(** ** Policies *)

Definition rule_complete (r : Rule) : bool :=
  negb ((len (Sources r) =? 0) || (len (Operations r) =? 0) || (len (Topics r) =? 0)) &&
  forallb (fun s => str_eqb s (str "*") || validName s) (Sources r) &&
  forallb (fun o => str_eqb o OperationPublish || str_eqb o OperationSubscribe) (Operations r) &&
  forallb (fun t => match ValidateSubscribeTopic t with None => true | Some _ => false end) (Topics r).

Fixpoint check_rules (seen : list bytes) (l : list Rule) : result event_error (list Rule) :=
  match l with
  | [] => Ok []
  | r :: rest =>
    let r := mkRule (TrimSpace (ru_ID r)) (ToLower (TrimSpace (Action r))) (Sources r) (Operations r) (Topics r) in
    if (len (ru_ID r) =? 0) || existsb (str_eqb (ru_ID r)) seen ||
       (negb (str_eqb (Action r) (str "allow")) && negb (str_eqb (Action r) (str "deny"))) then Err ErrPolicy else
    if negb (rule_complete r) then Err ErrPolicy else
    let* rest := check_rules (ru_ID r :: seen) rest in
    Ok (r :: rest)
  end.

(** [ParsePolicy] on the decoded document. *)
Definition ParsePolicy (p : Policy) : result event_error Policy :=
  if negb (str_eqb (po_Version p) PolicyVersion) || negb (str_eqb (ToLower (TrimSpace (po_Default p))) (str "deny")) then Err ErrPolicy else
  if len (Rules p) =? 0 then Err ErrPolicy else
  let* rules := check_rules [] (Rules p) in
  Ok (mkPolicy (po_Version p) (po_Default p) rules).

Definition NewEngine (topology : list bytes) (chain current : bytes) (policy : Policy) : result event_error Engine :=
  let chain := ToLower (TrimSpace chain) in
  let current := TrimSpace current in
  if negb (len chain =? 64) || (indexOf topology current <? 0) then Err ErrTopology else
  Ok (mkEngine topology chain current policy).

(** ** Authorisation *)

Definition topic_allowed (req : Request) (topic : bytes) : bool :=
  if str_eqb (Operation req) OperationPublish then TopicMatches topic (rq_Topic req)
  else filterCovered topic (rq_Topic req).

Definition rule_applies (m : OpenMetadata) (req : Request) (r : Rule) : bool :=
  sourceMatches (Sources r) (SourceNode m) && contains (Operations r) (Operation req) &&
  existsb (topic_allowed req) (Topics r).

(** The loop over the rules: [None] is the early [ErrDenied]. *)
Fixpoint scan_rules (m : OpenMetadata) (req : Request) (allowed : bool) (l : list Rule) : option bool :=
  match l with
  | [] => Some allowed
  | r :: rest =>
    if negb (rule_applies m req r) then scan_rules m req allowed rest else
    if str_eqb (Action r) (str "deny") then None else scan_rules m req true rest
  end.

(** [runtime] is the optional second layer; without one it accepts everything. *)
Definition authorize (runtime : OpenMetadata -> Request -> option Z) (e : Engine) (m : OpenMetadata) (req : Request) : option event_error :=
  if negb (str_eqb (TargetNode m) (currentNode e)) || negb (str_eqb (md_ChainSHA256 m) (chainSHA256 e)) ||
     (indexOf (topology e) (SourceNode m) <? 0) then Some ErrDenied else
  match scan_rules m req false (Rules (policy e)) with
  | Some true => ErrRuntime <$> runtime m req
  | _ => Some ErrDenied
  end.

(** ** Serving *)

Inductive served : Type :=
| ServeFailed
| Replied (e : event_error)
| Published
| Subscribed (id : Z).

(** [Serve] up to its answer: the metadata, the first request, authorisation
    and the effect on the bus. A subscription then forwards what it receives. *)
Definition Serve (runtime : OpenMetadata -> Request -> option Z) (e : Engine) (waiting : Z -> bool) (fresh : bytes)
    (raw : OpenMetadata) (r : Request) (b : Bus) : served * Bus :=
  match ParseOpenMetadata raw with
  | Err _ => (ServeFailed, b)
  | Ok m =>
    match readRequest fresh r with
    | Err err => (Replied err, b)
    | Ok req =>
      match authorize runtime e m req with
      | Some err => (Replied err, b)
      | None =>
        if str_eqb (Operation req) OperationPublish then
          match Bus_Publish b waiting (rq_Topic req) (rq_Payload req) with
          | (Some err, b) => (Replied (ErrTopic err), b)
          | (None, b) => (Published, b)
          end
        else if str_eqb (Operation req) OperationSubscribe then
          match Subscribe b (rq_Topic req) (if rq_Buffer req =? 0 then 64 else rq_Buffer req) with
          | (Err err, b) => (Replied (ErrTopic err), b)
          | (Ok id, b) => (Subscribed id, b)
          end
        else (Replied ErrInvalidRequest, b)
      end
    end
  end.

End Engine.

End SessionEvents.
