(* ===== verification/SessionEventsProofs.v ===== *)
(** * Session events: proofs

    Filter coverage is sound, authorisation decides exactly what the policy
    says, and, over every interleaving of requests on a node, a remote
    subscriber only ever receives messages some rule grants it. *)

From S2P Require Import Prelude GoStrings PubSub SessionEvents.

Module SessionEventsProofs.
Import GoStrings PubSub SessionEvents.

Lemma covered_levels_sound a r t : covered_levels a r = true -> match_levels r t = true -> match_levels a t = true.
Proof.
  revert r t. induction a as [|part a IH]; intros r t; cbn [covered_levels].
  - by destruct r.
  - cbn [match_levels]. destruct (str_eqb_spec part hash) as [->|Hh]; [done|]. destruct r as [|q r]; [done|].
    cbn [match_levels]. destruct (str_eqb_spec q hash) as [->|Hq]; [done|]. destruct t as [|x t]; [done|].
    destruct (str_eqb_spec part plus) as [->|Hp]; cbn [orb].
    + intros Hc Hm. destruct (str_eqb q plus || str_eqb q x); [|done]. by eapply IH.
    + destruct (str_eqb_spec q part) as [->|]; [|done]. cbn [negb]. intros Hc.
      destruct (str_eqb_spec part plus); [done|]. cbn [orb]. destruct (str_eqb part x); [|done]. by apply IH.
Qed.

Lemma split_slash_empty v : split_slash v = [[]] -> v = [].
Proof. destruct v as [|c v]; [done|]. cbn. destruct (c =? 47); [|by destruct (split_slash v)]. by intros [= E%split_slash_nonempty]. Qed.

Lemma covered_nonempty a r : r <> [] -> covered_levels (split_slash a) (split_slash r) = true -> a <> [].
Proof.
  intros Hr Hc ->. cbn in Hc. destruct (split_slash r) as [|q rr] eqn:E; [done|].
  destruct (str_eqb q hash); [done|]. destruct (str_eqb_spec q []) as [->|]; [|done].
  destruct rr; [|done]. by apply split_slash_empty in E.
Qed.

(** Every topic a covered filter matches is matched by the covering one. *)
Lemma filterCovered_sound allowed requested topic :
  TrimSpace requested <> [] -> filterCovered allowed requested = true ->
  TopicMatches (TrimSpace requested) topic = true -> TopicMatches (TrimSpace allowed) topic = true.
Proof.
  intros Hr. unfold filterCovered. destruct (str_eqb_spec (TrimSpace allowed) (TrimSpace requested)) as [->|_]; [done|].
  destruct (str_eqb_spec (TrimSpace allowed) hash) as [->|_]; [done|]. cbn [orb]. intros Hc.
  pose proof (covered_nonempty _ _ Hr Hc) as Ha. unfold TopicMatches. rewrite (splitTopic_eq _ Hr), (splitTopic_eq _ Ha).
  exact (covered_levels_sound _ _ _ Hc).
Qed.

Lemma scan_rules_spec m req allowed l :
  scan_rules m req allowed l = Some true <->
  (allowed = true \/ exists r, r ∈ l /\ rule_applies m req r = true) /\
  forall r, r ∈ l -> rule_applies m req r = true -> Action r <> str "deny".
Proof.
  revert allowed. induction l as [|r l IH]; intros allowed; cbn [scan_rules].
  - split; [intros [= ->]; split; [by left|set_solver]|]. intros [[->|(r & Hr & _)] _]; [done|set_solver].
  - destruct (rule_applies m req r) eqn:Ea; cbn [negb].
    + destruct (str_eqb_spec (Action r) (str "deny")) as [Ed|Hd].
      * split; [done|]. intros [_ Hno]. exfalso. apply (Hno r); [set_solver|done|done].
      * rewrite IH. split; intros [_ Hno]; (split; [|]).
        -- right. exists r. split; [set_solver|done].
        -- intros r' Hr' Ha'. apply elem_of_cons in Hr' as [->|Hr']; [done|by apply Hno].
        -- by left.
        -- intros r' Hr' Ha'. apply Hno; [set_solver|done].
    + rewrite IH. split; intros [Hex Hno]; (split; [|]).
      * destruct Hex as [->|(r' & Hr' & Ha')]; [by left|right]. exists r'. split; [set_solver|done].
      * intros r' Hr' Ha'. apply elem_of_cons in Hr' as [->|Hr']; [congruence|by apply Hno].
      * destruct Hex as [->|(r' & Hr' & Ha')]; [by left|right]. exists r'. apply elem_of_cons in Hr' as [->|Hr']; [congruence|done].
      * intros r' Hr' Ha'. apply Hno; [set_solver|done].
Qed.

Section Claims.
Context `{UnicodeTables} (runtime : OpenMetadata -> Request -> option Z).

(** ** A node over time *)

(** The bus of a node, and for each subscription of a remote peer the metadata it was opened with. *)
Record node := mkNode {
  bus : Bus;
  owners : gmap Z OpenMetadata
}.

(** The node's own components publish and subscribe without the engine. *)
Inductive node_step (e : Engine) (n : node) : node -> Prop :=
| step_serve waiting fresh raw m r res b :
    ParseOpenMetadata raw = Ok m -> Serve runtime e waiting fresh raw r (bus n) = (res, b) ->
    node_step e n (mkNode b (match res with Subscribed id => <[id := m]> (owners n) | _ => owners n end))
| step_publish waiting topic payload :
    node_step e n (mkNode (snd (Bus_Publish (bus n) waiting topic payload)) (owners n))
| step_subscribe filter buffer id b :
    Subscribe (bus n) filter buffer = (Ok id, b) -> node_step e n (mkNode b (delete id (owners n)))
| step_receive id : node_step e n (mkNode (snd (receive (bus n) id)) (owners n))
| step_cancel id : node_step e n (mkNode (cancel (bus n) id) (owners n)).

(** A rule that is not a denial lets [m] subscribe to topics matching [pattern]. *)
Definition granted (e : Engine) (m : OpenMetadata) (pattern : bytes) : Prop :=
  exists r, r ∈ Rules (policy e) /\ Action r <> str "deny" /\ sourceMatches (Sources r) (SourceNode m) = true /\
    contains (Operations r) OperationSubscribe = true /\ pattern ∈ Topics r.

Definition node_inv (e : Engine) (n : node) : Prop :=
  forall id m sub, owners n !! id = Some m -> subs (bus n) !! id = Some sub ->
    (exists pattern, granted e m pattern /\ filterCovered pattern (filter_ sub) = true) /\
    filter_ sub <> [] /\ TrimSpace (filter_ sub) = filter_ sub /\
    TargetNode m = currentNode e /\ indexOf (topology e) (SourceNode m) >= 0 /\
    Forall (fun msg => TopicMatches (filter_ sub) (Topic msg) = true) (queue sub).

Lemma Publish_inv e b o waiting topic payload : node_inv e (mkNode b o) ->
  node_inv e (mkNode (snd (Bus_Publish b waiting topic payload)) o).
Proof.
  intros Hi. unfold Bus_Publish. destruct (ValidatePublishTopic topic); [done|].
  intros id m sub Ho Hs. cbn in Ho, Hs. rewrite map_lookup_imap in Hs.
  destruct (subs b !! id) as [sub0|] eqn:E; [|done]. cbn in Hs. injection Hs as <-.
  destruct (Hi id m sub0 Ho E) as (H1 & H2 & H3 & H4 & H5 & H6). unfold offer. cbn [Topic].
  destruct (TopicMatches (filter_ sub0) topic) eqn:Em; cbn [andb]; [|by split_and!].
  destruct ((len (queue sub0) <? cap sub0) || waiting id); [|by split_and!].
  cbn [filter_ queue]. split_and!; try done. apply Forall_app. split; [done|]. by constructor.
Qed.

Lemma Subscribe_ok b filter buffer id b' : Subscribe b filter buffer = (Ok id, b') ->
  exists c, b' = mkBus id (<[id := mkSubscription filter c []]> (subs b)) /\ TrimSpace filter <> [].
Proof.
  unfold Subscribe. destruct (ValidateSubscribeTopic filter) eqn:E; [done|]. intros [= <- <-]. eexists. split; [done|].
  intros Et. unfold ValidateSubscribeTopic in E. rewrite Et in E. done.
Qed.

(** What a served subscription was granted. *)
Lemma Serve_subscribed e waiting fresh raw m r b id b' :
  ParseOpenMetadata raw = Ok m -> Serve runtime e waiting fresh raw r b = (Subscribed id, b') ->
  exists req c pattern, b' = mkBus id (<[id := mkSubscription (rq_Topic req) c []]> (subs b)) /\
    TrimSpace (rq_Topic req) = rq_Topic req /\ rq_Topic req <> [] /\
    granted e m pattern /\ filterCovered pattern (rq_Topic req) = true /\
    TargetNode m = currentNode e /\ indexOf (topology e) (SourceNode m) >= 0.
Proof.
  intros Hm. unfold Serve. rewrite Hm. unfold readRequest.
  set (req := normalizeRequest fresh r). destruct (validateRequest req); [done|].
  assert (TrimSpace (rq_Topic req) = rq_Topic req) as Htrim by apply TrimSpace_idemp.
  destruct (authorize runtime e m req) eqn:Ea; [done|].
  destruct (str_eqb_spec (Operation req) OperationPublish) as [|Hop]; [by destruct (Bus_Publish _ _ _ _) as [[]]|].
  destruct (str_eqb_spec (Operation req) OperationSubscribe) as [Hsub|]; [|done].
  destruct (Subscribe _ _ _) as [[id'|] b1] eqn:Es; [|done]. intros [= -> ->].
  apply Subscribe_ok in Es as (c & -> & Hne). rewrite Htrim in Hne. unfold authorize in Ea.
  destruct (str_eqb_spec (TargetNode m) (currentNode e)); [|done]. destruct (str_eqb (md_ChainSHA256 m) (chainSHA256 e)); [|done].
  destruct (Z.ltb_spec (indexOf (topology e) (SourceNode m)) 0); [done|]. cbn [negb orb] in Ea.
  destruct (scan_rules m req false (Rules (policy e))) as [[]|] eqn:Er; try done.
  apply scan_rules_spec in Er as [[?|(rule & Hr & Happ)] Hno]; [done|]. specialize (Hno rule Hr Happ).
  unfold rule_applies in Happ. apply andb_true_iff in Happ as [Happ Htop]. apply andb_true_iff in Happ as [Hsrc Hops].
  apply existsb_exists in Htop as (pattern & Hpat & Hcov). unfold topic_allowed in Hcov.
  destruct (str_eqb_spec (Operation req) OperationPublish); [done|]. rewrite Hsub in Hops.
  exists req, c, pattern. split_and!; try done; [|lia]. exists rule. split_and!; try done. by apply list_elem_of_In.
Qed.

(** Any other answer leaves the bus alone or comes from a publication. *)
Lemma Serve_bus e waiting fresh raw r b res b' : Serve runtime e waiting fresh raw r b = (res, b') ->
  (exists id, res = Subscribed id) \/
  (forall id, res <> Subscribed id) /\ (b' = b \/ exists topic payload, b' = snd (Bus_Publish b waiting topic payload)).
Proof.
  unfold Serve. destruct (ParseOpenMetadata raw) as [m|]; [|intros [= <- <-]; by auto].
  destruct (readRequest fresh r) as [req|]; [|intros [= <- <-]; by auto].
  destruct (authorize runtime e m req); [intros [= <- <-]; by auto|].
  destruct (str_eqb (Operation req) OperationPublish).
  - destruct (Bus_Publish b waiting (rq_Topic req) (rq_Payload req)) as [err b1] eqn:E.
    assert (b1 = snd (Bus_Publish b waiting (rq_Topic req) (rq_Payload req))) as Eb by (by rewrite E).
    destruct err; intros [= <- <-]; right; (split; [done|]); right; eauto.
  - destruct (str_eqb (Operation req) OperationSubscribe); [|intros [= <- <-]; by auto].
    destruct (Subscribe b (rq_Topic req) _) as [[id|err] b1] eqn:E; intros [= <- <-]; [by eauto|].
    right. split; [done|]. left. unfold Subscribe in E. by destruct (ValidateSubscribeTopic _); simplify_eq.
Qed.

Lemma node_step_inv e n n' : node_inv e n -> node_step e n n' -> node_inv e n'.
Proof.
  destruct n as [b o]. intros Hi Hs. inversion Hs as [waiting fresh raw m r res b' Hm HS|waiting topic payload|filter buffer id b' HS|id|id]; subst; clear Hs; cbn [bus owners] in *.
  - destruct (Serve_bus _ _ _ _ _ _ _ _ HS) as [[id ->]|[Hres Hb]]; cycle 1.
    { assert (match res with Subscribed id => <[id := m]> o | _ => o end = o) as -> by (destruct res as [| | |id0]; [done..|by destruct (Hres id0)]).
      destruct Hb as [->|(topic & payload & ->)]; [done|by apply Publish_inv]. }
    destruct (Serve_subscribed _ _ _ _ _ _ _ _ _ Hm HS) as (req & c & pattern & -> & Ht & Hne & Hg & Hc & Htn & Hix).
    intros id' m' sub Ho Hsub. cbn [bus owners subs] in *. destruct (decide (id' = id)) as [->|Hn].
    + rewrite lookup_insert_eq in Ho. rewrite lookup_insert_eq in Hsub. simplify_eq. cbn [filter_ queue]. split_and!; try done. by exists pattern.
    + rewrite lookup_insert_ne in Ho by done. rewrite lookup_insert_ne in Hsub by done. by apply (Hi id').
  - by apply Publish_inv.
  - apply Subscribe_ok in HS as (c & -> & _). intros id' m' sub Ho Hsub. cbn [bus owners subs] in *.
    apply lookup_delete_Some in Ho as [Hn Ho]. rewrite lookup_insert_ne in Hsub by done. by apply (Hi id').
  - unfold receive. destruct (subs b !! id) as [[f c [|msg q]]|] eqn:E; try done.
    intros id' m' sub Ho Hsub. cbn [snd bus owners subs] in *. destruct (decide (id' = id)) as [->|Hn].
    + rewrite lookup_insert_eq in Hsub. simplify_eq. destruct (Hi id m' _ Ho E) as (H1 & H2 & H3 & H4 & H5 & H6).
      cbn [filter_ queue] in *. split_and!; try done. by apply Forall_cons in H6 as [_ ?].
    + rewrite lookup_insert_ne in Hsub by done. by apply (Hi id').
  - intros id' m' sub Ho Hsub. cbn [bus owners subs cancel] in *. apply lookup_delete_Some in Hsub as [_ Hsub]. by apply (Hi id').
Qed.

Lemma node_reachable_inv e n : rtc (node_step e) (mkNode NewBus ∅) n -> node_inv e n.
Proof.
  intros Hr. apply (rtc_ind_r (node_inv e) (mkNode NewBus ∅)) in Hr; [done|by intros id m sub|].
  intros x y _ Hs Hx. by eapply node_step_inv.
Qed.

End Claims.

(** C27: need to know: whatever requests, publications and subscriptions a node
    has served, in whatever order, a message queued for a remote subscriber
    carries a topic that some rule of the policy (not a denial) lets that
    subscriber's node subscribe to, and the subscriber's node is in the
    topology and addressed this node. *)
Theorem events_need_to_know `{UnicodeTables} (runtime : OpenMetadata -> Request -> option Z) (e : Engine) (n : node)
    (id : Z) (m : OpenMetadata) (sub : subscription) (msg : Message) :
  rtc (node_step runtime e) (mkNode NewBus ∅) n ->
  owners n !! id = Some m -> subs (bus n) !! id = Some sub -> msg ∈ queue sub ->
  TargetNode m = currentNode e /\ indexOf (topology e) (SourceNode m) >= 0 /\
  exists pattern, granted e m pattern /\ TopicMatches (TrimSpace pattern) (Topic msg) = true.
Proof.
  intros Hr Ho Hs Hmsg. destruct (node_reachable_inv runtime e n Hr id m sub Ho Hs) as ((pattern & Hg & Hc) & Hne & Ht & H4 & H5 & Hq).
  split_and!; [done|done|]. exists pattern. split; [done|]. rewrite Forall_forall in Hq.
  apply (filterCovered_sound pattern (filter_ sub)); [by rewrite Ht|done|]. rewrite Ht. by apply Hq.
Qed.

(** Authorisation decides exactly what the policy says: a request is let
    through if and only if it names this node and its chain, comes from a
    node of the topology, some rule that is not a denial applies to it, no
    rule that is a denial does, and the runtime layer agrees, wherever the
    rules stand in the list. *)
Theorem authorize_exact `{UnicodeTables} (runtime : OpenMetadata -> Request -> option Z) (e : Engine) (m : OpenMetadata) (req : Request) :
  authorize runtime e m req = None <->
  TargetNode m = currentNode e /\ md_ChainSHA256 m = chainSHA256 e /\ 0 <= indexOf (topology e) (SourceNode m) /\
  (exists r, r ∈ Rules (policy e) /\ rule_applies m req r = true) /\
  (forall r, r ∈ Rules (policy e) -> rule_applies m req r = true -> Action r <> str "deny") /\
  runtime m req = None.
Proof.
  unfold authorize. destruct (str_eqb_spec (TargetNode m) (currentNode e)); [|by split; [|intros [? _]]].
  destruct (str_eqb_spec (md_ChainSHA256 m) (chainSHA256 e)); [|by split; [|intros (_ & ? & _)]].
  destruct (Z.ltb_spec (indexOf (topology e) (SourceNode m)) 0); [by split; [|intros (_ & _ & ? & _); lia]|]. cbn [negb orb].
  pose proof (scan_rules_spec m req false (Rules (policy e))) as Hspec.
  destruct (scan_rules m req false (Rules (policy e))) as [[]|]; cycle 1.
  1-2: split; [done|]; intros (_ & _ & _ & Hex & Hno & _); by assert (false = true \/ exists r, r ∈ Rules (policy e) /\ rule_applies m req r = true) as Hor by (by right); destruct Hspec as [_ Hspec]; specialize (Hspec (conj Hor Hno)).
  destruct (proj1 Hspec eq_refl) as [[?|Hex] Hno]; [done|]. rewrite fmap_None. tauto.
Qed.

(** ** A node with a denial *)

#[local] Existing Instance latin1_tables.

Definition demo_chain : bytes := replicate 64 48.
Definition demo_policy : Policy := mkPolicy PolicyVersion (str "deny")
  [mkRule (str "no-secrets") (str "deny") [str "*"] [OperationSubscribe] [str "secret/#"];
   mkRule (str "rest") (str "allow") [str "*"] [OperationSubscribe; OperationPublish] [str "#"]].
Definition demo_engine : Engine := mkEngine [str "a"; str "b"] demo_chain (str "b") demo_policy.
Definition demo_open : OpenMetadata := mkMetadata OpenProtocolVersion (str "b") (str "a") (str "s1") demo_chain.
Definition demo_request (topic : bytes) : Request := mkRequest [] (str "1") (str "subscribe") topic [] 0 0.
Definition demo_runtime (_ : OpenMetadata) (_ : Request) : option Z := None.
Definition demo_node : node := mkNode (mkBus 1 {[ 1 := mkSubscription (str "#") 64 [] ]}) {[ 1 := demo_open ]}.

Lemma demo_subscribed : node_step demo_runtime demo_engine (mkNode NewBus ∅) demo_node.
Proof.
  apply (step_serve demo_runtime demo_engine (mkNode NewBus ∅) (fun _ => false) [] demo_open demo_open
    (demo_request (str "#")) (Subscribed 1) (mkBus 1 {[ 1 := mkSubscription (str "#") 64 [] ]})); by vm_compute.
Qed.

(** The denial names every topic below [secret], and does stop a subscription
    to any of them; a subscription to [#] is let through all the same and
    receives them. *)
Lemma denial_bypassed :
  authorize demo_runtime demo_engine demo_open (demo_request (str "secret/x")) = Some ErrDenied /\
  exists n, rtc (node_step demo_runtime demo_engine) (mkNode NewBus ∅) n /\
    owners n !! 1 = Some demo_open /\
    exists sub, subs (bus n) !! 1 = Some sub /\ queue sub = [mkMessage (str "secret/x") [1]].
Proof.
  split; [by vm_compute|].
  exists (mkNode (snd (Bus_Publish (bus demo_node) (fun _ => false) (str "secret/x") [1])) (owners demo_node)).
  split; [|split; [done|eexists; split; by vm_compute]].
  eapply rtc_l; [apply demo_subscribed|]. apply rtc_once. constructor.
Qed.

Lemma events_need_to_know_witness :
  exists pattern, granted demo_engine demo_open pattern /\ TopicMatches (TrimSpace pattern) (str "secret/x") = true.
Proof.
  eapply (events_need_to_know demo_runtime demo_engine
    (mkNode (snd (Bus_Publish (bus demo_node) (fun _ => false) (str "secret/x") [1])) (owners demo_node)) 1 demo_open
    (mkSubscription (str "#") 64 [mkMessage (str "secret/x") [1]]) (mkMessage (str "secret/x") [1])).
  - eapply rtc_l; [apply demo_subscribed|]. apply rtc_once. constructor.
  - done.
  - by vm_compute.
  - by left.
Defined.

End SessionEventsProofs.
