(* ===== verification/Rules.v ===== *)
(** * The policy engine (rules/rules.go, api.go)

    Rules with nested conditions over string facts, evaluated in order; the first
    that matches decides.  Patterns, regular expressions, floating-point numbers
    and addresses are those of the standard library and enter as an interface,
    as does the order in which Go visits the keys of a map. *)

From S2P Require Import Prelude GoStrings AuthProof.

Module Rules.
Import GoStrings AuthProof.

Definition EngineVersion := str "weaverssh.rules.v1".

Definition ActionAllow := str "allow".
Definition ActionDeny := str "deny".
Definition ActionDrop := str "drop".
Definition ActionRewrite := str "rewrite".
Definition ActionTag := str "tag".
Definition ActionAudit := str "audit".

Definition OpEquals := str "equals".
Definition OpNotEquals := str "not_equals".
Definition OpIn := str "in".
Definition OpNotIn := str "not_in".
Definition OpContains := str "contains".
Definition OpPrefix := str "prefix".
Definition OpSuffix := str "suffix".
Definition OpGlob := str "glob".
Definition OpMatches := str "matches".
Definition OpTopicMatches := str "topic_matches".
Definition OpExists := str "exists".
Definition OpAbsent := str "absent".
Definition OpGT := str "gt".
Definition OpGTE := str "gte".
Definition OpLT := str "lt".
Definition OpLTE := str "lte".
Definition OpCIDRContains := str "cidr_contains".

Abbreviation strings := (gmap bytes bytes).

(** The standard library's matchers; [None] is an error. *)
Class Matchers : Type := {
  path_Match : bytes -> bytes -> option bool;
  regexp_MatchString : bytes -> bytes -> option bool;
  float : Type;
  ParseFloat : bytes -> option float;
  float_lt : float -> float -> bool;
  float_le : float -> float -> bool;
  addr : Type;
  ParseIP : bytes -> option addr;
  network : Type;
  ParseCIDR : bytes -> option network;
  net_Contains : network -> addr -> bool
}.

(** The order of [range] over a map differs from one loop to the next, so every
    loop has an occasion of its own: the path of calls, innermost first, that
    leads to it. *)
Abbreviation occasion := (list nat).
Class MapOrder : Type := { range_map : occasion -> strings -> list (bytes * bytes) }.
Class MapOrderLaws `{MapOrder} : Prop := { range_map_perm : forall t m, range_map t m ≡ₚ map_to_list m }.

Inductive cond_error : Type :=
| ErrMixed
| ErrSeveral
| ErrFieldRequired
| ErrOperator
| ErrValueRequired
| ErrNotNumeric
| ErrNotAddress
| ErrBadCIDR
| ErrBadPattern
| ErrAll (i : nat) (e : cond_error)
| ErrAny (i : nat) (e : cond_error)
| ErrNot (e : cond_error).

Inductive rule_error : Type :=
| ErrVersion
| ErrDefaultAction
| ErrRuleID (i : nat)
| ErrAction
| ErrRewriteRequired
| ErrRewriteForbidden
| ErrCondition (e : cond_error)
| ErrEvaluation (id : bytes) (e : cond_error)
| ErrNilAPI
| ErrNameRequired
| ErrRuleSetNotFound
| ErrRuleSetAlreadyExists
| ErrPipelineVersion
| ErrNodeID
| ErrStageName (i : nat)
| ErrStagePaths
| ErrStageRequired (stage : bytes)
| ErrStage (stage : bytes) (text : bytes).

Record Input := mkInput {
  i_Topic : bytes;
  i_Facts : strings
}.

Unset Elimination Schemes.
Inductive Condition : Type :=
| mkCondition (All Any : list Condition) (Not : option Condition) (Field Op Value : bytes) (Values : list bytes).
Set Elimination Schemes.

Definition c_All (c : Condition) := let 'mkCondition all _ _ _ _ _ _ := c in all.
Definition c_Any (c : Condition) := let 'mkCondition _ any _ _ _ _ _ := c in any.
Definition c_Not (c : Condition) := let 'mkCondition _ _ not _ _ _ _ := c in not.
Definition c_Field (c : Condition) := let 'mkCondition _ _ _ field _ _ _ := c in field.
Definition c_Op (c : Condition) := let 'mkCondition _ _ _ _ op _ _ := c in op.
Definition c_Value (c : Condition) := let 'mkCondition _ _ _ _ _ value _ := c in value.
Definition c_Values (c : Condition) := let 'mkCondition _ _ _ _ _ _ values := c in values.

Record Rule := mkRule {
  u_ID : bytes;
  u_Description : bytes;
  u_When : Condition;
  u_Action : bytes;
  u_Reason : bytes;
  u_SetFields : strings;
  u_RewriteTopic : bytes;
  u_Tags : list bytes
}.

Record RuleSet := mkRuleSet {
  s_Version : bytes;
  s_DefaultAction : bytes;
  s_Rules : list Rule
}.

Record Decision := mkDecision {
  d_Version : bytes;
  d_Matched : bool;
  d_RuleID : bytes;
  d_Action : bytes;
  d_Allowed : bool;
  d_Reason : bytes;
  d_Topic : bytes;
  d_Fields : strings;
  d_SetFields : strings;
  d_Tags : list bytes
}.

(** ** Helpers *)

Definition Actions : list bytes := [ActionAllow; ActionDeny; ActionDrop; ActionRewrite; ActionTag; ActionAudit].
Definition Operators : list bytes :=
  [OpEquals; OpNotEquals; OpIn; OpNotIn; OpContains; OpPrefix; OpSuffix; OpGlob; OpMatches; OpTopicMatches; OpExists; OpAbsent; OpGT; OpGTE; OpLT; OpLTE; OpCIDRContains].

Definition contains (values : list bytes) (value : bytes) : bool := existsb (fun candidate => str_eqb candidate value) values.
Definition validAction (action : bytes) : bool := contains Actions action.
Definition validOperator (op : bytes) : bool := contains Operators op.

Definition SortedActionStrings : list bytes := sort_by str_ltb Actions.
Definition SortedOperatorStrings : list bytes := sort_by str_ltb Operators.

(** [strings.Contains] and [strings.HasSuffix]. *)
Fixpoint Contains (s sub : bytes) : bool :=
  HasPrefix s sub || match s with [] => false | _ :: r => Contains r sub end.
Definition HasSuffix (s suffix : bytes) : bool := HasPrefix (rev s) (rev suffix).

(** [strings.Split(s, ",")]. *)
Fixpoint split_comma (s : bytes) : list bytes :=
  match s with
  | [] => [[]]
  | c :: r => if c =? 44 then [] :: split_comma r else
      match split_comma r with
      | p :: ps => (c :: p) :: ps
      | [] => [[c]]
      end
  end.

(** Trimmed, without empty and repeated items. *)
Definition cleanList (l : list bytes) : list bytes := dedup_trim [] l.

Definition normalizedValues (c : Condition) : list bytes :=
  let values := cleanList (c_Values c) in
  if (len values =? 0) && negb (str_eqb (TrimSpace (c_Value c)) [])
  then filter (fun part => part <> []) (TrimSpace <$> split_comma (c_Value c)) else values.

(** The loop of [topicMatches] over the parts left. *)
Fixpoint match_parts (filterParts topicParts : list bytes) : bool :=
  match filterParts with
  | [] => match topicParts with [] => true | _ => false end
  | part :: rest =>
    if str_eqb part (str "#") then match rest with [] => true | _ => false end else
    match topicParts with
    | [] => false
    | t :: ts =>
      if str_eqb part (str "+") then match_parts rest ts else
      if negb (str_eqb part t) then false else match_parts rest ts
    end
  end.

Definition topicMatches (filter topic : bytes) : bool :=
  let filter := TrimSpace filter in
  let topic := TrimSpace topic in
  if str_eqb filter [] || str_eqb topic [] then false else match_parts (split_slash filter) (split_slash topic).

Definition operator_names : list (list bytes * bytes) :=
  [([[]; str "eq"; str "equals"; str "=="; str "="], OpEquals);
   ([str "ne"; str "neq"; str "not_eq"; str "not_equals"; str "!="], OpNotEquals);
   ([str "in"; str "one_of"], OpIn);
   ([str "not_in"; str "not-one-of"], OpNotIn);
   ([str "contains"], OpContains);
   ([str "prefix"; str "has_prefix"], OpPrefix);
   ([str "suffix"; str "has_suffix"], OpSuffix);
   ([str "glob"], OpGlob);
   ([str "matches"; str "regex"; str "regexp"], OpMatches);
   ([str "topic_matches"; str "mqtt_matches"; str "mqtt_topic_matches"], OpTopicMatches);
   ([str "exists"], OpExists);
   ([str "absent"; str "missing"], OpAbsent);
   ([str "gt"; str ">"], OpGT);
   ([str "gte"; str ">="], OpGTE);
   ([str "lt"; str "<"], OpLT);
   ([str "lte"; str "<="], OpLTE);
   ([str "cidr_contains"], OpCIDRContains)].

(** The first line of the switch that lists [value]. *)
Fixpoint operator_named (table : list (list bytes * bytes)) (value : bytes) : bytes :=
  match table with
  | [] => value
  | (names, op) :: rest => if contains names value then op else operator_named rest value
  end.

Section Rules.
Context `{UnicodeTables} `{Matchers} `{MapOrder}.

Definition normalizeAction (action : bytes) : bytes := TrimSpace (ToLower action).
Definition normalizeOperator (op : bytes) : bytes := operator_named operator_names (TrimSpace (ToLower op)).

Definition actionAllowed (action : bytes) : bool := contains [ActionAllow; ActionRewrite; ActionTag; ActionAudit] (normalizeAction action).

(** Keys trimmed, empty ones dropped; a later key replaces an equal earlier one. *)
Definition put_trimmed (m : strings) (kv : bytes * bytes) : strings := if str_eqb (TrimSpace kv.1) [] then m else <[TrimSpace kv.1 := kv.2]> m.
Definition cleanMap (t : occasion) (m : strings) : strings := fold_left put_trimmed (range_map t m) ∅.

(** ** Inputs *)

Definition NewInput (t : occasion) (topic : bytes) (facts : strings) : Input :=
  let topic := TrimSpace topic in
  let facts := cleanMap t facts in
  mkInput topic (if str_eqb topic [] then facts else <[str "topic" := topic]> facts).

Definition Normalized (t : occasion) (i : Input) : Input := NewInput t (i_Topic i) (i_Facts i).

(** The value of a field, if it has one. *)
Definition Value (i : Input) (field : bytes) : option bytes :=
  let field := TrimSpace field in
  if str_eqb field [] then None else
  if str_eqb field (str "topic") then (if str_eqb (TrimSpace (i_Topic i)) [] then None else Some (TrimSpace (i_Topic i))) else
  i_Facts i !! field.

(** ** Conditions *)

Definition c_atomic (c : Condition) : bool :=
  negb (str_eqb (TrimSpace (c_Field c)) []) || negb (str_eqb (TrimSpace (c_Op c)) []) || negb (str_eqb (c_Value c) []) || negb (len (c_Values c) =? 0).

Definition validate_atom (c : Condition) : option cond_error :=
  let op := normalizeOperator (c_Op c) in
  if str_eqb (TrimSpace (c_Field c)) [] && negb (str_eqb op OpTopicMatches) then Some ErrFieldRequired else
  if negb (validOperator op) then Some ErrOperator else
  if str_eqb op OpExists || str_eqb op OpAbsent then None else
  if str_eqb op OpIn || str_eqb op OpNotIn then (if len (normalizedValues c) =? 0 then Some ErrValueRequired else None) else
  if str_eqb (c_Value c) [] then Some ErrValueRequired else None.

(** Lists are checked in order; the parts of a condition before the whole. *)
Fixpoint Validate (c : Condition) : option cond_error :=
  let 'mkCondition all any not _ _ _ _ := c in
  let checks := fix checks (wrap : nat -> cond_error -> cond_error) (i : nat) (l : list Condition) : option cond_error :=
    match l with
    | [] => None
    | x :: r => match Validate x with Some e => Some (wrap i e) | None => checks wrap (S i) r end
    end in
  match checks ErrAll 0%nat all with
  | Some e => Some e
  | None =>
    match checks ErrAny 0%nat any with
    | Some e => Some e
    | None =>
      match (match not with None => None | Some x => match Validate x with Some e => Some (ErrNot e) | None => None end end) with
      | Some e => Some e
      | None =>
        let compound := ((if len all =? 0 then 0 else 1) + (if len any =? 0 then 0 else 1) + (match not with None => 0 | Some _ => 1 end)) in
        if (0 <? compound) && c_atomic c then Some ErrMixed else
        if 1 <? compound then Some ErrSeveral else
        if negb (c_atomic c) then None else validate_atom c
      end
    end
  end.

Definition compareNumber (op actualText wantText : bytes) : result cond_error bool :=
  match ParseFloat (TrimSpace actualText) with
  | None => Err ErrNotNumeric
  | Some actual =>
    match ParseFloat (TrimSpace wantText) with
    | None => Err ErrNotNumeric
    | Some want =>
      if str_eqb op OpGT then Ok (float_lt want actual) else
      if str_eqb op OpGTE then Ok (float_le want actual) else
      if str_eqb op OpLT then Ok (float_lt actual want) else
      if str_eqb op OpLTE then Ok (float_le actual want) else Err ErrOperator
    end
  end.

Definition cidrContains (cidr ipText : bytes) : result cond_error bool :=
  match ParseIP (TrimSpace ipText) with
  | None => Err ErrNotAddress
  | Some ip =>
    match ParseCIDR (TrimSpace cidr) with
    | None => Err ErrBadCIDR
    | Some n => Ok (net_Contains n ip)
    end
  end.

Definition pattern_result (r : option bool) : result cond_error bool := match r with Some b => Ok b | None => Err ErrBadPattern end.

Definition evalAtomic (op : bytes) (value : option bytes) (c : Condition) : result cond_error bool :=
  if str_eqb op OpExists then Ok (match value with Some actual => negb (str_eqb actual []) | None => false end) else
  if str_eqb op OpAbsent then Ok (match value with Some actual => str_eqb actual [] | None => true end) else
  match value with
  | None => Ok false
  | Some actual =>
    if str_eqb op OpEquals then Ok (str_eqb actual (c_Value c)) else
    if str_eqb op OpNotEquals then Ok (negb (str_eqb actual (c_Value c))) else
    if str_eqb op OpIn then Ok (contains (normalizedValues c) actual) else
    if str_eqb op OpNotIn then Ok (negb (contains (normalizedValues c) actual)) else
    if str_eqb op OpContains then Ok (Contains actual (c_Value c)) else
    if str_eqb op OpPrefix then Ok (HasPrefix actual (c_Value c)) else
    if str_eqb op OpSuffix then Ok (HasSuffix actual (c_Value c)) else
    if str_eqb op OpGlob then pattern_result (path_Match (c_Value c) actual) else
    if str_eqb op OpMatches then pattern_result (regexp_MatchString (c_Value c) actual) else
    if str_eqb op OpTopicMatches then Ok (topicMatches (c_Value c) actual) else
    if str_eqb op OpGT || str_eqb op OpGTE || str_eqb op OpLT || str_eqb op OpLTE then compareNumber op actual (c_Value c) else
    if str_eqb op OpCIDRContains then cidrContains (c_Value c) actual else
    Err ErrOperator
  end.

(** The last part of [Match]. *)
Definition match_atom (c : Condition) (input : Input) : result cond_error bool :=
  if str_eqb (TrimSpace (c_Field c)) [] && str_eqb (TrimSpace (c_Op c)) [] && str_eqb (c_Value c) [] && (len (c_Values c) =? 0) then Ok true else
  let op := normalizeOperator (c_Op c) in
  let field := TrimSpace (c_Field c) in
  let field := if str_eqb field [] && str_eqb op OpTopicMatches then str "topic" else field in
  evalAtomic op (Value input field) c.

(** The input is normalised again at every level. *)
Fixpoint Match (t : occasion) (c : Condition) (input : Input) : result cond_error bool :=
  let input := Normalized (0%nat :: t) input in
  let 'mkCondition all any not _ _ _ _ := c in
  let match_all := fix match_all (t : occasion) (l : list Condition) : result cond_error bool :=
    match l with
    | [] => Ok true
    | x :: r => match Match (1%nat :: t) x input with Err e => Err e | Ok false => Ok false | Ok true => match_all (2%nat :: t) r end
    end in
  let match_any := fix match_any (t : occasion) (l : list Condition) : result cond_error bool :=
    match l with
    | [] => Ok false
    | x :: r => match Match (1%nat :: t) x input with Err e => Err e | Ok true => Ok true | Ok false => match_any (2%nat :: t) r end
    end in
  match all with
  | _ :: _ => match_all t all
  | [] =>
    match any with
    | _ :: _ => match_any t any
    | [] =>
      match not with
      | Some x => match Match (1%nat :: t) x input with Err e => Err e | Ok ok => Ok (negb ok) end
      | None => match_atom c input
      end
    end
  end.

(** ** Rules *)

Definition Rule_Normalize (t : occasion) (r : Rule) (index : nat) : result rule_error Rule :=
  let id := TrimSpace (u_ID r) in
  if str_eqb id [] then Err (ErrRuleID index) else
  let action := normalizeAction (u_Action r) in
  let action := if str_eqb action [] then ActionDeny else action in
  if negb (validAction action) then Err ErrAction else
  let topic := TrimSpace (u_RewriteTopic r) in
  if str_eqb action ActionRewrite && str_eqb topic [] then Err ErrRewriteRequired else
  if negb (str_eqb action ActionRewrite) && negb (str_eqb topic []) then Err ErrRewriteForbidden else
  match Validate (u_When r) with
  | Some e => Err (ErrCondition e)
  | None => Ok (mkRule id (TrimSpace (u_Description r)) (u_When r) action (TrimSpace (u_Reason r)) (cleanMap t (u_SetFields r)) topic (cleanList (u_Tags r)))
  end.

Fixpoint normalize_rules (t : occasion) (index : nat) (rules : list Rule) : result rule_error (list Rule) :=
  match rules with
  | [] => Ok []
  | r :: rest => let* r := Rule_Normalize (index :: t) r index in let* rest := normalize_rules t (S index) rest in Ok (r :: rest)
  end.

Definition Normalize (t : occasion) (rs : RuleSet) : result rule_error RuleSet :=
  let version := TrimSpace (s_Version rs) in
  let version := if str_eqb version [] then EngineVersion else version in
  if negb (str_eqb version EngineVersion) then Err ErrVersion else
  let action := normalizeAction (s_DefaultAction rs) in
  let action := if str_eqb action [] then ActionDeny else action in
  if negb (validAction action) then Err ErrDefaultAction else
  let* rules := normalize_rules t 0 (s_Rules rs) in
  Ok (mkRuleSet version action rules).

Definition decision (r : Rule) (input : Input) : Decision :=
  mkDecision EngineVersion true (u_ID r) (u_Action r) (actionAllowed (u_Action r))
    (if str_eqb (u_Reason r) [] then str "matched rule " ++ u_ID r else u_Reason r)
    (if str_eqb (u_Action r) ActionRewrite then u_RewriteTopic r else i_Topic input)
    (u_SetFields r ∪ i_Facts input) (u_SetFields r) (u_Tags r).

Definition default_decision (action : bytes) (input : Input) : Decision :=
  mkDecision EngineVersion false [] action (actionAllowed action) (str "no rule matched") (i_Topic input) (i_Facts input) ∅ [].

Fixpoint first_match (t : occasion) (rules : list Rule) (input : Input) (default : bytes) : result rule_error Decision :=
  match rules with
  | [] => Ok (default_decision default input)
  | r :: rest =>
    match Match (0%nat :: t) (u_When r) input with
    | Err e => Err (ErrEvaluation (u_ID r) e)
    | Ok true => Ok (decision r input)
    | Ok false => first_match (1%nat :: t) rest input default
    end
  end.

Definition Evaluate (t : occasion) (rs : RuleSet) (input : Input) : result rule_error Decision :=
  let* normalized := Normalize (0%nat :: t) rs in
  first_match (2%nat :: t) (s_Rules normalized) (Normalized (1%nat :: t) input) (s_DefaultAction normalized).

End Rules.
End Rules.
