(* ===== verification/RulesPipeline.v ===== *)
(** * Named rule sets, infrastructure events and staged policies
    (rules/api.go, infrastructure.go, pipeline.go)

    The registry of rule sets, the facts of infrastructure events, and the
    pipeline that evaluates the rule files of several stages in order.  The
    file system, the environment and the decoder of rule files are an
    interface. *)

From S2P Require Import Prelude GoStrings GoFs GoEncoding AuthProof Rules.

Module RulesPipeline.
Import GoStrings GoFs GoEncoding AuthProof Rules.

Definition DefaultRuleSetName := str "default".
Definition PipelineVersion := str "weaverssh.rules.pipeline.v1".

(** ** The registry *)

Record API := mkAPI {
  a_defaultName : bytes;
  a_rulesets : gmap bytes RuleSet
}.

Section Registry.
Context `{UnicodeTables} `{Matchers} `{MapOrder}.

(** [None] is the nil API. *)
Definition DefaultName (a : option API) : bytes :=
  match a with
  | None => DefaultRuleSetName
  | Some a => if str_eqb (a_defaultName a) [] then DefaultRuleSetName else a_defaultName a
  end.

Definition rule_set_name (a : API) (name : bytes) : bytes := if str_eqb (TrimSpace name) [] then DefaultName (Some a) else TrimSpace name.

Definition SetDefaultName (a : option API) (name : bytes) : option rule_error * option API :=
  match a with
  | None => (Some ErrNilAPI, a)
  | Some x =>
    let name := TrimSpace name in
    if str_eqb name [] then (Some ErrNameRequired, a) else
    match a_rulesets x !! name with
    | None => (Some ErrRuleSetNotFound, a)
    | Some _ => (None, Some (mkAPI name (a_rulesets x)))
    end
  end.

Definition Register (t : occasion) (a : option API) (name : bytes) (rs : RuleSet) : option rule_error * option API :=
  match a with
  | None => (Some ErrNilAPI, a)
  | Some x =>
    let name := rule_set_name x name in
    match Normalize t rs with
    | Err e => (Some e, a)
    | Ok normalized =>
      match a_rulesets x !! name with
      | Some _ => (Some ErrRuleSetAlreadyExists, a)
      | None => (None, Some (mkAPI (a_defaultName x) (<[name := normalized]> (a_rulesets x))))
      end
    end
  end.

Definition Put (t : occasion) (a : option API) (name : bytes) (rs : RuleSet) : option rule_error * option API :=
  match a with
  | None => (Some ErrNilAPI, a)
  | Some x =>
    match Normalize t rs with
    | Err e => (Some e, a)
    | Ok normalized => (None, Some (mkAPI (a_defaultName x) (<[rule_set_name x name := normalized]> (a_rulesets x))))
    end
  end.

(** [NewAPI]; the rule sets are put in the order in which the map is visited. *)
Fixpoint put_all (t : occasion) (a : API) (sets : list (bytes * RuleSet)) : result rule_error API :=
  match sets with
  | [] => Ok a
  | (name, rs) :: rest =>
    match Put (0%nat :: t) (Some a) name rs with
    | (Some e, _) => Err e
    | (None, Some a) => put_all (1%nat :: t) a rest
    | (None, None) => Err ErrNilAPI
    end
  end.
Definition NewAPI (t : occasion) (defaultName : bytes) (sets : list (bytes * RuleSet)) : result rule_error API :=
  let name := TrimSpace defaultName in
  put_all t (mkAPI (if str_eqb name [] then DefaultRuleSetName else name) ∅) sets.

Definition RuleSet_ (a : option API) (name : bytes) : option RuleSet :=
  match a with None => None | Some x => a_rulesets x !! rule_set_name x name end.

Definition Names (a : option API) : list bytes :=
  match a with None => [] | Some x => sort_by str_ltb (map_to_list (a_rulesets x)).*1 end.

Definition Remove (a : option API) (name : bytes) : bool * option API :=
  match a with
  | None => (false, a)
  | Some x =>
    let name := rule_set_name x name in
    match a_rulesets x !! name with
    | None => (false, a)
    | Some _ => (true, Some (mkAPI (a_defaultName x) (delete name (a_rulesets x))))
    end
  end.

Definition EvaluateNamed (t : occasion) (a : option API) (name : bytes) (input : Input) : result rule_error Decision :=
  match a with
  | None => Err ErrNilAPI
  | Some x =>
    match a_rulesets x !! rule_set_name x name with
    | None => Err ErrRuleSetNotFound
    | Some rs => Evaluate t rs input
    end
  end.

(** ** Infrastructure events *)

Record InfrastructureEvent := mkInfra {
  n_ID : bytes;
  n_Kind : bytes;
  n_Operation : bytes;
  n_Path : bytes;
  n_ViewPath : bytes;
  n_Component : bytes;
  n_Origin : bytes;
  n_Protocol : bytes;
  n_Status : bytes;
  n_Error : bytes;
  n_Bytes : Z;
  n_Files : Z;
  n_IsDir : bool;
  n_Fields : strings
}.

Definition InfrastructureKindFile := str "file".
Definition InfrastructureComponent := str "infrastructure".
Definition InfrastructureOriginInternal := str "internal".

Definition infra_normalized (t : occasion) (e : InfrastructureEvent) : InfrastructureEvent :=
  mkInfra (TrimSpace (n_ID e)) (or_default (TrimSpace (n_Kind e)) InfrastructureKindFile) (TrimSpace (n_Operation e)) (TrimSpace (n_Path e)) (TrimSpace (n_ViewPath e))
    (or_default (TrimSpace (n_Component e)) InfrastructureComponent) (or_default (TrimSpace (n_Origin e)) InfrastructureOriginInternal) (TrimSpace (n_Protocol e))
    (TrimSpace (n_Status e)) (TrimSpace (n_Error e)) (Z.max 0 (n_Bytes e)) (Z.max 0 (n_Files e)) (n_IsDir e) (cleanMap t (n_Fields e)).

Definition FormatBool (b : bool) : bytes := if b then str "true" else str "false".

(** [add]: a value only if it is not blank. *)
Definition add_fact (key : string) (value : bytes) (facts : strings) : strings :=
  if str_eqb (TrimSpace value) [] then facts else <[str key := TrimSpace value]> facts.
Definition add_count (key : string) (n : Z) (facts : strings) : strings := if 0 <? n then <[str key := json_int n]> facts else facts.

(** A field under three names, the plain one only if it is free. *)
Definition put_field (facts : strings) (kv : bytes * bytes) : strings :=
  let key := TrimSpace kv.1 in
  if str_eqb key [] then facts else
  let facts := <[str "fields." ++ key := kv.2]> (<[str "field." ++ key := kv.2]> facts) in
  match facts !! key with Some _ => facts | None => <[key := kv.2]> facts end.

(** The facts of the event itself. *)
Definition event_facts (topic : bytes) (e : InfrastructureEvent) : strings :=
  let facts : strings := list_to_map [(str "topic", TrimSpace topic); (str "event.component", n_Component e); (str "event.origin", n_Origin e);
    (str "infra.kind", n_Kind e); (str "infra.operation", n_Operation e); (str "infra.component", n_Component e); (str "infra.origin", n_Origin e)] in
  let facts := add_fact "infra.error" (n_Error e) (add_fact "infra.status" (n_Status e) (add_fact "infra.protocol" (n_Protocol e)
    (add_fact "infra.view_path" (n_ViewPath e) (add_fact "infra.path" (n_Path e) (add_fact "infra.id" (n_ID e) facts))))) in
  let facts := add_count "infra.files" (n_Files e) (add_count "infra.bytes" (n_Bytes e) (<[str "infra.is_dir" := FormatBool (n_IsDir e)]> facts)) in
  if str_eqb (n_Kind e) InfrastructureKindFile then
    let facts := <[str "file.operation" := n_Operation e]> facts in
    let facts := add_fact "file.status" (n_Status e) (add_fact "file.protocol" (n_Protocol e) (add_fact "file.view_path" (n_ViewPath e) (add_fact "file.path" (n_Path e) facts))) in
    add_count "file.files" (n_Files e) (add_count "file.bytes" (n_Bytes e) (<[str "file.is_dir" := FormatBool (n_IsDir e)]> facts))
  else facts.

Definition NewInfrastructureInput (t : occasion) (topic : bytes) (event : InfrastructureEvent) : Input :=
  let event := infra_normalized (0%nat :: t) event in
  NewInput (2%nat :: t) topic (fold_left put_field (range_map (1%nat :: t) (n_Fields event)) (event_facts topic event)).

Definition EvaluateNamedInfrastructure (t : occasion) (a : option API) (name topic : bytes) (event : InfrastructureEvent) : result rule_error Decision :=
  EvaluateNamed (1%nat :: t) a name (NewInfrastructureInput (0%nat :: t) topic event).

End Registry.

(** ** Pipelines *)

Record StageConfig := mkStage {
  g_Name : bytes;
  g_Required : bool;
  g_TerminalDeny : option bool;
  g_TerminalAllow : option bool;
  g_Paths : list bytes
}.

Record PipelineConfig := mkPipeline {
  p_Version : bytes;
  p_NodeID : bytes;
  p_Stages : list StageConfig
}.

Record StageDecision := mkStageDecision {
  sd_Stage : bytes;
  sd_Path : bytes;
  sd_Required : bool;
  sd_Skipped : bool;
  sd_Decision : option Decision;
  sd_Reason : bytes
}.

Record PipelineDecision := mkPipelineDecision {
  pd_Version : bytes;
  pd_Allowed : bool;
  pd_Action : bytes;
  pd_Reason : bytes;
  pd_Topic : bytes;
  pd_Fields : strings;
  pd_Stages : list StageDecision;
  pd_Final : option Decision
}.

(** What [Lstat] tells of a policy file. *)
Record policy_info := mkPolicyInfo {
  pi_symlink : bool;
  pi_perm : Z;
  pi_owner : option bool
}.

Inductive stat_policy : Type :=
| StatFile
| StatDir
| StatMissing
| StatError (e : rule_error).

(** The host: the environment and the home directory, the paths a pattern
    names, what [Stat], [Lstat] and [Abs] say, and a file's decoded rules. *)
Class PolicyHost : Type := {
  ExpandEnv : bytes -> bytes;
  UserHomeDir : option bytes;
  Glob : bytes -> result rule_error (list bytes);
  os_Stat : bytes -> stat_policy;
  lstat_policy : bytes -> result rule_error policy_info;
  abs_path : bytes -> bytes;
  decode_rules : bytes -> result rule_error RuleSet
}.

Definition DefaultPipelineConfig : PipelineConfig :=
  mkPipeline PipelineVersion []
    [mkStage (str "system") false (Some true) None [str "/etc/weaverssh/rules.d/*.json"; str "/etc/weaverssh/rules.json"];
     mkStage (str "user") false (Some true) None [str "~/.config/weaverssh/rules.d/*.json"]].

Definition node_char (r : Z) : bool :=
  ((97 <=? r) && (r <=? 122)) || ((65 <=? r) && (r <=? 90)) || ((48 <=? r) && (r <=? 57)) || (r =? 45) || (r =? 95) || (r =? 46).

Definition CleanNodeID (nodeID : bytes) : result rule_error bytes :=
  let nodeID := TrimSpace nodeID in
  if str_eqb nodeID [] then Err ErrNodeID else
  if str_eqb nodeID (str ".") || str_eqb nodeID (str "..") || Contains nodeID (str "/") || Contains nodeID [92] then Err ErrNodeID else
  if forallb node_char (runes nodeID) then Ok nodeID else Err ErrNodeID.

Definition DefaultRemoteNodePipelineConfig (nodeID : bytes) : result rule_error PipelineConfig :=
  let* nodeID := CleanNodeID nodeID in
  Ok (mkPipeline PipelineVersion nodeID
    [mkStage (str "system") false (Some true) None [str "/etc/weaverssh/rules.d/*.json"; str "/etc/weaverssh/rules.json"];
     mkStage (str "remote-node") false (Some true) None [str "/etc/weaverssh/nodes/{node}/rules.d/*.json"; str "/etc/weaverssh/nodes/{node}/rules.json"];
     mkStage (str "user-node") false (Some true) None [str "~/.config/weaverssh/nodes/{node}/rules.d/*.json"];
     mkStage (str "user") false (Some true) None [str "~/.config/weaverssh/rules.d/*.json"]]).

Fixpoint normalize_stages (i : nat) (stages : list StageConfig) : result rule_error (list StageConfig) :=
  match stages with
  | [] => Ok []
  | g :: rest =>
    let name := TrimSpace (g_Name g) in
    if str_eqb name [] then Err (ErrStageName i) else
    let paths := cleanList (g_Paths g) in
    if (len paths =? 0) && g_Required g then Err ErrStagePaths else
    let* rest := normalize_stages (S i) rest in
    Ok (mkStage name (g_Required g) (g_TerminalDeny g) (g_TerminalAllow g) paths :: rest)
  end.

Definition Pipeline_Normalize (cfg : PipelineConfig) : result rule_error PipelineConfig :=
  let version := or_default (TrimSpace (p_Version cfg)) PipelineVersion in
  if negb (str_eqb version PipelineVersion) then Err ErrPipelineVersion else
  let* nodeID := (if str_eqb (TrimSpace (p_NodeID cfg)) [] then Ok (p_NodeID cfg) else CleanNodeID (p_NodeID cfg)) in
  let cfg := if len (p_Stages cfg) =? 0 then DefaultPipelineConfig else mkPipeline version nodeID (p_Stages cfg) in
  let* stages := normalize_stages 0 (p_Stages cfg) in
  Ok (mkPipeline (p_Version cfg) (p_NodeID cfg) stages).

(** [strings.ReplaceAll] of a non-empty text. *)
Fixpoint ReplaceAll (fuel : nat) (s old new : bytes) : bytes :=
  match fuel with
  | O => s
  | S fuel =>
    match s with
    | [] => []
    | c :: r => if HasPrefix s old then new ++ ReplaceAll fuel (drop (length old) s) old new else c :: ReplaceAll fuel r old new
    end
  end.

Definition expandRulePathForNode (pattern nodeID : bytes) : bytes :=
  let replace old s := ReplaceAll (length s) s old nodeID in
  replace (str "${WEAVERSSH_NODE_ID}") (replace (str "${node}") (replace (str "{node}") pattern)).

Definition boolValue (v : option bool) (fallback : bool) : bool := match v with Some b => b | None => fallback end.

Definition stageStops (stage : StageConfig) (d : Decision) : bool :=
  if str_eqb (d_Action d) ActionDeny || str_eqb (d_Action d) ActionDrop then boolValue (g_TerminalDeny stage) true else
  if str_eqb (d_Action d) ActionAllow then boolValue (g_TerminalAllow stage) false else false.

Section Pipeline.
Context `{UnicodeTables} `{Matchers} `{MapOrder} `{PolicyHost}.

Definition expandRulePath (pattern : bytes) : bytes :=
  let pattern := TrimSpace (ExpandEnv pattern) in
  if str_eqb pattern [] then [] else
  if str_eqb pattern (str "~") || HasPrefix pattern (str "~/") then
    match UserHomeDir with
    | Some ((_ :: _) as home) => if str_eqb pattern (str "~") then home else Join home (TrimPrefix pattern (str "~/"))
    | _ => Clean pattern
    end
  else Clean pattern.

Definition existingFiles (paths : list bytes) : list bytes :=
  List.filter (fun path => match os_Stat path with StatFile => true | _ => false end) paths.

Definition resolveOneRulePath (pattern : bytes) : result rule_error (list bytes) :=
  if existsb (fun c => (c =? 42) || (c =? 63) || (c =? 91)) pattern then
    let* matches := Glob pattern in Ok (existingFiles (sort_by str_ltb matches))
  else
    match os_Stat pattern with
    | StatMissing => Ok []
    | StatError e => Err e
    | StatDir => let* matches := Glob (Join pattern (str "*.json")) in Ok (existingFiles (sort_by str_ltb matches))
    | StatFile => Ok [pattern]
    end.

(** The loop of [resolveRulePaths]: cleaned, each once. *)
Fixpoint resolve_patterns (seen : list bytes) (patterns : list bytes) (nodeID : bytes) : result rule_error (list bytes) :=
  match patterns with
  | [] => Ok seen
  | pattern :: rest =>
    let pattern := expandRulePath (expandRulePathForNode pattern nodeID) in
    if str_eqb pattern [] then resolve_patterns seen rest nodeID else
    let* matches := resolveOneRulePath pattern in
    resolve_patterns (fold_left (fun out path => if existsb (str_eqb (Clean path)) out then out else out ++ [Clean path]) matches seen) rest nodeID
  end.
Definition resolveRulePaths (patterns : list bytes) (nodeID : bytes) : result rule_error (list bytes) :=
  let* out := resolve_patterns [] patterns nodeID in Ok (sort_by str_ltb out).

Definition isDefaultSystemPolicyPath (path : bytes) : bool :=
  let clean := Clean (abs_path path) in
  existsb (fun root => str_eqb clean root || HasPrefix clean (root ++ str "/")) [str "/etc/weaverssh"; str "/Library/Application Support/weaverssh"].

Definition validatePolicyFile (path : bytes) : option rule_error :=
  match lstat_policy path with
  | Err e => Some e
  | Ok info =>
    if pi_symlink info then Some (ErrStage path (str "symlink")) else
    if negb (isDefaultSystemPolicyPath path) then None else
    if negb (Z.land (pi_perm info) 18 =? 0) then Some (ErrStage path (str "writable")) else
    match pi_owner info with Some false => Some (ErrStage path (str "owner")) | _ => None end
  end.

(** [LoadFile]: decode and normalise. *)
Definition LoadFile (t : occasion) (path : bytes) : result rule_error RuleSet := let* rs := decode_rules path in Normalize t rs.

Definition inputWithNodeFacts (t : occasion) (input : Input) (nodeID : bytes) : Input :=
  let nodeID := TrimSpace nodeID in
  if str_eqb nodeID [] then input else
  NewInput t (i_Topic input) (<[str "api.node_id" := nodeID]> (<[str "remote.node_id" := nodeID]> (<[str "node.id" := nodeID]> (i_Facts input)))).

Definition inputAfterDecision (t : occasion) (input : Input) (d : Decision) : Input :=
  let topic := if str_eqb (TrimSpace (d_Topic d)) [] then i_Topic input else d_Topic d in
  let facts := d_SetFields d ∪ (d_Fields d ∪ i_Facts input) in
  NewInput t topic (if str_eqb topic [] then facts else <[str "topic" := topic]> facts).

(** The state of the loop: the input, the decision so far, whether any rule set
    was evaluated; [ls_stop] once a decision is final or an error came up. *)
Record loop_state := mkLoop {
  ls_input : Input;
  ls_decision : PipelineDecision;
  ls_evaluated : bool;
  ls_stop : option (option rule_error)
}.

Definition fail_ (s : loop_state) (e : rule_error) : loop_state := mkLoop (ls_input s) (ls_decision s) (ls_evaluated s) (Some (Some e)).

(** One rule file of a stage. *)
Definition eval_file (t : occasion) (stage : StageConfig) (s : loop_state) (path : bytes) : loop_state :=
  match ls_stop s with
  | Some _ => s
  | None =>
    match validatePolicyFile path with
    | Some e => fail_ s e
    | None =>
      match LoadFile (0%nat :: t) path with
      | Err e => fail_ s e
      | Ok rs =>
        match Evaluate (1%nat :: t) rs (ls_input s) with
        | Err e => fail_ s e
        | Ok d =>
          let input := inputAfterDecision (2%nat :: t) (ls_input s) d in
          let decision := mkPipelineDecision (pd_Version (ls_decision s)) (d_Allowed d) (d_Action d) (d_Reason d) (i_Topic input) (i_Facts input)
            (pd_Stages (ls_decision s) ++ [mkStageDecision (g_Name stage) path (g_Required stage) false (Some d) []]) (Some d) in
          mkLoop input decision true (if stageStops stage d then Some None else None)
        end
      end
    end
  end.

Fixpoint eval_files (t : occasion) (stage : StageConfig) (paths : list bytes) (s : loop_state) : loop_state :=
  match paths with
  | [] => s
  | path :: rest => eval_files (1%nat :: t) stage rest (eval_file (0%nat :: t) stage s path)
  end.

Definition eval_stage (t : occasion) (nodeID : bytes) (s : loop_state) (stage : StageConfig) : loop_state :=
  match ls_stop s with
  | Some _ => s
  | None =>
    match resolveRulePaths (g_Paths stage) nodeID with
    | Err e => fail_ s e
    | Ok [] =>
      if g_Required stage then fail_ s (ErrStageRequired (g_Name stage)) else
      let d := ls_decision s in
      mkLoop (ls_input s) (mkPipelineDecision (pd_Version d) (pd_Allowed d) (pd_Action d) (pd_Reason d) (pd_Topic d) (pd_Fields d)
        (pd_Stages d ++ [mkStageDecision (g_Name stage) [] (g_Required stage) true None (str "no rule files found")]) (pd_Final d)) (ls_evaluated s) None
    | Ok paths => eval_files t stage paths s
    end
  end.

Fixpoint eval_stages (t : occasion) (nodeID : bytes) (stages : list StageConfig) (s : loop_state) : loop_state :=
  match stages with
  | [] => s
  | stage :: rest => eval_stages (1%nat :: t) nodeID rest (eval_stage (0%nat :: t) nodeID s stage)
  end.

(** The decision is returned beside an error as well. *)
Definition Pipeline_Evaluate (t : occasion) (cfg : PipelineConfig) (input : Input) : PipelineDecision * option rule_error :=
  match Pipeline_Normalize cfg with
  | Err e => (mkPipelineDecision [] false [] [] [] ∅ [] None, Some e)
  | Ok cfg =>
    let input := Normalized (1%nat :: t) (inputWithNodeFacts (0%nat :: t) input (p_NodeID cfg)) in
    let start := mkLoop input (mkPipelineDecision PipelineVersion false [] [] (i_Topic input) (i_Facts input) [] None) false None in
    let s := eval_stages (2%nat :: t) (p_NodeID cfg) (p_Stages cfg) start in
    match ls_stop s with
    | Some stop => (ls_decision s, stop)
    | None =>
      if ls_evaluated s then (ls_decision s, None) else
      let final := mkDecision EngineVersion false [] ActionDeny false (str "no pipeline rules evaluated") (i_Topic (ls_input s)) (i_Facts (ls_input s)) ∅ [] in
      (mkPipelineDecision (pd_Version (ls_decision s)) false ActionDeny (d_Reason final) (i_Topic (ls_input s)) (i_Facts (ls_input s)) (pd_Stages (ls_decision s)) (Some final), None)
    end
  end.

Definition EvaluateNode (t : occasion) (cfg : PipelineConfig) (nodeID : bytes) (input : Input) : PipelineDecision * option rule_error :=
  match CleanNodeID nodeID with
  | Err e => (mkPipelineDecision [] false [] [] [] ∅ [] None, Some e)
  | Ok nodeID => Pipeline_Evaluate (1%nat :: t) (mkPipeline (p_Version cfg) nodeID (p_Stages cfg)) (inputWithNodeFacts (0%nat :: t) input nodeID)
  end.

(** [LoadRuleSets]: the rule sets and the skipped stages. *)
Fixpoint load_files (t : occasion) (stage : StageConfig) (paths : list bytes) : result rule_error (list (bytes * bytes * RuleSet)) :=
  match paths with
  | [] => Ok []
  | path :: rest =>
    match validatePolicyFile path with
    | Some e => Err e
    | None => let* rs := LoadFile (0%nat :: t) path in let* rest := load_files (1%nat :: t) stage rest in Ok ((g_Name stage, path, rs) :: rest)
    end
  end.
Fixpoint load_stages (t : occasion) (nodeID : bytes) (stages : list StageConfig) : result rule_error (list (bytes * bytes * RuleSet) * list StageDecision) :=
  match stages with
  | [] => Ok ([], [])
  | stage :: rest =>
    let* paths := resolveRulePaths (g_Paths stage) nodeID in
    match paths with
    | [] =>
      if g_Required stage then Err (ErrStageRequired (g_Name stage)) else
      let* '(sources, skipped) := load_stages (1%nat :: t) nodeID rest in
      Ok (sources, mkStageDecision (g_Name stage) [] (g_Required stage) true None (str "no rule files found") :: skipped)
    | _ =>
      let* here := load_files (0%nat :: t) stage paths in
      let* '(sources, skipped) := load_stages (1%nat :: t) nodeID rest in Ok (here ++ sources, skipped)
    end
  end.
Definition LoadRuleSets (t : occasion) (cfg : PipelineConfig) : result rule_error (list (bytes * bytes * RuleSet) * list StageDecision) :=
  let* cfg := Pipeline_Normalize cfg in load_stages t (p_NodeID cfg) (p_Stages cfg).

End Pipeline.
End RulesPipeline.
