(* ===== verification/RulesProofs.v ===== *)
(** * The policy engine: lemmas *)

From S2P Require Import Prelude GoStrings AuthProof PubSub SessionEventsProofs Rules RulesPipeline.

Module RulesProofs.
Import GoStrings AuthProof PubSub SessionEventsProofs Rules RulesPipeline.

(** ** Induction on conditions *)

Lemma Condition_ind (P : Condition -> Prop) :
  (forall all any not field op value values, Forall P all -> Forall P any -> (forall x, not = Some x -> P x) -> P (mkCondition all any not field op value values)) -> forall c, P c.
Proof.
  intros Hc. refine (fix self c := _). destruct c as [all any not field op value values]. apply Hc.
  - induction all as [|x l IH]; constructor; [apply self|exact IH].
  - induction any as [|x l IH]; constructor; [apply self|exact IH].
  - intros x E. destruct not as [y|]; [|discriminate]. injection E as <-. apply self.
Qed.

(** ** Maps with trimmed keys *)

Definition clean_key (k : bytes) : Prop := TrimSpace k = k /\ k <> [].
Definition clean_keys (m : strings) : Prop := forall k v, m !! k = Some v -> clean_key k.

Lemma put_trimmed_clean m kv : clean_keys m -> clean_keys (put_trimmed m kv).
Proof.
  intros Hm. unfold put_trimmed. destruct (str_eqb_spec (TrimSpace kv.1) []) as [|Hne]; [done|]. intros k v [[<- _]|[_ Hk]]%lookup_insert_Some; [|by eapply Hm].
  split; [apply TrimSpace_idemp|done].
Qed.

Lemma fold_put_clean l m : clean_keys m -> clean_keys (fold_left put_trimmed l m).
Proof. revert m. induction l as [|kv l IH]; intros m Hm; [done|]. cbn. by apply IH, put_trimmed_clean. Qed.

Lemma fold_put_id l m : Forall (fun kv => clean_key kv.1) l -> NoDup l.*1 -> (forall kv, kv ∈ l -> m !! kv.1 = None) -> fold_left put_trimmed l m = list_to_map l ∪ m.
Proof.
  revert m. induction l as [|[k v] l IH]; intros m Hl Hnd Hm; cbn [fold_left list_to_map foldr]; [by rewrite map_empty_union|].
  apply Forall_cons in Hl as [[Ek Hne] Hl]. cbn [fmap list_fmap fst] in Hnd. apply NoDup_cons in Hnd as [Hk Hnd]. unfold put_trimmed at 2. cbn [fst snd] in *.
  rewrite Ek. destruct (str_eqb_spec k []); [done|]. rewrite IH; [|done|done|].
  - rewrite <- insert_union_r by (by apply not_elem_of_list_to_map_1). cbn [uncurry]. by rewrite insert_union_l.
  - intros kv Hin. rewrite lookup_insert_ne; [apply Hm; by right|]. intros ->. apply Hk. apply list_elem_of_fmap. by exists kv.
Qed.

(** ** Names of facts *)

Lemma space_tail_app k c q : space_tail k = 0%nat -> k <> [] -> 33 <= c < 128 -> space_tail (k ++ c :: q) = 0%nat.
Proof.
  intros Hk Hne Hc. assert (forall n, 128 <= n -> (c =? n) = false) as Hn by (intros; lia).
  destruct k as [|x [|y [|z k]]]; [done| | |exact Hk]; cbn in *; destruct (space1 x); try done.
  - unfold space2, space3. rewrite !Hn by lia. destruct q; [done|]. by rewrite !andb_false_r.
  - destruct (space2 y x); [done|]. unfold space3. by rewrite !Hn by lia.
Qed.

Lemma prefixed_clean p c k : Forall (fun b => 33 <= b < 128) p -> 33 <= c < 128 -> (3 <= length p)%nat -> clean_key k -> clean_key (p ++ c :: k).
Proof.
  intros Hp Hc Hl [Ek Hne]. split; [|by destruct p]. apply trimmed_TrimSpace. split.
  - destruct (trimmed_plain p Hp) as [Hh _]. destruct p as [|x [|y [|z p]]]; cbn in Hl; try lia. exact Hh.
  - rewrite rev_app_distr. cbn [rev]. rewrite <- app_assoc. apply space_tail_app; [|by intros E%(f_equal (@rev _)); rewrite rev_involutive in E|done].
    rewrite <- Ek. apply TrimSpace_trimmed.
Qed.

Definition fact_names : list bytes :=
  str <$> ["topic"; "event.component"; "event.origin"; "infra.kind"; "infra.operation"; "infra.component"; "infra.origin"; "infra.id"; "infra.path"; "infra.view_path";
    "infra.protocol"; "infra.status"; "infra.error"; "infra.is_dir"; "infra.bytes"; "infra.files"; "file.operation"; "file.path"; "file.view_path"; "file.protocol";
    "file.status"; "file.is_dir"; "file.bytes"; "file.files"]%string.

Definition reserved (k : bytes) : Prop := k ∈ fact_names.

Definition own_name (k : bytes) : bool := str_eqb (TrimSpace k) k && negb (str_eqb k []) && negb (HasPrefix k (str "field.")) && negb (HasPrefix k (str "fields.")).

Lemma reserved_own k : reserved k -> own_name k = true.
Proof. intros Hk. assert (forallb own_name fact_names = true) as Hf by (vm_compute; reflexivity). apply list_elem_of_In in Hk. by apply (proj1 (forallb_forall _ _) Hf). Qed.

Lemma reserved_clean k : reserved k -> clean_key k /\ (forall j, k <> str "field." ++ j) /\ (forall j, k <> str "fields." ++ j).
Proof.
  intros Hk%reserved_own. unfold own_name in Hk. rewrite !andb_true_iff, !negb_true_iff in Hk. destruct Hk as [[[Ht Hn] Hf] Hs].
  destruct (str_eqb_spec (TrimSpace k) k) as [Et|]; [|done]. destruct (str_eqb_spec k []) as [|Hne]; [done|].
  split; [by split|]. split; intros j ->.
  - by rewrite (proj2 (HasPrefix_app _ _) (ex_intro _ j eq_refl)) in Hf.
  - by rewrite (proj2 (HasPrefix_app _ _) (ex_intro _ j eq_refl)) in Hs.
Qed.

Lemma add_fact_keys (key : string) (value : bytes) (m : strings) (P : bytes -> Prop) : P (str key) -> (forall k v, m !! k = Some v -> P k) -> forall k v, add_fact key value m !! k = Some v -> P k.
Proof. intros Hp Hm k v. unfold add_fact. destruct (str_eqb _ _); [apply Hm|]. intros [[<- _]|[_ Hk]]%lookup_insert_Some; [done|by eapply Hm]. Qed.
Lemma add_count_keys (key : string) (n : Z) (m : strings) (P : bytes -> Prop) : P (str key) -> (forall k v, m !! k = Some v -> P k) -> forall k v, add_count key n m !! k = Some v -> P k.
Proof. intros Hp Hm k v. unfold add_count. destruct (0 <? n); [|apply Hm]. intros [[<- _]|[_ Hk]]%lookup_insert_Some; [done|by eapply Hm]. Qed.
Lemma insert_keys (key value : bytes) (m : strings) (P : bytes -> Prop) : P key -> (forall k v, m !! k = Some v -> P k) -> forall k v, <[key := value]> m !! k = Some v -> P k.
Proof. intros Hp Hm k v [[<- _]|[_ Hk]]%lookup_insert_Some; [done|by eapply Hm]. Qed.

Ltac reserved_name := apply (bool_decide_unpack _); vm_compute; exact I.

Lemma event_facts_keys topic e k v : event_facts topic e !! k = Some v -> reserved k.
Proof.
  unfold event_facts. cbn [list_to_map foldr uncurry]. revert k v. destruct (str_eqb _ _);
  repeat (first [apply add_fact_keys|apply add_count_keys|apply insert_keys]; [reserved_name|]); intros k v; by rewrite lookup_empty.
Qed.

Lemma put_field_clean m kv : clean_keys m -> clean_keys (put_field m kv).
Proof.
  intros Hm. unfold put_field. destruct (str_eqb_spec (TrimSpace kv.1) []) as [|Hne]; [done|].
  assert (clean_key (TrimSpace kv.1)) as Hk by (split; [apply TrimSpace_idemp|done]).
  assert (clean_keys (<[str "fields." ++ TrimSpace kv.1 := kv.2]> (<[str "field." ++ TrimSpace kv.1 := kv.2]> m))) as Hc.
  { unfold clean_keys. apply insert_keys; [|apply insert_keys; [|done]].
    - apply (prefixed_clean [102; 105; 101; 108; 100; 115] 46); [repeat constructor; lia|lia|cbn; lia|done].
    - apply (prefixed_clean [102; 105; 101; 108; 100] 46); [repeat constructor; lia|lia|cbn; lia|done]. }
  destruct (_ !! _); [done|]. exact (insert_keys _ _ _ clean_key Hk Hc).
Qed.

Lemma add_fact_ne (key : string) (value k : bytes) (m : strings) : k <> str key -> add_fact key value m !! k = m !! k.
Proof. intros Hk. unfold add_fact. destruct (str_eqb _ _); [done|]. by apply lookup_insert_ne. Qed.
Lemma add_count_ne (key : string) (n : Z) (k : bytes) (m : strings) : k <> str key -> add_count key n m !! k = m !! k.
Proof. intros Hk. unfold add_count. destruct (0 <? n); [|done]. by apply lookup_insert_ne. Qed.

Lemma event_topic topic e : event_facts topic e !! str "topic" = Some (TrimSpace topic).
Proof.
  unfold event_facts. cbn [list_to_map foldr uncurry]. destruct (str_eqb _ _);
  repeat (first [rewrite add_fact_ne|rewrite add_count_ne|rewrite lookup_insert_ne]; [|vm_compute; discriminate]); by rewrite lookup_insert_eq.
Qed.

(** A field never replaces a reserved fact. *)
Lemma put_field_keeps m kv k v : reserved k -> m !! k = Some v -> put_field m kv !! k = Some v.
Proof.
  intros (_ & Hf & Hs)%reserved_clean Hk. unfold put_field. destruct (str_eqb _ _); [done|].
  assert (<[str "fields." ++ TrimSpace kv.1 := kv.2]> (<[str "field." ++ TrimSpace kv.1 := kv.2]> m) !! k = Some v) as Hk'
    by (by rewrite !lookup_insert_ne by (by apply not_eq_sym)).
  destruct (_ !! TrimSpace kv.1) eqn:E; [done|]. rewrite lookup_insert_ne; [done|]. intros <-. congruence.
Qed.

Section Order.
Context `{MapOrder} `{!MapOrderLaws}.

Lemma cleanMap_clean t m : clean_keys (cleanMap t m).
Proof. apply fold_put_clean. intros k v. by rewrite lookup_empty. Qed.

Lemma cleanMap_id t m : clean_keys m -> cleanMap t m = m.
Proof.
  intros Hm. unfold cleanMap. pose proof (range_map_perm t m) as Hp. rewrite fold_put_id.
  - rewrite map_union_empty. rewrite <- (list_to_map_to_list m) at 2. apply list_to_map_proper; [|done]. rewrite Hp. apply NoDup_fst_map_to_list.
  - apply Forall_forall. intros [k v] Hin. rewrite Hp in Hin. apply elem_of_map_to_list in Hin. by eapply Hm.
  - rewrite Hp. apply NoDup_fst_map_to_list.
  - intros kv _. apply lookup_empty.
Qed.

Lemma cleanMap_idemp t u m : cleanMap t (cleanMap u m) = cleanMap u m.
Proof. apply cleanMap_id, cleanMap_clean. Qed.

(** No two keys are equal up to the spaces around them. *)
Definition apart (m : strings) : Prop :=
  forall k k' v v', m !! k = Some v -> m !! k' = Some v' -> TrimSpace k = TrimSpace k' -> TrimSpace k <> [] -> k = k'.

Lemma clean_apart m : clean_keys m -> apart m.
Proof. intros Hm k k' v v' Hk Hk' E _. by rewrite (proj1 (Hm _ _ Hk)), (proj1 (Hm _ _ Hk')) in E. Qed.

(** The value of a key after cleaning is that of the key it was trimmed from. *)
Lemma fold_put_lookup l m k w : NoDup l.*1 ->
  (forall kv kv', kv ∈ l -> kv' ∈ l -> TrimSpace kv.1 = TrimSpace kv'.1 -> TrimSpace kv.1 <> [] -> kv.1 = kv'.1) ->
  fold_left put_trimmed l m !! k = Some w <->
  (exists kv, kv ∈ l /\ TrimSpace kv.1 = k /\ k <> [] /\ kv.2 = w) \/
  ((forall kv, kv ∈ l -> TrimSpace kv.1 = k -> k = []) /\ m !! k = Some w).
Proof.
  revert m. induction l as [|[x v] l IH]; intros m Hnd Ha; cbn [fold_left].
  { split; [right; split; [intros kv Hkv; by apply elem_of_nil in Hkv|done]|]. intros [(kv & Hkv & _)|[_ ?]]; [by apply elem_of_nil in Hkv|done]. }
  cbn [fmap list_fmap fst] in Hnd. apply NoDup_cons in Hnd as [Hx Hnd]. rewrite IH; [|done|intros kv kv' Hkv Hkv'; apply Ha; by right]. clear IH.
  assert (forall kv, kv ∈ l -> TrimSpace kv.1 = TrimSpace x -> TrimSpace x = []) as Hnew.
  { intros kv Hkv E. destruct (decide (TrimSpace x = [])) as [|Hne]; [done|exfalso]. apply Hx.
    apply list_elem_of_fmap. exists kv. split; [|done]. apply (Ha (x, v) kv); [by left|by right|done|done]. }
  unfold put_trimmed. cbn [fst snd]. destruct (str_eqb_spec (TrimSpace x) []) as [Ex|Hne].
  - split.
    + intros [(kv & Hkv & ?)|[Hall ?]]; [left; exists kv; split; [by right|done]|right; split; [|done]]. intros kv [->|Hkv]%elem_of_cons; [|by apply Hall]. cbn. by intros <-.
    + intros [(kv & [->|Hkv]%elem_of_cons & E & Hk & Ev)|[Hall ?]]; [cbn in *; congruence|left; by exists kv|right; split; [|done]]. intros kv Hkv. apply Hall. by right.
  - split.
    + intros [(kv & Hkv & ?)|[Hall Hk]]; [left; exists kv; split; [by right|done]|]. apply lookup_insert_Some in Hk as [[<- <-]|[Hxk Hk]]; [left; exists (x, v); split; [by left|done]|].
      right. split; [|done]. intros kv [->|Hkv]%elem_of_cons; [done|by apply Hall].
    + intros [(kv & [->|Hkv]%elem_of_cons & E & Hk & Ev)|[Hall Hm]].
      * cbn in *. subst k w. right. split; [by intros kv Hkv E; apply (Hnew kv)|apply lookup_insert_eq].
      * left. by exists kv.
      * right. split; [intros kv Hkv; apply Hall; by right|]. rewrite lookup_insert_ne; [done|]. intros E. apply Hne.
        rewrite E. apply (Hall (x, v)); [by left|done].
Qed.

(** Where no two keys are equal up to spaces the order does not matter. *)
Lemma cleanMap_apart t u m : apart m -> cleanMap t m = cleanMap u m.
Proof.
  intros Hm. apply map_eq. intros k. apply option_eq. intros w. unfold cleanMap.
  assert (forall t kv, kv ∈ range_map t m <-> m !! kv.1 = Some kv.2) as Hin by (intros t' [x v]; rewrite range_map_perm; apply elem_of_map_to_list).
  rewrite !fold_put_lookup; try (rewrite range_map_perm; apply NoDup_fst_map_to_list);
    try (intros kv kv' H1%Hin H2%Hin; by apply (Hm _ _ _ _ H1 H2)).
  setoid_rewrite Hin. done.
Qed.

(** ** Inputs *)

Lemma NewInput_clean t topic facts : clean_keys (i_Facts (NewInput t topic facts)).
Proof.
  unfold NewInput. cbn [i_Facts]. pose proof (cleanMap_clean t facts) as Hc. destruct (str_eqb _ _); [done|]. intros k v [[<- _]|[_ Hk]]%lookup_insert_Some; [done|by eapply Hc].
Qed.

Lemma Normalized_idemp t u i : Normalized t (Normalized u i) = Normalized u i.
Proof.
  unfold Normalized. pose proof (NewInput_clean u (i_Topic i) (i_Facts i)) as Hc. set (j := NewInput u (i_Topic i) (i_Facts i)) in *.
  unfold NewInput at 1. rewrite (cleanMap_id _ _ Hc). assert (TrimSpace (i_Topic j) = i_Topic j) as -> by apply TrimSpace_idemp.
  destruct j as [topic facts] eqn:Ej. cbn [i_Topic i_Facts]. destruct (str_eqb_spec topic []) as [|Hne]; [done|]. f_equal. apply insert_id.
  unfold j, NewInput in Ej. injection Ej as Et Ef. rewrite Et in Ef. destruct (str_eqb_spec topic []); [done|]. rewrite <- Ef. apply lookup_insert_eq.
Qed.

Lemma Normalized_apart t u i : apart (i_Facts i) -> Normalized t i = Normalized u i.
Proof. intros Hi. unfold Normalized, NewInput. by rewrite (cleanMap_apart t u). Qed.

Lemma NewInfrastructureInput_facts t u topic e k v :
  event_facts topic (infra_normalized u e) !! k = Some v -> i_Facts (NewInfrastructureInput t topic e) !! k = Some v.
Proof.
  change (event_facts topic (infra_normalized u e)) with (event_facts topic (infra_normalized (0%nat :: t) e)). intros Hk. pose proof (event_facts_keys _ _ _ _ Hk) as Hr. unfold NewInfrastructureInput, NewInput. cbn [i_Facts].
  set (start := event_facts topic (infra_normalized (0%nat :: t) e)) in *. set (l := range_map _ _).
  assert (clean_keys start) as Hs by (intros j w Hj; by apply reserved_clean, (event_facts_keys _ _ _ _ Hj)).
  assert (clean_keys (fold_left put_field l start) /\ fold_left put_field l start !! k = Some v) as [Hc Hf].
  { clearbody start l. revert start Hk Hs. induction l as [|kv l IH]; intros m Hk Hm; [done|]. cbn. apply IH; [by apply put_field_keeps|by apply put_field_clean]. }
  rewrite (cleanMap_id _ _ Hc). destruct (str_eqb _ _); [done|]. destruct (decide (k = str "topic")) as [->|Hne]; [|by rewrite lookup_insert_ne by done].
  rewrite lookup_insert_eq, <- Hk. symmetry. apply event_topic.
Qed.

(** ** Conditions *)

Section Conditions.
Context `{UnicodeTables} `{Matchers}.

Definition all_of (f : occasion -> Condition -> result cond_error bool) : occasion -> list Condition -> result cond_error bool :=
  fix all_of t l := match l with [] => Ok true | x :: r => match f (1%nat :: t) x with Err e => Err e | Ok false => Ok false | Ok true => all_of (2%nat :: t) r end end.
Definition any_of (f : occasion -> Condition -> result cond_error bool) : occasion -> list Condition -> result cond_error bool :=
  fix any_of t l := match l with [] => Ok false | x :: r => match f (1%nat :: t) x with Err e => Err e | Ok true => Ok true | Ok false => any_of (2%nat :: t) r end end.

Lemma Match_eq t all any not field op value values i : let c := mkCondition all any not field op value values in let j := Normalized (0%nat :: t) i in
  Match t c i = match all, any, not with
    | _ :: _, _, _ => all_of (fun t x => Match t x j) t all
    | [], _ :: _, _ => any_of (fun t x => Match t x j) t any
    | [], [], Some x => match Match (1%nat :: t) x j with Err e => Err e | Ok ok => Ok (negb ok) end
    | [], [], None => match_atom c j
    end.
Proof. by destruct all, any, not. Qed.

Lemma all_of_ext f l t u : Forall (fun x => forall t u, f t x = f u x) l -> all_of f t l = all_of f u l.
Proof.
  intros Hl. revert t u. induction Hl as [|x l Hx _ IH]; intros t u; [done|]. cbn [all_of]. rewrite (Hx (1%nat :: t) (1%nat :: u)).
  destruct (f (1%nat :: u) x) as [[|]|]; [apply IH|done|done].
Qed.
Lemma any_of_ext f l t u : Forall (fun x => forall t u, f t x = f u x) l -> any_of f t l = any_of f u l.
Proof.
  intros Hl. revert t u. induction Hl as [|x l Hx _ IH]; intros t u; [done|]. cbn [any_of]. rewrite (Hx (1%nat :: t) (1%nat :: u)).
  destruct (f (1%nat :: u) x) as [[|]|]; [done|apply IH|done].
Qed.

(** An input whose normal form does not depend on the order is matched alike on every occasion. *)
Lemma Match_occasion c i : (forall t u, Normalized t i = Normalized u i) -> forall t u, Match t c i = Match u c i.
Proof.
  revert i. induction c as [all any not field op value values Hall Hany Hnot] using Condition_ind. intros i Hi t u. rewrite !Match_eq. cbv zeta.
  rewrite (Hi (0%nat :: t) (0%nat :: u)). set (j := Normalized (0%nat :: u) i).
  assert (forall t u, Normalized t j = Normalized u j) as Hj by (intros; unfold j; by rewrite !Normalized_idemp).
  destruct all as [|x all]; [destruct any as [|y any]; [destruct not as [z|]|]|].
  - by rewrite (Hnot z eq_refl j Hj (1%nat :: t) (1%nat :: u)).
  - done.
  - apply any_of_ext. eapply Forall_impl; [exact Hany|]. intros c Hc ? ?. by apply Hc.
  - apply all_of_ext. eapply Forall_impl; [exact Hall|]. intros c Hc ? ?. by apply Hc.
Qed.

Lemma Match_normal_form c i t u v : Match t c (Normalized v i) = Match u c (Normalized v i).
Proof. apply Match_occasion. intros. by rewrite !Normalized_idemp. Qed.

Lemma Match_normalized c i t u v : apart (i_Facts i) -> Match t c (Normalized v i) = Match u c i.
Proof.
  intros Hi. rewrite (Match_occasion c i) with (u := t) by (intros; by apply Normalized_apart). destruct c as [all any not field op value values].
  rewrite !Match_eq. cbv zeta. by rewrite Normalized_idemp, (Normalized_apart (0%nat :: t) v i Hi).
Qed.

(** The leaves of a condition, and its value given theirs. *)
Fixpoint leaves (c : Condition) : list Condition :=
  let 'mkCondition all any not _ _ _ _ := c in
  match all, any, not with
  | _ :: _, _, _ => flat_map leaves all
  | [], _ :: _, _ => flat_map leaves any
  | [], [], Some x => leaves x
  | [], [], None => [c]
  end.

Fixpoint truth (atom : Condition -> bool) (c : Condition) : bool :=
  let 'mkCondition all any not _ _ _ _ := c in
  match all, any, not with
  | _ :: _, _, _ => forallb (truth atom) all
  | [], _ :: _, _ => existsb (truth atom) any
  | [], [], Some x => negb (truth atom x)
  | [], [], None => atom c
  end.

Lemma all_of_truth f atom l t : Forall (fun c => forall t, f t c = Ok (truth atom c)) l -> all_of f t l = Ok (forallb (truth atom) l).
Proof. intros Hl. revert t. induction Hl as [|c l E _ IH]; intros t; [done|]. cbn. rewrite E. destruct (truth atom c); [apply IH|done]. Qed.
Lemma any_of_truth f atom l t : Forall (fun c => forall t, f t c = Ok (truth atom c)) l -> any_of f t l = Ok (existsb (truth atom) l).
Proof. intros Hl. revert t. induction Hl as [|c l E _ IH]; intros t; [done|]. cbn. rewrite E. destruct (truth atom c); [done|apply IH]. Qed.

Lemma Forall_leaves (P Q : Condition -> Prop) l : Forall (fun c => (forall x, x ∈ leaves c -> P x) -> Q c) l -> (forall x, x ∈ flat_map leaves l -> P x) -> Forall Q l.
Proof.
  induction 1 as [|c l Hc _ IH]; intros Hp; constructor; cbn [flat_map] in Hp.
  - apply Hc. intros x Hx. apply Hp, elem_of_app. by left.
  - apply IH. intros x Hx. apply Hp, elem_of_app. by right.
Qed.

(** Without errors a condition means its Boolean expression. *)
Lemma Match_truth atom c i : (forall t, Normalized t i = i) -> (forall l, l ∈ leaves c -> match_atom l i = Ok (atom l)) -> forall t, Match t c i = Ok (truth atom c).
Proof.
  intros Hi. induction c as [all any not field op value values Hall Hany Hnot] using Condition_ind. intros Hl t. rewrite Match_eq. cbv zeta. rewrite Hi.
  destruct all as [|x all]; [destruct any as [|y any]; [destruct not as [z|]|]|].
  - cbn [leaves truth] in *. by rewrite (Hnot z eq_refl Hl).
  - apply Hl. constructor.
  - by apply any_of_truth, (Forall_leaves _ _ _ Hany).
  - by apply all_of_truth, (Forall_leaves _ _ _ Hall).
Qed.

(** ** Normal forms of rules *)

Lemma contains_In l v : contains l v = true <-> v ∈ l.
Proof.
  unfold contains. rewrite existsb_exists, list_elem_of_In. split.
  - intros (x & Hx & E). destruct (str_eqb_spec x v); [by subst|done].
  - intros Hv. exists v. split; [done|apply str_eqb_refl].
Qed.

Lemma valid_action_normal action : validAction action = true -> normalizeAction action = action /\ action <> [].
Proof.
  intros Hv. apply contains_In in Hv. unfold Actions in Hv. rewrite !elem_of_cons, elem_of_nil in Hv.
  destruct Hv as [->|[->|[->|[->|[->|[->|[]]]]]]]; (split; [vm_compute; reflexivity|discriminate]).
Qed.

Lemma cleanList_idemp l : cleanList (cleanList l) = cleanList l.
Proof. unfold cleanList. destruct (dedup_trim_spec [] l) as [Hnd Hf]. by apply dedup_trim_id. Qed.

Lemma Rule_Normalize_ok t r i r' : Rule_Normalize t r i = Ok r' -> forall u j, Rule_Normalize u r' j = Ok r'.
Proof.
  unfold Rule_Normalize. destruct (str_eqb_spec (TrimSpace (u_ID r)) []) as [|Hid]; [done|]. set (action := if str_eqb (normalizeAction (u_Action r)) [] then _ else _).
  destruct (validAction action) eqn:Ev; [|done]. destruct (valid_action_normal _ Ev) as [Ea Hne]. cbn [negb].
  destruct (str_eqb action ActionRewrite && str_eqb (TrimSpace (u_RewriteTopic r)) []) eqn:E1; [done|].
  destruct (negb (str_eqb action ActionRewrite) && negb (str_eqb (TrimSpace (u_RewriteTopic r)) [])) eqn:E2; [done|].
  destruct (Validate (u_When r)) eqn:Ew; [done|]. intros [= <-] u j. cbn [u_ID u_Action u_RewriteTopic u_When u_Description u_Reason u_SetFields u_Tags].
  rewrite !TrimSpace_idemp, Ea. destruct (str_eqb_spec (TrimSpace (u_ID r)) []); [done|]. destruct (str_eqb_spec action []); [done|].
  rewrite Ev, E1, E2, Ew, cleanMap_idemp, cleanList_idemp. reflexivity.
Qed.

Lemma normalize_rules_ok t l i l' : normalize_rules t i l = Ok l' -> forall u j, normalize_rules u j l' = Ok l'.
Proof.
  revert i l'. induction l as [|r l IH]; intros i l'; cbn [normalize_rules]; [by intros [= <-]|]. intros E u j.
  apply result_bind_ok in E as (r' & Er & E). apply result_bind_ok in E as (rest & El & [= <-]). cbn [normalize_rules].
  by rewrite (Rule_Normalize_ok _ _ _ _ Er), (IH _ _ El).
Qed.

Lemma Normalize_idemp t rs rs' : Normalize t rs = Ok rs' -> (forall u, Normalize u rs' = Ok rs') /\ validAction (s_DefaultAction rs') = true.
Proof.
  unfold Normalize. set (version := if str_eqb (TrimSpace (s_Version rs)) [] then _ else _). destruct (str_eqb_spec version EngineVersion) as [Ev|]; [|done]. cbn [negb].
  set (action := if str_eqb (normalizeAction (s_DefaultAction rs)) [] then _ else _). destruct (validAction action) eqn:Eva; [|done]. cbn [negb].
  destruct (valid_action_normal _ Eva) as [Ea Hne]. intros E. apply result_bind_ok in E as (rules & Er & [= <-]). cbn [s_Version s_DefaultAction s_Rules]. split; [intros u|done].
  rewrite Ev. change (TrimSpace EngineVersion) with EngineVersion. change (str_eqb EngineVersion []) with false. cbv iota. rewrite str_eqb_refl, Ea. cbn [negb].
  destruct (str_eqb_spec action []); [done|]. rewrite Eva. cbn [negb]. by rewrite (normalize_rules_ok _ _ _ _ Er).
Qed.

Lemma normalize_rules_valid t l i l' : normalize_rules t i l = Ok l' -> Forall (fun r => validAction (u_Action r) = true) l'.
Proof.
  revert i l'. induction l as [|r l IH]; intros i l'; cbn [normalize_rules]; [by intros [= <-]|]. intros E.
  apply result_bind_ok in E as (r' & Er & E). apply result_bind_ok in E as (rest & El & [= <-]). constructor; [|by eapply IH].
  revert Er. unfold Rule_Normalize. destruct (str_eqb _ _); [done|]. set (action := if str_eqb (normalizeAction (u_Action r)) [] then _ else _).
  destruct (validAction action) eqn:Ev; [|done]. cbn [negb]. repeat (destruct (_ && _); [done|]). destruct (Validate _); [done|]. by intros [= <-].
Qed.

(** ** The first match *)

(** What a condition says of an input, on every occasion. *)
Definition says (c : Condition) (i : Input) (r : result cond_error bool) : Prop := forall t, Match t c i = r.

Lemma says_match c i v t r : says c (Normalized v i) r <-> Match t c (Normalized v i) = r.
Proof. split; [by intros Hs|]. intros <- u. apply Match_normal_form. Qed.

Lemma says_unique c i r r' : says c i r -> says c i r' -> r = r'.
Proof. intros <-%(fun H => H []) <-%(fun H => H []). done. Qed.

(** What [first_match] looks for: the first rule whose condition is not false. *)
Lemma first_match_ok t rules v input default d : let i := Normalized v input in
  first_match t rules i default = Ok d <->
  (exists before r after, rules = before ++ r :: after /\ Forall (fun q => says (u_When q) i (Ok false)) before /\ says (u_When r) i (Ok true) /\ d = decision r i) \/
  (Forall (fun q => says (u_When q) i (Ok false)) rules /\ d = default_decision default i).
Proof.
  intros i. revert t. induction rules as [|q rules IH]; intros t; cbn [first_match].
  - split; [intros [= <-]; right; by split|]. intros [(before & r & after & E & _)|[_ ->]]; [by destruct before|done].
  - destruct (Match (0%nat :: t) (u_When q) i) as [[|]|e] eqn:Em; apply says_match in Em.
    + split.
      * intros [= <-]. left. by exists [], q, rules.
      * intros [([|p before] & r & after & [= <- ->] & Hb & Hr & ->)|[Hb _]]; [done|..]; apply Forall_cons in Hb as [Hb _]; by pose proof (says_unique _ _ _ _ Em Hb).
    + rewrite IH. split.
      * intros [(before & r & after & -> & Hb & Hr & ->)|[Hb ->]]; [left; exists (q :: before), r, after|right]; by repeat constructor.
      * intros [([|p before] & r & after & [= <- ->] & Hb & Hr & ->)|[Hb ->]]; [pose proof (says_unique _ _ _ _ Em Hr); congruence|..]; apply Forall_cons in Hb as [_ Hb]; [left; by exists before, r, after|by right].
    + split; [done|]. intros [([|p before] & r & after & [= <- ->] & Hb & Hr & ->)|[Hb _]]; [pose proof (says_unique _ _ _ _ Em Hr); congruence|..];
        apply Forall_cons in Hb as [Hb _]; by pose proof (says_unique _ _ _ _ Em Hb).
Qed.

Lemma first_match_err t rules v input default e : let i := Normalized v input in
  first_match t rules i default = Err e <->
  exists before r after c, rules = before ++ r :: after /\ Forall (fun q => says (u_When q) i (Ok false)) before /\ says (u_When r) i (Err c) /\ e = ErrEvaluation (u_ID r) c.
Proof.
  intros i. revert t. induction rules as [|q rules IH]; intros t; cbn [first_match].
  - split; [done|]. intros (before & r & after & c & E & _). by destruct before.
  - destruct (Match (0%nat :: t) (u_When q) i) as [[|]|e'] eqn:Em; apply says_match in Em.
    + split; [done|]. intros ([|p before] & r & after & c & [= <- ->] & Hb & Hr & ->); [by pose proof (says_unique _ _ _ _ Em Hr)|apply Forall_cons in Hb as [Hb _]; by pose proof (says_unique _ _ _ _ Em Hb)].
    + rewrite IH. split.
      * intros (before & r & after & c & -> & Hb & Hr & ->). exists (q :: before), r, after, c. by repeat constructor.
      * intros ([|p before] & r & after & c & [= <- ->] & Hb & Hr & ->); [pose proof (says_unique _ _ _ _ Em Hr); congruence|]. apply Forall_cons in Hb as [_ Hb]. by exists before, r, after, c.
    + split.
      * intros [= <-]. by exists [], q, rules, e'.
      * intros ([|p before] & r & after & c & [= <- ->] & Hb & Hr & ->); [pose proof (says_unique _ _ _ _ Em Hr); congruence|apply Forall_cons in Hb as [Hb _]; by pose proof (says_unique _ _ _ _ Em Hb)].
Qed.

Lemma first_match_occasion t u rules v input default : first_match t rules (Normalized v input) default = first_match u rules (Normalized v input) default.
Proof.
  revert t u. induction rules as [|q rules IH]; intros t u; [done|]. cbn [first_match]. rewrite (Match_normal_form _ _ (0%nat :: t) (0%nat :: u)).
  destruct (Match _ _ _) as [[|]|]; [done|apply IH|done].
Qed.

Lemma Evaluate_decided t rs i d : Evaluate t rs i = Ok d -> validAction (d_Action d) = true /\ d_Allowed d = actionAllowed (d_Action d).
Proof.
  unfold Evaluate. intros E. apply result_bind_ok in E as (rs' & En & E). apply first_match_ok in E as [(before & r & after & Er & _ & _ & ->)|[_ ->]]; cbn.
  - split; [|done]. revert En. unfold Normalize. repeat (destruct (negb _); [done|]). intros En. apply result_bind_ok in En as (rules & Hn & [= <-]). cbn [s_Rules] in Er.
    apply normalize_rules_valid in Hn. subst rules. apply Forall_app in Hn as [_ Hn]. by apply Forall_cons in Hn as [? _].
  - split; [|done]. by apply Normalize_idemp in En as [_ ?].
Qed.

(** The fields a rule sets. *)
Definition rules_apart (rs : RuleSet) : Prop := Forall (fun r => apart (u_SetFields r)) (s_Rules rs).

Lemma normalize_rules_apart t u l i : Forall (fun r => apart (u_SetFields r)) l -> normalize_rules t i l = normalize_rules u i l.
Proof.
  intros Hl. revert i. induction Hl as [|r l Hr _ IH]; intros i; [done|]. cbn [normalize_rules]. rewrite IH.
  assert (Rule_Normalize (i :: t) r i = Rule_Normalize (i :: u) r i) as ->; [|done]. unfold Rule_Normalize. by rewrite (cleanMap_apart (i :: t) (i :: u)).
Qed.

Lemma Normalize_apart t u rs : rules_apart rs -> Normalize t rs = Normalize u rs.
Proof. intros Hr. unfold Normalize. by rewrite (normalize_rules_apart t u). Qed.

Lemma Evaluate_apart t u rs i : rules_apart rs -> apart (i_Facts i) -> Evaluate t rs i = Evaluate u rs i.
Proof.
  intros Hr Hi. unfold Evaluate. rewrite (Normalize_apart (0%nat :: t) (0%nat :: u)) by done. rewrite (Normalized_apart (1%nat :: t) (1%nat :: u)) by done.
  destruct (Normalize _ rs); [|done]. cbn [result_bind]. apply first_match_occasion.
Qed.

Lemma Evaluate_normal t u rs rs' i : Normalize (0%nat :: t) rs = Ok rs' -> apart (i_Facts i) -> Evaluate u rs' i = Evaluate t rs i.
Proof.
  intros E Hi. unfold Evaluate. rewrite E. apply Normalize_idemp in E as [-> _]. cbn [result_bind]. rewrite (Normalized_apart (1%nat :: u) (1%nat :: t)) by done.
  apply first_match_occasion.
Qed.

(** An action permits exactly if it is not a refusal. *)
Lemma allowed_action action : validAction action = true -> actionAllowed action = negb (str_eqb action ActionDeny || str_eqb action ActionDrop).
Proof.
  intros Hv. apply contains_In in Hv. unfold Actions in Hv. rewrite !elem_of_cons, elem_of_nil in Hv.
  destruct Hv as [->|[->|[->|[->|[->|[->|[]]]]]]]; vm_compute; reflexivity.
Qed.

(** ** Stages *)

Section Stages.
Context `{PolicyHost}.

Definition refusal_final (g : StageConfig) : Prop := g_TerminalDeny g <> Some false.
Definition consent_continues (g : StageConfig) : Prop := g_TerminalAllow g <> Some true.

Definition decisions (pd : PipelineDecision) : list Decision := omap sd_Decision (pd_Stages pd).

(** A rule file's decision comes from a file that was checked and that decides so. *)
Definition accounted (sd : StageDecision) : Prop :=
  match sd_Decision sd with
  | None => sd_Skipped sd = true
  | Some d => sd_Skipped sd = false /\ validatePolicyFile (sd_Path sd) = None /\ exists t u rs i, LoadFile t (sd_Path sd) = Ok rs /\ Evaluate u rs i = Ok d
  end.

(** The last decision is the pipeline's; all before it permit, and it does too
    while the loop runs. *)
Record stages_ok (s : loop_state) : Prop := mkStagesOk {
  so_accounted : Forall accounted (pd_Stages (ls_decision s));
  so_evaluated : ls_evaluated s = false -> decisions (ls_decision s) = [] /\ ls_stop s <> Some None;
  so_last : ls_evaluated s = true -> exists ds d, decisions (ls_decision s) = ds ++ [d] /\ Forall (fun d => d_Allowed d = true) ds /\
    pd_Allowed (ls_decision s) = d_Allowed d /\ pd_Final (ls_decision s) = Some d /\ (ls_stop s = None -> d_Allowed d = true)
}.

Lemma stageStops_spec g t rs i d : Evaluate t rs i = Ok d -> refusal_final g ->
  (stageStops g d = false -> d_Allowed d = true) /\ (consent_continues g -> stageStops g d = true -> d_Allowed d = false).
Proof.
  intros E Hg. apply Evaluate_decided in E as [Hv ->]. rewrite (allowed_action _ Hv). unfold stageStops, refusal_final, consent_continues in *.
  destruct (str_eqb _ ActionDeny || str_eqb _ ActionDrop); cbn [negb].
  - destruct (g_TerminalDeny g) as [[|]|]; cbn; [done| |done]. done.
  - split; [done|]. intros Hc. destruct (str_eqb _ ActionAllow); [|done]. destruct (g_TerminalAllow g) as [[|]|]; done.
Qed.

Lemma fail_ok s e : stages_ok s -> stages_ok (fail_ s e).
Proof. intros [Ha He Hl]. constructor; cbn [fail_ ls_decision ls_evaluated ls_stop]; [done| |].
  - intros H'. split; [by apply He|done].
  - intros H'. destruct (Hl H') as (ds & d & ? & ? & ? & ? & _). by exists ds, d.
Qed.

Lemma so_running s : stages_ok s -> ls_stop s = None -> Forall (fun d => d_Allowed d = true) (decisions (ls_decision s)).
Proof.
  intros [_ He Hl] Hs. destruct (ls_evaluated s).
  - destruct (Hl eq_refl) as (ds & d & -> & Hds & _ & _ & Hd). apply Forall_app. split; [done|]. constructor; [by apply Hd|done].
  - by destruct (He eq_refl) as [-> _].
Qed.

Lemma eval_file_ok t g s path : refusal_final g -> stages_ok s -> stages_ok (eval_file t g s path).
Proof.
  intros Hg Hs. unfold eval_file. destruct (ls_stop s) eqn:Est; [done|]. destruct (validatePolicyFile path) eqn:Ev; [by apply fail_ok|].
  destruct (LoadFile _ path) as [rs|] eqn:El; [|by apply fail_ok]. destruct (Evaluate _ rs (ls_input s)) as [d|] eqn:Ee; [|by apply fail_ok].
  pose proof (so_running _ Hs Est) as Hr. destruct Hs as [Ha _ _]. constructor; cbn [ls_decision ls_evaluated ls_stop pd_Stages pd_Allowed pd_Final]; [| done |].
  - apply Forall_app. split; [done|]. constructor; [|done]. unfold accounted. cbn. repeat (split; [done|]). by exists (0%nat :: t), (1%nat :: t), rs, (ls_input s).
  - intros _. exists (decisions (ls_decision s)), d. unfold decisions. cbn [pd_Stages]. rewrite omap_app. cbn. repeat (split; [done|]).
    intros Hn. destruct (stageStops g d) eqn:Eg; [done|]. by apply (stageStops_spec _ _ _ _ _ Ee Hg).
Qed.

Lemma decisions_skip v a action reason topic fields pd sd final : sd_Decision sd = None ->
  decisions (mkPipelineDecision v a action reason topic fields (pd_Stages pd ++ [sd]) final) = decisions pd.
Proof. intros E. unfold decisions. cbn [pd_Stages]. rewrite omap_app. cbn. by rewrite E, app_nil_r. Qed.

Lemma eval_files_ok t g paths s : refusal_final g -> stages_ok s -> stages_ok (eval_files t g paths s).
Proof. intros Hg. revert t s. induction paths as [|p l IH]; intros t s Hs; [done|]. cbn. by apply IH, eval_file_ok. Qed.

Lemma eval_stage_ok t node s g : refusal_final g -> stages_ok s -> stages_ok (eval_stage t node s g).
Proof.
  intros Hg Hs. unfold eval_stage. destruct (ls_stop s) eqn:Est; [done|]. destruct (resolveRulePaths _ _) as [[|path paths]|]; [| |by apply fail_ok].
  - destruct (g_Required g); [by apply fail_ok|]. pose proof Hs as [Ha He Hl].
    constructor; cbn [ls_decision ls_evaluated ls_stop pd_Allowed pd_Final pd_Stages].
    + apply Forall_app. split; [done|]. by repeat constructor.
    + intros H'. destruct (He H') as [? _]. split; [|done]. by rewrite decisions_skip by done.
    + intros H'. destruct (Hl H') as (ds & d & E & Hds & Hal & Hf & Hn). exists ds, d. rewrite decisions_skip by done. repeat (split; [done|]). intros _. by apply Hn.
  - by apply eval_files_ok.
Qed.

Lemma eval_stages_ok t node gs s : Forall refusal_final gs -> stages_ok s -> stages_ok (eval_stages t node gs s).
Proof. revert t s. induction gs as [|g gs IH]; intros t s Hg Hs; [done|]. apply Forall_cons in Hg as [? ?]. cbn. apply IH; [done|by apply eval_stage_ok]. Qed.

(** A stage of which some rule file was evaluated. *)
Definition covered (s : loop_state) (g : StageConfig) : Prop := exists sd, sd ∈ pd_Stages (ls_decision s) /\ sd_Stage sd = g_Name g /\ is_Some (sd_Decision sd).

(** A step only adds stage records, and none once the loop has stopped. *)
Definition extends (s t : loop_state) : Prop := pd_Stages (ls_decision s) ⊆ pd_Stages (ls_decision t) /\ (ls_stop t = None -> ls_stop s = None).

#[local] Instance extends_preorder : PreOrder extends.
Proof. split; [by split|]. intros s t u [Ha Hb] [Hc Hd]. split; [by etransitivity|auto]. Qed.

Lemma covered_extends s t g : extends s t -> covered s g -> covered t g.
Proof. intros [Hs _] (sd & Hin & ?). exists sd. split; [by apply Hs|done]. Qed.

Lemma eval_file_extends t g s path : extends s (eval_file t g s path).
Proof.
  unfold eval_file. destruct (ls_stop s) eqn:Est; [done|]. destruct (validatePolicyFile path); [by split|]. destruct (LoadFile _ path); [|by split].
  destruct (Evaluate _ _ _); [|by split]. split; [|done]. cbn. set_solver.
Qed.

Lemma eval_file_covers t g s path : ls_stop (eval_file t g s path) = None -> covered (eval_file t g s path) g.
Proof.
  unfold eval_file. destruct (ls_stop s) eqn:Est; [congruence|]. destruct (validatePolicyFile path); [done|]. destruct (LoadFile _ path); [|done].
  destruct (Evaluate _ _ _) as [d|]; [|done]. intros _. exists (mkStageDecision (g_Name g) path (g_Required g) false (Some d) []). cbn. split; [set_solver|by split].
Qed.

Lemma eval_files_extends t g paths s : extends s (eval_files t g paths s).
Proof. revert t s. induction paths as [|p l IH]; intros t s; [done|]. cbn. etransitivity; [apply eval_file_extends|apply IH]. Qed.

Lemma eval_stage_extends t node s g : extends s (eval_stage t node s g).
Proof.
  unfold eval_stage. destruct (ls_stop s) eqn:Est; [done|]. destruct (resolveRulePaths _ _) as [[|path paths]|]; [| |by split].
  - destruct (g_Required g); [by split|]. split; [cbn; set_solver|done].
  - apply eval_files_extends.
Qed.

Lemma eval_stages_extends t node gs s : extends s (eval_stages t node gs s).
Proof. revert t s. induction gs as [|g l IH]; intros t s; [done|]. cbn. etransitivity; [apply eval_stage_extends|apply IH]. Qed.

Lemma eval_stage_covers t node s g : g_Required g = true -> ls_stop (eval_stage t node s g) = None -> covered (eval_stage t node s g) g.
Proof.
  intros Hg. unfold eval_stage. destruct (ls_stop s) eqn:Est; [congruence|]. destruct (resolveRulePaths _ _) as [[|path paths]|]; [by rewrite Hg| |done].
  cbn [eval_files]. pose proof (eval_files_extends (1%nat :: t) g paths (eval_file (0%nat :: t) g s path)) as He. intros Hn.
  eapply covered_extends; [exact He|]. apply eval_file_covers. by apply He.
Qed.

Lemma eval_stages_cover t node gs s : ls_stop (eval_stages t node gs s) = None ->
  forall g, g ∈ gs -> g_Required g = true -> covered (eval_stages t node gs s) g.
Proof.
  revert t s. induction gs as [|h gs IH]; intros t s Hn g Hg Hr; [by apply elem_of_nil in Hg|]. cbn [eval_stages] in *. apply elem_of_cons in Hg as [->|Hg]; [|by apply IH].
  pose proof (eval_stages_extends (1%nat :: t) node gs (eval_stage (0%nat :: t) node s h)) as He.
  eapply covered_extends; [exact He|]. apply eval_stage_covers; [done|]. by apply He.
Qed.

(** Where consent is never final, only a refusal ends the loop early. *)
Definition stop_refuses (s : loop_state) : Prop := ls_stop s = Some None -> pd_Allowed (ls_decision s) = false.

Lemma eval_file_refuses t g s path : refusal_final g -> consent_continues g -> stop_refuses s -> stop_refuses (eval_file t g s path).
Proof.
  intros Hg Hc Hs. unfold eval_file. destruct (ls_stop s) eqn:Est; [done|]. destruct (validatePolicyFile path); [done|]. destruct (LoadFile _ path) as [rs|]; [|done].
  destruct (Evaluate _ rs (ls_input s)) as [d|] eqn:Ee; [|done]. unfold stop_refuses. cbn. intros E. destruct (stageStops g d) eqn:Eg; [|done].
  by apply (stageStops_spec _ _ _ _ _ Ee Hg).
Qed.

Lemma eval_files_refuse t g paths s : refusal_final g -> consent_continues g -> stop_refuses s -> stop_refuses (eval_files t g paths s).
Proof. intros Hg Hc. revert t s. induction paths as [|p l IH]; intros t s Hs; [done|]. cbn. by apply IH, eval_file_refuses. Qed.

Lemma eval_stages_refuse t node gs s : Forall refusal_final gs -> Forall consent_continues gs -> stop_refuses s -> stop_refuses (eval_stages t node gs s).
Proof.
  revert t s. induction gs as [|g gs IH]; intros t s Hg Hc Hs; [done|]. apply Forall_cons in Hg as [Hg1 Hg]. apply Forall_cons in Hc as [Hc1 Hc]. cbn. apply IH; [done..|].
  unfold eval_stage. destruct (ls_stop s) eqn:Est; [done|]. destruct (resolveRulePaths _ _) as [[|path paths]|]; [| |done].
  - by destruct (g_Required g).
  - by apply eval_files_refuse.
Qed.

(** ** Normalised configurations *)

Lemma normalize_stages_ok i gs gs' : normalize_stages i gs = Ok gs' ->
  Forall2 (fun g g' => g_Name g' = TrimSpace (g_Name g) /\ g_Required g' = g_Required g /\ g_TerminalDeny g' = g_TerminalDeny g /\ g_TerminalAllow g' = g_TerminalAllow g) gs gs'.
Proof.
  revert i gs'. induction gs as [|g gs IH]; intros i gs'; cbn [normalize_stages]; [intros [= <-]; constructor|]. destruct (str_eqb _ _); [done|]. destruct (_ && _); [done|].
  intros E. apply result_bind_ok in E as (rest & E & [= <-]). constructor; [done|by eapply IH].
Qed.

Lemma Forall_stages (P : StageConfig -> Prop) i gs gs' : normalize_stages i gs = Ok gs' ->
  (forall g g', g_TerminalDeny g' = g_TerminalDeny g -> g_TerminalAllow g' = g_TerminalAllow g -> P g -> P g') -> Forall P gs -> Forall P gs'.
Proof. intros E%normalize_stages_ok Hp. induction E as [|g g' gs gs' (_ & _ & E1 & E2) _ IH]; intros Hg; [done|]. apply Forall_cons in Hg as [? ?]. constructor; eauto. Qed.

Lemma Pipeline_Normalize_stages cfg cfg' : Pipeline_Normalize cfg = Ok cfg' ->
  normalize_stages 0 (if len (p_Stages cfg) =? 0 then p_Stages DefaultPipelineConfig else p_Stages cfg) = Ok (p_Stages cfg').
Proof.
  unfold Pipeline_Normalize. destruct (negb _); [done|]. intros E. apply result_bind_ok in E as (node & _ & E). apply result_bind_ok in E as (stages & E & [= <-]). cbn [p_Stages].
  rewrite <- E. by destruct (_ =? 0).
Qed.

End Stages.

End Conditions.

End Order.
End RulesProofs.
