(* ===== verification/RulesClaims.v ===== *)
(** * The policy engine: what evaluation guarantees

    The first rule that matches decides, whatever the order in which maps are
    visited; normal forms decide alike; a registered
    rule set is the one evaluated; a staged policy permits only what every
    evaluated rule file permits; and an event's own facts cannot be replaced. *)

From S2P Require Import Prelude GoStrings GoFs AuthProof PubSub SessionEventsProofs Rules RulesPipeline RulesProofs.

Module RulesClaims.
Import GoStrings GoFs AuthProof PubSub Rules RulesPipeline RulesProofs.

(** ** An engine for examples: literal patterns, no numbers and no addresses *)

#[local] Existing Instance latin1_tables.

#[local] Instance literal_matchers : Matchers := {|
  path_Match pattern name := Some (str_eqb pattern name);
  regexp_MatchString pattern s := Some (Contains s pattern);
  float := Empty_set;
  ParseFloat _ := None;
  float_lt _ _ := false;
  float_le _ _ := false;
  addr := Empty_set;
  ParseIP _ := None;
  network := Empty_set;
  ParseCIDR _ := None;
  net_Contains _ _ := false
|}.

#[local] Instance key_order : MapOrder := {| range_map _ m := map_to_list m |}.
#[local] Instance key_order_laws : MapOrderLaws.
Proof. by split. Qed.

Definition when (field op value : string) : Condition := mkCondition [] [] None (str field) (str op) (str value) [].
Definition rule (id : string) (c : Condition) (action : string) : Rule := mkRule (str id) [] c (str action) [] ∅ [] [].

(** Guests are refused, admins admitted; the rest is refused by default. *)
Definition door : RuleSet := mkRuleSet [] [] [rule " guests " (when "role" "eq" "guest") "Deny"; rule "admins" (when "role" "in" "admin, root") "ALLOW"].
Definition door_normal : RuleSet := default (mkRuleSet [] [] []) (match Normalize [] door with Ok rs => Some rs | Err _ => None end).
Definition visitor (role : string) : Input := mkInput (str "gate") {[str "role" := str role]}.

Section Claims.
Context `{UnicodeTables} `{Matchers} `{MapOrder} `{!MapOrderLaws}.

(** C28: evaluation is by first match, and by default if none matches.  Whatever
    the order in which the loops of one evaluation visit their maps, a rule set
    decides [d] exactly if its normal form has a first rule that is not false on
    the normalised input, that rule matches, and [d] is its decision, or if
    every rule is false and [d] is the default decision; evaluation fails exactly
    if the rule set is malformed or the first rule that is not false is an error.
    What a condition says of the normalised input never depends on the order,
    and is what it says of the input itself unless two of the input's keys are
    equal up to spaces.  The action of a decision is one of the six, and it
    permits unless it is deny or drop. *)
Theorem rules_first_match t rs input : let j := Normalized (1%nat :: t) input in
  (forall d, Evaluate t rs input = Ok d <->
    exists rs', Normalize (0%nat :: t) rs = Ok rs' /\
      ((exists before r after, s_Rules rs' = before ++ r :: after /\ Forall (fun q => says (u_When q) j (Ok false)) before /\
          says (u_When r) j (Ok true) /\ d = decision r j) \/
       (Forall (fun q => says (u_When q) j (Ok false)) (s_Rules rs') /\ d = default_decision (s_DefaultAction rs') j))) /\
  (forall e, Evaluate t rs input = Err e <->
    Normalize (0%nat :: t) rs = Err e \/
    exists rs' before r after c, Normalize (0%nat :: t) rs = Ok rs' /\ s_Rules rs' = before ++ r :: after /\ Forall (fun q => says (u_When q) j (Ok false)) before /\
      says (u_When r) j (Err c) /\ e = ErrEvaluation (u_ID r) c) /\
  (forall c, exists r, says c j r /\ (apart (i_Facts input) -> says c input r)) /\
  (forall d, Evaluate t rs input = Ok d -> d_Action d ∈ Actions /\ d_Allowed d = negb (str_eqb (d_Action d) ActionDeny || str_eqb (d_Action d) ActionDrop)).
Proof.
  intros j. split; [|split; [|split]].
  - intros d. unfold Evaluate. destruct (Normalize (0%nat :: t) rs) as [rs'|e]; cbn [result_bind].
    + rewrite first_match_ok. split; [intros Hd; by exists rs'|]. by intros (? & [= <-] & Hd).
    + split; [done|]. by intros (? & ? & _).
  - intros e. unfold Evaluate. destruct (Normalize (0%nat :: t) rs) as [rs'|e']; cbn [result_bind].
    + rewrite first_match_err. split; [intros (b & r & a & c & Hd); right; by exists rs', b, r, a, c|].
      intros [|(? & b & r & a & c & [= <-] & Hd)]; [done|]. by exists b, r, a, c.
    + split; [intros [= <-]; by left|]. intros [[= ->]|(? & b & r & a & c & ? & _)]; done.
  - intros c. exists (Match [] c j). split; [intros u; apply Match_normal_form|]. intros Hi u. symmetry. by apply Match_normalized.
  - intros d [Hv ->]%Evaluate_decided. split; [by apply contains_In|by apply allowed_action].
Qed.

(** Normal forms decide alike.  Normalising a rule set or an input twice, in
    whatever orders its maps are visited, is normalising it once; the normal
    form of a rule set evaluates as the rule set it came from, and evaluation is
    deterministic, on every input no two of whose keys are equal up to spaces,
    the rule set's own fields being free of such pairs as well where it is not
    in normal form. *)
Theorem rules_normal_form t rs rs' : Normalize (0%nat :: t) rs = Ok rs' ->
  (forall u, Normalize u rs' = Ok rs') /\ (forall u v i, Normalized u (Normalized v i) = Normalized v i) /\
  forall u i, apart (i_Facts i) ->
    Evaluate u rs' i = Evaluate t rs i /\ Evaluate u rs' (Normalized t i) = Evaluate t rs i /\
    (rules_apart rs -> Evaluate u rs i = Evaluate t rs i).
Proof.
  intros E. split; [by apply Normalize_idemp in E as [? _]|]. split; [intros; apply Normalized_idemp|]. intros u i Hi.
  split; [by apply Evaluate_normal|]. split; [|intros Hr; by apply Evaluate_apart].
  rewrite <- (Evaluate_normal t u rs rs' i E Hi). unfold Evaluate. by rewrite Normalized_idemp, (Normalized_apart (1%nat :: u) t i Hi).
Qed.

(** The registry evaluates what was put into it.  A put replaces the rule set
    under its trimmed name, or under the default name if that is empty, and
    leaves every other one as it was; a registration does the same but never
    replaces; after either, the name evaluates as the normal form of the rule
    set given; and after a removal it evaluates to "not found". *)
Theorem registry_roundtrip t a name rs :
  (forall b, Put t (Some a) name rs = (None, b) \/ Register t (Some a) name rs = (None, b) ->
    DefaultName b = DefaultName (Some a) /\
    (exists rs', Normalize t rs = Ok rs' /\ forall u i, EvaluateNamed u b name i = Evaluate u rs' i) /\
    (forall n, rule_set_name a n <> rule_set_name a name -> RuleSet_ b n = RuleSet_ (Some a) n) /\
    (Register t (Some a) name rs = (None, b) -> RuleSet_ (Some a) name = None)) /\
  (forall b, Remove (Some a) name = (true, b) ->
    (forall u i, EvaluateNamed u b name i = Err ErrRuleSetNotFound) /\ (forall n, rule_set_name a n <> rule_set_name a name -> RuleSet_ b n = RuleSet_ (Some a) n)).
Proof.
  split.
  - intros b Hb. assert (exists rs', Normalize t rs = Ok rs' /\ b = Some (mkAPI (a_defaultName a) (<[rule_set_name a name := rs']> (a_rulesets a)))) as (rs' & En & ->).
    { unfold Put, Register in Hb. destruct (Normalize t rs) as [rs'|]; [|by destruct Hb]. exists rs'. split; [done|]. destruct (a_rulesets a !! _); destruct Hb as [[= <-]|[= <-]]; done. }
    split; [done|]. split; [|split].
    + exists rs'. split; [done|]. intros u i. cbn. by rewrite (lookup_insert_eq (a_rulesets a)).
    + intros n Hn. cbn. by rewrite lookup_insert_ne by (by apply not_eq_sym).
    + unfold Register. rewrite En. cbn. by destruct (a_rulesets a !! _).
  - intros b. unfold Remove. destruct (a_rulesets a !! rule_set_name a name); [|done]. intros [= <-]. split.
    + intros u i. cbn. by rewrite (lookup_delete_eq (a_rulesets a)).
    + intros n Hn. cbn. by rewrite lookup_delete_ne by (by apply not_eq_sym).
Qed.

(** C30: An infrastructure event's own facts stand.  Whatever extra fields an
    event carries and in whatever orders they are visited, every fact the event
    itself has (its kind, operation, path, origin and so on, and the topic) is in the
    input with the event's value. *)
Theorem event_facts_stand t u topic event k v :
  event_facts topic (infra_normalized u event) !! k = Some v -> i_Facts (NewInfrastructureInput t topic event) !! k = Some v.
Proof. apply NewInfrastructureInput_facts. Qed.

Section Staged.
Context `{PolicyHost}.

(** C29: a staged policy permits only by agreement.  If no stage lets evaluation
    go on after a refusal, then a pipeline that returns without error permits
    exactly if some rule file was evaluated and every one evaluated permits;
    each decision comes from a file that passed the file checks.  If moreover no
    stage ends the evaluation with its consent, then a permission means that
    every required stage was asked. *)
Theorem pipeline_consensus t cfg input pd :
  Pipeline_Evaluate t cfg input = (pd, None) -> Forall refusal_final (p_Stages cfg) ->
  (pd_Allowed pd = true <-> decisions pd <> [] /\ Forall (fun d => d_Allowed d = true) (decisions pd)) /\
  Forall accounted (pd_Stages pd) /\
  (Forall consent_continues (p_Stages cfg) -> pd_Allowed pd = true ->
    forall g, g ∈ p_Stages cfg -> g_Required g = true -> exists sd, sd ∈ pd_Stages pd /\ sd_Stage sd = TrimSpace (g_Name g) /\ is_Some (sd_Decision sd)).
Proof.
  unfold Pipeline_Evaluate. destruct (Pipeline_Normalize cfg) as [cfg'|] eqn:En; [|done]. set (i := Normalized _ _). set (start := mkLoop i _ false None). intros E Hg.
  pose proof (Pipeline_Normalize_stages _ _ En) as Hn.
  assert (stages_ok start) as Hstart by (by constructor).
  assert (Forall refusal_final (p_Stages cfg')) as Hg'.
  { apply (Forall_stages _ _ _ _ Hn); [by intros g g' Eg _; unfold refusal_final; rewrite Eg|]. destruct (_ =? 0); [by repeat constructor|done]. }
  pose proof (eval_stages_ok (2%nat :: t) (p_NodeID cfg') _ _ Hg' Hstart) as Hs. set (s := eval_stages _ _ _ start) in *. pose proof Hs as [Ha He Hl].
  assert (forall d, ls_stop s <> Some (Some d)) as Hne by (intros d Hd; rewrite Hd in E; by inversion E).
  destruct (ls_evaluated s) eqn:Ev.
  - assert (pd = ls_decision s) as -> by (destruct (ls_stop s); by inversion E). destruct (Hl eq_refl) as (ds & d & Ed & Hds & Hal & _ & _). split; [|split; [done|]].
    + rewrite Ed, Hal, Forall_app, Forall_singleton. split; [intros ?; split; [by destruct ds|done]|by intros (_ & _ & ?)].
    + intros Hc Hallow g Hin Hr.
      assert (Forall consent_continues (p_Stages cfg')) as Hc'.
      { apply (Forall_stages _ _ _ _ Hn); [by intros g0 g' _ Eg; unfold consent_continues; rewrite Eg|]. destruct (_ =? 0); [by repeat constructor|done]. }
      pose proof (eval_stages_refuse (2%nat :: t) (p_NodeID cfg') _ start Hg' Hc' ltac:(done)) as Hst. fold s in Hst. unfold stop_refuses in Hst.
      assert (ls_stop s = None) as Hnone by (destruct (ls_stop s) as [[e|]|]; [by destruct (Hne e)|by rewrite (Hst eq_refl) in Hallow|done]).
      apply normalize_stages_ok in Hn. replace (len (p_Stages cfg) =? 0) with false in Hn by (symmetry; apply Z.eqb_neq; destruct (p_Stages cfg); [set_solver|unfold len; cbn; lia]).
      apply list_elem_of_lookup in Hin as [k Hk]. destruct (Forall2_lookup_l _ _ _ _ _ Hn Hk) as (g' & Hk' & <- & Er & _).
      apply (eval_stages_cover _ _ _ _ Hnone g'); [by eapply list_elem_of_lookup_2|congruence].
  - destruct (He eq_refl) as [Ed Hns]. assert (ls_stop s = None) as Hnone by (destruct (ls_stop s) as [[e|]|]; [by destruct (Hne e)|done|done]).
    rewrite Hnone in E. injection E as <-. cbn [pd_Allowed pd_Stages]. split; [|by split]. unfold decisions in *. cbn [pd_Stages]. rewrite Ed. split; [done|by intros [? _]].
Qed.

End Staged.
End Claims.

(** ** Examples *)

Definition decided (role : string) : Decision := match Evaluate [] door (visitor role) with Ok d => d | Err _ => default_decision [] (visitor role) end.

Lemma rules_first_match_witness :
  Evaluate [] door (visitor "root") = Ok (decided "root") /\ d_RuleID (decided "root") = str "admins" /\ d_Action (decided "root") ∈ Actions /\
  d_Allowed (decided "root") = negb (str_eqb (d_Action (decided "root")) ActionDeny || str_eqb (d_Action (decided "root")) ActionDrop).
Proof.
  assert (Evaluate [] door (visitor "root") = Ok (decided "root")) as E by (vm_compute; reflexivity). split; [exact E|]. split; [vm_compute; reflexivity|].
  exact (proj2 (proj2 (proj2 (rules_first_match [] door (visitor "root")))) _ E).
Defined.

Lemma visitor_apart role : apart (i_Facts (visitor role)).
Proof. unfold visitor. cbn [i_Facts]. intros k k' v v' [<- _]%lookup_singleton_Some [<- _]%lookup_singleton_Some. done. Qed.

Lemma rules_normal_form_witness : Normalize [0%nat] door = Ok door_normal /\ Evaluate [7%nat] door_normal (visitor " guest") = Evaluate [] door (visitor " guest").
Proof.
  assert (Normalize [0%nat] door = Ok door_normal) as E by (vm_compute; reflexivity). split; [exact E|].
  exact (proj1 (proj2 (proj2 (rules_normal_form [] door door_normal E)) [7%nat] (visitor " guest") (visitor_apart _))).
Defined.

Definition empty_api : API := mkAPI DefaultRuleSetName ∅.
Definition door_api : API := mkAPI DefaultRuleSetName {[str "door" := door_normal]}.

Lemma registry_roundtrip_witness : Put [] (Some empty_api) (str " door") door = (None, Some door_api) /\
  exists rs', Normalize [] door = Ok rs' /\ forall u i, EvaluateNamed u (Some door_api) (str " door") i = Evaluate u rs' i.
Proof.
  assert (Put [] (Some empty_api) (str " door") door = (None, Some door_api)) as E by (vm_compute; reflexivity). split; [exact E|].
  exact (proj1 (proj2 (proj1 (registry_roundtrip [] empty_api (str " door") door) _ (or_introl E)))).
Defined.

(** A write to a path, with fields that claim another path and operation. *)
Definition forged : InfrastructureEvent :=
  mkInfra [] [] (str "write") (str "/etc/passwd") [] [] [] [] [] [] 7 0 false {[str "file.path" := str "/tmp/x"; str " infra.operation" := str "read"; str "user" := str "eve"]}.

Lemma event_facts_stand_witness :
  event_facts (str "fs") (infra_normalized [] forged) !! str "file.path" = Some (str "/etc/passwd") /\ i_Facts (NewInfrastructureInput [] (str "fs") forged) !! str "file.path" = Some (str "/etc/passwd").
Proof.
  assert (event_facts (str "fs") (infra_normalized [] forged) !! str "file.path" = Some (str "/etc/passwd")) as E by (vm_compute; reflexivity).
  split; [exact E|exact (event_facts_stand [] [] _ _ _ _ E)].
Defined.

(** Two rule files: the system's admits admins, the user's tags every event. *)
Definition tagging : RuleSet := mkRuleSet [] [] [rule "tag" (mkCondition [] [] None [] [] [] []) "tag"].
#[local] Instance two_files : PolicyHost := {|
  ExpandEnv p := p;
  UserHomeDir := Some (str "/home/u");
  Glob _ := Ok [];
  os_Stat p := if contains [str "/etc/weaverssh/rules.json"; str "/home/u/r.json"] p then StatFile else StatMissing;
  lstat_policy _ := Ok (mkPolicyInfo false 420 (Some true));
  abs_path p := p;
  decode_rules p := if str_eqb p (str "/home/u/r.json") then Ok tagging else Ok door
|}.
Definition two_stages : PipelineConfig :=
  mkPipeline [] [] [mkStage (str "system") true None None [str "/etc/weaverssh/rules.json"]; mkStage (str "user ") true None None [str "~/r.json"]].
Definition staged (role : string) : PipelineDecision := (Pipeline_Evaluate [] two_stages (visitor role)).1.

Lemma pipeline_consensus_witness :
  Pipeline_Evaluate [] two_stages (visitor "admin") = (staged "admin", None) /\ pd_Allowed (staged "admin") = true /\
  exists sd, sd ∈ pd_Stages (staged "admin") /\ sd_Stage sd = str "user" /\ is_Some (sd_Decision sd).
Proof.
  assert (Pipeline_Evaluate [] two_stages (visitor "admin") = (staged "admin", None)) as E by (vm_compute; reflexivity).
  assert (pd_Allowed (staged "admin") = true) as Ea by (vm_compute; reflexivity). split; [exact E|]. split; [exact Ea|].
  destruct (pipeline_consensus [] two_stages (visitor "admin") _ E) as (_ & _ & Hr); [repeat constructor; discriminate|].
  exact (Hr ltac:(repeat constructor; discriminate) Ea (mkStage (str "user ") true None None [str "~/r.json"]) ltac:(right; left) eq_refl).
Defined.

(** ** Observations *)

(** The engine's topic filters mean what the bus's mean. *)
Lemma match_parts_levels fp tp : match_parts fp tp = match_levels fp tp.
Proof.
  revert tp. induction fp as [|p fp IH]; intros tp; cbn [match_parts match_levels]; [done|]. change (str "#") with hash. change (str "+") with plus. destruct (str_eqb p hash); [done|].
  destruct tp as [|t tp]; [done|]. destruct (str_eqb p plus); [apply IH|]. destruct (str_eqb p t); [apply IH|done].
Qed.
Lemma topic_filters_agree filter topic :
  topicMatches filter topic = negb (str_eqb (TrimSpace filter) []) && negb (str_eqb (TrimSpace topic) []) && TopicMatches (TrimSpace filter) (TrimSpace topic).
Proof.
  unfold topicMatches, TopicMatches. destruct (str_eqb_spec (TrimSpace filter) []) as [|Hf]; [done|]. destruct (str_eqb_spec (TrimSpace topic) []) as [|Ht]; [done|].
  cbn [orb negb andb]. by rewrite match_parts_levels, !splitTopic_eq.
Qed.

(** The order of the keys decides where two keys differ only in their spaces:
    the same rule set, asked twice, admits and refuses the same input. *)
Definition moody_order : MapOrder := {| range_map t m := match t with _ :: 1%nat :: _ => rev (map_to_list m) | _ => map_to_list m end |}.
Lemma moody_order_laws : @MapOrderLaws moody_order.
Proof. split. intros [|a [|[|[|n]] t]] m; cbn; try done. symmetry. apply Permutation_rev. Qed.

Definition two_faced : Input := mkInput [] {[str "role" := str "admin"; str " role" := str "guest"]}.
Definition admitted (t : occasion) : bool := match @Evaluate latin1_tables literal_matchers moody_order t door two_faced with Ok d => d_Allowed d | Err _ => false end.
Lemma key_order_decides : admitted [0%nat] <> admitted [1%nat].
Proof. vm_compute. discriminate. Qed.

(** The placeholder [${node}] is read as [{node}] with a dollar sign before it. *)
Lemma dollar_node_not_replaced : expandRulePathForNode (str "/etc/w/${node}/rules.json") (str "n1") = str "/etc/w/$n1/rules.json".
Proof. vm_compute. reflexivity. Qed.

(** A configuration without stages loses its node. *)
Lemma default_stages_lose_node cfg cfg' : p_Stages cfg = [] -> Pipeline_Normalize cfg = Ok cfg' -> p_NodeID cfg' = [].
Proof.
  intros E. unfold Pipeline_Normalize. rewrite E. cbn [len length Z.of_nat Z.eqb]. destruct (negb _); [done|]. intros Hn. apply result_bind_ok in Hn as (node & _ & Hn).
  apply result_bind_ok in Hn as (stages & _ & [= <-]). reflexivity.
Qed.

End RulesClaims.
