(* ===== verification/Mqtt.v ===== *)
(** * MQTT (pubsub/mqtt.go, pubsub/broker.go)

    The packet codec shared by client and broker, the packets the client
    builds, and the broker's handling of each packet: connect, subscribe,
    publish and ping. A connection is the bytes written to it; a write to it
    may fail after some of its bytes went out. Dialling, TLS and broker
    addresses are not modelled. *)

From S2P Require Import Prelude GoStrings PubSub.

Module Mqtt.
Import GoStrings PubSub.

Definition mqttConnect : Z := 1.
Definition mqttConnAck : Z := 2.
Definition mqttPublish : Z := 3.
Definition mqttSubscribe : Z := 8.
Definition mqttSubAck : Z := 9.
Definition mqttPingReq : Z := 12.
Definition mqttPingResp : Z := 13.
Definition mqttDisconnect : Z := 14.
Definition mqttProtocolName : bytes := str "MQTT".

Inductive mqtt_error : Type :=
| ErrEOF
| ErrUnexpectedEOF
| ErrMalformedLength
| ErrQoS (qos : Z)
| ErrUnsupportedConnect
| ErrTrailing
| ErrNoFilters
| ErrBadTopic (e : pub_error).

(** ** Fields *)

Definition appendUTF8 (dst value : bytes) : bytes :=
  let value := if 65535 <? len value then take (Z.to_nat 65535) value else value in
  dst ++ [u8 (Z.shiftr (len value) 8); u8 (len value)] ++ value.

Definition readUTF8 (buf : bytes) : result mqtt_error (bytes * bytes) :=
  if len buf <? 2 then Err ErrUnexpectedEOF else
  let n := be_get (take 2 buf) in
  let buf := drop 2 buf in
  if len buf <? n then Err ErrUnexpectedEOF else Ok (take (Z.to_nat n) buf, drop (Z.to_nat n) buf).

(** Base 128, least significant digit first; an [int] has at most nine digits. *)
Fixpoint encode_digits (fuel : nat) (n : Z) : bytes :=
  match fuel with
  | O => []
  | S fuel =>
    let digit := u8 (n mod 128) in
    let n := n / 128 in
    if 0 <? n then Z.lor digit 128 :: encode_digits fuel n else [digit]
  end.
Definition encodeRemainingLength (n : Z) : bytes := encode_digits 9 n.

Fixpoint read_digits (i : nat) (multiplier value : Z) (inp : bytes) : result mqtt_error (Z * bytes) :=
  match i with
  | O => Err ErrMalformedLength
  | S i =>
    match inp with
    | [] => Err ErrEOF
    | digit :: rest =>
      let value := value + Z.land digit 127 * multiplier in
      if Z.land digit 128 =? 0 then Ok (value, rest) else read_digits i (multiplier * 128) value rest
    end
  end.
Definition readRemainingLength (inp : bytes) : result mqtt_error (Z * bytes) := read_digits 4 1 0 inp.

(** ** Packets *)

Definition writeMQTTPacket (packetType flags : Z) (payload : bytes) : bytes :=
  u8 (Z.lor (Z.shiftl packetType 4) flags) :: encodeRemainingLength (len payload) ++ payload.

Record packet := mkPacket {
  p_type : Z;
  p_flags : Z;
  p_payload : bytes
}.

Definition readMQTTPacket (inp : bytes) : result mqtt_error (packet * bytes) :=
  match inp with
  | [] => Err ErrEOF
  | header :: rest =>
    let* '(remaining, rest) := readRemainingLength rest in
    if len rest <? remaining then Err (if len rest =? 0 then ErrEOF else ErrUnexpectedEOF) else
    Ok (mkPacket (Z.shiftr header 4) (Z.land header 15) (take (Z.to_nat remaining) rest), drop (Z.to_nat remaining) rest)
  end.

Definition decodePublish (flags : Z) (payload : bytes) : result mqtt_error Message :=
  let qos := Z.land (Z.shiftr flags 1) 3 in
  if negb (qos =? 0) then Err (ErrQoS qos) else
  let* '(topic, rest) := readUTF8 payload in
  Ok (mkMessage topic rest).

(** ** The client's packets *)

Record MQTTConfig := mkMQTTConfig {
  ClientID : bytes;
  Username : bytes;
  Password : bytes;
  KeepAlive : Z
}.

(** The body [connect] sends; [KeepAlive] is the interval in whole seconds. *)
Definition connect_body (cfg : MQTTConfig) : bytes :=
  let keepAlive := u16 (KeepAlive cfg) in
  let keepAlive := if keepAlive =? 0 then 30 else keepAlive in
  let flags := 2 in
  let flags := if len (Username cfg) =? 0 then flags else Z.lor flags 128 in
  let flags := if len (Password cfg) =? 0 then flags else Z.lor flags 64 in
  let body := appendUTF8 [] mqttProtocolName in
  let body := body ++ [4; flags; u8 (Z.shiftr keepAlive 8); u8 keepAlive] in
  let body := appendUTF8 body (ClientID cfg) in
  let body := if len (Username cfg) =? 0 then body else appendUTF8 body (Username cfg) in
  if len (Password cfg) =? 0 then body else appendUTF8 body (Password cfg).

Definition subscribe_body (pktID : Z) (filter : bytes) : bytes :=
  let id := u16 pktID in
  let id := if id =? 0 then 1 else id in
  appendUTF8 [u8 (Z.shiftr id 8); u8 id] filter ++ [0].

Definition publish_body (topic payload : bytes) : bytes := appendUTF8 [] topic ++ payload.

(** [Publish] of client and bus refuse bad topics before anything is sent. *)
Definition client_Publish (topic payload : bytes) : result mqtt_error bytes :=
  match ValidatePublishTopic topic with
  | Some e => Err (ErrBadTopic e)
  | None => Ok (writeMQTTPacket mqttPublish 0 (publish_body topic payload))
  end.

(** ** The broker *)

Record client := mkClient {
  id_ : bytes;
  subscriptions : gset bytes;
  sent : bytes
}.
(** The connected clients by connection. *)
Abbreviation broker := (gmap Z client).

Definition addClient (b : broker) (conn : Z) : broker := <[conn := mkClient [] ∅ []]> b.
Definition removeClient (b : broker) (conn : Z) : broker := delete conn b.

Definition matches (c : client) (topic : bytes) : bool :=
  existsb (fun f => TopicMatches f topic) (elements (subscriptions c)).

Definition send (c : client) (data : bytes) : client := mkClient (id_ c) (subscriptions c) (sent c ++ data).

(** A write on a connection that fails after [Some n] bytes. *)
Definition write (fails : option nat) (c : client) (data : bytes) : client :=
  send c (match fails with None => data | Some n => take n data end).

(** [publish] goes on after a client whose connection fails. *)
Definition publish (b : broker) (fails : Z -> option nat) (msg : Message) : broker :=
  map_imap (fun conn c => Some (
    if matches c (Topic msg)
    then write (fails conn) c (writeMQTTPacket mqttPublish 0 (publish_body (Topic msg) (PubSub.Payload msg))) else c)) b.

Definition skip_field (flag : Z) (flags : Z) (rest : bytes) : result mqtt_error bytes :=
  if Z.land flags flag =? 0 then Ok rest else let* '(_, rest) := readUTF8 rest in Ok rest.

(** [handleConnect] up to its acknowledgement: the client identifier. *)
Definition handleConnect (payload : bytes) : result mqtt_error bytes :=
  let* '(protocol, rest) := readUTF8 payload in
  if negb (str_eqb protocol mqttProtocolName) || (len rest <? 4) || negb (nth 0 rest 0 =? 4) then Err ErrUnsupportedConnect else
  let connectFlags := nth 1 rest 0 in
  let* '(clientID, rest) := readUTF8 (drop 4 rest) in
  let* rest := skip_field 128 connectFlags rest in
  let* rest := skip_field 64 connectFlags rest in
  if negb (len rest =? 0) then Err ErrTrailing else Ok clientID.

(** The filters of a SUBSCRIBE; each takes at least three bytes. *)
Fixpoint read_filters (fuel : nat) (rest : bytes) : result mqtt_error (list bytes) :=
  if len rest =? 0 then Ok [] else
  match fuel with
  | O => Err ErrUnexpectedEOF
  | S fuel =>
    let* '(filter, next) := readUTF8 rest in
    if len next <? 1 then Err ErrUnexpectedEOF else
    match ValidateSubscribeTopic filter with
    | Some e => Err (ErrBadTopic e)
    | None => let* filters := read_filters fuel (drop 1 next) in Ok (filter :: filters)
    end
  end.

Definition handleSubscribe (payload : bytes) : result mqtt_error (list bytes * bytes) :=
  if len payload <? 3 then Err ErrUnexpectedEOF else
  let packetID := be_get (take 2 payload) in
  let* filters := read_filters (length payload) (drop 2 payload) in
  if len filters =? 0 then Err ErrNoFilters else
  Ok (filters, [u8 (Z.shiftr packetID 8); u8 packetID] ++ ((fun _ => 0) <$> filters)).

(** One turn of [serve] for the packet [p] of [conn]; a return closes it. *)
Definition serve_packet (b : broker) (fails : Z -> option nat) (conn : Z) (p : packet) : broker :=
  match b !! conn with
  | None => b
  | Some c =>
    let reply c data := match fails conn with Some _ => removeClient b conn | None => <[conn := send c data]> b end in
    if p_type p =? mqttConnect then
      match handleConnect (p_payload p) with
      | Err _ => removeClient b conn
      | Ok clientID => reply (mkClient clientID (subscriptions c) (sent c)) (writeMQTTPacket mqttConnAck 0 [0; 0])
      end
    else if p_type p =? mqttPublish then
      match decodePublish (p_flags p) (p_payload p) with
      | Err _ => removeClient b conn
      | Ok msg => publish b fails msg
      end
    else if p_type p =? mqttSubscribe then
      match handleSubscribe (p_payload p) with
      | Err _ => removeClient b conn
      | Ok (filters, ack) =>
          reply (mkClient (id_ c) (subscriptions c ∪ list_to_set filters) (sent c)) (writeMQTTPacket mqttSubAck 0 ack)
      end
    else if p_type p =? mqttPingReq then reply c (writeMQTTPacket mqttPingResp 0 [])
    else removeClient b conn
  end.

(** ** Proofs *)

(** Facts about single bytes, by enumeration. *)
Lemma byte_cases (P : Z -> bool) (n : nat) : forallb (fun k => P (Z.of_nat k)) (seq 0 n) = true ->
  forall z, 0 <= z < Z.of_nat n -> P z = true.
Proof.
  intros Hall z Hz. rewrite forallb_forall in Hall. specialize (Hall (Z.to_nat z)).
  rewrite Z2Nat.id in Hall by lia. apply Hall. apply in_seq. lia.
Qed.

Lemma digit_low d : 0 <= d < 128 -> Z.land d 127 = d /\ Z.land d 128 = 0.
Proof.
  intros Hd. assert ((Z.land d 127 =? d) && (Z.land d 128 =? 0) = true) as H
    by (apply (byte_cases (fun d => (Z.land d 127 =? d) && (Z.land d 128 =? 0)) 128); [by vm_compute|lia]).
  lia.
Qed.

Lemma digit_high d : 0 <= d < 128 -> Z.land (Z.lor d 128) 127 = d /\ Z.land (Z.lor d 128) 128 = 128.
Proof.
  intros Hd. assert ((Z.land (Z.lor d 128) 127 =? d) && (Z.land (Z.lor d 128) 128 =? 128) = true) as H
    by (apply (byte_cases (fun d => (Z.land (Z.lor d 128) 127 =? d) && (Z.land (Z.lor d 128) 128 =? 128)) 128); [by vm_compute|lia]).
  lia.
Qed.

Lemma header_bits t f : 0 <= t < 16 -> 0 <= f < 16 ->
  Z.shiftr (u8 (Z.lor (Z.shiftl t 4) f)) 4 = t /\ Z.land (u8 (Z.lor (Z.shiftl t 4) f)) 15 = f.
Proof.
  intros Ht Hf.
  pose (P t f := (Z.shiftr (u8 (Z.lor (Z.shiftl t 4) f)) 4 =? t) && (Z.land (u8 (Z.lor (Z.shiftl t 4) f)) 15 =? f)).
  assert (P t f = true) as H; [|unfold P in H; lia].
  apply (byte_cases (P t) 16); [|lia].
  apply (byte_cases (fun t => forallb (fun k => P t (Z.of_nat k)) (seq 0 16)) 16); [by vm_compute|lia].
Qed.

Lemma read_digits_encoded i fuel n multiplier value rest : 0 <= n < 128 ^ Z.of_nat i -> (i <= fuel)%nat -> (0 < i)%nat ->
  read_digits i multiplier value (encode_digits fuel n ++ rest) = Ok (value + n * multiplier, rest).
Proof.
  revert fuel n multiplier value. induction i as [|i IH]; intros fuel n multiplier value Hn Hf Hi; [lia|].
  destruct fuel as [|fuel]; [lia|]. cbn [encode_digits].
  assert (0 <= n mod 128 < 128) as Hd by (apply Z.mod_pos_bound; lia). pose proof (Z.div_mod n 128 ltac:(lia)) as Hdm.
  assert (u8 (n mod 128) = n mod 128) as -> by (apply Z.mod_small; lia).
  destruct (Z.ltb_spec 0 (n / 128)) as [Hpos|Hzero]; cbn [app read_digits].
  - destruct (digit_high _ Hd) as [-> ->]. cbn [Z.eqb]. change (128 =? 0) with false. cbv iota.
    rewrite Nat2Z.inj_succ, Z.pow_succ_r in Hn by lia.
    assert (n / 128 < 128 ^ Z.of_nat i) as Hlt by (apply Z.div_lt_upper_bound; lia).
    destruct i as [|i]; [change (128 ^ Z.of_nat 0) with 1 in Hlt; lia|].
    rewrite IH by lia. f_equal. f_equal. rewrite Hdm at 3. ring.
  - destruct (digit_low _ Hd) as [-> ->]. rewrite Z.eqb_refl. f_equal. f_equal. f_equal. f_equal.
    assert (0 <= n / 128) by (apply Z.div_pos; lia). lia.
Qed.

Lemma read_digits_overlong i fuel n multiplier value rest : 128 ^ Z.of_nat i <= n -> (i < fuel)%nat ->
  read_digits i multiplier value (encode_digits fuel n ++ rest) = Err ErrMalformedLength.
Proof.
  revert fuel n multiplier value. induction i as [|i IH]; intros fuel n multiplier value Hn Hf; [done|].
  destruct fuel as [|fuel]; [lia|]. cbn [encode_digits].
  assert (0 <= n mod 128 < 128) as Hd by (apply Z.mod_pos_bound; lia).
  assert (u8 (n mod 128) = n mod 128) as -> by (apply Z.mod_small; lia).
  rewrite Nat2Z.inj_succ, Z.pow_succ_r in Hn by lia.
  assert (128 ^ Z.of_nat i <= n / 128) as Hle by (apply Z.div_le_lower_bound; lia).
  assert (0 < 128 ^ Z.of_nat i) by lia. replace (0 <? n / 128) with true by lia. cbn [app read_digits].
  destruct (digit_high _ Hd) as [-> ->]. change (128 =? 0) with false. cbv iota. apply IH; lia.
Qed.

Lemma be_two n : [u8 (Z.shiftr n 8); u8 n] = be_put 2 n.
Proof. reflexivity. Qed.

(** A field of at most 65535 bytes is read back whole. *)
Lemma readUTF8_append value rest : len value <= 65535 -> readUTF8 (appendUTF8 [] value ++ rest) = Ok (value, rest).
Proof.
  intros Hl. unfold appendUTF8. replace (65535 <? len value) with false by lia. rewrite be_two, app_nil_l, <- app_assoc.
  unfold readUTF8. pose proof (be_put_length 2 (len value)) as Hp. pose proof (len_nonneg value). pose proof (len_nonneg rest).
  replace (len (be_put 2 (len value) ++ value ++ rest) <? 2) with false
    by (symmetry; apply Z.ltb_ge; rewrite !len_app; unfold len at 1; rewrite Hp; lia).
  rewrite take_app_length', drop_app_length' by done. rewrite be_get_put. change (2 ^ (8 * Z.of_nat 2)) with 65536.
  rewrite Z.mod_small by lia. replace (len (value ++ rest) <? len value) with false by (rewrite len_app; lia).
  rewrite take_app_length', drop_app_length' by (unfold len; lia). done.
Qed.

Lemma appendUTF8_app dst value : appendUTF8 dst value = dst ++ appendUTF8 [] value.
Proof. reflexivity. Qed.

Lemma readUTF8_bound buf value rest : bytes_ok buf -> readUTF8 buf = Ok (value, rest) ->
  len value <= 65535 /\ len buf = 2 + len value + len rest.
Proof.
  intros Hb. unfold readUTF8. destruct (Z.ltb_spec (len buf) 2); [done|].
  pose proof (be_get_bound (take 2 buf) ltac:(by apply Forall_take)) as Hg. rewrite len_take in Hg.
  replace (Z.min (Z.of_nat 2) (len buf)) with 2 in Hg by lia.
  destruct (Z.ltb_spec (len (drop 2 buf)) (be_get (take 2 buf))); [done|]. intros [= <- <-].
  rewrite len_take, !len_drop in *. change (256 ^ 2) with 65536 in Hg. lia.
Qed.

Lemma packet_roundtrip t f payload rest : 0 <= t < 16 -> 0 <= f < 16 -> len payload < 128 ^ 4 ->
  readMQTTPacket (writeMQTTPacket t f payload ++ rest) = Ok (mkPacket t f payload, rest).
Proof.
  intros Ht Hf Hl. unfold writeMQTTPacket, readMQTTPacket, readRemainingLength, encodeRemainingLength.
  cbn [app]. rewrite <- app_assoc, (read_digits_encoded 4 9) by (pose proof (len_nonneg payload); lia). cbn [result_bind].
  rewrite Z.add_0_l, Z.mul_1_r. replace (len (payload ++ rest) <? len payload) with false
    by (symmetry; apply Z.ltb_ge; rewrite len_app; pose proof (len_nonneg rest); lia).
  destruct (header_bits t f Ht Hf) as [-> ->]. rewrite take_app_length', drop_app_length' by (unfold len; lia). done.
Qed.

Lemma packet_overlong t f payload rest : 128 ^ 4 <= len payload ->
  readMQTTPacket (writeMQTTPacket t f payload ++ rest) = Err ErrMalformedLength.
Proof.
  intros Hl. unfold writeMQTTPacket, readMQTTPacket, readRemainingLength, encodeRemainingLength.
  cbn [app]. rewrite <- app_assoc, (read_digits_overlong 4 9) by lia. done.
Qed.

Lemma skip_field_appended flag flags value rest : len value <= 65535 ->
  (Z.land flags flag =? 0) = (len value =? 0) ->
  skip_field flag flags ((if len value =? 0 then [] else appendUTF8 [] value) ++ rest) = Ok rest.
Proof.
  intros Hl Hf. unfold skip_field. rewrite Hf. destruct (len value =? 0); [done|]. by rewrite readUTF8_append.
Qed.

Lemma connect_flags cfg :
  let flags := if len (Username cfg) =? 0 then 2 else Z.lor 2 128 in
  let flags := if len (Password cfg) =? 0 then flags else Z.lor flags 64 in
  (Z.land flags 128 =? 0) = (len (Username cfg) =? 0) /\ (Z.land flags 64 =? 0) = (len (Password cfg) =? 0).
Proof. cbv zeta. by destruct (len (Username cfg) =? 0), (len (Password cfg) =? 0). Qed.

Lemma connect_accepted cfg : len (ClientID cfg) <= 65535 -> len (Username cfg) <= 65535 -> len (Password cfg) <= 65535 ->
  handleConnect (connect_body cfg) = Ok (ClientID cfg).
Proof.
  intros Hc Hu Hp. pose proof (connect_flags cfg) as [Hfu Hfp]. cbv zeta in *. unfold connect_body. cbv zeta.
  set (flags := if len (Password cfg) =? 0 then _ else _) in *. clearbody flags.
  set (ka := if u16 (KeepAlive cfg) =? 0 then 30 else u16 (KeepAlive cfg)).
  set (head := appendUTF8 [] mqttProtocolName).
  assert (forall x : bytes, (if len (Password cfg) =? 0 then x else appendUTF8 x (Password cfg)) =
    x ++ (if len (Password cfg) =? 0 then [] else appendUTF8 [] (Password cfg)) ++ []) as ->.
  { intros x. rewrite app_nil_r. destruct (len (Password cfg) =? 0); [by rewrite app_nil_r|apply appendUTF8_app]. }
  assert (forall x : bytes, (if len (Username cfg) =? 0 then x else appendUTF8 x (Username cfg)) =
    x ++ (if len (Username cfg) =? 0 then [] else appendUTF8 [] (Username cfg))) as ->.
  { intros x. destruct (len (Username cfg) =? 0); [by rewrite app_nil_r|apply appendUTF8_app]. }
  rewrite (appendUTF8_app (head ++ _)), <- !app_assoc. unfold handleConnect, head.
  rewrite readUTF8_append by done. cbn [result_bind]. rewrite str_eqb_refl.
  replace (len _ <? 4) with false by (symmetry; apply Z.ltb_ge; rewrite len_app; unfold len; cbn; lia).
  cbn [negb orb nth app drop Z.eqb Pos.eqb]. rewrite drop_0, readUTF8_append by done. cbn [result_bind].
  rewrite (skip_field_appended _ _ (Username cfg)) by done. cbn [result_bind].
  rewrite (skip_field_appended _ _ (Password cfg)) by done. done.
Qed.

Lemma subscribe_accepted pktID filter : len filter <= 65535 -> ValidateSubscribeTopic filter = None ->
  exists id, 0 < id < 65536 /\ (0 < u16 pktID -> id = u16 pktID) /\
    handleSubscribe (subscribe_body pktID filter) = Ok ([filter], be_put 2 id ++ [0]).
Proof.
  intros Hl Hv. unfold subscribe_body. set (id := if u16 pktID =? 0 then 1 else u16 pktID).
  assert (0 < id < 65536 /\ (0 < u16 pktID -> id = u16 pktID)) as [Hid Heq].
  { unfold id. assert (0 <= u16 pktID < 65536) by (apply Z.mod_pos_bound; lia). case_match; lia. }
  exists id. split; [done|]. split; [done|]. clearbody id. cbv zeta.
  rewrite appendUTF8_app, be_two, <- app_assoc. unfold handleSubscribe.
  replace (len _ <? 3) with false; cycle 1.
  { symmetry. apply Z.ltb_ge. rewrite !len_app. unfold len at 1. rewrite be_put_length. change (len [0]) with 1. pose proof (len_nonneg (appendUTF8 [] filter)). lia. }
  rewrite take_app_length', drop_app_length' by (by rewrite be_put_length).
  rewrite be_get_put, Z.mod_small by (cbn; lia).
  set (body := be_put 2 id ++ _). assert (exists k, length body = S (S k)) as [k ->].
  { unfold body. eexists. rewrite length_app, be_put_length. reflexivity. }
  assert (read_filters (S (S k)) (appendUTF8 [] filter ++ [0]) = Ok [filter]) as ->; [|by rewrite be_two].
  cbn [read_filters]. replace (len (appendUTF8 [] filter ++ [0]) =? 0) with false
    by (rewrite len_app; change (len [0]) with 1; pose proof (len_nonneg (appendUTF8 [] filter)); lia).
  rewrite readUTF8_append by done. cbn [result_bind]. by rewrite Hv.
Qed.

Lemma read_digits_bound i multiplier value inp n rest : bytes_ok inp -> 0 <= value < multiplier ->
  read_digits i multiplier value inp = Ok (n, rest) -> 0 <= n < multiplier * 128 ^ Z.of_nat i /\ bytes_ok rest.
Proof.
  revert multiplier value inp. induction i as [|i IH]; intros multiplier value inp Hb Hv; [done|].
  destruct inp as [|d inp]; [done|]. cbn [read_digits]. apply Forall_cons in Hb as [Hd Hb].
  rewrite Nat2Z.inj_succ, Z.pow_succ_r by lia. assert (0 < 128 ^ Z.of_nat i) by (apply Z.pow_pos_nonneg; lia).
  assert (0 <= Z.land d 127 < 128) as Hl by (change 127 with (Z.ones 7); rewrite Z.land_ones by lia; apply Z.mod_pos_bound; lia).
  destruct (Z.land d 128 =? 0).
  - intros [= <- <-]. split; [nia|done].
  - intros Hr. apply IH in Hr as [Hn Hok]; [split; [nia|done]|done|nia].
Qed.

Lemma read_packet_bound inp p rest : bytes_ok inp -> readMQTTPacket inp = Ok (p, rest) ->
  len (p_payload p) < 128 ^ 4 /\ bytes_ok (p_payload p).
Proof.
  destruct inp as [|h inp]; [done|]. intros [_ Hb]%Forall_cons. unfold readMQTTPacket, readRemainingLength.
  destruct (read_digits 4 1 0 inp) as [[n r]|e] eqn:Hd; [|done]. cbn [result_bind].
  apply read_digits_bound in Hd as [Hn Hr]; [|done|lia]. case_match; [done|]. intros [= <- <-]. cbn [p_payload].
  split; [rewrite len_take; lia|by apply Forall_take].
Qed.

Lemma decodePublish_fields flags payload msg : bytes_ok payload -> decodePublish flags payload = Ok msg ->
  len (Topic msg) <= 65535 /\ len (publish_body (Topic msg) (PubSub.Payload msg)) = len payload.
Proof.
  intros Hb. unfold decodePublish. case_match; [done|].
  destruct (readUTF8 payload) as [[topic body]|e] eqn:Hr; [|done]. cbn [result_bind]. intros [= <-]. cbn [Topic PubSub.Payload].
  apply readUTF8_bound in Hr as [Ht Hl]; [|done]. split; [done|].
  unfold publish_body, appendUTF8. replace (65535 <? len topic) with false by lia. rewrite !len_app. change (len [u8 (Z.shiftr (len topic) 8); u8 (len topic)]) with 2.
  change (len (@nil Z)) with 0. lia.
Qed.

Lemma decodePublish_body msg : len (Topic msg) <= 65535 ->
  decodePublish 0 (publish_body (Topic msg) (PubSub.Payload msg)) = Ok msg.
Proof.
  intros Hl. unfold decodePublish, publish_body. cbn [Z.land Z.shiftr Z.eqb negb].
  change (negb (Z.land (Z.shiftr 0 1) 3 =? 0)) with false. cbv iota. rewrite readUTF8_append by done. by destruct msg.
Qed.

Lemma matches_spec c topic : matches c topic = true <->
  exists f, f ∈ subscriptions c /\ matches_topic (splitTopic f) (splitTopic topic).
Proof.
  unfold matches. rewrite existsb_exists. split.
  - intros (f & Hf & Hm). exists f. split; [by apply elem_of_elements, list_elem_of_In|by apply match_levels_spec].
  - intros (f & Hf & Hm). exists f. split; [by apply list_elem_of_In, elem_of_elements|by apply match_levels_spec].
Qed.

(** ** Claims *)

(** Every packet the client or the broker writes with at most
    268435455 bytes of body is read back exactly, the input after it
    untouched, and a longer one is refused as malformed by every reader.  A
    client's CONNECT gives the broker the identifier that was configured, with
    or without user name and password, and a client's SUBSCRIBE gives it
    exactly the filter asked for and an acknowledgement with a non-zero packet
    identifier, the client's own when that is non-zero. *)
Theorem mqtt_packets_understood (t f : Z) (payload rest : bytes) (cfg : MQTTConfig) (pktID : Z) (filter : bytes) :
  0 <= t < 16 -> 0 <= f < 16 ->
  len (ClientID cfg) <= 65535 -> len (Username cfg) <= 65535 -> len (Password cfg) <= 65535 ->
  len filter <= 65535 -> ValidateSubscribeTopic filter = None ->
  readMQTTPacket (writeMQTTPacket t f payload ++ rest) =
    (if len payload <=? 268435455 then Ok (mkPacket t f payload, rest) else Err ErrMalformedLength) /\
  handleConnect (connect_body cfg) = Ok (ClientID cfg) /\
  exists id, 0 < id < 65536 /\ (0 < u16 pktID -> id = u16 pktID) /\
    handleSubscribe (subscribe_body pktID filter) = Ok ([filter], be_put 2 id ++ [0]).
Proof.
  intros Ht Hf Hc Hu Hp Hl Hv. split_and!.
  - destruct (Z.leb_spec (len payload) 268435455); [by apply packet_roundtrip; [..|lia]|by apply packet_overlong; lia].
  - by apply connect_accepted.
  - by apply subscribe_accepted.
Qed.

Lemma mqtt_packets_understood_witness :
  let cfg := mkMQTTConfig (str "weaver") (str "user") [] 60 in
  readMQTTPacket (writeMQTTPacket 3 0 (str "x") ++ [1]) = Ok (mkPacket 3 0 (str "x"), [1]) /\
  handleConnect (connect_body cfg) = Ok (str "weaver") /\
  exists id, 0 < id < 65536 /\ (0 < u16 7 -> id = u16 7) /\
    handleSubscribe (subscribe_body 7 (str "a/#")) = Ok ([str "a/#"], be_put 2 id ++ [0]).
Proof. apply mqtt_packets_understood; first [done | vm_compute; done | reflexivity]. Defined.

(** C35: when the broker reads a PUBLISH from a connection, every connected
    client keeps its identity and subscriptions; a client one of whose filters
    matches the topic level by level, and whose connection takes the write, is
    sent exactly one more packet, which decodes to the message that was
    published; a matching client whose connection fails gets the first bytes of
    that packet, and every other client is sent nothing. *)
Theorem mqtt_publish_delivers (b : broker) (fails : Z -> option nat) (conn : Z) (inp rest : bytes) (p : packet) (msg : Message) :
  bytes_ok inp -> readMQTTPacket inp = Ok (p, rest) -> is_Some (b !! conn) ->
  p_type p = mqttPublish -> decodePublish (p_flags p) (p_payload p) = Ok msg ->
  forall d c, b !! d = Some c -> exists c', serve_packet b fails conn p !! d = Some c' /\
    id_ c' = id_ c /\ subscriptions c' = subscriptions c /\
    ((exists filter, filter ∈ subscriptions c /\ matches_topic (splitTopic filter) (splitTopic (Topic msg))) ->
       exists pkt body, sent c' = sent c ++ match fails d with None => pkt | Some n => take n pkt end /\
         (forall k, readMQTTPacket (pkt ++ k) = Ok (mkPacket mqttPublish 0 body, k)) /\ decodePublish 0 body = Ok msg) /\
    (~ (exists filter, filter ∈ subscriptions c /\ matches_topic (splitTopic filter) (splitTopic (Topic msg))) ->
       sent c' = sent c).
Proof.
  intros Hb Hr [c0 Hc0] Ht Hm d c Hd. destruct (read_packet_bound _ _ _ Hb Hr) as [Hl Hok].
  destruct (decodePublish_fields _ _ _ Hok Hm) as [Htl Hbl].
  unfold serve_packet. rewrite Hc0, Ht, Hm. cbn [Z.eqb mqttPublish mqttConnect Pos.eqb]. unfold publish.
  rewrite map_lookup_imap, Hd. cbn [mbind option_bind]. eexists. split; [reflexivity|].
  setoid_rewrite <- matches_spec.
  destruct (matches c (Topic msg)) eqn:Hmt; split_and!; try done.
  intros _. eexists _, _. split; [reflexivity|]. split; [|by apply decodePublish_body].
  intros k. apply packet_roundtrip; [done|done|lia].
Qed.

(** A publisher, a subscriber to the topic and a subscriber elsewhere. *)
Lemma mqtt_publish_delivers_witness :
  let b : broker := {[ 1 := mkClient (str "pub") ∅ []; 2 := mkClient (str "sub") {[ str "a/+" ]} [9]; 3 := mkClient [] {[ str "z" ]} [] ]} in
  let p := mkPacket 3 0 (publish_body (str "a/b") (str "hi")) in
  exists c', serve_packet b (fun _ => None) 1 p !! 2 = Some c' /\ (len (sent c') = 10).
Proof.
  set (b := _ : broker). set (p := mkPacket 3 0 _).
  destruct (mqtt_publish_delivers b (fun _ => None) 1 (writeMQTTPacket 3 0 (p_payload p)) [] p (mkMessage (str "a/b") (str "hi"))) with
    (d := 2) (c := mkClient (str "sub") {[ str "a/+" ]} [9]) as (c' & Hc & _).
  - unfold bytes_ok, is_u. vm_compute. repeat constructor; done.
  - vm_compute. reflexivity.
  - eexists. reflexivity.
  - reflexivity.
  - reflexivity.
  - reflexivity.
  - exists c'. split; [exact Hc|]. revert Hc. vm_compute. intros [= <-]. reflexivity.
Defined.

End Mqtt.
