(* ===== verification/P9Server.v ===== *)
(** * The 9P2000 file server (internal/p9svc/server.go)

    The message codec, the table of fids and every handler of a session, over
    the file system of GoFs.v.  A handler returns the type and payload of its
    reply, or the text of the error that [handleConn] sends as [Rerror], with
    the session and the file system after it. *)

From S2P Require Import Prelude GoStrings GoFs.

Module P9Server.
Import GoStrings GoFs.

Definition Tversion : Z := 100.
Definition Rversion : Z := 101.
Definition Tattach : Z := 104.
Definition Rattach : Z := 105.
Definition Rerror : Z := 107.
Definition Twalk : Z := 110.
Definition Rwalk : Z := 111.
Definition Topen : Z := 112.
Definition Ropen : Z := 113.
Definition Tcreate : Z := 114.
Definition Rcreate : Z := 115.
Definition Tread : Z := 116.
Definition Rread : Z := 117.
Definition Twrite : Z := 118.
Definition Rwrite : Z := 119.
Definition Tclunk : Z := 120.
Definition Rclunk : Z := 121.
Definition Tremove : Z := 122.
Definition Rremove : Z := 123.
Definition Tstat : Z := 124.
Definition Rstat : Z := 125.

Definition qidFile : Z := 0.
Definition qidDir : Z := 128.
Definition openWriteMask : Z := 3.
Definition openTrunc : Z := 16.
Definition permDir : Z := 2147483648.
Definition servedVersion : bytes := str "9P2000".

Record Server := mkServer {
  root : bytes;
  readOnly : bool
}.

Record fidState := mkFid {
  rel : bytes;
  path : bytes;
  opened : bool;
  isDir : bool
}.

Record session := mkSession {
  msize : Z;
  version : bytes;
  fids : gmap Z fidState
}.
#[export] Instance update_fids : Update fids := fun v s => mkSession (msize s) (version s) v.

Record qid := mkQid {
  q_type : Z;
  q_version : Z;
  q_path : Z
}.

Record message := mkMessage {
  m_type : Z;
  m_tag : Z;
  m_payload : bytes
}.

(** ** Wire format *)

Definition packString (value : bytes) : bytes := le_put 2 (len value) ++ value.

Definition unpackString (buf : bytes) (offset : Z) : result bytes (bytes * Z) :=
  if len buf <? offset + 2 then Err (str "short_string_len") else
  let ln := le_get (slice buf (Z.to_nat offset) (Z.to_nat (offset + 2))) in
  let offset := offset + 2 in
  if len buf <? offset + ln then Err (str "short_string_body") else
  Ok (slice buf (Z.to_nat offset) (Z.to_nat (offset + ln)), offset + ln).

(** The 32-bit field at [off]; the callers have checked the length. *)
Definition field (n : nat) (off : nat) (payload : bytes) : Z := le_get (slice payload off (off + n)).

Definition writeMessage (typ tag : Z) (payload : bytes) : bytes :=
  le_put 4 (7 + len payload) ++ [typ] ++ le_put 2 tag ++ payload.

Inductive read_failure : Type := ReadEOF | ReadUnexpectedEOF | ReadBadSize.

Definition readMessage (inp : bytes) : result read_failure (message * bytes) :=
  if len inp =? 0 then Err ReadEOF else
  if len inp <? 7 then Err ReadUnexpectedEOF else
  let size := field 4 0 inp in
  if (size <? 7) || (2 ^ 24 <? size) then Err ReadBadSize else
  let rest := drop 7 inp in
  let n := Z.to_nat (size - 7) in
  if len rest <? size - 7 then Err (if len rest =? 0 then ReadEOF else ReadUnexpectedEOF) else
  Ok (mkMessage (nth 4 inp 0) (field 2 5 inp) (take n rest), drop n rest).

Definition error_payload (version text : bytes) : bytes :=
  packString text ++ (if str_eqb version (str "9P2000.u") then le_put 4 5 else []).

(** [hash/fnv]'s 64-bit FNV-1a. *)
Definition fnv64a (data : bytes) : Z :=
  fold_left (fun hash b => u64 (Z.lxor hash b * 1099511628211)) data 14695981039346656037.

Definition pathHash (rel : bytes) (info : FileInfo) : Z := fnv64a (rel ++ [0] ++ i_name info).

Definition qidFor (rel : bytes) (info : FileInfo) : qid :=
  mkQid (if i_dir info then qidDir else qidFile) (u32 (Unix (i_mtime info))) (pathHash rel info).

Definition qid_bytes (q : qid) : bytes := [q_type q] ++ le_put 4 (q_version q) ++ le_put 8 (q_path q).

Definition walk_reply (qids : list qid) : bytes := le_put 2 (len qids) ++ concat (qid_bytes <$> qids).

Definition statBytes (rel : bytes) (info : FileInfo) : bytes :=
  let name := if str_eqb rel [] || str_eqb rel dot then [slash] else i_name info in
  let mode := if i_dir info then Z.lor (i_perm info) permDir else i_perm info in
  let mtime := u32 (Unix (i_mtime info)) in
  let payload := le_put 2 0 ++ le_put 4 0 ++ qid_bytes (qidFor rel info) ++ le_put 4 mode ++ le_put 4 mtime ++ le_put 4 mtime ++
    le_put 8 (i_size info) ++ packString name ++ packString (str "weaverssh") ++ packString (str "weaverssh") ++ packString [] in
  le_put 2 (len payload) ++ payload.

Definition selectVersion (requested : bytes) : bytes :=
  if str_eqb requested servedVersion || HasPrefix requested (str "9P2000.") then servedVersion else str "unknown".

(** ** Confinement *)

Definition withinRoot (root target : bytes) : bool :=
  match Rel root target with
  | None => false
  | Some r => str_eqb r dot || str_eqb r [] || (negb (HasPrefix r dotdot) && negb (IsAbs r))
  end.

Section Server.
Context (h : host) (s : Server).

(** The message of an [*os.PathError]. *)
Definition os_error {A} (p : bytes) (r : result errno A) : result bytes A := result_map_err (fun e => h_text h e p) r.
Definition wrapped {A} (prefix : bytes) (r : result bytes A) : result bytes A := result_map_err (fun e => prefix ++ e) r.

Definition resolve (f : fs) (rel : bytes) : result bytes bytes :=
  let clean := Clean (TrimPrefix rel [slash]) in
  let clean := if str_eqb clean dot then [] else clean in
  if HasPrefix clean dotdot || IsAbs clean then Err (str "path_escape") else
  let joined := Join (root s) clean in
  match EvalSymlinks h f joined with
  | Err e => if IsNotExist e then Ok joined else os_error joined (Err e)
  | Ok eval => if negb (withinRoot (root s) eval) then Err (str "path_escape") else Ok eval
  end.

Fixpoint readDir_entries (f : fs) (rel : bytes) (names : list bytes) : bytes :=
  match names with
  | [] => []
  | name :: r =>
    let childRel := Join rel name in
    match resolve f childRel with
    | Err _ => readDir_entries f rel r
    | Ok childPath =>
      match os_Stat h f childPath with
      | Err _ => readDir_entries f rel r
      | Ok info => statBytes childRel info ++ readDir_entries f rel r
      end
    end
  end.

Definition readDir (f : fs) (rel path : bytes) : result bytes bytes :=
  let* entries := os_error path (os_ReadDir h f path) in
  Ok (readDir_entries f rel (sort_by str_ltb entries)).

(** ** Handlers *)

Abbreviation handled := (result bytes (Z * bytes) * session * fs)%type.

Definition handleVersion (ss : session) (f : fs) (payload : bytes) : handled :=
  if len payload <? 6 then (Err (str "short_tversion"), ss, f) else
  let m := field 4 0 payload in
  match unpackString payload 4 with
  | Err e => (Err (str "bad_tversion: " ++ e), ss, f)
  | Ok (v, _) =>
    let selected := selectVersion v in
    let version' := if negb (str_eqb selected (str "unknown")) then selected else version ss in
    let m := if (m =? 0) || (2 ^ 20 <? m) then 8192 else m in
    let m := Z.min m 65536 in
    (Ok (Rversion, le_put 4 m ++ packString selected), mkSession m version' (fids ss), f)
  end.

Definition handleAttach (ss : session) (f : fs) (payload : bytes) : handled :=
  if len payload <? 8 then (Err (str "short_tattach"), ss, f) else
  let fid := field 4 0 payload in
  match resolve f [] with
  | Err e => (Err e, ss, f)
  | Ok r =>
    match os_error r (os_Stat h f r) with
    | Err e => (Err e, ss, f)
    | Ok info =>
      (Ok (Rattach, qid_bytes (qidFor [] info)), ss <| fids := <[fid := mkFid [] r false true]> (fids ss) |>, f)
    end
  end.

Fixpoint unpack_names (n : nat) (payload : bytes) (off : Z) : result bytes (list bytes) :=
  match n with
  | O => Ok []
  | S n =>
    let* '(name, next) := unpackString payload off in
    let* names := unpack_names n payload next in
    Ok (name :: names)
  end.

(** [strings.ContainsAny(name, "/\\")]. *)
Definition has_separator (name : bytes) : bool := existsb (fun c => (c =? 47) || (c =? 92)) name.

(** The loop of [handleWalk] over the names. *)
Fixpoint walk_names (f : fs) (rel : bytes) (names : list bytes) : result bytes (bytes * list qid) :=
  match names with
  | [] => Ok (rel, [])
  | name :: r =>
    if str_eqb name [] || has_separator name || str_eqb name dotdot then Err (str "invalid_walk_name") else
    if str_eqb name dot then walk_names f rel r else
    let rel := Join rel name in
    let* p := resolve f rel in
    match os_Stat h f p with
    | Err _ => Err (str "walk_not_found")
    | Ok info =>
      let* '(last, qids) := walk_names f rel r in
      Ok (last, qidFor rel info :: qids)
    end
  end.

Definition handleWalk (ss : session) (f : fs) (payload : bytes) : handled :=
  if len payload <? 10 then (Err (str "short_twalk"), ss, f) else
  let fid := field 4 0 payload in
  let newfid := field 4 4 payload in
  let nwname := field 2 8 payload in
  match unpack_names (Z.to_nat nwname) payload 10 with
  | Err e => (Err (str "bad_twalk: " ++ e), ss, f)
  | Ok names =>
    match fids ss !! fid with
    | None => (Err (str "unknown_fid"), ss, f)
    | Some base =>
      if nwname =? 0 then (Ok (Rwalk, walk_reply []), ss <| fids := <[newfid := base]> (fids ss) |>, f) else
      match (let* '(last, qids) := walk_names f (rel base) names in
             let* p := resolve f last in
             let* info := os_error p (os_Stat h f p) in
             Ok (mkFid last p false (i_dir info), qids)) with
      | Err e => (Err e, ss, f)
      | Ok (st, qids) => (Ok (Rwalk, walk_reply qids), ss <| fids := <[newfid := st]> (fids ss) |>, f)
      end
    end
  end.

Definition handleOpen (ss : session) (f : fs) (payload : bytes) : handled :=
  if len payload <? 5 then (Err (str "short_topen"), ss, f) else
  let fid := field 4 0 payload in
  let mode := nth 4 payload 0 in
  match fids ss !! fid with
  | None => (Err (str "unknown_fid"), ss, f)
  | Some st =>
    let wantsWrite := negb (Z.land mode openWriteMask =? 0) || negb (Z.land mode openTrunc =? 0) in
    if readOnly s && wantsWrite then (Err (str "read_only"), ss, f) else
    match os_error (path st) (os_Stat h f (path st)) with
    | Err e => (Err e, ss, f)
    | Ok info =>
      let finish f info :=
        (Ok (Ropen, qid_bytes (qidFor (rel st) info) ++ le_put 4 0),
         ss <| fids := <[fid := mkFid (rel st) (path st) true (i_dir info)]> (fids ss) |>, f) in
      if negb (Z.land mode openTrunc =? 0) && negb (i_dir info) then
        match wrapped (str "truncate: ") (os_error (path st) (os_Truncate h f (path st))) with
        | Err e => (Err e, ss, f)
        | Ok f =>
          match os_error (path st) (os_Stat h f (path st)) with
          | Err e => (Err e, ss, f)
          | Ok info => finish f info
          end
        end
      else finish f info
    end
  end.

Definition handleRead (ss : session) (f : fs) (payload : bytes) : handled :=
  if len payload <? 16 then (Err (str "short_tread"), ss, f) else
  let fid := field 4 0 payload in
  let offset := field 8 4 payload in
  let count := Z.min (field 4 12 payload) (2 ^ 20) in
  match fids ss !! fid with
  | None => (Err (str "unknown_fid"), ss, f)
  | Some st =>
    match (let* info := os_error (path st) (os_Stat h f (path st)) in
           if i_dir info then
             let* all := readDir f (rel st) (path st) in
             Ok (if offset <? len all then take (Z.to_nat count) (drop (Z.to_nat offset) all) else [])
           else os_error (path st) (os_ReadAt h f (path st) count (i64 offset))) with
    | Err e => (Err e, ss, f)
    | Ok data => (Ok (Rread, le_put 4 (len data) ++ data), ss, f)
    end
  end.

Definition handleCreate (ss : session) (f : fs) (payload : bytes) : handled :=
  if readOnly s then (Err (str "read_only"), ss, f) else
  if len payload <? 4 then (Err (str "short_tcreate"), ss, f) else
  let fid := field 4 0 payload in
  match unpackString payload 4 with
  | Err e => (Err (str "bad_tcreate: " ++ e), ss, f)
  | Ok (name, off) =>
    if len payload <? off + 5 then (Err (str "short_tcreate"), ss, f) else
    let perm := field 4 (Z.to_nat off) payload in
    match fids ss !! fid with
    | None => (Err (str "unknown_fid"), ss, f)
    | Some st =>
      if negb (isDir st) then (Err (str "create_in_non_dir"), ss, f) else
      if str_eqb name [] || str_eqb name dot || str_eqb name dotdot || has_separator name
      then (Err (str "invalid_create_name"), ss, f) else
      let childRel := Join (rel st) name in
      match resolve f childRel with
      | Err e => (Err e, ss, f)
      | Ok childPath =>
        let dir := negb (Z.land perm permDir =? 0) in
        match (if dir then wrapped (str "mkdir: ") (os_error childPath (os_Mkdir h f childPath))
               else let* '(_, f) := wrapped (str "create: ") (os_error childPath (os_Create h true f childPath)) in Ok f) with
        | Err e => (Err e, ss, f)
        | Ok f =>
          match os_error childPath (os_Stat h f childPath) with
          | Err e => (Err e, ss, f)
          | Ok info =>
            (Ok (Rcreate, qid_bytes (qidFor childRel info) ++ le_put 4 0),
             ss <| fids := <[fid := mkFid childRel childPath true dir]> (fids ss) |>, f)
          end
        end
      end
    end
  end.

Definition handleWrite (ss : session) (f : fs) (payload : bytes) : handled :=
  if readOnly s then (Err (str "read_only"), ss, f) else
  if len payload <? 16 then (Err (str "short_twrite"), ss, f) else
  let fid := field 4 0 payload in
  let offset := field 8 4 payload in
  let count := Z.min (field 4 12 payload) (len payload - 16) in
  match fids ss !! fid with
  | None => (Err (str "unknown_fid"), ss, f)
  | Some st =>
    if isDir st then (Err (str "write_to_dir"), ss, f) else
    let data := slice payload 16 (Z.to_nat (16 + count)) in
    match wrapped (str "open_for_write: ") (os_error (path st) (os_Create h false f (path st))) with
    | Err e => (Err e, ss, f)
    | Ok (l, f) =>
      let (n, f) := os_WriteAt h f (path st) l (i64 offset) data in
      match wrapped (str "write: ") (os_error (path st) n) with
      | Err e => (Err e, ss, f)
      | Ok n => (Ok (Rwrite, le_put 4 n), ss, f)
      end
    end
  end.

Definition handleRemove (ss : session) (f : fs) (payload : bytes) : handled :=
  if len payload <? 4 then (Err (str "short_tremove"), ss, f) else
  let fid := field 4 0 payload in
  let ss' := ss <| fids := delete fid (fids ss) |> in
  match fids ss !! fid with
  | None => (Err (str "unknown_fid"), ss', f)
  | Some st =>
    if readOnly s then (Err (str "read_only"), ss', f) else
    if str_eqb (rel st) [] then (Err (str "refuse_remove_root"), ss', f) else
    match wrapped (str "remove: ") (os_error (path st) (os_Remove h f (path st))) with
    | Err e => (Err e, ss', f)
    | Ok f => (Ok (Rremove, []), ss', f)
    end
  end.

Definition handleClunk (ss : session) (f : fs) (payload : bytes) : handled :=
  if len payload <? 4 then (Err (str "short_tclunk"), ss, f) else
  (Ok (Rclunk, []), ss <| fids := delete (field 4 0 payload) (fids ss) |>, f).

Definition handleStat (ss : session) (f : fs) (payload : bytes) : handled :=
  if len payload <? 4 then (Err (str "short_tstat"), ss, f) else
  match fids ss !! field 4 0 payload with
  | None => (Err (str "unknown_fid"), ss, f)
  | Some st =>
    match os_error (path st) (os_Stat h f (path st)) with
    | Err e => (Err e, ss, f)
    | Ok info =>
      let stat := statBytes (rel st) info in
      (Ok (Rstat, le_put 2 (len stat) ++ stat), ss, f)
    end
  end.

(** The text of [unsupported_msg_%d] needs the decimal digits of a byte. *)
Definition byte_digits (n : Z) : bytes :=
  (if n <? 100 then [] else [48 + n / 100]) ++ (if n <? 10 then [] else [48 + n / 10 mod 10]) ++ [48 + n mod 10].

Definition handle (ss : session) (f : fs) (msg : message) : handled :=
  let p := m_payload msg in
  let t := m_type msg in
  if t =? Tversion then handleVersion ss f p else
  if t =? Tattach then handleAttach ss f p else
  if t =? Twalk then handleWalk ss f p else
  if t =? Topen then handleOpen ss f p else
  if t =? Tcreate then handleCreate ss f p else
  if t =? Tread then handleRead ss f p else
  if t =? Twrite then handleWrite ss f p else
  if t =? Tclunk then handleClunk ss f p else
  if t =? Tremove then handleRemove ss f p else
  if t =? Tstat then handleStat ss f p else
  (Err (str "unsupported_msg_" ++ byte_digits t), ss, f).

(** The reply to one message, with the tag it came with. *)
Definition respond (ss : session) (f : fs) (msg : message) : message * session * fs :=
  let '(r, ss', f') := handle ss f msg in
  (match r with
   | Ok (typ, payload) => mkMessage typ (m_tag msg) payload
   | Err text => mkMessage Rerror (m_tag msg) (error_payload (version ss') text)
   end, ss', f').

Definition new_session : session := mkSession 8192 servedVersion ∅.

(** [handleConn] on the bytes a client sends; every turn takes at least seven. *)
Fixpoint handleConn (fuel : nat) (ss : session) (f : fs) (inp : bytes) : bytes * session * fs :=
  match fuel with
  | O => ([], ss, f)
  | S fuel =>
    match readMessage inp with
    | Err _ => ([], ss, f)
    | Ok (msg, rest) =>
      let '(reply, ss, f) := respond ss f msg in
      let '(out, ss, f) := handleConn fuel ss f rest in
      (writeMessage (m_type reply) (m_tag reply) (m_payload reply) ++ out, ss, f)
    end
  end.

End Server.

(** [New], in the working directory [cwd]. *)
Definition New (h : host) (f : fs) (cwd configRoot : bytes) (ro : bool) : result errno Server :=
  let r := TrimSpace configRoot in
  let r := if str_eqb r [] then dot else r in
  let abs := if IsAbs r then Clean r else Join cwd r in
  let* rootEval := EvalSymlinks h f abs in
  let* info := os_Stat h f rootEval in
  if negb (i_dir info) then Err ENOTDIR else Ok (mkServer rootEval ro).

End P9Server.
