(* ===== verification/P9ServerProofs.v ===== *)
(** * The 9P file server: confinement and behaviour *)

From S2P Require Import Prelude GoStrings GoFs GoFsProofs P9Server.

Module P9ServerProofs.
Import GoStrings GoFs GoFsProofs P9Server.

Lemma has_separator_no_slash c : has_separator c = false -> no_slash c.
Proof.
  intros H Hin. assert (has_separator c = true) as E; [|by rewrite E in H].
  apply existsb_exists. exists slash. split; [by apply list_elem_of_In|done].
Qed.

Section Confinement.
Context (h : host) (s : Server) (rootl : loc).
Context (root_abs : root s = abs_path rootl) (root_plain : Forall plain rootl).

(** Only the tree below the root has changed, and no link has. *)
Definition confined (f f' : fs) : Prop :=
  same_links f f' /\ forall l, ~ inside rootl l -> f' !! l = f !! l.

#[export] Instance confined_preorder : PreOrder confined.
Proof.
  split; [intros f; by split|]. intros f g k [H1 H2] [H3 H4]. split; [by etrans|].
  intros l Hl. by rewrite H4, H2.
Qed.

Lemma confined_at f f' d : d <> [] -> inside rootl d -> (forall k, k <> d -> f' !! k = f !! k) ->
  (forall t, node_at f d <> Some (Link t)) -> (forall t, f' !! d <> Some (Link t)) -> confined f f'.
Proof.
  intros Hd Hin Hk Hl Hl'. assert (node_at f d = f !! d) as E by (by destruct d). rewrite E in Hl. split.
  - intros k t. destruct (decide (k = d)) as [->|]; [by split; intros ?; [destruct (Hl t)|destruct (Hl' t)]|by rewrite Hk].
  - intros l Hn. apply Hk. by intros ->.
Qed.

(** A fid: its two names lead to one place below the root, through links that
    have not changed since. *)
Definition leads (f0 : fs) (fo : bool) (l : list bytes) (d : loc) : Prop := exists n, landed (walk n f0 fo [] l) d.

Definition fid_ok (f : fs) (st : fidState) : Prop := exists rl pl d f0,
  rel st = join_slash rl /\ Forall plain rl /\ path st = abs_path pl /\ Forall plain pl /\
  same_links f0 f /\ leads f0 true (rootl ++ rl) d /\ leads f0 true pl d /\ leads f0 false pl d /\
  (forall t, node_at f0 d <> Some (Link t)) /\ inside rootl d.

Definition sess_ok (f : fs) (ss : session) : Prop := map_Forall (fun _ st => fid_ok f st) (fids ss).

Lemma fid_ok_links f f' st : same_links f f' -> fid_ok f st -> fid_ok f' st.
Proof.
  intros Hs (rl & pl & d & f0 & H1 & H2 & H3 & H4 & H5 & H6). exists rl, pl, d, f0.
  split_and!; try done; [by etrans|apply H6..].
Qed.

Lemma sess_ok_links f f' ss : same_links f f' -> sess_ok f ss -> sess_ok f' ss.
Proof. intros Hs H k st Hk. by eapply fid_ok_links, H. Qed.

Lemma withinRoot_inside d : Forall plain d -> withinRoot (root s) (abs_path d) = true -> inside rootl d.
Proof.
  intros Hd. unfold withinRoot, Rel. rewrite root_abs, !comps_abs by done. cbn [abs_path IsAbs]. rewrite Z.eqb_refl. cbn [andb negb].
  destruct (rel_comps_cases rootl d) as [(u & -> & _)|[u ->]]; [intros _; by exists u|].
  pose proof (join_slash_prefix dotdot u) as Hp. rewrite Hp. cbn [negb andb]. rewrite orb_false_r.
  apply HasPrefix_app in Hp as [t ->]. by destruct (str_eqb_spec (dotdot ++ t) dot), (str_eqb_spec (dotdot ++ t) []).
Qed.

Lemma resolve_ok f rl p : Forall plain rl -> resolve h s f (join_slash rl) = Ok p ->
  (exists d, p = abs_path d /\ walk 255 f true [] (rootl ++ rl) = Found d /\ ends f true (Found d) /\ inside rootl d) \/
  (p = abs_path (rootl ++ rl) /\ forall d, walk 255 f true [] (rootl ++ rl) <> Found d).
Proof.
  intros Hrl. unfold resolve.
  rewrite TrimPrefix_rel, Clean_rel by done.
  assert ((if str_eqb (match rl with [] => dot | _ => join_slash rl end) dot then [] else match rl with [] => dot | _ => join_slash rl end) = join_slash rl) as ->.
  { destruct rl as [|x rl]; [done|]. destruct (str_eqb_spec (join_slash (x :: rl)) dot) as [E|]; [|done].
    by apply join_slash_not_dot in E. }
  destruct (_ || _); [done|]. rewrite root_abs, Join_root by done.
  assert (Forall plain (rootl ++ rl)) as Hall by (by apply Forall_app).
  destruct (EvalSymlinks h f (abs_path (rootl ++ rl))) as [e|e] eqn:E.
  - apply EvalSymlinks_ok in E as (d & -> & Hw & He); [|done].
    assert (Forall plain d) as Hd by (apply names_plain; eapply settled_names, He).
    rewrite <- root_abs. destruct (withinRoot (root s) (abs_path d)) eqn:Hin; [|done]. intros [= <-]. left. exists d.
    split_and!; try done; [apply He..|by apply withinRoot_inside].
  - destruct e; try done. intros [= <-]. right. split; [done|]. intros d. by eapply EvalSymlinks_missing.
Qed.

(** The fid of a path that was evaluated. *)
Lemma fid_ok_eval f rl d o b : Forall plain rl -> walk 255 f true [] (rootl ++ rl) = Found d -> ends f true (Found d) ->
  inside rootl d -> fid_ok f (mkFid (join_slash rl) (abs_path d) o b).
Proof.
  intros Hrl Hw (Hset & nd & Hnd & Hlink) Hin.
  assert (forall t, node_at f d <> Some (Link t)) as Hl by (rewrite Hnd; intros t [= ->]; by apply (Hlink eq_refl t)).
  assert (forall fo, walk 0 f fo [] d = Found d) as Hself by (intros fo; by rewrite walk_self, Hnd).
  exists rl, d, d, f. split_and!; try done; [by apply names_plain, (settled_names f)|by eexists; left|eexists 0%nat; left; by rewrite Hself..].
Qed.

(** Where the system calls on a fid's path act. *)
Lemma fid_place f st : fid_ok f st -> exists d, inside rootl d /\ (forall t, node_at f d <> Some (Link t)) /\
  forall c fo l, landed (syscall h c f fo (path st)) l -> l = d.
Proof.
  intros (rl & pl & d & f0 & _ & _ & Hp & Hpl & Hs & _ & [n1 H1] & [n2 H2] & Hl & Hin). exists d. split; [done|].
  split. { intros t Ht. destruct (Hl t). by apply (same_links_at _ _ _ _ Hs). }
  intros c fo l. rewrite Hp. destruct (syscall_walk h c f fo pl Hpl) as [->|[e ->]]; [|by intros ?%landed_failed].
  intros Hland. symmetry. destruct fo; [by eapply (walk_deterministic n1 40 f0 f)|by eapply (walk_deterministic n2 40 f0 f)].
Qed.

(** *** System calls on fids stay below the root *)

Lemma found_nonroot f l nd : node_at f l = Some nd -> nd <> Dir -> l <> [].
Proof. intros H1 H2 ->. by injection H1 as <-. Qed.

Lemma truncate_confined f st f' : fid_ok f st -> os_Truncate h f (path st) = Ok f' -> confined f f'.
Proof.
  intros (d & Hin & Hl & Hat)%fid_place. unfold os_Truncate.
  destruct (syscall h CallTruncate f true (path st)) as [l| |] eqn:E; [|done..].
  assert (l = d) as -> by (apply (Hat CallTruncate true); by left).
  destruct (node_at f d) as [[content| |]|] eqn:En; try done. intros [= <-].
  apply (confined_at _ _ d); [by eapply found_nonroot|done| |by rewrite En|by rewrite lookup_insert_eq].
  intros k Hk. by rewrite lookup_insert_ne.
Qed.

Lemma create_confined f st trunc l f' : fid_ok f st -> os_Create h trunc f (path st) = Ok (l, f') ->
  confined f f' /\ l <> [] /\ inside rootl l /\ forall t, node_at f' l <> Some (Link t).
Proof.
  intros (d & Hin & Hl & Hat)%fid_place. unfold os_Create.
  destruct (syscall h CallCreate f true (path st)) as [k|k|] eqn:E; [..|done].
  - assert (k = d) as -> by (apply (Hat CallCreate true); by left).
    destruct (node_at f d) as [[content| |]|] eqn:En; try done. intros [= <- <-].
    assert (d <> []) as Hd by (by eapply found_nonroot). destruct trunc; split_and!; try done.
    + apply (confined_at _ _ d); [done..| |by rewrite En|by rewrite lookup_insert_eq]. intros k Hk. by rewrite lookup_insert_ne.
    + destruct d; [done|]. cbn. by rewrite lookup_insert_eq.
    + by rewrite En.
  - assert (k = d) as -> by (apply (Hat CallCreate true); by right). intros [= <- <-].
    assert (d <> []) as Hd.
    { intros ->. unfold syscall in E. repeat case_match; try done.
      pose proof (walk_ends 40 f true [] (split_slash (path st)) (real_nil f) (split_slash_no_slash _)) as He.
      rewrite E in He. by destruct He as [_ ?]. }
    split_and!; try done.
    + apply (confined_at _ _ d); [done..| |done|by rewrite lookup_insert_eq]. intros k Hk. by rewrite lookup_insert_ne.
    + destruct d; [done|]. cbn. by rewrite lookup_insert_eq.
Qed.

Lemma write_confined f p l off data r f' : l <> [] -> inside rootl l -> (forall t, node_at f l <> Some (Link t)) ->
  os_WriteAt h f p l off data = (r, f') -> confined f f'.
Proof.
  intros Hd Hin Hl. unfold os_WriteAt. 
  assert (forall c, confined f (<[l := File c]> f)) as Hc.
  { intros c. apply (confined_at _ _ l); [done..| |done|by rewrite lookup_insert_eq]. intros k Hk. by rewrite lookup_insert_ne. }
  repeat case_match; intros [= <- <-]; first [reflexivity|apply Hc].
Qed.

Lemma mkdir_confined f st f' : fid_ok f st -> os_Mkdir h f (path st) = Ok f' -> confined f f'.
Proof.
  intros (d & Hin & Hl & Hat)%fid_place. unfold os_Mkdir.
  destruct (syscall h CallMkdir f false (path st)) as [|k|] eqn:E; try done. intros [= <-].
  assert (k = d) as -> by (apply (Hat CallMkdir false); by right).
  assert (d <> []) as Hd.
  { intros ->. unfold syscall in E. repeat case_match; try done.
    pose proof (walk_ends 40 f false [] (split_slash (path st)) (real_nil f) (split_slash_no_slash _)) as He.
    rewrite E in He. by destruct He as [_ ?]. }
  apply (confined_at _ _ d); [done..| |done|by rewrite lookup_insert_eq]. intros k Hk. by rewrite lookup_insert_ne.
Qed.

Lemma remove_confined f st f' : fid_ok f st -> os_Remove h f (path st) = Ok f' -> confined f f'.
Proof.
  intros (d & Hin & Hl & Hat)%fid_place. unfold os_Remove.
  destruct (syscall h CallRemove f false (path st)) as [k| |] eqn:E; [|done..].
  assert (k = d) as -> by (apply (Hat CallRemove false); by left). intros Hr.
  assert (d <> [] /\ f' = delete d f) as [Hd ->] by (destruct d; [done|]; repeat case_match; by simplify_eq).
  apply (confined_at _ _ d); [done..| |done|by rewrite lookup_delete_eq]. intros k Hk. by rewrite lookup_delete_ne.
Qed.

(** *** A name that does not exist yet *)

Definition dangling (f : fs) (p : bytes) : Prop := exists l t,
  walk 40 f false [] (split_slash p) = Found l /\ node_at f l = Some (Link t) /\
  forall e, walk 255 f true [] (split_slash p) <> Found e.

Lemma fid_ok_joined f st rl name o b fo l : fid_ok f st -> rel st = join_slash rl -> Forall plain rl -> plain name ->
  landed (walk 40 f fo [] ((rootl ++ rl) ++ [name])) l ->
  (forall d, walk 255 f true [] (rootl ++ (rl ++ [name])) <> Found d) ->
  ~ dangling f (abs_path (rootl ++ (rl ++ [name]))) ->
  fid_ok f (mkFid (join_slash (rl ++ [name])) (abs_path (rootl ++ (rl ++ [name]))) o b).
Proof.
  intros (rl' & pl & d & f0 & Hrel & Hrl' & _ & _ & Hs & [n Hlead] & _ & _ & _ & Hin) Hrl Hp Hname Hland Hno Hdang.
  rewrite Hrel in Hrl. apply join_slash_inj in Hrl as ->; [|done..].
  assert (Forall plain (rootl ++ (rl ++ [name]))) as Hall by (repeat (apply Forall_app; split); try done; by constructor).
  destruct (walk_app 40 f fo [] (rootl ++ rl) [name] l) as (n' & d' & Hd' & Hk); [done..|].
  assert (d' = d) as ->.
  { symmetry. eapply (walk_deterministic n 40 f0 f); [done..|by left]. }
  assert (forall fo', walk 40 f fo' [] (rootl ++ (rl ++ [name])) = walk n' f fo' d [name]) as Hw
    by (intros fo'; by rewrite app_assoc, Hk).
  rewrite Hk in Hland by done.
  assert (existsb (Z.eqb 0) name = false) as H0.
  { destruct (existsb (Z.eqb 0) name) eqn:E0; [|done]. exfalso. revert Hland. rewrite walk_cons, E0.
    destruct Hname as (N1 & N2 & N3 & _). destruct (str_eqb_spec name []), (str_eqb_spec name dot), (str_eqb_spec name dotdot); try done.
    apply landed_failed. }
  assert (node_at f (d ++ [name]) = None) as Hnone.
  { destruct (node_at f (d ++ [name])) as [nd|] eqn:E; [exfalso|done].
    assert (forall x, walk n' f true d [name] <> Found x) as Hnf.
    { intros x Hx. apply (Hno x). rewrite (walk_more 40) by (try lia; by rewrite Hw, Hx). by rewrite Hw. }
    assert (walk n' f false d [name] = Found (d ++ [name])) as Hf
      by (rewrite walk_name by done; rewrite E; destruct nd; rewrite ?walk_nil; done).
    destruct nd as [content| |t].
    - apply (Hnf (d ++ [name])). by rewrite walk_name, E.
    - apply (Hnf (d ++ [name])). by rewrite walk_name, E, walk_nil.
    - apply Hdang. exists (d ++ [name]), t. rewrite !walk_abs, Hw, Hf by done. split; [done|]. split; [done|].
      intros e. apply Hno. }
  assert (forall fo', walk 40 f fo' [] (rootl ++ (rl ++ [name])) = Missing (d ++ [name])) as Hm
    by (intros fo'; rewrite Hw, walk_name by done; by rewrite Hnone).
  exists (rl ++ [name]), (rootl ++ (rl ++ [name])), (d ++ [name]), f. cbn [rel path].
  split_and!; try done; [apply Forall_app; split; [done|by constructor]|exists 40%nat; right; by rewrite Hm..| |by apply inside_snoc].
  intros t. by rewrite Hnone.
Qed.

(** *** Handlers *)

Definition step_ok (f : fs) (out : result bytes (Z * bytes) * session * fs) : Prop :=
  sess_ok out.2 out.1.2 /\ confined f out.2.

Lemma step_same f ss r : sess_ok f ss -> step_ok f (r, ss, f).
Proof. by split. Qed.

Lemma step_insert f f' ss k st r : sess_ok f ss -> confined f f' -> fid_ok f' st ->
  step_ok f (r, ss <| fids := <[k := st]> (fids ss) |>, f').
Proof.
  intros Hs Hc Hst. split; [|done]. apply map_Forall_insert_2; [done|]. eapply sess_ok_links; [apply Hc|done].
Qed.

Lemma step_changed f f' ss r : sess_ok f ss -> confined f f' -> step_ok f (r, ss, f').
Proof. intros Hs Hc. split; [|done]. eapply sess_ok_links; [apply Hc|done]. Qed.

Lemma step_delete f f' ss k r : sess_ok f ss -> confined f f' ->
  step_ok f (r, ss <| fids := delete k (fids ss) |>, f').
Proof.
  intros Hs Hc. split; [|done]. apply (sess_ok_links f f'); [apply Hc|]. by apply map_Forall_delete.
Qed.

Lemma walk_names_rel f rl names last qids : Forall plain rl -> walk_names h s f (join_slash rl) names = Ok (last, qids) ->
  exists rl', last = join_slash rl' /\ Forall plain rl'.
Proof.
  revert rl qids. induction names as [|n names IH]; intros rl qids Hrl; cbn [walk_names].
  { intros [= <- <-]. eauto. }
  destruct (str_eqb n [] || has_separator n || str_eqb n dotdot) eqn:E; [done|].
  destruct (str_eqb_spec n dot) as [|Hdot]; [by apply IH|].
  assert (plain n) as Hn.
  { apply orb_false_elim in E as [[E1 E2]%orb_false_elim E3]. split_and!; try done; [by destruct (str_eqb_spec n [])|by destruct (str_eqb_spec n dotdot)|by apply has_separator_no_slash]. }
  rewrite Join_rel by done. destruct (resolve _ _ _ _); [|done]. cbn [result_bind]. destruct (os_Stat _ _ _); [|done].
  destruct (walk_names h s f (join_slash (rl ++ [n])) names) as [[last' qids']|] eqn:Ew; [|done]. cbn [result_bind].
  intros [= <- <-]. eapply IH; [|done]. apply Forall_app. split; [done|by constructor].
Qed.

(** A path that was resolved and found to exist. *)
Lemma fid_ok_resolved f rl p info o b : Forall plain rl -> resolve h s f (join_slash rl) = Ok p -> os_Stat h f p = Ok info ->
  fid_ok f (mkFid (join_slash rl) p o b).
Proof.
  intros Hrl [(d & -> & Hw & He & Hin)|[-> Hno]]%resolve_ok Hstat; [by apply fid_ok_eval| |done].
  exfalso. unfold os_Stat in Hstat. assert (Forall plain (rootl ++ rl)) as Hall by (by apply Forall_app).
  destruct (syscall_walk h CallStat f true (rootl ++ rl) Hall) as [E|[e E]]; rewrite E in Hstat; [|done].
  destruct (walk 40 f true [] (rootl ++ rl)) as [d| |] eqn:Ew; [|done..]. apply (Hno d).
  by rewrite (walk_more 40) by (try lia; by rewrite Ew).
Qed.

Lemma os_error_ok {A} p (r : result errno A) a : os_error h p r = Ok a -> r = Ok a.
Proof. by destruct r; intros [= ->]. Qed.
Lemma wrapped_ok {A} p (r : result bytes A) a : wrapped p r = Ok a -> r = Ok a.
Proof. by destruct r; intros [= ->]. Qed.

Lemma handleAttach_ok f ss payload : sess_ok f ss -> step_ok f (handleAttach h s ss f payload).
Proof.
  intros Hs. unfold handleAttach. case_match; [by apply step_same|].
  destruct (resolve h s f []) as [p|] eqn:Er; [|by apply step_same].
  destruct (os_error h p (os_Stat h f p)) as [info|] eqn:Ei; [|by apply step_same]. apply os_error_ok in Ei.
  apply step_insert; [done..|]. by eapply (fid_ok_resolved f []).
Qed.

Lemma handleWalk_ok f ss payload : sess_ok f ss -> step_ok f (handleWalk h s ss f payload).
Proof.
  intros Hs. unfold handleWalk. case_match; [by apply step_same|].
  destruct (unpack_names _ _ _) as [names|]; [|by apply step_same].
  destruct (fids ss !! field 4 0 payload) as [base|] eqn:Ef; [|by apply step_same].
  pose proof (Hs _ _ Ef) as Hb. case_match; [by apply step_insert|].
  destruct Hb as (rl & _ & _ & _ & Hrel & Hrl & _). rewrite Hrel.
  destruct (walk_names h s f (join_slash rl) names) as [[last qids]|] eqn:Ew; [|by apply step_same]. cbn [result_bind].
  apply walk_names_rel in Ew as (rl' & -> & Hrl'); [|done].
  destruct (resolve h s f (join_slash rl')) as [p|] eqn:Er; [|by apply step_same]. cbn [result_bind].
  destruct (os_error h p (os_Stat h f p)) as [info|] eqn:Ei; [|by apply step_same]. cbn [result_bind]. apply os_error_ok in Ei.
  apply step_insert; [done..|]. by eapply fid_ok_resolved.
Qed.

(** Only the two flags of a fid are free. *)
Lemma fid_ok_flags f st o b : fid_ok f st -> fid_ok f (mkFid (rel st) (path st) o b).
Proof. done. Qed.

Lemma handleOpen_ok f ss payload : sess_ok f ss -> step_ok f (handleOpen h s ss f payload).
Proof.
  intros Hs. unfold handleOpen. case_match; [by apply step_same|].
  destruct (fids ss !! field 4 0 payload) as [st|] eqn:Ef; [|by apply step_same]. pose proof (Hs _ _ Ef) as Hb.
  case_match; [by apply step_same|]. destruct (os_error h (path st) (os_Stat h f (path st))); [|by apply step_same].
  case_match; [|by apply step_insert]. destruct (wrapped _ _) as [f'|] eqn:Et; [|by apply step_same].
  apply wrapped_ok, os_error_ok, truncate_confined in Et; [|done].
  destruct (os_error h (path st) (os_Stat h f' (path st))); [|by apply step_changed].
  apply step_insert; [done..|]. apply fid_ok_flags. eapply fid_ok_links; [apply Et|done].
Qed.

Lemma handleRead_ok f ss payload : sess_ok f ss -> step_ok f (handleRead h s ss f payload).
Proof. intros Hs. unfold handleRead. repeat case_match; by apply step_same. Qed.

Lemma handleWrite_ok f ss payload : sess_ok f ss -> step_ok f (handleWrite h s ss f payload).
Proof.
  intros Hs. unfold handleWrite. case_match; [by apply step_same|]. case_match; [by apply step_same|].
  destruct (fids ss !! field 4 0 payload) as [st|] eqn:Ef; [|by apply step_same]. pose proof (Hs _ _ Ef) as Hb.
  case_match; [by apply step_same|]. destruct (wrapped _ (os_error h (path st) (os_Create _ _ _ _))) as [[l f1]|] eqn:Ec; [|by apply step_same].
  apply wrapped_ok, os_error_ok, create_confined in Ec as (Hc & Hne & Hin & Hl); [|done].
  destruct (os_WriteAt _ _ _ _ _ _) as [n f2] eqn:Ew. apply write_confined in Ew; [|done..].
  assert (confined f f2) by (by etrans). by case_match; apply step_changed.
Qed.

Lemma handleRemove_ok f ss payload : sess_ok f ss -> step_ok f (handleRemove h s ss f payload).
Proof.
  intros Hs. unfold handleRemove. case_match; [by apply step_same|].
  destruct (fids ss !! field 4 0 payload) as [st|] eqn:Ef; [|by apply step_delete]. pose proof (Hs _ _ Ef) as Hb.
  case_match; [by apply step_delete|]. case_match; [by apply step_delete|].
  destruct (wrapped _ _) as [f'|] eqn:Er; [|by apply step_delete].
  apply wrapped_ok, os_error_ok, remove_confined in Er; [|done]. by apply step_delete.
Qed.

(** [p] is where this request would create, before links are evaluated. *)
Definition creates_at (ss : session) (msg : message) (p : bytes) : Prop :=
  m_type msg = Tcreate /\ exists st name off, fids ss !! field 4 0 (m_payload msg) = Some st /\
    unpackString (m_payload msg) 4 = Ok (name, off) /\ p = Join (root s) (Join (rel st) name).

Lemma fid_ok_new f st rl name p o b c fo l : fid_ok f st -> rel st = join_slash rl -> Forall plain rl -> plain name ->
  resolve h s f (join_slash (rl ++ [name])) = Ok p -> landed (syscall h c f fo p) l ->
  ~ dangling f (abs_path (rootl ++ (rl ++ [name]))) -> fid_ok f (mkFid (join_slash (rl ++ [name])) p o b).
Proof.
  intros Hst Hrel Hrl Hn Hres Hland Hdang.
  assert (Forall plain (rl ++ [name])) as Hrn by (apply Forall_app; split; [done|by constructor]).
  apply resolve_ok in Hres as [(d & -> & Hw & He & Hin)|[-> Hno]]; [by apply fid_ok_eval| |done].
  destruct (syscall_walk h c f fo (rootl ++ (rl ++ [name]))) as [E|[e E]]; [by apply Forall_app| |rewrite E in Hland; by destruct (landed_failed _ _ Hland)].
  rewrite E, app_assoc in Hland. exact (fid_ok_joined f st rl name o b fo l Hst Hrel Hrl Hn Hland Hno Hdang).
Qed.

Lemma os_Create_landed trunc f p l f' : os_Create h trunc f p = Ok (l, f') -> landed (syscall h CallCreate f true p) l.
Proof.
  unfold os_Create. generalize (syscall h CallCreate f true p) as w. intros [k|k|e]; [|intros [= <- _]; by right|done].
  destruct (node_at f k) as [[]|]; try done. intros [= <- _]. by left.
Qed.
Lemma os_Mkdir_landed f p f' : os_Mkdir h f p = Ok f' -> exists l, landed (syscall h CallMkdir f false p) l.
Proof. unfold os_Mkdir. generalize (syscall h CallMkdir f false p) as w. intros [k|k|e]; [done|exists k; by right|done]. Qed.

Lemma handleCreate_ok f ss msg : m_type msg = Tcreate -> sess_ok f ss -> (forall p, creates_at ss msg p -> ~ dangling f p) ->
  step_ok f (handleCreate h s ss f (m_payload msg)).
Proof.
  intros Ht Hs Hcare. unfold handleCreate. case_match; [by apply step_same|]. case_match; [by apply step_same|].
  destruct (unpackString (m_payload msg) 4) as [[name off]|] eqn:Eu; [|by apply step_same].
  case_match; [by apply step_same|]. destruct (fids ss !! field 4 0 (m_payload msg)) as [st|] eqn:Ef; [|by apply step_same].
  pose proof (Hs _ _ Ef) as Hb. case_match; [by apply step_same|].
  destruct (str_eqb name [] || str_eqb name dot || str_eqb name dotdot || has_separator name) eqn:En; [by apply step_same|].
  assert (plain name) as Hn.
  { apply orb_false_elim in En as [[[E1 E2]%orb_false_elim E3]%orb_false_elim E4].
    split_and!; [by destruct (str_eqb_spec name [])|by destruct (str_eqb_spec name dot)|by destruct (str_eqb_spec name dotdot)|by apply has_separator_no_slash]. }
  pose proof Hb as (rl & _ & _ & _ & Hrel & Hrl & _). 
  assert (~ dangling f (abs_path (rootl ++ (rl ++ [name])))) as Hd.
  { apply Hcare. split; [done|]. exists st, name, off. split; [done|]. split; [done|].
    rewrite Hrel, Join_rel, root_abs, Join_root by first [done|apply Forall_app; split; [done|by constructor]]. done. }
  rewrite Hrel, Join_rel by done. destruct (resolve h s f (join_slash (rl ++ [name]))) as [p|] eqn:Er; [|by apply step_same].
  set (isdir := negb (Z.land _ permDir =? 0)).
  destruct (if isdir then _ else _) as [f'|] eqn:Eop; [|by apply step_same].
  assert (fid_ok f (mkFid (join_slash (rl ++ [name])) p true isdir) /\ confined f f') as [Hfid Hc].
  { destruct isdir.
    - apply wrapped_ok, os_error_ok in Eop. destruct (os_Mkdir_landed _ _ _ Eop) as [l Hland].
      assert (fid_ok f (mkFid (join_slash (rl ++ [name])) p true true)) as Hf by (by eapply (fid_ok_new f st _ _ _ _ _ CallMkdir false l)).
      split; [done|]. exact (mkdir_confined f _ f' Hf Eop).
    - destruct (wrapped _ _) as [[l f1]|] eqn:Ew; [|done]. injection Eop as ->. apply wrapped_ok, os_error_ok in Ew.
      assert (fid_ok f (mkFid (join_slash (rl ++ [name])) p true false)) as Hf 
        by (eapply (fid_ok_new f st _ _ _ _ _ CallCreate true l); try done; by apply (os_Create_landed true f p l f')).
      split; [done|]. exact (proj1 (create_confined f _ true l f' Hf Ew)). }
  destruct (os_error h p (os_Stat h f' p)); [|by apply step_changed]. apply step_insert; [done..|].
  eapply fid_ok_links; [apply Hc|done].
Qed.

Lemma handle_ok f ss msg : sess_ok f ss -> (forall p, creates_at ss msg p -> ~ dangling f p) ->
  step_ok f (handle h s ss f msg).
Proof.
  intros Hs Hcare. unfold handle.
  case_match; [unfold handleVersion; repeat case_match; by apply step_same|].
  case_match; [by apply handleAttach_ok|]. case_match; [by apply handleWalk_ok|]. case_match; [by apply handleOpen_ok|].
  destruct (Z.eqb_spec (m_type msg) Tcreate); [by apply handleCreate_ok|].
  case_match; [by apply handleRead_ok|]. case_match; [by apply handleWrite_ok|].
  case_match; [unfold handleClunk; case_match; [by apply step_same|by apply step_delete]|].
  case_match; [by apply handleRemove_ok|].
  case_match; [unfold handleStat; repeat case_match; by apply step_same|by apply step_same].
Qed.

(** A read-only server changes nothing. *)
Lemma handleOpen_read_only f ss payload : readOnly s = true -> (handleOpen h s ss f payload).2 = f.
Proof.
  intros Hro. unfold handleOpen. rewrite Hro. case_match; [done|]. case_match; [|done]. cbn [andb].
  destruct (Z.land (nth 4 payload 0) openTrunc =? 0); cbn [negb andb]; [by repeat case_match|by rewrite orb_true_r].
Qed.

Lemma handle_read_only f ss msg : readOnly s = true -> (handle h s ss f msg).2 = f.
Proof.
  intros Hro. unfold handle. case_match; [unfold handleVersion; by repeat case_match|].
  case_match; [unfold handleAttach; by repeat case_match|]. case_match; [unfold handleWalk; by repeat case_match|].
  case_match; [by apply handleOpen_read_only|]. unfold handleCreate, handleWrite, handleRemove. rewrite Hro.
  unfold handleRead, handleClunk, handleStat. by repeat case_match.
Qed.

End Confinement.

(** ** Conversations *)

(** The requests of a session in order: the replies, the session and the file
    system after them. *)
Fixpoint serve (h : host) (s : Server) (ss : session) (f : fs) (msgs : list message) : list message * session * fs :=
  match msgs with
  | [] => ([], ss, f)
  | msg :: rest =>
    let '(reply, ss, f) := respond h s ss f msg in
    let '(replies, ss, f) := serve h s ss f rest in
    (reply :: replies, ss, f)
  end.

(** No request creates through a link whose target does not exist. *)
Fixpoint careful (h : host) (s : Server) (ss : session) (f : fs) (msgs : list message) : Prop :=
  match msgs with
  | [] => True
  | msg :: rest =>
    (forall p, creates_at s ss msg p -> ~ dangling f p) /\
    careful h s (respond h s ss f msg).1.2 (respond h s ss f msg).2 rest
  end.

Lemma respond_handle h s ss f msg : (respond h s ss f msg).1.2 = (handle h s ss f msg).1.2 /\ (respond h s ss f msg).2 = (handle h s ss f msg).2.
Proof. unfold respond. by destruct (handle h s ss f msg) as [[r ss'] f']. Qed.

Lemma serve_ok h s rootl ss f msgs : root s = abs_path rootl -> Forall plain rootl -> sess_ok rootl f ss -> careful h s ss f msgs ->
  sess_ok rootl (serve h s ss f msgs).2 (serve h s ss f msgs).1.2 /\ confined rootl f (serve h s ss f msgs).2.
Proof.
  intros Hr Hp. revert ss f. induction msgs as [|msg rest IH]; intros ss f Hs; cbn [serve careful]; [done|].
  intros [Hd Hrest]. pose proof (handle_ok h s rootl Hr Hp f ss msg Hs Hd) as [H1 H2].
  pose proof (respond_handle h s ss f msg) as [E1 E2]. rewrite <- E1, <- E2 in H1. rewrite <- E2 in H2.
  destruct (respond h s ss f msg) as [[reply ss'] f']. cbn [fst snd] in *.
  specialize (IH ss' f' H1 Hrest). destruct (serve h s ss' f' rest) as [[replies ss''] f'']. cbn in *.
  destruct IH as [I1 I2]. split; [done|]. by etrans.
Qed.

Lemma serve_read_only h s ss f msgs : readOnly s = true -> (serve h s ss f msgs).2 = f.
Proof.
  intros Hro. revert ss f. induction msgs as [|msg rest IH]; intros ss f; cbn [serve]; [done|].
  pose proof (handle_read_only h s f ss msg Hro) as E. rewrite <- (proj2 (respond_handle h s ss f msg)) in E.
  destruct (respond h s ss f msg) as [[reply ss'] f']. cbn in E. subst f'.
  specialize (IH ss' f). by destruct (serve h s ss' f rest) as [[replies ss''] f''].
Qed.

Lemma New_root h f cwd cfg ro s : New h f cwd cfg ro = Ok s ->
  exists rootl, root s = abs_path rootl /\ Forall plain rootl /\ readOnly s = ro.
Proof.
  unfold New. intros (e & He & H)%result_bind_ok. apply result_bind_ok in H as (info & _ & H).
  case_match; [done|]. injection H as <-. apply EvalSymlinks_ends in He as (d & -> & Hset & _).
  exists d. split; [done|]. split; [|done]. by eapply names_plain, settled_names.
Qed.

Lemma new_session_ok rootl f : sess_ok rootl f new_session.
Proof. apply map_Forall_empty. Qed.

(** ** The wire *)

Lemma field_at n off pre v post : length pre = off -> 0 <= v < 2 ^ (8 * Z.of_nat n) -> field n off (pre ++ le_put n v ++ post) = v.
Proof.
  intros Hl Hv. unfold field, slice. replace (off + n - off)%nat with n by lia. rewrite drop_app_length' by done.
  rewrite take_app_length' by (by rewrite le_put_length). rewrite le_get_put. by apply Z.mod_small.
Qed.

Definition encode (msg : message) : bytes := writeMessage (m_type msg) (m_tag msg) (m_payload msg).
Definition encodable (msg : message) : Prop := 0 <= m_tag msg < 2 ^ 16 /\ len (m_payload msg) <= 2 ^ 24 - 7.

Lemma len_encode msg : len (encode msg) = 7 + len (m_payload msg).
Proof. unfold encode, writeMessage. rewrite !len_app. change (len [m_type msg]) with 1. rewrite !len_le_put. lia. Qed.

Lemma frame_fields msg rest : encodable msg ->
  let frame := encode msg ++ rest in
  field 4 0 frame = 7 + len (m_payload msg) /\ nth 4 frame 0 = m_type msg /\ field 2 5 frame = m_tag msg /\
  drop 7 frame = m_payload msg ++ rest.
Proof.
  intros [Ht Hl]. pose proof (len_nonneg (m_payload msg)). cbv zeta. unfold encode, writeMessage. rewrite <- !app_assoc. split_and!.
  - apply (field_at 4 0 []); [done|cbn; lia].
  - rewrite app_nth2; rewrite le_put_length; [done|lia].
  - rewrite app_assoc. apply field_at; [by rewrite length_app, le_put_length|done].
  - rewrite !app_assoc. rewrite <- (app_assoc _ (m_payload msg)). apply drop_app_length'. by rewrite !length_app, !le_put_length.
Qed.

Lemma readMessage_encode msg rest : encodable msg -> readMessage (encode msg ++ rest) = Ok (msg, rest).
Proof.
  intros Hm. pose proof (frame_fields msg rest Hm) as (E1 & E2 & E3 & E4). destruct Hm as [Ht Hl]. cbv zeta in *.
  pose proof (len_nonneg (m_payload msg)). pose proof (len_nonneg rest).
  unfold readMessage. rewrite E1, E2, E3, E4, len_app, len_encode.
  replace (7 + len (m_payload msg) + len rest =? 0) with false by lia.
  replace (7 + len (m_payload msg) + len rest <? 7) with false by lia.
  replace ((7 + len (m_payload msg) <? 7) || (2 ^ 24 <? 7 + len (m_payload msg))) with false by lia.
  replace (len (m_payload msg ++ rest) <? 7 + len (m_payload msg) - 7) with false by (rewrite len_app; lia).
  replace (Z.to_nat (7 + len (m_payload msg) - 7)) with (length (m_payload msg)) by (unfold len; lia).
  rewrite take_app_length, drop_app_length. by destruct msg.
Qed.

End P9ServerProofs.
