(* ===== verification/P9Claims.v ===== *)
(** * The 9P file server: what it guarantees *)

From S2P Require Import Prelude GoStrings GoFs GoFsProofs P9Server P9ServerProofs.

Module P9Claims.
Import GoStrings GoFs GoFsProofs P9Server P9ServerProofs.

(** ** A small export: [/srv] with a file and a link that dangles outside *)

Definition calm : host := mkHost (fun _ _ _ => false) (fun _ _ => None) (fun _ _ => 420) (fun _ _ => 0) (fun _ _ => 4096) (fun _ p => p).
Definition demo_fs : fs := {[
  [str "srv"] := Dir; [str "srv"; str "a"] := File (str "hello");
  [str "srv"; str "out"] := Link (str "/etc/new"); [str "etc"] := Dir; [str "etc"; str "passwd"] := File (str "root") ]}.
Definition demo_server : Server := mkServer (str "/srv") false.

Definition attach : message := mkMessage Tattach 1 (le_put 4 0 ++ le_put 4 0).
Definition create (name : bytes) : message := mkMessage Tcreate 2 (le_put 4 0 ++ packString name ++ le_put 4 420 ++ [1]).

(** C9: the export is confined: whatever requests a client sends, with whatever
    bytes in them, files and links outside the root stay as they were and the
    links inside stay too, as long as no Tcreate names a symbolic link whose
    target does not exist.  A read-only server changes nothing at all, without
    that condition. *)
Theorem p9_confined (h : host) (f : fs) (cwd cfg : bytes) (ro : bool) (s : Server) (msgs : list message) :
  New h f cwd cfg ro = Ok s ->
  let '(_, _, f') := serve h s new_session f msgs in
  (careful h s new_session f msgs ->
   (forall l, ~ inside (comps (root s)) l -> f' !! l = f !! l) /\ same_links f f') /\
  (ro = true -> f' = f).
Proof.
  intros (rootl & Hr & Hp & Hro)%New_root.
  pose proof (serve_ok h s rootl new_session f msgs Hr Hp (new_session_ok _ _)) as Hok.
  pose proof (serve_read_only h s new_session f msgs) as Hread.
  destruct (serve h s new_session f msgs) as [[replies ss'] f']. cbn in *. rewrite Hr, comps_abs by done. rewrite Hro in Hread.
  split; [|done]. intros [_ [Hl Hout]]%Hok. done.
Qed.


Lemma demo_careful : careful calm demo_server new_session demo_fs [attach; create (str "b")].
Proof.
  cbn [careful]. split_and!; [intros p (Ht & _); vm_compute in Ht; done| |done].
  intros p (_ & st & name & off & Hst & Hn & ->) (l & t & Hl & _).
  assert (rel st = []) as Er.
  { assert (rel <$> fids (respond calm demo_server new_session demo_fs attach).1.2 !! 0 = Some []) as E by (vm_compute; reflexivity).
    change (field 4 0 (m_payload (create (str "b")))) with 0 in Hst. rewrite Hst in E. by injection E. }
  assert (name = str "b") as Ename; [vm_compute in Hn; by injection Hn|].
  assert (walk 40 (respond calm demo_server new_session demo_fs attach).2 false [] (split_slash (Join (root demo_server) (Join [] (str "b")))) =
    Missing [str "srv"; str "b"]) as E by (vm_compute; reflexivity).
  rewrite Er, Ename, E in Hl. done.
Qed.

Lemma p9_confined_witness :
  let '(_, _, f') := serve calm demo_server new_session demo_fs [attach; create (str "b")] in
  f' !! [str "etc"; str "passwd"] = Some (File (str "root")) /\ f' !! [str "srv"; str "b"] = Some (File []).
Proof.
  pose proof (p9_confined calm demo_fs (str "/") (str "/srv") false demo_server [attach; create (str "b")] eq_refl) as H.
  assert ((serve calm demo_server new_session demo_fs [attach; create (str "b")]).2 !! [str "srv"; str "b"] = Some (File [])) as E
    by (vm_compute; reflexivity).
  destruct (serve calm demo_server new_session demo_fs [attach; create (str "b")]) as [[replies ss] f'].
  destruct H as [H _]. destruct (H demo_careful) as [Hout _]. split; [|exact E].
  rewrite Hout; [reflexivity|]. intros [t Ht]. vm_compute in Ht. done.
Defined.

(** Without the condition the export leaks: creating the name of the dangling
    link makes the file outside the root that the link points to. *)
Lemma dangling_create_escapes :
  let '(_, _, f') := serve calm demo_server new_session demo_fs [attach; create (str "out")] in
  demo_fs !! [str "etc"; str "new"] = None /\ f' !! [str "etc"; str "new"] = Some (File []).
Proof. vm_compute. split; reflexivity. Qed.

(** ** Writing and reading *)

Definition write_payload (fid offset : Z) (data : bytes) : bytes := le_put 4 fid ++ le_put 8 offset ++ le_put 4 (len data) ++ data.
Definition read_payload (fid offset count : Z) : bytes := le_put 4 fid ++ le_put 8 offset ++ le_put 4 count.

Lemma io_fields fid offset count post : 0 <= fid < 2 ^ 32 -> 0 <= offset < 2 ^ 64 -> 0 <= count < 2 ^ 32 ->
  let payload := le_put 4 fid ++ le_put 8 offset ++ le_put 4 count ++ post in
  field 4 0 payload = fid /\ field 8 4 payload = offset /\ field 4 12 payload = count /\
  len payload = 16 + len post /\ drop 16 payload = post.
Proof.
  intros Hf Ho Hc. cbv zeta. split_and!.
  - by apply (field_at 4 0 []).
  - apply (field_at 8 4 (le_put 4 fid)); [apply le_put_length|done].
  - rewrite (app_assoc (le_put 4 fid)). apply (field_at 4 12 (le_put 4 fid ++ le_put 8 offset)); [by rewrite length_app, !le_put_length|done].
  - rewrite !len_app, !len_le_put. lia.
  - rewrite !app_assoc. apply drop_app_length'. by rewrite !length_app, !le_put_length.
Qed.

(** What a successful write did. *)
Lemma handleWrite_inv h s ss f fid offset data n ss' f' :
  0 <= fid < 2 ^ 32 -> 0 <= offset < 2 ^ 63 -> len data < 2 ^ 32 ->
  handleWrite h s ss f (write_payload fid offset data) = (Ok (Rwrite, n), ss', f') ->
  ss' = ss /\ n = le_put 4 (len data) /\ exists st l f1 content, fids ss !! fid = Some st /\
    os_Create h false f (path st) = Ok (l, f1) /\ node_at f1 l = Some (File content) /\
    f' = <[l := File (overwrite content (Z.to_nat offset) data)]> f1.
Proof.
  intros Hf Ho Hd. unfold handleWrite, write_payload. pose proof (len_nonneg data).
  pose proof (io_fields fid offset (len data) data Hf ltac:(lia) ltac:(lia)) as (E1 & E2 & E3 & E4 & E5). cbv zeta in *.
  rewrite E1, E2, E3, E4. case_match; [done|]. replace (16 + len data <? 16) with false by lia.
  destruct (fids ss !! fid) as [st|]; [|done]. destruct (isDir st); [done|].
  replace (Z.min (len data) (16 + len data - 16)) with (len data) by lia.
  unfold slice. rewrite E5. replace (Z.to_nat (16 + len data) - 16)%nat with (length data) by (unfold len; lia). rewrite take_ge by done.
  destruct (wrapped _ (os_error h (path st) (os_Create h false f (path st)))) as [[l f1]|] eqn:Ec; [|done].
  apply wrapped_ok, os_error_ok in Ec. rewrite i64_small by lia.
  destruct (os_WriteAt h f1 (path st) l offset data) as [r f2] eqn:Ew.
  destruct (wrapped _ (os_error h (path st) r)) as [k|] eqn:Er; [|done]. intros [= <- <- <-]. apply wrapped_ok, os_error_ok in Er. subst r.
  revert Ew. unfold os_WriteAt. repeat case_match; try done. intros [= <- <-]. split; [done|]. split; [done|]. eauto 10.
Qed.

(** Reading a fid whose path leads to a file. *)
Lemma handleRead_file h s ss f st fid l content offset count :
  0 <= fid < 2 ^ 32 -> 0 <= offset < 2 ^ 63 -> 0 <= count < 2 ^ 32 -> (forall c p, h_fails h c f p = false) ->
  fids ss !! fid = Some st -> existsb (Z.eqb 0) (path st) = false ->
  walk 40 f true [] (split_slash (path st)) = Found l -> node_at f l = Some (File content) ->
  let data := take (Z.to_nat (Z.min count (2 ^ 20))) (drop (Z.to_nat offset) content) in
  handleRead h s ss f (read_payload fid offset count) = (Ok (Rread, le_put 4 (len data) ++ data), ss, f).
Proof.
  intros Hf Ho Hc Hh Hst H0 Hw Hn. cbv zeta. unfold handleRead, read_payload.
  pose proof (io_fields fid offset count [] Hf ltac:(lia) Hc) as (E1 & E2 & E3 & E4 & _). cbv zeta in *.
  rewrite app_nil_r in *. rewrite E1, E2, E3, E4. change (16 + len [] <? 16) with false. cbv iota. rewrite Hst.
  assert (forall c, syscall h c f true (path st) = Found l) as Hs by (intros c; unfold syscall; by rewrite H0, Hh, Hw).
  unfold os_Stat, os_ReadAt. rewrite !Hs. unfold info_at. rewrite Hn. cbn [os_error result_map_err result_bind i_dir].
  rewrite i64_small by lia. replace (offset <? 0) with false by lia. by rewrite Hh.
Qed.

(** The file that opening for writing leaves to be written. *)
Lemma os_Create_place h f p l f1 content : os_Create h false f p = Ok (l, f1) -> node_at f1 l = Some (File content) -> l <> [] ->
  (f !! l = Some (File content) \/ f !! l = None /\ content = []) /\ (forall c, <[l := File c]> f1 = <[l := File c]> f) /\
  existsb (Z.eqb 0) p = false /\ landed (walk 40 f true [] (split_slash p)) l.
Proof.
  intros Hcr Hn Hl. pose proof (os_Create_landed h false f p l f1 Hcr) as Hland. revert Hcr Hland. unfold os_Create, syscall.
  assert (node_at f l = f !! l) as El by (by destruct l).
  destruct (existsb _ p); [done|]. destruct (h_fails _ _ _ _); [done|].
  pose proof (walk_ends 40 f true [] (split_slash p) (real_nil f) (split_slash_no_slash p)) as He.
  destruct (walk 40 f true [] (split_slash p)) as [k|k|]; [| |done].
  - destruct (node_at f k) as [[c| |]|] eqn:Ek; try done. intros [= -> <-] ?. split_and!; try done. left. congruence.
  - intros [= -> <-] ?. rewrite node_at_insert in Hn by done. injection Hn as <-. split_and!; try done.
    + right. rewrite <- El. by destruct He as [_ ->].
    + intros c. by rewrite insert_insert_eq.
Qed.

(** A write is what later reads see: a Twrite that is answered with Rwrite
    has replaced exactly the bytes at its offset in one file below the root,
    padding with zeros, and has changed nothing else; on a host that does not
    fail, every Tread on the fid then returns the requested part of the new
    content, and reading the range just written returns the data. *)
Theorem p9_write_read (h : host) (f0 : fs) (cwd cfg : bytes) (ro : bool) (s : Server) (msgs : list message)
    (fid offset : Z) (data n : bytes) (ss' : session) (f' : fs) :
  New h f0 cwd cfg ro = Ok s -> careful h s new_session f0 msgs ->
  0 <= fid < 2 ^ 32 -> 0 <= offset < 2 ^ 63 -> len data < 2 ^ 32 ->
  let ss := (serve h s new_session f0 msgs).1.2 in
  let f := (serve h s new_session f0 msgs).2 in
  handleWrite h s ss f (write_payload fid offset data) = (Ok (Rwrite, n), ss', f') ->
  ss' = ss /\ n = le_put 4 (len data) /\
  exists l content, inside (comps (root s)) l /\ (f !! l = Some (File content) \/ f !! l = None /\ content = []) /\
    f' = <[l := File (overwrite content (Z.to_nat offset) data)]> f /\
    ((forall c p, h_fails h c f' p = false) ->
     (forall o count, 0 <= o < 2 ^ 63 -> 0 <= count < 2 ^ 32 ->
        let got := take (Z.to_nat (Z.min count (2 ^ 20))) (drop (Z.to_nat o) (overwrite content (Z.to_nat offset) data)) in
        handleRead h s ss f' (read_payload fid o count) = (Ok (Rread, le_put 4 (len got) ++ got), ss, f')) /\
     (len data <= 2 ^ 20 ->
        handleRead h s ss f' (read_payload fid offset (len data)) = (Ok (Rread, le_put 4 (len data) ++ data), ss, f'))).
Proof.
  intros (rootl & Hr & Hp & _)%New_root Hcare Hf Ho Hd.
  pose proof (serve_ok h s rootl new_session f0 msgs Hr Hp (new_session_ok _ _) Hcare) as [Hs _].
  cbv zeta. destruct (serve h s new_session f0 msgs) as [[replies ss] f]. cbn [fst snd] in *.
  intros (-> & -> & st & l & f1 & content & Hst & Hcr & Hn & ->)%handleWrite_inv; [|done..]. split; [done|]. split; [done|].
  exists l, content. rewrite Hr, comps_abs by done.
  pose proof (create_confined h rootl f st false l f1 (Hs _ _ Hst) Hcr) as (_ & Hl & Hin & _). split; [done|].
  destruct (os_Create_place h f (path st) l f1 content Hcr Hn Hl) as (Hold & Heq & H0 & Hw). rewrite Heq. split; [done|]. split; [done|].
  intros Hh. set (new := overwrite content (Z.to_nat offset) data) in *.
  assert (walk 40 (<[l := File new]> f) true [] (split_slash (path st)) = Found l) as Hw'.
  { apply walk_written; [apply real_nil|apply split_slash_no_slash|done| |done]. intros nd Hnd.
    assert (f !! l = Some nd) as E by (by destruct l). destruct Hold as [Ho'|[Ho' _]]; rewrite Ho' in E; [|done]. injection E as <-. eauto. }
  assert (node_at (<[l := File new]> f) l = Some (File new)) as Hnew by (by apply node_at_insert). split.
  - intros o count Hoo Hcc. by apply (handleRead_file h s ss _ st fid l).
  - intros Hlen. pose proof (len_nonneg data). rewrite (handleRead_file h s ss _ st fid l new) by (try done; lia).
    replace (Z.to_nat (Z.min (len data) (2 ^ 20))) with (length data) by (unfold len in *; lia).
    unfold new. by rewrite overwrite_read.
Qed.

(** Writing over the end of the demo file and reading it back. *)
Definition walk_to (name : bytes) : message := mkMessage Twalk 3 (le_put 4 0 ++ le_put 4 1 ++ le_put 2 1 ++ packString name).

Lemma p9_write_read_witness :
  let ss := (serve calm demo_server new_session demo_fs [attach; walk_to (str "a")]).1.2 in
  let f := (serve calm demo_server new_session demo_fs [attach; walk_to (str "a")]).2 in
  exists f', handleWrite calm demo_server ss f (write_payload 1 3 (str "p me")) = (Ok (Rwrite, le_put 4 4), ss, f') /\
    handleRead calm demo_server ss f' (read_payload 1 3 4) = (Ok (Rread, le_put 4 4 ++ str "p me"), ss, f').
Proof.
  assert (careful calm demo_server new_session demo_fs [attach; walk_to (str "a")]) as Hc.
  { cbn [careful]. split_and!; [intros p (Ht & _); vm_compute in Ht; done..|done]. }
  pose proof (fun n ss' f' => p9_write_read calm demo_fs (str "/") (str "/srv") false demo_server [attach; walk_to (str "a")] 1 3
    (str "p me") n ss' f' eq_refl Hc ltac:(lia) ltac:(lia) ltac:(by vm_compute)) as H. cbv zeta in *.
  assert ((handleWrite calm demo_server (serve calm demo_server new_session demo_fs [attach; walk_to (str "a")]).1.2
    (serve calm demo_server new_session demo_fs [attach; walk_to (str "a")]).2 (write_payload 1 3 (str "p me"))).1.1 = Ok (Rwrite, le_put 4 4)) as E
    by (vm_compute; reflexivity).
  set (ss := (serve _ _ _ _ _).1.2) in *. set (f := (serve _ _ _ _ _).2) in *. clearbody ss f.
  destruct (handleWrite calm demo_server ss f (write_payload 1 3 (str "p me"))) as [[r ss'] f'] eqn:Ew. cbn [fst snd] in E. subst r.
  destruct (H _ ss' f' eq_refl) as (-> & _ & l & content & _ & _ & _ & Hr). exists f'. split; [done|].
  destruct (Hr ltac:(done)) as [_ Hread]. apply Hread. vm_compute. discriminate.
Defined.

(** ** The wire *)

Lemma handleConn_serve h s fuel ss f msgs tail_ : Forall encodable msgs -> (length msgs < fuel)%nat ->
  (forall m r, readMessage tail_ <> Ok (m, r)) ->
  handleConn h s fuel ss f (concat (encode <$> msgs) ++ tail_) =
    (concat (encode <$> (serve h s ss f msgs).1.1), (serve h s ss f msgs).1.2, (serve h s ss f msgs).2).
Proof.
  intros Hall. revert fuel ss f. induction Hall as [|msg msgs Hm Hall IH]; intros fuel ss f Hfuel Htail; (destruct fuel as [|fuel]; [cbn in Hfuel; lia|]).
  - cbn. destruct (readMessage tail_) as [[m r]|] eqn:E; [by destruct (Htail m r)|done].
  - cbn [fmap list_fmap concat handleConn serve]. rewrite <- app_assoc, readMessage_encode by done.
    destruct (respond h s ss f msg) as [[reply ss1] f1]. rewrite IH by (try done; cbn in Hfuel; lia).
    by destruct (serve h s ss1 f1 msgs) as [[replies ss2] f2].
Qed.

Lemma serve_tags h s ss f msgs : m_tag <$> (serve h s ss f msgs).1.1 = m_tag <$> msgs.
Proof.
  revert ss f. induction msgs as [|msg msgs IH]; intros ss f; cbn [serve]; [done|].
  destruct (respond h s ss f msg) as [[reply ss1] f1] eqn:E. specialize (IH ss1 f1).
  destruct (serve h s ss1 f1 msgs) as [[replies ss2] f2]. cbn in *. f_equal; [|done].
  unfold respond in E. destruct (handle h s ss f msg) as [[r ss'] f']. by destruct r as [[typ payload]|text]; injection E as <- <- <-.
Qed.

(** On the wire a session is the exchange of its messages: from the bytes of
    any requests, followed by a part that is not a whole message, the server
    answers with the bytes of one reply per request, in order and under the
    request's tag, and ends in the state those requests lead to.  The fuel, one
    turn for each input byte, is always enough. *)
Theorem p9_conversation (h : host) (s : Server) (ss : session) (f : fs) (msgs : list message) (partial : bytes) :
  Forall encodable msgs -> (forall m r, readMessage partial <> Ok (m, r)) ->
  let inp := concat (encode <$> msgs) ++ partial in
  exists replies, handleConn h s (S (length inp)) ss f inp =
      (concat (encode <$> replies), (serve h s ss f msgs).1.2, (serve h s ss f msgs).2) /\
    m_tag <$> replies = m_tag <$> msgs /\ replies = (serve h s ss f msgs).1.1.
Proof.
  intros Hall Hpart. cbv zeta. exists (serve h s ss f msgs).1.1. split; [|split; [apply serve_tags|done]].
  apply handleConn_serve; [done| |done]. rewrite length_app.
  assert (forall l, (length l <= length (concat (encode <$> l)))%nat) as H; [|specialize (H msgs); lia].
  intros l. induction l as [|m l IH]; [done|]. cbn [fmap list_fmap concat length]. rewrite length_app.
  pose proof (len_encode m) as E. pose proof (len_nonneg (m_payload m)). unfold len in *. unfold fmap in *. lia.
Qed.

Lemma p9_conversation_witness :
  exists replies, handleConn calm demo_server (S (length (concat (encode <$> [attach; walk_to (str "a")]) ++ [1]))) new_session demo_fs
      (concat (encode <$> [attach; walk_to (str "a")]) ++ [1]) =
      (concat (encode <$> replies), (serve calm demo_server new_session demo_fs [attach; walk_to (str "a")]).1.2,
       (serve calm demo_server new_session demo_fs [attach; walk_to (str "a")]).2) /\
    m_tag <$> replies = [1; 3].
Proof.
  destruct (p9_conversation calm demo_server new_session demo_fs [attach; walk_to (str "a")] [1]) as (replies & H & Htags & _).
  - repeat constructor; vm_compute; discriminate.
  - intros m r. vm_compute. discriminate.
  - exists replies. split; [exact H|exact Htags].
Defined.

End P9Claims.
