(* ===== verification/FileBackend.v ===== *)
(** * The file backend service (filebackend/)

    Hooks, the durable core and the service that the protocol servers ask
    before and after every file operation (hooks.go, core.go, service.go), and
    the interface they use it through. *)

From S2P Require Import Prelude GoStrings Sha256.

Module FileBackend.
Import GoStrings Sha256.

(** ** Events (hooks.go) *)

Definition EventVersion : bytes := str "weaverssh.file-backend-event.v1".
Definition OperationAttach : bytes := str "attach".
Definition OperationWalk : bytes := str "walk".
Definition OperationOpen : bytes := str "open".
Definition OperationCreate : bytes := str "create".
Definition OperationRead : bytes := str "read".
Definition OperationWrite : bytes := str "write".
Definition OperationClunk : bytes := str "clunk".
Definition OperationRemove : bytes := str "remove".
Definition OperationStat : bytes := str "stat".
Definition OperationReadDir : bytes := str "readdir".
Definition OperationPrepareReplace : bytes := str "replace.prepare".
Definition OperationCommitReplace : bytes := str "replace.commit".
Definition OperationAbortReplace : bytes := str "replace.abort".

(** [allOperations] before it is sorted; [valid] accepts exactly these. *)
Definition operations : list bytes :=
  [OperationAttach; OperationWalk; OperationOpen; OperationCreate; OperationRead; OperationWrite; OperationClunk;
   OperationRemove; OperationStat; OperationReadDir; OperationPrepareReplace; OperationCommitReplace; OperationAbortReplace].
Definition valid (operation : bytes) : bool := existsb (str_eqb operation) operations.
Definition allOperations : list bytes := sort_by str_ltb operations.

Definition PhaseBefore : bytes := str "before".
Definition PhaseAfter : bytes := str "after".
Definition PhaseError : bytes := str "error".
Definition ModeObserve : bytes := str "observe".
Definition ModeEnforce : bytes := str "enforce".

Record Event := mkEvent {
  ev_Version : bytes;
  ev_ID : Z;
  ev_Operation : bytes;
  ev_Phase : bytes;
  ev_Path : bytes;
  ev_SecondaryPath : bytes;
  ev_Offset : Z;
  ev_Size : Z;
  ev_Mode : Z;
  ev_Directory : bool;
  ev_ReadOnly : bool;
  ev_OccurredAt : Z;
  ev_Duration : Z;
  ev_Error : bytes;
  ev_Attributes : gmap bytes bytes
}.

Definition maxHooks : Z := 128.
Definition maxEventPathBytes : Z := 4 * 2 ^ 10.
Definition maxEventError : Z := 4 * 2 ^ 10.
Definition maxEventAttrs : Z := 24.
Definition maxAttrKey : Z := 64.
Definition maxAttrValue : Z := 2 ^ 10.

Definition containsControl (value : bytes) : bool := existsb IsControl (runes value).

Definition known_phase (phase : bytes) : bool :=
  str_eqb phase PhaseBefore || str_eqb phase PhaseAfter || str_eqb phase PhaseError.
Definition bad_path (path : bytes) : bool :=
  (maxEventPathBytes <? len path) || containsControl path || existsb (Z.eqb 0) path.
Definition bad_attribute (kv : bytes * bytes) : bool :=
  let (key, value) := kv in
  str_eqb key [] || negb (str_eqb key (TrimSpace key)) || (maxAttrKey <? len key) || (maxAttrValue <? len value) ||
  containsControl key || containsControl value.

Definition set_version (version : bytes) (e : Event) : Event :=
  mkEvent version (ev_ID e) (ev_Operation e) (ev_Phase e) (ev_Path e) (ev_SecondaryPath e) (ev_Offset e) (ev_Size e)
    (ev_Mode e) (ev_Directory e) (ev_ReadOnly e) (ev_OccurredAt e) (ev_Duration e) (ev_Error e) (ev_Attributes e).
Definition set_occurred (t : Z) (e : Event) : Event :=
  mkEvent (ev_Version e) (ev_ID e) (ev_Operation e) (ev_Phase e) (ev_Path e) (ev_SecondaryPath e) (ev_Offset e) (ev_Size e)
    (ev_Mode e) (ev_Directory e) (ev_ReadOnly e) t (ev_Duration e) (ev_Error e) (ev_Attributes e).

Definition normalizeEvent (now : Z) (raw : Event) : result bytes Event :=
  let raw := if str_eqb (ev_Version raw) [] then set_version EventVersion raw else raw in
  if negb (str_eqb (ev_Version raw) EventVersion) || negb (valid (ev_Operation raw)) then Err (str "filebackend: invalid hook event") else
  if negb (known_phase (ev_Phase raw)) then Err (str "filebackend: invalid hook event phase") else
  let raw := if ev_OccurredAt raw =? 0 then set_occurred now raw else raw in
  if bad_path (ev_Path raw) || bad_path (ev_SecondaryPath raw) then Err (str "filebackend: invalid hook event path") else
  if (maxEventError <? len (ev_Error raw)) || containsControl (ev_Error raw) then Err (str "filebackend: invalid hook event error") else
  if maxEventAttrs <? Z.of_nat (size (ev_Attributes raw)) then Err (str "filebackend: too many hook attributes") else
  if existsb bad_attribute (map_to_list (ev_Attributes raw)) then Err (str "filebackend: invalid hook attribute") else
  Ok raw.

(** ** Hooks *)

(** A handler with its outcome: panics and timeouts are errors too. *)
Record Hook := mkHook {
  hk_Operation : bytes;
  hk_Phase : bytes;
  hk_Priority : Z;
  hk_Mode : bytes;
  hk_Timeout : Z;
  hk_MaxParallel : Z;
  hk_Handler : option (Event -> option bytes)
}.

Definition normalizeHook (raw : Hook) : result bytes Hook :=
  if negb (valid (hk_Operation raw)) then Err (str "filebackend: invalid hook operation") else
  let phase := if str_eqb (hk_Phase raw) [] then PhaseBefore else hk_Phase raw in
  if negb (known_phase phase) then Err (str "filebackend: invalid hook phase") else
  match hk_Handler raw with
  | None => Err (str "filebackend: hook handler is required")
  | Some _ =>
    let mode := if str_eqb (hk_Mode raw) [] then ModeObserve else hk_Mode raw in
    if negb (str_eqb mode ModeObserve) && negb (str_eqb mode ModeEnforce) then Err (str "filebackend: invalid hook mode") else
    if str_eqb mode ModeEnforce && negb (str_eqb phase PhaseBefore) then Err (str "filebackend: enforce hooks are valid only in the before phase") else
    let timeout := if hk_Timeout raw <=? 0 then 2 * second else hk_Timeout raw in
    if 60 * second <? timeout then Err (str "filebackend: hook timeout exceeds one minute") else
    let parallel := if hk_MaxParallel raw <=? 0 then 1 else hk_MaxParallel raw in
    if 64 <? parallel then Err (str "filebackend: hook max_parallel exceeds 64") else
    Ok (mkHook (hk_Operation raw) phase (hk_Priority raw) mode timeout parallel (hk_Handler raw))
  end.

Record registeredHook := mkRegistered {
  r_hook : Hook;
  r_order : Z
}.

Record Registry := mkRegistry {
  hooks : gmap (bytes * bytes) (list registeredHook);
  nextOrder : Z
}.
Definition NewRegistry : Registry := mkRegistry ∅ 0.

Definition hook_count (r : Registry) : Z := map_fold (fun _ entries n => len entries + n) 0 (hooks r).

Definition hook_before (a b : registeredHook) : bool :=
  if negb (hk_Priority (r_hook a) =? hk_Priority (r_hook b)) then hk_Priority (r_hook a) <? hk_Priority (r_hook b)
  else r_order a <? r_order b.

Definition Register (r : Registry) (hook : Hook) : option bytes * Registry :=
  match normalizeHook hook with
  | Err e => (Some e, r)
  | Ok normalized =>
    if maxHooks <=? hook_count r then (Some (str "filebackend: hook registry exceeds 128 hooks"), r) else
    let order := u64 (nextOrder r + 1) in
    let key := (hk_Operation normalized, hk_Phase normalized) in
    let list := default [] (hooks r !! key) ++ [mkRegistered normalized order] in
    (None, mkRegistry (<[key := sort_by hook_before list]> (hooks r)) order)
  end.

(** The loop of [Run]: the hooks that ran and the veto that ended it. *)
Fixpoint run_hooks (entries : list registeredHook) (e : Event) : option bytes * list registeredHook :=
  match entries with
  | [] => (None, [])
  | entry :: rest =>
    match (match hk_Handler (r_hook entry) with Some handler => handler e | None => None end) with
    | None => let (err, ran) := run_hooks rest e in (err, entry :: ran)
    | Some err =>
      if str_eqb (hk_Mode (r_hook entry)) ModeEnforce 
      then (Some (str "filebackend: " ++ ev_Operation e ++ str " " ++ ev_Phase e ++ str " hook vetoed operation: " ++ err), [entry])
      else let (err, ran) := run_hooks rest e in (err, entry :: ran)
    end
  end.

Definition Run (now : Z) (r : option Registry) (e : Event) : option bytes * list registeredHook :=
  match r with
  | None => (None, [])
  | Some r =>
    match normalizeEvent now e with
    | Err err => (Some err, [])
    | Ok normalized => run_hooks (default [] (hooks r !! (ev_Operation normalized, ev_Phase normalized))) normalized
    end
  end.

(** ** The durable core (core.go) *)

Record BatchEntry := mkBatch {
  b_Key : bytes;
  b_Value : bytes;
  b_Delete : bool
}.

Inductive core_error : Type := ErrNotFound | ErrStore (text : bytes).

(** The stores a core is kept in.  A write that fails leaves no trace, and a
    write that succeeds is what later reads return. *)
Class CoreStore (S : Type) : Type := {
  cs_get : S -> bytes -> result core_error bytes;
  cs_put : S -> bytes -> bytes -> option bytes * S;
  cs_write : S -> list BatchEntry -> option bytes * S
}.

Record MemoryStore := mkMemory {
  ms_closed : bool;
  ms_values : gmap bytes bytes
}.

Definition memory_Get (s : MemoryStore) (key : bytes) : result core_error bytes :=
  if ms_closed s then Err (ErrStore (str "filebackend: memory store closed")) else
  match ms_values s !! key with None => Err ErrNotFound | Some value => Ok value end.

(** The entries before one with an empty key have been applied. *)
Fixpoint memory_apply (values : gmap bytes bytes) (entries : list BatchEntry) : option bytes * gmap bytes bytes :=
  match entries with
  | [] => (None, values)
  | e :: rest =>
    if str_eqb (b_Key e) [] then (Some (str "filebackend: empty core key"), values) else
    memory_apply (if b_Delete e then delete (b_Key e) values else <[b_Key e := b_Value e]> values) rest
  end.

Definition memory_Write (s : MemoryStore) (entries : list BatchEntry) : option bytes * MemoryStore :=
  if ms_closed s then (Some (str "filebackend: memory store closed"), s) else
  let (err, values) := memory_apply (ms_values s) entries in (err, mkMemory (ms_closed s) values).
Definition memory_Put (s : MemoryStore) (key value : bytes) : option bytes * MemoryStore :=
  memory_Write s [mkBatch key value false].
Definition memory_Close (s : MemoryStore) : MemoryStore := mkMemory true ∅.

#[export] Instance memory_core_store : CoreStore MemoryStore :=
  { cs_get := memory_Get; cs_put := memory_Put; cs_write := memory_Write }.

(** [strings.ReplaceAll(value, "\\", "/")] and [strings.TrimPrefix(value, "/")]. *)
Definition canonicalRelative (value : bytes) : bytes :=
  let value := TrimSpace ((fun c => if c =? 92 then 47 else c) <$> value) in
  let value := match value with 47 :: r => r | _ => value end in
  if str_eqb value (str ".") then [] else value.

Definition qidKey (relative : bytes) : bytes :=
  str "qid/observed/" ++ sha256_hex (str "qid-observed" ++ [0] ++ canonicalRelative relative).
Definition versionKey (relative : bytes) : bytes :=
  str "qid/version/" ++ sha256_hex (str "qid-version" ++ [0] ++ canonicalRelative relative).
Definition counterKey (operation : bytes) : bytes := str "counter/" ++ operation.
Definition stablePathID (relative : bytes) : Z :=
  let value := le_get (take 8 (Sum256 (str "qid-path" ++ [0] ++ canonicalRelative relative))) in
  if value =? 0 then 1 else value.
Definition sequenceKey : bytes := str "state/sequence".
Definition errorsKey : bytes := str "state/errors".
Definition lastKey : bytes := str "event/last".

Section Core.
Context {S : Type} {HS : CoreStore S} (json_event : Event -> bytes).

Definition readUint (n : nat) (store : S) (key : bytes) : result core_error Z :=
  let* value := cs_get store key in
  if negb (len value =? Z.of_nat n) then Err (ErrStore (str "filebackend: corrupt core value")) else Ok (le_get value).

Record Core := mkCore {
  store : S;
  sequence : Z;
  counts : gmap bytes Z;
  errors : Z;
  lastError : bytes
}.
#[export] Instance update_store : Update store := fun v c => mkCore v (sequence c) (counts c) (errors c) (lastError c).
#[export] Instance update_lastError : Update lastError := fun v c => mkCore (store c) (sequence c) (counts c) (errors c) v.

(** A key that is not there counts as zero. *)
Definition read_or_zero (store : S) (key : bytes) : result bytes Z :=
  match readUint 8 store key with
  | Ok v => Ok v
  | Err ErrNotFound => Ok 0
  | Err (ErrStore e) => Err e
  end.

Fixpoint read_counts (store : S) (operations : list bytes) (acc : gmap bytes Z) : result bytes (gmap bytes Z) :=
  match operations with
  | [] => Ok acc
  | operation :: rest =>
    match readUint 8 store (counterKey operation) with
    | Ok v => read_counts store rest (<[operation := v]> acc)
    | Err ErrNotFound => read_counts store rest acc
    | Err (ErrStore e) => Err e
    end
  end.

Definition NewCore (store : S) : result bytes Core :=
  let* sequence := read_or_zero store sequenceKey in
  let* counts := read_counts store allOperations ∅ in
  let* errors := read_or_zero store errorsKey in
  Ok (mkCore store sequence counts errors []).

Definition NextID (c : Core) : result bytes Z * Core :=
  let next := u64 (sequence c + 1) in
  match cs_put (store c) sequenceKey (le_put 8 next) with
  | (Some err, store') => (Err err, mkCore store' (sequence c) (counts c) (errors c) err)
  | (None, store') => (Ok next, mkCore store' next (counts c) (errors c) (lastError c))
  end.

Definition core_text (e : core_error) : bytes :=
  match e with ErrNotFound => str "filebackend: core key not found" | ErrStore t => t end.

Definition Core_ObserveQID (c : Core) (relative : bytes) (path version : Z) : option bytes * Core :=
  if path =? 0 then (Some (str "filebackend: invalid zero QID path"), c) else
  let relative := canonicalRelative relative in
  let value := le_put 8 path ++ le_put 4 version in
  match (match readUint 4 (store c) (versionKey relative) with Err ErrNotFound => Ok 0 | r => r end) with
  | Err e => (Some (core_text e), c <| lastError := core_text e |>)
  | Ok current =>
    let current := Z.max current version in
    let current := if current =? 0 then 1 else current in
    match cs_write (store c) [mkBatch (qidKey relative) value false; mkBatch (versionKey relative) (le_put 4 current) false] with
    | (Some err, store') => (Some err, c <| store := store' |> <| lastError := err |>)
    | (None, store') => (None, c <| store := store' |> <| lastError := [] |>)
    end
  end.

(** The new versions of the paths an operation changed. *)
Fixpoint bump_versions (store : S) (seen : list bytes) (paths : list bytes) : result core_error (list BatchEntry) :=
  match paths with
  | [] => Ok []
  | raw :: rest =>
    let relative := canonicalRelative raw in
    if existsb (str_eqb relative) seen then bump_versions store seen rest else
    let* current := match readUint 4 store (versionKey relative) with Err ErrNotFound => Ok 0 | r => r end in
    let current := u32 (current + 1) in
    let current := if current =? 0 then 1 else current in
    let* entries := bump_versions store (relative :: seen) rest in
    Ok (mkBatch (versionKey relative) (le_put 4 current) false :: entries)
  end.

Definition record_entries (normalized : Event) (newCount newErrors : Z) : list BatchEntry :=
  [mkBatch (counterKey (ev_Operation normalized)) (le_put 8 newCount) false; mkBatch lastKey (json_event normalized) false] ++
  (if str_eqb (ev_Phase normalized) PhaseError then [mkBatch errorsKey (le_put 8 newErrors) false] else []).

Definition Core_Record (now : Z) (c : Core) (e : Event) (mutationPaths : list bytes) : option bytes * Core :=
  match normalizeEvent now e with
  | Err err => (Some err, c)
  | Ok normalized =>
    let newCount := u64 (default 0 (counts c !! ev_Operation normalized) + 1) in
    let newErrors := if str_eqb (ev_Phase normalized) PhaseError then u64 (errors c + 1) else errors c in
    let entries := record_entries normalized newCount newErrors in
    match bump_versions (store c) [] mutationPaths with
    | Err e => (Some (core_text e), c <| lastError := core_text e |>)
    | Ok versions =>
      match cs_write (store c) (entries ++ versions) with
      | (Some err, store') => (Some err, c <| store := store' |> <| lastError := err |>)
      | (None, store') =>
        (None, mkCore store' (sequence c) (<[ev_Operation normalized := newCount]> (counts c)) newErrors [])
      end
    end
  end.

(** ** The service (service.go) *)

Record Service := mkService {
  core : Core;
  s_hooks : option Registry;
  s_readOnly : bool
}.
#[export] Instance update_core : Update core := fun v s => mkService v (s_hooks s) (s_readOnly s).

Record Pending := mkPending {
  pe_event : Event;
  pe_start : Z
}.

Definition ErrReadOnly : bytes := str "filebackend: read-only backend".

Definition eventMutates (e : Event) : bool :=
  if existsb (str_eqb (ev_Operation e)) [OperationCreate; OperationWrite; OperationRemove; OperationPrepareReplace; OperationCommitReplace; OperationAbortReplace]
  then true else
  if str_eqb (ev_Operation e) OperationOpen then negb (Z.land (ev_Mode e) 3 =? 0) || negb (Z.land (ev_Mode e) 16 =? 0) else false.

(** The event [Complete] records and shows to the after and error hooks. *)
Definition final_event (now : Z) (p : Pending) (operationErr : option bytes) : Event :=
  let e := pe_event p in
  mkEvent (ev_Version e) (ev_ID e) (ev_Operation e) (match operationErr with Some _ => PhaseError | None => PhaseAfter end)
    (ev_Path e) (ev_SecondaryPath e) (ev_Offset e) (ev_Size e) (ev_Mode e) (ev_Directory e) (ev_ReadOnly e) (ev_OccurredAt e)
    (now - pe_start p) (default [] operationErr) (ev_Attributes e).

Definition Complete (now : Z) (s : Service) (p : Pending) (operationErr : option bytes) (mutationPaths : list bytes) : Service :=
  if IsZero (pe_start p) then s else
  let paths := match operationErr with Some _ => [] | None => mutationPaths end in
  s <| core := (Core_Record now (core s) (final_event now p operationErr) paths).2 |>.

(** The event [Begin] makes of a request. *)
Definition before_event (now id : Z) (readOnly : bool) (e : Event) : Event :=
  mkEvent EventVersion id (ev_Operation e) PhaseBefore (ev_Path e) (ev_SecondaryPath e) (ev_Offset e) (ev_Size e)
    (ev_Mode e) (ev_Directory e) readOnly now (ev_Duration e) (ev_Error e) (ev_Attributes e).

Definition Begin (now : Z) (s : Service) (e : Event) : result bytes Pending * Service :=
  match NextID (core s) with
  | (Err err, c) => (Err (str "filebackend: reserve operation ID: " ++ err), s <| core := c |>)
  | (Ok id, c) =>
    let s := s <| core := c |> in
    match normalizeEvent now (before_event now id (s_readOnly s) e) with
    | Err err => (Err err, s)
    | Ok normalized =>
      let pending := mkPending normalized now in
      match (Run now (s_hooks s) normalized).1 with
      | Some err => (Err err, Complete now s pending (Some err) [])
      | None =>
        if s_readOnly s && eventMutates normalized
        then (Err ErrReadOnly, Complete now s pending (Some ErrReadOnly) [])
        else (Ok pending, s)
      end
    end
  end.

Definition Service_ObserveQID (s : Service) (relative : bytes) (path version : Z) : Service :=
  s <| core := (Core_ObserveQID (core s) relative path version).2 |>.

End Core.

(** ** What the protocol servers use of it *)

(** [API], as the 9P transport uses it: one question before an operation, one
    report after it. *)
Class FileAPI (B : Type) : Type := {
  api_pending : Type;
  api_begin : B -> Event -> result bytes api_pending * B;
  api_complete : B -> api_pending -> option bytes -> list bytes -> B;
  api_observe : B -> bytes -> Z -> Z -> B
}.

(** A service under a clock that gives the time of each call. *)
#[export] Instance service_api {S} `{CoreStore S} (json_event : Event -> bytes) : FileAPI (Z * Service (S:=S)) := {
  api_pending := Pending;
  api_begin b e := let (r, s) := Begin json_event b.1 b.2 e in (r, (b.1 + 1, s));
  api_complete b p err paths := (b.1 + 1, Complete json_event b.1 b.2 p err paths);
  api_observe b relative path version := (b.1, Service_ObserveQID b.2 relative path version)
}.

End FileBackend.
