(* ===== verification/P9Client.v ===== *)
(** * The 9P2000 client (internal/p9client)

    The synchronous client of client.go and the sequential files of
    sequential.go, in a small monad of its own: a computation runs against the
    client's state and whatever stands at the other end of the connection, and
    returns a value or an error.  Loops whose length the other end decides
    take fuel; [Running] is a loop that had not ended when it ran out. *)

From S2P Require Import Prelude GoStrings P9Server.

Module P9Client.
Import GoStrings.

Definition tVersion : Z := 100.
Definition rVersion : Z := 101.
Definition rError : Z := 107.
Definition tAttach : Z := 104.
Definition rAttach : Z := 105.
Definition tWalk : Z := 110.
Definition rWalk : Z := 111.
Definition tOpen : Z := 112.
Definition rOpen : Z := 113.
Definition tCreate : Z := 114.
Definition rCreate : Z := 115.
Definition tRead : Z := 116.
Definition rRead : Z := 117.
Definition tWrite : Z := 118.
Definition rWrite : Z := 119.
Definition tClunk : Z := 120.
Definition rClunk : Z := 121.
Definition tRemove : Z := 122.
Definition rRemove : Z := 123.
Definition tStat : Z := 124.
Definition rStat : Z := 125.

Definition OREAD : Z := 0.
Definition OWRITE : Z := 1.
Definition OTRUNC : Z := 16.
Definition permDir : Z := 2147483648.
Definition nofid : Z := 2 ^ 32 - 1.
Definition defaultMsize : Z := 65536.

(** The connection is what has arrived on it and was not read yet, [c_unread];
    the rest of it is the transport of the section below.  The mutex is left
    out: every exchange holds it, so calls are one after the other. *)
Record Client := mkClient {
  c_msize : Z;
  c_tag : Z;
  c_nextFid : Z;
  c_rootFid : Z;
  c_unread : bytes
}.
#[export] Instance update_c_msize : Update c_msize := fun v c => mkClient v (c_tag c) (c_nextFid c) (c_rootFid c) (c_unread c).
#[export] Instance update_c_tag : Update c_tag := fun v c => mkClient (c_msize c) v (c_nextFid c) (c_rootFid c) (c_unread c).
#[export] Instance update_c_nextFid : Update c_nextFid := fun v c => mkClient (c_msize c) (c_tag c) v (c_rootFid c) (c_unread c).
#[export] Instance update_c_unread : Update c_unread := fun v c => mkClient (c_msize c) (c_tag c) (c_nextFid c) (c_rootFid c) v.

Record DirEntry := mkEntry {
  d_Name : bytes;
  d_IsDir : bool;
  d_Size : Z
}.

(** The errors of the package, [fmt.Errorf]'s arguments kept as data. *)
Inductive cerror : Type :=
  | Failed (text : bytes)
  | Transport (text : bytes)
  | InvalidSize (size : Z)
  | TagMismatch (want got : Z)
  | UnexpectedReply (got request : Z)
  | Remote (msg : bytes)
  | InvalidPath (path : bytes)
  | WalkParent (dir : bytes) (e : cerror)
  | NilTransport
  | Running.

(** ** Wire layer *)

Definition field (n : nat) (off : nat) (payload : bytes) : Z := le_get (slice payload off (off + n)).

Definition expectedReply (t : Z) : Z :=
  if t =? tVersion then rVersion else if t =? tAttach then rAttach else if t =? tWalk then rWalk else
  if t =? tOpen then rOpen else if t =? tCreate then rCreate else if t =? tRead then rRead else
  if t =? tWrite then rWrite else if t =? tClunk then rClunk else if t =? tRemove then rRemove else
  if t =? tStat then rStat else 0.

Definition writeMessage (typ tag : Z) (payload : bytes) : bytes := le_put 4 (7 + len payload) ++ [typ] ++ le_put 2 tag ++ payload.

(** The message, and what is left of the input whether it was read or not. *)
Definition readMessage (inp : bytes) : result cerror (Z * Z * bytes) * bytes :=
  if len inp =? 0 then (Err (Transport (str "EOF")), []) else
  if len inp <? 7 then (Err (Transport (str "unexpected EOF")), []) else
  let size := field 4 0 inp in
  let rest := drop 7 inp in
  if (size <? 7) || (2 ^ 24 <? size) then (Err (InvalidSize size), rest) else
  let n := Z.to_nat (size - 7) in
  if len rest <? size - 7 then (Err (Transport (if len rest =? 0 then str "EOF" else str "unexpected EOF")), []) else
  (Ok (nth 4 inp 0, field 2 5 inp, take n rest), drop n rest).

Definition packString (value : bytes) : bytes := le_put 2 (len value) ++ value.

Definition unpackString (buf : bytes) (offset : Z) : result bytes (bytes * Z) :=
  if len buf <? offset + 2 then Err (str "short_string_len") else
  let ln := le_get (slice buf (Z.to_nat offset) (Z.to_nat (offset + 2))) in
  let offset := offset + 2 in
  if len buf <? offset + ln then Err (str "short_string_body") else
  Ok (slice buf (Z.to_nat offset) (Z.to_nat (offset + ln)), offset + ln).

Definition parseStat (buf : bytes) (off : Z) : result bytes (DirEntry * Z) :=
  if len buf <? off + 2 then Err (str "short_stat_size") else
  let bodyLen := field 2 (Z.to_nat off) buf in
  let off := off + 2 in
  if len buf <? off + bodyLen then Err (str "short_stat_body") else
  let body := slice buf (Z.to_nat off) (Z.to_nat (off + bodyLen)) in
  if len body <? 19 then Err (str "short_stat_qid") else
  if len body <? 23 then Err (str "short_stat_mode") else
  let mode := field 4 19 body in
  if len body <? 39 then Err (str "short_stat_length") else
  let size := field 8 31 body in
  let* '(name, _) := unpackString body 39 in
  Ok (mkEntry name (negb (Z.land mode permDir =? 0)) size, off + bodyLen).

(** ** Paths *)

Definition splitPath (path : bytes) : list bytes :=
  let path := trim_slash path in
  if str_eqb path [] then [] else
  List.filter (fun p => negb (str_eqb p [] || str_eqb p [46])) (split_slash path).

Fixpoint join_names (l : list bytes) : bytes :=
  match l with [] => [] | [x] => x | x :: r => x ++ [47] ++ join_names r end.

Definition splitParent (path : bytes) : bytes * bytes :=
  let names := splitPath path in
  match last names with
  | None => ([], [])
  | Some name => (join_names (removelast names), name)
  end.

(** ** The monad *)

Section Client.
(** The transport: writing a message to it may fail or bring bytes back;
    [hangup] closes it. *)
Context {St : Type} (stream : St -> bytes -> result bytes bytes * St) (hangup : St -> option bytes * St).

Definition M (A : Type) : Type := Client * St -> result cerror A * (Client * St).
Definition ret {A} (a : A) : M A := fun st => (Ok a, st).
Definition bind {A B} (m : M A) (k : A -> M B) : M B :=
  fun st => match m st with (Ok a, st) => k a st | (Err e, st) => (Err e, st) end.
Definition throw {A} (text : bytes) : M A := fun st => (Err (Failed text), st).
Definition get_msize : M Z := fun st => (Ok (c_msize st.1), st).
(** What a call returned, errors included. *)
Definition try_ {A} (m : M A) : M (result cerror A) := fun st =>
  match m st with
  | (Err Running, st) => (Err Running, st)
  | (r, st) => (Ok r, st)
  end.
Definition returned {A} (r : result cerror A) : M A := fun st => (r, st).
Definition close_conn : M (option bytes) := fun '(c, s) => let (e, s) := hangup s in (Ok e, (c, s)).

Local Notation "'let!' x := e 'in' k" := (bind e (fun x => k)) (at level 10, x name, e at level 200, k at level 200).
Local Notation "'let!' ' p := e 'in' k" := (bind e (fun x => match x with p => k end)) (at level 10, p strict pattern, e at level 200, k at level 200).

(** [fmt.Errorf("walk parent %q: %w", dir, err)]. *)
Definition walking {A} (dir : bytes) (m : M A) : M A :=
  let! r := try_ m in returned (result_map_err (WalkParent dir) r).

Definition rpc (typ : Z) (payload : bytes) : M bytes := fun '(c, s) =>
  let tag := u16 (c_tag c + 1) in
  let c := c <| c_tag := tag |> in
  match stream s (writeMessage typ tag payload) with
  | (Err e, s) => (Err (Transport e), (c, s))
  | (Ok inp, s) =>
    let (r, rest) := readMessage (c_unread c ++ inp) in
    let st := (c <| c_unread := rest |>, s) in
    match r with
    | Err e => (Err e, st)
    | Ok (rtype, rtag, rpayload) =>
      if negb (rtag =? tag) then (Err (TagMismatch tag rtag), st) else
      if rtype =? rError then (Err (Remote (match unpackString rpayload 0 with Ok (msg, _) => msg | Err _ => [] end)), st) else
      if negb (rtype =? expectedReply typ) then (Err (UnexpectedReply rtype typ), st) else
      (Ok rpayload, st)
    end
  end.

Definition version : M unit := fun st =>
  (let! resp := rpc tVersion (le_put 4 (c_msize st.1) ++ packString (str "9P2000")) in
   if len resp <? 4 then throw (str "short_rversion") else
   fun '(c, s) =>
     let m := field 4 0 resp in
     (Ok tt, ((if (0 <? m) && (m <? c_msize c) then c <| c_msize := m |> else c), s))) st.

Definition attachRoot : M unit := fun st =>
  (let! _ := rpc tAttach (le_put 4 (c_rootFid st.1) ++ le_put 4 nofid ++ packString (str "weaverssh") ++ packString []) in ret tt) st.

(** The client [attach] starts with, and its handshake. *)
Definition new_client : Client := mkClient defaultMsize 0 1 0 [].
Definition attach : M unit :=
  let! r := try_ (let! _ := version in attachRoot) in
  match r with
  | Ok _ => ret tt
  | Err e => let! _ := close_conn in returned (Err e)
  end.

(** [Attach] on a transport, [None] for nil. *)
Definition Attach (transport : option St) : result cerror (Client * St) :=
  match transport with
  | None => Err NilTransport
  | Some s => match attach (new_client, s) with (Ok _, st) => Ok st | (Err e, _) => Err e end
  end.

Definition allocFid : M Z := fun '(c, s) => (Ok (c_nextFid c), (c <| c_nextFid := u32 (c_nextFid c + 1) |>, s)).

Definition walk (path : bytes) : M Z := fun st =>
  let names := splitPath path in
  (let! newfid := allocFid in
   let! _ := rpc tWalk (le_put 4 (c_rootFid st.1) ++ le_put 4 newfid ++ le_put 2 (len names) ++ concat (packString <$> names)) in
   ret newfid) st.

Definition open_ (fid mode : Z) : M unit := let! _ := rpc tOpen (le_put 4 fid ++ [mode]) in ret tt.

Definition create (dirFid : Z) (name : bytes) (perm mode : Z) : M unit :=
  let! _ := rpc tCreate (le_put 4 dirFid ++ packString name ++ le_put 4 perm ++ [mode]) in ret tt.

Definition clunk (fid : Z) : M unit := let! _ := rpc tClunk (le_put 4 fid) in ret tt.
Definition remove (fid : Z) : M unit := let! _ := rpc tRemove (le_put 4 fid) in ret tt.

Definition Close : M (option bytes) := fun st =>
  (let! _ := try_ (clunk (c_rootFid st.1)) in close_conn) st.

(** [defer c.clunk(fid)] around [m]. *)
Definition deferred {A} (fid : Z) (m : M A) : M A :=
  let! r := try_ m in let! _ := try_ (clunk fid) in returned r.

(** ** High-level operations *)

Definition read_chunk (msize : Z) : Z :=
  let chunk := u32 (msize - 11) in
  if (chunk =? 0) || (2 ^ 20 <? chunk) then 8192 else chunk.
Definition write_chunk (msize : Z) : Z :=
  let chunk := msize - 23 in
  if (chunk <=? 0) || (2 ^ 20 <? chunk) then 8192 else chunk.

Definition read_request (fid offset count : Z) : bytes := le_put 4 fid ++ le_put 8 offset ++ le_put 4 count.

Fixpoint readAll_loop (fuel : nat) (fid chunk offset : Z) (out : bytes) : M bytes :=
  match fuel with
  | O => fun st => (Err Running, st)
  | S fuel =>
    let! resp := rpc tRead (read_request fid offset chunk) in
    if len resp <? 4 then throw (str "short_rread") else
    let n := field 4 0 resp in
    if n =? 0 then ret out else
    let n := if len resp - 4 <? n then len resp - 4 else n in
    readAll_loop fuel fid chunk (u64 (offset + n)) (out ++ slice resp 4 (Z.to_nat (4 + n)))
  end.
Definition readAll (fuel : nat) (fid : Z) : M bytes := let! m := get_msize in readAll_loop fuel fid (read_chunk m) 0 [].

Definition ReadFile (fuel : nat) (path : bytes) : M bytes :=
  let! fid := walk path in deferred fid (let! _ := open_ fid OREAD in readAll fuel fid).

Fixpoint parse_entries (fuel : nat) (data : bytes) (off : Z) : result bytes (list DirEntry) :=
  match fuel with
  | O => Ok []
  | S fuel =>
    if len data <=? off then Ok [] else
    let* '(e, next) := parseStat data off in
    let* rest := parse_entries fuel data next in
    Ok (e :: rest)
  end.

Definition List_ (fuel : nat) (path : bytes) : M (list DirEntry) :=
  let! fid := walk path in
  deferred fid (
    let! _ := open_ fid OREAD in
    let! data := readAll fuel fid in
    match parse_entries (S (length data)) data 0 with Ok entries => ret entries | Err e => throw e end).

Definition Stat (path : bytes) : M DirEntry :=
  let! fid := walk path in
  deferred fid (
    let! resp := rpc tStat (le_put 4 fid) in
    if len resp <? 2 then throw (str "short_rstat") else
    match parseStat resp 2 with Ok (e, _) => ret e | Err e => throw e end).

(** The loop of [writeAll]: every round sends at least one byte. *)
Fixpoint writeAll_loop (fuel : nat) (fid chunk offset : Z) (data : bytes) : M unit :=
  match fuel with
  | O => fun st => (Err Running, st)
  | S fuel =>
    match data with
    | [] => ret tt
    | _ =>
      let n := Z.min (len data) chunk in
      let! resp := rpc tWrite (le_put 4 fid ++ le_put 8 offset ++ le_put 4 n ++ take (Z.to_nat n) data) in
      if len resp <? 4 then throw (str "short_rwrite") else
      let wrote := field 4 0 resp in
      if wrote <=? 0 then throw (str "write_made_no_progress") else
      let wrote := Z.min wrote n in
      writeAll_loop fuel fid chunk (u64 (offset + wrote)) (drop (Z.to_nat wrote) data)
    end
  end.
Definition writeAll (fid : Z) (data : bytes) : M unit := let! m := get_msize in writeAll_loop (S (length data)) fid (write_chunk m) 0 data.

Definition WriteFile (path data : bytes) : M unit :=
  let (dir, name) := splitParent path in
  if str_eqb name [] then (fun st => (Err (InvalidPath path), st)) else
  let! parent := walking dir (walk dir) in
  deferred parent (
    let! child := try_ (walk path) in
    match child with
    | Ok child => deferred child (let! _ := open_ child (Z.lor OWRITE OTRUNC) in writeAll child data)
    | Err _ => let! _ := create parent name 420 (Z.lor OWRITE OTRUNC) in writeAll parent data
    end).

Definition Mkdir (path : bytes) : M unit :=
  let (dir, name) := splitParent path in
  if str_eqb name [] then (fun st => (Err (InvalidPath path), st)) else
  let! parent := walking dir (walk dir) in
  deferred parent (create parent name (Z.lor permDir 493) OREAD).

Fixpoint mkdir_all (cur : bytes) (names : list bytes) : M unit :=
  match names with
  | [] => ret tt
  | n :: names =>
    let cur := if str_eqb cur [] then n else cur ++ [47] ++ n in
    let! there := try_ (walk cur) in
    match there with
    | Ok _ => mkdir_all cur names
    | Err _ => let! _ := Mkdir cur in mkdir_all cur names
    end
  end.
Definition MkdirAll (path : bytes) : M unit := mkdir_all [] (splitPath path).

Definition Remove (path : bytes) : M unit := let! fid := walk path in remove fid.

(** ** Open files *)

Definition OpenFile (path : bytes) (mode : Z) : M Z :=
  let! fid := walk path in
  let! opened := try_ (open_ fid mode) in
  match opened with
  | Ok _ => ret fid
  | Err e => let! _ := try_ (clunk fid) in returned (Err e)
  end.

Definition CreateFile (path : bytes) (perm : Z) : M Z :=
  let (dir, name) := splitParent path in
  if str_eqb name [] then (fun st => (Err (InvalidPath path), st)) else
  let! fid := walking dir (walk dir) in
  let! created := try_ (create fid name (Z.land perm 511) (Z.lor OWRITE OTRUNC)) in
  match created with
  | Ok _ => ret fid
  | Err e => let! _ := try_ (clunk fid) in returned (Err e)
  end.

(** [ReadAt] into a buffer of [want] bytes: what it holds, and the error if
    there was one. *)
Fixpoint readAt_loop (fuel : nat) (fid chunk off : Z) (want : Z) (got : bytes) : M (bytes * option cerror) :=
  match fuel with
  | O => fun st => (Err Running, st)
  | S fuel =>
    if want <=? len got then ret (got, None) else
    let! r := try_ (rpc tRead (read_request fid (u64 (off + len got)) (Z.min (u32 (want - len got)) chunk))) in
    match r with
    | Err e => ret (got, Some e)
    | Ok resp =>
      if len resp <? 4 then ret (got, Some (Failed (str "short_rread"))) else
      let n := field 4 0 resp in
      if n =? 0 then ret (got, None) else
      let n := if len resp - 4 <? n then len resp - 4 else n in
      readAt_loop fuel fid chunk off want (got ++ take (Z.to_nat (want - len got)) (slice resp 4 (Z.to_nat (4 + n))))
    end
  end.
Definition ReadAt (fuel : nat) (fid off want : Z) : M (bytes * option cerror) :=
  let! m := get_msize in readAt_loop fuel fid (read_chunk m) off want [].

Fixpoint writeAt_loop (fuel : nat) (fid chunk off total : Z) (p : bytes) : M (Z * option cerror) :=
  match fuel with
  | O => fun st => (Err Running, st)
  | S fuel =>
    if len p <=? total then ret (total, None) else
    let n := Z.min (len p - total) chunk in
    let! r := try_ (rpc tWrite (le_put 4 fid ++ le_put 8 (u64 (off + total)) ++ le_put 4 n ++ slice p (Z.to_nat total) (Z.to_nat (total + n)))) in
    match r with
    | Err e => ret (total, Some e)
    | Ok resp =>
      if len resp <? 4 then ret (total, Some (Failed (str "short_rwrite"))) else
      let wrote := field 4 0 resp in
      if wrote <=? 0 then ret (total, Some (Failed (str "write_made_no_progress"))) else
      writeAt_loop fuel fid chunk off (total + Z.min wrote n) p
    end
  end.
Definition WriteAt (fid off : Z) (p : bytes) : M (Z * option cerror) :=
  let! m := get_msize in writeAt_loop (S (length p)) fid (write_chunk m) off 0 p.

Definition File_Close (fid : Z) : M unit := clunk fid.

(** ** Sequential files *)

Record SequentialFile := mkSequential {
  s_file : option Z;
  s_offset : Z
}.

Definition OpenReader (path : bytes) : M SequentialFile := let! fid := OpenFile path OREAD in ret (mkSequential (Some fid) 0).

Definition OpenWriter (path : bytes) (perm : Z) : M SequentialFile :=
  let! opened := try_ (OpenFile path (Z.lor OWRITE OTRUNC)) in
  match opened with
  | Ok fid => ret (mkSequential (Some fid) 0)
  | Err _ => let! fid := CreateFile path perm in ret (mkSequential (Some fid) 0)
  end.

Inductive io_error : Type := EOF | ClosedPipe | IOError (e : cerror).

Definition Sequential_Read (fuel : nat) (f : SequentialFile) (want : Z) : M (bytes * option io_error * SequentialFile) :=
  if want =? 0 then ret ([], None, f) else
  match s_file f with
  | None => ret ([], Some ClosedPipe, f)
  | Some fid =>
    let! '(data, err) := ReadAt fuel fid (s_offset f) want in
    let f := mkSequential (s_file f) (i64 (s_offset f + len data)) in
    match err with
    | Some e => ret (data, Some (IOError e), f)
    | None => ret (data, if len data =? 0 then Some EOF else None, f)
    end
  end.

Definition Sequential_Write (f : SequentialFile) (p : bytes) : M (Z * option io_error * SequentialFile) :=
  if len p =? 0 then ret (0, None, f) else
  match s_file f with
  | None => ret (0, Some ClosedPipe, f)
  | Some fid =>
    let! '(n, err) := WriteAt fid (s_offset f) p in
    ret (n, IOError <$> err, mkSequential (s_file f) (i64 (s_offset f + n)))
  end.

Definition Sequential_Close (f : SequentialFile) : M (option cerror * SequentialFile) :=
  match s_file f with
  | None => ret (None, f)
  | Some fid =>
    let! r := try_ (File_Close fid) in
    ret (match r with Ok _ => None | Err e => Some e end, mkSequential None (s_offset f))
  end.

End Client.
End P9Client.
