(* ===== verification/P9Backend.v ===== *)
(** * The 9P transport that consults the file backend
    (internal/p9svc/backend_transport.go)

    [backendTransport] sits between a client and the 9P server, keeps its own
    table of fids, asks the backend before a request is let through and tells it
    the outcome when the server's reply passes. *)

From S2P Require Import Prelude GoStrings GoEncoding GoFs P9Server FileBackend.

Module P9Backend.
Import GoStrings GoEncoding GoFs P9Server FileBackend.

Record trackedFid := mkTracked {
  t_path : bytes;
  t_directory : bool
}.

(** [trackedRequest] without its [pending], which the table keeps next to it. *)
Record trackedRequest := mkRequest {
  requestType : Z;
  t_fid : Z;
  t_newfid : Z;
  basePath : bytes;
  targetPath : bytes;
  walkNames : list bytes;
  directory : bool;
  mutationPath : list bytes
}.

(** ** Decoding *)

Definition decodeQID (payload : bytes) (offset : Z) : option qid :=
  if (offset <? 0) || (len payload <? offset + 13) then None else
  let o := Z.to_nat offset in
  Some (mkQid (nth o payload 0) (field 4 (o + 1) payload) (field 8 (o + 5) payload)).

Definition decodeWalk (payload : bytes) : result bytes (Z * Z * list bytes) :=
  if len payload <? 10 then Err (str "short_twalk") else
  let* names := unpack_names (Z.to_nat (field 2 8 payload)) payload 10 in
  Ok (field 4 0 payload, field 4 4 payload, names).

Definition decodeIORequest (payload : bytes) : option (Z * Z * Z) :=
  if len payload <? 16 then None else Some (field 4 0 payload, field 8 4 payload, field 4 12 payload).

Definition expectedResponse (request : Z) : Z :=
  if request =? Tattach then Rattach else if request =? Twalk then Rwalk else if request =? Topen then Ropen else
  if request =? Tcreate then Rcreate else if request =? Tread then Rread else if request =? Twrite then Rwrite else
  if request =? Tclunk then Rclunk else if request =? Tremove then Rremove else if request =? Tstat then Rstat else 0.

Definition responseError (msg : message) (request : Z) : option bytes :=
  if m_type msg =? Rerror then
    match unpackString (m_payload msg) 0 with
    | Ok (text, _) => Some (if str_eqb text [] then str "9p_backend_error" else text)
    | Err _ => Some (str "9p_backend_error")
    end
  else if negb (m_type msg =? expectedResponse request) then Some (str "unexpected_9p_response_" ++ json_int (m_type msg))
  else None.

(** [path.Join], which cleans like [filepath.Join] on Unix. *)
Definition joinRelative (base name : bytes) : bytes :=
  let joined := Join (TrimPrefix base [slash]) name in
  if str_eqb joined dot then [] else TrimPrefix joined [slash].

Definition skipped (name : bytes) : bool := str_eqb name [] || str_eqb name dot.

Definition joinWalk (base : bytes) (names : list bytes) : bytes :=
  fold_left (fun result name => if skipped name then result else joinRelative result name) names base.

Fixpoint partialWalk (base : bytes) (names : list bytes) (qidCount : Z) : bytes :=
  match names with
  | [] => base
  | name :: rest =>
    if skipped name then partialWalk base rest qidCount else
    if qidCount <=? 0 then base else partialWalk (joinRelative base name) rest (qidCount - 1)
  end.

Definition boundedError (text : bytes) : bytes := take (Z.to_nat 4096) text.

Definition FormatBool (b : bool) : bytes := if b then str "true" else str "false".

Section Transport.
Context {B : Type} {HB : FileAPI B}.

Record transport := mkTransport {
  backend : B;
  writeBuf : bytes;
  t_version : bytes;
  t_fids : gmap Z trackedFid;
  pending : gmap Z (api_pending * trackedRequest)
}.
#[export] Instance update_backend : Update backend := fun v t => mkTransport v (writeBuf t) (t_version t) (t_fids t) (pending t).
#[export] Instance update_writeBuf : Update writeBuf := fun v t => mkTransport (backend t) v (t_version t) (t_fids t) (pending t).
#[export] Instance update_t_version : Update t_version := fun v t => mkTransport (backend t) (writeBuf t) v (t_fids t) (pending t).
#[export] Instance update_t_fids : Update t_fids := fun v t => mkTransport (backend t) (writeBuf t) (t_version t) v (pending t).
#[export] Instance update_pending : Update pending := fun v t => mkTransport (backend t) (writeBuf t) (t_version t) (t_fids t) v.

Definition newBackendTransport (b : B) : transport := mkTransport b [] servedVersion ∅ ∅.

(** [t.fids[fid]]: the zero value for a fid that is not there. *)
Definition lookup_fid (t : transport) (fid : Z) : trackedFid := default (mkTracked [] false) (t_fids t !! fid).

(** ** Requests *)

Definition event_of (operation path secondary : bytes) (offset size mode : Z) (dir : bool) (attributes : gmap bytes bytes) : Event :=
  mkEvent [] 0 operation [] path secondary offset size mode dir false 0 0 [] attributes.

Definition describeRequest (t : transport) (msg : message) : option (Event * trackedRequest) :=
  let payload := m_payload msg in
  let ty := m_type msg in
  let base_attrs : gmap bytes bytes := {[ str "protocol" := str "9p2000"; str "tag" := json_int (m_tag msg) ]} in
  let attrs fid := <[str "fid" := json_int fid]> (<[str "known_fid" := FormatBool (bool_decide (is_Some (t_fids t !! fid)))]> base_attrs) in
  let short4 := len payload <? 4 in
  let fid := field 4 0 payload in
  let state := lookup_fid t fid in
  if ty =? Tattach then
    if short4 then None else
    Some (event_of OperationAttach [] [] 0 0 0 true (<[str "fid" := json_int fid]> base_attrs), mkRequest ty fid 0 [] [] [] false [])
  else if ty =? Twalk then
    match decodeWalk payload with
    | Err _ => None
    | Ok (fid, newfid, names) =>
      let base := lookup_fid t fid in
      let target := joinWalk (t_path base) names in
      Some (event_of OperationWalk (t_path base) target 0 0 0 false (<[str "newfid" := json_int newfid]> (attrs fid)),
            mkRequest ty fid newfid (t_path base) target names false [])
    end
  else if ty =? Topen then
    if len payload <? 5 then None else
    let mode := nth 4 payload 0 in
    Some (event_of OperationOpen (t_path state) [] 0 0 mode (t_directory state) (attrs fid),
          mkRequest ty fid 0 [] (t_path state) [] false (if negb (Z.land mode openTrunc =? 0) then [t_path state] else []))
  else if ty =? Tcreate then
    if short4 then None else
    match unpackString payload 4 with
    | Err _ => None
    | Ok (name, off) =>
      if len payload <? off + 5 then None else
      let perm := field 4 (Z.to_nat off) payload in
      let target := joinRelative (t_path state) name in
      let dir := negb (Z.land perm permDir =? 0) in
      Some (event_of OperationCreate target [] 0 0 perm dir (attrs fid), mkRequest ty fid 0 (t_path state) target [] dir [target])
    end
  else if ty =? Tread then
    match decodeIORequest payload with
    | None => None
    | Some (fid, offset, count) =>
      let state := lookup_fid t fid in
      Some (event_of (if t_directory state then OperationReadDir else OperationRead) (t_path state) [] offset count 0 (t_directory state) (attrs fid),
            mkRequest ty fid 0 [] (t_path state) [] false [])
    end
  else if ty =? Twrite then
    match decodeIORequest payload with
    | None => None
    | Some (fid, offset, count) =>
      let actual := len payload - 16 in
      let state := lookup_fid t fid in
      let attributes := if actual <? count then <[str "declared_size" := json_int count]> (attrs fid) else attrs fid in
      Some (event_of OperationWrite (t_path state) [] offset (Z.min count actual) 0 false attributes,
            mkRequest ty fid 0 [] (t_path state) [] false [t_path state])
    end
  else if ty =? Tclunk then
    if short4 then None else
    Some (event_of OperationClunk (t_path state) [] 0 0 0 false (attrs fid), mkRequest ty fid 0 [] (t_path state) [] false [])
  else if ty =? Tremove then
    if short4 then None else
    Some (event_of OperationRemove (t_path state) [] 0 0 0 (t_directory state) (attrs fid), mkRequest ty fid 0 [] (t_path state) [] false [t_path state])
  else if ty =? Tstat then
    if short4 then None else
    Some (event_of OperationStat (t_path state) [] 0 0 0 (t_directory state) (attrs fid), mkRequest ty fid 0 [] (t_path state) [] false [])
  else None.

(** One turn of [Read]'s loop: whether the request goes through to the server,
    or the error that answers it. *)
Definition incoming (t : transport) (msg : message) : transport * result bytes message :=
  if m_type msg =? Tversion then (t, Ok msg) else
  match describeRequest t msg with
  | None => (t, Ok msg)
  | Some (event, tracked) =>
    match api_begin (backend t) event with
    | (Err err, b) => (t <| backend := b |>, Err (writeMessage Rerror (m_tag msg) (error_payload (t_version t) (boundedError err))))
    | (Ok pe, b) =>
      if bool_decide (is_Some (pending t !! m_tag msg)) then
        (t <| backend := api_complete b pe (Some (str "duplicate_9p_tag")) [] |>,
         Err (writeMessage Rerror (m_tag msg) (error_payload (t_version t) (str "duplicate_9p_tag"))))
      else (t <| backend := b |> <| pending := <[m_tag msg := (pe, tracked)]> (pending t) |>, Ok msg)
    end
  end.

(** ** Replies *)

Definition storeFid (t : transport) (fid : Z) (state : trackedFid) : transport := t <| t_fids := <[fid := state]> (t_fids t) |>.

Definition observe (t : transport) (relative : bytes) (q : qid) : transport :=
  t <| backend := api_observe (backend t) relative (q_path q) (q_version q) |>.

Definition is_dir (q : qid) : bool := negb (Z.land (q_type q) qidDir =? 0).

Definition applySuccess (t : transport) (msg : message) (tr : trackedRequest) : transport :=
  let ty := requestType tr in
  let payload := m_payload msg in
  if ty =? Tattach then
    let t := storeFid t (t_fid tr) (mkTracked [] true) in
    match decodeQID payload 0 with Some q => observe t [] q | None => t end
  else if ty =? Twalk then
    if len payload <? 2 then t else
    let count := field 2 0 payload in
    let partial := partialWalk (basePath tr) (walkNames tr) count in
    let state := if (count =? 0) && (len (walkNames tr) =? 0) then lookup_fid t (t_fid tr) else mkTracked partial false in
    let '(t, state) := if 0 <? count then
        match decodeQID payload (2 + (count - 1) * 13) with
        | Some q => (observe t partial q, mkTracked (t_path state) (is_dir q))
        | None => (t, state)
        end
      else (t, state) in
    storeFid t (t_newfid tr) state
  else if ty =? Topen then
    match decodeQID payload 0 with
    | Some q => observe (storeFid t (t_fid tr) (mkTracked (t_path (lookup_fid t (t_fid tr))) (is_dir q))) (targetPath tr) q
    | None => t
    end
  else if ty =? Tcreate then
    match decodeQID payload 0 with
    | Some q => storeFid (observe t (targetPath tr) q) (t_fid tr) (mkTracked (targetPath tr) (is_dir q))
    | None => storeFid t (t_fid tr) (mkTracked (targetPath tr) (directory tr))
    end
  else if ty =? Tclunk then t <| t_fids := delete (t_fid tr) (t_fids t) |>
  else t.

Definition processResponse (t : transport) (msg : message) : transport :=
  if m_type msg =? Rversion then
    if 6 <=? len (m_payload msg) then
      match unpackString (m_payload msg) 4 with
      | Ok (version, _) => if str_eqb version [] then t else t <| t_version := version |>
      | Err _ => t
      end
    else t
  else
  match pending t !! m_tag msg with
  | None => t
  | Some (pe, tr) =>
    let t := t <| pending := delete (m_tag msg) (pending t) |> in
    let err := responseError msg (requestType tr) in
    let t := match err with None => applySuccess t msg tr | Some _ => t end in
    let t := if requestType tr =? Tremove then t <| t_fids := delete (t_fid tr) (t_fids t) |> else t in
    t <| backend := api_complete (backend t) pe err (mutationPath tr) |>
  end.

(** The loop of [Write] over whole frames; [None] is its size error. *)
Fixpoint drain (fuel : nat) (t : transport) : option (transport * bytes) :=
  match fuel with
  | O => Some (t, [])
  | S fuel =>
    if len (writeBuf t) <? 4 then Some (t, []) else
    let size := field 4 0 (writeBuf t) in
    if (size <? 7) || (2 ^ 24 <? size) then None else
    if len (writeBuf t) <? size then Some (t, []) else
    let frame := take (Z.to_nat size) (writeBuf t) in
    let t := t <| writeBuf := drop (Z.to_nat size) (writeBuf t) |> in
    let t := processResponse t (mkMessage (nth 4 frame 0) (field 2 5 frame) (drop 7 frame)) in
    match drain fuel t with
    | None => None
    | Some (t, out) => Some (t, frame ++ out)
    end
  end.

Definition Write (t : transport) (source : bytes) : option (transport * bytes) :=
  let t := t <| writeBuf := writeBuf t ++ source |> in
  drain (S (length (writeBuf t))) t.

(** ** One request through the transport

    [ServeTransportContext]: the client's message, the transport, the server and
    the reply on its way back, as the header and then the payload. *)
Definition exchange (h : host) (s : Server) (t : transport) (ss : session) (f : fs) (msg : message) : option (bytes * transport * session * fs) :=
  match incoming t msg with
  | (t, Err out) => Some (out, t, ss, f)
  | (t, Ok msg) =>
    let '(reply, ss, f) := respond h s ss f msg in
    let frame := writeMessage (m_type reply) (m_tag reply) (m_payload reply) in
    match Write t (take 7 frame) with
    | None => None
    | Some (t, out1) =>
      match Write t (drop 7 frame) with
      | None => None
      | Some (t, out2) => Some (out1 ++ out2, t, ss, f)
      end
    end
  end.

End Transport.
End P9Backend.
