(* ===== verification/P9BackendProofs.v ===== *)
(** * The 9P transport: it sees what the server does *)

From S2P Require Import Prelude GoStrings GoEncoding GoFs GoFsProofs P9Server P9ServerProofs FileBackend P9Backend.

Module P9BackendProofs.
Import GoStrings GoEncoding GoFs GoFsProofs P9Server P9ServerProofs FileBackend P9Backend.

(** ** The names of fids *)

Definition rel_ok (ss : session) : Prop :=
  map_Forall (fun _ st => exists rl, rel st = join_slash rl /\ Forall plain rl) (fids ss).

Lemma joinRelative_plain rl name : Forall plain rl -> plain name -> joinRelative (join_slash rl) name = Join (join_slash rl) name.
Proof.
  intros Hrl Hn. unfold joinRelative. rewrite TrimPrefix_rel, Join_rel by done.
  assert (Forall plain (rl ++ [name])) as Hall by (apply Forall_app; split; [done|by constructor]).
  destruct (str_eqb_spec (join_slash (rl ++ [name])) dot) as [E|_]; [by apply join_slash_not_dot in E|].
  by rewrite TrimPrefix_rel.
Qed.

Lemma walk_name_plain name : str_eqb name [] || has_separator name || str_eqb name dotdot = false -> str_eqb name dot = false -> plain name.
Proof.
  intros [[E1 E2]%orb_false_elim E3]%orb_false_elim E4.
  split_and!; [by destruct (str_eqb_spec name [])|by destruct (str_eqb_spec name dot)|by destruct (str_eqb_spec name dotdot)|by apply has_separator_no_slash].
Qed.

(** The transport follows the names the server walked. *)
Lemma partialWalk_walked h s f rl names last qids : Forall plain rl -> walk_names h s f (join_slash rl) names = Ok (last, qids) ->
  partialWalk (join_slash rl) names (len qids) = last /\ (length qids <= length names)%nat.
Proof.
  revert rl qids. induction names as [|n names IH]; intros rl qids Hrl; cbn [walk_names partialWalk].
  { intros [= <- <-]. done. }
  destruct (str_eqb n [] || has_separator n || str_eqb n dotdot) eqn:E; [done|]. unfold skipped.
  destruct (str_eqb n dot) eqn:Ed.
  { rewrite orb_true_r. intros H. destruct (IH rl qids Hrl H) as [-> Hl]. cbn. split; [done|lia]. }
  assert (plain n) as Hn by (by apply walk_name_plain).
  apply orb_false_elim in E as [[-> _]%orb_false_elim _]. cbn [orb].
  assert (Forall plain (rl ++ [n])) as Hall by (apply Forall_app; split; [done|by constructor]).
  destruct (resolve _ _ _ _); [|done]. cbn [result_bind]. destruct (os_Stat _ _ _); [|done].
  rewrite joinRelative_plain by done. rewrite Join_rel by done.
  destruct (walk_names h s f (join_slash (rl ++ [n])) names) as [[last' qids']|] eqn:Ew; [|done]. cbn [result_bind].
  intros [= <- <-]. destruct (IH _ _ Hall Ew) as [Hp Hl]. rewrite len_cons. pose proof (len_nonneg qids').
  replace (1 + len qids' <=? 0) with false by lia. replace (1 + len qids' - 1) with (len qids') by lia. split; [done|cbn; lia].
Qed.

Lemma rel_ok_insert ss k st : rel_ok ss -> (exists rl, rel st = join_slash rl /\ Forall plain rl) ->
  rel_ok (ss <| fids := <[k := st]> (fids ss) |>).
Proof. intros Hs Hst. by apply map_Forall_insert_2. Qed.
Lemma rel_ok_delete ss k : rel_ok ss -> rel_ok (ss <| fids := delete k (fids ss) |>).
Proof. intros Hs. by apply map_Forall_delete. Qed.

(** ** What a request does to the server's fids, and under which names *)

Definition fid_of (msg : message) : Z := field 4 0 (m_payload msg).

(** The fids after a request, from the outcome the client sees. *)
Inductive moved (ss : session) (msg : message) : result bytes (Z * bytes) -> gmap Z fidState -> Prop :=
| MovedErr e : m_type msg <> Tremove \/ len (m_payload msg) < 4 -> moved ss msg (Err e) (fids ss)
| MovedStill t p : (m_type msg, t) ∈ [(Tversion, Rversion); (Tread, Rread); (Twrite, Rwrite); (Tstat, Rstat)] ->
    moved ss msg (Ok (t, p)) (fids ss)
| MovedRemove r : (forall t p, r = Ok (t, p) -> t = Rremove) -> m_type msg = Tremove -> 4 <= len (m_payload msg) ->
    moved ss msg r (delete (fid_of msg) (fids ss))
| MovedClunk p : m_type msg = Tclunk -> 4 <= len (m_payload msg) -> moved ss msg (Ok (Rclunk, p)) (delete (fid_of msg) (fids ss))
| MovedAttach p st : m_type msg = Tattach -> 4 <= len (m_payload msg) -> rel st = [] ->
    moved ss msg (Ok (Rattach, p)) (<[fid_of msg := st]> (fids ss))
| MovedOpen p st st' : m_type msg = Topen -> fids ss !! fid_of msg = Some st -> rel st' = rel st ->
    moved ss msg (Ok (Ropen, p)) (<[fid_of msg := st']> (fids ss))
| MovedCreate p st st' name off : m_type msg = Tcreate -> unpackString (m_payload msg) 4 = Ok (name, off) ->
    plain name -> fids ss !! fid_of msg = Some st -> rel st' = Join (rel st) name ->
    moved ss msg (Ok (Rcreate, p)) (<[fid_of msg := st']> (fids ss))
| MovedClone st : m_type msg = Twalk -> decodeWalk (m_payload msg) = Ok (fid_of msg, field 4 4 (m_payload msg), []) ->
    fids ss !! fid_of msg = Some st ->
    moved ss msg (Ok (Rwalk, walk_reply [])) (<[field 4 4 (m_payload msg) := st]> (fids ss))
| MovedWalk st st' names qids : m_type msg = Twalk -> decodeWalk (m_payload msg) = Ok (fid_of msg, field 4 4 (m_payload msg), names) ->
    names <> [] -> fids ss !! fid_of msg = Some st -> len qids < 65536 ->
    partialWalk (rel st) names (len qids) = rel st' -> (exists rl, rel st' = join_slash rl /\ Forall plain rl) ->
    moved ss msg (Ok (Rwalk, walk_reply qids)) (<[field 4 4 (m_payload msg) := st']> (fids ss)).

Lemma unpack_names_length n payload off names : unpack_names n payload off = Ok names -> length names = n.
Proof.
  revert off names. induction n as [|n IH]; intros off names; cbn; [by intros [= <-]|].
  destruct (unpackString payload off) as [[name next]|]; [|done]. cbn.
  destruct (unpack_names n payload next) as [l|] eqn:E; [|done]. cbn. intros [= <-]. cbn. by rewrite (IH _ _ E).
Qed.

Lemma field_bound n off payload : bytes_ok payload -> 0 <= field n off payload < 256 ^ Z.of_nat n.
Proof.
  intros Hb. unfold field, slice. assert (bytes_ok (take (off + n - off) (drop off payload))) as Ht by (by apply Forall_take, Forall_drop).
  pose proof (le_get_bound _ Ht) as Hg. rewrite len_take in Hg.
  assert (256 ^ Z.min (Z.of_nat (off + n - off)) (len (drop off payload)) <= 256 ^ Z.of_nat n); [|lia].
  apply Z.pow_le_mono_r; [lia|]. lia.
Qed.

Lemma handleWalk_moved h s ss f msg r ss' f' : rel_ok ss -> bytes_ok (m_payload msg) -> m_type msg = Twalk ->
  handleWalk h s ss f (m_payload msg) = (r, ss', f') -> moved ss msg r (fids ss').
Proof.
  intros Hs Hb Ht. unfold handleWalk. assert (m_type msg <> Tremove \/ len (m_payload msg) < 4) as Hn by (left; by rewrite Ht).
  destruct (len (m_payload msg) <? 10) eqn:El; [intros [= <- <- <-]; by constructor|].
  destruct (unpack_names _ (m_payload msg) 10) as [names|] eqn:Eu; [|intros [= <- <- <-]; by constructor].
  assert (decodeWalk (m_payload msg) = Ok (fid_of msg, field 4 4 (m_payload msg), names)) as Hd
    by (unfold decodeWalk, fid_of; by rewrite El, Eu).
  fold (fid_of msg). pose proof (field_bound 2 8 (m_payload msg) Hb) as Hw. change (256 ^ Z.of_nat 2) with 65536 in Hw.
  apply unpack_names_length in Eu as Hlen.
  destruct (fids ss !! fid_of msg) as [base|] eqn:Ef; [|intros [= <- <- <-]; by constructor].
  destruct (Z.eqb_spec (field 2 8 (m_payload msg)) 0) as [E0|E0].
  { intros [= <- <- <-]. rewrite E0 in Hlen. destruct names; [|done]. by apply (MovedClone ss msg base). }
  destruct (Hs _ _ Ef) as (rl & Hrel & Hrl). rewrite Hrel.
  destruct (walk_names h s f (join_slash rl) names) as [[last qids]|] eqn:Ew; [|intros [= <- <- <-]; by constructor]. cbn [result_bind].
  destruct (resolve h s f last) as [p|]; [|intros [= <- <- <-]; by constructor]. cbn [result_bind].
  destruct (os_error h p (os_Stat h f p)) as [info|]; [|intros [= <- <- <-]; by constructor]. cbn [result_bind].
  intros [= <- <- <-]. pose proof (partialWalk_walked _ _ _ _ _ _ _ Hrl Ew) as [Hp Hq].
  apply (MovedWalk ss msg base (mkFid last p false (i_dir info)) names qids); try done.
  - intros ->. cbn [length] in Hlen. lia.
  - unfold len. lia.
  - by rewrite Hrel.
  - by eapply walk_names_rel.
Qed.

Lemma handleCreate_moved h s ss f msg r ss' f' : m_type msg = Tcreate ->
  handleCreate h s ss f (m_payload msg) = (r, ss', f') -> moved ss msg r (fids ss').
Proof.
  intros E. assert (forall e, m_type msg <> Tremove -> moved ss msg (Err e) (fids ss)) as Herr by (intros e He; constructor; by left).
  unfold handleCreate. case_match; [intros [= <- <- <-]; apply Herr; by rewrite E|]. case_match; [intros [= <- <- <-]; apply Herr; by rewrite E|].
  destruct (unpackString (m_payload msg) 4) as [[name off]|] eqn:Eu; [|intros [= <- <- <-]; apply Herr; by rewrite E].
  case_match; [intros [= <- <- <-]; apply Herr; by rewrite E|].
  destruct (fids ss !! field 4 0 (m_payload msg)) as [st|] eqn:Ef; [|intros [= <- <- <-]; apply Herr; by rewrite E].
  case_match; [intros [= <- <- <-]; apply Herr; by rewrite E|].
  destruct (str_eqb name [] || str_eqb name dot || str_eqb name dotdot || has_separator name) eqn:En; [intros [= <- <- <-]; apply Herr; by rewrite E|].
  assert (plain name) as Hn.
  { apply orb_false_elim in En as [[[E1 E2]%orb_false_elim E3]%orb_false_elim E4]. apply walk_name_plain; [|done]. by rewrite E1, E3, E4. }
  repeat case_match; intros [= <- <- <-]; try (apply Herr; by rewrite E); by apply (MovedCreate ss msg _ st _ name off).
Qed.

Lemma handle_moved h s ss f msg r ss' f' : rel_ok ss -> bytes_ok (m_payload msg) ->
  handle h s ss f msg = (r, ss', f') -> moved ss msg r (fids ss').
Proof.
  intros Hs Hb. unfold handle.
  assert (forall e, m_type msg <> Tremove -> moved ss msg (Err e) (fids ss)) as Herr by (intros e He; constructor; by left).
  destruct (Z.eqb_spec (m_type msg) Tversion) as [E|].
  { unfold handleVersion. repeat case_match; intros [= <- <- <-]; try (apply Herr; by rewrite E); cbn [fids]; apply MovedStill; rewrite E; apply list_elem_of_In; cbn; auto. }
  destruct (Z.eqb_spec (m_type msg) Tattach) as [E|].
  { unfold handleAttach. destruct (Z.ltb_spec (len (m_payload msg)) 8); [intros [= <- <- <-]; apply Herr; by rewrite E|].
    repeat case_match; intros [= <- <- <-]; try (apply Herr; by rewrite E). apply MovedAttach; [done|lia|done]. }
  destruct (Z.eqb_spec (m_type msg) Twalk) as [E|]; [by apply handleWalk_moved|].
  destruct (Z.eqb_spec (m_type msg) Topen) as [E|].
  { unfold handleOpen. case_match; [intros [= <- <- <-]; apply Herr; by rewrite E|].
    destruct (fids ss !! field 4 0 (m_payload msg)) as [st|] eqn:Ef; [|intros [= <- <- <-]; apply Herr; by rewrite E].
    repeat case_match; intros [= <- <- <-]; try (apply Herr; by rewrite E); by apply (MovedOpen ss msg _ st). }
  destruct (Z.eqb_spec (m_type msg) Tcreate) as [E|]; [by apply handleCreate_moved|].
  destruct (Z.eqb_spec (m_type msg) Tread) as [E|].
  { unfold handleRead. repeat case_match; intros [= <- <- <-]; try (apply Herr; by rewrite E); apply MovedStill; rewrite E; apply list_elem_of_In; cbn; auto. }
  destruct (Z.eqb_spec (m_type msg) Twrite) as [E|].
  { unfold handleWrite. repeat case_match; intros [= <- <- <-]; try (apply Herr; by rewrite E); apply MovedStill; rewrite E; apply list_elem_of_In; cbn; auto. }
  destruct (Z.eqb_spec (m_type msg) Tclunk) as [E|].
  { unfold handleClunk. case_match eqn:El; intros [= <- <- <-]; [apply Herr; by rewrite E|]. apply MovedClunk; [done|lia]. }
  destruct (Z.eqb_spec (m_type msg) Tremove) as [E|].
  { unfold handleRemove. case_match eqn:El; [intros [= <- <- <-]; constructor; right; lia|].
    repeat case_match; intros [= <- <- <-]; (apply MovedRemove; [|done|lia]); by intros ? ? [= <- <-]. }
  destruct (Z.eqb_spec (m_type msg) Tstat) as [E|].
  { unfold handleStat. repeat case_match; intros [= <- <- <-]; try (apply Herr; by rewrite E); apply MovedStill; rewrite E; apply list_elem_of_In; cbn; auto. }
  intros [= <- <- <-]. by apply Herr.
Qed.

(** ** The two tables of fids *)

Definition same_names (tf : gmap Z trackedFid) (sf : gmap Z fidState) : Prop := forall k, t_path <$> tf !! k = rel <$> sf !! k.

Lemma same_names_insert tf sf k a st : same_names tf sf -> t_path a = rel st -> same_names (<[k := a]> tf) (<[k := st]> sf).
Proof.
  intros H E j. destruct (decide (k = j)) as [->|]; [rewrite !lookup_insert_eq; cbn; by rewrite E|by rewrite !lookup_insert_ne].
Qed.
Lemma same_names_touch tf sf k a st : same_names tf sf -> sf !! k = Some st -> t_path a = rel st -> same_names (<[k := a]> tf) sf.
Proof.
  intros H Hk E j. destruct (decide (k = j)) as [<-|]; [rewrite lookup_insert_eq, Hk; cbn; by rewrite E|by rewrite lookup_insert_ne].
Qed.
Lemma same_names_rename tf sf k st st' : same_names tf sf -> sf !! k = Some st -> rel st' = rel st -> same_names tf (<[k := st']> sf).
Proof.
  intros H Hk E j. destruct (decide (k = j)) as [<-|]; [rewrite lookup_insert_eq; rewrite H, Hk; cbn; by rewrite E|by rewrite lookup_insert_ne].
Qed.
Lemma same_names_delete tf sf k : same_names tf sf -> same_names (delete k tf) (delete k sf).
Proof.
  intros H j. destruct (decide (k = j)) as [->|]; [by rewrite !lookup_delete_eq|by rewrite !lookup_delete_ne].
Qed.

Section Transport.
Context {B : Type} {HB : FileAPI B}.
Implicit Types t : transport (B:=B).

Lemma same_names_lookup t sf k st : same_names (t_fids t) sf -> sf !! k = Some st -> t_path (lookup_fid t k) = rel st.
Proof.
  intros H Hk. specialize (H k). rewrite Hk in H. unfold lookup_fid. destruct (t_fids t !! k); cbn in *; [by injection H|done].
Qed.

(** What the transport notes of a request. *)
Record noted t (msg : message) (ev : Event) (tr : trackedRequest) : Prop := {
  noted_type : requestType tr = m_type msg;
  noted_known : expectedResponse (m_type msg) <> 0;
  noted_fid : t_fid tr = fid_of msg;
  noted_len : 4 <= len (m_payload msg);
  noted_walk : m_type msg = Twalk -> exists names, decodeWalk (m_payload msg) = Ok (fid_of msg, field 4 4 (m_payload msg), names) /\
    t_newfid tr = field 4 4 (m_payload msg) /\ basePath tr = t_path (lookup_fid t (fid_of msg)) /\ walkNames tr = names;
  noted_create : m_type msg = Tcreate -> exists name off, unpackString (m_payload msg) 4 = Ok (name, off) /\
    targetPath tr = joinRelative (t_path (lookup_fid t (fid_of msg))) name /\ ev_Path ev = targetPath tr;
  noted_path : m_type msg <> Tattach -> m_type msg <> Tcreate -> ev_Path ev = t_path (lookup_fid t (fid_of msg));
  noted_attach : m_type msg = Tattach -> ev_Path ev = []
}.

Lemma describe_noted t msg ev tr : describeRequest t msg = Some (ev, tr) -> noted t msg ev tr.
Proof.
  unfold describeRequest. fold (fid_of msg). set (short4 := len (m_payload msg) <? 4).
  assert (short4 = false -> 4 <= len (m_payload msg)) as Hs by (unfold short4; lia).
  destruct (Z.eqb_spec (m_type msg) Tattach) as [E|].
  { destruct short4 eqn:E4; [done|]. intros [= <- <-]. constructor; rewrite ?E; by auto. }
  destruct (Z.eqb_spec (m_type msg) Twalk) as [E|].
  { destruct (decodeWalk (m_payload msg)) as [[[fid newfid] names]|] eqn:Ed; [|done]. intros [= <- <-].
    assert (10 <= len (m_payload msg) /\ fid = fid_of msg /\ newfid = field 4 4 (m_payload msg)) as (H10 & -> & ->).
    { revert Ed. unfold decodeWalk. destruct (Z.ltb_spec (len (m_payload msg)) 10); [done|]. destruct (unpack_names _ _ _); [|done]. cbn.
      by intros [= <- <- _]. }
    constructor; rewrite ?E; try done; [lia|]. intros _. eauto. }
  destruct (Z.eqb_spec (m_type msg) Topen) as [E|].
  { destruct (Z.ltb_spec (len (m_payload msg)) 5); [done|]. intros [= <- <-]. constructor; rewrite ?E; try done. lia. }
  destruct (Z.eqb_spec (m_type msg) Tcreate) as [E|].
  { destruct short4 eqn:E4; [done|]. destruct (unpackString (m_payload msg) 4) as [[name off]|] eqn:Eu; [|done].
    destruct (_ <? off + 5); [done|]. intros [= <- <-]. constructor; rewrite ?E; try done; [by auto|]. intros _. eauto. }
  destruct (Z.eqb_spec (m_type msg) Tread) as [E|].
  { unfold decodeIORequest. destruct (Z.ltb_spec (len (m_payload msg)) 16); [done|]. intros [= <- <-]. constructor; rewrite ?E; try done. lia. }
  destruct (Z.eqb_spec (m_type msg) Twrite) as [E|].
  { unfold decodeIORequest. destruct (Z.ltb_spec (len (m_payload msg)) 16); [done|]. intros [= <- <-]. constructor; rewrite ?E; try done. lia. }
  destruct (Z.eqb_spec (m_type msg) Tclunk) as [E|].
  { destruct short4 eqn:E4; [done|]. intros [= <- <-]. constructor; rewrite ?E; by auto. }
  destruct (Z.eqb_spec (m_type msg) Tremove) as [E|].
  { destruct short4 eqn:E4; [done|]. intros [= <- <-]. constructor; rewrite ?E; by auto. }
  destruct (Z.eqb_spec (m_type msg) Tstat) as [E|]; [|done].
  destruct short4 eqn:E4; [done|]. intros [= <- <-]. constructor; rewrite ?E; by auto.
Qed.

(** The reply [respond] makes of a handler's outcome. *)
Definition reply_of (version : bytes) (msg : message) (r : result bytes (Z * bytes)) : message :=
  match r with
  | Ok (typ, payload) => mkMessage typ (m_tag msg) payload
  | Err text => mkMessage Rerror (m_tag msg) (error_payload version text)
  end.

Lemma applySuccess_frame t msg tr : pending (applySuccess t msg tr) = pending t /\ writeBuf (applySuccess t msg tr) = writeBuf t.
Proof. unfold applySuccess, storeFid, observe. repeat case_match; simplify_eq; done. Qed.

(** The fids the transport keeps after a successful reply. *)
Lemma applySuccess_moved t ss msg ev tr typ payload sf v : noted t msg ev tr -> same_names (t_fids t) (fids ss) -> rel_ok ss ->
  m_type msg <> Tremove -> moved ss msg (Ok (typ, payload)) sf ->
  same_names (t_fids (applySuccess t (reply_of v msg (Ok (typ, payload))) tr)) sf.
Proof.
  intros Hn Hsame Hrel Hrm Hmv. unfold applySuccess. cbn [reply_of m_payload]. rewrite (noted_type _ _ _ _ Hn), (noted_fid _ _ _ _ Hn).
  inversion Hmv as [|? ? Hin|? ? ?|? Ht|? ? Ht ? Hst|? ? ? Ht Hst Hr|? ? ? name off Ht Hu Hpl Hst Hr|st Ht Hd Hst|st st' names qids Ht Hd Hne Hst Hq Hp]; subst; try done.
  - assert (m_type msg <> Tattach /\ m_type msg <> Twalk /\ m_type msg <> Topen /\ m_type msg <> Tcreate /\ m_type msg <> Tclunk) as (E1 & E2 & E3 & E4 & E5).
    { apply list_elem_of_In in Hin. cbn in Hin. by destruct Hin as [E|[E|[E|[E|[]]]]]; injection E as <- _; split_and!. }
    by destruct (Z.eqb_spec (m_type msg) Tattach), (Z.eqb_spec (m_type msg) Twalk), (Z.eqb_spec (m_type msg) Topen),
      (Z.eqb_spec (m_type msg) Tcreate), (Z.eqb_spec (m_type msg) Tclunk).
  - rewrite Ht. cbn [Z.eqb Tattach Twalk Topen Tcreate Tclunk Pos.eqb]. by apply same_names_delete.
  - rewrite Ht. cbn [Z.eqb Tattach Pos.eqb]. destruct (decodeQID payload 0); by apply same_names_insert.
  - rewrite Ht. cbn [Z.eqb Tattach Twalk Topen Pos.eqb]. destruct (decodeQID payload 0).
    + apply same_names_insert; [done|]. cbn. rewrite Hr. by eapply same_names_lookup.
    + by eapply same_names_rename.
  - rewrite Ht. cbn [Z.eqb Tattach Twalk Topen Tcreate Pos.eqb]. destruct (noted_create _ _ _ _ Hn Ht) as (name' & off' & Hu' & Htp & _).
    rewrite Hu in Hu'. injection Hu' as <- <-.
    assert (targetPath tr = rel st') as E.
    { rewrite Htp, (same_names_lookup t (fids ss) _ st Hsame Hst), Hr. destruct (Hrel _ _ Hst) as (rl & -> & Hrl). by apply joinRelative_plain. }
    destruct (decodeQID payload 0); by apply same_names_insert.
  - rewrite Ht. cbn [Z.eqb Tattach Twalk Pos.eqb]. destruct (noted_walk _ _ _ _ Hn Ht) as (names' & Hd' & Hnf & _ & Hnames).
    rewrite Hd in Hd'. injection Hd' as <-. rewrite Hnames, Hnf. change (len (walk_reply []) <? 2) with false. cbv iota.
    change (field 2 0 (walk_reply [])) with 0. cbn [Z.eqb andb Z.ltb Z.compare]. change (len [] =? 0) with true. cbv iota.
    apply same_names_insert; [done|]. by eapply same_names_lookup.
  - rewrite Ht. cbn [Z.eqb Tattach Twalk Pos.eqb]. destruct (noted_walk _ _ _ _ Hn Ht) as (names' & Hd' & Hnf & Hbase & Hnames).
    rewrite Hd in Hd'. injection Hd' as <-. rewrite Hnames, Hnf, Hbase, (same_names_lookup t (fids ss) _ st Hsame Hst).
    pose proof (len_nonneg qids). replace (len (walk_reply qids) <? 2) with false
      by (symmetry; apply Z.ltb_ge; unfold walk_reply; rewrite len_app, len_le_put; pose proof (len_nonneg (concat (qid_bytes <$> qids))); lia).
    assert (field 2 0 (walk_reply qids) = len qids) as -> by (apply (field_at 2 0 []); [done|cbn; lia]). rewrite Hp.
    replace (len names =? 0) with false by (destruct names as [|x names]; [done|rewrite len_cons; pose proof (len_nonneg names); lia]). rewrite andb_false_r.
    destruct (0 <? len qids); [destruct (decodeQID _ _)|]; by apply same_names_insert.
Qed.

(** What a backend is told of a reply besides its outcome: at most one qid. *)
Definition learns (b b' : B) : Prop := b' = b \/ exists relative path version, b' = api_observe b relative path version.

Lemma applySuccess_learns t msg tr : learns (backend t) (backend (applySuccess t msg tr)).
Proof.
  unfold applySuccess. cbv zeta. repeat (destruct (_ =? _); [repeat case_match; simplify_eq/=; first [by left | right; by do 3 eexists]|]). by left.
Qed.

Lemma moved_type ss msg typ payload sf : moved ss msg (Ok (typ, payload)) sf -> m_type msg <> Tversion ->
  typ = expectedResponse (m_type msg) /\ typ <> Rerror /\ typ <> Rversion.
Proof.
  intros Hmv Hv. inversion Hmv as [|? ? Hin|? Hr Ht| | | | | |]; subst;
    try (match goal with H : m_type msg = _ |- _ => by rewrite H end).
  - apply list_elem_of_In in Hin. cbn in Hin. destruct Hin as [E|[E|[E|[E|[]]]]]; injection E as E1 E2; [by rewrite <- E1 in Hv|subst typ; by rewrite <- E1..].
  - rewrite (Hr _ _ eq_refl), Ht. done.
Qed.

Lemma moved_remove ss msg r sf : moved ss msg r sf -> m_type msg = Tremove -> 4 <= len (m_payload msg) ->
  sf = delete (fid_of msg) (fids ss).
Proof.
  intros Hmv Erm Hlen. destruct Hmv as [? [Hne|Hl]|? ? Hin| | | | | | |];
    try (match goal with H : m_type msg = _ |- _ => rewrite Erm in H; discriminate H end).
  - by rewrite Erm in Hne.
  - lia.
  - apply list_elem_of_In in Hin. cbn in Hin. rewrite Erm in Hin. by destruct Hin as [E|[E|[E|[E|[]]]]].
  - reflexivity.
Qed.

Lemma processResponse_moved t ss msg ev tr pe r sf v : noted t msg ev tr -> same_names (t_fids t) (fids ss) -> rel_ok ss ->
  pending t = {[m_tag msg := (pe, tr)]} -> moved ss msg r sf ->
  let t' := processResponse t (reply_of v msg r) in
  same_names (t_fids t') sf /\ pending t' = ∅ /\ writeBuf t' = writeBuf t /\
  exists b, learns (backend t) b /\ (responseError (reply_of v msg r) (m_type msg) <> None -> b = backend t) /\
    backend t' = api_complete b pe (responseError (reply_of v msg r) (m_type msg)) (mutationPath tr).
Proof.
  intros Hn Hsame Hrel Hpend Hmv. pose proof (noted_type _ _ _ _ Hn) as Ety.
  assert (m_type msg <> Tversion) as Hv by (intros E; apply (noted_known _ _ _ _ Hn); by rewrite E).
  assert (m_type (reply_of v msg r) <> Rversion /\ m_tag (reply_of v msg r) = m_tag msg) as [Hnv Htag].
  { destruct r as [[typ payload]|]; cbn; [|done]. split; [|done]. by eapply moved_type. }
  cbv zeta. unfold processResponse. destruct (Z.eqb_spec (m_type (reply_of v msg r)) Rversion); [done|].
  rewrite Htag, Hpend, lookup_singleton_eq, Ety.
  set (t1 := t <| pending := delete (m_tag msg) {[m_tag msg := (pe, tr)]} |>).
  assert (pending t1 = ∅) as Hp1 by (cbn; apply delete_singleton_eq).
  assert (t_fids t1 = t_fids t /\ writeBuf t1 = writeBuf t /\ backend t1 = backend t) as (Hf1 & Hw1 & Hb1) by done.
  assert (noted t1 msg ev tr) as Hn1 by (destruct Hn; by constructor).
  assert (forall t2, pending (t2 <| backend := api_complete (backend t2) pe (responseError (reply_of v msg r) (m_type msg)) (mutationPath tr) |>) = pending t2) as Hpb by done.
  clearbody t1. destruct (Z.eqb_spec (m_type msg) Tremove) as [Erm|Erm].
  - assert (sf = delete (fid_of msg) (fids ss)) as ->.
    { eapply moved_remove; [done..|]. apply (noted_len _ _ _ _ Hn). }
    assert (applySuccess t1 (reply_of v msg r) tr = t1) as Ha by (unfold applySuccess; by rewrite Ety, Erm).
    rewrite Ha. destruct (responseError _ _); cbn; rewrite Hf1, (noted_fid _ _ _ _ Hn); (split_and!; [by apply same_names_delete|done|done|exists (backend t1); split; [by left|done]]).
  - destruct r as [[typ payload]|text].
    + destruct (moved_type _ _ _ _ _ Hmv Hv) as (Hexp & Hne & _).
      assert (responseError (reply_of v msg (Ok (typ, payload))) (m_type msg) = None) as Hre.
      { unfold responseError. cbn [reply_of m_type]. destruct (Z.eqb_spec typ Rerror); [done|]. by rewrite <- Hexp, Z.eqb_refl. }
      rewrite Hre. cbn. pose proof (applySuccess_frame t1 (reply_of v msg (Ok (typ, payload))) tr) as [E1 E2].
      cbn [reply_of] in *. rewrite E1, E2. split_and!; [|done|done|eexists; split; [rewrite <- Hb1; apply applySuccess_learns|done]].
      eapply (applySuccess_moved t1 ss msg ev tr typ payload sf v); try done. by rewrite Hf1.
    + inversion Hmv as [e Hor| |? ? Ht| | | | | |]; subst; [|by rewrite Ht in Erm].
      assert (exists e, responseError (reply_of v msg (Err text)) (m_type msg) = Some e) as [e He].
      { unfold responseError. cbn [reply_of m_type]. rewrite Z.eqb_refl. destruct (unpackString _ _) as [[? ?]|]; eauto. }
      rewrite He. cbn. split_and!; [by rewrite Hf1|done|done|exists (backend t1); split; [by left|done]].
Qed.

End Transport.
End P9BackendProofs.
