(* ===== verification/P9BackendClaims.v ===== *)
(** * The 9P transport and the file backend: complete mediation *)

From S2P Require Import Prelude GoStrings GoEncoding GoFs GoFsProofs P9Server P9ServerProofs FileBackend P9Backend P9BackendProofs.

Module P9BackendClaims.
Import GoStrings GoEncoding GoFs GoFsProofs P9Server P9ServerProofs FileBackend P9Backend P9BackendProofs.

Section Transport.
Context {B : Type} {HB : FileAPI B}.
Implicit Types t : transport (B:=B).

(** ** Frames in two writes *)

Lemma processResponse_writeBuf t msg : writeBuf (processResponse t msg) = writeBuf t.
Proof.
  unfold processResponse. destruct (_ =? _); [by repeat case_match|]. destruct (pending t !! m_tag msg) as [[pe tr]|]; [|done].
  set (t1 := t <| pending := _ |>). pose proof (applySuccess_frame t1 msg tr) as [_ E].
  destruct (responseError _ _), (_ =? _); cbn; try done; by rewrite E.
Qed.

Lemma drain_frame fuel t reply : encodable reply -> writeBuf t = encode reply ->
  drain (S (S fuel)) t = Some (processResponse (t <| writeBuf := [] |>) reply, encode reply).
Proof.
  intros Hr Hw. pose proof (frame_fields reply [] Hr) as (E1 & E2 & E3 & E4). cbv zeta in *. rewrite !app_nil_r in *.
  pose proof (len_encode reply) as El. pose proof (len_nonneg (m_payload reply)). destruct Hr as [_ Hlen].
  cbn [drain]. rewrite Hw, E1. replace (len (encode reply) <? 4) with false by lia.
  replace ((7 + len (m_payload reply) <? 7) || (2 ^ 24 <? 7 + len (m_payload reply))) with false by lia.
  replace (len (encode reply) <? 7 + len (m_payload reply)) with false by lia.
  rewrite take_ge, drop_ge by (unfold len in *; lia). rewrite E2, E3, E4.
  rewrite processResponse_writeBuf. change (len (writeBuf (t <| writeBuf := [] |>)) <? 4) with true. cbv iota beta.
  rewrite app_nil_r. by destruct reply.
Qed.

Lemma Write_frame t source reply : encodable reply -> writeBuf t ++ source = encode reply ->
  Write t source = Some (processResponse (t <| writeBuf := [] |>) reply, encode reply).
Proof.
  intros Hr Hw. unfold Write. rewrite Hw. pose proof (len_encode reply) as El. pose proof (len_nonneg (m_payload reply)).
  change (writeBuf (t <| writeBuf := encode reply |>)) with (encode reply).
  destruct (length (encode reply)) as [|n] eqn:E; [unfold len in El; lia|]. by rewrite (drain_frame n _ reply).
Qed.

Lemma Write_nothing t : writeBuf t = [] -> Write t [] = Some (t, []).
Proof. intros Hw. unfold Write. rewrite Hw. cbn. destruct t. cbn in *. by subst. Qed.

Lemma drain_short fuel t : (len (writeBuf t) <? 4) = false -> (field 4 0 (writeBuf t) <? 7) || (2 ^ 24 <? field 4 0 (writeBuf t)) = false ->
  (len (writeBuf t) <? field 4 0 (writeBuf t)) = true -> drain (S fuel) t = Some (t, []).
Proof. intros H1 H2 H3. cbn [drain]. by rewrite H1, H2, H3. Qed.

Lemma Write_header t reply : writeBuf t = [] -> encodable reply -> m_payload reply <> [] ->
  Write t (take 7 (encode reply)) = Some (t <| writeBuf := take 7 (encode reply) |>, []).
Proof.
  intros Hw Hr H0. pose proof (len_encode reply) as El.
  assert (0 < len (m_payload reply)) by (destruct (m_payload reply); [done|rewrite len_cons in *; pose proof (len_nonneg l); lia]).
  assert (length (take 7 (encode reply)) = 7%nat) as E7 by (rewrite length_take; unfold len in *; lia).
  assert (field 4 0 (take 7 (encode reply)) = 7 + len (m_payload reply)) as Ef.
  { pose proof (frame_fields reply [] Hr) as (E1 & _). rewrite app_nil_r in E1. rewrite <- E1. unfold field, slice. by rewrite !drop_0, take_take. }
  destruct Hr as [_ Hlen]. unfold Write. rewrite Hw. cbn [app].
  apply drain_short; change (writeBuf (t <| writeBuf := take 7 (encode reply) |>)) with (take 7 (encode reply)); rewrite ?Ef; unfold len in *; lia.
Qed.

(** The server writes a header and then a payload: one frame passes. *)
Lemma write_reply t reply : writeBuf t = [] -> encodable reply -> exists t1 o1 o2,
  Write t (take 7 (encode reply)) = Some (t1, o1) /\ Write t1 (drop 7 (encode reply)) = Some (processResponse t reply, o2) /\
  o1 ++ o2 = encode reply.
Proof.
  intros Hw Hr. pose proof (len_encode reply) as El. assert (t <| writeBuf := [] |> = t) as Et by (destruct t; cbn in *; by subst).
  destruct (decide (m_payload reply = [])) as [E0|E0].
  - rewrite E0 in El. change (len []) with 0 in El. rewrite take_ge, drop_ge by (unfold len in *; lia).
    exists (processResponse t reply), (encode reply), []. rewrite (Write_frame t (encode reply) reply), Et by (done || by rewrite Hw).
    rewrite Write_nothing by (by rewrite processResponse_writeBuf). by rewrite app_nil_r.
  - eexists _, [], (encode reply). rewrite Write_header by done. split; [done|]. split; [|done].
    rewrite (Write_frame _ _ reply); [|done|apply take_drop]. do 2 f_equal. by rewrite <- Et at 2.
Qed.

(** ** Requests the transport lets through unasked *)

Lemma describe_none h s t ss f msg : describeRequest t msg = None -> m_type msg <> Tversion ->
  exists e, handle h s ss f msg = (Err e, ss, f).
Proof.
  unfold describeRequest, handle. intros Hd Hv. destruct (Z.eqb_spec (m_type msg) Tversion); [done|].
  destruct (Z.eqb_spec (m_type msg) Tattach).
  { unfold handleAttach. destruct (Z.ltb_spec (len (m_payload msg)) 4); [|done]. by replace (len (m_payload msg) <? 8) with true by lia; eexists. }
  destruct (Z.eqb_spec (m_type msg) Twalk).
  { unfold handleWalk, decodeWalk in *. destruct (len (m_payload msg) <? 10); [by eexists|].
    destruct (unpack_names _ _ _); [done|by eexists]. }
  destruct (Z.eqb_spec (m_type msg) Topen).
  { unfold handleOpen. destruct (len (m_payload msg) <? 5); [by eexists|done]. }
  destruct (Z.eqb_spec (m_type msg) Tcreate).
  { unfold handleCreate. destruct (readOnly s); [by eexists|]. destruct (len (m_payload msg) <? 4); [by eexists|].
    destruct (unpackString (m_payload msg) 4) as [[name off]|]; [|by eexists]. destruct (len (m_payload msg) <? off + 5); [by eexists|done]. }
  destruct (Z.eqb_spec (m_type msg) Tread).
  { unfold handleRead, decodeIORequest in *. destruct (len (m_payload msg) <? 16); [by eexists|done]. }
  destruct (Z.eqb_spec (m_type msg) Twrite).
  { unfold handleWrite, decodeIORequest in *. destruct (readOnly s); [by eexists|]. destruct (len (m_payload msg) <? 16); [by eexists|done]. }
  destruct (Z.eqb_spec (m_type msg) Tclunk).
  { unfold handleClunk. destruct (len (m_payload msg) <? 4); [by eexists|done]. }
  destruct (Z.eqb_spec (m_type msg) Tremove).
  { unfold handleRemove. destruct (len (m_payload msg) <? 4); [by eexists|done]. }
  destruct (Z.eqb_spec (m_type msg) Tstat); [|by eexists].
  unfold handleStat. destruct (len (m_payload msg) <? 4); [by eexists|done].
Qed.

Lemma version_only h s ss f msg : m_type msg = Tversion ->
  (handle h s ss f msg).2 = f /\ fids (handle h s ss f msg).1.2 = fids ss /\
  (forall e, (handle h s ss f msg).1.1 = Err e -> (handle h s ss f msg).1.2 = ss) /\
  (forall typ p, (handle h s ss f msg).1.1 = Ok (typ, p) -> typ = Rversion).
Proof.
  intros E. unfold handle. rewrite E, Z.eqb_refl. unfold handleVersion.
  repeat case_match; split_and!; cbn; try done; by intros ? ? [= <- _].
Qed.

(** ** One exchange *)

Definition agree t (ss : session) : Prop := writeBuf t = [] /\ pending t = ∅ /\ same_names (t_fids t) (fids ss).

Lemma rel_ok_moved ss msg r ss' : rel_ok ss -> moved ss msg r (fids ss') -> rel_ok ss'.
Proof.
  unfold rel_ok. intros Hs Hmv. inversion Hmv as [|? ? ?|? ? ? ?|? ? ?|? st ? ? Hr|? st st' ? Hst Hr|? st st' name off ? ? Hn Hst Hr|st ? ? Hst|st st' names qids ? ? ? Hst ? ? Hr]; subst; try done;
    try (by apply map_Forall_delete); apply map_Forall_insert_2; try done.
  - rewrite Hr. by exists [].
  - rewrite Hr. by eapply Hs.
  - destruct (Hs _ _ Hst) as (rl & E & Hrl). exists (rl ++ [name]). rewrite Hr, E, Join_rel by done. split; [done|].
    apply Forall_app. split; [done|by constructor].
  - by eapply Hs.
Qed.

(** The export-relative path a request acts on. *)
Definition acts_on (ss : session) (msg : message) : option bytes :=
  if m_type msg =? Tattach then Some [] else
  match fids ss !! fid_of msg with
  | None => None
  | Some st =>
    if m_type msg =? Tcreate then
      match unpackString (m_payload msg) 4 with
      | Ok (name, _) =>
        if str_eqb name [] || str_eqb name dot || str_eqb name dotdot || has_separator name then None else Some (Join (rel st) name)
      | Err _ => None
      end
    else Some (rel st)
  end.

Lemma noted_acts_on t ss msg ev tr p : noted t msg ev tr -> same_names (t_fids t) (fids ss) -> rel_ok ss ->
  acts_on ss msg = Some p -> ev_Path ev = p.
Proof.
  intros Hn Hsame Hrel. unfold acts_on. destruct (Z.eqb_spec (m_type msg) Tattach) as [E|E].
  { intros [= <-]. by apply (noted_attach _ _ _ _ Hn). }
  destruct (fids ss !! fid_of msg) as [st|] eqn:Hst; [|done]. pose proof (same_names_lookup t (fids ss) _ st Hsame Hst) as El.
  destruct (Z.eqb_spec (m_type msg) Tcreate) as [Ec|Ec].
  - destruct (noted_create _ _ _ _ Hn Ec) as (name & off & -> & Ht & ->). rewrite Ht, El.
    destruct (str_eqb name [] || str_eqb name dot || str_eqb name dotdot || has_separator name) eqn:En; [done|]. intros [= <-].
    destruct (Hrel _ _ Hst) as (rl & -> & Hrl). apply joinRelative_plain; [done|].
    apply orb_false_elim in En as [[[E1 E2]%orb_false_elim E3]%orb_false_elim E4]. apply walk_name_plain; [|done]. by rewrite E1, E3, E4.
  - intros [= <-]. by rewrite (noted_path _ _ _ _ Hn), El.
Qed.

Lemma exchange_forward h s t t1 ss f msg : incoming t msg = (t1, Ok msg) -> writeBuf t1 = [] -> encodable (respond h s ss f msg).1.1 ->
  exchange h s t ss f msg = Some (encode (respond h s ss f msg).1.1, processResponse t1 (respond h s ss f msg).1.1,
    (respond h s ss f msg).1.2, (respond h s ss f msg).2).
Proof.
  intros Hi Hw Hr. unfold exchange. rewrite Hi. destruct (respond h s ss f msg) as [[reply ss'] f']. cbn [fst snd] in *.
  destruct (write_reply t1 reply Hw Hr) as (t2 & o1 & o2 & E1 & E2 & E3). unfold encode in E1, E2. rewrite E1, E2. by rewrite E3.
Qed.

Lemma respond_reply_of h s ss f msg : (respond h s ss f msg).1.1 =
  reply_of (version (handle h s ss f msg).1.2) msg (handle h s ss f msg).1.1.
Proof. unfold respond. by destruct (handle h s ss f msg) as [[[[typ p]|e] ss'] f']. Qed.

(** What the transport makes of a reply to a request it did not note. *)
Lemma processResponse_unnoted t reply : pending t = ∅ ->
  let t' := processResponse t reply in
  backend t' = backend t /\ t_fids t' = t_fids t /\ pending t' = ∅ /\ writeBuf t' = writeBuf t.
Proof.
  intros Hp. cbv zeta. unfold processResponse. rewrite Hp, lookup_empty. repeat case_match; done.
Qed.

Definition unasked t (ss : session) (f : fs) t' (ss' : session) (f' : fs) : Prop := backend t' = backend t /\ f' = f /\ fids ss' = fids ss.

Lemma exchange_unasked h s t ss f msg : agree t ss -> rel_ok ss -> encodable (respond h s ss f msg).1.1 ->
  describeRequest t msg = None \/ m_type msg = Tversion ->
  exists out t' ss' f', exchange h s t ss f msg = Some (out, t', ss', f') /\ agree t' ss' /\ rel_ok ss' /\ unasked t ss f t' ss' f'.
Proof.
  intros (Hw & Hp & Hsame) Hrel Henc Hor.
  assert (incoming t msg = (t, Ok msg)) as Hi.
  { unfold incoming. destruct (Z.eqb_spec (m_type msg) Tversion); [done|]. by destruct Hor as [->|?]. }
  assert ((handle h s ss f msg).2 = f /\ fids (handle h s ss f msg).1.2 = fids ss) as [Hf Hfids].
  { destruct (decide (m_type msg = Tversion)) as [E|E]; [by destruct (version_only h s ss f msg E) as (? & ? & _)|].
    destruct Hor as [Hd|?]; [|done]. by destruct (describe_none h s t ss f msg Hd E) as [e ->]. }
  pose proof (respond_handle h s ss f msg) as [E1 E2].
  rewrite (exchange_forward h s t t ss f msg Hi Hw Henc). do 4 eexists. split; [reflexivity|].
  destruct (processResponse_unnoted t (respond h s ss f msg).1.1 Hp) as (H1 & H2 & H3 & H4).
  rewrite E1, E2. unfold agree, rel_ok, unasked. rewrite H1, H2, H3, H4, Hfids. done.
Qed.

(** C10: complete mediation. As long as the transport's table of fids names the
    paths the server's does, which holds of a fresh connection and after every
    exchange, each request is answered and falls in one of three cases.  Either
    the backend was not asked, and then the files and the fids are as before.
    Or the backend was asked, about the very path the request acts on, and
    refused: then the client gets the error and server, files and fids are
    untouched.  Or it agreed: then the server has handled the request, and what
    the backend was told since is the qid of the reply, at most once and only of
    a success, and then the outcome, exactly once: whatever a backend records of
    its calls, its state is that of these calls and no others. *)
Theorem backend_mediates (h : host) (s : Server) (t : transport) (ss : session) (f : fs) (msg : message) :
  agree t ss -> rel_ok ss -> bytes_ok (m_payload msg) -> encodable (respond h s ss f msg).1.1 ->
  exists out t' ss' f', exchange h s t ss f msg = Some (out, t', ss', f') /\ agree t' ss' /\ rel_ok ss' /\
  ((describeRequest t msg = None \/ m_type msg = Tversion) /\ unasked t ss f t' ss' f' \/
   exists ev tr, describeRequest t msg = Some (ev, tr) /\ (forall p, acts_on ss msg = Some p -> ev_Path ev = p) /\
     match api_begin (backend t) ev with
     | (Err err, b) => backend t' = b /\ ss' = ss /\ f' = f /\
         out = encode (mkMessage Rerror (m_tag msg) (error_payload (t_version t) (boundedError err)))
     | (Ok pe, b) => (encode (respond h s ss f msg).1.1, ss', f') = (out, (respond h s ss f msg).1.2, (respond h s ss f msg).2) /\
         exists b', learns b b' /\ (responseError (respond h s ss f msg).1.1 (m_type msg) <> None -> b' = b) /\
           backend t' = api_complete b' pe (responseError (respond h s ss f msg).1.1 (m_type msg)) (mutationPath tr)
     end).
Proof.
  intros Hagree Hrel Hb Henc. destruct (decide (m_type msg = Tversion)) as [Ev|Ev].
  { destruct (exchange_unasked h s t ss f msg) as (o & t' & ss' & f' & H1 & H2 & H3 & H4); [done..|by right|]. do 4 eexists. eauto 8. }
  destruct (describeRequest t msg) as [[ev tr]|] eqn:Ed.
  2: { destruct (exchange_unasked h s t ss f msg) as (o & t' & ss' & f' & H1 & H2 & H3 & H4); [done..|by left|]. do 4 eexists. eauto 8. }
  pose proof (describe_noted t msg ev tr Ed) as Hn. destruct Hagree as (Hw & Hp & Hsame).
  assert (forall p, acts_on ss msg = Some p -> ev_Path ev = p) as Hacts by (intros p; by eapply noted_acts_on).
  assert (forall t1 r, (match api_begin (backend t) ev with
      | (Err err, b) => (t <| backend := b |>, Err (writeMessage Rerror (m_tag msg) (error_payload (t_version t) (boundedError err))))
      | (Ok pe, b) => (t <| backend := b |> <| pending := <[m_tag msg := (pe, tr)]> (pending t) |>, Ok msg)
      end) = (t1, r) -> incoming t msg = (t1, r)) as Hinc.
  { intros t1 r <-. unfold incoming. destruct (Z.eqb_spec (m_type msg) Tversion); [done|]. rewrite Ed.
    destruct (api_begin (backend t) ev) as [[pe|err] b]; [|done]. by rewrite bool_decide_eq_false_2 by (rewrite Hp, lookup_empty; by intros []). }
  destruct (api_begin (backend t) ev) as [[pe|err] b] eqn:Eb.
  - specialize (Hinc _ _ eq_refl). rewrite (exchange_forward h s t _ ss f msg Hinc) by done. do 4 eexists. split; [reflexivity|].
    pose proof (respond_handle h s ss f msg) as [E1 E2]. rewrite respond_reply_of in *.
    destruct (handle h s ss f msg) as [[r ss1] f1] eqn:Eh. cbn [fst snd] in *. rewrite E1, E2.
    pose proof (handle_moved h s ss f msg r ss1 f1 Hrel Hb Eh) as Hmv.
    set (t1 := t <| backend := b |> <| pending := <[m_tag msg := (pe, tr)]> (pending t) |>).
    assert (noted t1 msg ev tr) as Hn1 by (destruct Hn; by constructor).
    assert (pending t1 = {[m_tag msg := (pe, tr)]}) as Hp1 by (cbn; by rewrite Hp).
    destruct (processResponse_moved t1 ss msg ev tr pe r (fids ss1) (version ss1) Hn1 Hsame Hrel Hp1 Hmv) as (F1 & F2 & F3 & F4).
    split; [split_and!; [rewrite F3; exact Hw|exact F2|exact F1]|]. split; [by eapply rel_ok_moved|]. right. exists ev, tr.
    split; [done|]. split; [done|]. rewrite Eb. done.
  - specialize (Hinc _ _ eq_refl). unfold exchange. rewrite Hinc. do 4 eexists. split; [reflexivity|]. split; [done|]. split; [done|].
    right. exists ev, tr. split; [done|]. split; [done|]. by rewrite Eb.
Qed.

End Transport.

(** ** With the file service as the backend *)

Section Service.
Context {S : Type} {HS : CoreStore S} (json_event : Event -> bytes).
Implicit Types (t : transport (B := Z * Service (S := S)) (HB := service_api json_event)).

Lemma normalize_before now id ro e n : normalizeEvent now (before_event now id ro e) = Ok n -> n = before_event now id ro e.
Proof.
  unfold normalizeEvent. cbn [ev_Version before_event]. destruct (str_eqb_spec EventVersion []) as [E|_]; [vm_compute in E; done|].
  cbn [ev_OccurredAt before_event]. destruct (Z.eqb_spec now 0) as [->|]; repeat case_match; try done; by intros [= <-].
Qed.

Lemma eventMutates_before now id ro e : eventMutates (before_event now id ro e) = eventMutates e.
Proof. done. Qed.

Lemma Begin_readOnly now (s s' : Service (S := S)) e r : Begin json_event now s e = (r, s') ->
  s_readOnly s' = s_readOnly s /\ (s_readOnly s = true -> forall pe, r = Ok pe -> eventMutates e = false).
Proof.
  unfold Begin. destruct (NextID (core s)) as [[id|err] c]; [|by intros [= <- <-]].
  change (s_readOnly (s <| core := c |>)) with (s_readOnly s).
  destruct (normalizeEvent now (before_event now id (s_readOnly s) e)) as [n|] eqn:En; [|by intros [= <- <-]].
  apply normalize_before in En as ->. unfold Complete.
  destruct (Run _ _ _).1; [case_match; by intros [= <- <-]|].
  rewrite eventMutates_before. destruct (s_readOnly s) eqn:Ero; cbn [andb].
  - destruct (eventMutates e) eqn:Em; [case_match; by intros [= <- <-]|]. intros [= <- <-]. done.
  - by intros [= <- <-].
Qed.

(** Only these requests change files. *)
Lemma handle_still h srv ss f msg : m_type msg <> Tcreate -> m_type msg <> Twrite -> m_type msg <> Tremove ->
  (m_type msg = Topen -> Z.land (nth 4 (m_payload msg) 0) openTrunc = 0) -> (handle h srv ss f msg).2 = f.
Proof.
  intros H1 H2 H3 H4. unfold handle.
  destruct (_ =? Tversion); [unfold handleVersion; by repeat case_match|].
  destruct (_ =? Tattach); [unfold handleAttach; by repeat case_match|]. destruct (_ =? Twalk); [unfold handleWalk; by repeat case_match|].
  destruct (Z.eqb_spec (m_type msg) Topen) as [E|_].
  { unfold handleOpen. rewrite (H4 E). cbn [Z.eqb negb andb]. by repeat case_match. }
  destruct (Z.eqb_spec (m_type msg) Tcreate); [done|]. destruct (_ =? Tread); [unfold handleRead; by repeat case_match|].
  destruct (Z.eqb_spec (m_type msg) Twrite); [done|]. destruct (_ =? Tclunk); [unfold handleClunk; by repeat case_match|].
  destruct (Z.eqb_spec (m_type msg) Tremove); [done|]. destruct (_ =? Tstat); [unfold handleStat; by repeat case_match|done].
Qed.

(** The event of a request that changes files says so. *)
Lemma describe_mutates t msg ev tr : describeRequest t msg = Some (ev, tr) -> eventMutates ev = false ->
  m_type msg <> Tcreate /\ m_type msg <> Twrite /\ m_type msg <> Tremove /\
  (m_type msg = Topen -> Z.land (nth 4 (m_payload msg) 0) openTrunc = 0).
Proof.
  unfold describeRequest. intros Hd Hm.
  assert (forall ty, m_type msg = ty -> ty ∈ [Tcreate; Twrite; Tremove] -> eventMutates ev = true) as H.
  { intros ty E Hin. rewrite E in Hd. apply list_elem_of_In in Hin. cbn [In] in Hin. destruct Hin as [<-|[<-|[<-|[]]]]; cbn [Z.eqb Pos.eqb Tattach Twalk Topen Tcreate Tread Twrite Tclunk Tremove] in Hd;
      repeat case_match; simplify_eq; vm_compute; reflexivity. }
  split_and!; [intros E; rewrite (H _ E) in Hm; [done|apply list_elem_of_In; cbn; by auto]..|].
  intros E. rewrite E in Hd. cbn [Z.eqb Pos.eqb Tattach Twalk Topen] in Hd. case_match; [done|]. injection Hd as <- _.
  unfold eventMutates in Hm. cbn [ev_Operation ev_Mode event_of] in Hm.
  change (existsb (str_eqb OperationOpen) [OperationCreate; OperationWrite; OperationRemove; OperationPrepareReplace; OperationCommitReplace; OperationAbortReplace]) with false in Hm.
  change (str_eqb OperationOpen OperationOpen) with true in Hm. cbv iota in Hm. apply orb_false_elim in Hm as [_ Hm].
  change openTrunc with 16. by apply negb_false_iff, Z.eqb_eq in Hm.
Qed.

(** The policy of the service is fixed. *)
Definition policy t : bool * option Registry := (s_readOnly (backend t).2, s_hooks (backend t).2).

Lemma Complete_policy now (s : Service (S := S)) p err paths :
  s_readOnly (Complete json_event now s p err paths) = s_readOnly s /\ s_hooks (Complete json_event now s p err paths) = s_hooks s.
Proof. unfold Complete. by case_match. Qed.

Lemma processResponse_policy t msg : policy (processResponse t msg) = policy t.
Proof.
  unfold processResponse. destruct (_ =? _); [by repeat case_match|]. destruct (pending t !! m_tag msg) as [[pe tr]|]; [|done].
  set (t1 := t <| pending := _ |>). assert (policy (applySuccess t1 msg tr) = policy t) as Ha.
  { unfold applySuccess, storeFid, observe. repeat case_match; simplify_eq; done. }
  assert (forall t2 err, policy t2 = policy t -> policy (t2 <| backend := api_complete (backend t2) pe err (mutationPath tr) |>) = policy t) as Hc.
  { intros t2 err <-. unfold policy. cbn. by destruct (Complete_policy (backend t2).1 (backend t2).2 pe err (mutationPath tr)) as [-> ->]. }
  apply Hc. destruct (responseError _ _), (_ =? _); done.
Qed.

Lemma drain_policy fuel t t' out : drain fuel t = Some (t', out) -> policy t' = policy t.
Proof.
  revert t t' out. induction fuel as [|fuel IH]; intros t t' out; cbn [drain]; [by intros [= <- <-]|].
  destruct (_ <? 4); [by intros [= <- <-]|]. destruct (_ || _); [done|]. destruct (_ <? _); [by intros [= <- <-]|].
  destruct (drain fuel _) as [[t2 o2]|] eqn:E; [|done]. intros [= <- <-]. apply IH in E. rewrite E. by rewrite processResponse_policy.
Qed.

Lemma incoming_policy t msg t1 r : incoming t msg = (t1, r) -> policy t1 = policy t /\
  (s_readOnly (backend t).2 = true -> forall m, r = Ok m -> m = msg /\
     (m_type msg = Tversion \/ describeRequest t msg = None \/ exists ev tr, describeRequest t msg = Some (ev, tr) /\ eventMutates ev = false)).
Proof.
  unfold incoming. destruct (Z.eqb_spec (m_type msg) Tversion).
  { intros [= <- <-]. split; [done|]. intros _ m [= <-]. auto. }
  destruct (describeRequest t msg) as [[ev tr]|] eqn:Ed.
  2: { intros [= <- <-]. split; [done|]. intros _ m [= <-]. auto. }
  cbn [api_begin service_api]. destruct (Begin json_event (backend t).1 (backend t).2 ev) as [[pe|err] sv] eqn:Eb.
  - pose proof (Begin_readOnly _ _ _ _ _ Eb) as [Er Hm].
    assert (s_hooks sv = s_hooks (backend t).2) as Eh.
    { revert Eb. unfold Begin, Complete. repeat case_match; by intros [= <- <-]. }
    case_match; intros [= <- <-]; unfold policy; cbn.
    + destruct (Complete_policy ((backend t).1 + 1) sv pe (Some (str "duplicate_9p_tag")) []) as [-> ->]. by rewrite Er, Eh.
    + split; [by rewrite Er, Eh|]. intros Hro m [= <-]. split; [done|]. right. right. exists ev, tr. split; [done|]. by eapply Hm.
  - intros [= <- <-]. unfold policy. cbn. pose proof (Begin_readOnly _ _ _ _ _ Eb) as [Er _]. split; [|done].
    assert (s_hooks sv = s_hooks (backend t).2) as Eh; [|by rewrite Er, Eh].
    revert Eb. unfold Begin, Complete. repeat case_match; by intros [= <- <-].
Qed.

Lemma forwarded_still h srv t t1 ss f msg m : incoming t msg = (t1, Ok m) -> s_readOnly (backend t).2 = true ->
  m = msg /\ (respond h srv ss f msg).2 = f.
Proof.
  intros Ei Hro. destruct (incoming_policy t msg t1 (Ok m) Ei) as [_ Hr]. destruct (Hr Hro m eq_refl) as [-> Hcase]. split; [done|].
  rewrite (proj2 (respond_handle h srv ss f msg)). destruct Hcase as [E|[E|(ev & tr & Ed & Em)]].
  - by apply version_only.
  - destruct (decide (m_type msg = Tversion)) as [Ev|Ev]; [by apply version_only|].
    by destruct (describe_none h srv t ss f msg E Ev) as [e ->].
  - destruct (describe_mutates t msg ev tr Ed Em) as (? & ? & ? & ?). by apply handle_still.
Qed.

Lemma exchange_readOnly h srv t ss f msg : s_readOnly (backend t).2 = true ->
  match exchange h srv t ss f msg with
  | Some (_, t', _, f') => f' = f /\ s_readOnly (backend t').2 = true
  | None => (respond h srv ss f msg).2 = f
  end.
Proof.
  intros Hro. unfold exchange. destruct (incoming t msg) as [t1 r] eqn:Ei. pose proof (incoming_policy t msg t1 r Ei) as [Hp _].
  assert (forall t', policy t' = policy t -> s_readOnly (backend t').2 = true) as Hpol by (unfold policy; intros t' [= -> _]; done).
  destruct r as [m|e]; [|split; [done|by apply Hpol]].
  destruct (forwarded_still h srv t t1 ss f msg m Ei Hro) as [-> Ef].
  destruct (respond h srv ss f msg) as [[reply ss1] f1]. cbn [snd] in Ef. subst f1.
  destruct (Write t1 _) as [[t2 o1]|] eqn:E1; [|done]. destruct (Write t2 _) as [[t3 o2]|] eqn:E2; [|done].
  split; [done|]. apply Hpol. unfold Write in E1, E2. apply drain_policy in E1, E2. rewrite E2, <- Hp. exact E1.
Qed.

(** A hook that enforces and refuses stops the operation. *)
Lemma run_hooks_veto entries entry handler e : entry ∈ entries -> hk_Mode (r_hook entry) = ModeEnforce ->
  hk_Handler (r_hook entry) = Some handler -> is_Some (handler e) -> is_Some (run_hooks entries e).1.
Proof.
  intros Hin Hm Hh [err He]. induction entries as [|x entries IH]; [by apply not_elem_of_nil in Hin|]. cbn [run_hooks].
  apply list_elem_of_In in Hin. cbn in Hin. destruct Hin as [->|Hin].
  - rewrite Hh, He, Hm, str_eqb_refl. by eexists.
  - apply list_elem_of_In in Hin. specialize (IH Hin). destruct (run_hooks entries e) as [o ran]. cbn in IH.
    destruct (match hk_Handler (r_hook x) with Some h0 => h0 e | None => None end); [destruct (str_eqb _ _)|]; cbn; first [done|by eexists].
Qed.

Lemma Begin_veto now (s : Service (S := S)) e reg entry handler : s_hooks s = Some reg ->
  entry ∈ default [] (hooks reg !! (ev_Operation e, PhaseBefore)) -> hk_Mode (r_hook entry) = ModeEnforce ->
  hk_Handler (r_hook entry) = Some handler -> (forall id, is_Some (handler (before_event now id (s_readOnly s) e))) ->
  exists err, (Begin json_event now s e).1 = Err err.
Proof.
  intros Hs Hin Hm Hh Hv. unfold Begin. destruct (NextID (core s)) as [[id|err] c]; [|by eexists].
  change (s_readOnly (s <| core := c |>)) with (s_readOnly s). change (s_hooks (s <| core := c |>)) with (s_hooks s). rewrite Hs.
  destruct (normalizeEvent now (before_event now id (s_readOnly s) e)) as [n|] eqn:En; [|by eexists].
  pose proof (normalize_before _ _ _ _ _ En) as ->. unfold Run. rewrite En.
  destruct (run_hooks_veto _ entry handler (before_event now id (s_readOnly s) e) Hin Hm Hh (Hv id)) as [err E].
  cbn [ev_Operation ev_Phase before_event] in *. rewrite E. by eexists.
Qed.

(** A connection's requests in order, up to a reply that does not fit a frame. *)
Fixpoint exchanges (h : host) (srv : Server) t (ss : session) (f : fs) (msgs : list message) : transport (B := Z * Service (S := S)) (HB := service_api json_event) * session * fs :=
  match msgs with
  | [] => (t, ss, f)
  | msg :: rest =>
    match exchange h srv t ss f msg with
    | None => (t, ss, (respond h srv ss f msg).2)
    | Some (_, t, ss, f) => exchanges h srv t ss f rest
    end
  end.

Lemma exchanges_readOnly h srv t ss f msgs : s_readOnly (backend t).2 = true -> (exchanges h srv t ss f msgs).2 = f.
Proof.
  revert t ss. induction msgs as [|msg rest IH]; intros t ss Hro; [done|]. cbn [exchanges].
  pose proof (exchange_readOnly h srv t ss f msg Hro) as He.
  destruct (exchange h srv t ss f msg) as [[[[out t'] ss'] f']|]; [|done]. destruct He as [-> Hro']. by apply IH.
Qed.

(** C32: the service's policy holds for 9P clients, whatever the 9P server itself
    allows: behind a read-only service no sequence of requests changes a file,
    and a request that an enforcing hook refuses, under the event the service
    makes of it, leaves files and fids as they are and is answered with an
    error. *)
Theorem service_protects (h : host) (srv : Server) t (ss : session) (f : fs) :
  (s_readOnly (backend t).2 = true -> forall msgs, (exchanges h srv t ss f msgs).2 = f) /\
  (forall msg ev tr reg entry handler, describeRequest t msg = Some (ev, tr) -> s_hooks (backend t).2 = Some reg ->
     entry ∈ default [] (hooks reg !! (ev_Operation ev, PhaseBefore)) ->
     hk_Mode (r_hook entry) = ModeEnforce -> hk_Handler (r_hook entry) = Some handler ->
     (forall id, is_Some (handler (before_event (backend t).1 id (s_readOnly (backend t).2) ev))) ->
     exists err t', exchange h srv t ss f msg =
       Some (encode (mkMessage Rerror (m_tag msg) (error_payload (t_version t) (boundedError err))), t', ss, f)).
Proof.
  split; [intros Hro msgs; by apply exchanges_readOnly|].
  intros msg ev tr reg entry handler Hd Hs Hin Hm Hh Hv.
  destruct (Begin_veto (backend t).1 (backend t).2 ev reg entry handler Hs Hin Hm Hh Hv) as [err E].
  exists err. unfold exchange, incoming. rewrite Hd. cbn [api_begin service_api].
  destruct (Z.eqb_spec (m_type msg) Tversion) as [Ev|_].
  { apply describe_noted in Hd. destruct (noted_known _ _ _ _ Hd). by rewrite Ev. }
  destruct (Begin json_event (backend t).1 (backend t).2 ev) as [r sv]. cbn [fst] in E. subst r. by eexists.
Qed.

End Service.

(** ** A service over memory with a hook that refuses to create *)

Definition no_json (e : Event) : bytes := [].
Definition refuse_create : Hook :=
  mkHook OperationCreate PhaseBefore 0 ModeEnforce 0 0 (Some (fun _ => Some (str "no"))).
Definition demo_registry : Registry := (Register NewRegistry refuse_create).2.
Definition demo_service (ro : bool) : Service :=
  mkService (mkCore (mkMemory false ∅) 0 ∅ 0 []) (Some demo_registry) ro.
Definition demo_transport (ro : bool) : transport (HB := service_api no_json) := newBackendTransport (1, demo_service ro).
Definition quiet : host := mkHost (fun _ _ _ => false) (fun _ _ => None) (fun _ _ => 420) (fun _ _ => 0) (fun _ _ => 4096) (fun _ p => p).
Definition small_fs : fs := {[ [str "srv"] := Dir; [str "srv"; str "a"] := File (str "hello") ]}.
Definition small_server : Server := mkServer (str "/srv") false.
Definition t_attach : message := mkMessage Tattach 1 (le_put 4 0 ++ le_put 4 0).
Definition t_create : message := mkMessage Tcreate 2 (le_put 4 0 ++ packString (str "b") ++ le_put 4 420 ++ [1]).

Lemma backend_mediates_witness :
  exists out t' ss' f', exchange quiet small_server (demo_transport false) new_session small_fs t_attach = Some (out, t', ss', f') /\ agree t' ss'.
Proof.
  destruct (backend_mediates quiet small_server (demo_transport false) new_session small_fs t_attach) as (out & t' & ss' & f' & E & Ha & _).
  - split_and!; [done|done|]. intros k. reflexivity.
  - apply map_Forall_empty.
  - unfold bytes_ok, is_u. vm_compute. repeat constructor; done.
  - split; [by vm_compute|]. vm_compute. discriminate.
  - eauto 6.
Defined.

Lemma service_protects_witness :
  (exchanges no_json quiet small_server (demo_transport true) new_session small_fs [t_attach; t_create]).2 = small_fs /\
  exists err t', exchange quiet small_server (demo_transport false) new_session small_fs t_create =
    Some (encode (mkMessage Rerror 2 (error_payload servedVersion (boundedError err))), t', new_session, small_fs).
Proof.
  split; [by apply (proj1 (service_protects no_json quiet small_server (demo_transport true) new_session small_fs))|].
  eapply (proj2 (service_protects no_json quiet small_server (demo_transport false) new_session small_fs) t_create).
  - vm_compute. reflexivity.
  - vm_compute. reflexivity.
  - apply list_elem_of_In. left. reflexivity.
  - reflexivity.
  - reflexivity.
  - intros id. by eexists.
Defined.

End P9BackendClaims.
