(* ===== verification/FileBackendClaims.v ===== *)
(** * The durable core of the file backend *)

From S2P Require Import Prelude GoStrings Sha256 FileBackend.

Module FileBackendClaims.
Import GoStrings Sha256 FileBackend.

(** What a key holds after a batch. *)
Definition after_batch (entries : list BatchEntry) (key : bytes) (old : result core_error bytes) : result core_error bytes :=
  fold_left (fun acc e => if str_eqb (b_Key e) key then (if b_Delete e then Err ErrNotFound else Ok (b_Value e)) else acc) entries old.

(** What the core relies on of its store: writes to non-empty keys happen
    completely or not at all. *)
Class LawfulStore (S : Type) `{CoreStore S} : Prop := {
  write_done : forall st entries st', Forall (fun e => b_Key e <> []) entries -> cs_write st entries = (None, st') ->
    forall key, cs_get st' key = after_batch entries key (cs_get st key);
  write_undone : forall st entries err st', Forall (fun e => b_Key e <> []) entries -> cs_write st entries = (Some err, st') ->
    forall key, cs_get st' key = cs_get st key;
  put_write : forall st key value, cs_put st key value = cs_write st [mkBatch key value false]
}.

Lemma memory_apply_spec values entries : Forall (fun e => b_Key e <> []) entries ->
  exists values', memory_apply values entries = (None, values') /\
    forall key, (match values' !! key with None => Err ErrNotFound | Some v => Ok v end) =
      after_batch entries key (match values !! key with None => Err ErrNotFound | Some v => Ok v end).
Proof.
  intros Hk. revert values. induction Hk as [|e entries He Hk IH]; intros values; cbn [memory_apply]; [eauto|].
  destruct (str_eqb_spec (b_Key e) []); [done|].
  destruct (IH (if b_Delete e then delete (b_Key e) values else <[b_Key e := b_Value e]> values)) as (values' & -> & Hget).
  exists values'. split; [done|]. intros key. rewrite Hget. cbn [after_batch fold_left]. f_equal.
  destruct (str_eqb_spec (b_Key e) key) as [<-|Hne], (b_Delete e).
  - by rewrite lookup_delete_eq.
  - by rewrite lookup_insert_eq.
  - by rewrite lookup_delete_ne.
  - by rewrite lookup_insert_ne.
Qed.

#[export] Instance memory_lawful : LawfulStore MemoryStore.
Proof.
  split.
  - intros [closed values] entries st' Hk. cbn. unfold memory_Write. cbn [ms_closed ms_values]. destruct closed; [done|].
    destruct (memory_apply_spec values entries Hk) as (values' & -> & Hget). intros [= <-] key. unfold memory_Get. cbn. apply Hget.
  - intros [closed values] entries err st' Hk. cbn. unfold memory_Write. cbn [ms_closed ms_values]. destruct closed; [by intros [= _ <-]|].
    by destruct (memory_apply_spec values entries Hk) as (values' & -> & _).
  - done.
Qed.

Lemma after_batch_other entries key old : Forall (fun e => b_Key e <> key) entries -> after_batch entries key old = old.
Proof.
  intros H. revert old. induction H as [|e entries He H IH]; intros old; [done|]. cbn [after_batch fold_left].
  destruct (str_eqb_spec (b_Key e) key); [done|]. apply IH.
Qed.

Lemma after_batch_app a b key old : after_batch (a ++ b) key old = after_batch b key (after_batch a key old).
Proof. unfold after_batch. by rewrite fold_left_app. Qed.

(** ** Keys *)

Lemma counterKey_inj a b : counterKey a = counterKey b -> a = b.
Proof. unfold counterKey. apply app_inv_head. Qed.
Lemma keys_apart op r : counterKey op <> sequenceKey /\ counterKey op <> errorsKey /\ counterKey op <> lastKey /\
  versionKey r <> sequenceKey /\ versionKey r <> errorsKey /\ versionKey r <> counterKey op /\
  qidKey r <> sequenceKey /\ qidKey r <> errorsKey /\ qidKey r <> counterKey op.
Proof. split_and!; intros E; injection E; done. Qed.

Section Core.
Context {S : Type} `{LawfulStore S} (json_event : Event -> bytes).

(** The numbers in memory are the numbers in the store. *)
Record core_ok (c : Core (S := S)) : Prop := {
  ok_sequence : read_or_zero (store c) sequenceKey = Ok (sequence c) /\ is_u 64 (sequence c);
  ok_errors : read_or_zero (store c) errorsKey = Ok (errors c) /\ is_u 64 (errors c);
  ok_counts : forall op, op ∈ operations -> readUint 8 (store c) (counterKey op) =
    match counts c !! op with Some n => Ok n | None => Err ErrNotFound end;
  ok_known : forall op, op ∉ operations -> counts c !! op = None
}.

Lemma readUint_same n st st' key : cs_get st' key = cs_get st key -> readUint n st' key = readUint n st key.
Proof. unfold readUint. by intros ->. Qed.
Lemma read_or_zero_same st st' key : cs_get st' key = cs_get st key -> read_or_zero st' key = read_or_zero st key.
Proof. unfold read_or_zero. intros E. by rewrite (readUint_same 8 st st' key E). Qed.

Lemma readUint_written st key v : is_u 64 v -> cs_get st key = Ok (le_put 8 v) -> readUint 8 st key = Ok v.
Proof.
  intros Hv E. unfold readUint. rewrite E. cbn [result_bind]. rewrite len_le_put, le_get_put. cbn. f_equal. by apply Z.mod_small.
Qed.

(** A store that changed under other keys only. *)
Lemma core_ok_other c st' last : core_ok c ->
  (forall key, key = sequenceKey \/ key = errorsKey \/ (exists op, key = counterKey op) -> cs_get st' key = cs_get (store c) key) ->
  core_ok (mkCore st' (sequence c) (counts c) (errors c) last).
Proof.
  intros [Hs He Hc Hk] Hget. constructor; cbn.
  - rewrite (read_or_zero_same (store c)) by (apply Hget; auto). done.
  - rewrite (read_or_zero_same (store c)) by (apply Hget; auto). done.
  - intros op Hop. rewrite (readUint_same 8 (store c)) by (apply Hget; eauto). by apply Hc.
  - done.
Qed.

Lemma elem_of_all op : op ∈ allOperations <-> op ∈ operations.
Proof. apply elem_of_sort_by. Qed.

(** Reading the counters back. *)
Lemma read_counts_spec (st : S) (ops : list bytes) (acc m : gmap bytes Z) :
  (forall op, op ∈ ops -> readUint 8 st (counterKey op) = match m !! op with Some n => Ok n | None => Err ErrNotFound end) ->
  (forall op, op ∉ ops -> m !! op = acc !! op) -> (forall op n, acc !! op = Some n -> m !! op = Some n) ->
  read_counts st ops acc = Ok m.
Proof.
  revert acc. induction ops as [|op ops IH]; intros acc Hr Ho Ha; cbn [read_counts].
  { f_equal. apply map_eq. intros k. symmetry. apply Ho. apply not_elem_of_nil. }
  rewrite (Hr op) by (by left). destruct (m !! op) as [n|] eqn:E.
  - apply IH; [intros k Hk; apply Hr; by right| |].
    + intros k Hk. destruct (decide (k = op)) as [->|]; [by rewrite lookup_insert_eq|]. rewrite lookup_insert_ne by done. apply Ho.
      by rewrite elem_of_cons; intros [?|?].
    + intros k v. destruct (decide (k = op)) as [->|]; [rewrite lookup_insert_eq; by intros [= <-]|]. rewrite lookup_insert_ne by done. apply Ha.
  - apply IH; [intros k Hk; apply Hr; by right| |done].
    intros k Hk. destruct (decide (k = op)) as [->|]; [|apply Ho; by rewrite elem_of_cons; intros [?|?]].
    rewrite E. destruct (acc !! op) as [v|] eqn:Ea; [|done]. by rewrite (Ha _ _ Ea) in E.
Qed.

(** A restart finds everything. *)
Lemma NewCore_restores c : core_ok c -> NewCore (store c) = Ok (mkCore (store c) (sequence c) (counts c) (errors c) []).
Proof.
  intros [[Hs _] [He _] Hc Hk]. unfold NewCore. rewrite Hs. cbn [result_bind].
  rewrite (read_counts_spec _ _ ∅ (counts c)); [cbn [result_bind]; by rewrite He|..].
  - intros op Hop%elem_of_all. by apply Hc.
  - intros op Hop. rewrite lookup_empty. apply Hk. by rewrite <- elem_of_all.
  - intros op n. by rewrite lookup_empty.
Qed.

Lemma read_counts_inv (st : S) (ops : list bytes) (acc m : gmap bytes Z) : read_counts st ops acc = Ok m ->
  (forall op, m !! op = if decide (op ∈ ops) then match readUint 8 st (counterKey op) with Ok v => Some v | Err _ => acc !! op end else acc !! op) /\
  (forall op, op ∈ ops -> forall e, readUint 8 st (counterKey op) <> Err (ErrStore e)).
Proof.
  revert acc. induction ops as [|x ops IH]; intros acc; cbn [read_counts].
  { intros [= ->]. split; [intros op; destruct (decide _) as [?%not_elem_of_nil|]; done|by intros op ?%not_elem_of_nil]. }
  destruct (readUint 8 st (counterKey x)) as [v|[|e]] eqn:Ex; [| |done]; intros [I1 I2]%IH; (split;
    [|intros op; rewrite elem_of_cons; intros [->|Hop] e; [by rewrite Ex|by apply I2]]); intros op; rewrite I1.
  - destruct (decide (op = x)) as [->|Hne].
    + rewrite Ex, lookup_insert_eq. destruct (decide (x ∈ ops)), (decide (x ∈ x :: ops)) as [|Hn]; try done; destruct Hn; by left.
    + rewrite lookup_insert_ne by done. destruct (decide (op ∈ ops)), (decide (op ∈ x :: ops)) as [Hin|Hin]; try done.
      * destruct Hin. by right.
      * by apply elem_of_cons in Hin as [?|?].
  - destruct (decide (op = x)) as [->|Hne].
    + rewrite Ex. by destruct (decide (x ∈ ops)), (decide (x ∈ x :: ops)).
    + destruct (decide (op ∈ ops)), (decide (op ∈ x :: ops)) as [Hin|Hin]; try done.
      * destruct Hin. by right.
      * by apply elem_of_cons in Hin as [?|?].
Qed.

Lemma read_or_zero_bound (st : S) key v : (forall k b, cs_get st k = Ok b -> bytes_ok b) -> read_or_zero st key = Ok v -> is_u 64 v.
Proof.
  intros Hb. unfold read_or_zero, readUint. destruct (cs_get st key) as [b|e] eqn:E; cbn [result_bind].
  - destruct (Z.eqb_spec (len b) (Z.of_nat 8)) as [El|]; cbn [negb]; [|done]. intros [= <-].
    pose proof (le_get_bound b (Hb _ _ E)) as Hg. rewrite El in Hg. exact Hg.
  - destruct e; [|done]. intros [= <-]. by unfold is_u.
Qed.

(** Opening a store whose values are bytes. *)
Lemma NewCore_ok st c : (forall k b, cs_get st k = Ok b -> bytes_ok b) -> NewCore st = Ok c -> core_ok c /\ store c = st.
Proof.
  intros Hb. unfold NewCore. intros (sq & Hs & Hx)%result_bind_ok. apply result_bind_ok in Hx as (cn & Hc & Hx).
  apply result_bind_ok in Hx as (er & He & [= <-]). apply read_counts_inv in Hc as [H1 H2]. split; [|done]. constructor; cbn.
  - split; [done|]. by eapply read_or_zero_bound.
  - split; [done|]. by eapply read_or_zero_bound.
  - intros op Hop. rewrite <- elem_of_all in Hop. rewrite H1, decide_True, lookup_empty by done. specialize (H2 op Hop).
    destruct (readUint 8 st (counterKey op)) as [v|[|e]]; [done|done|by destruct (H2 e)].
  - intros op Hop. rewrite <- elem_of_all in Hop. rewrite H1, decide_False by done. apply lookup_empty.
Qed.

(** ** The operations keep memory and store together *)

Lemma core_get_put st key v st' key' : key <> [] -> cs_put st key v = (None, st') ->
  cs_get st' key' = if str_eqb key key' then Ok v else cs_get st key'.
Proof.
  intros Hk. rewrite put_write. intros Hw. rewrite (write_done st [mkBatch key v false] st'); [|by repeat constructor|done].
  cbn. by destruct (str_eqb key key').
Qed.

Lemma NextID_ok c r c' : core_ok c -> NextID c = (r, c') -> core_ok c' /\
  match r with
  | Ok id => id = u64 (sequence c + 1) /\ sequence c' = id
  | Err _ => sequence c' = sequence c
  end.
Proof.
  intros Hc. unfold NextID. destruct (cs_put (store c) sequenceKey (le_put 8 (u64 (sequence c + 1)))) as [[err|] st'] eqn:Ep; intros [= <- <-]; cbn.
  - split; [|done]. apply core_ok_other; [done|]. intros key _. rewrite put_write in Ep.
    refine (write_undone _ _ _ _ _ Ep key). by repeat constructor.
  - split; [|done]. assert (is_u 64 (u64 (sequence c + 1))) as Hu by (by apply is_u_mod).
    assert (sequenceKey <> []) as Hne by done. pose proof (core_get_put _ _ _ st' sequenceKey Hne Ep) as Hg.
    rewrite str_eqb_refl in Hg.
    assert (forall key, key <> sequenceKey -> cs_get st' key = cs_get (store c) key) as Ho.
    { intros key Hk. rewrite (core_get_put _ _ _ st' key Hne Ep). by destruct (str_eqb_spec sequenceKey key). }
    destruct Hc as [Hs He Hcn Hk]. constructor; cbn.
    + split; [|done]. unfold read_or_zero. by rewrite (readUint_written _ _ _ Hu Hg).
    + by rewrite (read_or_zero_same (store c)) by (by apply Ho).
    + intros op Hop. rewrite (readUint_same 8 (store c)) by (apply Ho, (keys_apart op [])). by apply Hcn.
    + done.
Qed.

Lemma bump_versions_keys (st : S) seen paths entries : bump_versions st seen paths = Ok entries ->
  Forall (fun e => exists r, b_Key e = versionKey r) entries.
Proof.
  revert seen entries. induction paths as [|p paths IH]; intros seen entries; cbn [bump_versions]; [by intros [= <-]|].
  destruct (existsb _ seen); [apply IH|]. intros (cur & _ & Hx)%result_bind_ok. apply result_bind_ok in Hx as (rest & Hr & [= <-]).
  constructor; [by eexists|]. by eapply IH.
Qed.

Lemma Core_ObserveQID_ok c relative path version r c' : core_ok c -> Core_ObserveQID c relative path version = (r, c') ->
  core_ok c' /\ sequence c' = sequence c.
Proof.
  intros Hc. unfold Core_ObserveQID. destruct (path =? 0); [by intros [= <- <-]|].
  assert (forall last, core_ok (c <| lastError := last |>)) as Hl by (intros last; by apply (core_ok_other c)).
  destruct (match readUint 4 _ _ with Err ErrNotFound => Ok 0 | r0 => r0 end) as [current|e]; [|intros [= <- <-]; split; [apply Hl|done]].
  set (entries := [mkBatch _ _ _; mkBatch _ _ _]).
  assert (Forall (fun e => b_Key e <> []) entries) as Hk by (by repeat constructor).
  destruct (cs_write (store c) entries) as [[err|] st'] eqn:Ew; intros [= <- <-]; (split; [|done]); apply (core_ok_other c); try done; intros key Hkey.
  - exact (write_undone _ _ _ _ Hk Ew key).
  - rewrite (write_done _ _ _ Hk Ew). apply after_batch_other. repeat constructor; cbn [b_Key];
      intros <-; destruct Hkey as [E|[E|[op E]]]; injection E; done.
Qed.

(** What a recorded event leaves under the keys that matter. *)
Lemma record_entries_get n count errs key old :
  after_batch (record_entries json_event n count errs) key old =
    if str_eqb (counterKey (ev_Operation n)) key then Ok (le_put 8 count) else
    if str_eqb lastKey key then Ok (json_event n) else
    if str_eqb (ev_Phase n) PhaseError && str_eqb errorsKey key then Ok (le_put 8 errs) else old.
Proof.
  destruct (keys_apart (ev_Operation n) []) as (_ & K1 & K2 & _). assert (lastKey <> errorsKey) as K3 by done.
  unfold record_entries. destruct (str_eqb (ev_Phase n) PhaseError); cbn [after_batch app fold_left b_Key b_Value b_Delete andb];
    destruct (str_eqb_spec (counterKey (ev_Operation n)) key) as [E1|_], (str_eqb_spec lastKey key) as [E2|_], (str_eqb_spec errorsKey key) as [E3|_];
    first [reflexivity|exfalso; congruence].
Qed.

Lemma normalizeEvent_valid now e n : normalizeEvent now e = Ok n -> ev_Operation n ∈ operations.
Proof.
  intros En. assert (valid (ev_Operation n) = true) as Hv.
  { revert En. unfold normalizeEvent.
    set (e1 := if str_eqb (ev_Version e) [] then _ else e). destruct (negb _ || negb (valid (ev_Operation e1))) eqn:E; [done|].
    apply orb_false_elim in E as [_ E%negb_false_iff]. destruct (negb (known_phase _)); [done|].
    assert (ev_Operation (if ev_OccurredAt e1 =? 0 then set_occurred now e1 else e1) = ev_Operation e1) as Eo by (by case_match).
    repeat case_match; try done; intros [= <-]; first [exact E|done]. }
  unfold valid in Hv. apply existsb_exists in Hv as (x & Hin & Hx). destruct (str_eqb_spec (ev_Operation n) x) as [->|]; [|done].
  by apply list_elem_of_In.
Qed.

Lemma normalizeEvent_operation now e n : normalizeEvent now e = Ok n -> ev_Operation n = ev_Operation e.
Proof. unfold normalizeEvent. repeat case_match; try done; by intros [= <-]. Qed.

Lemma Core_Record_ok now c e paths r c' : core_ok c -> Core_Record json_event now c e paths = (r, c') ->
  core_ok c' /\ sequence c' = sequence c.
Proof.
  intros Hc. unfold Core_Record. destruct (normalizeEvent now e) as [n|] eqn:En; [|by intros [= <- <-]].
  assert (forall last, core_ok (c <| lastError := last |>)) as Hl by (intros last; by apply (core_ok_other c)).
  destruct (bump_versions (store c) [] paths) as [versions|] eqn:Ev; [|intros [= <- <-]; split; [apply Hl|done]].
  apply bump_versions_keys in Ev. set (count := u64 _). set (errs := if str_eqb _ PhaseError then _ else _).
  assert (is_u 64 count) as Hu by (by apply is_u_mod).
  assert (is_u 64 errs) as He by (unfold errs; case_match; [by apply is_u_mod|apply Hc]).
  assert (Forall (fun e => b_Key e <> []) (record_entries json_event n count errs ++ versions)) as Hk.
  { apply Forall_app. split; [unfold record_entries; case_match; by repeat constructor|]. eapply Forall_impl; [exact Ev|]. by intros x [r0 ->]. }
  destruct (cs_write (store c) (record_entries json_event n count errs ++ versions)) as [[err|] st'] eqn:Ew; intros [= <- <-]; (split; [|done]).
  { apply (core_ok_other c); [done|]. intros key _. exact (write_undone _ _ _ _ Hk Ew key). }
  assert (forall key, (forall r0, versionKey r0 <> key) -> cs_get st' key = after_batch (record_entries json_event n count errs) key (cs_get (store c) key)) as Hget.
  { intros key Hkey. rewrite (write_done _ _ _ Hk Ew), after_batch_app. apply after_batch_other.
    eapply Forall_impl; [exact Ev|]. intros x [r0 ->]. apply Hkey. }
  setoid_rewrite record_entries_get in Hget. pose proof (normalizeEvent_valid _ _ _ En) as Hop.
  pose proof (fun op r0 => keys_apart op r0) as Hka. destruct Hc as [[Hs1 Hs2] [He1 He2] Hcn Hkn]. constructor; cbn.
  - split; [|done]. rewrite (read_or_zero_same (store c)); [done|]. rewrite Hget by (intros r0; apply (Hka [] r0)).
    destruct (str_eqb_spec (counterKey (ev_Operation n)) sequenceKey) as [E|_]; [by destruct (Hka (ev_Operation n) [])|].
    change (str_eqb lastKey sequenceKey) with false. change (str_eqb errorsKey sequenceKey) with false. by rewrite andb_false_r.
  - split; [|done]. assert (cs_get st' errorsKey = if str_eqb (ev_Phase n) PhaseError then Ok (le_put 8 errs) else cs_get (store c) errorsKey) as Eg.
    { rewrite Hget by (intros r0; apply (Hka [] r0)).
      destruct (str_eqb_spec (counterKey (ev_Operation n)) errorsKey) as [E|_]; [by destruct (Hka (ev_Operation n) []) as (_ & ? & _)|].
      change (str_eqb lastKey errorsKey) with false. rewrite str_eqb_refl, andb_true_r. done. }
    unfold errs in *. destruct (str_eqb (ev_Phase n) PhaseError).
    + unfold read_or_zero. by rewrite (readUint_written _ _ _ He Eg).
    + by rewrite (read_or_zero_same (store c)).
  - intros op Ho. destruct (decide (op = ev_Operation n)) as [->|Hne].
    + rewrite lookup_insert_eq. apply readUint_written; [done|]. rewrite Hget by (intros r0; apply (Hka (ev_Operation n) r0)). by rewrite str_eqb_refl.
    + rewrite lookup_insert_ne, <- Hcn by done. apply readUint_same. rewrite Hget by (intros r0; apply (Hka op r0)).
      destruct (str_eqb_spec (counterKey (ev_Operation n)) (counterKey op)) as [E%counterKey_inj|_]; [done|].
      destruct (str_eqb_spec lastKey (counterKey op)) as [E|_]; [by destruct (Hka op []) as (_ & _ & ? & _)|].
      destruct (str_eqb_spec errorsKey (counterKey op)) as [E|_]; [by destruct (Hka op []) as (_ & ? & _)|]. by rewrite andb_false_r.
  - intros op Ho. rewrite lookup_insert_ne; [by apply Hkn|]. by intros <-.
Qed.

Lemma Core_Record_counts now c e paths r c' op : Core_Record json_event now c e paths = (r, c') ->
  default 0 (counts c' !! op) mod 2 ^ 64 =
    (default 0 (counts c !! op) + (if decide (r = None /\ ev_Operation e = op) then 1 else 0)) mod 2 ^ 64.
Proof.
  unfold Core_Record. destruct (normalizeEvent now e) as [n|] eqn:En; [|intros [= <- <-]; rewrite decide_False by (by intros [? _]); by rewrite Z.add_0_r].
  apply normalizeEvent_operation in En.
  destruct (bump_versions (store c) [] paths) as [versions|]; [|intros [= <- <-]; rewrite decide_False by (by intros [? _]); by rewrite Z.add_0_r].
  destruct (cs_write _ _) as [[err|] st']; intros [= <- <-]; cbn [counts].
  - rewrite decide_False by (by intros [? _]). by rewrite Z.add_0_r.
  - rewrite En. destruct (decide (ev_Operation e = op)) as [<-|Hne].
    + rewrite lookup_insert_eq, decide_True by done. cbn [default]. unfold u64. apply Z.mod_mod. lia.
    + rewrite lookup_insert_ne, decide_False, Z.add_0_r by (first [done|by intros [_ ?]]). done.
Qed.

(** ** A life of the backend, restarts included *)

Inductive action :=
| Next
| Record_ (now : Z) (e : Event) (paths : list bytes)
| Observe (relative : bytes) (path version : Z)
| Restart.

Inductive outcome :=
| Issued (id : Z)
| Recorded (op : bytes)
| Nothing.

Definition act (c : Core (S := S)) (a : action) : outcome * Core :=
  match a with
  | Next => let '(r, c') := NextID c in (match r with Ok id => Issued id | Err _ => Nothing end, c')
  | Record_ now e paths =>
    let '(r, c') := Core_Record json_event now c e paths in (match r with None => Recorded (ev_Operation e) | Some _ => Nothing end, c')
  | Observe relative path version => (Nothing, (Core_ObserveQID c relative path version).2)
  | Restart => (Nothing, match NewCore (store c) with Ok c' => c' | Err _ => c end)
  end.

Fixpoint live (c : Core (S := S)) (actions : list action) : list outcome * Core :=
  match actions with
  | [] => ([], c)
  | a :: actions => let '(o, c1) := act c a in let '(os, c2) := live c1 actions in (o :: os, c2)
  end.

Definition issued (os : list outcome) : list Z := omap (fun o => match o with Issued id => Some id | _ => None end) os.
Definition recorded (op : bytes) (os : list outcome) : Z :=
  foldr (fun o n => match o with Recorded op' => if decide (op' = op) then 1 + n else n | _ => n end) 0 os.

Lemma Core_ObserveQID_counts (c : Core (S := S)) relative path version : counts (Core_ObserveQID c relative path version).2 = counts c.
Proof. unfold Core_ObserveQID. by repeat case_match. Qed.

Definition grows (c c' : Core (S := S)) (o : outcome) : Prop :=
  match o with Issued id => id = sequence c' /\ sequence c' = sequence c + 1 | _ => sequence c' = sequence c end.

Lemma act_ok c a o c' : core_ok c -> sequence c + 1 < 2 ^ 64 -> act c a = (o, c') ->
  core_ok c' /\ grows c c' o /\
  forall op, default 0 (counts c' !! op) mod 2 ^ 64 = (default 0 (counts c !! op) + recorded op [o]) mod 2 ^ 64.
Proof.
  intros Hc Hroom. destruct a as [|now e paths|relative path version|]; cbn [act].
  - destruct (NextID c) as [r c1] eqn:E. assert (counts c1 = counts c) as Ec by (unfold NextID in E; case_match; case_match; by injection E as _ <-).
    intros [= <- <-]. apply NextID_ok in E as [Hok Hr]; [|done]. rewrite Ec. destruct r as [id|err]; cbn; (split; [done|split; [|intros; by rewrite Z.add_0_r]]); [|done].
    destruct Hr as [-> ->]. destruct (ok_sequence c Hc) as [_ [Hlo _]]. split; [done|]. unfold u64. apply Z.mod_small. lia.
  - destruct (Core_Record json_event now c e paths) as [r c1] eqn:E. pose proof (fun op => Core_Record_counts _ _ _ _ _ _ op E) as Hn.
    intros [= <- <-]. apply Core_Record_ok in E as [Hok Hs]; [|done]. split; [done|]. destruct r as [b|]; (split; [done|]); intros op; rewrite Hn; cbn [recorded foldr].
    + by rewrite (decide_False (P := Some b = None /\ ev_Operation e = op)) by (by intros [? _]).
    + destruct (decide (ev_Operation e = op)), (decide (None = None /\ _)) as [[_ ?]|Hn1]; try done. by destruct Hn1.
  - intros [= <- <-]. destruct (Core_ObserveQID c relative path version) as [r c1] eqn:E.
    pose proof (Core_ObserveQID_counts c relative path version) as Hn. rewrite E in Hn. cbn [snd] in Hn |- *. rewrite Hn.
    apply Core_ObserveQID_ok in E as [Hok Hs]; [|done]. split; [done|]. split; [done|]. intros op. cbn. by rewrite Z.add_0_r.
  - rewrite (NewCore_restores c Hc). intros [= <- <-]. split; [by apply (core_ok_other c)|]. split; [done|]. intros op. cbn. by rewrite Z.add_0_r.
Qed.

Lemma live_ok actions c os c' : core_ok c -> sequence c + len actions < 2 ^ 64 -> live c actions = (os, c') ->
  core_ok c' /\ issued os = seqZ (sequence c + 1) (sequence c' - sequence c) /\ sequence c <= sequence c' /\
  forall op, default 0 (counts c' !! op) mod 2 ^ 64 = (default 0 (counts c !! op) + recorded op os) mod 2 ^ 64.
Proof.
  revert c os. induction actions as [|a actions IH]; intros c os Hc Hroom; cbn [live].
  { intros [= <- <-]. split; [done|]. rewrite Z.sub_diag. split; [done|]. split; [lia|]. intros op. cbn. by rewrite Z.add_0_r. }
  rewrite len_cons in Hroom. pose proof (len_nonneg actions).
  destruct (act c a) as [o c1] eqn:E. destruct (live c1 actions) as [os1 c2] eqn:El. intros [= <- <-].
  destruct (act_ok c a o c1 Hc) as (Hok & Hg & Hn); [lia|done|].
  assert (sequence c <= sequence c1 <= sequence c + 1) as Hb by (destruct o; cbn in Hg; lia).
  destruct (IH c1 os1 Hok) as (Hok2 & Hi & Hle & Hn2); [lia|done|]. split; [done|]. split; [|split; [lia|]].
  - destruct o as [id|op|]; cbn [grows] in Hg.
    2, 3: change (issued os1 = seqZ (sequence c + 1) (sequence c2 - sequence c)); by rewrite Hi, Hg.
    destruct Hg as [-> Hg]. change (issued (Issued (sequence c1) :: os1)) with (sequence c1 :: issued os1). rewrite Hi.
    rewrite (seqZ_cons (sequence c + 1)) by lia. f_equal; [done|]. f_equal; lia.
  - intros op. rewrite Hn2. assert (recorded op (o :: os1) = recorded op [o] + recorded op os1) as ->
      by (unfold recorded; cbn [foldr]; destruct o; try destruct (decide _); lia).
    rewrite Z.add_assoc. rewrite <- (Zplus_mod_idemp_l (_ + recorded op [o])), <- Hn. by rewrite Zplus_mod_idemp_l.
Qed.

(** C17: The file backend's bookkeeping survives restarts.  Over any store
    whose batches happen completely or not at all, a backend that opens its
    store and then issues operation identifiers, records events, observes QIDs
    and is restarted in any order never issues an identifier twice or out of
    order: the identifiers are consecutive, across every restart and failed
    write.  Opening the store again always succeeds and gives back the
    sequence, the error count and the per-operation counts, and each count has
    grown by exactly the events that were recorded without an error. *)
Theorem core_durable (st : S) c actions os c' : (forall key v, cs_get st key = Ok v -> bytes_ok v) -> NewCore st = Ok c ->
  sequence c + len actions < 2 ^ 64 -> live c actions = (os, c') ->
  issued os = seqZ (sequence c + 1) (sequence c' - sequence c) /\
  NewCore (store c') = Ok (mkCore (store c') (sequence c') (counts c') (errors c') []) /\
  forall op, default 0 (counts c' !! op) mod 2 ^ 64 = (default 0 (counts c !! op) + recorded op os) mod 2 ^ 64.
Proof.
  intros Hb Ho Hroom Hl. apply NewCore_ok in Ho as [Hc _]; [|done].
  destruct (live_ok _ _ _ _ Hc Hroom Hl) as (Hok & Hi & _ & Hn). split; [done|]. split; [by apply NewCore_restores|done].
Qed.

End Core.

Definition sample_event : Event := mkEvent EventVersion 1 (str "write") PhaseAfter (str "a/b") [] 0 4 0 false false 0 0 [] ∅.
Definition sample_life : list action :=
  [Next; Record_ 5 sample_event [str "a/b"]; Restart; Next; Observe (str "a/b") 9 3; Record_ 6 sample_event [str "a"]; Restart; Next].

Lemma core_durable_witness : exists c os c',
  NewCore (mkMemory false ∅) = Ok c /\ live (fun _ => []) c sample_life = (os, c') /\ issued os = [1; 2; 3] /\ sequence c' = 3 /\
  counts c' !! str "write" = Some 2 /\
  NewCore (store c') = Ok (mkCore (store c') (sequence c') (counts c') (errors c') []).
Proof.
  destruct (NewCore (mkMemory false ∅)) as [c|] eqn:Ec; [|by vm_compute in Ec].
  assert (c = mkCore (mkMemory false ∅) 0 ∅ 0 []) as Hc by (vm_compute in Ec; by injection Ec as <-).
  destruct (live (fun _ => []) c sample_life) as [os c'] eqn:El. exists c, os, c'.
  destruct (core_durable (fun _ => []) (mkMemory false ∅) c sample_life os c') as (Hi & Hn & Hr); [..|done|].
  { intros key v. cbn. unfold memory_Get. cbn. by rewrite lookup_empty. }
  { exact Ec. }
  { rewrite Hc. by vm_compute. }
  assert (os = (live (fun _ => []) c sample_life).1 /\ c' = (live (fun _ => []) c sample_life).2) as [-> ->] by (by rewrite El).
  split; [done|]. split; [by rewrite El|]. rewrite Hc. split; [by vm_compute|]. split; [by vm_compute|]. split; [by vm_compute|].
  rewrite <- Hc. exact Hn.
Defined.

End FileBackendClaims.
