(* ===== verification/GoFsOps.v ===== *)
(** * More of the host's file system: links, renames and whole trees

    What the file-operation service uses of [path] and of the [os] package
    beyond [GoFs]: [Lstat], [Readlink], [Symlink], [Rename], [RemoveAll] and
    exclusive creation.  Modes and times belong to the host: setting them can
    fail and changes nothing else. *)

From S2P Require Import Prelude GoStrings GoFs GoFsProofs.

Module GoFsOps.
Import GoStrings GoFs GoFsProofs.

(** ** path *)

Definition last_comp (p : bytes) : bytes := default [] (last (split_slash p)).

(** [path.Dir]: everything up to the last slash, cleaned. *)
Definition Dir_of (p : bytes) : bytes := Clean (take (length p - length (last_comp p)) p).

Fixpoint drop_slashes (p : bytes) : bytes :=
  match p with c :: r => if c =? slash then drop_slashes r else p | [] => [] end.

(** [path.Base]. *)
Definition Base_of (p : bytes) : bytes :=
  if str_eqb p [] then dot else
  let q := rev (drop_slashes (rev p)) in
  if str_eqb q [] then [slash] else last_comp q.

(** ** The host *)

Inductive xcall : Type :=
  CallLstat | CallReadlink | CallSymlink | CallRename | CallRemoveAll | CallExclusive | CallFchmod | CallClose | CallChmod | CallChtimes.

(** [x_left] says which nodes a failing [RemoveAll] cannot remove, [x_random]
    what the system's random source returns on its n-th use. *)
Record xhost := mkXhost {
  x_host : host;
  x_fails : xcall -> fs -> bytes -> bool;
  x_left : fs -> loc -> bool;
  x_nanos : fs -> loc -> Z;
  x_random : nat -> option bytes
}.

Inductive ftype : Type := Regular | Directory | Symlink | Special.

Record LInfo := mkLInfo {
  li_name : bytes;
  li_type : ftype;
  li_perm : Z;
  li_size : Z;
  li_nanos : Z
}.

(** ** Trees *)

Fixpoint strip_prefix (a k : loc) : option loc :=
  match a, k with
  | [], _ => Some k
  | x :: a, y :: k => if str_eqb x y then strip_prefix a k else None
  | _ :: _, [] => None
  end.

Definition under (a k : loc) : bool := match strip_prefix a k with Some _ => true | None => false end.

(** Everything at and below [a] moves to [b]. *)
Definition move_entry (a b : loc) (kv : loc * node) : option (loc * node) :=
  match strip_prefix a kv.1 with
  | Some t => Some (b ++ t, kv.2)
  | None => if under b kv.1 then None else Some kv
  end.
Definition move (a b : loc) (f : fs) : fs := list_to_map (omap (move_entry a b) (map_to_list f)).

(** What is left of the tree at [a] when some of its nodes cannot be removed:
    they and the directories above them. *)
Definition kept (left : loc -> bool) (a : loc) (f : fs) (k : loc) : bool :=
  negb (under a k) || existsb (fun j => left j && under k j) (elements (dom f)).
Definition remove_tree (left : loc -> bool) (a : loc) (f : fs) : fs :=
  filter (fun kv => kept left a f kv.1 = true) f.

Section Os.
Context (x : xhost).

(** A system call on [p] that does not follow a link in last place. *)
Definition lcall (c : xcall) (f : fs) (p : bytes) : walked :=
  if existsb (Z.eqb 0) p then Failed EINVAL else
  if x_fails x c f p then Failed EHOST else walk 40 f false [] (split_slash p).

Definition os_Lstat (f : fs) (p : bytes) : result errno LInfo :=
  match lcall CallLstat f p with
  | Found l =>
    let info ty size := mkLInfo (Base p) ty (h_perm (x_host x) f l) size (x_nanos x f l) in
    match node_at f l with
    | Some (File content) => Ok (info Regular (len content))
    | Some Dir => Ok (info Directory (h_dirsize (x_host x) f l))
    | Some (Link target) => Ok (info Symlink (len target))
    | None => Err ENOENT
    end
  | Missing _ => Err ENOENT
  | Failed e => Err e
  end.

Definition os_Readlink (f : fs) (p : bytes) : result errno bytes :=
  match lcall CallReadlink f p with
  | Found l => match node_at f l with Some (Link target) => Ok target | _ => Err EINVAL end
  | Missing _ => Err ENOENT
  | Failed e => Err e
  end.

Definition os_Symlink (f : fs) (target p : bytes) : result errno fs :=
  match lcall CallSymlink f p with
  | Missing l => Ok (<[l := Link target]> f)
  | Found _ => Err EEXIST
  | Failed e => Err e
  end.

(** [os.OpenFile] with O_CREATE|O_EXCL|O_WRONLY. *)
Definition os_Exclusive (f : fs) (p : bytes) : result errno fs :=
  match lcall CallExclusive f p with
  | Missing l => Ok (<[l := File []]> f)
  | Found _ => Err EEXIST
  | Failed e => Err e
  end.

(** [os.Rename] never replaces a directory. *)
Definition os_Rename (f : fs) (old new : bytes) : result errno fs :=
  match lcall CallRename f old, lcall CallRename f new with
  | Failed e, _ => Err e
  | Missing _, _ => Err ENOENT
  | _, Failed e => Err e
  | Found a, Found b =>
    match node_at f b, node_at f a with
    | Some Dir, _ => Err EEXIST
    | _, Some Dir => Err ENOTDIR
    | _, _ => Ok (if decide (a = b) then f else move a b f)
    end
  | Found a, Missing b => if under a b then Err EINVAL else Ok (move a b f)
  end.

Definition os_RemoveAll (f : fs) (p : bytes) : option errno * fs :=
  match lcall CallLstat f p with
  | Missing _ | Failed ENOENT => (None, f)
  | Failed e => (Some e, f)
  | Found a =>
    if x_fails x CallRemoveAll f p then (Some EHOST, remove_tree (x_left x f) a f)
    else (None, remove_tree (fun _ => false) a f)
  end.

(** [os.Chmod] and [os.Chtimes]: they follow links. *)
Definition os_attribute (c : xcall) (f : fs) (p : bytes) : option errno :=
  if existsb (Z.eqb 0) p then Some EINVAL else
  if x_fails x c f p then Some EHOST else
  match walk 40 f true [] (split_slash p) with
  | Found _ => None
  | Missing _ => Some ENOENT
  | Failed e => Some e
  end.

End Os.
End GoFsOps.
