(* ===== verification/GoFsOpsProofs.v ===== *)
(** * Links, renames and trees of the host's file system: what they change *)

From S2P Require Import Prelude GoStrings GoFs GoFsProofs GoFsOps.

Module GoFsOpsProofs.
Import GoStrings GoFs GoFsProofs GoFsOps.

(** ** Locations *)

Lemma strip_prefix_app a t : strip_prefix a (a ++ t) = Some t.
Proof. induction a as [|x a IH]; cbn; [done|]. by rewrite str_eqb_refl. Qed.

Lemma strip_prefix_some a k t : strip_prefix a k = Some t -> k = a ++ t.
Proof.
  revert k. induction a as [|x a IH]; intros k; cbn; [by intros [= ->]|]. destruct k as [|y k]; [done|].
  destruct (str_eqb_spec x y) as [->|]; [|done]. intros H. by rewrite (IH _ H).
Qed.

Lemma strip_prefix_none a k : strip_prefix a k = None -> forall t, k <> a ++ t.
Proof. intros H t ->. by rewrite strip_prefix_app in H. Qed.

Lemma under_true a k : under a k = true <-> inside a k.
Proof.
  unfold under, inside. split.
  - destruct (strip_prefix a k) as [t|] eqn:E; [|done]. apply strip_prefix_some in E. eauto.
  - intros [t ->]. by rewrite strip_prefix_app.
Qed.

Lemma under_false a k : under a k = false <-> ~ inside a k.
Proof. rewrite <- under_true. by destruct (under a k). Qed.

Lemma under_sibling (lp : loc) (c d : bytes) (t : loc) : c <> d -> under (lp ++ [c]) (lp ++ d :: t) = false.
Proof.
  intros Hne. apply under_false. intros [u E]. rewrite <- app_assoc in E. apply app_inv_head in E. by injection E as -> _.
Qed.

(** Strictly below. *)
Definition below (a l : loc) : Prop := exists c t, l = a ++ c :: t.

Lemma inside_below (a : loc) c l : inside (a ++ [c]) l -> below a l.
Proof. intros [t ->]. exists c, t. by rewrite <- app_assoc. Qed.

Lemma below_inside a b l : inside a b -> below b l -> below a l.
Proof.
  intros [u ->] (c & t & ->). destruct u as [|d u].
  - exists c, t. by rewrite app_nil_r.
  - exists d, (u ++ c :: t). by rewrite <- app_assoc.
Qed.

(** ** Moving and removing trees *)

Lemma elem_of_move a b f k nd : (k, nd) ∈ omap (move_entry a b) (map_to_list f) <->
  match strip_prefix b k with
  | Some t => f !! (a ++ t) = Some nd
  | None => under a k = false /\ f !! k = Some nd
  end.
Proof.
  rewrite list_elem_of_omap. split.
  - intros ([k' nd'] & Hin & Hs). apply elem_of_map_to_list in Hin. unfold move_entry in Hs. cbn [fst snd] in Hs.
    destruct (strip_prefix a k') as [t|] eqn:Ea.
    + injection Hs as <- <-. rewrite strip_prefix_app. by rewrite <- (strip_prefix_some _ _ _ Ea).
    + destruct (under b k') eqn:Eb; [done|]. injection Hs as -> ->. unfold under in Eb |- *.
      destruct (strip_prefix b k); [done|]. by rewrite Ea.
  - destruct (strip_prefix b k) as [t|] eqn:Eb.
    + intros Hf. exists (a ++ t, nd). split; [by apply elem_of_map_to_list|]. unfold move_entry. cbn [fst snd].
      rewrite strip_prefix_app. by rewrite <- (strip_prefix_some _ _ _ Eb).
    + intros [Ha Hf]. exists (k, nd). split; [by apply elem_of_map_to_list|]. unfold move_entry. cbn [fst snd].
      unfold under in Ha |- *. rewrite Eb. by destruct (strip_prefix a k).
Qed.

Lemma lookup_move a b f k : move a b f !! k =
  match strip_prefix b k with Some t => f !! (a ++ t) | None => if under a k then None else f !! k end.
Proof.
  assert (forall nd nd', (k, nd) ∈ omap (move_entry a b) (map_to_list f) -> (k, nd') ∈ omap (move_entry a b) (map_to_list f) -> nd = nd') as Hu.
  { intros nd nd' H1%elem_of_move H2%elem_of_move. destruct (strip_prefix b k); [congruence|]. destruct H1, H2. congruence. }
  unfold move. apply option_eq. intros nd. split.
  - intros H%elem_of_list_to_map_2%elem_of_move. destruct (strip_prefix b k); [done|]. destruct H as [-> ->]. done.
  - intros H. assert ((k, nd) ∈ omap (move_entry a b) (map_to_list f)) as Hin.
    { apply elem_of_move. destruct (strip_prefix b k); [done|]. by destruct (under a k). }
    apply elem_of_list_to_map_1'; [|done]. intros nd' H'. by eapply Hu.
Qed.

Lemma lookup_move_to a b f t : move a b f !! (b ++ t) = f !! (a ++ t).
Proof. by rewrite lookup_move, strip_prefix_app. Qed.
Lemma lookup_move_from a b f t : under b (a ++ t) = false -> move a b f !! (a ++ t) = None.
Proof. intros H. rewrite lookup_move. unfold under in H |- *. destruct (strip_prefix b (a ++ t)); [done|]. by rewrite strip_prefix_app. Qed.
Lemma lookup_move_ne a b f k : under a k = false -> under b k = false -> move a b f !! k = f !! k.
Proof. intros H1 H2. rewrite lookup_move, H1. unfold under in H2. by destruct (strip_prefix b k). Qed.

Lemma lookup_remove_tree left a f k : remove_tree left a f !! k = if kept left a f k then f !! k else None.
Proof.
  unfold remove_tree. destruct (kept left a f k) eqn:E.
  - destruct (f !! k) as [nd|] eqn:Ef.
    + by apply map_lookup_filter_Some.
    + apply map_lookup_filter_None. by left.
  - apply map_lookup_filter_None. right. intros nd _. cbn. by rewrite E.
Qed.

Lemma kept_outside left a f k : under a k = false -> kept left a f k = true.
Proof. unfold kept. by intros ->. Qed.
Lemma kept_none a f k : kept (fun _ => false) a f k = negb (under a k).
Proof.
  unfold kept. destruct (under a k); cbn; [|done]. induction (elements (dom f)); done.
Qed.

(** ** Trees *)

(** Every node has a name and lies in a directory. *)
Definition tree (f : fs) : Prop := forall l c, is_Some (f !! (l ++ [c])) -> name c /\ node_at f l = Some Dir.

Lemma node_at_snoc (f : fs) (l : loc) c : node_at f (l ++ [c]) = f !! (l ++ [c]).
Proof. by destruct l. Qed.

Lemma tree_above f a c t : tree f -> is_Some (f !! (a ++ c :: t)) -> node_at f a = Some Dir.
Proof.
  intros Ht. revert c. induction t as [|d t IH] using rev_ind; intros c Hs; [by apply (Ht a c)|].
  apply (IH c). rewrite app_comm_cons, app_assoc in Hs. apply Ht in Hs as [_ Hd].
  destruct (a ++ c :: t) eqn:E; [by apply app_eq_nil in E as [_ ?]|]. cbn in Hd. by rewrite Hd.
Qed.

Lemma children_in f l c : c ∈ children f l <-> is_Some (f !! (l ++ [c])).
Proof.
  unfold children. rewrite elem_of_sort_by, list_elem_of_omap. unfold child_name. split.
  - intros (k & Hk & Hc). apply elem_of_elements, elem_of_dom in Hk. destruct (drop (length l) k) as [|n [|]] eqn:Ed; try done.
    case_bool_decide as Ek; [|done]. injection Hc as ->. by rewrite <- (take_drop (length l) k), Ek, Ed in Hk.
  - intros Hk. exists (l ++ [c]). split; [by apply elem_of_elements, elem_of_dom|]. rewrite drop_app_length, take_app_length.
    by rewrite bool_decide_eq_true_2.
Qed.

Lemma children_none f l : tree f -> children f l = [] -> forall c t, f !! (l ++ c :: t) = None.
Proof.
  intros Ht Hc c t. assert (f !! (l ++ [c]) = None) as Hn.
  { apply eq_None_not_Some. intros Hs%children_in. rewrite Hc in Hs. by apply not_elem_of_nil in Hs. }
  destruct t as [|d t]; [done|]. apply eq_None_not_Some. intros Hs.
  assert (node_at f (l ++ [c]) = Some Dir) as Hd by (apply (tree_above f _ d t Ht); by rewrite <- app_assoc).
  rewrite node_at_snoc in Hd. by rewrite Hn in Hd.
Qed.

(** A node that is not a directory has nothing below it. *)
Lemma tree_leaf f a : tree f -> node_at f a <> Some Dir -> forall c t, f !! (a ++ c :: t) = None.
Proof. intros Ht Hn c t. apply eq_None_not_Some. intros Hs. by destruct Hn, (tree_above f a c t). Qed.

Lemma node_at_extend (f f' : fs) (l : loc) nd : f ⊆ f' -> node_at f l = Some nd -> node_at f' l = Some nd.
Proof. intros Hs. destruct l; [done|]. cbn. intros H. by eapply lookup_weaken. Qed.

(** A walk that ends at a node ends there in a larger file system. *)
Lemma walk_extend (n : nat) (f f' : fs) (fo : bool) (cur : loc) (todo : list bytes) (d : loc) : f ⊆ f' -> walk n f fo cur todo = Found d -> walk n f' fo cur todo = Found d.
Proof.
  intros Hs. revert cur todo. induction n as [n IHn] using lt_wf_ind. intros cur todo. revert cur.
  induction todo as [|c r IHr]; intros cur; [by rewrite !walk_nil|]. rewrite !walk_cons.
  destruct (_ || _); [by apply IHr|]. destruct (str_eqb c dotdot); [by apply IHr|]. destruct (existsb _ c); [done|].
  destruct (node_at f (cur ++ [c])) as [nd|] eqn:E; [rewrite (node_at_extend _ _ _ _ Hs E)|by destruct r].
  destruct nd as [content| |target]; [done|by apply IHr|].
  assert (forall k, (match n with O => Failed ELOOP | S m => walk m f fo k (split_slash target ++ r) end = Found d) ->
    (match n with O => Failed ELOOP | S m => walk m f' fo k (split_slash target ++ r) end = Found d)) as Hk
    by (intros k; destruct n; [done|apply IHn; lia]).
  destruct r, fo; first [done|apply Hk].
Qed.

(** ** Changes below one directory *)

Definition local (lp : loc) (f f' : fs) : Prop := (tree f -> tree f') /\ forall l, ~ below lp l -> f' !! l = f !! l.

#[export] Instance local_preorder lp : PreOrder (local lp).
Proof.
  split; [intros f; by split|]. intros f g k [H1 H2] [H3 H4]. split; [auto|]. intros l Hl. by rewrite H4, H2.
Qed.

Lemma local_inside a b f f' : inside a b -> local b f f' -> local a f f'.
Proof. intros Hi [H1 H2]. split; [done|]. intros l Hl. apply H2. intros Hb. by eapply Hl, below_inside. Qed.

Lemma take_not_below lp k : ~ below lp (take k lp).
Proof.
  intros (c & t & E). apply (f_equal length) in E. rewrite length_app, length_take in E. cbn in E. lia.
Qed.

Lemma local_real lp f f' : local lp f f' -> real f lp -> real f' lp.
Proof.
  intros [_ Hl] [Hn Hd]. split; [done|]. intros k Hk. specialize (Hd k Hk).
  destruct (take k lp) as [|y r] eqn:E; [done|]. cbn in Hd |- *. rewrite Hl; [done|]. rewrite <- E. apply take_not_below.
Qed.

Section Local.
Context (lp : loc) (f : fs) (Hreal : real f lp).

Lemma snoc_inj (l l' : loc) (c c' : bytes) : l ++ [c] = l' ++ [c'] -> l = l' /\ c = c'.
Proof. apply app_inj_tail. Qed.

(** A new entry, or one that takes the place of something other than a
    directory. *)
Lemma local_insert c nd : name c -> f !! (lp ++ [c]) <> Some Dir -> local lp f (<[lp ++ [c] := nd]> f).
Proof.
  intros Hc Hnd. split.
  - intros Ht l d. destruct (decide (l ++ [d] = lp ++ [c])) as [[-> ->]%snoc_inj|Hne].
    + intros _. split; [done|]. rewrite node_at_insert_ne; [by apply real_dir|].
      intros E%(f_equal length). rewrite length_app in E. cbn in E. lia.
    + rewrite lookup_insert_ne by done. intros Hs. destruct (Ht l d Hs) as [Hd Hdir]. split; [done|].
      rewrite node_at_insert_ne; [done|]. intros ->. by rewrite node_at_snoc in Hdir.
  - intros l Hl. rewrite lookup_insert_ne; [done|]. intros <-. apply Hl. by exists c, [].
Qed.

Lemma local_delete c : (f !! (lp ++ [c]) = Some Dir -> children f (lp ++ [c]) = []) -> local lp f (delete (lp ++ [c]) f).
Proof.
  intros Hch. split.
  - intros Ht l d. destruct (decide (l ++ [d] = lp ++ [c])) as [E|Hne]; [rewrite E, lookup_delete_eq; by intros []|].
    rewrite lookup_delete_ne by done. intros Hs. destruct (Ht l d Hs) as [Hd Hdir]. split; [done|].
    destruct (decide (l = lp ++ [c])) as [->|Hl].
    + rewrite node_at_snoc in Hdir. specialize (Hch Hdir). rewrite <- app_assoc in Hs. cbn in Hs.
      pose proof (children_none f (lp ++ [c]) Ht Hch d []) as Hnone. rewrite <- app_assoc in Hnone. cbn in Hnone. rewrite Hnone in Hs. by destruct Hs.
    + destruct l as [|y l]; [done|]. cbn in Hdir |- *. by rewrite lookup_delete_ne.
  - intros l Hl. rewrite lookup_delete_ne; [done|]. intros <-. apply Hl. by exists c, [].
Qed.

Lemma local_move a b : name b -> a <> b -> f !! (lp ++ [b]) <> Some Dir -> local lp f (move (lp ++ [a]) (lp ++ [b]) f).
Proof.
  intros Hb Hne Hnd. split.
  - intros Ht l d. rewrite lookup_move. destruct (strip_prefix (lp ++ [b]) (l ++ [d])) as [t|] eqn:Eb.
    + apply strip_prefix_some in Eb. destruct t as [|e t _] using rev_ind.
      * rewrite app_nil_r in Eb. apply snoc_inj in Eb as [-> ->]. intros _. split; [done|].
        pose proof (real_dir _ _ Hreal) as Hdir. destruct lp as [|y r] eqn:El; [done|]. cbn [node_at] in Hdir |- *. rewrite <- El in *.
        rewrite lookup_move_ne; [done|..]; apply under_false; intros Hin%inside_below; [by apply (take_not_below lp (length lp)); rewrite firstn_all|by apply (take_not_below lp (length lp)); rewrite firstn_all].
      * rewrite app_assoc in Eb. apply snoc_inj in Eb as [-> ->]. rewrite app_assoc. intros Hs. destruct (Ht _ _ Hs) as [He Hdir].
        split; [done|]. destruct ((lp ++ [b]) ++ t) as [|y r] eqn:El; [by apply app_eq_nil in El as [[_ ?]%app_eq_nil _]|].
        cbn [node_at]. rewrite <- El, lookup_move_to. destruct ((lp ++ [a]) ++ t) eqn:E2; [by apply app_eq_nil in E2 as [[_ ?]%app_eq_nil _]|].
        by cbn in Hdir.
    + destruct (under (lp ++ [a]) (l ++ [d])) eqn:Ea; [by intros []|]. intros Hs. destruct (Ht l d Hs) as [Hd Hdir]. split; [done|].
      destruct l as [|y r] eqn:El; [done|]. cbn [node_at] in Hdir |- *. rewrite <- El in *.
      rewrite lookup_move_ne; [done|..]; apply under_false.
      * intros [t ->]. rewrite <- app_assoc in Ea. apply under_false in Ea. apply Ea. by eexists.
      * intros [t ->]. rewrite <- app_assoc in Eb. by rewrite strip_prefix_app in Eb.
  - intros l Hl. rewrite lookup_move_ne; [done|..]; apply under_false; by intros Hin%inside_below.
Qed.

Lemma local_remove_tree left c : local lp f (remove_tree left (lp ++ [c]) f).
Proof.
  split.
  - intros Ht l d. rewrite lookup_remove_tree. destruct (kept left (lp ++ [c]) f (l ++ [d])) eqn:Ek; [|by intros []].
    intros Hs. destruct (Ht l d Hs) as [Hd Hdir]. split; [done|].
    destruct l as [|y r] eqn:El; [done|]. cbn [node_at] in Hdir |- *. rewrite <- El in *. rewrite lookup_remove_tree.
    assert (kept left (lp ++ [c]) f l = true) as ->; [|done]. unfold kept in Ek |- *.
    destruct (under (lp ++ [c]) l) eqn:Eu; [|done]. cbn [negb orb]. apply under_true in Eu as [t Et].
    assert (under (lp ++ [c]) (l ++ [d]) = true) as Eu by (apply under_true; exists (t ++ [d]); by rewrite Et, app_assoc).
    rewrite Eu in Ek. cbn [negb orb] in Ek. apply existsb_exists in Ek as (j & Hj & [Hleft Hu]%andb_true_iff).
    apply existsb_exists. exists j. split; [done|]. rewrite Hleft. cbn [andb]. apply under_true in Hu as [u ->].
    apply under_true. exists (d :: u). by rewrite <- app_assoc.
  - intros l Hl. rewrite lookup_remove_tree, kept_outside; [done|]. apply under_false. by intros Hin%inside_below.
Qed.

End Local.

(** ** System calls on an entry of a directory *)

Lemma names_no_nul l : Forall name l -> existsb (Z.eqb 0) (abs_path l) = false.
Proof.
  intros H. unfold abs_path. cbn [existsb]. change (0 =? slash) with false. cbn [orb].
  induction H as [|c l [_ Hc] H IH]; [done|]. destruct l as [|d l]; [done|].
  rewrite join_slash_cons, existsb_app by done. rewrite Hc. exact IH.
Qed.

Definition place (f : fs) (l : loc) : walked := match f !! l with Some _ => Found l | None => Missing l end.

Section Child.
Context (x : xhost) (f : fs) (lp : loc) (c : bytes) (Hreal : real f lp) (Hc : name c).

Lemma child_names : Forall name (lp ++ [c]).
Proof. apply Forall_app. split; [apply Hreal|by constructor]. Qed.

Lemma walk_child n fo : (fo = true -> forall t, f !! (lp ++ [c]) <> Some (Link t)) ->
  walk n f fo [] (split_slash (abs_path (lp ++ [c]))) = place f (lp ++ [c]).
Proof.
  intros Hfo. rewrite walk_abs by (apply names_plain, child_names). rewrite walk_real, walk_name by done. unfold place.
  rewrite node_at_snoc. destruct (f !! (lp ++ [c])) as [[content| |target]|]; [done|by rewrite walk_nil| |done].
  destruct fo; [by destruct (Hfo eq_refl target)|done].
Qed.

Lemma lcall_child k : lcall x k f (abs_path (lp ++ [c])) =
  if x_fails x k f (abs_path (lp ++ [c])) then Failed EHOST else place f (lp ++ [c]).
Proof.
  unfold lcall. rewrite names_no_nul by apply child_names. by rewrite walk_child.
Qed.

Lemma syscall_child k fo : (fo = true -> forall t, f !! (lp ++ [c]) <> Some (Link t)) ->
  syscall (x_host x) k f fo (abs_path (lp ++ [c])) =
  if h_fails (x_host x) k f (abs_path (lp ++ [c])) then Failed EHOST else place f (lp ++ [c]).
Proof.
  intros Hfo. unfold syscall. rewrite names_no_nul by apply child_names. by rewrite walk_child.
Qed.

Lemma lstat_child r : os_Lstat x f (abs_path (lp ++ [c])) = r ->
  match r with
  | Ok info => exists nd, f !! (lp ++ [c]) = Some nd /\
      li_type info = match nd with File _ => Regular | Dir => Directory | Link _ => Symlink end /\ li_name info = c
  | Err ENOENT => f !! (lp ++ [c]) = None
  | Err _ => x_fails x CallLstat f (abs_path (lp ++ [c])) = true
  end.
Proof.
  intros <-. unfold os_Lstat. rewrite lcall_child. destruct (x_fails x CallLstat f _); [done|]. unfold place.
  assert (Base (abs_path (lp ++ [c])) = c) as Hb.
  { unfold Base. rewrite comps_abs by (apply names_plain, child_names). by rewrite last_snoc. }
  destruct (f !! (lp ++ [c])) as [[content| |target]|] eqn:E; rewrite ?node_at_snoc, ?E; [..|done]; by eexists.
Qed.

Lemma symlink_child target f' : os_Symlink x f target (abs_path (lp ++ [c])) = Ok f' ->
  f !! (lp ++ [c]) = None /\ f' = <[lp ++ [c] := Link target]> f.
Proof.
  unfold os_Symlink. rewrite lcall_child. destruct (x_fails _ _ _ _); [done|]. unfold place.
  destruct (f !! (lp ++ [c])); [done|]. by intros [= <-].
Qed.

Lemma exclusive_child r : os_Exclusive x f (abs_path (lp ++ [c])) = r ->
  match r with
  | Ok f' => f !! (lp ++ [c]) = None /\ f' = <[lp ++ [c] := File []]> f
  | Err EEXIST => is_Some (f !! (lp ++ [c]))
  | Err _ => x_fails x CallExclusive f (abs_path (lp ++ [c])) = true
  end.
Proof.
  intros <-. unfold os_Exclusive. rewrite lcall_child. destruct (x_fails _ _ _ _); [done|]. unfold place.
  by destruct (f !! (lp ++ [c])) eqn:E.
Qed.

Lemma mkdir_child r : os_Mkdir (x_host x) f (abs_path (lp ++ [c])) = r ->
  match r with
  | Ok f' => f !! (lp ++ [c]) = None /\ f' = <[lp ++ [c] := Dir]> f
  | Err EEXIST => is_Some (f !! (lp ++ [c]))
  | Err _ => h_fails (x_host x) CallMkdir f (abs_path (lp ++ [c])) = true
  end.
Proof.
  intros <-. unfold os_Mkdir. rewrite syscall_child by done. destruct (h_fails _ _ _ _); [done|]. unfold place.
  by destruct (f !! (lp ++ [c])) eqn:E.
Qed.

Lemma remove_child f' : os_Remove (x_host x) f (abs_path (lp ++ [c])) = Ok f' ->
  f' = delete (lp ++ [c]) f /\ (f !! (lp ++ [c]) = Some Dir -> children f (lp ++ [c]) = []).
Proof.
  unfold os_Remove. rewrite syscall_child by done. destruct (h_fails _ _ _ _); [done|]. unfold place.
  destruct (f !! (lp ++ [c])) as [nd|] eqn:E; [|done]. rewrite node_at_snoc, E.
  assert (forall r, match lp ++ [c] with [] => Err EINVAL | _ :: _ => r end = r :> result errno fs) as Hm by (intros r; by destruct lp).
  rewrite Hm. destruct nd; [by intros [= <-]| |by intros [= <-]]. destruct (children f (lp ++ [c])); [|done]. by intros [= <-].
Qed.

Lemma remove_child_calm content : h_fails (x_host x) CallRemove f (abs_path (lp ++ [c])) = false ->
  f !! (lp ++ [c]) = Some (File content) -> os_Remove (x_host x) f (abs_path (lp ++ [c])) = Ok (delete (lp ++ [c]) f).
Proof.
  intros Hh E. unfold os_Remove. rewrite syscall_child, Hh by done. unfold place. rewrite E, node_at_snoc, E. by destruct lp.
Qed.

Lemma removeall_child r f' : os_RemoveAll x f (abs_path (lp ++ [c])) = (r, f') ->
  f' = f /\ (r = None -> f !! (lp ++ [c]) = None) \/
  is_Some (f !! (lp ++ [c])) /\ exists left, f' = remove_tree left (lp ++ [c]) f /\ (r = None -> left = fun _ => false).
Proof.
  unfold os_RemoveAll. rewrite lcall_child. destruct (x_fails x CallLstat f _); [intros [= <- <-]; by left|]. unfold place.
  destruct (f !! (lp ++ [c])) eqn:E; [|intros [= <- <-]; by left].
  destruct (x_fails x CallRemoveAll f _); intros [= <- <-]; right; (split; [done|]); by eexists.
Qed.

End Child.

Lemma rename_child x f lp c d : real f lp -> name c -> name d ->
  os_Rename x f (abs_path (lp ++ [c])) (abs_path (lp ++ [d])) =
    if x_fails x CallRename f (abs_path (lp ++ [c])) then Err EHOST else
    match f !! (lp ++ [c]) with
    | None => Err ENOENT
    | Some nd =>
      if x_fails x CallRename f (abs_path (lp ++ [d])) then Err EHOST else
      match f !! (lp ++ [d]), nd with
      | Some Dir, _ => Err EEXIST
      | Some _, Dir => Err ENOTDIR
      | Some _, _ => Ok (if decide (c = d) then f else move (lp ++ [c]) (lp ++ [d]) f)
      | None, _ => Ok (move (lp ++ [c]) (lp ++ [d]) f)
      end
    end.
Proof.
  intros Hr Hc Hd. unfold os_Rename. rewrite !lcall_child by done.
  destruct (x_fails x CallRename f (abs_path (lp ++ [c]))); [done|]. unfold place at 1.
  destruct (f !! (lp ++ [c])) as [nd|] eqn:Ec; [|done]. destruct (x_fails x CallRename f (abs_path (lp ++ [d]))); [done|].
  unfold place. destruct (f !! (lp ++ [d])) as [nd'|] eqn:Ed.
  - rewrite !node_at_snoc, Ec, Ed. destruct nd' as [ct'| |t'], nd as [ct| |t]; try done;
      (destruct (decide (c = d)) as [->|Hne]; [by rewrite decide_True|rewrite decide_False; [done|by intros [_ ?]%snoc_inj]]).
  - assert (c <> d) by congruence. by rewrite under_sibling.
Qed.

Lemma rename_child_ok x f lp c d f' : real f lp -> name c -> name d ->
  os_Rename x f (abs_path (lp ++ [c])) (abs_path (lp ++ [d])) = Ok f' ->
  exists nd, f !! (lp ++ [c]) = Some nd /\ f !! (lp ++ [d]) <> Some Dir /\ (nd = Dir -> f !! (lp ++ [d]) = None) /\
    f' = if decide (c = d) then f else move (lp ++ [c]) (lp ++ [d]) f.
Proof.
  intros Hr Hc Hd. rewrite rename_child by done. destruct (x_fails _ _ _ _); [done|].
  destruct (f !! (lp ++ [c])) as [nd|] eqn:Ec; [|done]. destruct (x_fails _ _ _ _); [done|]. intros H. exists nd. split; [done|].
  destruct (decide (c = d)) as [->|Hne].
  - rewrite Ec in H |- *. destruct nd; try done; injection H as <-; done.
  - destruct (f !! (lp ++ [d])) as [[ct'| |t']|] eqn:Ed, nd as [ct| |t]; try done; injection H as <-; done.
Qed.

(** ** Relative paths *)

Definition kept_comp (c : bytes) : bool := negb (str_eqb c [] || str_eqb c dot).

Lemma clean_comps_filter rooted acc l : existsb (str_eqb dotdot) l = false ->
  clean_comps rooted acc l = rev acc ++ List.filter kept_comp l.
Proof.
  revert acc. induction l as [|c l IH]; intros acc; cbn [clean_comps existsb List.filter]; [by rewrite app_nil_r|].
  intros [Hc Hl]%orb_false_iff. unfold kept_comp at 1. destruct (str_eqb c [] || str_eqb c dot); cbn [negb]; [by apply IH|].
  destruct (str_eqb_spec dotdot c), (str_eqb_spec c dotdot); try congruence. rewrite IH by done. cbn [rev]. by rewrite <- app_assoc.
Qed.

(** Cleaning a relative path without .. *)
Lemma Clean_relative p : IsAbs p = false -> existsb (str_eqb dotdot) (split_slash p) = false ->
  let l := List.filter kept_comp (split_slash p) in Forall plain l /\ Clean p = match l with [] => dot | _ => join_slash l end.
Proof.
  intros Ha Hd. cbv zeta. split.
  - apply Forall_forall. intros c Hc%list_elem_of_In. apply filter_In in Hc as [Hc Hk]. unfold kept_comp in Hk.
    destruct (str_eqb_spec c []), (str_eqb_spec c dot); try done. split_and!; try done.
    + intros ->. assert (existsb (str_eqb dotdot) (split_slash p) = true) as E; [|by rewrite E in Hd].
      apply existsb_exists. by exists dotdot.
    + pose proof (split_slash_no_slash p) as Hn. rewrite Forall_forall in Hn. apply Hn. by apply list_elem_of_In.
  - unfold Clean. rewrite Ha. rewrite clean_comps_filter by done. done.
Qed.

Lemma split_slash_snoc_slash v : split_slash (v ++ [slash]) = split_slash v ++ [[]].
Proof.
  induction v as [|c v IH]; [done|]. cbn [app split_slash]. rewrite IH. destruct (c =? 47); [done|].
  pose proof (split_slash_nonempty v). by destruct (split_slash v).
Qed.

Lemma last_comp_join rl nm : Forall no_slash (rl ++ [nm]) -> last_comp (join_slash (rl ++ [nm])) = nm.
Proof.
  intros H. unfold last_comp. rewrite split_slash_join by (try done; by destruct rl). by rewrite last_snoc.
Qed.

Lemma Dir_of_join rl nm : Forall plain (rl ++ [nm]) -> Dir_of (join_slash (rl ++ [nm])) = match rl with [] => dot | _ => join_slash rl end.
Proof.
  intros H. unfold Dir_of. rewrite last_comp_join by (by apply plain_no_slash). destruct rl as [|y r].
  - cbn [app join_slash]. by rewrite Nat.sub_diag.
  - rewrite join_slash_snoc by done. rewrite length_app. cbn [length].
    replace (length (join_slash (y :: r)) + S (length nm) - length nm)%nat with (length (join_slash (y :: r) ++ [slash])) by (rewrite length_app; cbn; lia).
    replace (join_slash (y :: r) ++ slash :: nm) with ((join_slash (y :: r) ++ [slash]) ++ nm) by (by rewrite <- app_assoc).
    rewrite take_app_length. apply Forall_app in H as [H _]. unfold Clean.
    assert (IsAbs (join_slash (y :: r) ++ [slash]) = false) as ->.
    { apply Forall_cons in H as [Hy _]. destruct (join_slash_nonempty y r Hy) as (c & q & -> & Hc). cbn. lia. }
    rewrite split_slash_snoc_slash, split_slash_join by (try done; by apply plain_no_slash).
    rewrite clean_comps_plain by done. cbn [clean_comps]. rewrite str_eqb_refl. cbn [orb]. rewrite app_nil_r, rev_involutive. done.
Qed.

Lemma Base_of_join rl nm : Forall plain (rl ++ [nm]) -> Base_of (join_slash (rl ++ [nm])) = nm.
Proof.
  intros H. pose proof (plain_no_slash _ H) as Hn. assert (plain nm) as Hp by (by apply Forall_app in H as [_ [H _]%Forall_cons]).
  assert (exists pre, join_slash (rl ++ [nm]) = pre ++ nm) as [pre E].
  { destruct rl as [|y r]; [by exists []|]. rewrite join_slash_snoc by done. exists (join_slash (y :: r) ++ [slash]). by rewrite <- app_assoc. }
  assert (rev (drop_slashes (rev (join_slash (rl ++ [nm])))) = join_slash (rl ++ [nm])) as Er.
  { rewrite E, rev_app_distr. destruct (rev nm) as [|c r] eqn:En.
    - apply (f_equal (@rev Z)) in En. rewrite rev_involutive in En. by destruct Hp.
    - cbn. assert (c <> slash) as Hc.
      { intros ->. destruct Hp as (_ & _ & _ & Hp). apply Hp. apply list_elem_of_In, in_rev. rewrite En. by left. }
      replace (c =? slash) with false by lia. rewrite app_comm_cons, <- En, <- rev_app_distr. apply rev_involutive. }
  unfold Base_of. rewrite Er. destruct (str_eqb_spec (join_slash (rl ++ [nm])) []) as [E0|]; [|by rewrite last_comp_join].
  rewrite E in E0. apply app_eq_nil in E0 as [_ ->]. by destruct Hp.
Qed.

(** [Join] of a place and the name of an entry. *)
Lemma Join_child lp nm : Forall plain lp -> plain nm -> Join (abs_path lp) nm = abs_path (lp ++ [nm]).
Proof. intros Hl Hn. change nm with (join_slash [nm]) at 1. apply Join_root; [done|by constructor]. Qed.

End GoFsOpsProofs.
