(* ===== verification/P9ClientProofs.v ===== *)
(** * The 9P client at the other end of the 9P server

    The client of P9Client.v runs over the server of P9Server.v: every message
    goes through the server's own connection loop.  [eff] describes one client
    operation by what it does to the server's table of fids and to its files;
    the lemmas give it for each request and follow the way the client composes
    them. *)

From S2P Require Import Prelude GoStrings GoFs GoFsProofs GoFsOpsProofs P9Server P9ServerProofs P9Claims P9Client.

Module P9ClientProofs.
Import P9Client GoStrings GoFs GoFsProofs GoFsOpsProofs P9Server P9ServerProofs P9Claims.

(** The server as a transport. *)
Definition served (h : host) (s : Server) (st : session * fs) (inp : bytes) : result bytes bytes * (session * fs) :=
  let '(out, ss, f) := handleConn h s (S (length inp)) st.1 st.2 inp in (Ok out, (ss, f)).

(** ** The wire *)

Lemma served_message h s ss f msg : encodable msg ->
  served h s (ss, f) (encode msg) =
    let '(reply, ss', f') := respond h s ss f msg in (Ok (encode reply), (ss', f')).
Proof.
  intros Hm. unfold served. cbn [fst snd].
  pose proof (handleConn_serve h s (S (length (encode msg))) ss f [msg] []) as E. cbn [fmap list_fmap concat] in E.
  rewrite !app_nil_r in E. pose proof (len_encode msg). pose proof (len_nonneg (m_payload msg)).
  rewrite E; [|by apply Forall_singleton|unfold len in *; cbn; lia|by vm_compute]. cbn [serve].
  destruct (respond h s ss f msg) as [[reply ss'] f']. cbn. by rewrite app_nil_r.
Qed.

Lemma client_reads msg : encodable msg -> P9Client.readMessage (encode msg) = (Ok (m_type msg, m_tag msg, m_payload msg), []).
Proof.
  intros Hm. pose proof (frame_fields msg [] Hm) as (E1 & E2 & E3 & E4). destruct Hm as [Ht Hl]. cbv zeta in *. rewrite !app_nil_r in *.
  pose proof (len_nonneg (m_payload msg)). unfold P9Client.readMessage, P9Client.field. unfold field in E1, E3. rewrite E1, E2, E3, E4, len_encode.
  replace (7 + len (m_payload msg) =? 0) with false by lia. replace (7 + len (m_payload msg) <? 7) with false by lia.
  replace (2 ^ 24 <? 7 + len (m_payload msg)) with false by lia. cbn [orb].
  replace (len (m_payload msg) <? 7 + len (m_payload msg) - 7) with false by lia.
  replace (Z.to_nat (7 + len (m_payload msg) - 7)) with (length (m_payload msg)) by (unfold len; lia).
  by rewrite firstn_all, drop_all.
Qed.

Lemma unpack_packed pre value post : len value < 2 ^ 16 ->
  P9Client.unpackString (pre ++ packString value ++ post) (len pre) = Ok (value, len pre + 2 + len value).
Proof.
  intros Hl. pose proof (len_nonneg pre). pose proof (len_nonneg value). pose proof (len_nonneg post).
  unfold P9Client.unpackString, packString. rewrite <- app_assoc.
  rewrite !len_app, len_le_put. change (Z.of_nat 2) with 2.
  replace (len pre + (2 + (len value + len post)) <? len pre + 2) with false by lia.
  pose proof (field_at 2 (length pre) pre (len value) (value ++ post) eq_refl ltac:(cbn; lia)) as E. unfold field in E.
  replace (Z.to_nat (len pre + 2)) with (length pre + 2)%nat by (unfold len; lia).
  replace (Z.to_nat (len pre)) with (length pre) by (unfold len; lia). rewrite E.
  replace (len pre + (2 + (len value + len post)) <? len pre + 2 + len value) with false by lia. do 2 f_equal.
  unfold slice. rewrite app_assoc, drop_app_length' by (rewrite length_app, le_put_length; lia).
  by rewrite take_app_length' by (unfold len; lia).
Qed.

Lemma first_field n x post : 0 <= x < 2 ^ (8 * Z.of_nat n) -> field n 0 (le_put n x ++ post) = x.
Proof. by apply (field_at n 0 []). Qed.
Lemma only_field n x : 0 <= x < 2 ^ (8 * Z.of_nat n) -> field n 0 (le_put n x) = x.
Proof. intros H. rewrite <- (app_nil_r (le_put n x)). by apply first_field. Qed.

(** ** Effects *)

Section Effects.
Context (h : host) (s : Server) (m sm : Z) (v : bytes).

Definition state (t n : Z) (T : gmap Z fidState) (f : fs) : Client * (session * fs) := (mkClient m t n 0 [], (mkSession sm v T, f)).

(** Whatever the tag was, [op] returns [r] and leaves the fids [T'], the files
    [f'] and [n'] as the next fid. *)
Definition eff {A} (op : M (St := session * fs) A) (n : Z) (T : gmap Z fidState) (f : fs) (r : result cerror A) (n' : Z) (T' : gmap Z fidState) (f' : fs) : Prop :=
  forall t, exists t', op (state t n T f) = (r, state t' n' T' f').

Lemma eff_ret {A} (a : A) n T f : eff (ret a) n T f (Ok a) n T f.
Proof. intros t. by exists t. Qed.
Lemma eff_returned {A} (r : result cerror A) n T f : eff (returned r) n T f r n T f.
Proof. intros t. by exists t. Qed.
Lemma eff_throw {A} text n T f : eff (throw (A := A) text) n T f (Err (P9Client.Failed text)) n T f.
Proof. intros t. by exists t. Qed.

Lemma eff_bind {A B} (op : M A) (k : A -> M B) n T f a n1 T1 f1 r n2 T2 f2 :
  eff op n T f (Ok a) n1 T1 f1 -> eff (k a) n1 T1 f1 r n2 T2 f2 -> eff (bind op k) n T f r n2 T2 f2.
Proof. intros H1 H2 t. destruct (H1 t) as [t1 E1]. destruct (H2 t1) as [t2 E2]. exists t2. unfold bind. by rewrite E1. Qed.

Lemma eff_bind_err {A B} (op : M A) (k : A -> M B) n T f e n1 T1 f1 :
  eff op n T f (Err e) n1 T1 f1 -> eff (bind op k) n T f (Err e) n1 T1 f1.
Proof. intros H1 t. destruct (H1 t) as [t1 E1]. exists t1. unfold bind. by rewrite E1. Qed.

Lemma eff_try {A} (op : M A) n T f r n1 T1 f1 : r <> Err Running -> eff op n T f r n1 T1 f1 -> eff (try_ op) n T f (Ok r) n1 T1 f1.
Proof.
  intros Hr H1 t. destruct (H1 t) as [t1 E1]. exists t1. unfold try_. rewrite E1. by destruct r as [|[]].
Qed.

Lemma eff_msize {B} (k : Z -> M B) n T f r n2 T2 f2 : eff (k m) n T f r n2 T2 f2 -> eff (bind get_msize k) n T f r n2 T2 f2.
Proof. intros H. eapply eff_bind; [|exact H]. intros t. by exists t. Qed.

Lemma rpc_replies typ payload n T f t (reply : message) T' f' : len payload <= 2 ^ 24 - 7 ->
  let tag := u16 (t + 1) in
  respond h s (mkSession sm v T) f (mkMessage typ tag payload) = (reply, mkSession sm v T', f') ->
  m_tag reply = tag -> len (m_payload reply) <= 2 ^ 24 - 7 ->
  rpc (served h s) typ payload (state t n T f) =
    (if m_type reply =? rError then Err (Remote (match P9Client.unpackString (m_payload reply) 0 with Ok (msg, _) => msg | Err _ => [] end)) else
     if negb (m_type reply =? expectedReply typ) then Err (UnexpectedReply (m_type reply) typ) else Ok (m_payload reply),
     state tag n T' f').
Proof.
  intros Hp tag Hr Ht Hl. unfold rpc, state. cbn [c_tag c_unread update update_c_tag update_c_unread c_msize c_nextFid c_rootFid]. fold tag.
  assert (0 <= tag < 2 ^ 16) as Htag by (unfold tag, u16; apply Z.mod_pos_bound; lia).
  change (P9Client.writeMessage typ tag payload) with (encode (mkMessage typ tag payload)).
  rewrite served_message by done. rewrite Hr. cbn [app]. rewrite client_reads by (split; [by rewrite Ht|done]).
  rewrite Ht, Z.eqb_refl. cbn [negb]. by repeat case_match.
Qed.

Lemma eff_rpc typ payload reply n T T' f f' : len payload <= 2 ^ 24 - 7 -> len reply <= 2 ^ 24 - 7 -> expectedReply typ <> rError ->
  (forall tag, handle h s (mkSession sm v T) f (mkMessage typ tag payload) = (Ok (expectedReply typ, reply), mkSession sm v T', f')) ->
  eff (rpc (served h s) typ payload) n T f (Ok reply) n T' f'.
Proof.
  intros Hp Hl Hne Hh t. exists (u16 (t + 1)).
  rewrite (rpc_replies typ payload n T f t (mkMessage (expectedReply typ) (u16 (t + 1)) reply) T' f'); [|done| |done|done].
  - cbn. rewrite Z.eqb_refl. by destruct (Z.eqb_spec (expectedReply typ) rError).
  - unfold respond. by rewrite Hh.
Qed.

Lemma eff_rpc_err typ payload text n T T' f f' : len payload <= 2 ^ 24 - 7 -> len text < 2 ^ 16 ->
  (forall tag, handle h s (mkSession sm v T) f (mkMessage typ tag payload) = (Err text, mkSession sm v T', f')) ->
  eff (rpc (served h s) typ payload) n T f (Err (Remote text)) n T' f'.
Proof.
  intros Hp Hl Hh t. exists (u16 (t + 1)).
  rewrite (rpc_replies typ payload n T f t (mkMessage Rerror (u16 (t + 1)) (error_payload v text)) T' f'); [|done| |done|].
  - cbn [m_type m_payload]. change (Rerror =? rError) with true. cbv iota. unfold error_payload.
    pose proof (unpack_packed [] text (if str_eqb v (str "9P2000.u") then le_put 4 5 else []) Hl) as E. cbn [app] in E.
    change (len []) with 0 in E. by rewrite E.
  - unfold respond. by rewrite Hh.
  - cbn [m_payload]. unfold error_payload, packString. rewrite !len_app, len_le_put. destruct (str_eqb _ _); [rewrite len_le_put|change (len []) with 0]; lia.
Qed.

(** A clunk always succeeds. *)
Lemma eff_clunk fid n T f : 0 <= fid < 2 ^ 32 -> eff (clunk (served h s) fid) n T f (Ok tt) n (delete fid T) f.
Proof.
  intros Hf. unfold clunk. eapply eff_bind; [|apply eff_ret].
  apply (eff_rpc tClunk (le_put 4 fid) []); [rewrite len_le_put; lia|done|done|]. intros tag.
  change (handle h s ?ss f (mkMessage tClunk tag ?p)) with (handleClunk ss f p). unfold handleClunk. rewrite len_le_put.
  change (Z.of_nat 4 <? 4) with false. cbv iota. by rewrite only_field by done.
Qed.

Lemma eff_deferred {A} fid (op : M A) n T f r n1 T1 f1 : 0 <= fid < 2 ^ 32 -> r <> Err Running ->
  eff op n T f r n1 T1 f1 -> eff (deferred (served h s) fid op) n T f r n1 (delete fid T1) f1.
Proof.
  intros Hf Hr H1. unfold deferred. eapply eff_bind; [by apply eff_try|]. cbv beta.
  eapply eff_bind; [|apply eff_returned]. eapply eff_try; [|by apply eff_clunk]. done.
Qed.

End Effects.
End P9ClientProofs.
