(* ===== verification/P9Export.v ===== *)
(** * What the 9P client's operations mean

    An exported tree without links, served by a host that does not fail, and
    the file operations the client offers as functions on that tree.  The
    lemmas below say what the server's resolution of paths and its walk do
    there; P9ClientOps.v shows that the client and the server together
    implement the operations. *)

From S2P Require Import Prelude GoStrings GoFs GoFsProofs GoFsOpsProofs P9Server P9ServerProofs P9Client.

Module P9Export.
Import P9Client GoStrings GoFs GoFsProofs GoFsOpsProofs P9Server P9ServerProofs.

(** A host whose calls succeed, with the attributes and messages of a Unix
    system. *)
Record polite (h : host) : Prop := {
  p_fails : forall c f p, h_fails h c f p = false;
  p_room : forall f p, h_room h f p = None;
  p_perm : forall f l, 0 <= h_perm h f l < 512;
  p_dirsize : forall f l, 0 <= h_dirsize h f l < 2 ^ 63;
  p_text : forall e p, len (h_text h e p) < 2 ^ 15
}.

(** A name that may be walked to and created. *)
Definition good (c : bytes) : Prop := name c /\ has_separator c = false /\ HasPrefix c dotdot = false /\ len c < 2 ^ 15.

(** The tree below the root: no links, every node in a directory. *)
Record exported (rootl : loc) (f : fs) : Prop := {
  e_root : real f rootl;
  e_tree : forall l c, is_Some (f !! (rootl ++ l ++ [c])) -> good c /\ node_at f (rootl ++ l) = Some Dir;
  e_links : forall l t, node_at f (rootl ++ l) <> Some (Link t);
  e_files : forall l c, node_at f (rootl ++ l) = Some (File c) -> len c < 2 ^ 63
}.

(** ** The operations *)

Inductive op : Type :=
  | DoRead (path : bytes)
  | DoList (path : bytes)
  | DoStat (path : bytes)
  | DoWrite (path data : bytes)
  | DoMkdir (path : bytes)
  | DoRemove (path : bytes).

Inductive reply : Type := Data (b : bytes) | Entries (l : list DirEntry) | Entry (e : DirEntry) | Done.

Section Spec.
Context (h : host) (rootl : loc).

Definition is_dir (f : fs) (l : loc) : bool := match node_at f (rootl ++ l) with Some Dir => true | _ => false end.

(** Looking a path up, one name after the other. *)
Fixpoint look (f : fs) (l : loc) (ns : list bytes) : result bytes loc :=
  match ns with
  | [] => Ok l
  | c :: r =>
    match node_at f (rootl ++ l), node_at f (rootl ++ l ++ [c]) with
    | Some Dir, Some _ => look f (l ++ [c]) r
    | Some Dir, None => Err (str "walk_not_found")
    | _, _ => Err (h_text h ENOTDIR (abs_path (rootl ++ l ++ [c])))
    end
  end.

Definition entry (f : fs) (l : loc) : DirEntry :=
  let name := match last l with Some c => c | None => [slash] end in
  match node_at f (rootl ++ l) with
  | Some (File content) => mkEntry name false (len content)
  | _ => mkEntry name true (h_dirsize h f (rootl ++ l))
  end.

Definition info (f : fs) (l : loc) : FileInfo := info_at h f (rootl ++ l) (abs_path (rootl ++ l)).

(** The stat records of a directory. *)
Definition listing (f : fs) (l : loc) : bytes :=
  concat ((fun c => statBytes (join_slash (l ++ [c])) (info f (l ++ [c]))) <$> children f (rootl ++ l)).

Definition contents (f : fs) (l : loc) : bytes := match node_at f (rootl ++ l) with Some (File content) => content | _ => listing f l end.

Definition remote {A} (r : result bytes A) : result cerror A := result_map_err Remote r.

Definition spec_entries (f : fs) (l : loc) : result cerror reply :=
  match node_at f (rootl ++ l) with
  | Some (File content) => result_map_err P9Client.Failed (let* es := parse_entries (S (length content)) content 0 in Ok (Entries es))
  | _ => Ok (Entries ((fun c => entry f (l ++ [c])) <$> children f (rootl ++ l)))
  end.

Definition spec_write (f : fs) (dl : loc) (nm data : bytes) : result bytes fs :=
  match node_at f (rootl ++ dl), node_at f (rootl ++ dl ++ [nm]) with
  | Some Dir, Some Dir => match data with [] => Ok f | _ => Err (str "write_to_dir") end
  | Some Dir, _ => Ok (<[rootl ++ dl ++ [nm] := File data]> f)
  | _, _ => Err (str "create_in_non_dir")
  end.

Definition spec_mkdir (f : fs) (dl : loc) (nm : bytes) : result bytes fs :=
  match node_at f (rootl ++ dl), node_at f (rootl ++ dl ++ [nm]) with
  | Some Dir, None => Ok (<[rootl ++ dl ++ [nm] := Dir]> f)
  | Some Dir, Some _ => Err (str "mkdir: " ++ h_text h EEXIST (abs_path (rootl ++ dl ++ [nm])))
  | _, _ => Err (str "create_in_non_dir")
  end.

Definition spec_remove (f : fs) (l : loc) : result bytes fs :=
  match l with
  | [] => Err (str "refuse_remove_root")
  | _ =>
    match node_at f (rootl ++ l), children f (rootl ++ l) with
    | Some Dir, _ :: _ => Err (str "remove: " ++ h_text h ENOTEMPTY (abs_path (rootl ++ l)))
    | _, _ => Ok (delete (rootl ++ l) f)
    end
  end.

(** A change of the tree in the parent directory of a path. *)
Definition in_parent (f : fs) (path : bytes) (change : loc -> bytes -> result bytes fs) : result cerror fs :=
  let (dir, nm) := splitParent path in
  if str_eqb nm [] then Err (InvalidPath path) else
  let* dl := result_map_err (WalkParent dir) (remote (look f [] (splitPath dir))) in
  remote (change dl nm).

Definition changed (f : fs) (r : result cerror fs) : result cerror reply * fs :=
  match r with Ok f' => (Ok Done, f') | Err e => (Err e, f) end.

Definition perform (o : op) (f : fs) : result cerror reply * fs :=
  match o with
  | DoRead path => (let* l := remote (look f [] (splitPath path)) in Ok (Data (contents f l)), f)
  | DoList path => (let* l := remote (look f [] (splitPath path)) in spec_entries f l, f)
  | DoStat path => (let* l := remote (look f [] (splitPath path)) in Ok (Entry (entry f l)), f)
  | DoWrite path data => changed f (in_parent f path (fun dl nm => spec_write f dl nm data))
  | DoMkdir path => changed f (in_parent f path (spec_mkdir f))
  | DoRemove path => changed f (let* l := remote (look f [] (splitPath path)) in remote (spec_remove f l))
  end.

Fixpoint performs (ops : list op) (f : fs) : list (result cerror reply) * fs :=
  match ops with
  | [] => ([], f)
  | o :: ops =>
    let (r, f) := perform o f in
    let (rs, f) := performs ops f in
    (r :: rs, f)
  end.

End Spec.
End P9Export.
