(* ===== verification/P9ExportProofs.v ===== *)
(** * The server on an exported tree

    Resolution, stat and walk of the paths of a tree without links. *)

From S2P Require Import Prelude GoStrings GoFs GoFsProofs GoFsOpsProofs P9Server P9ServerProofs P9Client P9Export.

Module P9ExportProofs.
Import P9Client GoStrings GoFs GoFsProofs GoFsOpsProofs P9Server P9ServerProofs P9Export.

Lemma good_name c : good c -> name c.
Proof. by intros [H _]. Qed.
Lemma good_names l : Forall good l -> Forall name l.
Proof. intros H. apply (Forall_impl _ _ _ H). apply good_name. Qed.

Lemma prefix_of_join x r : plain x -> HasPrefix x dotdot = false -> HasPrefix (join_slash (x :: r)) dotdot = false.
Proof.
  intros (H1 & H2 & _ & _) H. destruct r as [|y r]; [done|]. rewrite join_slash_cons by done.
  destruct x as [|a [|b x]]; [done| |]; cbn in H |- *.
  - destruct (Z.eqb_spec a 46) as [->|]; [by destruct H2|done].
  - exact H.
Qed.

Lemma good_no_dotdot l : Forall good l -> HasPrefix (join_slash l) dotdot = false.
Proof.
  destruct l as [|x l]; [done|]. intros [([Hp _] & _ & H & _) _]%Forall_cons. by apply prefix_of_join.
Qed.

Lemma join_relative l : Forall plain l -> IsAbs (join_slash l) = false.
Proof.
  destruct l as [|x l]; [done|]. intros [Hx _]%Forall_cons. destruct (join_slash_nonempty x l Hx) as (c & r & -> & Hc).
  cbn. unfold slash in *. lia.
Qed.

Lemma join_no_zero l : Forall name l -> existsb (Z.eqb 0) (join_slash l) = false.
Proof.
  induction l as [|x l IH]; [done|]. intros [[_ Hx] Hl]%Forall_cons. destruct l as [|y l]; [done|].
  rewrite join_slash_cons by done. rewrite existsb_app, Hx. cbn. by apply IH.
Qed.

Section Tree.
Context (h : host) (s : Server) (rootl : loc) (f : fs).
Context (Hh : polite h) (Hroot : root s = abs_path rootl) (He : exported rootl f).

Lemma root_names : Forall name rootl.
Proof. by destruct (e_root _ _ He) as [H _]. Qed.

Lemma good_all l : Forall good l -> Forall name (rootl ++ l).
Proof. intros H. apply Forall_app. split; [apply root_names|by apply good_names]. Qed.
Lemma plain_all l : Forall good l -> Forall plain (rootl ++ l).
Proof. intros H. by apply names_plain, good_all. Qed.

Lemma exported_dir_real l : node_at f (rootl ++ l) = Some Dir -> real f (rootl ++ l).
Proof.
  induction l as [|c l IH] using rev_ind; [rewrite app_nil_r; intros _; apply He|]. intros Hd. rewrite app_assoc.
  destruct (e_tree _ _ He l c) as [Hc Hp]; [rewrite app_assoc, node_at_snoc in Hd; rewrite app_assoc; by rewrite Hd|].
  apply real_snoc; [by apply IH|by apply good_name|by rewrite <- app_assoc].
Qed.

(** A node, or a name in a directory that is free. *)
Lemma settled_at l c : node_at f (rootl ++ l) = Some Dir -> good c -> settled f (rootl ++ l ++ [c]).
Proof. intros Hd Hc. right. exists (rootl ++ l), c. split; [by rewrite app_assoc|]. split; [by apply exported_dir_real|by apply good_name]. Qed.

Lemma node_settled l nd : node_at f (rootl ++ l) = Some nd -> settled f (rootl ++ l).
Proof.
  destruct l as [|c l _] using rev_ind.
  - intros _. rewrite app_nil_r. apply real_settled, He.
  - intros Hn. destruct (e_tree _ _ He l c) as [Hc Hp]; [rewrite app_assoc, node_at_snoc in Hn; rewrite app_assoc; by rewrite Hn|].
    by apply settled_at.
Qed.

Lemma node_good l nd : node_at f (rootl ++ l) = Some nd -> Forall good l.
Proof.
  revert nd. induction l as [|c l IH] using rev_ind; intros nd Hn; [done|].
  destruct (e_tree _ _ He l c) as [Hc Hp]; [rewrite app_assoc, node_at_snoc in Hn; rewrite app_assoc; by rewrite Hn|].
  apply Forall_app. split; [by eapply IH|by apply Forall_singleton].
Qed.

Lemma walk_there k fo l : settled f (rootl ++ l) ->
  walk k f fo [] (rootl ++ l) = match node_at f (rootl ++ l) with Some _ => Found (rootl ++ l) | None => Missing (rootl ++ l) end.
Proof. intros Hs. apply walk_self; [done|]. apply He. Qed.

(** Below a file there is nothing, and looking there is an error. *)
Lemma walk_below k fo l c content : node_at f (rootl ++ l) = Some (File content) -> good c ->
  walk k f fo [] (rootl ++ l ++ [c]) = Failed ENOTDIR.
Proof.
  intros Hn Hc. destruct l as [|x l _] using rev_ind.
  { rewrite app_nil_r, (real_dir f rootl) in Hn by apply He. done. }
  pose proof (node_good _ _ Hn) as [_ [Hx _]%Forall_cons]%Forall_app.
  destruct (e_tree _ _ He l x) as [_ Hp]; [rewrite app_assoc, node_at_snoc in Hn; rewrite app_assoc; by rewrite Hn|].
  rewrite <- app_assoc, app_assoc. cbn [app]. rewrite walk_real by (by apply exported_dir_real).
  rewrite walk_name by (by apply good_name). rewrite <- app_assoc, Hn. done.
Qed.

Lemma path_no_zero l : Forall good l -> existsb (Z.eqb 0) (abs_path (rootl ++ l)) = false.
Proof. intros H. unfold abs_path. cbn. by apply join_no_zero, good_all. Qed.

Lemma syscall_there c fo l : Forall good l -> settled f (rootl ++ l) ->
  syscall h c f fo (abs_path (rootl ++ l)) = match node_at f (rootl ++ l) with Some _ => Found (rootl ++ l) | None => Missing (rootl ++ l) end.
Proof.
  intros Hl Hs. unfold syscall. rewrite path_no_zero, p_fails by done. rewrite walk_abs by (by apply plain_all). by apply walk_there.
Qed.

Lemma within_export l : Forall good l -> withinRoot (root s) (abs_path (rootl ++ l)) = true.
Proof.
  intros Hl. unfold withinRoot, Rel. rewrite Hroot, !comps_abs; [|by apply plain_all|apply names_plain, root_names].
  cbn [abs_path IsAbs]. rewrite Z.eqb_refl. cbn [andb negb].
  assert (rel_comps rootl (rootl ++ l) = l) as ->.
  { clear. induction rootl as [|x r IH]; cbn; [by destruct l|]. by rewrite str_eqb_refl. }
  destruct l as [|x l]; [by rewrite (str_eqb_refl dot)|].
  rewrite good_no_dotdot, join_relative by (try done; by apply names_plain, good_names). cbn. by rewrite !orb_true_r.
Qed.

(** What resolving a relative path comes to. *)
Lemma resolve_unfold l : Forall good l -> resolve h s f (join_slash l) =
  match EvalSymlinks h f (abs_path (rootl ++ l)) with
  | Err e => if IsNotExist e then Ok (abs_path (rootl ++ l)) else os_error h (abs_path (rootl ++ l)) (Err e)
  | Ok eval => if negb (withinRoot (root s) eval) then Err (str "path_escape") else Ok eval
  end.
Proof.
  intros Hl. pose proof (names_plain _ (good_names _ Hl)) as Hp. pose proof (names_plain _ root_names) as Hr. unfold resolve. rewrite TrimPrefix_rel, Clean_rel by done.
  assert ((if str_eqb (match l with [] => dot | _ => join_slash l end) dot then [] else match l with [] => dot | _ => join_slash l end) = join_slash l) as ->.
  { destruct l as [|x r]; [done|]. destruct (str_eqb_spec (join_slash (x :: r)) dot) as [E|]; [|done]. by apply join_slash_not_dot in E. }
  rewrite good_no_dotdot, join_relative by done. cbn [orb]. by rewrite Hroot, Join_root.
Qed.

Lemma resolve_there l : Forall good l -> settled f (rootl ++ l) -> resolve h s f (join_slash l) = Ok (abs_path (rootl ++ l)).
Proof.
  intros Hl Hs. rewrite resolve_unfold by done. unfold EvalSymlinks. rewrite p_fails by done. rewrite walk_abs by (by apply plain_all).
  rewrite walk_there by done. destruct (node_at f (rootl ++ l)); [|done]. change (slash :: join_slash (rootl ++ l)) with (abs_path (rootl ++ l)).
  by rewrite within_export.
Qed.

Lemma resolve_below l c content : node_at f (rootl ++ l) = Some (File content) -> good c ->
  resolve h s f (join_slash (l ++ [c])) = Err (h_text h ENOTDIR (abs_path (rootl ++ l ++ [c]))).
Proof.
  intros Hn Hc. assert (Forall good (l ++ [c])) as Hl by (apply Forall_app; split; [by eapply node_good|by apply Forall_singleton]).
  rewrite resolve_unfold by done. unfold EvalSymlinks. rewrite p_fails by done. rewrite walk_abs by (by apply plain_all).
  by rewrite (walk_below _ _ _ _ content).
Qed.

Lemma stat_there l nd : node_at f (rootl ++ l) = Some nd -> os_Stat h f (abs_path (rootl ++ l)) = Ok (info h rootl f l).
Proof.
  intros Hn. unfold os_Stat. rewrite syscall_there; [by rewrite Hn|by eapply node_good|by eapply node_settled].
Qed.

Lemma stat_missing l : Forall good l -> settled f (rootl ++ l) -> node_at f (rootl ++ l) = None -> os_Stat h f (abs_path (rootl ++ l)) = Err ENOENT.
Proof. intros Hl Hs Hn. unfold os_Stat. rewrite syscall_there by done. by rewrite Hn. Qed.

Lemma info_dir l : i_dir (info h rootl f l) = is_dir rootl f l \/ node_at f (rootl ++ l) = None.
Proof.
  unfold info, info_at, is_dir. pose proof (e_links _ _ He l) as Hl.
  destruct (node_at f (rootl ++ l)) as [[]|]; [by left|by left| |by right]. by destruct (Hl target).
Qed.

(** ** Looking paths up *)

Lemma look_found l ns l' : look h rootl f l ns = Ok l' -> is_Some (node_at f (rootl ++ l)) -> l' = l ++ ns /\ is_Some (node_at f (rootl ++ l')).
Proof.
  revert l. induction ns as [|c ns IH]; intros l; cbn [look]; [intros [= <-] ?; by rewrite app_nil_r|].
  destruct (node_at f (rootl ++ l)) as [[]|] eqn:E1; try done. destruct (node_at f (rootl ++ l ++ [c])) as [nd|] eqn:E2; [|done].
  intros H _. apply IH in H as [-> H]; [|by rewrite E2]. split; [by rewrite <- app_assoc|done].
Qed.

Lemma look_short l ns e : look h rootl f l ns = Err e -> len e < 2 ^ 15.
Proof.
  revert l. induction ns as [|c ns IH]; intros l; cbn [look]; [done|].
  pose proof (p_text h Hh ENOTDIR (abs_path (rootl ++ l ++ [c]))).
  destruct (node_at f (rootl ++ l)) as [[]|]; try (intros [= <-]; done).
  destruct (node_at f (rootl ++ l ++ [c])); [apply IH|]. intros [= <-]. by vm_compute.
Qed.

Lemma walk_names_look l ns : Forall good ns -> is_Some (node_at f (rootl ++ l)) ->
  match look h rootl f l ns with
  | Ok l' => exists qids, walk_names h s f (join_slash l) ns = Ok (join_slash l', qids) /\ length qids = length ns
  | Err e => walk_names h s f (join_slash l) ns = Err e
  end.
Proof.
  revert l. induction ns as [|c ns IH]; intros l; [intros _ _; by exists []|]. intros [Hc Hns]%Forall_cons [nd Hn]. cbn [look walk_names].
  pose proof (node_good _ _ Hn) as Hl. destruct Hc as ((Hp & H0) & Hsep & Hdd & Hlen) eqn:EH. pose proof Hp as (Hc1 & Hc2 & Hc3 & _).
  assert (good c) as Hc' by done. assert (Forall good (l ++ [c])) as Hlc by (apply Forall_app; split; [done|by apply Forall_singleton]).
  destruct (str_eqb_spec c []); [done|]. rewrite Hsep. destruct (str_eqb_spec c dotdot); [done|]. destruct (str_eqb_spec c dot); [done|]. cbn [orb].
  rewrite Join_rel by (try done; by apply names_plain, good_names). rewrite Hn. destruct nd as [content| |t]; [| |by apply e_links in Hn].
  - by rewrite (resolve_below _ _ content).
  - rewrite resolve_there by (try done; by apply settled_at). cbn [result_bind].
    destruct (node_at f (rootl ++ l ++ [c])) as [nd|] eqn:Ec.
    + rewrite (stat_there _ nd) by done. specialize (IH (l ++ [c]) Hns ltac:(by rewrite Ec)).
      destruct (look h rootl f (l ++ [c]) ns) as [l'|e].
      * destruct IH as (qids & -> & Hq). cbn [result_bind]. eexists. split; [reflexivity|]. cbn. by rewrite Hq.
      * by rewrite IH.
    + by rewrite stat_missing by (try done; by apply settled_at).
Qed.

(** ** Changing the tree *)

Lemma node_at_below (f0 : fs) (l : loc) c : node_at f0 (rootl ++ l ++ [c]) = f0 !! (rootl ++ l ++ [c]).
Proof. rewrite app_assoc. apply node_at_snoc. Qed.

Lemma node_insert l c nd k : node_at (<[rootl ++ l ++ [c] := nd]> f) k = if decide (k = rootl ++ l ++ [c]) then Some nd else node_at f k.
Proof.
  destruct (decide (k = rootl ++ l ++ [c])) as [->|Hne]; [|by apply node_at_insert_ne].
  apply node_at_insert. clear. by destruct rootl, l.
Qed.

(** What may be put under a name of a directory. *)
Lemma exported_insert l c nd : node_at f (rootl ++ l) = Some Dir -> good c -> (node_at f (rootl ++ l ++ [c]) = Some Dir -> nd = Dir) ->
  match nd with File content => len content < 2 ^ 63 | Dir => True | Link _ => False end -> exported rootl (<[rootl ++ l ++ [c] := nd]> f).
Proof.
  intros Hd Hc Hk Hnd. split.
  - destruct (e_root _ _ He) as [Hn Hr]. split; [done|]. intros k Hk'. rewrite node_insert. rewrite decide_False; [by apply Hr|].
    intros E%(f_equal length). rewrite length_take, !length_app in E. cbn in E. lia.
  - intros k d. rewrite <- node_at_below, !node_insert. destruct (decide (rootl ++ k ++ [d] = rootl ++ l ++ [c])) as [E|Hne].
    + apply app_inv_head, app_inj_tail in E as [-> ->]. intros _. split; [done|]. rewrite decide_False; [done|].
      intros E%app_inv_head%(f_equal length). rewrite length_app in E. cbn in E. lia.
    + intros Hs. rewrite node_at_below in Hs. destruct (e_tree _ _ He k d Hs) as [Hd' Hk']. split; [done|].
      destruct (decide (rootl ++ k = rootl ++ l ++ [c])) as [E|]; [|done]. rewrite E in Hk'. by rewrite (Hk Hk').
  - intros k t. rewrite node_insert. destruct (decide _); [|apply He]. intros [= ->]. done.
  - intros k content. rewrite node_insert. destruct (decide _); [|apply He]. by intros [= ->].
Qed.

Lemma exported_delete l c : (node_at f (rootl ++ l ++ [c]) = Some Dir -> children f (rootl ++ l ++ [c]) = []) -> exported rootl (delete (rootl ++ l ++ [c]) f).
Proof.
  intros Hch. assert (forall k, k <> rootl ++ l ++ [c] -> node_at (delete (rootl ++ l ++ [c]) f) k = node_at f k) as Hne
    by (intros [|x k] Hk; [done|]; cbn; by rewrite lookup_delete_ne).
  assert (node_at (delete (rootl ++ l ++ [c]) f) (rootl ++ l ++ [c]) = None) as Hgone by (by rewrite node_at_below, lookup_delete_eq).
  split.
  - destruct (e_root _ _ He) as [Hn Hr]. split; [done|]. intros k Hk'. rewrite Hne; [by apply Hr|].
    intros E%(f_equal length). rewrite length_take, !length_app in E. cbn in E. lia.
  - intros k d. destruct (decide (rootl ++ k ++ [d] = rootl ++ l ++ [c])) as [->|Hk]; [rewrite lookup_delete_eq; by intros [? ?]|].
    rewrite lookup_delete_ne by done. intros Hs. destruct (e_tree _ _ He k d Hs) as [Hd Hdir]. split; [done|].
    rewrite Hne; [done|]. intros E. rewrite E in Hdir. specialize (Hch Hdir).
    assert (d ∈ children f (rootl ++ l ++ [c])) as Hin by (apply children_in; rewrite <- E, <- app_assoc; done).
    rewrite Hch in Hin. by apply not_elem_of_nil in Hin.
  - intros k t. destruct (decide (rootl ++ k = rootl ++ l ++ [c])) as [->|Hk]; [by rewrite Hgone|]. rewrite Hne by done. apply He.
  - intros k content. destruct (decide (rootl ++ k = rootl ++ l ++ [c])) as [->|Hk]; [by rewrite Hgone|]. rewrite Hne by done. apply He.
Qed.

(** A file lies under a name of a directory. *)
Lemma file_place l content : node_at f (rootl ++ l) = Some (File content) ->
  exists dl c, l = dl ++ [c] /\ node_at f (rootl ++ dl) = Some Dir /\ good c.
Proof.
  intros Hn. destruct l as [|c l _] using rev_ind; [rewrite app_nil_r, (real_dir f rootl) in Hn by apply He; done|].
  destruct (e_tree _ _ He l c) as [Hc Hp]; [rewrite <- node_at_below; by rewrite Hn|]. by exists l, c.
Qed.

Lemma exported_rewrite l old content : node_at f (rootl ++ l) = Some (File old) -> len content < 2 ^ 63 -> exported rootl (<[rootl ++ l := File content]> f).
Proof.
  intros Hn Hl. destruct (file_place l old Hn) as (dl & c & -> & Hd & Hc). apply exported_insert; try done. by rewrite Hn.
Qed.

End Tree.
End P9ExportProofs.
