(* ===== verification/P9ClientOps.v ===== *)
(** * The requests of the 9P client on an exported tree

    For every request of the client, the effect it has on the server's fids
    and files when the export is a tree without links. *)

From S2P Require Import Prelude GoStrings GoFs GoFsProofs GoFsOpsProofs P9Server P9ServerProofs P9Claims P9Client P9ClientProofs P9Export P9ExportProofs.

Module P9ClientOps.
Import P9Client GoStrings GoFs GoFsProofs GoFsOpsProofs P9Server P9ServerProofs P9Claims P9ClientProofs P9Export P9ExportProofs.

(** ** Names on the wire *)

Definition name_fits (c : bytes) : Prop := len c < 2 ^ 15.
Definition fits (ns : list bytes) : Prop := len ns < 2 ^ 16 /\ len (concat (packString <$> ns)) <= 2 ^ 24 - 17.

Lemma unpack_packed_names pre ns : Forall name_fits ns ->
  unpack_names (length ns) (pre ++ concat (packString <$> ns)) (len pre) = Ok ns.
Proof.
  revert pre. induction ns as [|c ns IH]; intros pre; [done|]. intros [Hc Hns]%Forall_cons. unfold name_fits in Hc.
  cbn [fmap list_fmap concat length unpack_names].
  pose proof (unpack_packed pre c (concat (packString <$> ns)) ltac:(lia)) as E.
  change (P9Client.unpackString ?b ?o) with (unpackString b o) in E. rewrite E. cbn [result_bind].
  rewrite app_assoc. replace (len pre + 2 + len c) with (len (pre ++ packString c)).
  - by rewrite IH.
  - unfold packString. rewrite !len_app, len_le_put. lia.
Qed.

Lemma good_fits ns : Forall good ns -> Forall name_fits ns.
Proof. intros H. apply (Forall_impl _ _ _ H). by intros c (_ & _ & _ & Hl). Qed.

Lemma len_qid q : len (qid_bytes q) = 13.
Proof. unfold qid_bytes. rewrite !len_app, !len_le_put. done. Qed.

Lemma len_walk_reply qids : len (walk_reply qids) = 2 + 13 * len qids.
Proof.
  unfold walk_reply. rewrite len_app, len_le_put. f_equal. induction qids as [|q qids IH]; [done|].
  cbn [fmap list_fmap concat]. rewrite len_app, len_qid. change (list_fmap _ _ qid_bytes qids) with (qid_bytes <$> qids). rewrite IH. unfold len. cbn [length]. lia.
Qed.

(** ** Stat records *)

Definition stat_name (rel : bytes) (i : FileInfo) : bytes := if str_eqb rel [] || str_eqb rel dot then [slash] else i_name i.
Definition stat_mode (i : FileInfo) : Z := if i_dir i then Z.lor (i_perm i) permDir else i_perm i.

(** The body of a record: what comes before the mode, between mode and length, and after the name. *)
Definition stat_head (rel : bytes) (i : FileInfo) : bytes := le_put 2 0 ++ le_put 4 0 ++ qid_bytes (qidFor rel i).
Definition stat_times (i : FileInfo) : bytes := le_put 4 (u32 (Unix (i_mtime i))) ++ le_put 4 (u32 (Unix (i_mtime i))).
Definition stat_owner : bytes := packString (str "weaverssh") ++ packString (str "weaverssh") ++ packString [].
Definition stat_body (rel : bytes) (i : FileInfo) : bytes :=
  stat_head rel i ++ le_put 4 (stat_mode i) ++ stat_times i ++ le_put 8 (i_size i) ++ packString (stat_name rel i) ++ stat_owner.

Lemma statBytes_body rel i : statBytes rel i = le_put 2 (len (stat_body rel i)) ++ stat_body rel i.
Proof.
  assert (stat_body rel i = le_put 2 0 ++ le_put 4 0 ++ qid_bytes (qidFor rel i) ++ le_put 4 (stat_mode i) ++
    le_put 4 (u32 (Unix (i_mtime i))) ++ le_put 4 (u32 (Unix (i_mtime i))) ++ le_put 8 (i_size i) ++ packString (stat_name rel i) ++ stat_owner) as ->; [|done].
  unfold stat_body, stat_head, stat_times. by rewrite <- !app_assoc.
Qed.

Lemma len_stat_head rel i : len (stat_head rel i) = 19.
Proof. unfold stat_head. rewrite !len_app, len_qid, !len_le_put. done. Qed.
Lemma len_stat_times i : len (stat_times i) = 8.
Proof. unfold stat_times. rewrite !len_app, !len_le_put. done. Qed.

Lemma len_stat_body rel i : len (stat_body rel i) = 65 + len (stat_name rel i).
Proof.
  unfold stat_body. rewrite !len_app, len_stat_head, len_stat_times, !len_le_put. unfold packString. rewrite len_app, len_le_put.
  change (len stat_owner) with 24. lia.
Qed.

Lemma stat_mode_dir i : 0 <= i_perm i < 512 -> 0 <= stat_mode i < 2 ^ 32 /\ negb (Z.land (stat_mode i) permDir =? 0) = i_dir i.
Proof.
  intros Hp. unfold stat_mode.
  assert (Z.land (i_perm i) permDir = 0) as H0.
  { change permDir with (2 ^ 31). apply Z.bits_inj'. intros k Hk. rewrite Z.land_spec, Z.bits_0.
    destruct (Z.eqb_spec k 31) as [->|Hne]; [|rewrite Z.pow2_bits_false by lia; apply andb_false_r].
    rewrite (Z.bits_above_log2 (i_perm i)); [done|lia|].
    destruct (Z.eq_dec (i_perm i) 0) as [->|]; [done|]. apply Z.log2_lt_pow2; lia. }
  destruct (i_dir i); split; try lia.
  - split; [apply Z.lor_nonneg; unfold permDir; lia|]. pose proof (Z.add_nocarry_lor (i_perm i) permDir H0) as E. rewrite <- E. unfold permDir. lia.
  - rewrite Z.land_lor_distr_l, H0, Z.land_diag. done.
Qed.

Lemma stat_fields rel i : 0 <= i_perm i < 512 -> 0 <= i_size i < 2 ^ 64 -> len (stat_name rel i) < 2 ^ 15 ->
  let b := stat_body rel i in
  field 4 19 b = stat_mode i /\ field 8 31 b = i_size i /\ exists next, P9Client.unpackString b 39 = Ok (stat_name rel i, next).
Proof.
  intros Hp Hs Hn. pose proof (stat_mode_dir i Hp) as [Hm _]. pose proof (len_stat_head rel i) as L1. pose proof (len_stat_times i) as L2.
  unfold len in L1, L2. cbv zeta. unfold stat_body. split_and!.
  - apply field_at; [lia|done].
  - rewrite (app_assoc _ (le_put 4 _)), (app_assoc _ (stat_times i)). apply field_at; [rewrite !length_app, le_put_length; lia|done].
  - eexists. rewrite (app_assoc _ (le_put 4 _)), (app_assoc _ (stat_times i)), (app_assoc _ (le_put 8 _)).
    replace 39 with (len (((stat_head rel i ++ le_put 4 (stat_mode i)) ++ stat_times i) ++ le_put 8 (i_size i)))
      by (rewrite !len_app, !len_le_put; unfold len; lia).
    apply unpack_packed. lia.
Qed.

(** The client reads from a record what the server put into it. *)
Lemma parse_stat pre rel i post : 0 <= i_perm i < 512 -> 0 <= i_size i < 2 ^ 64 -> len (stat_name rel i) < 2 ^ 15 ->
  parseStat (pre ++ statBytes rel i ++ post) (len pre) = Ok (mkEntry (stat_name rel i) (i_dir i) (i_size i), len pre + len (statBytes rel i)).
Proof.
  intros Hp Hs Hn. pose proof (stat_fields rel i Hp Hs Hn) as (E1 & E2 & next & E3). cbv zeta in *. pose proof (stat_mode_dir i Hp) as [_ Hd].
  pose proof (len_stat_body rel i) as Lb. pose proof (len_nonneg (stat_name rel i)). pose proof (len_nonneg pre). pose proof (len_nonneg post).
  rewrite statBytes_body. set (b := stat_body rel i) in *. rewrite <- app_assoc. unfold parseStat.
  rewrite !len_app, len_le_put. change (Z.of_nat 2) with 2.
  replace (len pre + (2 + (len b + len post)) <? len pre + 2) with false by lia.
  replace (Z.to_nat (len pre)) with (length pre) by (unfold len; lia). change (P9Client.field 2) with (field 2).
  rewrite field_at by (try done; change (8 * Z.of_nat 2) with 16; lia).
  replace (len pre + (2 + (len b + len post)) <? len pre + 2 + len b) with false by lia.
  assert (slice (pre ++ le_put 2 (len b) ++ b ++ post) (Z.to_nat (len pre + 2)) (Z.to_nat (len pre + 2 + len b)) = b) as ->.
  { unfold slice. rewrite app_assoc. rewrite drop_app_length' by (rewrite length_app, le_put_length; unfold len; lia).
    apply take_app_length'. unfold len. lia. }
  replace (len b <? 19) with false by lia. replace (len b <? 23) with false by lia. replace (len b <? 39) with false by lia.
  change (P9Client.field ?x ?y b) with (field x y b). rewrite E1, E2, E3. cbn [result_bind].
  change (P9Client.permDir) with permDir. rewrite Hd. do 2 f_equal. lia.
Qed.

Definition stat_fine (rel : bytes) (i : FileInfo) : Prop := 0 <= i_perm i < 512 /\ 0 <= i_size i < 2 ^ 64 /\ len (stat_name rel i) < 2 ^ 15.

Lemma len_statBytes rel i : len (statBytes rel i) = 67 + len (stat_name rel i).
Proof. rewrite statBytes_body, len_app, len_le_put, len_stat_body. lia. Qed.

(** Records one after the other: a round per record and one for the end. *)
Lemma parse_records fuel pre (recs : list (bytes * FileInfo)) : Forall (fun r => stat_fine r.1 r.2) recs -> (length recs < fuel)%nat ->
  parse_entries fuel (pre ++ concat ((fun r => statBytes r.1 r.2) <$> recs)) (len pre) =
    Ok ((fun r => mkEntry (stat_name r.1 r.2) (i_dir r.2) (i_size r.2)) <$> recs).
Proof.
  revert fuel pre. induction recs as [|[rel i] recs IH]; intros fuel pre Hall Hfuel; (destruct fuel as [|fuel]; [cbn in Hfuel; lia|]).
  - cbn [fmap list_fmap concat parse_entries]. rewrite app_nil_r. by replace (len pre <=? len pre) with true by lia.
  - apply Forall_cons in Hall as [(H1 & H2 & H3) Hall]. cbn [fmap list_fmap concat parse_entries fst snd] in *.
    pose proof (len_statBytes rel i). pose proof (len_nonneg (stat_name rel i)).
    change (list_fmap _ _ (fun r => statBytes r.1 r.2) recs) with ((fun r : bytes * FileInfo => statBytes r.1 r.2) <$> recs).
    set (tail_ := concat ((fun r : bytes * FileInfo => statBytes r.1 r.2) <$> recs)). pose proof (len_nonneg tail_).
    replace (len (pre ++ statBytes rel i ++ tail_) <=? len pre) with false by (rewrite !len_app; lia).
    rewrite parse_stat by done. cbn [result_bind]. rewrite app_assoc, <- len_app. unfold tail_.
    rewrite IH by (try done; cbn in Hfuel; lia). done.
Qed.

Section Requests.
Context (h : host) (s : Server) (m sm : Z) (v : bytes) (rootl : loc).
Context (Hh : polite h) (Hroot : root s = abs_path rootl) (Hro : readOnly s = false) (Hm : 24 <= m <= 2 ^ 20).

(** The fid of a node. *)
Definition fid_at (f : fs) (l : loc) (opened : bool) : fidState := mkFid (join_slash l) (abs_path (rootl ++ l)) opened (is_dir rootl f l).

Section OneTree.
Context (f : fs) (He : exported rootl f).

(** One exchange, from what the server's handler does with the request. *)
Lemma eff_request typ payload n T r T' f' : len payload <= 2 ^ 24 - 7 -> expectedReply typ <> rError ->
  (forall tag, handle h s (mkSession sm v T) f (mkMessage typ tag payload) = (r, mkSession sm v T', f')) ->
  match r with Ok (t, p) => t = expectedReply typ /\ len p <= 2 ^ 24 - 7 | Err e => len e < 2 ^ 16 end ->
  eff m sm v (rpc (served h s) typ payload) n T f (match r with Ok (_, p) => Ok p | Err e => Err (Remote e) end) n T' f'.
Proof.
  intros Hp Hne Hd Hr. destruct r as [[t p]|e]; [destruct Hr as [-> Hl]; by apply eff_rpc|by apply eff_rpc_err].
Qed.

Definition walk_request (n : Z) (ns : list bytes) : bytes := le_put 4 0 ++ le_put 4 n ++ le_put 2 (len ns) ++ concat (packString <$> ns).

Lemma walk_fields n ns : 0 <= n < 2 ^ 32 -> fits ns -> Forall good ns ->
  let p := walk_request n ns in
  field 4 0 p = 0 /\ field 4 4 p = n /\ field 2 8 p = len ns /\ unpack_names (Z.to_nat (len ns)) p 10 = Ok ns /\ 10 <= len p <= 2 ^ 24 - 7.
Proof.
  intros Hn [Hc Hf] Hg. cbv zeta. unfold walk_request. pose proof (len_nonneg ns). split_and!.
  - by apply first_field.
  - apply (field_at 4 4 (le_put 4 0)); [done|cbn; lia].
  - rewrite (app_assoc (le_put 4 0)). apply (field_at 2 8 (le_put 4 0 ++ le_put 4 n)); [by rewrite length_app, !le_put_length|cbn; lia].
  - rewrite !app_assoc. change 10 with (len ((le_put 4 0 ++ le_put 4 n) ++ le_put 2 (len ns))).
    replace (Z.to_nat (len ns)) with (length ns) by (unfold len; lia). by apply unpack_packed_names, good_fits.
  - pose proof (len_nonneg (concat (packString <$> ns))). rewrite !len_app, !len_le_put. lia.
  - rewrite !len_app, !len_le_put. lia.
Qed.

Lemma root_there : is_Some (node_at f (rootl ++ [])).
Proof. rewrite app_nil_r, (real_dir f rootl); [done|apply He]. Qed.
Lemma root_is_dir : is_dir rootl f [] = true.
Proof. unfold is_dir. rewrite app_nil_r, (real_dir f rootl); [done|apply He]. Qed.

Lemma handleWalk_look n ns T : 0 <= n < 2 ^ 32 -> fits ns -> Forall good ns -> T !! 0 = Some (fid_at f [] false) ->
  match look h rootl f [] ns with
  | Ok l => exists reply, handleWalk h s (mkSession sm v T) f (walk_request n ns) = (Ok (Rwalk, reply), mkSession sm v (<[n := fid_at f l false]> T), f) /\ len reply <= 2 ^ 24 - 7
  | Err e => handleWalk h s (mkSession sm v T) f (walk_request n ns) = (Err e, mkSession sm v T, f)
  end.
Proof.
  intros Hn Hf Hg HT. pose proof (walk_fields n ns Hn Hf Hg) as (E1 & E2 & E3 & E4 & E5). destruct Hf as [Hc _]. cbv zeta in *.
  pose proof (walk_names_look h s rootl f Hh Hroot He [] ns Hg root_there) as Hw. change (join_slash []) with (@nil Z) in Hw.
  unfold handleWalk. replace (len (walk_request n ns) <? 10) with false by lia. rewrite E1, E2, E3, E4. cbn [fids]. rewrite HT.
  destruct ns as [|c ns]; [cbn [look]; eexists; split; [reflexivity|by vm_compute]|].
  replace (len (c :: ns) =? 0) with false by (unfold len; cbn [length]; apply eq_sym, Z.eqb_neq; lia). cbn [fid_at rel join_slash].
  destruct (look h rootl f [] (c :: ns)) as [l|e] eqn:El; [|by rewrite Hw].
  destruct Hw as (qids & -> & Hq). cbn [result_bind].
  destruct (look_found _ _ _ _ _ _ El root_there) as [_ [nd Hnd]]. pose proof (node_good rootl f He l nd Hnd) as Hl.
  rewrite (resolve_there h s rootl f) by (try done; by eapply node_settled). cbn [result_bind].
  rewrite (stat_there h rootl f Hh He l nd) by done. cbn [os_error result_map_err result_bind]. eexists. split.
  - unfold fid_at. destruct (info_dir h rootl f He l) as [->|E]; [done|by rewrite E in Hnd].
  - rewrite len_walk_reply. unfold len in *. lia.
Qed.

Lemma eff_walk path n T : Forall good (splitPath path) -> fits (splitPath path) -> T !! 0 = Some (fid_at f [] false) -> 0 <= n -> n + 1 < 2 ^ 32 ->
  eff m sm v (P9Client.walk (served h s) path) n T f
    (match look h rootl f [] (splitPath path) with Ok _ => Ok n | Err e => Err (Remote e) end) (n + 1)
    (match look h rootl f [] (splitPath path) with Ok l => <[n := fid_at f l false]> T | Err _ => T end) f.
Proof.
  intros Hg Hf HT Hn Hn1. set (ns := splitPath path) in *.
  pose proof (walk_fields n ns ltac:(lia) Hf Hg) as (_ & _ & _ & _ & Hl). cbv zeta in Hl.
  pose proof (handleWalk_look n ns T ltac:(lia) Hf Hg HT) as Hw.
  assert (forall r T', handleWalk h s (mkSession sm v T) f (walk_request n ns) = (r, mkSession sm v T', f) ->
    match r with Ok (t, p) => t = Rwalk /\ len p <= 2 ^ 24 - 7 | Err e => len e < 2 ^ 16 end ->
    eff m sm v (P9Client.walk (served h s) path) n T f (match r with Ok _ => Ok n | Err e => Err (Remote e) end) (n + 1) T' f) as Hgo.
  { intros r T' Hr Hs t. destruct (eff_request tWalk (walk_request n ns) (n + 1) T r T' f ltac:(lia) ltac:(done) ltac:(done) Hs t) as [t' E].
    exists t'. unfold P9Client.walk, bind, allocFid, state. cbn [fst c_nextFid c_rootFid update update_c_nextFid c_msize c_tag c_unread].
    fold ns. unfold u32. rewrite Z.mod_small by lia.
    change (le_put 4 0 ++ le_put 4 n ++ le_put 2 (len ns) ++ concat (P9Client.packString <$> ns)) with (walk_request n ns).
    unfold update_c_nextFid. cbn [c_msize c_tag c_rootFid c_unread]. unfold state in E. rewrite E. by destruct r as [[typ p]|e]. }
  destruct (look h rootl f [] ns) as [l|e] eqn:El.
  - destruct Hw as (reply & Hw & Hr). by apply (Hgo _ _ Hw).
  - apply (Hgo _ _ Hw). pose proof (look_short h rootl f Hh _ _ _ El). lia.
Qed.

(** Opening: a file opened for writing is truncated. *)
Definition truncated (l : loc) : fs := match node_at f (rootl ++ l) with Some (File _) => <[rootl ++ l := File []]> f | _ => f end.

Lemma open_fields fid mode : 0 <= fid < 2 ^ 32 ->
  let p := le_put 4 fid ++ [mode] in len p = 5 /\ field 4 0 p = fid /\ nth 4 p 0 = mode.
Proof. intros Hf. cbv zeta. split; [by rewrite len_app, len_le_put|]. split; [by apply first_field|]. rewrite app_nth2; rewrite le_put_length; [done|lia]. Qed.

Lemma truncated_exported l : is_Some (node_at f (rootl ++ l)) -> exported rootl (truncated l).
Proof. unfold truncated. intros _. destruct (node_at f (rootl ++ l)) as [[]|] eqn:E; try done. by eapply exported_rewrite. Qed.

Lemma node_rewritten l old content : node_at f (rootl ++ l) = Some (File old) -> node_at (<[rootl ++ l := File content]> f) (rootl ++ l) = Some (File content).
Proof. intros Hn. destruct (file_place rootl f He l old Hn) as (dl & c & -> & _). apply node_at_insert. clear. by destruct rootl, dl. Qed.

Lemma eff_open fid mode l o n T : 0 <= fid < 2 ^ 32 -> mode = OREAD \/ mode = Z.lor OWRITE OTRUNC -> T !! fid = Some (fid_at f l o) -> is_Some (node_at f (rootl ++ l)) ->
  eff m sm v (open_ (served h s) fid mode) n T f (Ok tt) n (<[fid := fid_at f l true]> T) (if mode =? OREAD then f else truncated l).
Proof.
  intros Hf Hmode HT [nd Hn]. unfold open_. eapply eff_bind; [|apply eff_ret].
  pose proof (open_fields fid mode Hf) as (E1 & E2 & E3). cbv zeta in *.
  assert (forall i, len (qid_bytes (qidFor (join_slash l) i) ++ le_put 4 0) <= 2 ^ 24 - 7) as Hl by (intros i; rewrite len_app, len_qid, len_le_put; lia).
  set (i := info h rootl f l). assert (i_dir i = is_dir rootl f l) as Ei by (by destruct (info_dir h rootl f He l) as [E|E]; [|rewrite E in Hn]).
  set (f' := if mode =? OREAD then f else truncated l). set (i' := info h rootl f' l).
  eapply (eff_request tOpen _ n T (Ok (Ropen, qid_bytes (qidFor (join_slash l) i') ++ le_put 4 0))); [lia|done| |done].
  intros tag. change (handle h s ?ss f (mkMessage tOpen tag ?p)) with (handleOpen h s ss f p). unfold handleOpen.
  rewrite E1, E2, E3. change (5 <? 5) with false. cbn [fids]. cbv iota. rewrite HT, Hro. cbn [fid_at path rel andb].
  rewrite (stat_there h rootl f Hh He l nd) by done. cbn [os_error result_map_err]. fold i.
  destruct Hmode as [-> | ->].
  - change (negb (Z.land OREAD openTrunc =? 0)) with false. cbn [andb]. rewrite Ei. done.
  - change (negb (Z.land (Z.lor OWRITE OTRUNC) openTrunc =? 0)) with true. cbn [andb]. rewrite Ei.
    change (Z.lor OWRITE OTRUNC =? OREAD) with false in f'. unfold i', f', truncated, is_dir. destruct nd as [old| |t]; [| |by apply e_links in Hn].
    + rewrite Hn. cbn [negb]. unfold os_Truncate. rewrite (syscall_there h rootl f Hh He) by first [by eapply node_good|by eapply node_settled].
      rewrite Hn. cbv beta iota. rewrite Hn. cbn [wrapped os_error result_map_err].
      assert (exported rootl (<[rootl ++ l := File []]> f)) as He' by (by eapply exported_rewrite).
      pose proof (node_rewritten l old [] Hn) as Hn'.
      rewrite (stat_there h rootl _ Hh He' l (File [])) by done. cbn [os_error result_map_err].
      assert (i_dir (info h rootl (<[rootl++l:=File []]> f) l) = false) as -> by (unfold info, info_at; by rewrite Hn').
      unfold fid_at, is_dir. by rewrite Hn.
    + unfold fid_at, is_dir. by rewrite Hn.
Qed.

(** ** Stat records of the tree *)

Lemma child_there l c : c ∈ children f (rootl ++ l) -> is_Some (node_at f (rootl ++ l ++ [c])).
Proof. intros Hc%children_in. by rewrite node_at_below, app_assoc. Qed.

Lemma stat_name_last l : Forall good l -> stat_name (join_slash l) (info h rootl f l) = match last l with Some c => c | None => [slash] end.
Proof.
  intros Hl. pose proof (names_plain _ (good_names _ Hl)) as Hp. unfold stat_name. destruct l as [|c l _] using rev_ind; [done|].
  destruct (str_eqb_spec (join_slash (l ++ [c])) []) as [E|_].
  { apply (join_slash_inj _ []) in E; [by destruct l|done|done]. }
  destruct (str_eqb_spec (join_slash (l ++ [c])) dot) as [E|_]; [by apply join_slash_not_dot in E|]. cbn [orb].
  assert (i_name (info h rootl f (l ++ [c])) = Base (abs_path (rootl ++ l ++ [c]))) as -> by (unfold info, info_at; by destruct (node_at f (rootl ++ l ++ [c])) as [[]|]).
  unfold Base. rewrite comps_abs by (by apply (plain_all rootl f)). by rewrite app_assoc, !last_snoc.
Qed.

Lemma info_entry l nd : node_at f (rootl ++ l) = Some nd ->
  stat_fine (join_slash l) (info h rootl f l) /\
  mkEntry (stat_name (join_slash l) (info h rootl f l)) (i_dir (info h rootl f l)) (i_size (info h rootl f l)) = entry h rootl f l.
Proof.
  intros Hn. pose proof (node_good rootl f He l nd Hn) as Hl. unfold stat_fine. rewrite stat_name_last by done.
  assert (len (match last l with Some c => c | None => [slash] end) < 2 ^ 15) as Hlen.
  { destruct (last l) as [c|] eqn:E; [|by vm_compute]. apply last_Some in E as [l' ->]. apply Forall_app in Hl as [_ [(_ & _ & _ & H) _]%Forall_cons]. done. }
  pose proof (p_perm h Hh f (rootl ++ l)). pose proof (p_dirsize h Hh f (rootl ++ l)).
  unfold info, info_at, entry. destruct nd as [content| |t]; [| |by apply e_links in Hn]; rewrite Hn; cbn [i_perm i_size i_dir]; split; try done; split_and!; try lia.
  - apply len_nonneg.
  - pose proof (e_files _ _ He l content Hn). lia.
Qed.

Lemma parse_listing l : node_at f (rootl ++ l) = Some Dir ->
  parse_entries (S (length (listing h rootl f l))) (listing h rootl f l) 0 = Ok ((fun c => entry h rootl f (l ++ [c])) <$> children f (rootl ++ l)).
Proof.
  intros Hd. set (recs := (fun c => (join_slash (l ++ [c]), info h rootl f (l ++ [c]))) <$> children f (rootl ++ l)).
  assert (listing h rootl f l = concat ((fun r => statBytes r.1 r.2) <$> recs)) as -> by (unfold listing, recs; by rewrite <- list_fmap_compose).
  assert (Forall (fun r => stat_fine r.1 r.2) recs) as Hall.
  { unfold recs. apply Forall_fmap, Forall_forall. intros c Hc. destruct (child_there l c Hc) as [nd Hn]. by destruct (info_entry _ nd Hn). }
  pose proof (parse_records (S (length (concat ((fun r => statBytes r.1 r.2) <$> recs)))) [] recs Hall) as E. cbn [app] in E. change (len []) with 0 in E. rewrite E.
  - f_equal. unfold recs. rewrite <- list_fmap_compose. apply list_fmap_ext. intros i c Hc%list_elem_of_lookup_2.
    destruct (child_there l c Hc) as [nd Hn]. by destruct (info_entry _ nd Hn).
  - clear. induction recs as [|[rel i] recs IH]; cbn [fmap list_fmap concat length]; [lia|]. rewrite length_app.
    pose proof (len_statBytes rel i) as Hl. pose proof (len_nonneg (stat_name rel i)). cbn [fst snd]. unfold len in *. cbn [fmap] in IH. lia.
Qed.

Lemma handleStat_entry fid l o T : 0 <= fid < 2 ^ 32 -> T !! fid = Some (fid_at f l o) -> is_Some (node_at f (rootl ++ l)) ->
  let stat := statBytes (join_slash l) (info h rootl f l) in
  handleStat h (mkSession sm v T) f (le_put 4 fid) = (Ok (Rstat, le_put 2 (len stat) ++ stat), mkSession sm v T, f).
Proof.
  intros Hf HT [nd Hn]. cbv zeta. unfold handleStat. rewrite len_le_put. change (Z.of_nat 4 <? 4) with false. cbv iota.
  rewrite only_field by done. cbn [fids]. rewrite HT. cbn [fid_at path rel]. by rewrite (stat_there h rootl f Hh He l nd).
Qed.

Lemma eff_stat fid l o n T : 0 <= fid < 2 ^ 32 -> T !! fid = Some (fid_at f l o) -> is_Some (node_at f (rootl ++ l)) ->
  eff m sm v (bind (rpc (served h s) tStat (le_put 4 fid)) (fun resp =>
    if len resp <? 2 then throw (str "short_rstat") else
    match parseStat resp 2 with Ok (e, _) => ret e | Err e => throw e end)) n T f (Ok (entry h rootl f l)) n T f.
Proof.
  intros Hf HT [nd Hn]. destruct (info_entry l nd Hn) as [(H1 & H2 & H3) <-]. set (i := info h rootl f l) in *. set (stat := statBytes (join_slash l) i).
  pose proof (len_statBytes (join_slash l) i) as Hl. pose proof (len_nonneg (stat_name (join_slash l) i)). fold stat in Hl.
  eapply eff_bind.
  - apply (eff_request tStat _ n T (Ok (Rstat, le_put 2 (len stat) ++ stat))); [rewrite len_le_put; lia|done| |].
    + intros tag. by apply (handleStat_entry fid l o).
    + split; [done|]. rewrite len_app, len_le_put. lia.
  - cbv beta. rewrite len_app, len_le_put. change (Z.of_nat 2) with 2. replace (2 + len stat <? 2) with false by lia.
    pose proof (parse_stat (le_put 2 (len stat)) (join_slash l) i [] H1 H2 H3) as E. rewrite app_nil_r, len_le_put in E. change (Z.of_nat 2) with 2 in E.
    fold stat in E. rewrite E. apply eff_ret.
Qed.

(** ** Reading *)

Lemma readDir_listing l : node_at f (rootl ++ l) = Some Dir -> readDir h s f (join_slash l) (abs_path (rootl ++ l)) = Ok (listing h rootl f l).
Proof.
  intros Hn. pose proof (node_good rootl f He l Dir Hn) as Hl. unfold readDir, os_ReadDir.
  rewrite (syscall_there h rootl f Hh He) by first [done|by eapply node_settled]. rewrite Hn. cbv beta iota. rewrite Hn.
  cbn [os_error result_map_err result_bind]. rewrite sort_by_id by apply str_sort_in_order. f_equal. unfold listing.
  assert (forall c, c ∈ children f (rootl ++ l) -> is_Some (node_at f (rootl ++ l ++ [c]))) as Hall by apply child_there.
  induction (children f (rootl ++ l)) as [|c names IH]; [done|]. cbn [readDir_entries fmap list_fmap concat].
  destruct (Hall c) as [nd Hc]; [by left|]. pose proof (node_good rootl f He _ _ Hc) as Hg.
  assert (plain c) as Hp by (apply Forall_app in Hg as [_ [[[? _] _] _]%Forall_cons]; done).
  rewrite Join_rel by (try done; by apply names_plain, good_names).
  rewrite (resolve_there h s rootl f) by (try done; by eapply node_settled).
  rewrite (stat_there h rootl f Hh He _ nd) by done. f_equal. apply IH. intros d Hd. apply Hall. by right.
Qed.

Definition part (l : loc) (off count : Z) : bytes := take (Z.to_nat (Z.min count (2 ^ 20))) (drop (Z.to_nat off) (contents h rootl f l)).

Lemma len_part l off count : len (part l off count) <= 2 ^ 20.
Proof. unfold part, len. rewrite length_take. lia. Qed.

Lemma handleRead_part fid l o T off count : 0 <= fid < 2 ^ 32 -> T !! fid = Some (fid_at f l o) -> is_Some (node_at f (rootl ++ l)) ->
  0 <= off < 2 ^ 63 -> 0 <= count < 2 ^ 32 ->
  handleRead h s (mkSession sm v T) f (read_payload fid off count) = (Ok (Rread, le_put 4 (len (part l off count)) ++ part l off count), mkSession sm v T, f).
Proof.
  intros Hf HT [nd Hn] Ho Hc. pose proof (node_good rootl f He l nd Hn) as Hg. unfold part, contents.
  destruct nd as [content| |t]; [| |by apply e_links in Hn].
  - rewrite Hn. apply (handleRead_file h s _ f (fid_at f l o) fid (rootl ++ l)); try done; cbn [fid_at path].
    + intros c p. by apply p_fails.
    + by apply (path_no_zero rootl f).
    + rewrite walk_abs by (by apply (plain_all rootl f)). rewrite (walk_there rootl f) by first [done|by eapply node_settled]. by rewrite Hn.
  - rewrite Hn. unfold handleRead, read_payload.
    pose proof (io_fields fid off count [] Hf ltac:(lia) Hc) as (E1 & E2 & E3 & E4 & _). cbv zeta in *.
    rewrite app_nil_r in *. rewrite E1, E2, E3, E4. change (16 + len [] <? 16) with false. cbn [fids]. cbv iota. rewrite HT. cbn [fid_at path rel].
    rewrite (stat_there h rootl f Hh He l Dir) by done. cbn [os_error result_map_err result_bind].
    assert (i_dir (info h rootl f l) = true) as -> by (unfold info, info_at; by rewrite Hn).
    rewrite readDir_listing by done. cbn [result_bind]. destruct (Z.ltb_spec off (len (listing h rootl f l))) as [|Hge]; [done|].
    rewrite drop_ge by (unfold len in *; lia). by rewrite take_nil.
Qed.

Lemma eff_read fid l o n T off count : 0 <= fid < 2 ^ 32 -> T !! fid = Some (fid_at f l o) -> is_Some (node_at f (rootl ++ l)) ->
  0 <= off < 2 ^ 63 -> 0 <= count < 2 ^ 32 ->
  eff m sm v (rpc (served h s) tRead (read_request fid off count)) n T f (Ok (le_put 4 (len (part l off count)) ++ part l off count)) n T f.
Proof.
  intros Hf HT Hn Ho Hc. pose proof (len_part l off count).
  apply (eff_request tRead _ n T (Ok (Rread, le_put 4 (len (part l off count)) ++ part l off count))).
  - unfold read_request. rewrite !len_app, !len_le_put. lia.
  - done.
  - intros tag. by apply (handleRead_part fid l o).
  - split; [done|]. rewrite len_app, len_le_put. lia.
Qed.

(** The loop of [readAll]; one round per byte and one for the end is enough. *)
Lemma eff_readAll_loop fuel fid l o n T chunk off out : 0 <= fid < 2 ^ 32 -> T !! fid = Some (fid_at f l o) -> is_Some (node_at f (rootl ++ l)) ->
  1 <= chunk <= 2 ^ 20 -> len (contents h rootl f l) < 2 ^ 63 -> 0 <= off <= len (contents h rootl f l) ->
  (length (contents h rootl f l) < fuel + Z.to_nat off)%nat ->
  eff m sm v (readAll_loop (served h s) fuel fid chunk off out) n T f (Ok (out ++ drop (Z.to_nat off) (contents h rootl f l))) n T f.
Proof.
  intros Hf HT Hn Hc Hl. revert off out. induction fuel as [|fuel IH]; intros off out Ho Hfuel; [unfold len in *; lia|].
  cbn [readAll_loop]. eapply eff_bind; [apply (eff_read fid l o); try done; lia|]. cbv beta.
  set (data := part l off chunk). assert (0 <= len data <= 2 ^ 20) as Hd by (split; [apply len_nonneg|apply len_part]).
  rewrite len_app, len_le_put. change (Z.of_nat 4) with 4. replace (4 + len data <? 4) with false by lia.
  change (P9Client.field ?a ?b ?c) with (field a b c). rewrite first_field by (cbn; lia).
  assert (data = take (Z.to_nat chunk) (drop (Z.to_nat off) (contents h rootl f l))) as Ed by (unfold data, part; by rewrite Z.min_l by lia).
  destruct (Z.eqb_spec (len data) 0) as [H0|H0].
  - assert (drop (Z.to_nat off) (contents h rootl f l) = []) as ->; [|rewrite app_nil_r; apply eff_ret].
    apply nil_length_inv. apply (f_equal length) in Ed. rewrite length_take in Ed. unfold len in H0. lia.
  - replace (4 + len data - 4 <? len data) with false by lia.
    assert (slice (le_put 4 (len data) ++ data) 4 (Z.to_nat (4 + len data)) = data) as ->.
    { unfold slice. rewrite drop_app_length' by (by rewrite le_put_length). apply take_ge. unfold len. lia. }
    assert (len data <= len (contents h rootl f l) - off) as Hle.
    { rewrite Ed. unfold len. rewrite length_take, length_drop. unfold len in Ho. lia. }
    unfold u64. rewrite Z.mod_small by lia.
    replace (out ++ drop (Z.to_nat off) (contents h rootl f l)) with ((out ++ data) ++ drop (Z.to_nat (off + len data)) (contents h rootl f l)).
    + apply IH; [lia|]. unfold len in *. lia.
    + rewrite <- app_assoc. f_equal. replace (Z.to_nat (off + len data)) with (Z.to_nat off + length data)%nat by (unfold len in *; lia).
      rewrite <- drop_drop. rewrite Ed at 1 2. rewrite length_take.
      destruct (decide (Z.to_nat chunk <= length (drop (Z.to_nat off) (contents h rootl f l))))%nat.
      * rewrite Nat.min_l by lia. apply take_drop.
      * rewrite Nat.min_r, drop_all, app_nil_r by lia. rewrite take_ge by lia. done.
Qed.

Lemma eff_readAll fuel fid l o n T : 0 <= fid < 2 ^ 32 -> T !! fid = Some (fid_at f l o) -> is_Some (node_at f (rootl ++ l)) ->
  len (contents h rootl f l) < 2 ^ 63 -> (length (contents h rootl f l) < fuel)%nat ->
  eff m sm v (readAll (served h s) fuel fid) n T f (Ok (contents h rootl f l)) n T f.
Proof.
  intros Hf HT Hn Hl Hfuel. unfold readAll. apply eff_msize. apply (eff_readAll_loop fuel fid l o n T (read_chunk m) 0 []); try done.
  - unfold read_chunk, u32. rewrite Z.mod_small by lia. replace (m - 11 =? 0) with false by lia. replace (2 ^ 20 <? m - 11) with false by lia. cbn [orb]. lia.
  - pose proof (len_nonneg (contents h rootl f l)). lia.
Qed.

(** ** Writing *)

Lemma overwrite_end (old data : bytes) : overwrite old (length old) data = old ++ data.
Proof.
  unfold overwrite. destruct data as [|x data]; [by rewrite app_nil_r|].
  rewrite firstn_all, Nat.sub_diag, drop_ge by (cbn; lia). by rewrite app_nil_r.
Qed.

Lemma handleWrite_file fid st l old off data T : 0 <= fid < 2 ^ 32 -> T !! fid = Some st -> path st = abs_path (rootl ++ l) -> isDir st = false ->
  node_at f (rootl ++ l) = Some (File old) -> 0 <= off -> off + len data < 2 ^ 63 -> len data < 2 ^ 32 ->
  handleWrite h s (mkSession sm v T) f (write_payload fid off data) =
    (Ok (Rwrite, le_put 4 (len data)), mkSession sm v T, <[rootl ++ l := File (overwrite old (Z.to_nat off) data)]> f).
Proof.
  intros Hf HT Hp Hd Hn Ho Hlen Hlen'. pose proof (len_nonneg data). unfold handleWrite, write_payload. rewrite Hro.
  pose proof (io_fields fid off (len data) data Hf ltac:(lia) ltac:(lia)) as (E1 & E2 & E3 & E4 & E5). cbv zeta in *.
  rewrite E1, E2, E3, E4. replace (16 + len data <? 16) with false by lia. cbn [fids]. rewrite HT, Hd, Hp.
  replace (Z.min (len data) (16 + len data - 16)) with (len data) by lia.
  unfold slice. rewrite E5. replace (Z.to_nat (16 + len data) - 16)%nat with (length data) by (unfold len; lia). rewrite take_ge by done.
  unfold os_Create. rewrite (syscall_there h rootl f Hh He) by first [by eapply node_good|by eapply node_settled]. rewrite Hn. cbv beta iota. rewrite Hn.
  cbn [wrapped os_error result_map_err]. rewrite i64_small by lia. unfold os_WriteAt. replace (off <? 0) with false by lia.
  replace (2 ^ 63 <=? off + len data) with false by lia. rewrite Hn, p_room by done. done.
Qed.

Lemma eff_write fid st l old off data n T : 0 <= fid < 2 ^ 32 -> T !! fid = Some st -> path st = abs_path (rootl ++ l) -> isDir st = false ->
  node_at f (rootl ++ l) = Some (File old) -> off = len old -> off + len data < 2 ^ 63 -> len data <= 2 ^ 20 ->
  eff m sm v (rpc (served h s) tWrite (write_payload fid off data)) n T f (Ok (le_put 4 (len data))) n T (<[rootl ++ l := File (old ++ data)]> f).
Proof.
  intros Hf HT Hp Hd Hn -> Hlen Hlen'. pose proof (len_nonneg old). apply (eff_request tWrite _ n T (Ok (Rwrite, le_put 4 (len data)))).
  - unfold write_payload. rewrite !len_app, !len_le_put. lia.
  - done.
  - intros tag. rewrite <- (overwrite_end old data). replace (length old) with (Z.to_nat (len old)) by (unfold len; lia).
    apply (handleWrite_file fid st l); try done; lia.
  - split; [done|]. rewrite len_le_put. lia.
Qed.

Lemma eff_write_dir fid l o off data n T : 0 <= fid < 2 ^ 32 -> T !! fid = Some (fid_at f l o) -> node_at f (rootl ++ l) = Some Dir -> 0 <= off < 2 ^ 64 -> len data <= 2 ^ 20 ->
  eff m sm v (rpc (served h s) tWrite (write_payload fid off data)) n T f (Err (Remote (str "write_to_dir"))) n T f.
Proof.
  intros Hf HT Hn Ho Hlen. pose proof (len_nonneg data). apply (eff_request tWrite _ n T (Err (str "write_to_dir"))).
  - unfold write_payload. rewrite !len_app, !len_le_put. lia.
  - done.
  - intros tag. change (handle h s ?ss f (mkMessage tWrite tag ?p)) with (handleWrite h s ss f p). unfold handleWrite, write_payload. rewrite Hro.
    pose proof (io_fields fid off (len data) data Hf Ho ltac:(lia)) as (E1 & E2 & E3 & E4 & E5). cbv zeta in *.
    rewrite E1, E2, E3, E4. replace (16 + len data <? 16) with false by lia. cbn [fids]. rewrite HT. cbn [fid_at isDir]. unfold is_dir. by rewrite Hn.
  - by vm_compute.
Qed.

(** ** Creating and removing *)

Definition create_request (fid : Z) (nm : bytes) (perm mode : Z) : bytes := le_put 4 fid ++ packString nm ++ le_put 4 perm ++ [mode].

Lemma create_fields fid nm perm mode : 0 <= fid < 2 ^ 32 -> len nm < 2 ^ 15 -> 0 <= perm < 2 ^ 32 ->
  let p := create_request fid nm perm mode in
  field 4 0 p = fid /\ unpackString p 4 = Ok (nm, 6 + len nm) /\ len p = 11 + len nm /\ field 4 (Z.to_nat (6 + len nm)) p = perm.
Proof.
  intros Hf Hn Hp. pose proof (len_nonneg nm). cbv zeta. unfold create_request. split_and!.
  - by apply first_field.
  - pose proof (unpack_packed (le_put 4 fid) nm (le_put 4 perm ++ [mode]) ltac:(lia)) as E. rewrite len_le_put in E. exact E.
  - unfold packString. rewrite !len_app, !len_le_put. change (len [mode]) with 1. lia.
  - rewrite app_assoc. apply field_at; [|done]. unfold packString. rewrite !length_app, !le_put_length. unfold len in *. lia.
Qed.

(** What a create does with the fid of a directory. *)
Lemma handleCreate_dir fid dl nm perm mode T : 0 <= fid < 2 ^ 32 -> T !! fid = Some (fid_at f dl false) -> node_at f (rootl ++ dl) = Some Dir ->
  good nm -> 0 <= perm < 2 ^ 32 ->
  handleCreate h s (mkSession sm v T) f (create_request fid nm perm mode) =
    (let childPath := abs_path (rootl ++ dl ++ [nm]) in
     let dir := negb (Z.land perm permDir =? 0) in
     match (if dir then wrapped (str "mkdir: ") (os_error h childPath (os_Mkdir h f childPath))
            else let* '(_, f) := wrapped (str "create: ") (os_error h childPath (os_Create h true f childPath)) in Ok f) with
     | Err e => (Err e, mkSession sm v T, f)
     | Ok f =>
       match os_error h childPath (os_Stat h f childPath) with
       | Err e => (Err e, mkSession sm v T, f)
       | Ok info =>
         (Ok (Rcreate, qid_bytes (qidFor (join_slash (dl ++ [nm])) info) ++ le_put 4 0),
          mkSession sm v (<[fid := mkFid (join_slash (dl ++ [nm])) childPath true dir]> T), f)
       end
     end).
Proof.
  intros Hf HT Hn Hg Hp. pose proof Hg as ((Hpl & Hz) & Hsep & _ & Hlen). pose proof Hpl as (H1 & H2 & H3 & _). pose proof (len_nonneg nm).
  pose proof (create_fields fid nm perm mode Hf Hlen Hp) as (E1 & E2 & E3 & E4). cbv zeta in *.
  unfold handleCreate. rewrite Hro, E1, E2, E3, E4. replace (11 + len nm <? 4) with false by lia.
  replace (11 + len nm <? 6 + len nm + 5) with false by lia. cbn [fids]. rewrite HT. cbn [fid_at isDir rel]. unfold is_dir at 1. rewrite Hn. cbn [negb].
  destruct (str_eqb_spec nm []); [done|]. destruct (str_eqb_spec nm dot); [done|]. destruct (str_eqb_spec nm dotdot); [done|]. rewrite Hsep. cbn [orb].
  pose proof (node_good rootl f He dl Dir Hn) as Hdl.
  rewrite Join_rel by (try done; by apply names_plain, good_names).
  rewrite (resolve_there h s rootl f) by first [done|apply Forall_app; split; [done|by apply Forall_singleton]|by apply settled_at]. done.
Qed.

Lemma eff_create_ok fid dl nm perm mode nd n T : 0 <= fid < 2 ^ 32 -> T !! fid = Some (fid_at f dl false) -> node_at f (rootl ++ dl) = Some Dir ->
  good nm -> 0 <= perm < 2 ^ 32 -> node_at f (rootl ++ dl ++ [nm]) = None -> nd = (if negb (Z.land perm permDir =? 0) then Dir else File []) ->
  eff m sm v (P9Client.create (served h s) fid nm perm mode) n T f (Ok tt) n
    (<[fid := mkFid (join_slash (dl ++ [nm])) (abs_path (rootl ++ dl ++ [nm])) true (negb (Z.land perm permDir =? 0))]> T) (<[rootl ++ dl ++ [nm] := nd]> f).
Proof.
  intros Hf HT Hn Hg Hp Hnone ->. set (dir := negb (Z.land perm permDir =? 0)). set (nd := if dir then Dir else File []).
  assert (Forall good (dl ++ [nm])) as Hl by (apply Forall_app; split; [by eapply node_good|by apply Forall_singleton]).
  assert (exported rootl (<[rootl ++ dl ++ [nm] := nd]> f)) as He'.
  { apply exported_insert; [done|done|done|by rewrite Hnone|]. by destruct dir. }
  unfold P9Client.create. eapply eff_bind; [|apply eff_ret].
  eapply (eff_request tCreate (create_request fid nm perm mode) n T (Ok (Rcreate, qid_bytes (qidFor (join_slash (dl ++ [nm])) (info h rootl (<[rootl ++ dl ++ [nm] := nd]> f) (dl ++ [nm]))) ++ le_put 4 0))).
  - pose proof (create_fields fid nm perm mode Hf ltac:(apply Hg) Hp) as (_ & _ & E & _). cbv zeta in E. rewrite E. destruct Hg as (_ & _ & _ & Hlen). lia.
  - done.
  - intros tag. change (handle h s ?ss f (mkMessage tCreate tag ?p)) with (handleCreate h s ss f p). rewrite (handleCreate_dir fid dl) by done.
    cbv zeta. fold dir.
    assert ((if dir then wrapped (str "mkdir: ") (os_error h (abs_path (rootl ++ dl ++ [nm])) (os_Mkdir h f (abs_path (rootl ++ dl ++ [nm]))))
      else let* '(_, f) := wrapped (str "create: ") (os_error h (abs_path (rootl ++ dl ++ [nm])) (os_Create h true f (abs_path (rootl ++ dl ++ [nm])))) in Ok f) =
      Ok (<[rootl ++ dl ++ [nm] := nd]> f)) as ->.
    { unfold os_Mkdir, os_Create. rewrite !(syscall_there h rootl f Hh He) by first [done|by apply settled_at]. rewrite Hnone. unfold nd. by destruct dir. }
    rewrite (stat_there h rootl _ Hh He' (dl ++ [nm]) nd); [done|]. rewrite app_assoc. apply node_at_insert. clear. by destruct rootl, dl.
  - split; [done|]. rewrite len_app, len_qid, len_le_put. lia.
Qed.

(** A directory where there is something already. *)
Lemma eff_mkdir_exists fid dl nm mode nd n T : 0 <= fid < 2 ^ 32 -> T !! fid = Some (fid_at f dl false) -> node_at f (rootl ++ dl) = Some Dir ->
  good nm -> node_at f (rootl ++ dl ++ [nm]) = Some nd ->
  eff m sm v (P9Client.create (served h s) fid nm (Z.lor permDir 493) mode) n T f
    (Err (Remote (str "mkdir: " ++ h_text h EEXIST (abs_path (rootl ++ dl ++ [nm]))))) n T f.
Proof.
  intros Hf HT Hn Hg Hs. unfold P9Client.create. eapply eff_bind_err.
  apply (eff_request tCreate (create_request fid nm (Z.lor permDir 493) mode) n T (Err (str "mkdir: " ++ h_text h EEXIST (abs_path (rootl ++ dl ++ [nm]))))).
  - pose proof (create_fields fid nm (Z.lor permDir 493) mode Hf ltac:(apply Hg) ltac:(done)) as (_ & _ & E & _). cbv zeta in E. rewrite E. destruct Hg as (_ & _ & _ & Hlen). lia.
  - done.
  - intros tag. change (handle h s ?ss f (mkMessage tCreate tag ?p)) with (handleCreate h s ss f p). rewrite (handleCreate_dir fid dl) by done.
    cbv zeta. change (negb (Z.land (Z.lor permDir 493) permDir =? 0)) with true. cbv iota. unfold os_Mkdir.
    rewrite (syscall_there h rootl f Hh He) by first [by eapply node_good|by eapply node_settled]. by rewrite Hs.
  - rewrite len_app. pose proof (p_text h Hh EEXIST (abs_path (rootl ++ dl ++ [nm]))). change (len (str "mkdir: ")) with 7. lia.
Qed.

(** A name below a file. *)
Lemma eff_create_below fid dl nm perm mode content n T : 0 <= fid < 2 ^ 32 -> T !! fid = Some (fid_at f dl false) -> node_at f (rootl ++ dl) = Some (File content) ->
  good nm -> 0 <= perm < 2 ^ 32 ->
  eff m sm v (P9Client.create (served h s) fid nm perm mode) n T f (Err (Remote (str "create_in_non_dir"))) n T f.
Proof.
  intros Hf HT Hn Hg Hp. unfold P9Client.create. eapply eff_bind_err.
  pose proof (create_fields fid nm perm mode Hf ltac:(apply Hg) Hp) as (E1 & E2 & E3 & E4). cbv zeta in *.
  destruct Hg as (_ & _ & _ & Hlen). pose proof (len_nonneg nm).
  apply (eff_request tCreate (create_request fid nm perm mode) n T (Err (str "create_in_non_dir"))); [lia|done| |by vm_compute].
  intros tag. change (handle h s ?ss f (mkMessage tCreate tag ?p)) with (handleCreate h s ss f p). unfold handleCreate.
  rewrite Hro, E1, E2, E3. replace (11 + len nm <? 4) with false by lia. replace (11 + len nm <? 6 + len nm + 5) with false by lia.
  cbn [fids]. rewrite HT. cbn [fid_at isDir]. unfold is_dir. by rewrite Hn.
Qed.

Lemma eff_remove fid l n T : 0 <= fid < 2 ^ 32 -> T !! fid = Some (fid_at f l false) -> is_Some (node_at f (rootl ++ l)) ->
  eff m sm v (remove (served h s) fid) n T f (match spec_remove h rootl f l with Ok _ => Ok tt | Err e => Err (Remote e) end) n (delete fid T)
    (match spec_remove h rootl f l with Ok f' => f' | Err _ => f end).
Proof.
  intros Hf HT [nd Hn]. pose proof (node_good rootl f He l nd Hn) as Hl. pose proof (names_plain _ (good_names _ Hl)) as Hp.
  assert (handleRemove h s (mkSession sm v T) f (le_put 4 fid) =
    (match spec_remove h rootl f l with Ok _ => Ok (Rremove, []) | Err e => Err e end, mkSession sm v (delete fid T),
     match spec_remove h rootl f l with Ok f' => f' | Err _ => f end)) as Hr.
  { unfold handleRemove. rewrite len_le_put. change (Z.of_nat 4 <? 4) with false. cbv iota. rewrite only_field by done. cbn [fids]. rewrite HT, Hro. cbn [fid_at rel path].
    destruct l as [|c l]; [done|]. destruct (str_eqb_spec (join_slash (c :: l)) []) as [E|_]; [by apply (join_slash_inj _ []) in E|].
    unfold os_Remove. rewrite (syscall_there h rootl f Hh He) by first [done|by eapply node_settled]. rewrite Hn. cbn [spec_remove]. rewrite Hn.
    destruct (rootl ++ c :: l) as [|x r] eqn:E; [by destruct rootl|]. cbv beta iota. destruct nd; [done| |done]. by destruct (children f (x :: r)). }
  unfold remove. destruct (spec_remove h rootl f l) as [f'|e] eqn:Es.
  - eapply eff_bind; [|apply eff_ret]. apply (eff_request tRemove _ n T (Ok (Rremove, []))); [rewrite len_le_put; lia|done|intros tag; exact Hr|by vm_compute].
  - eapply eff_bind_err. apply (eff_request tRemove _ n T (Err e)); [rewrite len_le_put; lia|done|intros tag; exact Hr|].
    assert (len (str "remove: " ++ h_text h ENOTEMPTY (abs_path (rootl ++ l))) < 2 ^ 16) as Hlen.
    { rewrite len_app. pose proof (p_text h Hh ENOTEMPTY (abs_path (rootl ++ l))). change (len (str "remove: ")) with 8. lia. }
    revert Es. unfold spec_remove. destruct l as [|c l]; [intros [= <-]; by vm_compute|]. repeat case_match; intros [= <-]. exact Hlen.
Qed.

End OneTree.
End Requests.
End P9ClientOps.
