(* ===== verification/P9ClientRefines.v ===== *)
(** * The 9P client and server implement the file operations

    Every high-level operation of the client, run against the server on an
    exported tree, does what P9Export.v says it means. *)

From S2P Require Import Prelude GoStrings GoFs GoFsProofs GoFsOpsProofs P9Server P9ServerProofs P9Claims P9Client P9ClientProofs P9Export P9ExportProofs P9ClientOps.

Module P9ClientRefines.
Import P9Client GoStrings GoFs GoFsProofs GoFsOpsProofs P9Server P9ServerProofs P9Claims P9ClientProofs P9Export P9ExportProofs P9ClientOps.

(** ** Paths of the client *)

Lemma join_names_slash l : join_names l = join_slash l.
Proof. induction l as [|x l IH]; [done|]. destruct l; [done|]. cbn [join_names join_slash] in *. by rewrite IH. Qed.

Lemma trim_left_plain p : IsAbs p = false -> trim_left_slash p = p.
Proof. destruct p as [|c p]; [done|]. cbn. unfold slash. by intros ->. Qed.

Lemma join_slash_end l : Forall plain l -> l <> [] -> exists p x, join_slash l = p ++ [x] /\ x <> slash.
Proof.
  intros Hl Hne. destruct l as [|c l _] using rev_ind; [done|]. apply Forall_app in Hl as [_ [(Hc & _ & _ & Hs) _]%Forall_cons].
  destruct c as [|x c _] using rev_ind; [done|]. assert (x <> slash) as Hx by (intros ->; apply Hs; apply elem_of_app; right; by left).
  destruct (decide (l = [])) as [->|]; [by exists c, x|]. exists (join_slash l ++ slash :: c), x. split; [|done].
  rewrite join_slash_snoc by done. by rewrite <- app_assoc.
Qed.

Lemma trim_slash_join l : Forall plain l -> trim_slash (join_slash l) = join_slash l.
Proof.
  intros Hl. unfold trim_slash. rewrite (trim_left_plain (join_slash l)) by (by apply join_relative). destruct (decide (l = [])) as [->|Hne]; [done|].
  destruct (join_slash_end l Hl Hne) as (p & x & E & Hx). rewrite E, rev_app_distr. cbn [rev app trim_left_slash].
  replace (x =? 47) with false by (unfold slash in *; lia). cbn [rev]. by rewrite rev_involutive.
Qed.

Lemma splitPath_join l : Forall plain l -> splitPath (join_slash l) = l.
Proof.
  intros Hl. unfold splitPath. rewrite trim_slash_join by done. destruct (str_eqb_spec (join_slash l) []) as [E|Hne].
  - by apply (join_slash_inj _ []) in E.
  - rewrite split_slash_join; [|by apply plain_no_slash|by intros ->]. clear Hne.
    induction Hl as [|c l (H1 & H2 & _) Hl IH]; [done|]. cbn [List.filter].
    destruct (str_eqb_spec c []); [done|]. destruct (str_eqb_spec c [46]); [done|]. cbn. by rewrite IH.
Qed.

Lemma splitParent_snoc path dl nm : splitPath path = dl ++ [nm] -> splitParent path = (join_slash dl, nm).
Proof. intros E. unfold splitParent. rewrite E, last_snoc, removelast_last. by rewrite join_names_slash. Qed.

Lemma fits_prefix a b : fits (a ++ b) -> fits a.
Proof.
  unfold fits. rewrite fmap_app, concat_app, !len_app. pose proof (len_nonneg b). pose proof (len_nonneg (concat (packString <$> b))). lia.
Qed.

(** ** Sizes *)

Lemma children_size (f : fs) (l : loc) : (length (children f l) <= size f)%nat.
Proof.
  unfold children. rewrite sort_by_perm, <- size_dom. change (size (dom f)) with (length (elements (dom f))). generalize (elements (dom f)). intros ks.
  induction ks as [|k ks IH]; [cbn; lia|]. cbn. destruct (child_name l k); cbn; lia.
Qed.

Section Refines.
Context (h : host) (s : Server) (m sm : Z) (v : bytes) (rootl : loc).
Context (Hh : polite h) (Hroot : root s = abs_path rootl) (Hro : readOnly s = false) (Hm : 24 <= m <= 2 ^ 20).

Definition small (f : fs) : Prop := Z.of_nat (size f) < 2 ^ 46.

Lemma contents_small f l : exported rootl f -> small f -> is_Some (node_at f (rootl ++ l)) -> len (contents h rootl f l) < 2 ^ 63.
Proof.
  intros He Hs [nd Hn]. unfold contents. rewrite Hn. destruct nd as [content| |t]; [by apply (e_files _ _ He l)| |by apply (e_links _ _ He) in Hn].
  assert (len (listing h rootl f l) <= 2 ^ 16 * Z.of_nat (length (children f (rootl ++ l)))) as Hl.
  { unfold listing. assert (forall c, c ∈ children f (rootl ++ l) -> is_Some (node_at f (rootl ++ l ++ [c]))) as Hall by apply child_there.
    induction (children f (rootl ++ l)) as [|c cs IH]; [done|]. cbn [fmap list_fmap concat length]. rewrite len_app.
    destruct (Hall c) as [nd Hc]; [by left|]. pose proof (info_entry h rootl Hh f He _ _ Hc) as [(_ & _ & Hlen) _].
    rewrite len_statBytes. specialize (IH ltac:(intros d Hd; apply Hall; by right)). cbn [fmap] in IH. unfold fmap, list_fmap in IH |- *. lia. }
  pose proof (children_size f (rootl ++ l)). unfold small in Hs. lia.
Qed.

(** ** Writing a file in chunks *)

Lemma eff_writeAll_loop fuel fid st l chunk old data n T f : exported rootl f -> 0 <= fid < 2 ^ 32 -> T !! fid = Some st ->
  path st = abs_path (rootl ++ l) -> isDir st = false -> node_at f (rootl ++ l) = Some (File old) -> 1 <= chunk <= 2 ^ 20 ->
  len old + len data < 2 ^ 63 -> (length data < fuel)%nat ->
  eff m sm v (writeAll_loop (served h s) fuel fid chunk (len old) data) n T f (Ok tt) n T (<[rootl ++ l := File (old ++ data)]> f).
Proof.
  intros He Hf HT Hp Hd. revert old data f He. induction fuel as [|fuel IH]; intros old data f He Hn Hc Hlen Hfuel; [lia|]. cbn [writeAll_loop].
  destruct (file_place rootl f He l old Hn) as (dl & c & El & _).
  destruct data as [|x data].
  { rewrite app_nil_r, insert_id; [apply eff_ret|]. rewrite El in Hn |- *. by rewrite node_at_below in Hn. }
  set (d := x :: data) in *. set (k := Z.min (len d) chunk). assert (1 <= len d) as H1 by (unfold d, len; cbn [length]; lia).
  pose proof (len_nonneg old). assert (len (take (Z.to_nat k) d) = k) as Hk by (unfold len in *; rewrite length_take; lia).
  eapply eff_bind.
  { rewrite <- Hk at 1. apply (eff_write h s m sm v rootl Hh Hro f He fid st l old); try done; rewrite Hk; lia. }
  cbv beta. rewrite len_le_put. change (Z.of_nat 4 <? 4) with false. cbv iota.
  change (P9Client.field ?a ?b ?e) with (field a b e). rewrite only_field, Hk by (rewrite Hk; cbn; lia).
  replace (k <=? 0) with false by lia. rewrite Z.min_id. unfold u64. rewrite Z.mod_small by lia.
  replace (len old + k) with (len (old ++ take (Z.to_nat k) d)) by (rewrite len_app; lia).
  replace (<[rootl ++ l := File (old ++ d)]> f) with (<[rootl ++ l := File ((old ++ take (Z.to_nat k) d) ++ drop (Z.to_nat k) d)]> (<[rootl ++ l := File (old ++ take (Z.to_nat k) d)]> f)).
  - apply IH; [|by eapply node_rewritten|done| |].
    + eapply exported_rewrite; [done|done|]. rewrite len_app. lia.
    + rewrite len_app, Hk. unfold len in *. rewrite length_drop. lia.
    + rewrite length_drop. unfold len in *. lia.
  - rewrite insert_insert_eq, <- app_assoc, take_drop. done.
Qed.

Lemma eff_writeAll fid st l data n T f : exported rootl f -> 0 <= fid < 2 ^ 32 -> T !! fid = Some st ->
  path st = abs_path (rootl ++ l) -> isDir st = false -> node_at f (rootl ++ l) = Some (File []) -> len data < 2 ^ 63 ->
  eff m sm v (writeAll (served h s) fid data) n T f (Ok tt) n T (<[rootl ++ l := File data]> f).
Proof.
  intros He Hf HT Hp Hd Hn Hlen. unfold writeAll. apply eff_msize.
  apply (eff_writeAll_loop _ fid st l (write_chunk m) []); try done; [|lia].
  unfold write_chunk. replace (m - 23 <=? 0) with false by lia. replace (2 ^ 20 <? m - 23) with false by lia. cbn [orb]. lia.
Qed.

(** ** The operations *)

Local Notation "'let!' x := e 'in' k" := (bind e (fun x => k)) (at level 10, x name, e at level 200, k at level 200).

Definition run_op (fuel : nat) (o : op) : M (St := session * fs) reply :=
  match o with
  | DoRead path => let! b := ReadFile (served h s) fuel path in ret (Data b)
  | DoList path => let! l := List_ (served h s) fuel path in ret (Entries l)
  | DoStat path => let! e := Stat (served h s) path in ret (Entry e)
  | DoWrite path data => let! _ := WriteFile (served h s) path data in ret Done
  | DoMkdir path => let! _ := Mkdir (served h s) path in ret Done
  | DoRemove path => let! _ := Remove (served h s) path in ret Done
  end.

Definition good_path (path : bytes) : Prop := Forall good (splitPath path) /\ fits (splitPath path).

Definition root_fid : fidState := mkFid [] (abs_path rootl) false true.

Lemma root_fid_at f : exported rootl f -> fid_at rootl f [] false = root_fid.
Proof. intros He. unfold fid_at, root_fid. by rewrite (root_is_dir rootl f He), app_nil_r. Qed.

(** The table of fids between operations: the root, and nothing from [n] on. *)
Definition idle (n : Z) (T : gmap Z fidState) : Prop := T !! 0 = Some root_fid /\ forall k, n <= k -> T !! k = None.

Section OneOp.
Context (f : fs) (He : exported rootl f) (n : Z) (T : gmap Z fidState) (HT : idle n T) (Hn : 1 <= n) (Hn2 : n + 2 < 2 ^ 32).

Lemma walk_op path : good_path path ->
  eff m sm v (P9Client.walk (served h s) path) n T f
    (match look h rootl f [] (splitPath path) with Ok _ => Ok n | Err e => Err (Remote e) end) (n + 1)
    (match look h rootl f [] (splitPath path) with Ok l => <[n := fid_at rootl f l false]> T | Err _ => T end) f.
Proof. intros [Hg Hf]. apply eff_walk; try done; [|lia..]. rewrite root_fid_at by done. apply HT. Qed.

Lemma free_n x : delete n (<[n := x]> T) = T.
Proof. apply delete_insert_id. apply HT. lia. Qed.

(** An operation on the node a path leads to, between its walk and its clunk. *)
Lemma eff_at {A} path (k : Z -> M A) (r : loc -> result cerror A) T' : good_path path ->
  (forall l, look h rootl f [] (splitPath path) = Ok l -> is_Some (node_at f (rootl ++ l)) -> r l <> Err Running /\ 
     exists x, T' l = <[n := x]> T /\ eff m sm v (k n) (n + 1) (<[n := fid_at rootl f l false]> T) f (r l) (n + 1) (T' l) f) ->
  eff m sm v (let! fid := P9Client.walk (served h s) path in deferred (served h s) fid (k fid)) n T f
    (let* l := remote (look h rootl f [] (splitPath path)) in r l) (n + 1) T f.
Proof.
  intros Hp Hk. pose proof (walk_op path Hp) as Hw. destruct (look h rootl f [] (splitPath path)) as [l|e] eqn:El; cbn [remote result_map_err result_bind].
  - destruct (look_found _ _ _ _ _ _ El (root_there rootl f He)) as [_ Hnode]. destruct (Hk l eq_refl Hnode) as (Hr & x & Ex & Hop).
    eapply eff_bind; [exact Hw|]. cbv beta. rewrite <- (free_n x) at 2. rewrite <- Ex. apply eff_deferred; [lia|done|done].
  - by eapply eff_bind_err.
Qed.

Lemma opened_read l : is_Some (node_at f (rootl ++ l)) ->
  eff m sm v (open_ (served h s) n OREAD) (n + 1) (<[n := fid_at rootl f l false]> T) f (Ok tt) (n + 1) (<[n := fid_at rootl f l true]> T) f.
Proof.
  intros Hs. pose proof (eff_open h s m sm v rootl Hh Hro f He n OREAD l false (n + 1) (<[n := fid_at rootl f l false]> T) ltac:(lia) ltac:(by left) ltac:(apply lookup_insert_eq) Hs) as H.
  rewrite insert_insert_eq in H. exact H.
Qed.

Lemma eff_DoRead fuel path : small f -> good_path path ->
  (forall l, look h rootl f [] (splitPath path) = Ok l -> (length (contents h rootl f l) < fuel)%nat) ->
  eff m sm v (run_op fuel (DoRead path)) n T f (perform h rootl (DoRead path) f).1 (n + 1) T f.
Proof.
  intros Hs Hp Hfuel. cbn [run_op perform fst]. pose proof (eff_at path (fun fid => let! _ := open_ (served h s) fid OREAD in readAll (served h s) fuel fid)
    (fun l => Ok (contents h rootl f l)) (fun l => <[n := fid_at rootl f l true]> T) Hp) as H.
  assert (eff m sm v (ReadFile (served h s) fuel path) n T f (let* l := remote (look h rootl f [] (splitPath path)) in Ok (contents h rootl f l)) (n + 1) T f) as Hr.
  { apply H. intros l El Hl. split; [done|]. eexists. split; [reflexivity|]. eapply eff_bind; [by apply opened_read|]. cbv beta.
    apply (eff_readAll h s m sm v rootl Hh Hroot Hm f He fuel n l true); [lia|apply lookup_insert_eq|done|by apply contents_small|by apply Hfuel]. }
  destruct (look h rootl f [] (splitPath path)); cbn [remote result_map_err result_bind] in *; [eapply eff_bind; [exact Hr|apply eff_ret]|by eapply eff_bind_err].
Qed.

Lemma eff_DoList fuel path : small f -> good_path path ->
  (forall l, look h rootl f [] (splitPath path) = Ok l -> (length (contents h rootl f l) < fuel)%nat) ->
  eff m sm v (run_op fuel (DoList path)) n T f (perform h rootl (DoList path) f).1 (n + 1) T f.
Proof.
  intros Hs Hp Hfuel. cbn [run_op perform fst].
  set (parsed := fun l => result_map_err P9Client.Failed (parse_entries (S (length (contents h rootl f l))) (contents h rootl f l) 0)).
  assert (eff m sm v (List_ (served h s) fuel path) n T f (let* l := remote (look h rootl f [] (splitPath path)) in parsed l) (n + 1) T f) as Hr.
  { apply (eff_at path _ parsed (fun l => <[n := fid_at rootl f l true]> T) Hp). intros l El Hl.
    split; [unfold parsed; by destruct (parse_entries _ _ _)|]. eexists. split; [reflexivity|]. eapply eff_bind; [by apply opened_read|]. cbv beta.
    eapply eff_bind; [apply (eff_readAll h s m sm v rootl Hh Hroot Hm f He fuel n l true); [lia|apply lookup_insert_eq|done|by apply contents_small|by apply Hfuel]|].
    cbv beta. unfold parsed. destruct (parse_entries _ _ _); [apply eff_ret|apply eff_throw]. }
  destruct (look h rootl f [] (splitPath path)) as [l|e] eqn:El; cbn [remote result_map_err result_bind] in *; [|by eapply eff_bind_err].
  destruct (look_found _ _ _ _ _ _ El (root_there rootl f He)) as [_ [nd Hnd]].
  assert (spec_entries h rootl f l = let* es := parsed l in Ok (Entries es)) as ->.
  { unfold spec_entries, parsed, contents. rewrite Hnd. destruct nd as [content| |t]; [by destruct (parse_entries _ content 0)| |by apply (e_links _ _ He) in Hnd].
    by rewrite parse_listing. }
  destruct (parsed l); [eapply eff_bind; [exact Hr|apply eff_ret]|by eapply eff_bind_err].
Qed.

Lemma eff_DoStat fuel path : good_path path ->
  eff m sm v (run_op fuel (DoStat path)) n T f (perform h rootl (DoStat path) f).1 (n + 1) T f.
Proof.
  intros Hp. cbn [run_op perform fst].
  assert (eff m sm v (Stat (served h s) path) n T f (let* l := remote (look h rootl f [] (splitPath path)) in Ok (entry h rootl f l)) (n + 1) T f) as Hr.
  { apply (eff_at path _ (fun l => Ok (entry h rootl f l)) (fun l => <[n := fid_at rootl f l false]> T) Hp). intros l El Hl.
    split; [done|]. eexists. split; [reflexivity|]. eapply eff_stat; [done|done|lia|apply lookup_insert_eq|done]. }
  destruct (look h rootl f [] (splitPath path)); cbn [remote result_map_err result_bind] in *; [eapply eff_bind; [exact Hr|apply eff_ret]|by eapply eff_bind_err].
Qed.

Lemma eff_DoRemove fuel path : good_path path ->
  eff m sm v (run_op fuel (DoRemove path)) n T f (perform h rootl (DoRemove path) f).1 (n + 1) T (perform h rootl (DoRemove path) f).2.
Proof.
  intros Hp. pose proof (walk_op path Hp) as Hw. cbn [run_op perform]. unfold Remove.
  destruct (look h rootl f [] (splitPath path)) as [l|e] eqn:El; cbn [remote result_map_err result_bind changed fst snd]; [|by do 2 eapply eff_bind_err].
  destruct (look_found _ _ _ _ _ _ El (root_there rootl f He)) as [_ Hnode].
  pose proof (eff_remove h s m sm v rootl Hh Hroot Hro f He n l (n + 1) (<[n := fid_at rootl f l false]> T) ltac:(lia) ltac:(apply lookup_insert_eq) Hnode) as Hr.
  rewrite free_n in Hr. destruct (spec_remove h rootl f l); cbn [changed result_map_err fst snd].
  - eapply eff_bind; [eapply eff_bind; [exact Hw|exact Hr]|apply eff_ret].
  - eapply eff_bind_err. eapply eff_bind; [exact Hw|exact Hr].
Qed.

(** Operations in the parent of a path. *)
Lemma look_app (l : loc) a b : look h rootl f l (a ++ b) = let* l' := look h rootl f l a in look h rootl f l' b.
Proof.
  revert l. induction a as [|c a IH]; intros l; [done|]. cbn [app look].
  destruct (node_at f (rootl ++ l)) as [[]|]; try done. destruct (node_at f (rootl ++ l ++ [c])); [apply IH|done].
Qed.

Lemma path_cases path : good_path path -> splitPath path = [] /\ splitParent path = ([], []) \/
  exists dl nm, splitPath path = dl ++ [nm] /\ splitParent path = (join_slash dl, nm) /\ splitPath (join_slash dl) = dl /\
    good nm /\ good_path (join_slash dl) /\ str_eqb nm [] = false.
Proof.
  intros [Hg Hf]. destruct (splitPath path) as [|nm dl _] eqn:E using rev_ind; [left; unfold splitParent; by rewrite E|]. right. exists dl, nm.
  apply Forall_app in Hg as [Hdl [Hnm _]%Forall_cons]. assert (splitPath (join_slash dl) = dl) as Es by (by apply splitPath_join, names_plain, good_names).
  split_and!; try done; [by apply splitParent_snoc| |].
  - unfold good_path. rewrite Es. split; [done|by apply fits_prefix in Hf].
  - destruct (str_eqb_spec nm []) as [->|]; [by destruct Hnm as (((? & _) & _) & _)|done].
Qed.

Lemma eff_in_parent (path : bytes) (k : Z -> bytes -> M unit) (change : loc -> bytes -> result bytes fs) (bump : Z) : good_path path -> 0 <= bump <= 1 ->
  (forall dl nm, splitPath path = dl ++ [nm] -> good nm -> look h rootl f [] dl = Ok dl -> is_Some (node_at f (rootl ++ dl)) ->
     exists x, eff m sm v (k n nm) (n + 1) (<[n := fid_at rootl f dl false]> T) f (match change dl nm with Ok _ => Ok tt | Err e => Err (Remote e) end) (n + 1 + bump)
       (<[n := x]> T) (match change dl nm with Ok f' => f' | Err _ => f end)) ->
  exists n', n <= n' <= n + 2 /\
  eff m sm v (let! _ := (let (dir, name) := splitParent path in
     if str_eqb name [] then (fun st => (Err (InvalidPath path), st)) else
     let! parent := walking dir (P9Client.walk (served h s) dir) in deferred (served h s) parent (k parent name)) in ret Done) n T f
    (changed f (in_parent h rootl f path change)).1 n' T (changed f (in_parent h rootl f path change)).2.
Proof.
  intros Hp Hb Hk. unfold in_parent. destruct (path_cases path Hp) as [[E ->]|(dl & nm & E & -> & Es & Hg & Hpd & ->)].
  { exists n. split; [lia|]. rewrite str_eqb_refl. cbn [changed fst snd]. eapply eff_bind_err. intros t. by exists t. }
  pose proof (walk_op (join_slash dl) Hpd) as Hw. rewrite Es in Hw |- *.
  destruct (look h rootl f [] dl) as [l|e] eqn:El; cbn [remote result_map_err result_bind].
  - destruct (look_found _ _ _ _ _ _ El (root_there rootl f He)) as [-> Hnode]. cbn [app] in *.
    destruct (Hk dl nm E Hg El Hnode) as [x Hx]. exists (n + 1 + bump). split; [lia|].
    assert (eff m sm v (let! parent := walking (join_slash dl) (P9Client.walk (served h s) (join_slash dl)) in deferred (served h s) parent (k parent nm)) n T f
      (match change dl nm with Ok _ => Ok tt | Err e => Err (Remote e) end) (n + 1 + bump) T (match change dl nm with Ok f' => f' | Err _ => f end)) as H.
    { eapply eff_bind; [eapply eff_bind; [eapply eff_try; [|exact Hw]; done|apply eff_returned]|]. cbn [result_map_err].
      rewrite <- (free_n x) at 2. apply eff_deferred; [lia|by destruct (change dl nm)|done]. }
    destruct (change dl nm); cbn [remote result_map_err changed fst snd]; [eapply eff_bind; [exact H|apply eff_ret]|by eapply eff_bind_err].
  - exists (n + 1). split; [lia|]. cbn [changed fst snd]. do 2 eapply eff_bind_err. eapply eff_bind; [eapply eff_try; [|exact Hw]; done|]. apply eff_returned.
Qed.

Lemma eff_DoMkdir fuel path : good_path path -> exists n', n <= n' <= n + 2 /\
  eff m sm v (run_op fuel (DoMkdir path)) n T f (perform h rootl (DoMkdir path) f).1 n' T (perform h rootl (DoMkdir path) f).2.
Proof.
  intros Hp. cbn [run_op perform]. apply (eff_in_parent path (fun parent name => P9Client.create (served h s) parent name (Z.lor permDir 493) OREAD) _ 0); [done|lia|].
  intros dl nm E Hg El [nd Hnd]. rewrite Z.add_0_r. assert (0 <= Z.lor permDir 493 < 2 ^ 32) as Hperm by done. unfold spec_mkdir. rewrite Hnd.
  assert ((<[n := fid_at rootl f dl false]> T) !! n = Some (fid_at rootl f dl false)) as HTn by apply lookup_insert_eq.
  destruct nd as [content| |t]; [| |by apply (e_links _ _ He) in Hnd].
  - eexists. eapply eff_create_below; try done. lia.
  - destruct (node_at f (rootl ++ dl ++ [nm])) as [nd|] eqn:Ec.
    + eexists. eapply eff_mkdir_exists; try done. lia.
    + pose proof (eff_create_ok h s m sm v rootl Hh Hroot Hro f He n dl nm (Z.lor permDir 493) OREAD Dir (n + 1) _ ltac:(lia) HTn Hnd Hg Hperm Ec eq_refl) as H.
      rewrite insert_insert_eq in H. eexists. exact H.
Qed.

(** A file that is there: opened, truncated and written through its own fid. *)
Lemma write_existing T1 l data nd : T1 !! (n + 1) = None -> node_at f (rootl ++ l) = Some nd -> len data < 2 ^ 63 ->
  eff m sm v (deferred (served h s) (n + 1) (let! _ := open_ (served h s) (n + 1) (Z.lor OWRITE OTRUNC) in writeAll (served h s) (n + 1) data))
    (n + 2) (<[n + 1 := fid_at rootl f l false]> T1) f
    (match nd, data with Dir, _ :: _ => Err (Remote (str "write_to_dir")) | _, _ => Ok tt end) (n + 2) T1
    (match nd with File _ => <[rootl ++ l := File data]> f | _ => f end).
Proof.
  intros Hfree Hnd Hlen. replace T1 with (delete (n + 1) (<[n + 1 := fid_at rootl f l true]> T1)) at 2 by (by apply delete_insert_id).
  apply eff_deferred; [lia|by destruct nd, data|].
  pose proof (eff_open h s m sm v rootl Hh Hro f He (n + 1) (Z.lor OWRITE OTRUNC) l false (n + 2) (<[n + 1 := fid_at rootl f l false]> T1) ltac:(lia) ltac:(by right)
    ltac:(apply lookup_insert_eq) ltac:(by rewrite Hnd)) as Ho.
  rewrite insert_insert_eq in Ho. change (Z.lor OWRITE OTRUNC =? OREAD) with false in Ho. cbv iota in Ho. eapply eff_bind; [exact Ho|]. cbv beta.
  unfold truncated. rewrite Hnd. destruct nd as [old| |t]; [| |by apply (e_links _ _ He) in Hnd].
  - rewrite <- (insert_insert_eq f (rootl ++ l) (File data) (File [])).
    eapply eff_writeAll; [by eapply exported_rewrite|lia|apply lookup_insert_eq|done|unfold fid_at, is_dir; cbn; by rewrite Hnd|by eapply node_rewritten|done].
  - unfold writeAll. apply eff_msize. destruct data as [|x data]; [apply eff_ret|]. cbn [length writeAll_loop]. set (d := x :: data).
    eapply eff_bind_err. set (k := Z.min (len d) (write_chunk m)).
    assert (1 <= write_chunk m <= 2 ^ 20) as Hc.
    { unfold write_chunk. replace (m - 23 <=? 0) with false by lia. replace (2 ^ 20 <? m - 23) with false by lia. cbn [orb]. lia. }
    pose proof (len_nonneg d). assert (len (take (Z.to_nat k) d) = k) as Hk by (unfold len in *; rewrite length_take; lia).
    rewrite <- Hk at 1. eapply eff_write_dir; [done|lia|apply lookup_insert_eq|done|lia|lia].
Qed.

(** A file that is not: created in its parent, whose fid becomes the file's. *)
Lemma write_new dl nm data : node_at f (rootl ++ dl) = Some Dir -> good nm -> node_at f (rootl ++ dl ++ [nm]) = None -> len data < 2 ^ 63 ->
  exists x, eff m sm v (let! _ := P9Client.create (served h s) n nm 420 (Z.lor OWRITE OTRUNC) in writeAll (served h s) n data) (n + 2)
    (<[n := fid_at rootl f dl false]> T) f (Ok tt) (n + 2) (<[n := x]> T) (<[rootl ++ dl ++ [nm] := File data]> f).
Proof.
  intros Hd Hg Hnone Hlen. eexists.
  pose proof (eff_create_ok h s m sm v rootl Hh Hroot Hro f He n dl nm 420 (Z.lor OWRITE OTRUNC) (File []) (n + 2) (<[n := fid_at rootl f dl false]> T) ltac:(lia)
    ltac:(apply lookup_insert_eq) Hd Hg ltac:(done) Hnone eq_refl) as H.
  rewrite insert_insert_eq in H. eapply eff_bind; [exact H|]. cbv beta.
  rewrite <- (insert_insert_eq f (rootl ++ dl ++ [nm]) (File data) (File [])).
  eapply eff_writeAll; [|lia|apply lookup_insert_eq|done|done| |done].
  - apply exported_insert; try done. by rewrite Hnone.
  - rewrite app_assoc. apply node_at_insert. clear. by destruct rootl, dl.
Qed.

Lemma eff_DoWrite fuel path data : good_path path -> len data < 2 ^ 63 -> exists n', n <= n' <= n + 2 /\
  eff m sm v (run_op fuel (DoWrite path data)) n T f (perform h rootl (DoWrite path data) f).1 n' T (perform h rootl (DoWrite path data) f).2.
Proof.
  intros Hp Hlen. cbn [run_op perform].
  apply (eff_in_parent path (fun parent name => let! child := try_ (P9Client.walk (served h s) path) in
    match child with
    | Ok child => deferred (served h s) child (let! _ := open_ (served h s) child (Z.lor OWRITE OTRUNC) in writeAll (served h s) child data)
    | Err _ => let! _ := P9Client.create (served h s) parent name 420 (Z.lor OWRITE OTRUNC) in writeAll (served h s) parent data
    end) _ 1); [done|lia|].
  intros dl nm E Hg El [nd Hnd]. replace (n + 1 + 1) with (n + 2) by lia. set (T1 := <[n := fid_at rootl f dl false]> T).
  assert (T1 !! 0 = Some (fid_at rootl f [] false)) as H0 by (unfold T1; rewrite lookup_insert_ne by lia; rewrite root_fid_at by done; apply HT).
  assert (T1 !! (n + 1) = None) as H1 by (unfold T1; rewrite lookup_insert_ne by lia; apply HT; lia).
  pose proof (eff_walk h s m sm v rootl Hh Hroot f He path (n + 1) T1 ltac:(apply Hp) ltac:(apply Hp) H0 ltac:(lia) ltac:(lia)) as Hw.
  replace (n + 1 + 1) with (n + 2) in Hw by lia. rewrite E in Hw. rewrite look_app, El in Hw. cbn [result_bind look] in Hw. unfold spec_write. rewrite Hnd in Hw |- *.
  assert (T1 !! n = Some (fid_at rootl f dl false)) as HTn by apply lookup_insert_eq.
  destruct nd as [content| |t]; [| |by apply (e_links _ _ He) in Hnd].
  - eexists. eapply eff_bind; [eapply eff_try; [|exact Hw]; done|]. cbv beta. eapply eff_bind_err. eapply eff_create_below; try done. lia.
  - destruct (node_at f (rootl ++ dl ++ [nm])) as [nd|] eqn:Ec.
    + exists (fid_at rootl f dl false). eapply eff_bind; [eapply eff_try; [|exact Hw]; done|]. cbv beta iota.
      pose proof (write_existing T1 (dl ++ [nm]) data nd H1 Ec Hlen) as H. destruct nd as [old| |t]; [exact H|by destruct data|by apply (e_links _ _ He) in Ec].
    + destruct (write_new dl nm data Hnd Hg Ec Hlen) as [x Hx]. exists x. eapply eff_bind; [eapply eff_try; [|exact Hw]; done|]. exact Hx.
Qed.

End OneOp.
(** ** Any sequence of operations *)

Definition good_op (o : op) : Prop :=
  match o with
  | DoRead path | DoList path | DoStat path | DoMkdir path | DoRemove path => good_path path
  | DoWrite path data => good_path path /\ len data < 2 ^ 63
  end.

Lemma spec_write_exported f dl nm data f' : exported rootl f -> good nm -> len data < 2 ^ 63 -> spec_write rootl f dl nm data = Ok f' -> exported rootl f' /\ (size f' <= size f + 1)%nat.
Proof.
  intros He Hg Hl. unfold spec_write. destruct (node_at f (rootl ++ dl)) as [[]|] eqn:Ed; try done.
  assert (node_at f (rootl ++ dl ++ [nm]) <> Some Dir -> exported rootl (<[rootl ++ dl ++ [nm] := File data]> f) /\ (size (<[rootl ++ dl ++ [nm] := File data]> f) <= size f + 1)%nat) as Hi.
  { intros Hne. split; [by apply exported_insert|]. rewrite map_size_insert. case_match; unfold id; lia. }
  destruct (node_at f (rootl ++ dl ++ [nm])) as [[]|]; try (intros [= <-]; by apply Hi). destruct data; [|done]. intros [= <-]. split; [done|lia].
Qed.

Lemma spec_mkdir_exported f dl nm f' : exported rootl f -> good nm -> spec_mkdir h rootl f dl nm = Ok f' -> exported rootl f' /\ (size f' <= size f + 1)%nat.
Proof.
  intros He Hg. unfold spec_mkdir. destruct (node_at f (rootl ++ dl)) as [[]|] eqn:Ed; try done.
  destruct (node_at f (rootl ++ dl ++ [nm])) as [[]|] eqn:Ec; try done. intros [= <-]. split; [by apply exported_insert|]. rewrite map_size_insert. case_match; unfold id; lia.
Qed.

Lemma spec_remove_exported f l f' : exported rootl f -> spec_remove h rootl f l = Ok f' -> exported rootl f' /\ (size f' <= size f + 1)%nat.
Proof.
  intros He. destruct l as [|c l _] using rev_ind; [done|]. unfold spec_remove. destruct (l ++ [c]) as [|x r] eqn:E; [by destruct l|]. rewrite <- E. intros Hr.
  assert (f' = delete (rootl ++ l ++ [c]) f /\ (node_at f (rootl ++ l ++ [c]) = Some Dir -> children f (rootl ++ l ++ [c]) = [])) as [-> Hc].
  { destruct (node_at f (rootl ++ l ++ [c])) as [[]|]; try (by injection Hr as <-). destruct (children f (rootl ++ l ++ [c])); [by injection Hr as <-|done]. }
  split; [by apply exported_delete|]. rewrite map_size_delete. destruct (f !! (rootl ++ l ++ [c])); unfold id; lia.
Qed.

Lemma in_parent_ok f path change f' : good_path path -> in_parent h rootl f path change = Ok f' -> exists dl nm, good nm /\ change dl nm = Ok f'.
Proof.
  intros Hp. unfold in_parent. destruct (path_cases path Hp) as [[E ->]|(dl & nm & E & -> & Es & Hg & Hpd & ->)]; [by rewrite str_eqb_refl|].
  intros (l & _ & H)%result_bind_ok. destruct (change l nm) as [x|e] eqn:Ec; [|done]. injection H as ->. eauto.
Qed.

Lemma perform_exported o f : exported rootl f -> good_op o -> exported rootl (perform h rootl o f).2 /\ (size (perform h rootl o f).2 <= size f + 1)%nat.
Proof.
  intros He Hg. assert (exported rootl f /\ (size f <= size f + 1)%nat) as Hsame by (split; [done|lia]).
  destruct o as [path|path|path|path data|path|path]; cbn [perform snd good_op] in *; try done; unfold changed.
  - destruct Hg as [Hp Hl]. destruct (in_parent _ _ _ _ _) as [f'|] eqn:E; [|done]. apply in_parent_ok in E as (dl & nm & Hnm & E); [|done]. by eapply spec_write_exported.
  - destruct (in_parent _ _ _ _ _) as [f'|] eqn:E; [|done]. apply in_parent_ok in E as (dl & nm & Hnm & E); [|done]. by eapply spec_mkdir_exported.
  - destruct (look h rootl f [] (splitPath path)) as [l|]; [|done]. cbn [remote result_map_err result_bind].
    destruct (spec_remove h rootl f l) as [f'|] eqn:E; [|done]. by eapply spec_remove_exported.
Qed.

(** Enough fuel for an operation: one round per byte it may read. *)
Definition needs (o : op) (f : fs) : nat :=
  match o with
  | DoRead path | DoList path => match look h rootl f [] (splitPath path) with Ok l => S (length (contents h rootl f l)) | Err _ => O end
  | _ => O
  end.

Lemma eff_op fuel o f n T : exported rootl f -> small f -> good_op o -> idle n T -> 1 <= n -> n + 2 < 2 ^ 32 -> (needs o f <= fuel)%nat ->
  exists n', n <= n' <= n + 2 /\ eff m sm v (run_op fuel o) n T f (perform h rootl o f).1 n' T (perform h rootl o f).2.
Proof.
  intros He Hs Hg HT Hn Hn2 Hfuel. assert (n <= n + 1 <= n + 2) as Hstep by lia.
  destruct o as [path|path|path|path data|path|path]; cbn [good_op needs] in *.
  - exists (n + 1). split; [done|]. apply (eff_DoRead f He n T HT); try done. intros l El. rewrite El in Hfuel. lia.
  - exists (n + 1). split; [done|]. apply (eff_DoList f He n T HT); try done. intros l El. rewrite El in Hfuel. lia.
  - exists (n + 1). split; [done|]. by apply (eff_DoStat f He n T HT).
  - destruct Hg. by apply eff_DoWrite.
  - by apply eff_DoMkdir.
  - exists (n + 1). split; [done|]. by apply eff_DoRemove.
Qed.

Lemma perform_returns o f : (perform h rootl o f).1 <> Err Running.
Proof.
  destruct o as [path|path|path|path data|path|path]; cbn [perform fst];
    try (unfold changed, in_parent; destruct (splitParent path) as [dir nm]; destruct (str_eqb nm []); [done|];
         destruct (look h rootl f [] (splitPath dir)) as [l|]; [|done]; cbn [remote result_map_err result_bind]);
    try (destruct (look h rootl f [] (splitPath path)) as [l|]; [|done]; cbn [remote result_map_err result_bind]).
  - done.
  - unfold spec_entries. destruct (node_at f (rootl ++ l)) as [[content| |]|]; try done. by destruct (parse_entries _ content 0).
  - done.
  - by destruct (spec_write _ _ _ _ _).
  - by destruct (spec_mkdir _ _ _ _ _).
  - unfold changed. by destruct (spec_remove _ _ _ _).
Qed.

Fixpoint run_ops (fuel : nat) (ops : list op) : M (St := session * fs) (list (result cerror reply)) :=
  match ops with
  | [] => ret []
  | o :: ops =>
    let! r := try_ (run_op fuel o) in
    let! rs := run_ops fuel ops in
    ret (r :: rs)
  end.

Fixpoint needs_all (ops : list op) (f : fs) : nat :=
  match ops with [] => O | o :: ops => Nat.max (needs o f) (needs_all ops (perform h rootl o f).2) end.

Lemma eff_ops fuel ops f n T : exported rootl f -> Z.of_nat (size f) + len ops < 2 ^ 46 -> Forall good_op ops -> idle n T -> 1 <= n -> n + 2 * len ops < 2 ^ 32 ->
  (needs_all ops f <= fuel)%nat ->
  exists n', eff m sm v (run_ops fuel ops) n T f (Ok (performs h rootl ops f).1) n' T (performs h rootl ops f).2.
Proof.
  revert f n. induction ops as [|o ops IH]; intros f n He Hs Hall HT Hn Hn2 Hfuel.
  { exists n. apply eff_ret. }
  assert (len (o :: ops) = 1 + len ops) as Hlen by (unfold len; cbn [length]; lia). pose proof (len_nonneg ops). cbn [needs_all] in Hfuel.
  apply Forall_cons in Hall as [Ho Hops]. destruct (perform_exported o f He Ho) as [He' Hs'].
  destruct (eff_op fuel o f n T He ltac:(unfold small; lia) Ho HT Hn ltac:(lia) ltac:(lia)) as (n1 & Hn1 & Hop).
  pose proof (perform_returns o f) as Hr. cbn [performs run_ops]. destruct (perform h rootl o f) as [r f1]. cbn [fst snd] in *.
  assert (idle n1 T) as HT1 by (split; [apply HT|intros k Hk; apply HT; lia]).
  destruct (IH f1 n1 He' ltac:(lia) Hops HT1 ltac:(lia) ltac:(lia) ltac:(lia)) as [n2 Hrest].
  destruct (performs h rootl ops f1) as [rs f2]. exists n2. cbn [fst snd] in *.
  eapply eff_bind; [by apply eff_try|]. cbv beta. eapply eff_bind; [exact Hrest|]. apply eff_ret.
Qed.

End Refines.
End P9ClientRefines.
