(* ===== verification/P9ClientClaims.v ===== *)
(** * What the 9P client guarantees

    With the server of the repository at the other end, a session is a file
    system; with any peer at all, writing returns. *)

From S2P Require Import Prelude GoStrings GoFs GoFsProofs GoFsOpsProofs P9Server P9ServerProofs P9Claims P9Client P9ClientProofs P9Export P9ExportProofs P9ClientOps P9ClientRefines.

Module P9ClientClaims.
Import P9Client GoStrings GoFs GoFsProofs GoFsOpsProofs P9Server P9ServerProofs P9Claims P9ClientProofs P9Export P9ExportProofs P9ClientOps P9ClientRefines.

(** ** Attaching *)

Lemma version_exchange h s f : P9Client.version (served h s) (new_client, (new_session, f)) = (Ok tt, state 65536 65536 (str "9P2000") 1 1 ∅ f).
Proof. vm_compute. reflexivity. Qed.

Lemma attach_exchange h s rootl f n T : polite h -> root s = abs_path rootl -> exported rootl f ->
  eff 65536 65536 (str "9P2000") (attachRoot (served h s)) n T f (Ok tt) n (<[0 := root_fid rootl]> T) f.
Proof.
  intros Hh Hroot He. set (payload := le_put 4 0 ++ le_put 4 nofid ++ packString (str "weaverssh") ++ packString []).
  set (reply := qid_bytes (qidFor [] (info h rootl f []))).
  assert (eff 65536 65536 (str "9P2000") (rpc (served h s) tAttach payload) n T f (Ok reply) n (<[0 := root_fid rootl]> T) f) as H.
  { apply eff_rpc; [by vm_compute|unfold reply; rewrite len_qid; lia|done|]. intros tag.
    change (handle h s ?ss f (mkMessage tAttach tag payload)) with (handleAttach h s ss f payload). unfold handleAttach.
    change (len payload <? 8) with false. cbv iota. change (field 4 0 payload) with 0.
    destruct (root_there rootl f He) as [nd Hnd]. pose proof (resolve_there h s rootl f Hh Hroot He [] ltac:(done) ltac:(by eapply node_settled)) as E.
    change (join_slash []) with (@nil Z) in E. rewrite E, (stat_there h rootl f Hh He [] nd Hnd). cbn [os_error result_map_err]. rewrite app_nil_r. done. }
  intros t. destruct (H t) as [t' E]. exists t'. unfold attachRoot, bind.
  change (rpc _ tAttach _ _) with (rpc (served h s) tAttach payload (state 65536 65536 (str "9P2000") t n T f)). by rewrite E.
Qed.

Lemma Attach_ok h s rootl f hangup : polite h -> root s = abs_path rootl -> exported rootl f ->
  exists t, Attach (served h s) hangup (Some (new_session, f)) = Ok (state 65536 65536 (str "9P2000") t 1 {[0 := root_fid rootl]} f).
Proof.
  intros Hh Hroot He. destruct (attach_exchange h s rootl f 1 ∅ Hh Hroot He 1) as [t E]. exists t.
  unfold Attach, P9Client.attach, bind, try_. by rewrite version_exchange, E.
Qed.

(** ** The file system at the other end *)


Definition unix_host : host := mkHost (fun _ _ _ => false) (fun _ _ => None) (fun _ _ => 420) (fun _ _ => 0) (fun _ _ => 4096) (fun e _ => match e with ENOTEMPTY => str "not empty" | _ => str "error" end).
Definition empty_export : fs := {[[str "srv"] := Dir]}.
Definition session_ops : list op :=
  [DoMkdir (str "/d"); DoWrite (str "d/a") (str "hello"); DoRead (str "d//a"); DoList (str "d"); DoRemove (str "d"); DoStat (str "x"); DoRemove (str "d/a")].

Lemma unix_polite : polite unix_host.
Proof. split; try done. intros e p. by destruct e; vm_compute. Qed.

Definition good_b (c : bytes) : bool :=
  negb (str_eqb c []) && negb (str_eqb c dot) && negb (str_eqb c dotdot) && negb (has_separator c) && negb (existsb (Z.eqb 0) c) && negb (HasPrefix c dotdot) && (len c <? 2 ^ 15).
Lemma good_b_ok c : good_b c = true -> good c.
Proof.
  unfold good_b. rewrite !andb_true_iff, !negb_true_iff. intros ((((((H1 & H2) & H3) & H4) & H5) & H6) & H7).
  split; [|split; [done|split; [done|lia]]]. split; [|done].
  split_and!; [by intros ->|by intros ->; rewrite str_eqb_refl in H2|by intros ->; rewrite str_eqb_refl in H3|by apply has_separator_no_slash].
Qed.
Lemma good_path_ok path : forallb good_b (splitPath path) = true -> fits (splitPath path) -> good_path path.
Proof. intros H Hf. split; [|done]. apply Forall_forall. intros c Hc. apply good_b_ok. rewrite forallb_forall in H. by apply H, list_elem_of_In. Qed.

Lemma empty_exported : exported [str "srv"] empty_export.
Proof.
  assert (forall l nd, node_at empty_export (str "srv" :: l) = Some nd -> l = [] /\ nd = Dir) as Hn.
  { intros l nd. cbn [node_at]. unfold empty_export. intros [E <-]%lookup_singleton_Some. by injection E as ->. }
  split.
  - split; [apply Forall_singleton; by apply good_name, good_b_ok|]. intros [|[|k]] Hk; [done|done|cbn in Hk; lia].
  - intros l c [nd Hs]. destruct (Hn (l ++ [c]) nd Hs) as [E _]. by destruct l.
  - intros l t Hs. by destruct (Hn l _ Hs).
  - intros l c Hs. by destruct (Hn l _ Hs).
Qed.

Lemma session_ops_good : Forall good_op session_ops.
Proof.
  repeat (apply Forall_cons; split; [first [split; [apply good_path_ok; by vm_compute|by vm_compute]|apply good_path_ok; by vm_compute]|]). by apply Forall_nil.
Qed.


(** [MkdirAll] keeps a fid at the server for every directory it finds: the
    ones its walks bind are never clunked. *)
Lemma mkdir_all_leaks :
  let stream := served unix_host (mkServer (str "/srv") false) in
  let dirs := <[[str "srv"; str "d"] := Dir]> empty_export in
  match Attach stream (fun st => (None, st)) (Some (new_session, dirs)) with
  | Ok st => let '(r, (c, (ss, f))) := MkdirAll stream (str "d") st in r = Ok tt /\ f = dirs /\ is_Some (fids ss !! 1)
  | Err _ => False
  end.
Proof. vm_compute. split; [reflexivity|]. split; [reflexivity|]. eexists. reflexivity. Qed.

(** ** Against any peer *)

Section Peer.
Context {St : Type} (stream : St -> bytes -> result bytes bytes * St).

Definition returns {A} (op : M (St := St) A) : Prop := forall st, (op st).1 <> Err Running.

Lemma returns_ret {A} (a : A) : returns (ret a).
Proof. done. Qed.
Lemma returns_throw {A} text : returns (throw (A := A) text).
Proof. done. Qed.
Lemma returns_fail {A} e : e <> Running -> returns (fun st => (Err (A := A) e, st)).
Proof. intros He st [= ->]. done. Qed.
Lemma returns_msize : returns get_msize.
Proof. done. Qed.
Lemma returns_bind {A B} (op : M A) (k : A -> M B) : returns op -> (forall a, returns (k a)) -> returns (bind op k).
Proof. intros Ho Hk st. unfold bind. specialize (Ho st). destruct (op st) as [[a|e] st']; [apply Hk|]. intros [= ->]. by apply Ho. Qed.
Lemma returns_try {A B} (op : M A) (k : result cerror A -> M B) : returns op -> (forall r, r <> Err Running -> returns (k r)) -> returns (bind (try_ op) k).
Proof.
  intros Ho Hk st. unfold bind, try_. specialize (Ho st). destruct (op st) as [[a|e] st']; [by apply Hk|].
  destruct e; [by apply Hk..|]. by destruct Ho.
Qed.
Lemma returns_result {A} (r : result cerror A) : r <> Err Running -> returns (returned r).
Proof. intros Hr st. done. Qed.

Lemma readMessage_returns inp : (P9Client.readMessage inp).1 <> Err Running.
Proof.
  unfold P9Client.readMessage. destruct (len inp =? 0); [done|]. destruct (len inp <? 7); [done|]. cbv zeta.
  destruct (_ || _); [done|]. by destruct (_ <? _).
Qed.

Lemma returns_rpc typ payload : returns (rpc stream typ payload).
Proof.
  intros [c x]. unfold rpc. cbv zeta. destruct (stream _ _) as [[inp|e] y]; [|done].
  match goal with |- context [P9Client.readMessage ?i] => pose proof (readMessage_returns i) as Hr; destruct (P9Client.readMessage i) as [[[[rt tg] p]|e] rest] end.
  - destruct (negb (tg =? _)); [done|]. destruct (rt =? rError); [done|]. by destruct (negb (rt =? _)).
  - intros [= ->]. done.
Qed.

End Peer.

Create HintDb client.
#[export] Hint Resolve returns_ret returns_throw returns_msize returns_rpc : client.

Ltac client := repeat first
  [ apply returns_try; [|intros ? ?] | apply returns_bind; [|intros ?] | apply returns_fail; discriminate
  | apply returns_result; (done || by (intros [= ?])) | by auto with client | case_match | progress cbv beta ].

Section Returns.
Context {St : Type} (stream : St -> bytes -> result bytes bytes * St).

Lemma returns_allocFid : returns (St := St) allocFid.
Proof. by intros [c x]. Qed.

Lemma returns_walk path : returns (P9Client.walk stream path).
Proof.
  intros st. apply (returns_bind allocFid); [apply returns_allocFid|]. intros n. client.
Qed.
Lemma returns_clunk fid : returns (clunk stream fid).
Proof. unfold clunk. client. Qed.
Lemma returns_deferred {A} fid (op : M A) : returns op -> returns (deferred stream fid op).
Proof. intros Ho. unfold deferred. apply returns_try; [done|]. intros r Hr. apply returns_try; [apply returns_clunk|]. intros _ _. by apply returns_result. Qed.
Lemma returns_open fid mode : returns (open_ stream fid mode).
Proof. unfold open_. client. Qed.
Lemma returns_create fid name perm mode : returns (P9Client.create stream fid name perm mode).
Proof. unfold P9Client.create. client. Qed.
Lemma returns_walking dir : returns (walking dir (P9Client.walk stream dir)).
Proof. unfold walking. apply returns_try; [apply returns_walk|]. intros [n|e] Hr; apply returns_result; [done|]. intros [= ?]. Qed.

Lemma write_chunk_pos msize : 1 <= write_chunk msize.
Proof. unfold write_chunk. destruct (Z.leb_spec (msize - 23) 0); cbn [orb]; [lia|]. case_match; lia. Qed.

(** Every round of a write takes something off what is left. *)
Lemma returns_writeAll_loop fuel fid chunk off data : 1 <= chunk -> (length data < fuel)%nat -> returns (writeAll_loop stream fuel fid chunk off data).
Proof.
  intros Hc. revert off data. induction fuel as [|fuel IH]; intros off data Hfuel; [lia|]. cbn [writeAll_loop]. destruct data as [|x data]; [apply returns_ret|].
  set (d := x :: data) in *. assert (1 <= len d) as Hd by (unfold d, len; cbn [length]; lia).
  apply returns_bind; [apply returns_rpc|]. intros resp. destruct (len resp <? 4); [apply returns_throw|].
  destruct (Z.leb_spec (P9Client.field 4 0 resp) 0); [apply returns_throw|]. apply IH. rewrite length_drop. unfold len in *. lia.
Qed.
Lemma returns_writeAll fid data : returns (writeAll stream fid data).
Proof. unfold writeAll. apply returns_bind; [apply returns_msize|]. intros msize. apply returns_writeAll_loop; [apply write_chunk_pos|lia]. Qed.

Lemma returns_writeAt_loop fuel fid chunk off total p : 1 <= chunk -> 0 <= total -> (length p - Z.to_nat total < fuel)%nat ->
  returns (writeAt_loop stream fuel fid chunk off total p).
Proof.
  intros Hc. revert total. induction fuel as [|fuel IH]; intros total Ht Hfuel; [lia|]. cbn [writeAt_loop].
  destruct (Z.leb_spec (len p) total); [apply returns_ret|]. apply returns_try; [apply returns_rpc|]. intros [resp|e] _; [|apply returns_ret].
  destruct (len resp <? 4); [apply returns_ret|]. destruct (Z.leb_spec (P9Client.field 4 0 resp) 0); [apply returns_ret|].
  apply IH; unfold len in *; lia.
Qed.
Lemma returns_WriteAt fid off p : returns (WriteAt stream fid off p).
Proof. unfold WriteAt. apply returns_bind; [apply returns_msize|]. intros msize. apply returns_writeAt_loop; [apply write_chunk_pos|lia|lia]. Qed.

Lemma returns_WriteFile path data : returns (WriteFile stream path data).
Proof.
  unfold WriteFile. destruct (splitParent path) as [dir name]. destruct (str_eqb name []); [by apply returns_fail|].
  apply returns_bind; [apply returns_walking|]. intros parent. apply returns_deferred. apply returns_try; [apply returns_walk|]. intros [child|e] _.
  - apply returns_deferred. apply returns_bind; [apply returns_open|]. intros _. apply returns_writeAll.
  - apply returns_bind; [apply returns_create|]. intros _. apply returns_writeAll.
Qed.

Lemma returns_Mkdir path : returns (Mkdir stream path).
Proof.
  unfold Mkdir. destruct (splitParent path) as [dir name]. destruct (str_eqb name []); [by apply returns_fail|].
  apply returns_bind; [apply returns_walking|]. intros parent. apply returns_deferred, returns_create.
Qed.

Lemma returns_mkdir_all cur names : returns (mkdir_all stream cur names).
Proof.
  revert cur. induction names as [|c names IH]; intros cur; [apply returns_ret|]. cbn [mkdir_all]. apply returns_try; [apply returns_walk|]. intros [fid|e] _; [apply IH|].
  apply returns_bind; [apply returns_Mkdir|]. intros _. apply IH.
Qed.

Lemma returns_Stat path : returns (Stat stream path).
Proof. unfold Stat. apply returns_bind; [apply returns_walk|]. intros fid. apply returns_deferred. client. Qed.

Lemma returns_Remove path : returns (Remove stream path).
Proof. unfold Remove. apply returns_bind; [apply returns_walk|]. intros fid. unfold remove. client. Qed.

End Returns.

(** Whatever the peer answers, the operations that do not read a whole file
    return: each round of a write takes at least one byte off what is left, and
    an answer that claims no progress, is cut short, carries another tag or is
    of another kind is an error. *)
Theorem p9_client_returns {St : Type} (stream : St -> bytes -> result bytes bytes * St) (path data : bytes) (fid off : Z) (st : Client * St) :
  (WriteFile stream path data st).1 <> Err Running /\ (WriteAt stream fid off data st).1 <> Err Running /\
  (Mkdir stream path st).1 <> Err Running /\ (MkdirAll stream path st).1 <> Err Running /\
  (Stat stream path st).1 <> Err Running /\ (Remove stream path st).1 <> Err Running.
Proof.
  split_and!; [apply returns_WriteFile|apply returns_WriteAt|apply returns_Mkdir|apply returns_mkdir_all|apply returns_Stat|apply returns_Remove].
Qed.

(** Reading a file is different: a peer that announces a byte and sends none
    keeps [readAll] going for ever. *)
Definition stalling (st : unit) (msg : bytes) : result bytes bytes * unit := (Ok (P9Client.writeMessage rRead (field 2 5 msg) (le_put 4 1)), st).

Lemma rpc_stalling payload c : c_unread c = [] -> len payload <= 2 ^ 24 - 7 ->
  rpc stalling tRead payload (c, tt) = (Ok (le_put 4 1), (c <| c_tag := u16 (c_tag c + 1) |>, tt)).
Proof.
  intros Hc Hl. destruct c as [ms tg nf rf ur]. cbn [c_unread] in Hc. subst ur. set (tag := u16 (tg + 1)).
  assert (0 <= tag < 2 ^ 16) as Ht by (unfold tag, u16; apply Z.mod_pos_bound; lia).
  unfold rpc, stalling. cbn [c_tag c_unread update update_c_tag update_c_unread c_msize c_nextFid c_rootFid app]. fold tag.
  pose proof (frame_fields (mkMessage tRead tag payload) [] ltac:(by split)) as (_ & _ & E & _). cbv zeta in E. rewrite app_nil_r in E.
  change (encode (mkMessage tRead tag payload)) with (P9Client.writeMessage tRead tag payload) in E. cbn [m_tag] in E. rewrite E.
  change (P9Client.writeMessage rRead tag (le_put 4 1)) with (encode (mkMessage rRead tag (le_put 4 1))).
  rewrite client_reads by (split; [done|by vm_compute]). cbn [m_type m_tag m_payload]. by rewrite Z.eqb_refl.
Qed.

Lemma readAll_stalls fuel fid chunk off out c : c_unread c = [] -> 0 <= off < 2 ^ 64 -> (readAll_loop stalling fuel fid chunk off out (c, tt)).1 = Err Running.
Proof.
  intros Hc Ho. revert out c Hc. induction fuel as [|fuel IH]; intros out c Hc; [done|]. cbn [readAll_loop]. unfold bind at 1.
  rewrite rpc_stalling by (try done; unfold read_request; rewrite !len_app, !len_le_put; lia).
  change (len (le_put 4 1) <? 4) with false. change (P9Client.field 4 0 (le_put 4 1)) with 1. change (1 =? 0) with false.
  change (len (le_put 4 1) - 4 <? 1) with true. cbv iota. change (len (le_put 4 1) - 4) with 0. rewrite Z.add_0_r. unfold u64. rewrite Z.mod_small by lia.
  by apply IH.
Qed.
End P9ClientClaims.
