(* ===== verification/SessionFsOps.v ===== *)
(** * File operations over session streams (sessionfsops)

    The request protocol (protocol.go), the server with its staged replacement
    of files and trees, links and paged listings (server.go), and the client
    that calls it (client.go), over the file system of GoFs.v and GoFsOps.v and
    behind the file backend interface of FileBackend.v.  The JSON codec is an
    argument. *)

From S2P Require Import Prelude GoStrings GoFs GoFsOps FileBackend.

Module SessionFsOps.
Import GoStrings GoFs GoFsOps FileBackend.

(** ** protocol.go *)

Definition ProtocolVersion : bytes := str "weaverssh.fs-ops.v1".
Definition MaxMessageBytes : Z := 2 ^ 20.
Definition OpPrepareReplace : bytes := str "prepare-replace".
Definition OpCommitReplace : bytes := str "commit-replace".
Definition OpAbortReplace : bytes := str "abort-replace".
Definition OpLstat : bytes := str "lstat".
Definition OpList : bytes := str "list".
Definition OpSymlink : bytes := str "symlink".
Definition OpSetMetadata : bytes := str "set-metadata".
Definition OpPrepareTree : bytes := str "prepare-tree".
Definition OpCommitTree : bytes := str "commit-tree".
Definition OpAbortTree : bytes := str "abort-tree".

(** The sentinel an error wraps, if any, and its text. *)
Inductive sentinel : Type := ErrWrongProtocol | ErrInvalidRequest | ErrReadOnly | ErrPathDenied | ErrReplaceFailed | ErrOther.
Record failure := mkFailure { e_is : sentinel; e_text : bytes }.

Definition sentinel_text (k : sentinel) : bytes :=
  match k with
  | ErrWrongProtocol => str "sessionfsops: wrong protocol"
  | ErrInvalidRequest => str "sessionfsops: invalid request"
  | ErrReadOnly => str "sessionfsops: filesystem is read-only"
  | ErrPathDenied => str "sessionfsops: path denied"
  | ErrReplaceFailed => str "sessionfsops: replacement failed"
  | ErrOther => []
  end.
Definition plainly (k : sentinel) : failure := mkFailure k (sentinel_text k).
(** [fmt.Errorf] with a wrapped sentinel, a colon and a text. *)
Definition because (k : sentinel) (text : bytes) : failure := mkFailure k (sentinel_text k ++ str ": " ++ text).
Definition other (text : bytes) : failure := mkFailure ErrOther text.

Record Request := mkRequest {
  rq_Protocol : bytes;
  rq_ID : bytes;
  rq_Operation : bytes;
  rq_FinalPath : bytes;
  rq_TempPath : bytes;
  rq_Mode : Z;
  rq_PreserveExistingMode : bool;
  rq_ReplaceExisting : bool;
  rq_LinkTarget : bytes;
  rq_ModTimeUnixNano : Z;
  rq_Cursor : bytes;
  rq_Limit : Z
}.

Record FileMetadata := mkMetadata {
  md_Path : bytes;
  md_Name : bytes;
  md_Type : bytes;
  md_Mode : Z;
  md_Size : Z;
  md_ModTimeUnixNano : Z;
  md_LinkTarget : bytes
}.

(** [RollbackPerformed] is never set. *)
Record Result := mkResult {
  rs_TempPath : bytes;
  rs_BackupPath : bytes;
  rs_AppliedMode : Z;
  rs_ReplacedExisting : bool;
  rs_AtomicVisibility : bool;
  rs_Metadata : option FileMetadata;
  rs_Entries : list FileMetadata;
  rs_NextCursor : bytes
}.
Definition no_result : Result := mkResult [] [] 0 false false None [] [].

Record Response := mkResponse {
  rp_Protocol : bytes;
  rp_ID : bytes;
  rp_Result : Result;
  rp_Error : option (bytes * bytes)
}.

(** [encoding/json] on the two messages, unknown fields and trailing data
    refused. *)
Class FsJson : Type := {
  marshal_request : Request -> bytes;
  unmarshal_request : bytes -> option Request;
  marshal_response : Response -> bytes;
  unmarshal_response : bytes -> option Response
}.

Definition IsMetadata (payload : bytes) : bool := str_eqb payload ProtocolVersion.

Definition validateRequest (r : Request) : option failure :=
  let invalid := Some (plainly ErrInvalidRequest) in
  let no := fun p => str_eqb p [] in
  if negb (str_eqb (TrimSpace (rq_Protocol r)) ProtocolVersion) || str_eqb (TrimSpace (rq_ID r)) [] || (128 <? len (rq_ID r)) then invalid else
  let op := TrimSpace (rq_Operation r) in
  if str_eqb op OpPrepareReplace then (if no (rq_FinalPath r) || negb (no (rq_TempPath r)) then invalid else None) else
  if str_eqb op OpCommitReplace then (if no (rq_FinalPath r) || no (rq_TempPath r) then invalid else None) else
  if str_eqb op OpAbortReplace then (if no (rq_TempPath r) then invalid else None) else
  if str_eqb op OpLstat then (if no (rq_FinalPath r) then invalid else None) else
  if str_eqb op OpList then (if no (rq_FinalPath r) || (rq_Limit r <? 0) || (1024 <? rq_Limit r) then invalid else None) else
  if str_eqb op OpSymlink then (if no (rq_FinalPath r) || no (rq_LinkTarget r) then invalid else None) else
  if str_eqb op OpSetMetadata then
    (if no (rq_FinalPath r) || ((rq_Mode r =? 0) && (rq_ModTimeUnixNano r =? 0)) then invalid else None) else
  if str_eqb op OpPrepareTree then (if no (rq_FinalPath r) || negb (no (rq_TempPath r)) then invalid else None) else
  if str_eqb op OpCommitTree then (if no (rq_FinalPath r) || no (rq_TempPath r) then invalid else None) else
  if str_eqb op OpAbortTree then (if no (rq_TempPath r) then invalid else None) else
  invalid.

(** [bufio.Reader.ReadBytes('\n')]: the line with its newline, or end of input. *)
Fixpoint read_line (inp : bytes) : option bytes :=
  match inp with
  | [] => None
  | c :: r => if c =? 10 then Some [c] else match read_line r with Some l => Some (c :: l) | None => None end
  end.

Definition readMessage (inp : bytes) : result failure bytes :=
  match read_line (take (Z.to_nat (MaxMessageBytes + 2)) inp) with
  | None => Err (other (str "EOF"))
  | Some line =>
    if MaxMessageBytes + 1 <? len line then Err (other (str "invalid bounded message")) else
    let line := TrimSpace line in
    if str_eqb line [] then Err (other (str "empty message")) else Ok line
  end.

Definition writeMessage (payload : bytes) : result failure bytes :=
  if str_eqb payload [] || (MaxMessageBytes <? len payload + 1) then Err (other (str "sessionfsops: message too large")) else
  Ok (payload ++ [10]).

Section Codec.
Context `{FsJson}.

Definition readRequest (inp : bytes) : result failure Request :=
  match readMessage inp with
  | Err e => Err (because ErrInvalidRequest (e_text e))
  | Ok payload =>
    match unmarshal_request payload with
    | None => Err (plainly ErrInvalidRequest)
    | Some request => match validateRequest request with Some e => Err e | None => Ok request end
    end
  end.

Definition writeRequest (r : Request) : result failure bytes :=
  writeMessage (marshal_request (mkRequest ProtocolVersion (rq_ID r) (rq_Operation r) (rq_FinalPath r) (rq_TempPath r) (rq_Mode r)
    (rq_PreserveExistingMode r) (rq_ReplaceExisting r) (rq_LinkTarget r) (rq_ModTimeUnixNano r) (rq_Cursor r) (rq_Limit r))).

Definition readResponse (inp : bytes) : result failure Response :=
  let* payload := readMessage inp in
  match unmarshal_response payload with
  | None => Err (plainly ErrInvalidRequest)
  | Some response =>
    if negb (str_eqb (rp_Protocol response) ProtocolVersion) then Err (plainly ErrWrongProtocol) else
    match rp_Error response with
    | Some (code, message) => Err (other (str "sessionfsops " ++ code ++ str ": " ++ message))
    | None => Ok response
    end
  end.

Definition writeResponse (r : Response) : result failure bytes :=
  writeMessage (marshal_response (mkResponse ProtocolVersion (rp_ID r) (rp_Result r) (rp_Error r))).

End Codec.

Definition error_code (k : sentinel) : bytes :=
  match k with
  | ErrWrongProtocol => str "wrong_protocol"
  | ErrInvalidRequest => str "invalid_request"
  | ErrReadOnly => str "read_only"
  | ErrPathDenied => str "path_denied"
  | ErrReplaceFailed => str "replace_failed"
  | ErrOther => str "internal"
  end.

Definition errorResponse (id : bytes) (e : failure) : Response :=
  mkResponse [] id no_result (Some (error_code (e_is e), e_text e)).

(** ** server.go *)

Definition tempPrefix : bytes := str ".wv-replace-".
Definition treeTempPrefix : bytes := str ".wv-tree-".
Definition treeBackupPrefix : bytes := str ".wv-tree-backup-".

Record Server := mkServer {
  root : bytes;
  readOnly : bool
}.

Definition mutatingOperation (operation : bytes) : bool :=
  negb (str_eqb operation OpLstat || str_eqb operation OpList).

Definition withinRoot (root target : bytes) : bool :=
  match Rel root target with
  | None => false
  | Some r => str_eqb r dot || str_eqb r [] || (negb (HasPrefix r dotdot) && negb (IsAbs r))
  end.

Definition contains_byte (c : Z) (s : bytes) : bool := existsb (Z.eqb c) s.

Definition cleanRelative (raw : bytes) : result failure bytes :=
  let raw := TrimSpace raw in
  if str_eqb raw [] || HasPrefix raw [slash] || contains_byte 0 raw || contains_byte 92 raw then Err (plainly ErrPathDenied) else
  if existsb (str_eqb dotdot) (split_slash raw) then Err (plainly ErrPathDenied) else
  let cleaned := Clean raw in
  if str_eqb cleaned [] || str_eqb cleaned dot || str_eqb cleaned dotdot || HasPrefix cleaned (dotdot ++ [slash])
  then Err (plainly ErrPathDenied) else Ok cleaned.

(** [uint32(info.Mode())]. *)
Definition mode_bits (i : LInfo) : Z :=
  match li_type i with
  | Regular | Special => li_perm i
  | Directory => Z.lor (2 ^ 31) (li_perm i)
  | Symlink => Z.lor (2 ^ 27) (li_perm i)
  end.
Definition is_dir (i : LInfo) : bool := match li_type i with Directory => true | _ => false end.
Definition is_symlink (i : LInfo) : bool := match li_type i with Symlink => true | _ => false end.
Definition is_regular (i : LInfo) : bool := match li_type i with Regular => true | _ => false end.
Definition type_name (i : LInfo) : bytes :=
  match li_type i with Symlink => str "symlink" | Directory => str "directory" | Special => str "special" | Regular => str "file" end.

Section Server.
Context (x : xhost) (s : Server) (quote : bytes -> bytes).

Definition os_fail (e : errno) (p : bytes) : failure := other (h_text (x_host x) e p).

Definition resolveFinal (f : fs) (raw : bytes) : result failure (bytes * bytes * bytes * bytes) :=
  let* relative := cleanRelative raw in
  let parentRelative := Dir_of relative in
  let parentRelative := if str_eqb parentRelative dot then [] else parentRelative in
  let name := Base_of relative in
  if str_eqb name [] || str_eqb name dot || str_eqb name dotdot || contains_byte 47 name || contains_byte 92 name || contains_byte 0 name
  then Err (because ErrPathDenied (str "invalid final name")) else
  let joinedParent := Join (root s) parentRelative in
  match EvalSymlinks (x_host x) f joinedParent with
  | Err e => Err (because ErrPathDenied (str "resolve parent: " ++ h_text (x_host x) e joinedParent))
  | Ok parentAbsolute =>
    if negb (withinRoot (root s) parentAbsolute) then Err (plainly ErrPathDenied) else
    match os_Stat (x_host x) f parentAbsolute with
    | Ok info =>
      if i_dir info then Ok (relative, parentRelative, name, parentAbsolute) else Err (because ErrPathDenied (str "parent is not a directory"))
    | Err _ => Err (because ErrPathDenied (str "parent is not a directory"))
    end
  end.

Definition resolvePath (f : fs) (raw : bytes) : result failure (bytes * bytes) :=
  let* r := resolveFinal f raw in
  let '(relative, _, name, parentAbsolute) := r in Ok (relative, Join parentAbsolute name).

Definition randomName (prefix : bytes) (n : nat) : result failure bytes :=
  match x_random x n with
  | None => Err (other (str "crypto/rand: failed"))
  | Some random => Ok (prefix ++ hex_encode random)
  end.

Definition fileMetadata (f : fs) (relative absolute : bytes) (info : LInfo) : result failure FileMetadata :=
  let metadata target := mkMetadata relative (li_name info) (type_name info) (mode_bits info) (li_size info) (li_nanos info) target in
  if is_symlink info then
    match os_Readlink x f absolute with
    | Err e => Err (os_fail e absolute)
    | Ok target => Ok (metadata target)
    end
  else Ok (metadata []).

Definition metadata_of (f : fs) (relative absolute : bytes) : result failure FileMetadata :=
  match os_Lstat x f absolute with
  | Err e => Err (os_fail e absolute)
  | Ok info => fileMetadata f relative absolute info
  end.

Definition metadata_result (md : FileMetadata) : Result := mkResult [] [] 0 false false (Some md) [] [].

Definition lstat (f : fs) (r : Request) : result failure Result :=
  let* p := resolvePath f (rq_FinalPath r) in
  let* md := metadata_of f p.1 p.2 in
  Ok (metadata_result md).

(** [sort.Search]: binary search for the first index with [above]; [n] bounds
    the number of halvings. *)
Fixpoint search (above : nat -> bool) (n lo hi : nat) : nat :=
  match n with
  | O => lo
  | S n =>
    if (lo <? hi)%nat then
      let mid := ((lo + hi) / 2)%nat in
      if above mid then search above n lo mid else search above n (S mid) hi
    else lo
  end.

Fixpoint list_entries (f : fs) (relative absolute : bytes) (names : list bytes) : result failure (list FileMetadata) :=
  match names with
  | [] => Ok []
  | name :: rest =>
    let* md := metadata_of f (Join relative name) (Join absolute name) in
    let* mds := list_entries f relative absolute rest in
    Ok (md :: mds)
  end.

Definition list_ (f : fs) (r : Request) : result failure Result :=
  let* p := resolvePath f (rq_FinalPath r) in
  let '(relative, absolute) := p in
  match os_Lstat x f absolute with
  | Err e => Err (os_fail e absolute)
  | Ok info =>
    if negb (is_dir info) then Err (because ErrPathDenied (str "list path is not a directory")) else
    match os_ReadDir (x_host x) f absolute with
    | Err e => Err (os_fail e absolute)
    | Ok entries =>
      let names := sort_by str_ltb entries in
      let limit := if rq_Limit r <=? 0 then 256 else rq_Limit r in
      let start := if str_eqb (rq_Cursor r) [] then 0%nat else
        search (fun i => str_ltb (rq_Cursor r) (nth i names [])) (S (length names)) 0 (length names) in
      let* mds := list_entries f relative absolute (take (Z.to_nat limit) (drop start names)) in
      let next := if (start + length mds <? length names)%nat then match last mds with Some md => md_Name md | None => [] end else [] in
      Ok (mkResult [] [] 0 false false None mds next)
    end
  end.

(** A step that may change the file system. *)
Abbreviation stepped := (result failure Result * fs)%type.

Definition make_link (f : fs) (relative absolute target : bytes) : stepped :=
  match os_Symlink x f target absolute with
  | Err e => (Err (os_fail e absolute), f)
  | Ok f =>
    match metadata_of f relative absolute with
    | Err e => (Err e, f)
    | Ok md => (Ok (metadata_result md), f)
    end
  end.

Definition symlink (f : fs) (r : Request) : stepped :=
  match resolvePath f (rq_FinalPath r), resolveFinal f (rq_FinalPath r) with
  | Err e, _ => (Err e, f)
  | _, Err e => (Err e, f)
  | Ok (relative, absolute), Ok (_, _, _, parentAbs) =>
    let target := TrimSpace (rq_LinkTarget r) in
    if str_eqb target [] || contains_byte 0 target || contains_byte 92 target || IsAbs target then (Err (plainly ErrPathDenied), f) else
    let targetAbs := Clean (Join parentAbs target) in
    if negb (withinRoot (root s) targetAbs) then (Err (plainly ErrPathDenied), f) else
    match os_Lstat x f absolute with
    | Ok existing =>
      if negb (rq_ReplaceExisting r) then (Err (because ErrReplaceFailed (str "destination exists")), f) else
      if is_dir existing then (Err (because ErrReplaceFailed (str "refusing to replace directory with symlink")), f) else
      match os_Remove (x_host x) f absolute with
      | Err e => (Err (os_fail e absolute), f)
      | Ok f => make_link f relative absolute target
      end
    | Err e => if IsNotExist e then make_link f relative absolute target else (Err (os_fail e absolute), f)
    end
  end.

Definition setMetadata (f : fs) (r : Request) : result failure Result :=
  let* p := resolvePath f (rq_FinalPath r) in
  let '(relative, absolute) := p in
  match os_Lstat x f absolute with
  | Err e => Err (os_fail e absolute)
  | Ok info =>
    if is_symlink info then Err (because ErrPathDenied (str "symlink metadata mutation is not portable")) else
    match (if rq_Mode r =? 0 then None else os_attribute x CallChmod f absolute) with
    | Some e => Err (os_fail e absolute)
    | None =>
      match (if rq_ModTimeUnixNano r =? 0 then None else os_attribute x CallChtimes f absolute) with
      | Some e => Err (os_fail e absolute)
      | None => let* md := metadata_of f relative absolute in Ok (metadata_result md)
      end
    end
  end.

(** *** Staged replacement of a file *)

Definition child_path (parentRel name : bytes) : bytes := if str_eqb parentRel [] then name else Join parentRel name.

(** What happens to the temporary file once it has been created. *)
Definition finish_temp (f : fs) (absolute : bytes) : option failure * fs :=
  let removed := match os_Remove (x_host x) f absolute with Ok f' => f' | Err _ => f end in
  if x_fails x CallFchmod f absolute then (Some (os_fail EHOST absolute), removed) else
  if x_fails x CallClose f absolute then (Some (os_fail EHOST absolute), removed) else (None, f).

Fixpoint create_temp (attempts n : nat) (f : fs) (parentRel parentAbs : bytes) (mode : Z) (replaced : bool) : stepped :=
  match attempts with
  | O => (Err (because ErrReplaceFailed (str "temporary-name collision limit exceeded")), f)
  | S attempts =>
    match randomName tempPrefix n with
    | Err e => (Err e, f)
    | Ok name =>
      let absolute := Join parentAbs name in
      match os_Exclusive x f absolute with
      | Err EEXIST => create_temp attempts (S n) f parentRel parentAbs mode replaced
      | Err e => (Err (os_fail e absolute), f)
      | Ok f =>
        match finish_temp f absolute with
        | (Some e, f) => (Err e, f)
        | (None, f) => (Ok (mkResult (child_path parentRel name) [] (Z.land mode 511) replaced false None [] []), f)
        end
      end
    end
  end.

Definition prepareReplace (f : fs) (r : Request) : stepped :=
  match resolveFinal f (rq_FinalPath r) with
  | Err e => (Err e, f)
  | Ok (_, parentRel, finalName, parentAbs) =>
    let finalAbs := Join parentAbs finalName in
    let mode := Z.land (rq_Mode r) 511 in
    let mode := if mode =? 0 then 420 else mode in
    match os_Lstat x f finalAbs with
    | Ok info =>
      if negb (is_regular info) then (Err (because ErrReplaceFailed (str "destination is not a regular file")), f) else
      create_temp 32 0 f parentRel parentAbs (if rq_PreserveExistingMode r then Z.land (li_perm info) 511 else mode) true
    | Err e =>
      if negb (IsNotExist e) then (Err (os_fail e finalAbs), f) else create_temp 32 0 f parentRel parentAbs mode false
    end
  end.

Definition rename_temp (f : fs) (tempAbs finalAbs tempRel finalRel : bytes) : stepped :=
  match os_Rename x f tempAbs finalAbs with
  | Err e =>
    (Err (because ErrReplaceFailed (str "atomic rename " ++ quote tempRel ++ str " to " ++ quote finalRel ++ str ": " ++ h_text (x_host x) e tempAbs)), f)
  | Ok f => (Ok no_result, f)
  end.

Definition commitReplace (f : fs) (r : Request) : stepped :=
  match resolveFinal f (rq_FinalPath r), resolveFinal f (rq_TempPath r) with
  | Err e, _ => (Err e, f)
  | _, Err e => (Err e, f)
  | Ok (finalRel, finalParentRel, finalName, finalParentAbs), Ok (tempRel, tempParentRel, tempName, tempParentAbs) =>
    if negb (str_eqb finalParentRel tempParentRel) || negb (str_eqb finalParentAbs tempParentAbs)
    then (Err (because ErrPathDenied (str "temporary and final paths must share one directory")), f) else
    if negb (HasPrefix tempName tempPrefix) then (Err (plainly ErrPathDenied), f) else
    let tempAbs := Join tempParentAbs tempName in
    let finalAbs := Join finalParentAbs finalName in
    let invalid := (Err (because ErrReplaceFailed (str "invalid temporary file")), f) in
    match os_Lstat x f tempAbs with
    | Err _ => invalid
    | Ok info =>
      if negb (is_regular info) then invalid else
      match os_Lstat x f finalAbs with
      | Ok finalInfo =>
        if negb (is_regular finalInfo) then (Err (because ErrReplaceFailed (str "destination is not a regular file")), f)
        else rename_temp f tempAbs finalAbs tempRel finalRel
      | Err e => if negb (IsNotExist e) then (Err (os_fail e finalAbs), f) else rename_temp f tempAbs finalAbs tempRel finalRel
      end
    end
  end.

Definition abortReplace (f : fs) (r : Request) : stepped :=
  match resolveFinal f (rq_TempPath r) with
  | Err e => (Err e, f)
  | Ok (_, _, name, parentAbs) =>
    if negb (HasPrefix name tempPrefix) then (Err (plainly ErrPathDenied), f) else
    let absolute := Join parentAbs name in
    match os_Lstat x f absolute with
    | Err e => if IsNotExist e then (Ok no_result, f) else (Err (os_fail e absolute), f)
    | Ok info =>
      if negb (is_regular info) then (Err (plainly ErrPathDenied), f) else
      match os_Remove (x_host x) f absolute with
      | Ok f => (Ok no_result, f)
      | Err e => if IsNotExist e then (Ok no_result, f) else (Err (os_fail e absolute), f)
      end
    end
  end.

(** *** Staged replacement of a tree *)

Fixpoint createHiddenDirectory (attempts n : nat) (f : fs) (parent prefix : bytes) : result failure (bytes * bytes) * fs :=
  match attempts with
  | O => (Err (because ErrReplaceFailed (str "directory collision limit")), f)
  | S attempts =>
    match randomName prefix n with
    | Err e => (Err e, f)
    | Ok name =>
      let absolute := Join parent name in
      match os_Mkdir (x_host x) f absolute with
      | Err EEXIST => createHiddenDirectory attempts (S n) f parent prefix
      | Err e => (Err (os_fail e absolute), f)
      | Ok f => (Ok (name, absolute), f)
      end
    end
  end.

Fixpoint reserveHiddenPath (attempts n : nat) (f : fs) (parent prefix : bytes) : result failure (bytes * bytes) :=
  match attempts with
  | O => Err (because ErrReplaceFailed (str "hidden path collision limit"))
  | S attempts =>
    let* name := randomName prefix n in
    let absolute := Join parent name in
    match os_Lstat x f absolute with
    | Err ENOENT => Ok (name, absolute)
    | _ => reserveHiddenPath attempts (S n) f parent prefix
    end
  end.

Definition stage_tree (f : fs) (parentRel parentAbs : bytes) (mode : Z) (replaced : bool) : stepped :=
  match createHiddenDirectory 32 0 f parentAbs treeTempPrefix with
  | (Err e, f) => (Err e, f)
  | (Ok (name, _), f) => (Ok (mkResult (child_path parentRel name) [] (Z.land mode 511) replaced false None [] []), f)
  end.

Definition prepareTree (f : fs) (r : Request) : stepped :=
  match resolveFinal f (rq_FinalPath r) with
  | Err e => (Err e, f)
  | Ok (_, parentRel, name, parentAbs) =>
    let finalAbs := Join parentAbs name in
    let mode := Z.land (rq_Mode r) 4095 in
    let mode := if mode =? 0 then 493 else mode in
    match os_Lstat x f finalAbs with
    | Ok info =>
      if negb (is_dir info) || is_symlink info then (Err (because ErrReplaceFailed (str "tree destination is not a directory")), f) else
      if negb (rq_ReplaceExisting r) then (Err (because ErrReplaceFailed (str "tree destination exists")), f) else
      stage_tree f parentRel parentAbs mode true
    | Err e => if negb (IsNotExist e) then (Err (os_fail e finalAbs), f) else stage_tree f parentRel parentAbs mode false
    end
  end.

(** The old tree is set aside, the staged one takes its place, and the old one
    goes; if the staged one cannot move, the old one comes back. *)
Definition swap_tree (f : fs) (tempAbs finalAbs backupAbs backupRel : bytes) : stepped :=
  match os_Rename x f finalAbs backupAbs with
  | Err e => (Err (because ErrReplaceFailed (str "stage old tree: " ++ h_text (x_host x) e finalAbs)), f)
  | Ok f =>
    match os_Rename x f tempAbs finalAbs with
    | Err e =>
      let text := str "commit tree: " ++ h_text (x_host x) e tempAbs in
      match os_Rename x f backupAbs finalAbs with
      | Err e' => (Err (because ErrReplaceFailed (text ++ str "; rollback: " ++ h_text (x_host x) e' backupAbs)), f)
      | Ok f => (Err (because ErrReplaceFailed text), f)
      end
    | Ok f =>
      match os_RemoveAll x f backupAbs with
      | (None, f) => (Ok (mkResult [] [] 0 true false None [] []), f)
      | (Some _, f) => (Ok (mkResult [] backupRel 0 true false None [] []), f)
      end
    end
  end.

Definition commitTree (f : fs) (r : Request) : stepped :=
  match resolveFinal f (rq_FinalPath r), resolveFinal f (rq_TempPath r) with
  | Err e, _ => (Err e, f)
  | _, Err e => (Err e, f)
  | Ok (_, finalParentRel, finalName, finalParentAbs), Ok (_, tempParentRel, tempName, tempParentAbs) =>
    if negb (str_eqb finalParentRel tempParentRel) || negb (str_eqb finalParentAbs tempParentAbs) || negb (HasPrefix tempName treeTempPrefix)
    then (Err (plainly ErrPathDenied), f) else
    let tempAbs := Join tempParentAbs tempName in
    let finalAbs := Join finalParentAbs finalName in
    let invalid := (Err (because ErrReplaceFailed (str "invalid staged tree")), f) in
    match os_Lstat x f tempAbs with
    | Err _ => invalid
    | Ok tempInfo =>
      if negb (is_dir tempInfo) || is_symlink tempInfo then invalid else
      match os_Lstat x f finalAbs with
      | Err e =>
        if negb (IsNotExist e) then (Err (os_fail e finalAbs), f) else
        match os_Rename x f tempAbs finalAbs with
        | Err e => (Err (because ErrReplaceFailed (str "atomic tree rename: " ++ h_text (x_host x) e tempAbs)), f)
        | Ok f => (Ok (mkResult [] [] 0 false true None [] []), f)
        end
      | Ok finalInfo =>
        if negb (rq_ReplaceExisting r) then (Err (because ErrReplaceFailed (str "tree destination exists")), f) else
        if negb (is_dir finalInfo) || is_symlink finalInfo then (Err (because ErrReplaceFailed (str "tree destination is not a directory")), f) else
        match reserveHiddenPath 32 0 f finalParentAbs treeBackupPrefix with
        | Err e => (Err e, f)
        | Ok (backupName, backupAbs) => swap_tree f tempAbs finalAbs backupAbs (child_path finalParentRel backupName)
        end
      end
    end
  end.

Definition abortTree (f : fs) (r : Request) : stepped :=
  match resolveFinal f (rq_TempPath r) with
  | Err e => (Err e, f)
  | Ok (_, _, name, parentAbs) =>
    if negb (HasPrefix name treeTempPrefix) && negb (HasPrefix name treeBackupPrefix) then (Err (plainly ErrPathDenied), f) else
    let absolute := Join parentAbs name in
    match os_Lstat x f absolute with
    | Err e => if IsNotExist e then (Ok no_result, f) else (Err (os_fail e absolute), f)
    | Ok info =>
      if negb (is_dir info) || is_symlink info then (Err (plainly ErrPathDenied), f) else
      match os_RemoveAll x f absolute with
      | (None, f) => (Ok no_result, f)
      | (Some e, f) => (Err (os_fail e absolute), f)
      end
    end
  end.

Definition perform (f : fs) (r : Request) : stepped :=
  let op := rq_Operation r in
  if str_eqb op OpPrepareReplace then prepareReplace f r else
  if str_eqb op OpCommitReplace then commitReplace f r else
  if str_eqb op OpAbortReplace then abortReplace f r else
  if str_eqb op OpLstat then (lstat f r, f) else
  if str_eqb op OpList then (list_ f r, f) else
  if str_eqb op OpSymlink then symlink f r else
  if str_eqb op OpSetMetadata then (setMetadata f r, f) else
  if str_eqb op OpPrepareTree then prepareTree f r else
  if str_eqb op OpCommitTree then commitTree f r else
  if str_eqb op OpAbortTree then abortTree f r else
  (Err (plainly ErrInvalidRequest), f).

End Server.
(** *** One stream: [Serve] *)

Definition backendEvent (r : Request) : Event :=
  let op := rq_Operation r in
  let attributes : gmap bytes bytes :=
    {[ str "protocol" := ProtocolVersion; str "request_id" := TrimSpace (rq_ID r); str "fs_operation" := op ]} in
  let event operation path secondary attributes :=
    mkEvent [] 0 operation [] path secondary 0 0 (rq_Mode r) false false 0 0 [] attributes in
  if str_eqb op OpLstat then event OperationStat (rq_FinalPath r) [] attributes else
  if str_eqb op OpList then event OperationReadDir (rq_FinalPath r) [] attributes else
  if str_eqb op OpSymlink then event OperationCreate (rq_FinalPath r) [] (<[str "link_target" := rq_LinkTarget r]> attributes) else
  if str_eqb op OpSetMetadata then event OperationWrite (rq_FinalPath r) [] attributes else
  if str_eqb op OpPrepareReplace || str_eqb op OpPrepareTree then event OperationPrepareReplace (rq_FinalPath r) [] attributes else
  if str_eqb op OpCommitReplace || str_eqb op OpCommitTree then event OperationCommitReplace (rq_FinalPath r) (rq_TempPath r) attributes else
  if str_eqb op OpAbortReplace || str_eqb op OpAbortTree then event OperationAbortReplace (rq_TempPath r) [] attributes else
  event OperationStat [] [] attributes.

Definition backendMutationPaths (r : Request) (outcome : result failure Result) : list bytes :=
  let op := rq_Operation r in
  match outcome with
  | Err _ => []
  | Ok result =>
    if negb (mutatingOperation op) then [] else
    if str_eqb op OpPrepareReplace || str_eqb op OpPrepareTree then [rs_TempPath result] else
    if str_eqb op OpCommitReplace || str_eqb op OpCommitTree then [rq_TempPath r; rq_FinalPath r] else
    if str_eqb op OpAbortReplace || str_eqb op OpAbortTree then [rq_TempPath r] else
    if str_eqb op OpSymlink || str_eqb op OpSetMetadata then [rq_FinalPath r] else []
  end.

Section Serve.
Context `{FsJson} {B : Type} {HB : FileAPI B}.
Context (x : xhost) (s : Server) (quote : bytes -> bytes).

(** The answer to one request, with the backend and the files after it. *)
Definition answer (b : option B) (f : fs) (request : Request) : Response * option B * fs :=
  if readOnly s && mutatingOperation (rq_Operation request) then (errorResponse (rq_ID request) (plainly ErrReadOnly), b, f) else
  let reply outcome := match outcome with
    | Err e => errorResponse (rq_ID request) e
    | Ok result => mkResponse [] (rq_ID request) result None
    end in
  match b with
  | None => let '(outcome, f) := perform x s quote f request in (reply outcome, None, f)
  | Some b =>
    match api_begin b (backendEvent request) with
    | (Err e, b) => (errorResponse (rq_ID request) (other e), Some b, f)
    | (Ok pending, b) =>
      let '(outcome, f) := perform x s quote f request in
      let err := match outcome with Err e => Some (e_text e) | Ok _ => None end in
      (reply outcome, Some (api_complete b pending err (backendMutationPaths request outcome)), f)
    end
  end.

(** The bytes written on the stream; a response that is too large is not sent. *)
Definition Serve (b : option B) (f : fs) (inp : bytes) : bytes * option B * fs :=
  let sent response := match writeResponse response with Ok out => out | Err _ => [] end in
  match readRequest inp with
  | Err e => (sent (errorResponse [] e), b, f)
  | Ok request => let '(response, b, f) := answer b f request in (sent response, b, f)
  end.

End Serve.

(** [NewServer]; [description] is the backend's root, an absolute path, and its
    read-only flag. *)
Definition NewServer (h : host) (f : fs) (cwd configRoot : bytes) (ro : bool) (description : option (bytes * bool)) : result failure Server :=
  let r := TrimSpace configRoot in
  let '(r, ro) := match description with
    | Some (broot, bro) => (if str_eqb r [] then broot else r, ro || bro)
    | None => (r, ro)
    end in
  if str_eqb r [] then Err (other (str "sessionfsops: root is required")) else
  let absolute := if IsAbs r then Clean r else Join cwd r in
  let os {A} (p : bytes) (v : result errno A) := result_map_err (fun e => other (h_text h e p)) v in
  let* resolved := os absolute (EvalSymlinks h f absolute) in
  let* info := os resolved (os_Stat h f resolved) in
  if negb (i_dir info) then Err (other (str "sessionfsops: root is not a directory")) else
  match description with
  | None => Ok (mkServer resolved ro)
  | Some (broot, _) =>
    let mismatch := Err (other (str "sessionfsops: backend root does not match server root")) in
    match EvalSymlinks h f broot with
    | Err _ => mismatch
    | Ok backendRoot => if str_eqb (Clean backendRoot) (Clean resolved) then Ok (mkServer resolved ro) else mismatch
    end
  end.

(** ** client.go *)

Section Client.
Context `{FsJson} {St : Type}.

(** What the other end of a routed stream makes of the bytes sent to it. *)
Context (stream : St -> bytes -> bytes * St).

(** [call], with the request identifier that [randomID] returned. *)
Definition call (st : St) (id : bytes) (r : Request) : result failure Result * St :=
  let request := mkRequest ProtocolVersion id (rq_Operation r) (rq_FinalPath r) (rq_TempPath r) (rq_Mode r)
    (rq_PreserveExistingMode r) (rq_ReplaceExisting r) (rq_LinkTarget r) (rq_ModTimeUnixNano r) (rq_Cursor r) (rq_Limit r) in
  match writeRequest request with
  | Err e => (Err e, st)
  | Ok out =>
    let '(inp, st) := stream st out in
    (let* response := readResponse inp in
     if str_eqb (rp_ID response) id then Ok (rp_Result response) else Err (other (str "sessionfsops: response ID mismatch")), st)
  end.

Definition request_of (operation final temp : bytes) (mode : Z) (preserve replace : bool) (target : bytes) (nanos : Z) (cursor : bytes) (limit : Z) : Request :=
  mkRequest [] [] operation final temp mode preserve replace target nanos cursor limit.

Definition PrepareReplace st id finalPath mode preserve := call st id (request_of OpPrepareReplace finalPath [] mode preserve false [] 0 [] 0).
Definition CommitReplace st id tempPath finalPath := call st id (request_of OpCommitReplace finalPath tempPath 0 false false [] 0 [] 0).
Definition AbortReplace st id tempPath := call st id (request_of OpAbortReplace [] tempPath 0 false false [] 0 [] 0).
Definition Lstat st id path : result failure FileMetadata * St :=
  let '(r, st) := call st id (request_of OpLstat path [] 0 false false [] 0 [] 0) in
  (let* result := r in
   match rs_Metadata result with Some md => Ok md | None => Err (other (str "sessionfsops: missing lstat metadata")) end, st).
Definition List_page st id path cursor limit : result failure (list FileMetadata * bytes) * St :=
  let '(r, st) := call st id (request_of OpList path [] 0 false false [] 0 cursor limit) in
  (let* result := r in Ok (rs_Entries result, rs_NextCursor result), st).
Definition Symlink_ st id path target replace := call st id (request_of OpSymlink path [] 0 false replace target 0 [] 0).
Definition SetMetadata st id path mode nanos := call st id (request_of OpSetMetadata path [] mode false false [] nanos [] 0).
Definition PrepareTree st id finalPath mode replace := call st id (request_of OpPrepareTree finalPath [] mode false replace [] 0 [] 0).
Definition CommitTree st id tempPath finalPath replace := call st id (request_of OpCommitTree finalPath tempPath 0 false replace [] 0 [] 0).
Definition AbortTree st id tempPath := call st id (request_of OpAbortTree [] tempPath 0 false false [] 0 [] 0).

(** The loop of [ListAll]: [ids] are the identifiers of its requests, [None] is
    a loop that is still running when [fuel] ends. *)
Fixpoint ListAll (fuel : nat) (ids : nat -> bytes) (st : St) (path cursor : bytes) (out : list FileMetadata) :
    option (result failure (list FileMetadata) * St) :=
  match fuel with
  | O => None
  | S fuel =>
    match List_page st (ids fuel) path cursor 256 with
    | (Err e, st) => Some (Err e, st)
    | (Ok (entries, next), st) =>
      let out := out ++ entries in
      if str_eqb next [] then Some (Ok out, st) else
      if str_eqb next cursor then Some (Err (other (str "sessionfsops: list cursor did not advance")), st) else
      ListAll fuel ids st path next out
    end
  end.

End Client.
End SessionFsOps.
