(* ===== verification/SessionFsOpsProofs.v ===== *)
(** * File operations over session streams: resolution and effects *)

From S2P Require Import Prelude GoStrings GoFs GoFsProofs GoFsOps GoFsOpsProofs FileBackend SessionFsOps.

Module SessionFsOpsProofs.
Import GoStrings GoFs GoFsProofs GoFsOps GoFsOpsProofs FileBackend SessionFsOps.

(** ** Paths of requests *)

Lemma split_slash_byte z v c : z <> slash -> existsb (Z.eqb z) v = false -> c ∈ split_slash v -> existsb (Z.eqb z) c = false.
Proof.
  intros Hz. revert c. induction v as [|b v IH]; intros c; cbn [split_slash existsb].
  - intros _ ->%list_elem_of_singleton. done.
  - intros [Hb Hv]%orb_false_iff. specialize (IH) as IH'. destruct (b =? 47).
    + rewrite elem_of_cons. intros [->|Hc]; [done|by apply IH'].
    + pose proof (split_slash_nonempty v) as Hne. destruct (split_slash v) as [|d r] eqn:E; [done|].
      rewrite elem_of_cons. intros [->|Hc].
      * cbn [existsb]. rewrite Hb. apply IH'; [done|by left].
      * apply IH'; [done|by right].
Qed.

(** A path the service accepts: names below the root, the last one apart. *)
Lemma cleanRelative_ok raw rel : cleanRelative raw = Ok rel -> exists rl nm, rel = join_slash (rl ++ [nm]) /\ Forall name (rl ++ [nm]).
Proof.
  unfold cleanRelative. set (t := TrimSpace raw). destruct (str_eqb_spec t []); [done|]. cbn [orb].
  destruct (HasPrefix t [slash]) eqn:Ea; [done|]. destruct (contains_byte 0 t) eqn:E0; [done|]. cbn [orb]. destruct (contains_byte 92 t); [done|].
  destruct (existsb (str_eqb dotdot) (split_slash t)) eqn:Ed; [done|].
  assert (IsAbs t = false) as Habs.
  { destruct t as [|c t']; [done|]. cbn in Ea |- *. rewrite andb_true_r in Ea. rewrite Z.eqb_sym. exact Ea. }
  destruct (Clean_relative t Habs Ed) as [Hp ->]. set (l := List.filter kept_comp (split_slash t)) in *.
  assert (Forall name l) as Hn.
  { apply Forall_forall. intros c Hc. split; [rewrite Forall_forall in Hp; by apply Hp|]. apply (split_slash_byte 0 t c); [done..|].
    apply list_elem_of_In in Hc. apply filter_In in Hc as [Hc _]. by apply list_elem_of_In. }
  clearbody l. destruct l as [|nm rl _] using rev_ind; [done|]. destruct (rl ++ [nm]) eqn:El; [by destruct rl|]. rewrite <- El in *.
  destruct (_ || _); [done|]. intros [= <-]. by exists rl, nm.
Qed.

Lemma contains_existsb z (s : bytes) : contains_byte z s = existsb (Z.eqb z) s.
Proof. done. Qed.

Lemma parent_relative (rl : list bytes) : Forall plain rl ->
  (let p := match rl with [] => dot | _ => join_slash rl end in if str_eqb p dot then [] else p) = join_slash rl.
Proof.
  intros H. destruct rl as [|y r]; [done|]. cbv zeta. destruct (str_eqb_spec (join_slash (y :: r)) dot) as [E|]; [|done].
  by apply join_slash_not_dot in E.
Qed.

Section Resolve.
Context (s : Server) (rootl : loc).
Context (root_abs : root s = abs_path rootl) (root_plain : Forall plain rootl).

Lemma fsops_withinRoot d : Forall plain d -> withinRoot (root s) (abs_path d) = true -> inside rootl d.
Proof.
  intros Hd. unfold withinRoot, Rel. rewrite root_abs, !comps_abs by done. cbn [abs_path IsAbs]. rewrite Z.eqb_refl. cbn [andb negb].
  destruct (rel_comps_cases rootl d) as [(u & -> & _)|[u ->]]; [intros _; by exists u|].
  pose proof (join_slash_prefix dotdot u) as Hp. rewrite Hp. cbn [negb andb]. rewrite orb_false_r.
  apply HasPrefix_app in Hp as [t ->]. by destruct (str_eqb_spec (dotdot ++ t) dot), (str_eqb_spec (dotdot ++ t) []).
Qed.

(** Where a path leads: a directory below the root and a name in it. *)
Record resolved (x : xhost) (f : fs) (raw rel prel nm pabs : bytes) (rl : list bytes) (lp : loc) : Prop := {
  res_rel : rel = join_slash (rl ++ [nm]);
  res_prel : prel = join_slash rl;
  res_names : Forall name (rl ++ [nm]);
  res_abs : pabs = abs_path lp;
  res_real : real f lp;
  res_inside : inside rootl lp;
  res_join : Join pabs nm = abs_path (lp ++ [nm]);
  res_name : name nm;
  res_walk : walk 255 f true [] (rootl ++ rl) = Found lp;
  res_within : withinRoot (root s) pabs = true;
  res_clean : cleanRelative raw = Ok rel
}.

Lemma resolveFinal_ok x f raw rel prel nm pabs : resolveFinal x s f raw = Ok (rel, prel, nm, pabs) ->
  exists rl lp, resolved x f raw rel prel nm pabs rl lp.
Proof.
  unfold resolveFinal. intros (relative & Hclean & H)%result_bind_ok. pose proof Hclean as (rl & nm' & -> & Hn)%cleanRelative_ok.
  pose proof (names_plain _ Hn) as Hp. revert H. rewrite Dir_of_join, Base_of_join by done.
  assert (Forall plain rl) as Hrl by (by apply Forall_app in Hp as [? _]). rewrite parent_relative by done.
  destruct (_ || _); [done|]. rewrite root_abs, Join_root by done.
  destruct (EvalSymlinks (x_host x) f (abs_path (rootl ++ rl))) as [e|e] eqn:Ee; [|done].
  apply EvalSymlinks_ok in Ee as (d & -> & Hw & Hset & nd & Hnd & Hlink); [|by apply Forall_app].
  pose proof (settled_names _ _ Hset) as Hdn. pose proof (names_plain _ Hdn) as Hdp.
  rewrite <- root_abs. destruct (withinRoot (root s) (abs_path d)) eqn:Hin; [|done]. cbn [negb].
  destruct (os_Stat (x_host x) f (abs_path d)) as [info|] eqn:Es; [|done]. destruct (i_dir info) eqn:Ei; [|done].
  intros [= <- <- <- <-]. exists rl, d.
  assert (node_at f d = Some Dir) as Hdir.
  { revert Es. unfold os_Stat. destruct (syscall_walk (x_host x) CallStat f true d Hdp) as [->|[e ->]]; [|done].
    rewrite walk_self; [|done|by rewrite Hnd; intros t [= ->]; apply (Hlink eq_refl t)].
    rewrite Hnd. intros [= <-]. unfold info_at in Ei. rewrite Hnd in Ei. destruct nd as [ct| |t]; [done|done|]. by destruct (Hlink eq_refl t). }
  assert (name nm') as Hnm by (by apply Forall_app in Hn as [_ [? _]%Forall_cons]).
  split; try done; [|by apply fsops_withinRoot|by apply Join_child, Hnm].
  destruct Hset as [->|(e & c & -> & Hr & Hc)]; [apply real_nil|by apply real_snoc].
Qed.

Lemma resolvePath_ok x f raw rel abs : resolvePath x s f raw = Ok (rel, abs) ->
  exists prel nm pabs rl lp, resolved x f raw rel prel nm pabs rl lp /\ abs = abs_path (lp ++ [nm]).
Proof.
  unfold resolvePath. intros ([[[rel' prel] nm] pabs] & H & [= <- <-])%result_bind_ok.
  apply resolveFinal_ok in H as (rl & lp & Hres). exists prel, nm, pabs, rl, lp. split; [done|]. apply Hres.
Qed.

End Resolve.

(** ** Hidden names *)

(** [rand.Read] fills the buffer of sixteen bytes. *)
Definition random_bytes (x : xhost) : Prop := forall n r, x_random x n = Some r -> bytes_ok r /\ length r = 16%nat.

Lemma hex_encode_chars r : bytes_ok r -> Forall (fun c => 48 <= c <= 57 \/ 97 <= c <= 102) (hex_encode r).
Proof.
  intros H. unfold hex_encode. induction H as [|b r Hb H IH]; [constructor|]. rewrite fmap_cons. cbn [concat].
  unfold is_u in Hb. change (2 ^ 8) with 256 in Hb.
  assert (forall n, 0 <= n < 16 -> 48 <= hex_digit n <= 57 \/ 97 <= hex_digit n <= 102) as Hh.
  { intros n Hn. unfold hex_digit. destruct (n <? 10) eqn:E; lia. }
  repeat (constructor; [apply Hh; first [apply Z.mod_pos_bound; lia|split; [apply Z.div_pos; lia|apply Z.div_lt_upper_bound; lia]]|]). done.
Qed.

Lemma hidden_name (prefix r : bytes) : prefix ∈ [tempPrefix; treeTempPrefix; treeBackupPrefix] -> bytes_ok r -> name (prefix ++ hex_encode r).
Proof.
  intros Hpre Hr. pose proof (hex_encode_chars r Hr) as Hh.
  assert (exists q, prefix = 46 :: 119 :: q /\ (slash ∉ prefix) /\ existsb (Z.eqb 0) prefix = false) as (q & Eq & Hs & H0).
  { repeat (apply elem_of_cons in Hpre as [->|Hpre]; [eexists; split; [vm_compute; reflexivity|split; [|by vm_compute]]|]).
    1-3: intros Hin; apply list_elem_of_In in Hin; vm_compute in Hin; intuition discriminate.
    by apply not_elem_of_nil in Hpre. }
  split; [split_and!|].
  - by rewrite Eq.
  - by rewrite Eq.
  - by rewrite Eq.
  - intros [Hin|Hin]%elem_of_app; [done|]. rewrite Forall_forall in Hh. apply Hh in Hin. unfold slash in Hin. lia.
  - rewrite existsb_app, H0. cbn [orb]. apply not_true_iff_false. intros (y & Hy & Ey)%existsb_exists. rewrite Forall_forall in Hh.
    apply list_elem_of_In, Hh in Hy. lia.
Qed.

Lemma randomName_ok x prefix n nm : random_bytes x -> prefix ∈ [tempPrefix; treeTempPrefix; treeBackupPrefix] ->
  randomName x prefix n = Ok nm -> name nm /\ HasPrefix nm prefix = true.
Proof.
  intros Hr Hp. unfold randomName. destruct (x_random x n) as [r|] eqn:E; [|done]. intros [= <-].
  split; [by apply hidden_name, (Hr n r E)|]. apply HasPrefix_app. by eexists.
Qed.

(** ** Effects of the operations *)

Section Effects.
Context (x : xhost) (s : Server) (quote : bytes -> bytes) (rootl : loc).
Context (root_abs : root s = abs_path rootl) (root_plain : Forall plain rootl) (Hrandom : random_bytes x).

Abbreviation below_root := (local rootl).

Lemma make_link_local f lp nm rel target o f' : real f lp -> name nm ->
  make_link x f rel (abs_path (lp ++ [nm])) target = (o, f') -> local lp f f'.
Proof.
  intros Hr Hn. unfold make_link. destruct (os_Symlink x f target _) as [f1|] eqn:E; [|by intros [= _ <-]].
  apply symlink_child in E as [Hnone ->]; [|done..].
  destruct (metadata_of x _ rel _); intros [= _ <-]; (apply local_insert; [done..|by rewrite Hnone]).
Qed.

Lemma remove_local f lp nm f' : real f lp -> name nm -> os_Remove (x_host x) f (abs_path (lp ++ [nm])) = Ok f' -> local lp f f'.
Proof. intros Hr Hn H. apply remove_child in H as [-> Hd]; [|done..]. by apply local_delete. Qed.

Lemma rename_local f lp a b f' : real f lp -> name a -> name b ->
  os_Rename x f (abs_path (lp ++ [a])) (abs_path (lp ++ [b])) = Ok f' -> local lp f f'.
Proof.
  intros Hr Ha Hb H. apply rename_child_ok in H as (nd & _ & Hnd & _ & ->); [|done..].
  destruct (decide (a = b)); [done|]. by apply local_move.
Qed.

Lemma removeall_local f lp nm r f' : real f lp -> name nm -> os_RemoveAll x f (abs_path (lp ++ [nm])) = (r, f') -> local lp f f'.
Proof.
  intros Hr Hn H. apply removeall_child in H as [[-> _]|(_ & left & -> & _)]; [done| |done..]. apply local_remove_tree.
Qed.

Lemma symlink_local f r o f' : symlink x s f r = (o, f') -> below_root f f'.
Proof.
  unfold symlink, resolvePath. destruct (resolveFinal x s f (rq_FinalPath r)) as [[[[rel prel] nm] pabs]|] eqn:E; [cbn [result_bind]|by intros [= _ <-]].
  apply (resolveFinal_ok s rootl) in E as (rl & lp & [_ _ _ -> Hreal Hin -> Hnm _ _ _]); [|done..].
  assert (forall g o g', local lp f g -> make_link x g rel (abs_path (lp ++ [nm])) (TrimSpace (rq_LinkTarget r)) = (o, g') -> below_root f g') as Hmk.
  { intros g o1 g' Hg Hm. apply (local_inside rootl lp); [done|]. transitivity g; [done|]. by eapply make_link_local; [eapply local_real| |]. }
  destruct (_ || _); [by intros [= _ <-]|]. destruct (negb _); [by intros [= _ <-]|].
  destruct (os_Lstat x f _) as [info|e].
  - destruct (negb _); [by intros [= _ <-]|]. destruct (is_dir info); [by intros [= _ <-]|].
    destruct (os_Remove _ _ _) as [g|] eqn:Er; [|by intros [= _ <-]]. apply Hmk. by eapply remove_local.
  - destruct (IsNotExist e); [|by intros [= _ <-]]. by apply Hmk.
Qed.

Lemma finish_temp_local f lp nm o f' : real f lp -> name nm -> finish_temp x f (abs_path (lp ++ [nm])) = (o, f') -> local lp f f'.
Proof.
  intros Hr Hn. unfold finish_temp. destruct (os_Remove (x_host x) f _) as [g|] eqn:E.
  - apply remove_local in E; [|done..]. repeat case_match; by intros [= _ <-].
  - repeat case_match; by intros [= _ <-].
Qed.

Lemma create_temp_local attempts n f lp prel mode rep o f' : real f lp ->
  create_temp x attempts n f prel (abs_path lp) mode rep = (o, f') -> local lp f f'.
Proof.
  intros Hr. revert n. induction attempts as [|attempts IH]; intros n; cbn [create_temp]; [by intros [= _ <-]|].
  destruct (randomName x tempPrefix n) as [nm|] eqn:En; [|by intros [= _ <-]].
  apply randomName_ok in En as [Hnm _]; [|done|by left]. assert (Forall plain lp) as Hp by (by apply names_plain, Hr).
  rewrite Join_child by (by try apply Hnm). destruct (os_Exclusive x f _) as [g|e] eqn:Ex.
  - apply exclusive_child in Ex as [Hnone ->]; [|done..].
    assert (local lp f (<[lp ++ [nm] := File []]> f)) as Hl by (apply local_insert; [done..|by rewrite Hnone]).
    destruct (finish_temp x _ _) as [o1 g'] eqn:Ef. apply finish_temp_local in Ef; [|by eapply local_real|done].
    destruct o1; intros [= _ <-]; by etrans.
  - destruct e; try (by intros [= _ <-]). apply IH.
Qed.

Lemma prepareReplace_local f r o f' : prepareReplace x s f r = (o, f') -> below_root f f'.
Proof.
  unfold prepareReplace. destruct (resolveFinal x s f (rq_FinalPath r)) as [[[[rel prel] nm] pabs]|] eqn:E; [|by intros [= _ <-]].
  apply (resolveFinal_ok s rootl) in E as (rl & lp & [_ _ _ -> Hreal Hin -> Hnm _ _ _]); [|done..].
  destruct (os_Lstat x f _) as [info|e].
  - destruct (negb _); [by intros [= _ <-]|]. intros H%create_temp_local; [|done]. by eapply local_inside.
  - destruct (negb _); [by intros [= _ <-]|]. intros H%create_temp_local; [|done]. by eapply local_inside.
Qed.

(** Two paths in one directory. *)
Lemma same_parent f raw raw' prel pabs prel' pabs' (nm nm' : bytes) rel rel' rl rl' lp lp' :
  resolved s rootl x f raw rel prel nm pabs rl lp -> resolved s rootl x f raw' rel' prel' nm' pabs' rl' lp' ->
  negb (str_eqb prel prel') || negb (str_eqb pabs pabs') = false -> lp' = lp /\ pabs' = pabs /\ prel' = prel.
Proof.
  intros H1 H2 [Hp Ha]%orb_false_iff. apply negb_false_iff in Hp, Ha. destruct (str_eqb_spec prel prel') as [->|]; [|done].
  destruct (str_eqb_spec pabs pabs') as [->|]; [|done]. split; [|done].
  pose proof (res_abs _ _ _ _ _ _ _ _ _ _ _ H1) as E1. rewrite (res_abs _ _ _ _ _ _ _ _ _ _ _ H2) in E1. unfold abs_path in E1. injection E1 as E1.
  apply join_slash_inj in E1; [done|..]; apply names_plain; [apply (res_real _ _ _ _ _ _ _ _ _ _ _ H2)|apply (res_real _ _ _ _ _ _ _ _ _ _ _ H1)].
Qed.

Lemma commitReplace_local f r o f' : commitReplace x s quote f r = (o, f') -> below_root f f'.
Proof.
  unfold commitReplace. destruct (resolveFinal x s f (rq_FinalPath r)) as [[[[rel prel] nm] pabs]|] eqn:E1; [|by intros [= _ <-]].
  destruct (resolveFinal x s f (rq_TempPath r)) as [[[[trel tprel] tnm] tpabs]|] eqn:E2; [|by intros [= _ <-]].
  apply (resolveFinal_ok s rootl) in E1 as (rl & lp & R1), E2 as (trl & tlp & R2); [|done..].
  destruct (_ || _) eqn:Es; [by intros [= _ <-]|]. destruct (same_parent _ _ _ _ _ _ _ _ _ _ _ _ _ _ _ R1 R2 Es) as (-> & -> & ->). clear Es.
  destruct R1 as [_ _ _ -> Hreal Hin -> Hnm _ _ _], R2 as [_ _ _ _ _ _ -> Htnm _ _ _].
  assert (forall o g, rename_temp x quote f (abs_path (lp ++ [tnm])) (abs_path (lp ++ [nm])) trel rel = (o, g) -> below_root f g) as Hmv.
  { intros o1 g. unfold rename_temp. destruct (os_Rename x f _ _) as [g1|] eqn:Er; [|by intros [= _ <-]]. intros [= _ <-].
    apply (local_inside rootl lp); [done|]. by apply (rename_local f lp tnm nm). }
  destruct (negb _); [by intros [= _ <-]|]. destruct (os_Lstat x f (abs_path (lp ++ [tnm]))) as [info|]; [|by intros [= _ <-]].
  destruct (negb _); [by intros [= _ <-]|]. destruct (os_Lstat x f (abs_path (lp ++ [nm]))) as [finfo|e]; (destruct (negb _); [by intros [= _ <-]|apply Hmv]).
Qed.

Lemma abortReplace_local f r o f' : abortReplace x s f r = (o, f') -> below_root f f'.
Proof.
  unfold abortReplace. destruct (resolveFinal x s f (rq_TempPath r)) as [[[[rel prel] nm] pabs]|] eqn:E; [|by intros [= _ <-]].
  apply (resolveFinal_ok s rootl) in E as (rl & lp & [_ _ _ -> Hreal Hin -> Hnm _ _ _]); [|done..].
  destruct (negb _); [by intros [= _ <-]|]. destruct (os_Lstat x f _); [|case_match; by intros [= _ <-]].
  destruct (negb _); [by intros [= _ <-]|]. destruct (os_Remove _ _ _) as [g|] eqn:Er; [|case_match; by intros [= _ <-]].
  intros [= _ <-]. eapply local_inside; [done|]. by eapply remove_local.
Qed.

Lemma createHidden_local attempts n f lp prefix o f' : real f lp -> prefix ∈ [tempPrefix; treeTempPrefix; treeBackupPrefix] ->
  createHiddenDirectory x attempts n f (abs_path lp) prefix = (o, f') -> local lp f f'.
Proof.
  intros Hr Hpre. revert n. induction attempts as [|attempts IH]; intros n; cbn [createHiddenDirectory]; [by intros [= _ <-]|].
  destruct (randomName x prefix n) as [nm|] eqn:En; [|by intros [= _ <-]].
  apply randomName_ok in En as [Hnm _]; [|done..]. assert (Forall plain lp) as Hp by (by apply names_plain, Hr).
  rewrite Join_child by (by try apply Hnm). destruct (os_Mkdir _ f _) as [g|e] eqn:Ex.
  - apply mkdir_child in Ex as [Hnone ->]; [|done..]. intros [= _ <-]. apply local_insert; [done..|by rewrite Hnone].
  - destruct e; try (by intros [= _ <-]). apply IH.
Qed.

Lemma stage_tree_local f lp prel mode rep o f' : real f lp -> stage_tree x f prel (abs_path lp) mode rep = (o, f') -> local lp f f'.
Proof.
  intros Hr. unfold stage_tree. destruct (createHiddenDirectory x 32 0 f _ _) as [[[nm a]|e] g] eqn:E; intros [= _ <-];
    (eapply createHidden_local; [done| |exact E]); right; by left.
Qed.

Lemma prepareTree_local f r o f' : prepareTree x s f r = (o, f') -> below_root f f'.
Proof.
  unfold prepareTree. destruct (resolveFinal x s f (rq_FinalPath r)) as [[[[rel prel] nm] pabs]|] eqn:E; [|by intros [= _ <-]].
  apply (resolveFinal_ok s rootl) in E as (rl & lp & [_ _ _ -> Hreal Hin -> Hnm _ _ _]); [|done..].
  destruct (os_Lstat x f _) as [info|e].
  - destruct (_ || _); [by intros [= _ <-]|]. destruct (negb _); [by intros [= _ <-]|]. intros H%stage_tree_local; [|done].
    by apply (local_inside rootl lp).
  - destruct (negb _); [by intros [= _ <-]|]. intros H%stage_tree_local; [|done]. by apply (local_inside rootl lp).
Qed.

Lemma reserveHidden_ok attempts n f lp prefix nm abs : real f lp -> prefix ∈ [tempPrefix; treeTempPrefix; treeBackupPrefix] ->
  reserveHiddenPath x attempts n f (abs_path lp) prefix = Ok (nm, abs) ->
  name nm /\ HasPrefix nm prefix = true /\ abs = abs_path (lp ++ [nm]) /\ f !! (lp ++ [nm]) = None.
Proof.
  intros Hr Hpre. revert n. induction attempts as [|attempts IH]; intros n; cbn [reserveHiddenPath]; [done|].
  intros (nm' & Hn & H)%result_bind_ok. apply randomName_ok in Hn as [Hnm Hp']; [|done..].
  assert (Forall plain lp) as Hp by (by apply names_plain, Hr). rewrite Join_child in H by (by try apply Hnm).
  destruct (os_Lstat x f _) as [info|e] eqn:El; [by apply (IH (S n))|]. apply lstat_child in El; [|done..].
  destruct e; try (by apply (IH (S n))). by injection H as <- <-.
Qed.

Lemma swap_tree_local f lp tnm nm bnm brel o f' : real f lp -> name tnm -> name nm -> name bnm ->
  swap_tree x f (abs_path (lp ++ [tnm])) (abs_path (lp ++ [nm])) (abs_path (lp ++ [bnm])) brel = (o, f') -> local lp f f'.
Proof.
  intros Hr Ht Hn Hb. unfold swap_tree. destruct (os_Rename x f _ _) as [f1|] eqn:E1; [|by intros [= _ <-]].
  apply rename_local in E1; [|done..]. pose proof (local_real _ _ _ E1 Hr) as Hr1.
  destruct (os_Rename x f1 (abs_path (lp ++ [tnm])) _) as [f2|] eqn:E2.
  - apply rename_local in E2; [|done..]. pose proof (local_real _ _ _ E2 Hr1) as Hr2.
    destruct (os_RemoveAll x f2 _) as [[e|] f3] eqn:E3; intros [= _ <-]; (apply removeall_local in E3; [|done..]); by do 2 (etrans; [done|]).
  - destruct (os_Rename x f1 (abs_path (lp ++ [bnm])) (abs_path (lp ++ [nm]))) as [f2|] eqn:E3; intros [= _ <-]; [|done]. apply rename_local in E3; [|done..]. by etrans.
Qed.

Lemma commitTree_local f r o f' : commitTree x s f r = (o, f') -> below_root f f'.
Proof.
  unfold commitTree. destruct (resolveFinal x s f (rq_FinalPath r)) as [[[[rel prel] nm] pabs]|] eqn:E1; [|by intros [= _ <-]].
  destruct (resolveFinal x s f (rq_TempPath r)) as [[[[trel tprel] tnm] tpabs]|] eqn:E2; [|by intros [= _ <-]].
  apply (resolveFinal_ok s rootl) in E1 as (rl & lp & R1), E2 as (trl & tlp & R2); [|done..].
  destruct (_ || _) eqn:Es; [by intros [= _ <-]|]. apply orb_false_iff in Es as [Es _].
  destruct (same_parent _ _ _ _ _ _ _ _ _ _ _ _ _ _ _ R1 R2 Es) as (-> & -> & ->). clear Es.
  destruct R1 as [_ _ _ -> Hreal Hin -> Hnm _ _ _], R2 as [_ _ _ _ _ _ -> Htnm _ _ _].
  destruct (os_Lstat x f (abs_path (lp ++ [tnm]))) as [info|]; [|by intros [= _ <-]]. destruct (_ || _); [by intros [= _ <-]|].
  destruct (os_Lstat x f (abs_path (lp ++ [nm]))) as [finfo|e].
  - destruct (negb _); [by intros [= _ <-]|]. destruct (_ || _); [by intros [= _ <-]|].
    destruct (reserveHiddenPath x 32 0 f _ _) as [[bnm babs]|] eqn:Eb; [|by intros [= _ <-]].
    apply reserveHidden_ok in Eb as (Hb & _ & -> & _); [|done|right; right; by left].
    intros H%swap_tree_local; [|done..]. by apply (local_inside rootl lp).
  - destruct (negb _); [by intros [= _ <-]|]. destruct (os_Rename x f _ _) as [g|] eqn:Er; [|by intros [= _ <-]].
    intros [= _ <-]. apply (local_inside rootl lp); [done|]. by apply (rename_local f lp tnm nm).
Qed.

Lemma abortTree_local f r o f' : abortTree x s f r = (o, f') -> below_root f f'.
Proof.
  unfold abortTree. destruct (resolveFinal x s f (rq_TempPath r)) as [[[[rel prel] nm] pabs]|] eqn:E; [|by intros [= _ <-]].
  apply (resolveFinal_ok s rootl) in E as (rl & lp & [_ _ _ -> Hreal Hin -> Hnm _ _ _]); [|done..].
  destruct (_ && _); [by intros [= _ <-]|]. destruct (os_Lstat x f _); [|case_match; by intros [= _ <-]].
  destruct (_ || _); [by intros [= _ <-]|]. destruct (os_RemoveAll x f _) as [[e|] g] eqn:Er; intros [= _ <-];
    (apply (local_inside rootl lp); [done|]; by eapply removeall_local).
Qed.

(** Every operation keeps the file system a tree and stays below the root. *)
Lemma perform_local f r o f' : perform x s quote f r = (o, f') -> below_root f f'.
Proof.
  unfold perform.
  destruct (str_eqb _ OpPrepareReplace); [apply prepareReplace_local|]. destruct (str_eqb _ OpCommitReplace); [apply commitReplace_local|].
  destruct (str_eqb _ OpAbortReplace); [apply abortReplace_local|]. destruct (str_eqb _ OpLstat); [by intros [= _ <-]|].
  destruct (str_eqb _ OpList); [by intros [= _ <-]|]. destruct (str_eqb _ OpSymlink); [apply symlink_local|].
  destruct (str_eqb _ OpSetMetadata); [by intros [= _ <-]|]. destruct (str_eqb _ OpPrepareTree); [apply prepareTree_local|].
  destruct (str_eqb _ OpCommitTree); [apply commitTree_local|]. destruct (str_eqb _ OpAbortTree); [apply abortTree_local|]. by intros [= _ <-].
Qed.

(** Reading operations change nothing. *)
Lemma perform_reading f r o f' : mutatingOperation (rq_Operation r) = false -> perform x s quote f r = (o, f') -> f' = f.
Proof.
  unfold mutatingOperation, perform. intros Hm%negb_false_iff.
  destruct (str_eqb_spec (rq_Operation r) OpLstat) as [->|]; [by intros [= _ <-]|].
  destruct (str_eqb_spec (rq_Operation r) OpList) as [->|]; [by intros [= _ <-]|done].
Qed.

End Effects.

(** ** The server *)

Lemma NewServer_root h f cwd cfg ro description s : NewServer h f cwd cfg ro description = Ok s ->
  (exists rootl, root s = abs_path rootl /\ Forall plain rootl) /\ readOnly s = ro || match description with Some (_, b) => b | None => false end.
Proof.
  unfold NewServer. set (r := TrimSpace cfg).
  assert (exists r' ro', match description with Some (broot, bro) => (if str_eqb r [] then broot else r, ro || bro) | None => (r, ro) end = (r', ro') /\
    ro' = ro || match description with Some (_, b) => b | None => false end) as (r' & ro' & -> & Hro).
  { destruct description as [[broot bro]|]; eexists _, _; (split; [done|]); [done|by rewrite orb_false_r]. }
  destruct (str_eqb r' []); [done|]. intros (e & He & H)%result_bind_ok. apply result_bind_ok in H as (info & _ & H).
  destruct (EvalSymlinks h f _) as [e'|] eqn:Ee in He; [|done]. injection He as ->.
  destruct (negb (i_dir info)); [done|]. apply EvalSymlinks_ends in Ee as (d & -> & Hset & _).
  assert (s = mkServer (abs_path d) ro') as ->.
  { destruct description as [[broot bro]|]; [|by injection H as <-]. destruct (EvalSymlinks h f broot); [|done]. case_match; [by injection H as <-|done]. }
  split; [|done]. exists d. split; [done|]. by eapply names_plain, settled_names.
Qed.

End SessionFsOpsProofs.
