(* ===== verification/SessionFsOpsClaims.v ===== *)
(** * File operations over session streams: what they guarantee *)

From S2P Require Import Prelude GoStrings GoFs GoFsProofs GoFsOps GoFsOpsProofs FileBackend SessionFsOps SessionFsOpsProofs.

Module SessionFsOpsClaims.
Import GoStrings GoFs GoFsProofs GoFsOps GoFsOpsProofs FileBackend SessionFsOps SessionFsOpsProofs.

(** ** Any number of streams *)

Section Streams.
Context `{FsJson} {B : Type} {HB : FileAPI B} (s : Server) (quote : bytes -> bytes).

(** The streams of a server one after the other, each with what the host and
    the random source do during it. *)
Fixpoint streams (b : option B) (f : fs) (l : list (xhost * bytes)) : option B * fs :=
  match l with
  | [] => (b, f)
  | (x, inp) :: l => let '(_, b, f) := Serve x s quote b f inp in streams b f l
  end.

Lemma answer_files x b f r : (answer x s quote b f r).2 = f \/
  (readOnly s && mutatingOperation (rq_Operation r) = false /\ exists o, perform x s quote f r = (o, (answer x s quote b f r).2)).
Proof.
  unfold answer. destruct (readOnly s && mutatingOperation (rq_Operation r)) eqn:E; [by left|].
  destruct b as [b|]; [destruct (api_begin b _) as [[pe|e] b']; [|by left]|];
    destruct (perform x s quote f r) as [o f'] eqn:Ep; right; (split; [done|]); by exists o.
Qed.

Lemma Serve_files x b f inp : (Serve x s quote b f inp).2 = f \/ exists r o,
  readOnly s && mutatingOperation (rq_Operation r) = false /\ perform x s quote f r = (o, (Serve x s quote b f inp).2).
Proof.
  unfold Serve. destruct (readRequest inp) as [r|e]; [|by left].
  destruct (answer_files x b f r) as [E|[Hro [o Ho]]]; destruct (answer x s quote b f r) as [[resp b'] f']; [by left|]. right. by exists r, o.
Qed.

Lemma streams_local rootl b f l : root s = abs_path rootl -> Forall plain rootl -> Forall (fun xi => random_bytes xi.1) l ->
  local rootl f (streams b f l).2.
Proof.
  intros Hr Hp Hx. revert b f. induction Hx as [|[x inp] l Hx Hl IH]; intros b f; [done|]. cbn [streams].
  pose proof (Serve_files x b f inp) as Hs. destruct (Serve x s quote b f inp) as [[out b'] f']. cbn [snd] in Hs.
  etrans; [|apply IH]. destruct Hs as [->|(r & o & _ & Ho)]; [done|]. by eapply perform_local.
Qed.

Lemma streams_readOnly b f l : readOnly s = true -> (streams b f l).2 = f.
Proof.
  intros Hro. revert b f. induction l as [|[x inp] l IH]; intros b f; [done|]. cbn [streams].
  pose proof (Serve_files x b f inp) as Hs. destruct (Serve x s quote b f inp) as [[out b'] f']. cbn [snd] in Hs.
  rewrite IH. destruct Hs as [->|(r & o & Hm & Ho)]; [done|]. rewrite Hro in Hm. by eapply perform_reading.
Qed.

End Streams.

(** ** A path that is sent back *)

Lemma space_head_slash p q q' : space_head (p ++ slash :: q) = 0%nat -> space_head (p ++ slash :: q') = 0%nat.
Proof.
  assert (forall a, space2 a slash = false) as H2 by (intros a; unfold space2, slash; cbn; by rewrite andb_false_r).
  assert (forall a b, space3 a b slash = false) as H3 by (intros a b; unfold space3, slash; cbn; by rewrite !andb_false_r).
  assert (forall a c, space3 a slash c = false) as H4 by (intros a c; unfold space3, slash; cbn; by rewrite !andb_false_r).
  assert (forall b c, space3 slash b c = false) as H5 by (intros b c; by unfold space3, slash; cbn).
  assert (forall b, space2 slash b = false) as H6 by (intros b; by unfold space2, slash; cbn).
  destruct p as [|a [|b [|c p]]]; cbn [app space_head].
  - change (space1 slash) with false. cbn [negb]. intros _. destruct q' as [|y q']; [done|]. rewrite H6. destruct q'; [done|]. by rewrite H5.
  - destruct (space1 a); [done|]. rewrite !H2. intros _. destruct q'; [done|]. by rewrite H4.
  - destruct (space1 a); [done|]. destruct (space2 a b); [done|]. by rewrite !H3.
  - done.
Qed.

Lemma space_tail_hex c r : 48 <= c <= 57 \/ 97 <= c <= 102 -> space_tail (c :: r) = 0%nat.
Proof.
  intros Hc. cbn [space_tail]. assert (space1 c = false) as ->.
  { unfold space1. destruct Hc; rewrite orb_false_iff, andb_false_iff, !Z.leb_gt, Z.eqb_neq; lia. }
  assert (forall b, space2 b c = false) as H2.
  { intros b. unfold space2. assert ((c =? 133) || (c =? 160) = false) as -> by (rewrite orb_false_iff, !Z.eqb_neq; lia). apply andb_false_r. }
  assert (forall a b, space3 a b c = false) as H3.
  { intros a b. unfold space3. replace (c =? 128) with false by lia. replace (c =? 159) with false by lia. replace (128 <=? c) with false by lia.
    replace (c =? 168) with false by lia. replace (c =? 169) with false by lia. replace (c =? 175) with false by lia. by rewrite !andb_false_r. }
  destruct r as [|b r]; [done|]. rewrite H2. destruct r; [done|]. by rewrite H3.
Qed.

Definition no_backslash (l : list bytes) : Prop := Forall (fun c => contains_byte 92 c = false) l.

Lemma join_no_byte z l : z <> slash -> Forall (fun c => contains_byte z c = false) l -> contains_byte z (join_slash l) = false.
Proof.
  intros Hz H. induction H as [|c l Hc H IH]; [done|]. destruct l as [|d l]; [done|].
  rewrite join_slash_cons by done. unfold contains_byte in *. rewrite existsb_app, Hc. cbn [existsb orb]. rewrite IH.
  rewrite orb_false_r. unfold slash in *. lia.
Qed.

(** A canonical path, sent as it is. *)
Definition sendable (l : list bytes) : Prop := Forall name l /\ no_backslash l /\ trimmed (join_slash l) /\ l <> [].

Lemma cleanRelative_sendable l : sendable l -> cleanRelative (join_slash l) = Ok (join_slash l).
Proof.
  intros (Hn & Hb & Ht & Hl). pose proof (names_plain _ Hn) as Hp. unfold cleanRelative. rewrite trimmed_TrimSpace by done.
  destruct l as [|y l]; [done|]. assert (plain y) as Hy by (by apply Forall_cons in Hp as [? _]).
  destruct (join_slash_nonempty y l Hy) as (c & r & E & Hc).
  assert (join_slash (y :: l) <> []) as Hne by (by rewrite E).
  destruct (str_eqb_spec (join_slash (y :: l)) []); [done|]. cbn [orb].
  assert (HasPrefix (join_slash (y :: l)) [slash] = false) as -> by (rewrite E; cbn [HasPrefix]; unfold slash in *; by replace (47 =? c) with false by lia).
  rewrite !join_no_byte; [|done|done|done|by eapply Forall_impl; [exact Hn|]; intros ? []]. cbn [orb].
  rewrite split_slash_join by (try done; by apply plain_no_slash).
  assert (existsb (str_eqb dotdot) (y :: l) = false) as ->.
  { apply not_true_iff_false. intros (d & Hd & Ed)%existsb_exists. destruct (str_eqb_spec dotdot d) as [<-|]; [|done].
    rewrite Forall_forall in Hp. apply list_elem_of_In, Hp in Hd as (_ & _ & ? & _). done. }
  rewrite Clean_rel by done. destruct (str_eqb_spec (join_slash (y :: l)) []); [done|].
  destruct (str_eqb_spec (join_slash (y :: l)) dot) as [Ed|]; [by apply join_slash_not_dot in Ed|].
  assert (forall d q, d = dotdot -> split_slash (join_slash (y :: l)) = d :: q -> False) as Hdd.
  { intros d q -> Es. rewrite split_slash_join in Es by (try done; by apply plain_no_slash). injection Es as -> ->. by destruct Hy as (_ & _ & ? & _). }
  destruct (str_eqb_spec (join_slash (y :: l)) dotdot) as [Ed|]; [exfalso; apply (Hdd dotdot []); [done|by rewrite Ed]|].
  destruct (HasPrefix (join_slash (y :: l)) (dotdot ++ [slash])) eqn:Ep; [exfalso|done].
  apply HasPrefix_app in Ep as [t Et]. apply (Hdd dotdot (split_slash t)); [done|]. by rewrite Et.
Qed.

(** ** Hosts that do not fail *)

Record calm_host (x : xhost) : Prop := {
  calm_h : forall c g p, h_fails (x_host x) c g p = false;
  calm_x : forall c g p, x_fails x c g p = false
}.

Section Paths.
Context (s : Server) (rootl : loc) (root_abs : root s = abs_path rootl) (root_plain : Forall plain rootl).

(** A canonical path resolves to the place its components lead to. *)
Lemma resolve_sendable x f rl nm rel prel nm' pabs : sendable (rl ++ [nm]) ->
  resolveFinal x s f (join_slash (rl ++ [nm])) = Ok (rel, prel, nm', pabs) ->
  rel = join_slash (rl ++ [nm]) /\ prel = join_slash rl /\ nm' = nm /\
  exists lp, resolved s rootl x f (join_slash (rl ++ [nm])) rel prel nm pabs rl lp.
Proof.
  intros Hs H. apply (resolveFinal_ok s rootl) in H as (rl' & lp & R); [|done..].
  pose proof (res_clean _ _ _ _ _ _ _ _ _ _ _ R) as Hc. rewrite cleanRelative_sendable in Hc by done. injection Hc as Hrel.
  pose proof (res_rel _ _ _ _ _ _ _ _ _ _ _ R) as Hr. pose proof (res_names _ _ _ _ _ _ _ _ _ _ _ R) as Hn'.
  rewrite <- Hrel in Hr. apply join_slash_inj in Hr; [|by apply names_plain, Hs|by apply names_plain].
  apply app_inj_tail in Hr as [<- <-]. split; [done|]. split; [apply R|]. split; [done|]. by exists lp.
Qed.

Lemma resolve_again x f g rl nm nm' lp rel raw prel pabs : calm_host x -> f ⊆ g -> sendable (rl ++ [nm']) ->
  resolved s rootl x f raw rel prel nm pabs rl lp -> real g lp ->
  resolveFinal x s g (join_slash (rl ++ [nm'])) = Ok (join_slash (rl ++ [nm']), join_slash rl, nm', abs_path lp).
Proof.
  intros Hcalm Hsub Hs R Hreal. pose proof (names_plain _ (proj1 Hs)) as Hp. unfold resolveFinal.
  rewrite cleanRelative_sendable by done. cbn [result_bind]. rewrite Dir_of_join, Base_of_join by done.
  assert (Forall plain rl) as Hrl by (by apply Forall_app in Hp as [? _]). rewrite parent_relative by done.
  assert (plain nm' /\ existsb (Z.eqb 0) nm' = false /\ contains_byte 92 nm' = false) as ((N1 & N2 & N3 & N4) & N0 & N92).
  { destruct Hs as (Hn & Hb & _). apply Forall_app in Hn as [_ [[? ?] _]%Forall_cons], Hb as [_ [? _]%Forall_cons]. done. }
  assert (contains_byte 47 nm' = false) as N47.
  { apply not_true_iff_false. intros (y & Hy & Ey)%existsb_exists. apply N4. replace slash with y by (unfold slash; lia). by apply list_elem_of_In. }
  destruct (str_eqb_spec nm' []), (str_eqb_spec nm' dot), (str_eqb_spec nm' dotdot); try done. rewrite N47, N92.
  unfold contains_byte. rewrite N0. cbn [orb]. rewrite root_abs, Join_root by done.
  unfold EvalSymlinks. rewrite (calm_h _ Hcalm). rewrite walk_abs by (by apply Forall_app).
  rewrite (walk_extend 255 f g true [] _ lp) by (try done; apply R). fold (abs_path lp). rewrite <- root_abs.
  pose proof (res_within _ _ _ _ _ _ _ _ _ _ _ R) as Hw. rewrite (res_abs _ _ _ _ _ _ _ _ _ _ _ R) in Hw. rewrite Hw. cbn [negb].
  unfold os_Stat, syscall. rewrite names_no_nul, (calm_h _ Hcalm), walk_abs by (try apply names_plain; apply Hreal).
  rewrite <- (app_nil_r lp) at 1. rewrite walk_real, walk_nil by done. unfold info_at. by rewrite (real_dir _ _ Hreal).
Qed.

End Paths.

(** ** Staged replacement of a file *)

Definition prepare_request (final : bytes) (mode : Z) (preserve : bool) : Request := request_of OpPrepareReplace final [] mode preserve false [] 0 [] 0.
Definition commit_request (temp final : bytes) : Request := request_of OpCommitReplace final temp 0 false false [] 0 [] 0.

Lemma create_temp_ok x attempts n f lp prel mode rep res f' : random_bytes x -> real f lp ->
  create_temp x attempts n f prel (abs_path lp) mode rep = (Ok res, f') ->
  exists m r, x_random x m = Some r /\ let tmp := tempPrefix ++ hex_encode r in
    name tmp /\ f !! (lp ++ [tmp]) = None /\ f' = <[lp ++ [tmp] := File []]> f /\ rs_TempPath res = child_path prel tmp.
Proof.
  intros Hx Hr. revert n. induction attempts as [|attempts IH]; intros n; cbn [create_temp]; [done|].
  unfold randomName. destruct (x_random x n) as [r|] eqn:En; [|done].
  assert (name (tempPrefix ++ hex_encode r)) as Hnm by (apply hidden_name; [by left|by apply (Hx n)]).
  rewrite Join_child by (try apply Hnm; by apply names_plain, Hr).
  destruct (os_Exclusive x f _) as [g|e] eqn:Ex.
  - apply exclusive_child in Ex as [Hnone ->]; [|done..]. unfold finish_temp. destruct (x_fails x CallFchmod _ _); [done|].
    destruct (x_fails x CallClose _ _); [done|]. intros [= <- <-]. by exists n, r.
  - destruct e; try done. apply IH.
Qed.

Lemma child_path_join rl nm : Forall plain rl -> plain nm -> child_path (join_slash rl) nm = join_slash (rl ++ [nm]).
Proof.
  intros Hl Hn. unfold child_path. destruct rl as [|y l]; [done|].
  assert (plain y) as Hy by (by apply Forall_cons in Hl as [? _]). destruct (join_slash_nonempty y l Hy) as (c & r & E & _).
  destruct (str_eqb_spec (join_slash (y :: l)) []) as [E0|]; [by rewrite E in E0|]. by apply Join_rel.
Qed.

(** The temporary path can be sent back. *)
Lemma temp_sendable rl nm r : sendable (rl ++ [nm]) -> bytes_ok r -> length r = 16%nat -> sendable (rl ++ [tempPrefix ++ hex_encode r]).
Proof.
  intros (Hn & Hb & [Ht _] & _) Hr Hlen. assert (name (tempPrefix ++ hex_encode r)) as Hnm by (apply hidden_name; [by left|done]).
  apply Forall_app in Hn as [Hn _]. apply Forall_app in Hb as [Hb _].
  pose proof (hex_encode_chars r Hr) as Hh. pose proof (hex_encode_length r) as Hl. rewrite Hlen in Hl.
  split_and!; [apply Forall_app; split; [done|by constructor]| | |by destruct rl].
  - apply Forall_app. split; [done|]. constructor; [|done]. apply not_true_iff_false. intros (y & Hy & Ey)%existsb_exists.
    apply in_app_or in Hy as [Hy|Hy]; [vm_compute in Hy; intuition (subst; discriminate)|].
    rewrite Forall_forall in Hh. apply list_elem_of_In, Hh in Hy. lia.
  - split.
    + destruct rl as [|y l]; [done|]. rewrite join_slash_snoc in Ht |- * by done. by eapply space_head_slash.
    + destruct (exists_last (l := hex_encode r)) as (q & c & Eq); [by intros E; rewrite E in Hl|].
      assert (exists p, join_slash (rl ++ [tempPrefix ++ hex_encode r]) = p ++ [c]) as [p ->].
      { rewrite Eq. destruct rl as [|y l]; [by exists (tempPrefix ++ q); rewrite <- app_assoc|]. rewrite join_slash_snoc by done.
        exists (join_slash (y :: l) ++ slash :: tempPrefix ++ q). by rewrite <- !app_assoc. }
      rewrite rev_app_distr. apply space_tail_hex. rewrite Eq in Hh. by apply Forall_app in Hh as [_ [? _]%Forall_cons].
Qed.

Lemma move_file f lp a b content : tree f -> a <> b -> f !! (lp ++ [a]) = Some (File content) -> f !! (lp ++ [b]) <> Some Dir ->
  move (lp ++ [a]) (lp ++ [b]) f = <[lp ++ [b] := File content]> (delete (lp ++ [a]) f).
Proof.
  intros Ht Hne Ha Hb. apply map_eq. intros k. rewrite lookup_move. destruct (strip_prefix (lp ++ [b]) k) as [t|] eqn:E.
  - apply strip_prefix_some in E as ->. destruct t as [|c t].
    + by rewrite !app_nil_r, lookup_insert_eq.
    + rewrite (tree_leaf f (lp ++ [a])) by (try done; by rewrite node_at_snoc, Ha).
      rewrite lookup_insert_ne by (intros E%(f_equal length); rewrite !length_app in E; cbn in E; lia).
      rewrite lookup_delete_ne by (rewrite <- !app_assoc; intros [=]%app_inv_head; done).
      by rewrite (tree_leaf f (lp ++ [b])) by (try done; by rewrite node_at_snoc).
  - assert (k <> lp ++ [b]) as Hkb by (intros ->; by apply (strip_prefix_none _ _ E []); rewrite app_nil_r).
    rewrite lookup_insert_ne by done. destruct (under (lp ++ [a]) k) eqn:Eu.
    + apply under_true in Eu as [t ->]. destruct t as [|c t]; [by rewrite app_nil_r, lookup_delete_eq|].
      rewrite lookup_delete_ne by (intros E'%(f_equal length); rewrite !length_app in E'; cbn in E'; lia).
      by rewrite (tree_leaf f (lp ++ [a])) by (try done; by rewrite node_at_snoc, Ha).
    + rewrite lookup_delete_ne; [done|]. intros <-. apply under_false in Eu. apply Eu. exists []. by rewrite app_nil_r.
Qed.

Section Replace.
Context (s : Server) (quote : bytes -> bytes) (rootl : loc) (root_abs : root s = abs_path rootl) (root_plain : Forall plain rootl).

Lemma rename_temp_spec x f lp tmp nm content trel rel o f' : real f lp -> tree f -> name tmp -> name nm ->
  f !! (lp ++ [tmp]) = Some (File content) ->
  rename_temp x quote f (abs_path (lp ++ [tmp])) (abs_path (lp ++ [nm])) trel rel = (o, f') ->
  match o with
  | Ok _ => f' = <[lp ++ [nm] := File content]> (if decide (tmp = nm) then f else delete (lp ++ [tmp]) f)
  | Err _ => f' = f
  end.
Proof.
  intros Hr Ht Hn1 Hn2 Hc. unfold rename_temp. destruct (os_Rename x f _ _) as [g|] eqn:E; intros [= <- <-]; [|done].
  apply rename_child_ok in E as (nd & _ & Hnd & _ & ->); [|done..]. destruct (decide (tmp = nm)) as [->|Hne].
  - by rewrite insert_id.
  - by apply move_file.
Qed.

(** What a commit does, given where its paths lead. *)
Lemma commitReplace_spec x f lp rl tmp nm content o f' : tree f -> f !! (lp ++ [tmp]) = Some (File content) ->
  sendable (rl ++ [tmp]) -> sendable (rl ++ [nm]) -> walk 255 f true [] (rootl ++ rl) = Found lp ->
  commitReplace x s quote f (commit_request (join_slash (rl ++ [tmp])) (join_slash (rl ++ [nm]))) = (o, f') ->
  match o with
  | Ok _ => f' = <[lp ++ [nm] := File content]> (if decide (tmp = nm) then f else delete (lp ++ [tmp]) f)
  | Err _ => f' = f
  end.
Proof.
  intros Ht Hc Hs1 Hs2 Hw. unfold commitReplace. cbn [commit_request request_of rq_FinalPath rq_TempPath].
  destruct (resolveFinal x s f (join_slash (rl ++ [nm]))) as [[[[rel prel] nm'] pabs]|] eqn:E1; [|by intros [= <- <-]].
  destruct (resolveFinal x s f (join_slash (rl ++ [tmp]))) as [[[[trel tprel] tmp'] tpabs]|] eqn:E2; [|by intros [= <- <-]].
  apply (resolve_sendable s rootl) in E1 as (_ & _ & -> & lp1 & R1), E2 as (_ & _ & -> & lp2 & R2); [|done..].
  assert (lp1 = lp /\ lp2 = lp) as [-> ->].
  { pose proof (res_walk _ _ _ _ _ _ _ _ _ _ _ R1) as W1. pose proof (res_walk _ _ _ _ _ _ _ _ _ _ _ R2) as W2.
    rewrite Hw in W1, W2. by injection W1 as <-; injection W2 as <-. }
  destruct R1 as [_ _ _ -> Hreal _ -> Hnm _ _ _], R2 as [_ _ _ -> _ _ -> Htmp _ _ _].
  destruct (_ || _); [by intros [= <- <-]|]. destruct (negb _); [by intros [= <- <-]|].
  destruct (os_Lstat x f (abs_path (lp ++ [tmp]))) as [info|]; [|by intros [= <- <-]]. destruct (negb _); [by intros [= <- <-]|].
  destruct (os_Lstat x f (abs_path (lp ++ [nm]))); (destruct (negb _); [by intros [= <- <-]|]); by apply rename_temp_spec.
Qed.

(** What a successful preparation leaves. *)
Record prepared (x : xhost) (f f1 : fs) (rl : list bytes) (nm : bytes) (res : Result) (lp : loc) (tmp : bytes) : Prop := {
  pre_final : exists rel prel pabs, resolved s rootl x f (join_slash (rl ++ [nm])) rel prel nm pabs rl lp;
  pre_old : f !! (lp ++ [nm]) = None \/ exists old, f !! (lp ++ [nm]) = Some (File old);
  pre_sendable : sendable (rl ++ [tmp]);
  pre_prefix : HasPrefix tmp tempPrefix = true;
  pre_fresh : f !! (lp ++ [tmp]) = None;
  pre_made : f1 = <[lp ++ [tmp] := File []]> f;
  pre_path : rs_TempPath res = join_slash (rl ++ [tmp])
}.

Lemma prepareReplace_ok x f rl nm mode preserve res f1 : random_bytes x -> sendable (rl ++ [nm]) ->
  prepareReplace x s f (prepare_request (join_slash (rl ++ [nm])) mode preserve) = (Ok res, f1) ->
  exists lp tmp, prepared x f f1 rl nm res lp tmp.
Proof.
  intros Hx Hs. unfold prepareReplace. cbn [prepare_request request_of rq_FinalPath].
  destruct (resolveFinal x s f (join_slash (rl ++ [nm]))) as [[[[rel prel] nm'] pabs]|] eqn:E; [|done].
  apply (resolve_sendable s rootl) in E as (Erel & Eprel & -> & lp & R); [|done..].
  pose proof (res_real _ _ _ _ _ _ _ _ _ _ _ R) as Hreal. pose proof (res_name _ _ _ _ _ _ _ _ _ _ _ R) as Hnm.
  rewrite (res_join _ _ _ _ _ _ _ _ _ _ _ R).
  assert (forall mode rep, (f !! (lp ++ [nm]) = None \/ exists old, f !! (lp ++ [nm]) = Some (File old)) ->
    create_temp x 32 0 f prel pabs mode rep = (Ok res, f1) -> exists lp tmp, prepared x f f1 rl nm res lp tmp) as Hct.
  { intros m rep Hold H. rewrite (res_abs _ _ _ _ _ _ _ _ _ _ _ R) in H. apply create_temp_ok in H as (k & r & Hk & Hn & Hnone & Hf & Hp); [|done..].
    destruct (Hx k r Hk) as [Hb Hl]. pose proof (temp_sendable rl nm r Hs Hb Hl) as Hsend.
    exists lp, (tempPrefix ++ hex_encode r). split; [by eauto|done|done|apply HasPrefix_app; by eexists|done|done|].
    rewrite Hp, Eprel. apply child_path_join; [|apply Hn]. destruct Hs as (Hns & _). apply names_plain in Hns. by apply Forall_app in Hns as [? _]. }
  destruct (os_Lstat x f (abs_path (lp ++ [nm]))) as [info|e] eqn:El; apply lstat_child in El; try done.
  - destruct El as (nd & Hnd & Hty & _). unfold is_regular. rewrite Hty. destruct nd as [old| |t]; [|done..]. apply Hct. right. eauto.
  - destruct e; try done. apply Hct. by left.
Qed.

Lemma lstat_child_calm x f lp nm nd : calm_host x -> real f lp -> name nm -> f !! (lp ++ [nm]) = Some nd ->
  exists info, os_Lstat x f (abs_path (lp ++ [nm])) = Ok info /\
    li_type info = match nd with File _ => Regular | Dir => Directory | Link _ => Symlink end.
Proof.
  intros Hcalm Hr Hn E. destruct (os_Lstat x f (abs_path (lp ++ [nm]))) as [info|e] eqn:El; apply lstat_child in El; try done.
  - destruct El as (nd' & E' & Ht & _). exists info. split; [done|]. rewrite E in E'. by injection E' as <-.
  - destruct e; try (by rewrite (calm_x _ Hcalm) in El). by rewrite E in El.
Qed.

Lemma lstat_missing_calm x f lp nm : calm_host x -> real f lp -> name nm -> f !! (lp ++ [nm]) = None ->
  os_Lstat x f (abs_path (lp ++ [nm])) = Err ENOENT.
Proof.
  intros Hcalm Hr Hn E. unfold os_Lstat. rewrite lcall_child by done. rewrite (calm_x _ Hcalm). unfold place. by rewrite E.
Qed.

Lemma commit_calm x2 x f f1 rl nm res lp tmp content : calm_host x2 -> sendable (rl ++ [nm]) -> tree f -> prepared x f f1 rl nm res lp tmp ->
  is_ok (commitReplace x2 s quote (<[lp ++ [tmp] := File content]> f) (commit_request (join_slash (rl ++ [tmp])) (join_slash (rl ++ [nm])))).1 = true.
Proof.
  intros Hcalm Hs Ht [(rel & prel & pabs & R) Hold Hst Hpre Hfresh _ _]. set (g := <[lp ++ [tmp] := File content]> f).
  pose proof (res_real _ _ _ _ _ _ _ _ _ _ _ R) as Hreal. pose proof (res_name _ _ _ _ _ _ _ _ _ _ _ R) as Hnm.
  assert (name tmp) as Htmp by (destruct Hst as (Hn & _); by apply Forall_app in Hn as [_ [? _]%Forall_cons]).
  assert (f ⊆ g) as Hsub by (by apply insert_subseteq).
  assert (real g lp) as Hrg by (eapply local_real; [|done]; apply local_insert; [done..|by rewrite Hfresh]).
  assert (resolved s rootl x2 f (join_slash (rl ++ [nm])) rel prel nm pabs rl lp) as R2 by (destruct R; by constructor).
  unfold commitReplace. cbn [commit_request request_of rq_FinalPath rq_TempPath].
  rewrite (resolve_again s rootl root_abs root_plain x2 f g rl nm nm lp _ _ _ _ Hcalm Hsub Hs R2 Hrg).
  rewrite (resolve_again s rootl root_abs root_plain x2 f g rl nm tmp lp _ _ _ _ Hcalm Hsub Hst R2 Hrg).
  rewrite !str_eqb_refl, Hpre. cbn [negb orb]. rewrite !Join_child by (try apply Htmp; try apply Hnm; by apply names_plain, Hreal).
  assert (g !! (lp ++ [tmp]) = Some (File content)) as Eg by apply lookup_insert_eq.
  destruct (lstat_child_calm x2 g lp tmp _ Hcalm Hrg Htmp Eg) as (info & -> & Hty). unfold is_regular at 1. rewrite Hty. cbn [negb].
  assert (is_ok (rename_temp x2 quote g (abs_path (lp ++ [tmp])) (abs_path (lp ++ [nm])) (join_slash (rl ++ [tmp])) (join_slash (rl ++ [nm]))).1 = true \/
    g !! (lp ++ [nm]) = Some Dir) as Hmv.
  { unfold rename_temp. rewrite rename_child by done. rewrite !(calm_x _ Hcalm), Eg. destruct (g !! (lp ++ [nm])) as [[| |]|]; auto. }
  assert (g !! (lp ++ [nm]) = None \/ exists old, g !! (lp ++ [nm]) = Some (File old)) as Hg.
  { destruct (decide (nm = tmp)) as [->|Hne]; [right; eauto|]. unfold g. rewrite lookup_insert_ne by (by intros [_ ?]%app_inj_tail). done. }
  destruct Hg as [Hg|[old Hg]].
  - rewrite lstat_missing_calm by done. cbn [IsNotExist negb]. destruct Hmv as [Hmv|Hmv]; [done|by rewrite Hg in Hmv].
  - destruct (lstat_child_calm x2 g lp nm _ Hcalm Hrg Hnm Hg) as (info' & -> & Hty'). unfold is_regular. rewrite Hty'. cbn [negb].
    destruct Hmv as [Hmv|Hmv]; [done|by rewrite Hg in Hmv].
Qed.

End Replace.

(** ** Staged replacement of a tree *)

(** The tree at [b] in [f'] is the tree at [a] in [f]. *)
Definition same_tree (f : fs) (a : loc) (f' : fs) (b : loc) : Prop := forall t, f' !! (b ++ t) = f !! (a ++ t).
Definition no_tree (f : fs) (a : loc) : Prop := forall t, f !! (a ++ t) = None.
Definition elsewhere (names : list bytes) (lp : loc) (f f' : fs) : Prop :=
  forall k, Forall (fun c => ~ inside (lp ++ [c]) k) names -> f' !! k = f !! k.

Lemma no_tree_none f a : tree f -> a <> [] -> f !! a = None -> no_tree f a.
Proof.
  intros Ht Ha Hn [|c t]; [by rewrite app_nil_r|]. apply tree_leaf; [done|]. destruct a; [done|]. cbn. by rewrite Hn.
Qed.

Lemma snoc_neq_nil (lp : loc) (c : bytes) : lp ++ [c] <> [].
Proof. by destruct lp. Qed.

Lemma under_sibling_app (lp : loc) (c d : bytes) (t : loc) : c <> d -> under (lp ++ [c]) ((lp ++ [d]) ++ t) = false.
Proof. intros H. rewrite <- app_assoc. by apply under_sibling. Qed.

Lemma move_effect f lp a b : a <> b -> let f' := move (lp ++ [a]) (lp ++ [b]) f in
  same_tree f (lp ++ [a]) f' (lp ++ [b]) /\ no_tree f' (lp ++ [a]) /\ elsewhere [a; b] lp f f'.
Proof.
  intros Hne. cbv zeta. split_and!.
  - intros t. apply lookup_move_to.
  - intros t. apply lookup_move_from. by apply under_sibling_app.
  - intros k Hk. apply Forall_cons in Hk as [H1 [H2 _]%Forall_cons]. by apply lookup_move_ne; apply under_false.
Qed.

(** A tree that is moved away and back. *)
Lemma move_back f lp a b : a <> b -> no_tree f (lp ++ [b]) -> move (lp ++ [b]) (lp ++ [a]) (move (lp ++ [a]) (lp ++ [b]) f) = f.
Proof.
  intros Hne Hb. apply map_eq. intros k. rewrite lookup_move. destruct (strip_prefix (lp ++ [a]) k) as [t|] eqn:Ea.
  - rewrite lookup_move_to. by rewrite <- (strip_prefix_some _ _ _ Ea).
  - destruct (under (lp ++ [b]) k) eqn:Eb.
    + apply under_true in Eb as [t ->]. by rewrite Hb.
    + apply lookup_move_ne; [|done]. unfold under. by rewrite Ea.
Qed.

Lemma removeall_effect x f lp c r f' : real f lp -> name c -> f !! (lp ++ [c]) <> None -> os_RemoveAll x f (abs_path (lp ++ [c])) = (r, f') ->
  elsewhere [c] lp f f' /\ (forall t, f' !! ((lp ++ [c]) ++ t) = None \/ f' !! ((lp ++ [c]) ++ t) = f !! ((lp ++ [c]) ++ t)) /\
  (r = None -> no_tree f' (lp ++ [c])).
Proof.
  intros Hr Hc Hne H. apply removeall_child in H as [[-> Hx]|(_ & left & -> & Hx)]; [| |done..].
  - split_and!; [done|by right|]. by intros E%Hx.
  - split_and!.
    + intros k [Hk _]%Forall_cons. rewrite lookup_remove_tree, kept_outside; [done|]. by apply under_false.
    + intros t. rewrite lookup_remove_tree. case_match; auto.
    + intros E t. rewrite (Hx E), lookup_remove_tree, kept_none. unfold under. by rewrite strip_prefix_app.
Qed.

Section Tree.
Context (x : xhost) (f : fs) (lp : loc) (tmp nm bak brel : bytes).
Context (Ht : tree f) (Hreal : real f lp) (Htmp : name tmp) (Hnm : name nm) (Hbak : name bak).
Context (Etmp : f !! (lp ++ [tmp]) = Some Dir) (Enm : f !! (lp ++ [nm]) = Some Dir) (Ebak : f !! (lp ++ [bak]) = None).

(** The host refuses the rename that would put the old tree back. *)
Definition put_back_refused (f' : fs) : Prop :=
  os_Rename x f' (abs_path (lp ++ [bak])) (abs_path (lp ++ [nm])) = Err EHOST.

Lemma bak_fresh : bak <> nm /\ bak <> tmp.
Proof. split; intros ->; congruence. Qed.

Lemma swap_tree_spec o f' : swap_tree x f (abs_path (lp ++ [tmp])) (abs_path (lp ++ [nm])) (abs_path (lp ++ [bak])) brel = (o, f') ->
  match o with
  | Ok res => tmp <> nm /\ same_tree f (lp ++ [tmp]) f' (lp ++ [nm]) /\ no_tree f' (lp ++ [tmp]) /\ elsewhere [nm; tmp; bak] lp f f' /\
      (forall t, f' !! ((lp ++ [bak]) ++ t) = None \/ f' !! ((lp ++ [bak]) ++ t) = f !! ((lp ++ [nm]) ++ t)) /\
      (no_tree f' (lp ++ [bak]) /\ rs_BackupPath res = [] \/ rs_BackupPath res = brel)
  | Err _ => f' = f \/ same_tree f (lp ++ [nm]) f' (lp ++ [bak]) /\ no_tree f' (lp ++ [nm]) /\ elsewhere [nm; bak] lp f f' /\ put_back_refused f'
  end.
Proof.
  destruct bak_fresh as [Hb1 Hb2]. unfold swap_tree.
  destruct (os_Rename x f (abs_path (lp ++ [nm])) (abs_path (lp ++ [bak]))) as [f1|] eqn:E1; [|intros [= <- <-]; by left].
  pose proof (rename_local x f lp nm bak f1 Hreal Hnm Hbak E1) as Hl1. pose proof (local_real _ _ _ Hl1 Hreal) as Hr1.
  apply rename_child_ok in E1 as (nd & _ & _ & _ & E1); [|done..]. rewrite decide_False in E1 by done.
  destruct (move_effect f lp nm bak) as (M1 & M2 & M3); [done|]. rewrite <- E1 in M1, M2, M3.
  assert (f1 !! (lp ++ [nm]) = None) as N1 by (specialize (M2 []); by rewrite app_nil_r in M2).
  assert (no_tree f (lp ++ [bak])) as Hnb by (apply no_tree_none; [done|apply snoc_neq_nil|done]).
  destruct (os_Rename x f1 (abs_path (lp ++ [tmp])) (abs_path (lp ++ [nm]))) as [f2|] eqn:E2.
  - pose proof (rename_local x f1 lp tmp nm f2 Hr1 Htmp Hnm E2) as Hl2. pose proof (local_real _ _ _ Hl2 Hr1) as Hr2.
    apply rename_child_ok in E2 as (nd2 & Hnd2 & _ & _ & E2); [|done..].
    assert (tmp <> nm) as Hne by (intros ->; by rewrite N1 in Hnd2). rewrite decide_False in E2 by done.
    destruct (move_effect f1 lp tmp nm) as (L1 & L2 & L3); [done|]. rewrite <- E2 in L1, L2, L3.
    assert (forall t, f1 !! ((lp ++ [tmp]) ++ t) = f !! ((lp ++ [tmp]) ++ t)) as Ft.
    { intros t. apply M3. repeat constructor; apply under_false; by apply under_sibling_app. }
    assert (forall t, f2 !! ((lp ++ [bak]) ++ t) = f !! ((lp ++ [nm]) ++ t)) as Fb.
    { intros t. rewrite <- M1. apply L3. repeat constructor; apply under_false; by apply under_sibling_app. }
    assert (elsewhere [nm; tmp; bak] lp f f2) as Fe.
    { intros k Hk. apply Forall_cons in Hk as [K1 [K2 [K3 _]%Forall_cons]%Forall_cons]. rewrite L3 by (by repeat constructor). apply M3. by repeat constructor. }
    destruct (os_RemoveAll x f2 (abs_path (lp ++ [bak]))) as [r f3] eqn:E3.
    apply removeall_effect in E3 as (Fe3 & Fb3 & Hgone); [|done..|specialize (Fb []); rewrite !app_nil_r in Fb; by rewrite Fb, Enm].
    setoid_rewrite Fb in Fb3.
    assert (forall res, (r = None -> rs_BackupPath res = []) -> (r <> None -> rs_BackupPath res = brel) ->
      tmp <> nm /\ same_tree f (lp ++ [tmp]) f3 (lp ++ [nm]) /\ no_tree f3 (lp ++ [tmp]) /\ elsewhere [nm; tmp; bak] lp f f3 /\
      (forall t, f3 !! ((lp ++ [bak]) ++ t) = None \/ f3 !! ((lp ++ [bak]) ++ t) = f !! ((lp ++ [nm]) ++ t)) /\
      (no_tree f3 (lp ++ [bak]) /\ rs_BackupPath res = [] \/ rs_BackupPath res = brel)) as Hdone.
    { intros res R1 R2. split_and!; try done.
      - intros t. rewrite Fe3; [by rewrite L1, Ft|]. repeat constructor; apply under_false; by apply under_sibling_app.
      - intros t. rewrite Fe3; [apply L2|]. repeat constructor; apply under_false; by apply under_sibling_app.
      - intros k Hk. rewrite Fe3; [by apply Fe|]. apply Forall_cons in Hk as [_ [_ Hk]%Forall_cons]. done.
      - destruct r; [right; by apply R2|left; auto]. }
    destruct r; intros [= <- <-]; apply Hdone; done.
  - destruct (os_Rename x f1 (abs_path (lp ++ [bak])) (abs_path (lp ++ [nm]))) as [f2|] eqn:E3; intros [= <- <-].
    + left. apply rename_child_ok in E3 as (nd3 & _ & _ & _ & ->); [|done..]. rewrite decide_False by done. rewrite E1. by apply move_back.
    + right. split_and!; try done. unfold put_back_refused. rewrite rename_child in E3 |- * by done.
      destruct (x_fails x CallRename f1 (abs_path (lp ++ [bak]))); [done|].
      specialize (M1 []). rewrite !app_nil_r in M1. rewrite M1, Enm in E3 |- *.
      destruct (x_fails x CallRename f1 (abs_path (lp ++ [nm]))); [done|]. by rewrite N1 in E3.
Qed.

Lemma swap_tree_calm : calm_host x -> tmp <> nm ->
  is_ok (swap_tree x f (abs_path (lp ++ [tmp])) (abs_path (lp ++ [nm])) (abs_path (lp ++ [bak])) brel).1 = true.
Proof.
  intros Hcalm Hne. destruct bak_fresh as [Hb1 Hb2]. unfold swap_tree. rewrite rename_child by done. rewrite !(calm_x _ Hcalm), Enm, Ebak.
  destruct (move_effect f lp nm bak) as (M1 & M2 & M3); [done|]. set (f1 := move (lp ++ [nm]) (lp ++ [bak]) f) in *.
  assert (local lp f f1) as Hl by (apply local_move; [done..|by rewrite Ebak]).
  assert (f1 !! (lp ++ [tmp]) = Some Dir) as ET.
  { rewrite M3; [done|]. repeat constructor; apply under_false; rewrite <- (app_nil_r (lp ++ [tmp])); by apply under_sibling_app. }
  assert (f1 !! (lp ++ [nm]) = None) as EN by (specialize (M2 []); by rewrite app_nil_r in M2).
  rewrite rename_child by (try done; by eapply local_real). rewrite !(calm_x _ Hcalm), ET, EN. by destruct (os_RemoveAll x _ _) as [[e|] f3].
Qed.

End Tree.

(** The two paths of a request for a tree. *)
Record tree_paths (s : Server) (rootl : loc) (x : xhost) (f : fs) (r : Request) (lp : loc) (nm tmp prel : bytes) : Prop := {
  tp_final : exists rel, resolveFinal x s f (rq_FinalPath r) = Ok (rel, prel, nm, abs_path lp);
  tp_temp : exists rel, resolveFinal x s f (rq_TempPath r) = Ok (rel, prel, tmp, abs_path lp);
  tp_prefix : HasPrefix tmp treeTempPrefix = true;
  tp_inside : inside rootl lp;
  tp_real : real f lp;
  tp_staged : f !! (lp ++ [tmp]) = Some Dir
}.

(** The outcomes of a commit that changes something. *)
Definition tree_committed (f : fs) (r : Request) (lp : loc) (nm tmp prel : bytes) (res : Result) (f' : fs) : Prop :=
  same_tree f (lp ++ [tmp]) f' (lp ++ [nm]) /\ no_tree f' (lp ++ [tmp]) /\
  (no_tree f (lp ++ [nm]) /\ rs_AtomicVisibility res = true /\ elsewhere [nm; tmp] lp f f' \/
   rq_ReplaceExisting r = true /\ rs_ReplacedExisting res = true /\ exists bak, HasPrefix bak treeBackupPrefix = true /\ no_tree f (lp ++ [bak]) /\
     elsewhere [nm; tmp; bak] lp f f' /\
     (forall t, f' !! ((lp ++ [bak]) ++ t) = None \/ f' !! ((lp ++ [bak]) ++ t) = f !! ((lp ++ [nm]) ++ t)) /\
     (no_tree f' (lp ++ [bak]) /\ rs_BackupPath res = [] \/ rs_BackupPath res = child_path prel bak)).

Definition tree_stranded (x : xhost) (f : fs) (lp : loc) (nm : bytes) (f' : fs) : Prop :=
  exists bak, HasPrefix bak treeBackupPrefix = true /\ no_tree f (lp ++ [bak]) /\
    same_tree f (lp ++ [nm]) f' (lp ++ [bak]) /\ no_tree f' (lp ++ [nm]) /\ elsewhere [nm; bak] lp f f' /\
    put_back_refused x lp nm bak f'.

Section CommitTree.
Context (s : Server) (rootl : loc) (root_abs : root s = abs_path rootl) (root_plain : Forall plain rootl).

Lemma swap_replaced x f a b c brel res f' : swap_tree x f a b c brel = (Ok res, f') -> rs_ReplacedExisting res = true.
Proof. unfold swap_tree. repeat case_match; try done; by intros [= <- _]. Qed.

Lemma commitTree_spec x f r o f' : random_bytes x -> tree f -> commitTree x s f r = (o, f') ->
  f' = f /\ is_ok o = false \/ exists lp nm tmp prel, tree_paths s rootl x f r lp nm tmp prel /\
    match o with Ok res => tree_committed f r lp nm tmp prel res f' | Err _ => tree_stranded x f lp nm f' end.
Proof.
  intros Hx Ht. unfold commitTree.
  destruct (resolveFinal x s f (rq_FinalPath r)) as [[[[rel prel] nm] pabs]|] eqn:E1; [|intros [= <- <-]; by left].
  destruct (resolveFinal x s f (rq_TempPath r)) as [[[[trel tprel] tmp] tpabs]|] eqn:E2; [|intros [= <- <-]; by left].
  pose proof E1 as P1. pose proof E2 as P2.
  apply (resolveFinal_ok s rootl) in E1 as (rl & lp & R1), E2 as (trl & tlp & R2); [|done..].
  destruct (negb (str_eqb prel tprel) || negb (str_eqb pabs tpabs) || negb (HasPrefix tmp treeTempPrefix)) eqn:Es; [intros [= <- <-]; by left|].
  apply orb_false_iff in Es as [Es Epre%negb_false_iff].
  destruct (same_parent x s rootl _ _ _ _ _ _ _ _ _ _ _ _ _ _ _ R1 R2 Es) as (-> & -> & ->). clear Es.
  destruct R1 as [_ _ _ -> Hreal Hin -> Hnm _ _ _], R2 as [_ _ _ _ _ _ -> Htmp _ _ _].
  destruct (os_Lstat x f (abs_path (lp ++ [tmp]))) as [tinfo|] eqn:L1; [|intros [= <- <-]; by left].
  apply lstat_child in L1 as (tnd & Etmp & Hty & _); [|done..].
  destruct (negb (is_dir tinfo) || is_symlink tinfo) eqn:Ed; [intros [= <- <-]; by left|].
  assert (tnd = Dir) as -> by (unfold is_dir, is_symlink in Ed; rewrite Hty in Ed; by destruct tnd). clear Ed Hty.
  assert (tree_paths s rootl x f r lp nm tmp prel) as Htp by (split; eauto).
  destruct (os_Lstat x f (abs_path (lp ++ [nm]))) as [finfo|e] eqn:L2; apply lstat_child in L2; try exact Hreal; try exact Hnm.
  - destruct L2 as (fnd & Enm & Hty & _). destruct (rq_ReplaceExisting r) eqn:Er; cbn [negb]; [|intros [= <- <-]; by left].
    destruct (negb (is_dir finfo) || is_symlink finfo) eqn:Ed; [intros [= <- <-]; by left|].
    assert (fnd = Dir) as -> by (unfold is_dir, is_symlink in Ed; rewrite Hty in Ed; by destruct fnd). clear Ed Hty.
    destruct (reserveHiddenPath x 32 0 f _ _) as [[bak babs]|] eqn:Eb; [|intros [= <- <-]; by left].
    apply reserveHidden_ok in Eb as (Hb & Hbp & -> & Ebak); [|done|done|right; right; by left].
    assert (no_tree f (lp ++ [bak])) as Hnb by (apply no_tree_none; [done|apply snoc_neq_nil|done]).
    intros Hsw. pose proof Hsw as Hspec. apply (swap_tree_spec x f lp tmp nm bak) in Hspec; [|done..]. destruct o as [res|err].
    + right. exists lp, nm, tmp, prel. split; [done|]. destruct Hspec as (_ & S1 & S2 & S3 & S4 & S5). split; [done|]. split; [done|]. right.
      split; [done|]. split; [by eapply swap_replaced|]. by exists bak.
    + destruct Hspec as [->|(S1 & S2 & S3 & S4)]; [by left|]. right. exists lp, nm, tmp, prel. split; [done|]. by exists bak.
  - destruct e; try (intros [= <- <-]; by left). cbn [IsNotExist negb].
    destruct (os_Rename x f _ _) as [g|] eqn:Er; intros [= <- <-]; [|by left]. right. exists lp, nm, tmp, prel. split; [done|].
    apply rename_child_ok in Er as (nd & _ & _ & _ & ->); [|done..]. assert (tmp <> nm) as Hne by congruence. rewrite decide_False by done.
    destruct (move_effect f lp tmp nm Hne) as (M1 & M2 & M3). split; [done|]. split; [done|]. left.
    split; [apply no_tree_none; [done|apply snoc_neq_nil|done]|]. split; [done|]. intros k Hk. apply M3.
    apply Forall_cons in Hk as [K1 [K2 _]%Forall_cons]. by repeat constructor.
Qed.

Lemma reserve_first x attempts f lp rnd : calm_host x -> real f lp -> name (treeBackupPrefix ++ hex_encode rnd) -> x_random x 0 = Some rnd ->
  f !! (lp ++ [treeBackupPrefix ++ hex_encode rnd]) = None ->
  reserveHiddenPath x (S attempts) 0 f (abs_path lp) treeBackupPrefix =
    Ok (treeBackupPrefix ++ hex_encode rnd, abs_path (lp ++ [treeBackupPrefix ++ hex_encode rnd])).
Proof.
  intros Hcalm Hreal Hb Hrnd Ebak. cbn [reserveHiddenPath]. unfold randomName at 1. rewrite Hrnd. cbn [result_bind].
  rewrite Join_child by (try apply Hb; by apply names_plain, Hreal). by rewrite lstat_missing_calm.
Qed.

(** On a host that does not fail, with a name to set the old tree aside. *)
Lemma commitTree_calm x f r lp nm tmp prel : random_bytes x -> calm_host x -> tree_paths s rootl x f r lp nm tmp prel -> tmp <> nm ->
  f !! (lp ++ [nm]) = None \/ f !! (lp ++ [nm]) = Some Dir /\ rq_ReplaceExisting r = true /\
    (exists rnd, x_random x 0 = Some rnd /\ f !! (lp ++ [treeBackupPrefix ++ hex_encode rnd]) = None) ->
  is_ok (commitTree x s f r).1 = true.
Proof.
  intros Hx Hcalm [[rel P1] [trel P2] Hpre Hin Hreal Etmp] Hne Hcase. unfold commitTree. rewrite P1, P2, !str_eqb_refl, Hpre. cbn [negb orb].
  apply (resolveFinal_ok s rootl) in P1 as (rl & lp1 & R1), P2 as (trl & lp2 & R2); [|done..].
  pose proof (res_name _ _ _ _ _ _ _ _ _ _ _ R1) as Hnm. pose proof (res_name _ _ _ _ _ _ _ _ _ _ _ R2) as Htmp. clear R1 R2.
  rewrite !Join_child by (try apply Htmp; try apply Hnm; by apply names_plain, Hreal).
  destruct (lstat_child_calm x f lp tmp _ Hcalm Hreal Htmp Etmp) as (info & -> & Hty). unfold is_dir at 1, is_symlink at 1. rewrite Hty. cbn [negb orb].
  destruct Hcase as [Enm|(Enm & Hrep & rnd & Hrnd & Ebak)].
  - rewrite lstat_missing_calm by done. cbn [IsNotExist negb]. rewrite rename_child by done. by rewrite !(calm_x _ Hcalm), Etmp, Enm.
  - destruct (lstat_child_calm x f lp nm _ Hcalm Hreal Hnm Enm) as (finfo & -> & Hfty). rewrite Hrep. unfold is_dir, is_symlink. rewrite Hfty. cbn [negb orb].
    assert (name (treeBackupPrefix ++ hex_encode rnd)) as Hb by (apply hidden_name; [right; right; by left|by apply (Hx 0%nat)]).
    rewrite (reserve_first x 31 f lp rnd) by done. by apply swap_tree_calm.
Qed.

End CommitTree.

(** ** A small export *)

Definition good_name (c : bytes) : bool :=
  negb (str_eqb c []) && negb (str_eqb c dot) && negb (str_eqb c dotdot) && negb (existsb (Z.eqb slash) c) && negb (existsb (Z.eqb 0) c).
Definition tree_ok (f : fs) : bool :=
  forallb (fun kv => match rev kv.1 with
    | [] => true
    | c :: r => good_name c && match node_at f (rev r) with Some Dir => true | _ => false end
    end) (map_to_list f).

Lemma good_name_ok c : good_name c = true -> name c.
Proof.
  unfold good_name. intros [[[[H1 H2]%andb_true_iff H3]%andb_true_iff H4]%andb_true_iff H5]%andb_true_iff.
  apply negb_true_iff in H1, H2, H3, H4, H5. destruct (str_eqb_spec c []), (str_eqb_spec c dot), (str_eqb_spec c dotdot); try done.
  split; [|done]. split_and!; try done. intros Hin. assert (existsb (Z.eqb slash) c = true) as E; [|by rewrite E in H4].
  apply existsb_exists. exists slash. split; [by apply list_elem_of_In|done].
Qed.

Lemma tree_ok_tree f : tree_ok f = true -> tree f.
Proof.
  intros H l c [nd Hnd]. unfold tree_ok in H. rewrite forallb_forall in H.
  specialize (H (l ++ [c], nd)). cbn [fst] in H. rewrite rev_app_distr in H. cbn [rev app] in H. rewrite rev_involutive in H.
  apply andb_true_iff in H as [H1 H2]; [|by apply list_elem_of_In, elem_of_map_to_list]. split; [by apply good_name_ok|].
  by destruct (node_at f l) as [[]|].
Qed.

Definition demo_host : xhost := mkXhost
  (mkHost (fun _ _ _ => false) (fun _ _ => None) (fun _ _ => 420) (fun _ _ => 0) (fun _ _ => 4096) (fun _ p => p))
  (fun _ _ _ => false) (fun _ _ => false) (fun _ _ => 7) (fun n => Some (repeat (Z.of_nat n mod 256) 16)).
Definition demo_files : fs := {[
  [str "srv"] := Dir; [str "srv"; str "d"] := Dir; [str "srv"; str "d"; str "f"] := File (str "old");
  [str "etc"] := Dir; [str "etc"; str "passwd"] := File (str "root") ]}.
Definition demo_root : Server := mkServer (str "/srv") false.

Lemma demo_random : random_bytes demo_host.
Proof.
  intros n r [= <-]. split; [|done]. cbn [x_random demo_host]. pose proof (Z.mod_pos_bound (Z.of_nat n) 256 ltac:(lia)) as Hm.
  unfold bytes_ok. cbn [repeat]. repeat (apply Forall_cons; split; [unfold is_u; change (2 ^ 8) with 256; exact Hm|]). apply Forall_nil. done.
Qed.
Lemma demo_calm : calm_host demo_host.
Proof. by split. Qed.

(** A codec for the examples: one symbol for a whole message. *)
Definition request_tuple (r : Request) :=
  (rq_Protocol r, rq_ID r, rq_Operation r, rq_FinalPath r, rq_TempPath r, rq_Mode r,
   (rq_PreserveExistingMode r, rq_ReplaceExisting r, rq_LinkTarget r, rq_ModTimeUnixNano r, rq_Cursor r, rq_Limit r)).
Definition metadata_tuple (m : FileMetadata) :=
  (md_Path m, md_Name m, md_Type m, md_Mode m, md_Size m, md_ModTimeUnixNano m, md_LinkTarget m).
Definition response_tuple (r : Response) :=
  let q := rp_Result r in
  (rp_Protocol r, rp_ID r, rp_Error r,
   (rs_TempPath q, rs_BackupPath q, rs_AppliedMode q, rs_ReplacedExisting q, rs_AtomicVisibility q,
    metadata_tuple <$> rs_Metadata q, metadata_tuple <$> rs_Entries q, rs_NextCursor q)).
Definition tuple_metadata '(p, n, t, m, z, mt, lt) : FileMetadata := mkMetadata p n t m z mt lt.

#[export] Instance demo_json : FsJson := {
  marshal_request r := [123; 1000 + Zpos (encode (request_tuple r)); 125];
  unmarshal_request b := match b with
    | [_; z; _] => match decode (Z.to_pos (z - 1000)) with
      | Some (p, i, o, fp, tp, m, (pe, re, lt, mt, c, l)) => Some (mkRequest p i o fp tp m pe re lt mt c l)
      | None => None
      end
    | _ => None
    end;
  marshal_response r := [123; 1000 + Zpos (encode (response_tuple r)); 125];
  unmarshal_response b := match b with
    | [_; z; _] => match decode (Z.to_pos (z - 1000)) with
      | Some (p, i, e, (tp, bp, am, re, av, md, es, nc)) =>
        Some (mkResponse p i (mkResult tp bp am re av (tuple_metadata <$> md) (tuple_metadata <$> es) nc) e)
      | None => None
      end
    | _ => None
    end
}.

(** ** The guarantees *)

(** C12: the file-operation service is confined to its root.  Whatever bytes
    arrive on any number of streams, whatever the host fails at in between and
    whatever names the random source yields, every node that is not strictly
    below the root is as it was, and the files still form a tree: every node
    lies in a directory.  A service that is read-only, by its own configuration
    or its backend's, changes nothing. *)
Theorem fsops_confined `{FsJson} {B : Type} {HB : FileAPI B} (h : host) (f : fs) (cwd cfg : bytes) (ro : bool) (description : option (bytes * bool))
    (s : Server) (quote : bytes -> bytes) (b : option B) (l : list (xhost * bytes)) :
  NewServer h f cwd cfg ro description = Ok s -> tree f -> Forall (fun xi => random_bytes xi.1) l ->
  let f' := (streams s quote b f l).2 in
  tree f' /\ (forall k, ~ below (comps (root s)) k -> f' !! k = f !! k) /\
  (ro || match description with Some (_, b) => b | None => false end = true -> f' = f).
Proof.
  intros [(rootl & Hr & Hp) Hro]%NewServer_root Ht Hx. cbv zeta.
  destruct (streams_local s quote rootl b f l Hr Hp Hx) as [H1 H2]. rewrite Hr, comps_abs by done.
  split; [auto|]. split; [done|]. intros E. apply streams_readOnly. by rewrite Hro.
Qed.

Definition demo_message (r : Request) : bytes := match writeRequest r with Ok out => out | Err _ => [] end.
Definition demo_streams : list (xhost * bytes) :=
  [(demo_host, demo_message (mkRequest [] (str "1") OpSymlink (str "d/l") [] 0 false false (str "f") 0 [] 0));
   (demo_host, demo_message (mkRequest [] (str "2") OpPrepareReplace (str "d/f") [] 384 false false [] 0 [] 0));
   (demo_host, demo_message (mkRequest [] (str "3") OpPrepareReplace (str "../etc/passwd") [] 384 false false [] 0 [] 0))].

Lemma fsops_confined_witness :
  let f' := (streams (B := Z * Service (S := MemoryStore)) (HB := service_api (fun _ => [])) demo_root (fun q => q) None demo_files demo_streams).2 in
  tree f' /\ f' !! [str "etc"; str "passwd"] = Some (File (str "root")) /\ f' !! [str "srv"; str "d"; str "l"] = Some (Link (str "f")).
Proof.
  pose proof (fsops_confined (B := Z * Service (S := MemoryStore)) (HB := service_api (fun _ => [])) (x_host demo_host) demo_files (str "/") (str "/srv") false None demo_root (fun q => q) None demo_streams) as H.
  cbv zeta in H |- *. destruct H as (H1 & H2 & _).
  - vm_compute. reflexivity.
  - apply tree_ok_tree. vm_compute. reflexivity.
  - unfold demo_streams. repeat (apply Forall_cons; split; [exact demo_random|]). by apply Forall_nil.
  - split; [exact H1|]. split.
    + rewrite H2; [reflexivity|]. intros (c & t & E). vm_compute in E. discriminate.
    + vm_compute. reflexivity.
Defined.

(** C13: replacing a file is all or nothing.  A preparation that succeeds has
    made one new empty file in the directory of the destination and told the
    client its path.  When the client has filled it, committing it under that
    path either succeeds, and then the destination holds exactly the new
    content, the temporary file is gone and nothing else differs from the time
    before the preparation, or it fails and changes nothing.  On a host that
    does not fail it succeeds.  The client may write the destination's path in
    any way the service cleans to names without backslashes and with no spaces
    at either end of the path, so that cleaning it again changes nothing. *)
Theorem fsops_replace (h : host) (f0 : fs) (cwd cfg : bytes) (ro : bool) (description : option (bytes * bool)) (s : Server) (quote : bytes -> bytes)
    (x : xhost) (f f1 : fs) (path : bytes) (rl : list bytes) (nm : bytes) (mode : Z) (preserve : bool) (res : Result) :
  NewServer h f0 cwd cfg ro description = Ok s -> random_bytes x -> tree f ->
  cleanRelative path = Ok (join_slash (rl ++ [nm])) -> sendable (rl ++ [nm]) ->
  prepareReplace x s f (prepare_request path mode preserve) = (Ok res, f1) ->
  exists lp tmp, inside (comps (root s)) lp /\ walk 255 f true [] (comps (root s) ++ rl) = Found lp /\
    f !! (lp ++ [tmp]) = None /\ f1 = <[lp ++ [tmp] := File []]> f /\
    forall x2 content, let f2 := <[lp ++ [tmp] := File content]> f in
      let '(o, f3) := commitReplace x2 s quote f2 (commit_request (rs_TempPath res) path) in
      match o with
      | Ok _ => f3 = <[lp ++ [nm] := File content]> f
      | Err _ => f3 = f2
      end /\ (calm_host x2 -> is_ok o = true).
Proof.
  intros [(rootl & Hr & Hp) _]%NewServer_root Hx Ht Hcl Hs H. rewrite Hr, comps_abs by done.
  assert (forall x f, resolveFinal x s f path = resolveFinal x s f (join_slash (rl ++ [nm]))) as Hres
    by (intros x' f'; unfold resolveFinal; by rewrite Hcl, (cleanRelative_sendable _ Hs)).
  assert (prepareReplace x s f (prepare_request (join_slash (rl ++ [nm])) mode preserve) = (Ok res, f1)) as H'
    by (rewrite <- H; unfold prepareReplace; cbn [prepare_request request_of rq_FinalPath]; by rewrite Hres). clear H. rename H' into H.
  assert (forall x2 f temp, commitReplace x2 s quote f (commit_request temp path) = commitReplace x2 s quote f (commit_request temp (join_slash (rl ++ [nm])))) as Hcommit
    by (intros x' f' temp; unfold commitReplace; cbn [commit_request request_of rq_FinalPath]; by rewrite Hres).
  apply (prepareReplace_ok s rootl) in H as (lp & tmp & P); [|done..]. exists lp, tmp.
  destruct (pre_final _ _ _ _ _ _ _ _ _ _ P) as (rel & prel & pabs & R). pose proof (pre_fresh _ _ _ _ _ _ _ _ _ _ P) as Hfresh.
  pose proof (res_real _ _ _ _ _ _ _ _ _ _ _ R) as Hreal. pose proof (pre_sendable _ _ _ _ _ _ _ _ _ _ P) as Hst.
  split; [apply R|]. split; [apply R|]. split; [done|]. split; [apply P|]. intros x2 content. cbv zeta. rewrite Hcommit.
  assert (name tmp) as Htmp by (destruct Hst as (Hn & _); by apply Forall_app in Hn as [_ [? _]%Forall_cons]).
  destruct (local_insert lp f Hreal tmp (File content) Htmp) as [Htg _]; [by rewrite Hfresh|].
  rewrite (pre_path _ _ _ _ _ _ _ _ _ _ P). pose proof (commit_calm s quote rootl Hr Hp x2 x f f1 rl nm res lp tmp content) as Hok.
  destruct (commitReplace x2 s quote _ _) as [o f3] eqn:Ec. split; [|intros Hc; by apply (Hok Hc Hs Ht P)].
  apply (commitReplace_spec s quote rootl Hr Hp x2 _ lp rl tmp nm content) in Ec; [|by apply Htg|apply lookup_insert_eq|done..|].
  - destruct o; [|done]. rewrite Ec. destruct (decide (tmp = nm)) as [->|Hne].
    + by rewrite insert_insert_eq.
    + by rewrite delete_insert_id.
  - apply (walk_extend 255 f); [by apply insert_subseteq|apply R].
Qed.

Lemma fsops_replace_witness : exists res lp tmp,
  (prepareReplace demo_host demo_root demo_files (prepare_request (str " d//./f") 384 false)).1 = Ok res /\
  let f2 := <[lp ++ [tmp] := File (str "new")]> demo_files in
  let '(o, f3) := commitReplace demo_host demo_root (fun q => q) f2 (commit_request (rs_TempPath res) (str " d//./f")) in
  is_ok o = true /\ f3 = <[[str "srv"; str "d"; str "f"] := File (str "new")]> demo_files.
Proof.
  assert (is_ok (prepareReplace demo_host demo_root demo_files (prepare_request (str " d//./f") 384 false)).1 = true) as Hok by (vm_compute; reflexivity).
  destruct (prepareReplace demo_host demo_root demo_files (prepare_request (str " d//./f") 384 false)) as [[res|e] f1] eqn:Ep; [|discriminate Hok].
  destruct (fsops_replace (x_host demo_host) demo_files (str "/") (str "/srv") false None demo_root (fun q => q) demo_host demo_files f1 (str " d//./f") [str "d"] (str "f") 384 false res)
    as (lp & tmp & _ & Hw & _ & _ & H).
  - vm_compute. reflexivity.
  - apply demo_random.
  - apply tree_ok_tree. vm_compute. reflexivity.
  - vm_compute. reflexivity.
  - split_and!; [|by repeat constructor|by split|done]. repeat constructor; apply good_name_ok; reflexivity.
  - exact Ep.
  - assert (lp = [str "srv"; str "d"]) as -> by (vm_compute in Hw; by injection Hw as <-).
    exists res, [str "srv"; str "d"], tmp. split; [done|]. specialize (H demo_host (str "new")). cbv zeta in H |- *.
    destruct (commitReplace demo_host demo_root (fun q => q) _ _) as [o f3]. destruct H as [H1 H2]. specialize (H2 demo_calm).
    split; [exact H2|]. destruct o; [exact H1|discriminate].
Defined.

(** C33: replacing a whole directory tree never loses one.  A commit that
    succeeds leaves under the final name exactly the staged tree and nothing
    under the staged name; an old tree is only replaced on request, and what
    is left of it, if the host could not remove it, lies under a backup name
    that the answer reports.  A commit that fails leaves everything as it was,
    unless the host refuses, in the state the commit leaves, the very rename
    that puts the old tree back: then the old tree is complete under its backup
    name.  On a host that does not fail the commit of a staged tree under another
    name succeeds if nothing is there, or if a directory is there, replacing was
    asked for and the first backup name drawn is free. *)
Theorem fsops_tree_commit (h : host) (f0 : fs) (cwd cfg : bytes) (ro : bool) (description : option (bytes * bool)) (s : Server)
    (x : xhost) (f : fs) (r : Request) :
  NewServer h f0 cwd cfg ro description = Ok s -> random_bytes x -> tree f ->
  let '(o, f') := commitTree x s f r in
  (f' = f /\ is_ok o = false \/ exists lp nm tmp prel, tree_paths s (comps (root s)) x f r lp nm tmp prel /\
     match o with Ok res => tree_committed f r lp nm tmp prel res f' | Err _ => tree_stranded x f lp nm f' end) /\
  (calm_host x -> forall lp nm tmp prel, tree_paths s (comps (root s)) x f r lp nm tmp prel -> tmp <> nm ->
     f !! (lp ++ [nm]) = None \/ f !! (lp ++ [nm]) = Some Dir /\ rq_ReplaceExisting r = true /\
       (exists rnd, x_random x 0 = Some rnd /\ f !! (lp ++ [treeBackupPrefix ++ hex_encode rnd]) = None) ->
     is_ok o = true).
Proof.
  intros [(rootl & Hr & Hp) _]%NewServer_root Hx Ht. rewrite Hr, comps_abs by done.
  pose proof (commitTree_spec s rootl Hr Hp x f r) as H1. pose proof (fun lp nm tmp prel => commitTree_calm s rootl Hr Hp x f r lp nm tmp prel Hx) as H2.
  destruct (commitTree x s f r) as [o f']. split; [by apply H1|]. intros Hc lp nm tmp prel Htp Hne Hcase. by apply (H2 lp nm tmp prel).
Qed.

Definition demo_trees : fs := {[
  [str "srv"] := Dir; [str "srv"; str "t"] := Dir; [str "srv"; str "t"; str "old"] := File (str "1");
  [str "srv"; str ".wv-tree-00"] := Dir; [str "srv"; str ".wv-tree-00"; str "new"] := File (str "2") ]}.
Definition demo_commit : Request := request_of OpCommitTree (str "t") (str ".wv-tree-00") 0 false true [] 0 [] 0.

Lemma fsops_tree_commit_witness :
  let '(o, f') := commitTree demo_host demo_root demo_trees demo_commit in
  is_ok o = true /\ (f' = demo_trees /\ is_ok o = false \/ exists lp nm tmp prel, tree_paths demo_root [str "srv"] demo_host demo_trees demo_commit lp nm tmp prel /\
     match o with Ok res => tree_committed demo_trees demo_commit lp nm tmp prel res f' | Err _ => tree_stranded demo_host demo_trees lp nm f' end) /\
  f' !! [str "srv"; str "t"; str "new"] = Some (File (str "2")) /\ f' !! [str "srv"; str "t"; str "old"] = None.
Proof.
  pose proof (fsops_tree_commit (x_host demo_host) demo_trees (str "/") (str "/srv") false None demo_root demo_host demo_trees demo_commit eq_refl demo_random) as H.
  assert ((commitTree demo_host demo_root demo_trees demo_commit).2 !! [str "srv"; str "t"; str "new"] = Some (File (str "2")) /\
    (commitTree demo_host demo_root demo_trees demo_commit).2 !! [str "srv"; str "t"; str "old"] = None) as E by (vm_compute; split; reflexivity).
  change (comps (root demo_root)) with [str "srv"] in H. destruct (commitTree demo_host demo_root demo_trees demo_commit) as [o f'].
  destruct H as [H1 H2]; [apply tree_ok_tree; vm_compute; reflexivity|]. split; [|split; [exact H1|exact E]].
  apply (H2 demo_calm [str "srv"] (str "t") (str ".wv-tree-00") []).
  - split; [eexists; vm_compute; reflexivity|eexists; vm_compute; reflexivity|reflexivity|by exists []| |reflexivity].
    split; [repeat constructor; apply good_name_ok; reflexivity|]. intros [|[|k]] Hk; [reflexivity|reflexivity|cbn in Hk; lia].
  - discriminate.
  - right. split; [reflexivity|]. split; [reflexivity|]. eexists. split; reflexivity.
Defined.

(** The target of a link is only checked as a text: through a link to the
    directory itself a second link comes to point out of the root. *)
Definition demo_link (name target : bytes) : Request := request_of OpSymlink name [] 0 false false target 0 [] 0.
Lemma link_target_escapes :
  let f1 := (symlink demo_host demo_root demo_files (demo_link (str "s") (str "."))).2 in
  let f2 := (symlink demo_host demo_root f1 (demo_link (str "e") (str "s/.."))).2 in
  f2 !! [str "srv"; str "e"] = Some (Link (str "s/..")) /\ walk 40 f2 true [] [str "srv"; str "e"; str "etc"; str "passwd"] = Found [str "etc"; str "passwd"].
Proof. vm_compute. split; reflexivity. Qed.

(** A cleaned path is not always accepted as it is. *)
Lemma clean_not_stable : cleanRelative (str "./ a/f") = Ok (str " a/f") /\ cleanRelative (str " a/f") = Ok (str "a/f").
Proof. vm_compute. split; reflexivity. Qed.

End SessionFsOpsClaims.
