(* ===== verification/SessionFsOpsList.v ===== *)
(** * Paged listings: client and server together *)

From S2P Require Import Prelude GoStrings GoFs GoFsProofs GoFsOps GoFsOpsProofs FileBackend SessionFsOps SessionFsOpsProofs SessionFsOpsClaims.

Module SessionFsOpsList.
Import GoStrings GoFs GoFsProofs GoFsOps GoFsOpsProofs FileBackend SessionFsOps SessionFsOpsProofs SessionFsOpsClaims.

(** ** Binary search *)

Lemma search_spec (above : nat -> bool) n lo hi : (hi - lo < n)%nat -> (lo <= hi)%nat ->
  (forall i j, (i <= j < hi)%nat -> above i = true -> above j = true) ->
  let k := search above n lo hi in
  (lo <= k <= hi)%nat /\ (forall i, (lo <= i < k)%nat -> above i = false) /\ (forall i, (k <= i < hi)%nat -> above i = true).
Proof.
  cbv zeta. revert lo hi. induction n as [|n IH]; intros lo hi Hn Hlo Hmono; [lia|]. cbn [search].
  destruct (Nat.ltb_spec lo hi) as [Hlt|Hge]; [|split_and!; intros; lia].
  set (mid := ((lo + hi) / 2)%nat).
  assert (lo <= mid < hi)%nat as Hmid.
  { unfold mid. split; [apply Nat.div_le_lower_bound; lia|apply Nat.Div0.div_lt_upper_bound; lia]. }
  destruct (above mid) eqn:Em.
  - destruct (IH lo mid) as (H1 & H2 & H3); [lia|lia|intros i j Hij; apply Hmono; lia|]. split; [lia|]. split; [done|]. intros i Hi.
    destruct (Nat.lt_ge_cases i mid); [apply H3; lia|]. apply (Hmono mid); [lia|done].
  - destruct (IH (S mid) hi) as (H1 & H2 & H3); [lia|lia|done|]. split; [lia|]. split; [|done]. intros i Hi.
    destruct (Nat.lt_ge_cases i (S mid)) as [Hs|Hs]; [|apply H2; lia]. destruct (above i) eqn:Ei; [|done].
    rewrite <- Em. symmetry. apply (Hmono i); [lia|done].
Qed.

(** ** The names of a directory *)

Definition increasing : list bytes -> Prop := StronglySorted (fun a b => str_ltb a b = true).

Lemma children_NoDup f l : NoDup (children f l).
Proof.
  unfold children. rewrite sort_by_perm. generalize (NoDup_elements (dom f)). generalize (elements (dom f)). intros ks.
  induction ks as [|k ks IH]; intros Hn; [constructor|]. apply NoDup_cons in Hn as [Hk Hn]. cbn [omap list_omap].
  destruct (child_name l k) as [c|] eqn:Ec; [|by apply IH]. constructor; [|by apply IH].
  intros Hin. apply list_elem_of_omap in Hin as (k' & Hk' & Ec').
  assert (forall k c, child_name l k = Some c -> k = l ++ [c]) as Hinv.
  { intros q d. unfold child_name. destruct (drop (length l) q) as [|n [|]] eqn:Ed; try done. case_bool_decide as Et; [|done].
    intros [= <-]. by rewrite <- (take_drop (length l) q), Et, Ed. }
  apply Hinv in Ec, Ec'. by subst.
Qed.

Lemma children_increasing f l : increasing (children f l).
Proof.
  pose proof (children_NoDup f l) as Hn. pose proof (str_sort_in_order (omap (child_name l) (elements (dom f)))) as Hs.
  change (sort_by str_ltb _) with (children f l) in Hs. induction Hs as [|c r Hr IH Hc]; [constructor|].
  apply NoDup_cons in Hn as [Hin Hn]. constructor; [by apply IH|]. apply Forall_forall. intros d Hd. rewrite Forall_forall in Hc.
  destruct (str_ltb c d) eqn:E; [done|]. exfalso. apply Hin. by rewrite (str_ltb_total c d E (Hc d Hd)).
Qed.

Lemma increasing_nth l i j : increasing l -> (i < j)%nat -> (j < length l)%nat -> str_ltb (nth i l []) (nth j l []) = true.
Proof.
  intros H. revert i j. induction H as [|c r Hr IH Hc]; intros i j Hij Hj; [cbn in Hj; lia|].
  destruct j as [|j]; [lia|]. cbn in Hj. destruct i as [|i]; cbn [nth].
  - rewrite Forall_forall in Hc. apply Hc, list_elem_of_In, nth_In. lia.
  - apply IH; lia.
Qed.

(** The search finds the name after the cursor. *)
Lemma search_cursor l j : increasing l -> (j < length l)%nat ->
  search (fun i => str_ltb (nth j l []) (nth i l [])) (S (length l)) 0 (length l) = S j.
Proof.
  intros Hl Hj. set (above := fun i => str_ltb (nth j l []) (nth i l [])).
  assert (forall i, (i < length l)%nat -> above i = (j <? i)%nat) as Hab.
  { intros i Hi. unfold above. destruct (Nat.ltb_spec j i) as [H|H]; [by apply increasing_nth|].
    destruct (decide (i = j)) as [->|]; [apply str_ltb_irrefl|]. apply str_ltb_asym, increasing_nth; [done|lia|lia]. }
  destruct (search_spec above (S (length l)) 0 (length l)) as (H1 & H2 & H3); [lia|lia| |].
  - intros i k Hik. rewrite !Hab by lia. rewrite !Nat.ltb_lt. lia.
  - set (k := search above (S (length l)) 0 (length l)) in *.
    destruct (Nat.lt_trichotomy k (S j)) as [Hk|[Hk|Hk]]; [|done|].
    + specialize (H3 j ltac:(lia)). rewrite Hab, Nat.ltb_irrefl in H3 by lia. done.
    + specialize (H2 (S j) ltac:(lia)). rewrite Hab in H2 by lia. apply Nat.ltb_ge in H2. lia.
Qed.

(** ** One page *)

Definition list_request (path cursor : bytes) : Request := request_of OpList path [] 0 false false [] 0 cursor 256.

Section Page.
Context (x : xhost) (s : Server) (rootl : loc) (root_abs : root s = abs_path rootl) (root_plain : Forall plain rootl).
Context (f : fs) (Ht : tree f) (Hcalm : calm_host x).
Context (raw rel prel nm pabs : bytes) (rl : list bytes) (lp : loc).
Context (Hres : resolveFinal x s f raw = Ok (rel, prel, nm, pabs)) (R : resolved s rootl x f raw rel prel nm pabs rl lp).
Context (Hdir : f !! (lp ++ [nm]) = Some Dir).

Abbreviation la := (lp ++ [nm]).
Abbreviation names := (children f (lp ++ [nm])).

Lemma dir_real : real f la.
Proof.
  apply real_snoc; [apply R|apply R|]. by rewrite node_at_snoc.
Qed.

Lemma child_name_ok c : c ∈ names -> name c /\ is_Some (f !! (la ++ [c])).
Proof. intros Hc%children_in. split; [by apply (Ht la c)|done]. Qed.

Lemma metadata_calm c relc : c ∈ names -> exists md, metadata_of x f relc (Join (abs_path la) c) = Ok md /\ md_Name md = c.
Proof.
  intros [Hn [nd Hnd]]%child_name_ok. pose proof dir_real as Hr.
  rewrite Join_child by (try apply Hn; apply names_plain, Hr). unfold metadata_of.
  destruct (os_Lstat x f (abs_path (la ++ [c]))) as [info|e] eqn:El; apply lstat_child in El; try exact Hr; try exact Hn.
  - destruct El as (nd' & Hnd' & Hty & Hname). unfold fileMetadata, is_symlink. rewrite Hty.
    destruct nd' as [ct| |t]; [by eexists|by eexists|]. unfold os_Readlink. rewrite lcall_child, (calm_x _ Hcalm) by done. unfold place.
    rewrite Hnd', node_at_snoc, Hnd'. by eexists.
  - destruct e; try (by rewrite (calm_x _ Hcalm) in El). by rewrite Hnd in El.
Qed.

Lemma list_entries_calm ns : Forall (fun c => c ∈ names) ns ->
  exists mds, list_entries x f rel (abs_path la) ns = Ok mds /\ md_Name <$> mds = ns.
Proof.
  induction 1 as [|c ns Hc Hns (mds & E & En)]; [by exists []|]. cbn [list_entries].
  destruct (metadata_calm c (Join rel c) Hc) as (md & -> & Hn). cbn [result_bind]. rewrite E. cbn [result_bind].
  exists (md :: mds). by rewrite fmap_cons, Hn, En.
Qed.

Lemma list_entries_app a b ma mb : list_entries x f rel (abs_path la) a = Ok ma -> list_entries x f rel (abs_path la) b = Ok mb ->
  list_entries x f rel (abs_path la) (a ++ b) = Ok (ma ++ mb).
Proof.
  intros Ha Hb. revert ma Ha. induction a as [|c a IH]; intros ma; cbn [list_entries app]; [by intros [= <-]|].
  destruct (metadata_of x f _ _) as [md|]; [|done]. cbn [result_bind]. destruct (list_entries x f rel (abs_path la) a) as [m1|]; [|done].
  cbn [result_bind]. intros [= <-]. by rewrite (IH m1 eq_refl).
Qed.

(** The cursor before position [j]. *)
Definition cursor_at (j : nat) : bytes := match j with O => [] | S i => nth i names [] end.

Lemma nth_name i : (i < length names)%nat -> nth i names [] ∈ names.
Proof. intros Hi. apply list_elem_of_In. by apply nth_In. Qed.

Lemma cursor_nonempty i : (i < length names)%nat -> nth i names [] <> [].
Proof. intros Hi%nth_name%child_name_ok. by destruct Hi as [[(? & _) _] _]. Qed.

(** Where a page starts. *)
Lemma page_start j : (j <= length names)%nat ->
  (if str_eqb (cursor_at j) [] then 0%nat else search (fun i => str_ltb (cursor_at j) (nth i names [])) (S (length names)) 0 (length names)) = j.
Proof.
  intros Hj. destruct j as [|i]; [done|]. cbn [cursor_at]. destruct (str_eqb_spec (nth i names []) []) as [E|_]; [by apply cursor_nonempty in E|].
  apply search_cursor; [apply children_increasing|lia].
Qed.

Lemma list_page j : (j <= length names)%nat -> exists mds,
  list_entries x f rel (abs_path la) (take 256 (drop j names)) = Ok mds /\ md_Name <$> mds = take 256 (drop j names) /\
  list_ x s f (list_request raw (cursor_at j)) =
    Ok (mkResult [] [] 0 false false None mds (if (j + 256 <? length names)%nat then cursor_at (j + 256) else [])).
Proof.
  intros Hj. assert (Forall (fun c => c ∈ names) (take 256 (drop j names))) as Hall.
  { apply Forall_forall. intros c Hc. rewrite <- (take_drop j names), <- (take_drop 256 (drop j names)). apply elem_of_app. right.
    apply elem_of_app. by left. }
  destruct (list_entries_calm _ Hall) as (mds & El & En). exists mds. split; [done|]. split; [done|].
  pose proof (res_real _ _ _ _ _ _ _ _ _ _ _ R) as Hr. pose proof (res_name _ _ _ _ _ _ _ _ _ _ _ R) as Hn.
  unfold list_. cbn [list_request request_of rq_FinalPath rq_Limit rq_Cursor]. unfold resolvePath. rewrite Hres. cbn [result_bind].
  rewrite (res_join _ _ _ _ _ _ _ _ _ _ _ R).
  destruct (lstat_child_calm x f lp nm _ Hcalm Hr Hn Hdir) as (info & -> & Hty). unfold is_dir. rewrite Hty. cbn [negb].
  unfold os_ReadDir. rewrite syscall_child, (calm_h _ Hcalm) by (try done; intros _ t; by rewrite Hdir). unfold place.
  rewrite Hdir, node_at_snoc, Hdir. rewrite sort_by_id by apply str_sort_in_order.
  change (Z.to_nat (if 256 <=? 0 then 256 else 256)) with 256%nat. rewrite page_start by done. rewrite El. cbn [result_bind].
  assert (length mds = Nat.min 256 (length names - j)) as Hlen.
  { apply (f_equal length) in En. by rewrite length_fmap, length_take, length_drop in En. }
  f_equal. f_equal. destruct (Nat.ltb_spec (j + 256) (length names)) as [Hlt|Hge].
  - destruct (Nat.ltb_spec (j + length mds) (length names)); [|lia]. replace (j + 256)%nat with (S (j + 255)) by lia. cbn [cursor_at].
    destruct (last mds) as [md|] eqn:Elast; [|apply last_None in Elast; rewrite Elast in Hlen; change (@length FileMetadata []) with 0%nat in Hlen; lia].
    assert (last (md_Name <$> mds) = Some (md_Name md)) as Hl by (by rewrite fmap_last, Elast).
    rewrite En, last_lookup, length_take, length_drop in Hl. replace (pred (min 256 (length names - j))) with 255%nat in Hl by lia.
    rewrite lookup_take_lt, lookup_drop in Hl by lia. symmetry. by apply nth_lookup_Some.
  - destruct (Nat.ltb_spec (j + length mds) (length names)); [lia|done].
Qed.

End Page.

(** ** Messages on the stream *)

(** One line of JSON. *)
Definition json_line (p : bytes) : Prop := p <> [] /\ trimmed p /\ existsb (Z.eqb 10) p = false.

(** What the protocol relies on of [encoding/json]. *)
Class FsJsonLaws `{FsJson} : Prop := {
  request_round : forall r, unmarshal_request (marshal_request r) = Some r;
  response_round : forall r, unmarshal_response (marshal_response r) = Some r;
  request_line : forall r, json_line (marshal_request r);
  response_line : forall r, json_line (marshal_response r)
}.

Lemma read_line_app p : existsb (Z.eqb 10) p = false -> read_line (p ++ [10]) = Some (p ++ [10]).
Proof.
  induction p as [|c p IH]; [done|]. cbn [existsb app read_line]. intros [Hc Hp]%orb_false_iff.
  rewrite Z.eqb_sym, Hc. by rewrite IH.
Qed.

Lemma TrimSpace_newline p : trimmed p -> p <> [] -> TrimSpace (p ++ [10]) = p.
Proof.
  intros [H1 H2] Hne. unfold TrimSpace, trim_left. rewrite (strip_id space_head).
  - unfold trim_right. rewrite rev_app_distr, length_app. cbn [rev app length]. rewrite Nat.add_1_r. cbn [strip space_tail].
    change (space1 10) with true. cbn iota. change (drop 1 (10 :: rev p)) with (rev p). rewrite strip_id by done. apply rev_involutive.
  - assert (forall a, space2 a 10 = false) as E2 by (intros a; unfold space2; cbn; by rewrite andb_false_r).
    assert (forall a b, space3 a b 10 = false) as E3 by (intros a b; unfold space3; cbn; by rewrite !andb_false_r).
    destruct p as [|a [|b [|c p]]]; [done|..]; cbn [app space_head] in H1 |- *; destruct (space1 a); try done.
    + by rewrite E2.
    + destruct (space2 a b); [done|]. by rewrite E3.
Qed.

Lemma message_round p : json_line p -> len p + 1 <= MaxMessageBytes ->
  exists out, writeMessage p = Ok out /\ readMessage out = Ok p.
Proof.
  intros (Hne & Htr & Hnl) Hlen. exists (p ++ [10]). unfold writeMessage, readMessage.
  destruct (str_eqb_spec p []); [done|]. cbn [orb]. replace (MaxMessageBytes <? len p + 1) with false by lia. split; [done|].
  rewrite take_ge; [|rewrite length_app; cbn; unfold len in Hlen; lia]. rewrite read_line_app by done.
  rewrite len_app. change (len [10]) with 1. replace (MaxMessageBytes + 1 <? len p + 1) with false by lia.
  rewrite TrimSpace_newline by done. by destruct (str_eqb_spec p []).
Qed.

Section Wire.
Context `{FsJsonLaws} (s : Server) (quote : bytes -> bytes) (x : xhost).

(** The stream of a client: one [Serve] of a server without a backend. *)
Definition served (f : fs) (inp : bytes) : bytes * fs :=
  let '(out, _, f') := Serve (B := unit) (HB := {| api_pending := unit; api_begin b _ := (Ok tt, b); api_complete b _ _ _ := b; api_observe b _ _ _ := b |})
    x s quote None f inp in (out, f').

Definition response_to (id : bytes) (o : result failure Result) : Response :=
  match o with
  | Ok result => mkResponse ProtocolVersion id result None
  | Err e => mkResponse ProtocolVersion id no_result (Some (error_code (e_is e), e_text e))
  end.

(** A call whose two messages fit is the operation itself. *)
Lemma call_performs f id r request o f' :
  request = mkRequest ProtocolVersion id (rq_Operation r) (rq_FinalPath r) (rq_TempPath r) (rq_Mode r) (rq_PreserveExistingMode r)
    (rq_ReplaceExisting r) (rq_LinkTarget r) (rq_ModTimeUnixNano r) (rq_Cursor r) (rq_Limit r) ->
  validateRequest request = None -> readOnly s && mutatingOperation (rq_Operation r) = false ->
  perform x s quote f request = (o, f') ->
  len (marshal_request request) + 1 <= MaxMessageBytes -> len (marshal_response (response_to id o)) + 1 <= MaxMessageBytes ->
  call served f id r = (match o with Ok result => Ok result | Err e => Err (other (str "sessionfsops " ++ error_code (e_is e) ++ str ": " ++ e_text e)) end, f').
Proof.
  intros Hreq Hval Hro Hp Hl1 Hl2. unfold call. rewrite <- Hreq.
  assert (writeRequest request = writeMessage (marshal_request request)) as -> by (by rewrite Hreq).
  destruct (message_round _ (request_line request) Hl1) as (out & -> & Hread). unfold served, Serve, readRequest. rewrite Hread, request_round, Hval.
  assert (rq_Operation request = rq_Operation r /\ rq_ID request = id) as [Eop Eid] by (by rewrite Hreq).
  unfold answer. rewrite Eop, Hro, Hp, Eid.
  destruct (message_round _ (response_line (response_to id o)) Hl2) as (reply & Hw & Hread2).
  assert (forall resp, mkResponse ProtocolVersion (rp_ID resp) (rp_Result resp) (rp_Error resp) = response_to id o ->
    match writeResponse resp with Ok out0 => out0 | Err _ => [] end = reply) as Hsent by (intros resp E; unfold writeResponse; by rewrite E, Hw).
  rewrite Hsent by (by destruct o). unfold readResponse. rewrite Hread2. cbn [result_bind]. rewrite response_round.
  destruct o as [result|e]; cbn [response_to rp_Protocol rp_Error rp_ID rp_Result].
  - rewrite str_eqb_refl. cbn [negb result_bind rp_ID rp_Result]. by rewrite str_eqb_refl.
  - rewrite str_eqb_refl. done.
Qed.

End Wire.

(** ** The whole listing *)

(** The request for a page as it is sent. *)
Definition page_request (id path cursor : bytes) : Request :=
  mkRequest ProtocolVersion id OpList path [] 0 false false [] 0 cursor 256.

Definition id_ok (id : bytes) : Prop := TrimSpace id <> [] /\ len id <= 128.

(** Every page of the directory fits into a message. *)
Definition pages_fit `{FsJson} (x : xhost) (s : Server) (f : fs) (path : bytes) (ids : nat -> bytes) (names : list bytes) : Prop :=
  forall n cursor, cursor = [] \/ cursor ∈ names ->
    len (marshal_request (page_request (ids n) path cursor)) + 1 <= MaxMessageBytes /\
    len (marshal_response (response_to (ids n) (list_ x s f (list_request path cursor)))) + 1 <= MaxMessageBytes.

Section All.
Context `{FsJsonLaws} (x : xhost) (s : Server) (quote : bytes -> bytes) (rootl : loc).
Context (root_abs : root s = abs_path rootl) (root_plain : Forall plain rootl).
Context (f : fs) (Ht : tree f) (Hcalm : calm_host x).
Context (raw rel prel nm pabs : bytes) (rl : list bytes) (lp : loc).
Context (Hres : resolveFinal x s f raw = Ok (rel, prel, nm, pabs)) (R : resolved s rootl x f raw rel prel nm pabs rl lp).
Context (Hdir : f !! (lp ++ [nm]) = Some Dir).
Context (ids : nat -> bytes) (Hids : forall n, id_ok (ids n)) (Hfit : pages_fit x s f raw ids (children f (lp ++ [nm]))).

Abbreviation names := (children f (lp ++ [nm])).
Abbreviation cursor_at := (cursor_at f nm lp).

Lemma raw_nonempty : raw <> [].
Proof. intros E. pose proof (res_clean _ _ _ _ _ _ _ _ _ _ _ R) as Hc. rewrite E in Hc. by vm_compute in Hc. Qed.

Lemma cursor_fits j : (j <= length names)%nat -> cursor_at j = [] \/ cursor_at j ∈ names.
Proof. intros Hj. destruct j as [|i]; [by left|]. right. apply nth_name. lia. Qed.

Lemma List_page_call n j : (j <= length names)%nat -> exists mds,
  list_entries x f rel (abs_path (lp ++ [nm])) (take 256 (drop j names)) = Ok mds /\ md_Name <$> mds = take 256 (drop j names) /\
  List_page (served s quote x) f (ids n) raw (cursor_at j) 256 =
    (Ok (mds, if (j + 256 <? length names)%nat then cursor_at (j + 256) else []), f).
Proof.
  intros Hj. destruct (list_page x s rootl f Ht Hcalm raw rel prel nm pabs rl lp Hres R Hdir j Hj) as (mds & E1 & E2 & E3).
  exists mds. split; [done|]. split; [done|]. unfold List_page.
  destruct (Hfit n (cursor_at j) (cursor_fits j Hj)) as [F1 F2]. rewrite E3 in F2.
  erewrite (call_performs s quote x f (ids n) _ (page_request (ids n) raw (cursor_at j)));
    [|reflexivity| |by rewrite andb_false_r| |exact F1|exact F2].
  - done.
  - unfold validateRequest. cbn [page_request rq_Protocol rq_ID rq_Operation rq_FinalPath rq_Limit].
    change (str_eqb (TrimSpace ProtocolVersion) ProtocolVersion) with true. destruct (Hids n) as [I1 I2].
    destruct (str_eqb_spec (TrimSpace (ids n)) []); [done|]. replace (128 <? len (ids n)) with false by lia. cbn [negb orb].
    change (TrimSpace OpList) with OpList. destruct (str_eqb_spec raw []) as [E|]; [by apply raw_nonempty in E|]. done.
  - unfold perform. cbn [page_request rq_Operation]. change (list_ x s f (page_request (ids n) raw (cursor_at j))) with (list_ x s f (list_request raw (cursor_at j))).
    by rewrite E3.
Qed.

Lemma ListAll_from fuel j out : (j <= length names)%nat -> (length names - j < fuel)%nat -> exists mds,
  list_entries x f rel (abs_path (lp ++ [nm])) (drop j names) = Ok mds /\ md_Name <$> mds = drop j names /\
  ListAll (served s quote x) fuel ids f raw (cursor_at j) out = Some (Ok (out ++ mds), f).
Proof.
  revert j out. induction fuel as [|fuel IH]; intros j out Hj Hf; [lia|]. cbn [ListAll].
  destruct (List_page_call fuel j Hj) as (mds & E1 & E2 & ->).
  destruct (Nat.ltb_spec (j + 256) (length names)) as [Hlt|Hge].
  - destruct (IH (j + 256)%nat (out ++ mds)) as (rest & R1 & R2 & R3); [lia|lia|]. exists (mds ++ rest).
    rewrite <- drop_drop in R1, R2.
    split; [rewrite <- (take_drop 256 (drop j names)); by apply list_entries_app|].
    split; [by rewrite fmap_app, E2, R2, take_drop|]. rewrite <- app_assoc in R3.
    replace (cursor_at (j + 256)) with (nth (j + 255) names []) by (by replace (j + 256)%nat with (S (j + 255)) by lia).
    destruct (str_eqb_spec (nth (j + 255) names []) []) as [E|_].
    { exfalso. revert E. apply (cursor_nonempty f Ht nm lp). lia. }
    destruct (str_eqb_spec (nth (j + 255) names []) (cursor_at j)) as [E|_].
    { exfalso. destruct j as [|i]; cbn [SessionFsOpsList.cursor_at] in E.
      - revert E. apply (cursor_nonempty f Ht nm lp). lia.
      - pose proof (increasing_nth names i (S i + 255) (children_increasing _ _) ltac:(lia) ltac:(lia)) as Hi. by rewrite E, str_ltb_irrefl in Hi. }
    replace (nth (j + 255) names []) with (cursor_at (j + 256)) by (by replace (j + 256)%nat with (S (j + 255)) by lia). exact R3.
  - exists mds. rewrite take_ge in E1, E2 by (rewrite length_drop; lia). done.
Qed.

End All.

(** A directory is listed completely.  Over a quiet host, a client that
    asks for the pages of a directory one after the other, each request and
    response encoded, sent, read and decoded, ends after at most one page more
    than there are entries and then holds the metadata of every entry, in
    order of the names and each exactly once: the same as one pass over the
    directory. *)
Theorem fsops_list_all `{FsJsonLaws} (h : host) (f0 : fs) (cwd cfg : bytes) (ro : bool) (description : option (bytes * bool)) (s : Server)
    (quote : bytes -> bytes) (x : xhost) (f : fs) (ids : nat -> bytes) (path rel prel nm pabs : bytes) (lp : loc) :
  NewServer h f0 cwd cfg ro description = Ok s -> tree f -> calm_host x -> (forall n, id_ok (ids n)) ->
  resolveFinal x s f path = Ok (rel, prel, nm, pabs) -> pabs = abs_path lp -> real f lp -> f !! (lp ++ [nm]) = Some Dir ->
  let names := children f (lp ++ [nm]) in
  pages_fit x s f path ids names ->
  exists mds, ListAll (served s quote x) (S (length names)) ids f path [] [] = Some (Ok mds, f) /\
    md_Name <$> mds = names /\ list_entries x f rel (abs_path (lp ++ [nm])) names = Ok mds /\
    (forall c, c ∈ names <-> is_Some (f !! (lp ++ [nm; c]))) /\ increasing names.
Proof.
  intros [(rootl & Hr & Hp) _]%NewServer_root Ht Hcalm Hids Hres Hlp Hreal Hdir names Hfit.
  pose proof Hres as Hres'. apply (resolveFinal_ok s rootl) in Hres' as (rl & lp' & R); [|done..].
  assert (lp' = lp) as ->.
  { pose proof (res_abs _ _ _ _ _ _ _ _ _ _ _ R) as E. rewrite Hlp in E. unfold abs_path in E. injection E as E. symmetry.
    apply join_slash_inj in E; [done|by apply names_plain, Hreal|apply names_plain, R]. }
  destruct (ListAll_from x s quote rootl f Ht Hcalm path rel prel nm pabs rl lp Hres R Hdir ids Hids Hfit (S (length names)) 0 []) as (mds & E1 & E2 & E3);
    [lia|unfold names; lia|].
  exists mds. rewrite drop_0 in E1, E2. split; [exact E3|]. split; [done|]. split; [done|]. split; [|apply children_increasing].
  intros c. unfold names. rewrite children_in. by rewrite <- app_assoc.
Qed.

(** ** An example *)

Lemma demo_line z : 10 < z -> json_line [123; z; 125].
Proof.
  intros Hz. split; [done|]. split; [split|].
  - done.
  - cbn [rev app space_tail]. change (space1 125) with false. cbn iota.
    assert (space2 z 125 = false) as -> by (unfold space2; cbn; by rewrite andb_false_r).
    assert (space3 123 z 125 = false) as -> by reflexivity. reflexivity.
  - cbn [existsb]. change (10 =? 123) with false. change (10 =? 125) with false. by replace (10 =? z) with false by lia.
Qed.

Lemma tuple_metadata_id md : tuple_metadata (metadata_tuple md) = md.
Proof. by destruct md. Qed.

Instance demo_json_laws : FsJsonLaws.
Proof.
  split.
  - intros []. cbn [marshal_request unmarshal_request demo_json]. rewrite Z.add_simpl_l. cbn [Z.to_pos]. by rewrite decode_encode.
  - intros [p i [tp bp am re av md es nc] e]. cbn [marshal_response unmarshal_response demo_json]. rewrite Z.add_simpl_l. cbn [Z.to_pos].
    rewrite decode_encode. unfold response_tuple.
    cbn [rp_Result rp_Protocol rp_ID rp_Error rs_TempPath rs_BackupPath rs_AppliedMode rs_ReplacedExisting rs_AtomicVisibility rs_Metadata rs_Entries rs_NextCursor].
    do 3 f_equal.
    + by destruct md as [[]|].
    + induction es as [|md' es IH]; [done|]. rewrite !fmap_cons, tuple_metadata_id. by f_equal.
  - intros r. apply demo_line. lia.
  - intros r. apply demo_line. lia.
Qed.

Definition demo_dir : fs := {[
  [str "srv"] := Dir; [str "srv"; str "d"] := Dir; [str "srv"; str "d"; str "f"] := File (str "old"); [str "srv"; str "d"; str "a"] := Link (str "f") ]}.

Lemma fsops_list_all_witness : exists mds,
  ListAll (served demo_root (fun q => q) demo_host) 3 (fun _ => str "id") demo_dir (str "d") [] [] = Some (Ok mds, demo_dir) /\
  md_Name <$> mds = [str "a"; str "f"].
Proof.
  destruct (fsops_list_all (x_host demo_host) demo_dir (str "/") (str "/srv") false None demo_root (fun q => q) demo_host demo_dir (fun _ => str "id")
    (str "d") (str "d") [] (str "d") (str "/srv") [str "srv"]) as (mds & H1 & H2 & _).
  - vm_compute. reflexivity.
  - apply tree_ok_tree. vm_compute. reflexivity.
  - exact demo_calm.
  - intros _. split; [discriminate|]. vm_compute. discriminate.
  - vm_compute. reflexivity.
  - reflexivity.
  - split; [repeat constructor; apply good_name_ok; reflexivity|]. intros [|[|k]] Hk; [reflexivity|reflexivity|cbn in Hk; lia].
  - reflexivity.
  - intros n cursor _. split; unfold MaxMessageBytes; cbn [len length marshal_request marshal_response demo_json]; unfold len; cbn [length]; lia.
  - exists mds. split; [exact H1|]. rewrite H2. vm_compute. reflexivity.
Defined.

End SessionFsOpsList.
